(* ===== verification/_CoqProject ===== *)
-Q . S2P
Prelude.v
Bytes.v
Sorting.v
Leb128.v
WasmMemory.v
WasmTables.v
WasmStack.v
Checksum.v
Ipv4Address.v
Ip.v
IpFrag.v
IpProto.v
TcpPacket.v
TcpCongestion.v
Tcp.v
TcpSend.v
Utf8.v
WebSocket.v
Dns.v
Page.v
Buffer.v
SortedMap.v
Serializer.v
Wal.v
Checkpoint.v
Txn.v
Udp.v
Str.v
PyNum.v
PyDict.v
Plural.v
Fallback.v
Locale.v
SqlTypes.v
Catalog.v
Ir.v
Optimizer.v
Llvm.v
OptimizerCorrect.v
Ast.v
IrBuilder.v
Transform.v
IrMachine.v
SourceSemantics.v
TransformExpr.v
TransformCorrect.v
TransformProps.v
SqlLexer.v
SqlParser.v
SqlParserTotal.v
SqlExpression.v
SqlText.v
SqlPunctuation.v
PyFloat.v
SqlValue.v
SqlPlan.v
SqlExec.v
SqlFolding.v
SqlQuery.v
BTree.v
BTreeNode.v
BTreeLeaf.v
BTreeSplit.v
Ipv6Text.v
DnsMessage.v
DnsResolver.v
PluginDeps.v
PluginResolve.v
PluginHooks.v
PluginEvents.v
PluginServices.v
PluginBase.v
PluginFiles.v
PluginManager.v
PluginManagerFacts.v
