(* ===== verification/Prelude.v ===== *)
(** A verification library for the Python code of AinosOS.

    AinosOS is a large repository; this library models the parts that carry its own
    logic in Python: the WebAssembly runtime's memory, tables, stacks and integer
    codec, the network stack from checksums to TCP, WebSocket and DNS, the database from
    its pages and its log to SQL, the core of the internationalisation, the compiler's
    translation of syntax trees to its intermediate representation and the passes on it, and the
    plugin system. Every definition
    follows a function of the source and keeps its name. A file on a component ends with what the
    component promises, its lemmas before and a concrete input after each promise (the
    lemmas named [..._witness]).

    * How Python is modelled

    - [Prelude] (this file): [res], the result of a call that may raise; [method],
      a call of a method of a mutable object, which returns the object as it was
      left even when an exception is raised; [let!], the sequencing of such
      calls, and [m_try] for [try]/[except]; [Part], an object that is a part of
      a world, with the lifting of its methods to the world, and [Apart], two parts that
      do not overlap; indices and slices of lists with negative indices, clamping and
      [IndexError] ([py_get], [py_set], [py_slice], [py_slice_set]); loops
      over ranges with their invariant rules; [split] and [join]; lemmas on the
      bits of integers; the tactics [case_ifs], [if_true], [if_false],
      [invert_res], [fields].
    - [Bytes]: bytes objects as lists of integers, the [struct] module (pack, unpack,
      unpack_from and pack_into, with the range errors and the partial writes of
      pack_into), and the interface [PrefixCodec] of self-delimiting encodings.
    - [Utf8], [Str], [PyNum], [PyFloat]: texts as lists of code points and their UTF-8
      (strict, or with replacements), the methods of ASCII strings, [int] and [str] of numbers, binary64 numbers as bit
      patterns with their order and their arithmetic.
    - [PyDict], [SortedMap], [Sorting]: dictionaries that keep the order of insertion,
      the sorted items of a dictionary, and the stable sort of [list.sort].

    Integers are unbounded, as in Python; the masks and the fixed-width fields of
    the code are written where the code has them. A dictionary is a [gmap], or an
    association list where the code depends on the order. Where the code shares a
    mutable object the model has an object store ([Buffer], [Txn], [BTree],
    [DnsResolver], [PluginHooks], [PluginManager]); elsewhere objects
    have one owner.

    A loop or a recursion that may not end carries fuel and returns an option whose
    [None] is a call that has not ended, never an error. The theorems say which fuel is
    enough: the number of the nodes of a graph plus two for the dependency graph
    ([PluginDeps], [PluginManagerFacts]); one more than the number of the aliases
    ([PluginServices]); one more than the number of the tokens ([SqlParserTotal]); two
    rounds of the pool's frames for the CLOCK sweep ([Buffer]); some fuel for every name of
    the DNS that follows no cycle ([Dns]). Or they say that no fuel is:
    cycles of pointers, a pool with every page pinned, an alias of itself. The fuel of a
    nested SQL query is the depth to which Python lets calls nest.

    * The parts

    WebAssembly runtime (wasm/src):
    - [Leb128] is utils/leb128.py: round trips of both encodings in any
      surrounding bytes, the range of what the decoder accepts, the reader's
      [skip] against reading. The decoder's bound of ten bytes is structural; the
      encoders' fuel is a bound on the bit length and is proved sufficient.
    - [WasmMemory] is engine/memory.py, [Memory] and [SharedMemory]: the
      invariant that ties the byte array to the page counter under every
      operation, [copy] as memmove, [store_i32] and [grow] on every branch.
    - [WasmTables] is engine/tables.py: [copy] with overlap in both directions, [init].
    - [WasmStack] is engine/stack.py with the value types of module/types.py: the two
      parallel lists of the operand stack implement a stack of typed values, and
      the exact case in which they do not.

    Network stack (network/src):
    - [Checksum] is utils/checksum.py: the Internet checksum as a one's complement
      sum modulo 65535, what makes a receiver's check succeed, the incremental
      context, the table-driven CRC-32 against the bitwise one.
    - [Ipv4Address], [Ip], [IpFrag], [IpProto] are protocol/ip.py: headers and
      packets, fragmentation and reassembly (fragments in any order rebuild the
      payload; when the fragmentation loop ends), and the protocol layer with
      its routes, filters and counters (each received packet is counted once;
      longest prefix routing).
    - [TcpPacket], [TcpCongestion], [Tcp], [TcpSend] are protocol/tcp.py: segments,
      congestion control, and the connection table: in-order delivery of the
      stream whatever the order of the segments, the duplicate that blocks the
      receiver, sending in segments of the window, and the reachable states.
    - [Udp] is protocol/udp.py: datagrams, sockets as bounded queues, the port table.
    - [WebSocket] is protocol/websocket.py: frames, and [recv] over a stream of
      frames with fragmentation and interleaved control frames.
    - [Dns], [Ipv6Text], [DnsMessage], [DnsResolver] are protocol/dns.py: the decoder of
      names against an inductive specification of compressed names and its divergence on
      pointer cycles, the LRU cache, records and messages with their round trip, and the
      resolver as tasks of an event loop: one query in flight for a question, and all who
      wait for it get its answer.

    The network files build on one another as the code does: [Ip] uses [Checksum]
    and [Ipv4Address], [IpFrag] uses [Ip], [IpProto] uses both, [Tcp] uses
    [TcpPacket] and [TcpCongestion], [DnsResolver] uses [DnsMessage] and [Dns].

    Database (database/src):
    - [Page] and [Buffer] are storage/page.py and storage/buffer.py: what is appended to a
      page survives serialisation; the index invariant under any use of the pool and of the
      shared page objects, insertion with the CLOCK sweep, its termination
      within two rounds and its divergence when every page is pinned.
    - [BTree], [BTreeNode], [BTreeLeaf], [BTreeSplit] are storage/btree.py, on the pool of
      [Buffer]: what a node writes is what the next node reads; a tree opened on a
      page that holds a leaf is a finite map until the leaf is full; then the split fails and
      loses half of the entries; a new tree cannot be used at all.
    - [Serializer], [Wal], [Checkpoint], [Txn] are utils/serializer.py, storage/wal.py,
      storage/checkpoint.py and sql/transaction.py: rows and records read back, a log that is
      replayed in a new process as it was stored (under the table of its page), recovery from a checkpoint, and what a
      transaction sees.
    - [SqlTypes] and [Catalog] are sql/types.py and sql/catalog.py: what coercion gives fits
      the type; every change of the schema is in the file.
    - [SqlLexer], [SqlParser] are sql/parser.py. [SqlParserTotal]: it ends on
      every input. [SqlExpression], [SqlText]: a printer with the fewest parentheses is read back,
      from tokens and from text. [SqlPunctuation]: in the statements that are
      read from a text there is no list and no call, as the lexer never makes the tokens the
      parser looks for.
    - [SqlValue], [SqlPlan], [SqlExec] are sql/planner.py, sql/optimizer.py and
      sql/executor.py. [SqlFolding]: folding computes what the executor computes.
      [SqlQuery]: SELECT against an operation on lists, and what INSERT hands to the store.

    Internationalisation (i18n/core):
    - [Plural], [Fallback], [Locale] are plural.py, fallback.py and locale.py: the rules of
      each language with the registry, the chain of fallbacks, locale codes and
      their negotiation.

    Compiler (compiler/src):
    - [Ir] and [Optimizer] are middle/ir.py and the passes of middle/optimizer.py on
      straight-line code; [Llvm] is what backend/llvm_gen.py makes of the integer
      instructions, with a semantics; [OptimizerCorrect]: the passes keep what the
      generated code computes, where they do, and examples where they do not.
    - [Ast], [IrBuilder], [Transform] are the nodes of frontend/ast.py, the modules and the builder
      of middle/ir.py, and middle/transform.py, which translates the nodes; [IrMachine] runs
      instructions with labels and jumps, for either reading of a conditional jump;
      [SourceSemantics] is an interpreter of the syntax tree, with the check that a function is
      in the fragment that is translated as it is written; [TransformExpr] and [TransformCorrect]
      follow the translation of expressions, statements and functions; [TransformProps]: a
      function of the fragment, translated, computes the source function with jumps on zero and the function
      with every condition negated with jumps on other values, and programs outside the fragment.
      The interpreter's fuel bounds the turns of each loop; the theorems are on the runs that
      it is enough for, and say that the translated function then ends too.

    Plugins (plugins):
    - [PluginHooks], [PluginEvents], [PluginServices], [PluginBase] are api.py: hooks as
      priority queues and what a trigger calls; the event bus, whose deliveries are threads that
      interleave; services with aliases; the base class of plugins.
    - [PluginDeps], [PluginResolve], [PluginFiles], [PluginManager] are plugin_manager.py:
      the dependency graph with its load order and its cycles, the graph that is built for one
      plugin, configuration files, hot reload and isolation, and the manager on
      top of all of them. [PluginManagerFacts]: loading ends and loads what a plugin requires
      first, cleaning up leaves nothing of a plugin in any registry.

    * Interfaces

    A class states what one component promises to another or what the library
    expects of its surroundings: [PrefixCodec] (self-delimiting encodings), [Part] and [Apart] (objects
    of a world), [SetIteration] (the order of a set), [DataStore] (where the SQL executor
    keeps rows: the repository implements none), [Runtime], [Host], [Floats] (pickle, numpy, the
    calendar, the texts of floats). The instances in the examples show that
    their laws can hold.

    * Abstractions

    - Times are integers in a unit of no importance: the code subtracts and compares
      them. Round-trip estimates are rationals. A binary64 value stored in memory is
      its bit pattern; stored as a 32-bit float it is rounded to the nearest one, on the bits.
    - Random numbers, the clock and the iteration order of a Python set are arguments.
    - Callbacks, handlers, factories and the methods that a plugin overrides are methods of
      a world, so they may use the object that calls them; where a theorem needs that they
      leave something alone, it says so. Simple callbacks are observed as events; writes to
      sockets succeed.
    - asyncio is a step relation between its awaits; threads interleave at the points where the
      code holds no lock; elsewhere a method under a lock is one step.
    - Files are tables of contents by name; writes and fsyncs succeed. JSON is read back as it
      was written. Directory scans and the import of a module are arguments.
    - Message texts of exceptions and logging are left out. Python's recursion limit is
      left out except where fuel stands for it.
    - Texts that the SQL lexer and the internationalisation code read are ASCII.
    - Sorting by keys that are NaN is that of an insertion sort. IPv6 addresses print as
      before Python 3.13; what [inet_aton] accepts is a parameter.
    - The values of the generated LLVM code are 32-bit integers without their types: a [bitcast]
      is the identity.
    - The HTTP handshake and the asyncio plumbing of WebSocket are not modelled.

    * Not modelled

    - Modules that cannot be imported as they stand, so that none of their code runs:
      network/src/protocol/http.py, the WebAssembly decoder and validator.
    - The WebAssembly interpreter, and the 32-bit floats of its operand stack; the translator and formatters of the
      internationalisation, which are texts and tables; the vector database, whose
      results are those of numpy.
    - The compiler's lexer, parser, analyser and other back ends.
    - Plugin discovery and the command line: directory scans, imports, output.
    - The container runtime, user tools, training, models and benchmarks:
      calls of the operating system, of network services and of numerical libraries.
    - The kernel, firmware, platform code and bindings, in C, C++ and Rust. *)

From Stdlib Require Export ZArith Lia ZifyBool ZifyNat.
From stdpp Require Export base option list list_numbers strings gmap.

(** * Results: a Python call returns a value or raises an exception *)

(** The exception classes the modelled code raises, without their message
    texts: the built-in ones first, then the classes the repository defines. *)
Inductive exn :=
  | ValueError
  | TypeError
  | IndexError
  | KeyError
  | RuntimeError
  | ZeroDivisionError
  | OverflowError
  | AttributeError
  | OSError
  | ConnectionError
  | StructError
  | UnicodeError
  | WasmMemoryError
  | TableError
  | ChecksumError
  | IPError
  | WebSocketError
  | WebSocketProtocolError
  | WebSocketConnectionClosed
  | DNSResolverError
  | DNSTimeoutError
  | UDPError
  | UDPPortUnavailable
  | TimeoutError
  | SyntaxError
  | RecursionError
  | CancelledError
  | InvalidStateError
  | NotImplementedError
  | ParserError
  | PluginException
  | PluginLoadError
  | PluginDependencyError
  | PluginVersionError
  | HookException
  | ServiceException.

#[export] Instance exn_eq_dec : EqDecision exn.
Proof. solve_decision. Defined.

Inductive res (A : Type) :=
  | Ok (a : A)
  | Err (e : exn).
Arguments Ok {A} _.
Arguments Err {A} _.

#[export] Instance res_eq_dec {A} `{EqDecision A} : EqDecision (res A).
Proof. solve_decision. Defined.

#[export] Instance res_ret : MRet res := @Ok.
#[export] Instance res_bind : MBind res :=
  fun A B f m => match m with Ok a => f a | Err e => Err e end.
#[export] Instance res_fmap : FMap res :=
  fun A B f m => match m with Ok a => Ok (f a) | Err e => Err e end.

Lemma bind_Ok {A B} (m : res A) (f : A → res B) b :
  m ≫= f = Ok b ↔ ∃ a, m = Ok a ∧ f a = Ok b.
Proof. destruct m as [a|]; cbn; [|naive_solver]. split; [by exists a|intros (a' & E & ?); congruence]. Qed.

Lemma Ok_inj {A} (a b : A) : Ok a = Ok b → a = b.
Proof. congruence. Qed.

(** [except Exception]: [CancelledError] is not an [Exception]. *)
Definition is_exception (e : exn) : bool := negb (bool_decide (e = CancelledError)).

(** [guard_else b e]: the pattern [if not b: raise e]. *)
Definition guard_else (b : bool) (e : exn) : res () :=
  if b then Ok () else Err e.

Definition is_ok {A} (m : res A) : bool := match m with Ok _ => true | Err _ => false end.

(** A method of a mutable object: the object after the call, together with the
    returned value or the exception. An exception keeps the mutations made
    before it was raised. *)
Definition method (S A : Type) : Type := S → S * res A.

Definition m_ret {S A} (a : A) : method S A := λ s, (s, Ok a).
Definition m_raise {S A} (e : exn) : method S A := λ s, (s, Err e).
Definition m_get {S} : method S S := λ s, (s, Ok s).
Definition m_put {S} (s' : S) : method S () := λ _, (s', Ok ()).
Definition m_lift {S A} (m : res A) : method S A := λ s, (s, m).
Definition m_bind {S A B} (m : method S A) (k : A → method S B) : method S B :=
  λ s, match m s with
       | (s', Ok a) => k a s'
       | (s', Err e) => (s', Err e)
       end.

Declare Scope py_scope.
Delimit Scope py_scope with py.
Open Scope py_scope.
Notation "'let!' x := m 'in' k" := (m_bind m (λ x, k))
  (at level 10, x pattern, m at level 100, k at level 200,
   format "'let!'  x  :=  m  'in' '//' k") : py_scope.

Lemma m_bind_ok {S A B} (m : method S A) (k : A → method S B) s s' a :
  m s = (s', Ok a) → m_bind m k s = k a s'.
Proof. intros E. unfold m_bind. by rewrite E. Qed.

Lemma m_bind_lift {S A B} (r : res A) a (k : A → method S B) s :
  r = Ok a → m_bind (m_lift r) k s = k a s.
Proof. intros ->. done. Qed.

Lemma m_bind_err {S A B} (m : method S A) (k : A → method S B) s s' e :
  m s = (s', Err e) → m_bind m k s = (s', Err e).
Proof. intros E. unfold m_bind. by rewrite E. Qed.

(** [try: m except Exception: h]. *)
Definition m_try {S A} (m : method S A) (h : exn → method S A) : method S A :=
  λ s, match m s with
       | (s', Err e) => if is_exception e then h e s' else (s', Err e)
       | r => r
       end.

(** A part of a larger state: an object that methods of the whole reach. *)
Class Part (W S : Type) := {
  part : W → S;
  set_part : S → W → W;
  part_set s w : part (set_part s w) = s;
  set_part_set s s' w : set_part s (set_part s' w) = set_part s w;
  set_part_self w : set_part (part w) w = w;
}.
#[export] Hint Rewrite @part_set @set_part_set @set_part_self : part.

(** A method of the part, on the whole. *)
Definition on_part {W S A} `{Part W S} (m : method S A) : method W A :=
  λ w, let (s, r) := m (part w) in (set_part s w, r).

(** Two parts that do not overlap. *)
Class Apart (W S T : Type) `{Part W S} `{Part W T} := {
  apart_l (t : T) (w : W) : part (S := S) (set_part t w) = part w;
  apart_r (s : S) (w : W) : part (S := T) (set_part s w) = part w;
}.
#[export] Hint Rewrite @apart_l @apart_r using typeclasses eauto : part.

Lemma on_part_get {W S} `{Part W S} (w : W) : on_part m_get w = (w, Ok (part (S := S) w)).
Proof. unfold on_part. cbn. by rewrite set_part_self. Qed.

#[export] Instance part_fst {S T} : Part (S * T) S.
Proof. by refine {| part := fst; set_part s w := (s, w.2) |}; intros; destruct w. Defined.
#[export] Instance part_snd {S T} : Part (S * T) T.
Proof. by refine {| part := snd; set_part t w := (w.1, t) |}; intros; destruct w. Defined.
#[export] Instance apart_fst_snd {S T} : @Apart (S * T) S T part_fst part_snd.
Proof. by split. Qed.

(** [for_each f l]: a [for x in l: f(x)] loop over a method. *)
Fixpoint for_each {S A} (f : A → method S ()) (l : list A) : method S () :=
  match l with
  | [] => m_ret ()
  | x :: l' => let! _ := f x in for_each f l'
  end.

(** [res_map f l]: the list comprehension [[f(x) for x in l]] of a fallible [f]. *)
Fixpoint res_map {A B} (f : A → res B) (l : list A) : res (list B) :=
  match l with
  | [] => Ok []
  | x :: l' => y ← f x; ys ← res_map f l'; Ok (y :: ys)
  end.

Lemma res_map_length {A B} (f : A → res B) l l' : res_map f l = Ok l' → length l' = length l.
Proof.
  revert l'. induction l as [|x l IH]; intros l'; cbn [res_map]; [by intros [= <-]|].
  destruct (f x) as [y|]; [|done]. cbn. destruct (res_map f l) as [ys|]; [|done].
  intros [= <-]. cbn. f_equal. by apply IH.
Qed.

(** * Python sequences: lengths, indices and slices are integers *)

Abbreviation len l := (Z.of_nat (length l)).
Open Scope Z_scope.

(** [l[i]]: a negative index counts from the end. *)
Definition py_index (n i : Z) : Z := if i <? 0 then i + n else i.

Definition py_get {A} (l : list A) (i : Z) : res A :=
  let j := py_index (len l) i in
  if j <? 0 then Err IndexError
  else match l !! Z.to_nat j with Some a => Ok a | None => Err IndexError end.

(** [l[i] = x]. *)
Definition py_set {A} (l : list A) (i : Z) (x : A) : res (list A) :=
  let j := py_index (len l) i in
  if (0 <=? j) && (j <? len l) then Ok (<[Z.to_nat j := x]> l) else Err IndexError.

(** A slice bound, clamped to [0..n] the way Python clamps it. *)
Definition slice_bound (n i : Z) : Z :=
  if i <? 0 then Z.max 0 (i + n) else Z.min i n.

(** [l[a:b]]. *)
Definition py_slice {A} (l : list A) (a b : Z) : list A :=
  let lo := slice_bound (len l) a in
  let hi := slice_bound (len l) b in
  take (Z.to_nat (hi - lo)) (drop (Z.to_nat lo) l).

(** [l[a:]]. *)
Definition py_from {A} (l : list A) (a : Z) : list A := py_slice l a (len l).

(** [l[a:b] = x] on a list or a bytearray: the slice is replaced, whatever the
    length of [x]. *)
Definition py_slice_set {A} (l : list A) (a b : Z) (x : list A) : list A :=
  let lo := slice_bound (len l) a in
  let hi := slice_bound (len l) b in
  take (Z.to_nat lo) l ++ x ++ drop (Z.to_nat (Z.max lo hi)) l.

(** [[x] * n], with the empty list for a negative [n]. *)
Definition py_repeat {A} (n : Z) (x : A) : list A := replicate (Z.to_nat n) x.

(** [range(n)]: empty for a negative [n]. *)
Definition py_range (n : Z) : list Z := seqZ 0 n.

(** [range(n - 1, -1, -1)]. *)
Definition py_range_down (n : Z) : list Z := reverse (py_range n).

(** [l.pop()]: the last element and the rest. *)
Definition py_pop {A} (l : list A) : res (A * list A) :=
  match last l with
  | Some x => Ok (x, take (pred (length l)) l)
  | None => Err IndexError
  end.

(** [del l[a:]]. *)
Definition py_del_from {A} (l : list A) (a : Z) : list A :=
  take (Z.to_nat (slice_bound (len l) a)) l.

(** * Automation *)

(** [invert_res]: split the successful steps of a computation in [res]. *)
Ltac invert_res :=
  repeat match goal with
  | H : Ok _ = Ok _ |- _ => injection H as H; subst
  | H : Err _ = Err _ |- _ => injection H as H; subst
  | H : Ok _ = Err _ |- _ => discriminate H
  | H : Err _ = Ok _ |- _ => discriminate H
  | H : mbind _ _ = _ |- _ => unfold mbind, res_bind in H
  | H : fmap _ _ = _ |- _ => progress unfold fmap, res_fmap in H
  | H : match ?m with Ok _ => _ | Err _ => _ end = Ok _ |- _ =>
      let E := fresh "E" in destruct m eqn:E
  end.

(** [case_ifs]: split every [if] of the goal and drop the impossible branches. *)
Ltac case_ifs :=
  repeat match goal with
  | |- context [if ?b then _ else _] =>
      lazymatch b with
      | context [if _ then _ else _] => fail
      | _ => let E := fresh "Hif" in destruct b eqn:E; try lia
      end
  end.

(** [if_true]/[if_false]: decide the first [if] of the goal by arithmetic. *)
Ltac if_true :=
  match goal with
  | |- context [if ?b then _ else _] =>
      lazymatch b with
      | context [if _ then _ else _] => fail
      | _ => let E := fresh in assert (b = true) as E by lia; rewrite E; clear E
      end
  end.
Ltac if_false :=
  match goal with
  | |- context [if ?b then _ else _] =>
      lazymatch b with
      | context [if _ then _ else _] => fail
      | _ => let E := fresh in assert (b = false) as E by lia; rewrite E; clear E
      end
  end.

(** [is_nat_lit n]: [n] is a numeral; [lit_nat]: evaluate [Z.to_nat] of
    closed integers in the goal. *)
Ltac is_nat_lit n :=
  lazymatch n with
  | O => idtac
  | S ?m => is_nat_lit m
  end.
Ltac lit_nat :=
  repeat match goal with
  | |- context [Z.to_nat ?z] =>
      let n := eval vm_compute in (Z.to_nat z) in is_nat_lit n; change (Z.to_nat z) with n
  end.

Create HintDb pylist.
Create Rewrite HintDb pylist.

(** * Lists *)

Section lists.
Context {A : Type}.
Implicit Types l p s x : list A.

Lemma len_nonneg l : 0 <= len l.
Proof. lia. Qed.

Lemma py_get_lookup l i :
  0 <= i → py_get l i = match l !! Z.to_nat i with Some a => Ok a | None => Err IndexError end.
Proof. intros Hi. unfold py_get, py_index. case_ifs. reflexivity. Qed.

Lemma py_get_app_mid p a s : py_get (p ++ a :: s) (len p) = Ok a.
Proof.
  rewrite py_get_lookup by lia. rewrite Nat2Z.id.
  rewrite lookup_app_r by lia. rewrite Nat.sub_diag. reflexivity.
Qed.

Lemma py_get_in_range l i : 0 <= i < len l → ∃ a, py_get l i = Ok a ∧ l !! Z.to_nat i = Some a.
Proof.
  intros Hi. rewrite py_get_lookup by lia.
  destruct (l !! Z.to_nat i) as [a|] eqn:E; [eauto|].
  apply lookup_ge_None in E. lia.
Qed.

Lemma py_get_past_end l i : len l <= i → py_get l i = Err IndexError.
Proof.
  intros Hi. rewrite py_get_lookup by lia.
  rewrite lookup_ge_None_2 by lia. reflexivity.
Qed.

Lemma py_slice_range l a b :
  0 <= a <= b → b <= len l →
  py_slice l a b = take (Z.to_nat (b - a)) (drop (Z.to_nat a) l).
Proof.
  intros ??. unfold py_slice, slice_bound.
  rewrite (proj2 (Z.ltb_ge a 0)), (proj2 (Z.ltb_ge b 0)) by lia.
  rewrite (Z.min_l a), (Z.min_l b) by lia. reflexivity.
Qed.

(** For non-negative bounds the clamping is that of [take] and [drop]. *)
Lemma py_slice_nonneg l a b :
  0 <= a → 0 <= b → py_slice l a b = take (Z.to_nat (b - a)) (drop (Z.to_nat a) l).
Proof.
  intros ??. unfold py_slice, slice_bound.
  rewrite (proj2 (Z.ltb_ge a 0)), (proj2 (Z.ltb_ge b 0)) by lia.
  destruct (decide (a <= len l)).
  - rewrite (Z.min_l a) by lia. destruct (decide (b <= len l)); [by rewrite Z.min_l by lia|].
    rewrite Z.min_r by lia. rewrite !take_ge by (rewrite length_drop; lia). done.
  - rewrite (drop_ge l (Z.to_nat a)), (drop_ge l) by lia. by rewrite !take_nil.
Qed.

Lemma py_from_nonneg l a : 0 <= a → py_from l a = drop (Z.to_nat a) l.
Proof.
  intros. unfold py_from. rewrite py_slice_nonneg by lia.
  apply take_ge. rewrite length_drop. lia.
Qed.

Lemma py_slice_clamp l a b :
  0 <= a <= b → a <= len l → len l <= b →
  py_slice l a b = drop (Z.to_nat a) l.
Proof.
  intros ???. unfold py_slice, slice_bound.
  rewrite (proj2 (Z.ltb_ge a 0)), (proj2 (Z.ltb_ge b 0)) by lia.
  rewrite (Z.min_l a), (Z.min_r b) by lia. apply take_ge. rewrite length_drop. lia.
Qed.

Lemma py_slice_app_mid p x s : py_slice (p ++ x ++ s) (len p) (len p + len x) = x.
Proof.
  rewrite py_slice_range by (rewrite ?length_app; lia).
  rewrite Nat2Z.id, drop_app_length.
  replace (Z.to_nat _) with (length x) by lia. apply take_app_length.
Qed.

Lemma py_slice_at l p x s a b :
  l = p ++ x ++ s → a = len p → b = a + len x → py_slice l a b = x.
Proof. intros -> -> ->. apply py_slice_app_mid. Qed.

Lemma py_from_app p s : py_from (p ++ s) (len p) = s.
Proof.
  unfold py_from. rewrite length_app.
  rewrite <-(app_nil_r s) at 1. rewrite Nat2Z.inj_add. apply py_slice_app_mid.
Qed.

Lemma length_py_slice l a b :
  0 <= a <= b → b <= len l → len (py_slice l a b) = b - a.
Proof. intros. rewrite py_slice_range by lia. rewrite length_take, length_drop. lia. Qed.

Lemma py_slice_set_range l a b x :
  0 <= a <= b → b <= len l →
  py_slice_set l a b x = take (Z.to_nat a) l ++ x ++ drop (Z.to_nat b) l.
Proof.
  intros ??. unfold py_slice_set, slice_bound.
  rewrite (proj2 (Z.ltb_ge a 0)), (proj2 (Z.ltb_ge b 0)) by lia.
  rewrite (Z.min_l a), (Z.min_l b), Z.max_r by lia. reflexivity.
Qed.

(** A slice assignment of the right length overwrites exactly that range. *)
Lemma length_py_slice_set l a x :
  0 <= a → a + len x <= len l → length (py_slice_set l a (a + len x) x) = length l.
Proof.
  intros ??. rewrite py_slice_set_range by lia.
  rewrite !length_app, length_take, length_drop. lia.
Qed.

Lemma lookup_py_slice_set l a x (i : nat) :
  0 <= a → a + len x <= len l →
  py_slice_set l a (a + len x) x !! i =
    if decide (a <= Z.of_nat i < a + len x) then x !! (i - Z.to_nat a)%nat else l !! i.
Proof.
  intros ??. rewrite py_slice_set_range by lia. case_decide.
  - rewrite lookup_app_r by (rewrite length_take; lia).
    rewrite length_take, lookup_app_l by lia. f_equal. lia.
  - destruct (decide (Z.of_nat i < a)).
    + rewrite lookup_app_l by (rewrite length_take; lia).
      apply lookup_take_lt. lia.
    + rewrite lookup_app_r by (rewrite length_take; lia).
      rewrite lookup_app_r by (rewrite length_take; lia).
      rewrite lookup_drop, length_take. f_equal. lia.
Qed.

Lemma py_slice_of_set l a x :
  0 <= a → a + len x <= len l →
  py_slice (py_slice_set l a (a + len x) x) a (a + len x) = x.
Proof.
  intros ??. rewrite py_slice_set_range by lia.
  remember (take (Z.to_nat a) l) as p eqn:Hp. remember (drop _ l) as s eqn:Hs.
  assert (a = len p) as Ha by (subst p; rewrite length_take; lia).
  clear Hp Hs. subst a. apply py_slice_app_mid.
Qed.

Lemma py_slice_set_nil l a : py_slice_set l a a [] = l.
Proof. unfold py_slice_set. rewrite Z.max_id, app_nil_l. apply take_drop. Qed.

(** A slice that ends before, or starts after, the overwritten range. *)
Lemma py_slice_set_other l a x b c :
  0 <= a → a + len x <= len l → 0 <= b <= c → c <= len l → c <= a ∨ a + len x <= b →
  py_slice (py_slice_set l a (a + len x) x) b c = py_slice l b c.
Proof.
  intros ? Hx ? ? Hd. rewrite !py_slice_range by (rewrite ?length_py_slice_set; lia).
  apply list_eq. intros i. rewrite !lookup_take. case_decide; [|done].
  rewrite !lookup_drop, lookup_py_slice_set by lia. by rewrite decide_False by lia.
Qed.

Lemma py_pop_snoc l (a : A) : py_pop (l ++ [a]) = Ok (a, l).
Proof.
  unfold py_pop. rewrite last_snoc, length_app. simpl.
  rewrite Nat.add_1_r. simpl. by rewrite take_app_length.
Qed.

Lemma length_py_repeat n (a : A) : len (py_repeat n a) = Z.max 0 n.
Proof. unfold py_repeat. rewrite length_replicate. lia. Qed.
End lists.

(** ** Loop rules: an invariant indexed by the number of iterations done *)

Section loops.
Context {S : Type} (f : Z → method S ()).

Lemma for_each_app l1 l2 s :
  for_each f (l1 ++ l2) s = m_bind (for_each f l1) (λ _, for_each f l2) s.
Proof.
  revert s. induction l1 as [|x l1 IH]; intros s; [done|]. simpl. unfold m_bind in *.
  destruct (f x s) as [s' [?|?]]; [apply IH|done].
Qed.

Lemma for_each_range_up (P : Z → S → Prop) n s :
  0 <= n → P 0 s →
  (∀ i s, 0 <= i < n → P i s → ∃ s', f i s = (s', Ok ()) ∧ P (i + 1) s') →
  ∃ s', for_each f (py_range n) s = (s', Ok ()) ∧ P n s'.
Proof.
  intros Hn H0 Hstep. rewrite <-(Z2Nat.id n) in * by lia. unfold py_range.
  induction (Z.to_nat n) as [|k IH]; [by exists s|].
  destruct IH as (s1 & E1 & H1); [lia|intros; apply Hstep; auto; lia|].
  destruct (Hstep (Z.of_nat k) s1) as (s2 & E2 & H2); [lia|done|].
  exists s2. rewrite seqZ_S, for_each_app. unfold m_bind. rewrite E1. cbn [for_each].
  unfold m_bind. rewrite Z.add_0_l, E2. split; [done|]. by rewrite Nat2Z.inj_succ.
Qed.

Lemma for_each_range_down (P : Z → S → Prop) n s :
  0 <= n → P n s →
  (∀ i s, 0 <= i < n → P (i + 1) s → ∃ s', f i s = (s', Ok ()) ∧ P i s') →
  ∃ s', for_each f (py_range_down n) s = (s', Ok ()) ∧ P 0 s'.
Proof.
  intros Hn. revert s. rewrite <-(Z2Nat.id n) by lia. unfold py_range_down, py_range.
  induction (Z.to_nat n) as [|k IH]; intros s H0 Hstep; [by exists s|].
  destruct (Hstep (Z.of_nat k) s) as (s1 & E1 & H1);
    [lia|by rewrite Nat2Z.inj_succ in H0|].
  destruct (IH s1 H1) as (s2 & E2 & H2); [intros; apply Hstep; auto; lia|].
  exists s2. rewrite seqZ_S, reverse_app. cbn [reverse rev_append app for_each].
  unfold m_bind. rewrite Z.add_0_l, E1. done.
Qed.
End loops.

(** ** [str.split] and [str.join] on one separator *)

Section split.
Context {A : Type} `{EqDecision A}.
Implicit Types l : list A.

Fixpoint split_on (c : A) l : list (list A) :=
  match l with
  | [] => [[]]
  | x :: l' =>
      if decide (x = c) then [] :: split_on c l'
      else match split_on c l' with
           | p :: ps => (x :: p) :: ps
           | [] => [[x]]
           end
  end.

Fixpoint join_with (c : A) (ps : list (list A)) : list A :=
  match ps with
  | [] => []
  | [p] => p
  | p :: ps' => p ++ c :: join_with c ps'
  end.

Lemma split_on_app c p l : c ∉ p → split_on c (p ++ c :: l) = p :: split_on c l.
Proof.
  induction p as [|x p IH]; intros Hp; simpl.
  - by rewrite decide_True by done.
  - apply not_elem_of_cons in Hp as [? Hp]. rewrite decide_False by congruence.
    by rewrite IH.
Qed.

Lemma split_on_single c p : c ∉ p → split_on c p = [p].
Proof.
  induction p as [|x p IH]; intros Hp; simpl; [done|].
  apply not_elem_of_cons in Hp as [? Hp]. rewrite decide_False by congruence.
  by rewrite IH.
Qed.

Lemma split_join c ps : ps ≠ [] → Forall (λ p, c ∉ p) ps → split_on c (join_with c ps) = ps.
Proof.
  intros Hne Hps. induction Hps as [|p ps Hp Hps IH]; [done|].
  destruct ps as [|q ps]; simpl; [by apply split_on_single|].
  rewrite split_on_app by done. f_equal. by apply IH.
Qed.

Lemma join_split c l : join_with c (split_on c l) = l.
Proof.
  induction l as [|x l IH]; [done|]. simpl. case_decide as E.
  - subst. rewrite <-IH at 2. by destruct (split_on c l) eqn:El;
      [destruct l; simpl in El; repeat case_match|].
  - destruct (split_on c l) as [|p ps]; [by rewrite <-IH|].
    destruct ps; simpl in *; by rewrite <-IH.
Qed.

Lemma join_no_char x c ps : x ≠ c → Forall (λ p, x ∉ p) ps → x ∉ join_with c ps.
Proof.
  intros Hne. induction 1 as [|p ps Hp Hps IH]; [by intros ?%elem_of_nil|].
  destruct ps as [|q ps]; [done|].
  change (join_with c (p :: q :: ps)) with (p ++ c :: join_with c (q :: ps)).
  rewrite elem_of_app, elem_of_cons. naive_solver.
Qed.
End split.

#[export] Hint Rewrite @length_app @length_take @length_drop @length_replicate
  @length_insert @length_reverse @length_fmap : pylist.

(** [quick_lia]: arithmetic that needs no hypothesis, before arithmetic that does. *)
Ltac quick_lia := first [clear; lia | lia].

(** [fields]: read the literal slices and indices of an explicit byte list. *)
Ltac fields :=
  rewrite ?py_get_lookup, ?py_slice_nonneg, ?py_from_nonneg by quick_lia; lit_nat;
  cbn [take drop lookup list_lookup app fmap option_fmap option_map].

(** * Bits of integers, as arithmetic *)

Lemma land_ones_mod (n a m : Z) : 0 <= n → m = 2 ^ n - 1 → Z.land a m = a mod 2 ^ n.
Proof.
  intros Hn ->. rewrite <-Z.land_ones by lia. f_equal. rewrite Z.ones_equiv. lia.
Qed.

Lemma lor_low_high (n a b : Z) : 0 <= n → 0 <= a < 2 ^ n → Z.lor a (b * 2 ^ n) = a + b * 2 ^ n.
Proof.
  intros Hn Ha. rewrite <-Z.add_lor_land.
  enough (Z.land a (b * 2 ^ n) = 0) by lia.
  rewrite <-(Z.mod_small a (2 ^ n)) by lia. rewrite <-Z.land_ones by lia.
  rewrite <-Z.land_assoc, (Z.land_comm (Z.ones n)), Z.land_ones by lia.
  rewrite Z.mod_mul by lia. apply Z.land_0_r.
Qed.

Lemma lor_high_low (n a b : Z) : 0 <= n → 0 <= a < 2 ^ n → Z.lor (b * 2 ^ n) a = b * 2 ^ n + a.
Proof. intros. rewrite Z.lor_comm, lor_low_high by lia. lia. Qed.

Lemma pow2_bits_bound (n a : Z) :
  0 <= n → 0 <= a → (∀ i, n <= i → Z.testbit a i = false) → a < 2 ^ n.
Proof.
  intros Hn Ha H. destruct (decide (a = 0)) as [->|Hne]; [lia|].
  apply Z.log2_lt_pow2; [lia|]. destruct (decide (Z.log2 a < n)) as [|Hge]; [done|].
  specialize (H (Z.log2 a) ltac:(lia)). rewrite Z.bit_log2 in H by lia. done.
Qed.

Lemma testbit_above (n a i : Z) : 0 <= a < 2 ^ n → n <= i → Z.testbit a i = false.
Proof.
  intros Ha Hi. destruct (decide (a = 0)) as [->|]; [apply Z.bits_0|].
  apply Z.bits_above_log2; [lia|].
  assert (Z.log2 a < n) by (apply Z.log2_lt_pow2; lia). lia.
Qed.

Lemma lxor_bound (n a b : Z) :
  0 <= n → 0 <= a < 2 ^ n → 0 <= b < 2 ^ n → 0 <= Z.lxor a b < 2 ^ n.
Proof.
  intros Hn Ha Hb. assert (0 <= Z.lxor a b) by (apply Z.lxor_nonneg; lia).
  split; [done|]. apply pow2_bits_bound; [done..|]. intros i Hi.
  by rewrite Z.lxor_spec, !(testbit_above n) by done.
Qed.

(** A boolean fact about the integers of [0..n) can be checked by evaluation. *)
Lemma forallb_range (P : Z → bool) n b :
  forallb P (seqZ 0 n) = true → 0 <= b < n → P b = true.
Proof.
  intros H Hb. rewrite forallb_forall in H. apply H.
  apply list_elem_of_In, elem_of_seqZ. lia.
Qed.
