(* ===== verification/Bytes.v ===== *)
(** Byte strings and the [struct] module.

    A [bytes] or [bytearray] object is a list of integers; [bytes_ok] says that
    each one is a byte. The section [Struct] models what the code uses of
    [struct]: packing an integer at a fixed width in either byte order, with
    the range check that raises [struct.error], and the bounds check of
    [unpack_from] and [pack_into]. The class [PrefixCodec] is the interface of
    the self-delimiting encodings (LEB128 numbers, DNS names, ...): its client
    lemma is the round trip of a sequence of values. *)

From S2P Require Import Prelude.

Abbreviation bytes := (list Z).

Definition byte_ok (b : Z) : Prop := 0 <= b < 256.
Abbreviation bytes_ok := (Forall byte_ok).

#[export] Instance byte_ok_dec b : Decision (byte_ok b).
Proof. unfold byte_ok. apply _. Defined.

(** * Integers as bytes *)

Fixpoint le_bytes (n : nat) (v : Z) : bytes :=
  match n with
  | O => []
  | S n' => v mod 256 :: le_bytes n' (v / 256)
  end.

Fixpoint le_val (l : bytes) : Z :=
  match l with
  | [] => 0
  | b :: l' => b + 256 * le_val l'
  end.

Definition be_bytes (n : nat) (v : Z) : bytes := reverse (le_bytes n v).
Definition be_val (l : bytes) : Z := le_val (reverse l).

(** The value range of an [n]-byte field. *)
Definition width (n : nat) : Z := 2 ^ (8 * Z.of_nat n).

(** Two's complement reading of an unsigned [n]-byte value. *)
Definition to_signed (n : nat) (v : Z) : Z :=
  if v <? width n / 2 then v else v - width n.

(** ** struct.pack and struct.unpack *)

Definition pack_u (enc : nat → Z → bytes) (n : nat) (v : Z) : res bytes :=
  if (0 <=? v) && (v <? width n) then Ok (enc n v) else Err StructError.

Definition pack_s (enc : nat → Z → bytes) (n : nat) (v : Z) : res bytes :=
  if (- (width n / 2) <=? v) && (v <? width n / 2) then Ok (enc n v) else Err StructError.

(** [!B], [!H], [!I], [!Q] and their little-endian and signed versions. *)
Abbreviation pack_be := (pack_u be_bytes).
Abbreviation pack_le := (pack_u le_bytes).
Abbreviation pack_be_s := (pack_s be_bytes).
Abbreviation pack_le_s := (pack_s le_bytes).

(** [struct.unpack(fmt, l)] wants exactly the format's number of bytes. *)
Definition unpack_be (n : nat) (l : bytes) : res Z :=
  if len l =? Z.of_nat n then Ok (be_val l) else Err StructError.

(** [struct.unpack_from(fmt, l, off)]: the [n] bytes at [off]. *)
Definition unpack_from (n : nat) (l : bytes) (off : Z) : res bytes :=
  let o := py_index (len l) off in
  if (o <? 0) || (len l <? o + Z.of_nat n) then Err StructError
  else Ok (take n (drop (Z.to_nat o) l)).

Definition unpack_be_from n l off : res Z := be_val <$> unpack_from n l off.
Definition unpack_le_from n l off : res Z := le_val <$> unpack_from n l off.
Definition unpack_be_s_from n l off : res Z := to_signed n <$> unpack_be_from n l off.
Definition unpack_le_s_from n l off : res Z := to_signed n <$> unpack_le_from n l off.

(** [struct.unpack_from(f"!{count}I", l, off)]: [count] fields of [n] bytes each. *)
Fixpoint be_vals (n count : nat) (l : bytes) : list Z :=
  match count with
  | O => []
  | S c => be_val (take n l) :: be_vals n c (drop n l)
  end.

Definition unpack_be_many (n count : nat) (l : bytes) (off : Z) : res (list Z) :=
  be_vals n count <$> unpack_from (count * n) l off.

(** [struct.pack(f"!{len(vs)}I", *vs)]. *)
Definition pack_be_many (n : nat) (vs : list Z) : res bytes :=
  xs ← res_map (pack_be n) vs; Ok (concat xs).

(** The fields of a format, each with its size and its packed value: what they
    write, up to the first one that does not fit. *)
Fixpoint pack_fields (fs : list (nat * res bytes)) : bytes * res () :=
  match fs with
  | [] => ([], Ok ())
  | (_, Ok x) :: fs' => let '(b, r) := pack_fields fs' in (x ++ b, r)
  | (n, Err e) :: fs' => (replicate (n + sum_list fs'.*1) 0, Err e)
  end.

(** [struct.pack_into(fmt, buf, off, ...)]: the place is checked first; then it is
    cleared and the fields are written in order, so that a field that raises
    leaves the ones before it written and zeros after them. *)
Definition pack_into (fs : list (nat * res bytes)) (buf : bytes) (off : Z) : bytes * res () :=
  let o := py_index (len buf) off in
  let n := Z.of_nat (sum_list fs.*1) in
  if (o <? 0) || (len buf <? o + n) then (buf, Err StructError)
  else
    let '(x, r) := pack_fields fs in
    (take (Z.to_nat o) buf ++ x ++ drop (Z.to_nat (o + n)) buf, r).

(** * Lemmas *)

Lemma width_pos n : 0 < width n.
Proof. unfold width. lia. Qed.

Lemma width_S n : width (S n) = 256 * width n.
Proof.
  unfold width. replace (8 * Z.of_nat (S n)) with (8 + 8 * Z.of_nat n) by lia.
  rewrite Z.pow_add_r by lia. reflexivity.
Qed.

Lemma length_le_bytes n v : length (le_bytes n v) = n.
Proof. revert v. induction n; intros; simpl; auto. Qed.

Lemma length_be_bytes n v : length (be_bytes n v) = n.
Proof. unfold be_bytes. rewrite length_reverse. apply length_le_bytes. Qed.

Lemma le_bytes_ok n v : bytes_ok (le_bytes n v).
Proof.
  revert v. induction n; intros; simpl; constructor; auto.
  unfold byte_ok. apply Z.mod_pos_bound. lia.
Qed.

Lemma be_bytes_ok n v : bytes_ok (be_bytes n v).
Proof. unfold be_bytes. apply Forall_reverse, le_bytes_ok. Qed.

Lemma le_val_bound l : bytes_ok l → 0 <= le_val l < width (length l).
Proof.
  induction 1 as [|b l Hb Hl IH]; simpl.
  - unfold width. simpl. lia.
  - rewrite width_S. unfold byte_ok in Hb. lia.
Qed.

Lemma be_val_bound l : bytes_ok l → 0 <= be_val l < width (length l).
Proof.
  intros. unfold be_val. rewrite <-length_reverse.
  apply le_val_bound. by apply Forall_reverse.
Qed.

Lemma le_val_le_bytes n v : le_val (le_bytes n v) = v mod width n.
Proof.
  revert v. induction n as [|n IH]; intros v; simpl.
  - unfold width. simpl. by rewrite Z.mod_1_r.
  - rewrite IH, width_S. rewrite Z.rem_mul_r by (pose proof (width_pos n); lia). lia.
Qed.

Lemma be_val_be_bytes n v : be_val (be_bytes n v) = v mod width n.
Proof. unfold be_val, be_bytes. rewrite reverse_involutive. apply le_val_le_bytes. Qed.

Lemma le_bytes_le_val l : bytes_ok l → le_bytes (length l) (le_val l) = l.
Proof.
  induction 1 as [|b l Hb Hl IH]; [done|]. unfold byte_ok in Hb. simpl.
  rewrite Z.mul_comm, Z_mod_plus, Z_div_plus by lia.
  rewrite Z.mod_small, Z.div_small by lia. rewrite Z.add_0_l. by rewrite IH.
Qed.

Lemma be_bytes_be_val l : bytes_ok l → be_bytes (length l) (be_val l) = l.
Proof.
  intros. unfold be_val, be_bytes. rewrite <-length_reverse.
  rewrite le_bytes_le_val by (by apply Forall_reverse). apply reverse_involutive.
Qed.

Lemma le_bytes_mod n v w : v mod width n = w mod width n → le_bytes n v = le_bytes n w.
Proof.
  intros E. rewrite <-(le_bytes_le_val (le_bytes n v)), <-(le_bytes_le_val (le_bytes n w))
    by apply le_bytes_ok.
  rewrite !length_le_bytes, !le_val_le_bytes. by rewrite E.
Qed.

Lemma to_signed_mod n v :
  - (width n / 2) <= v < width n / 2 → to_signed n (v mod width n) = v.
Proof.
  intros Hv. unfold to_signed. pose proof (width_pos n).
  assert (2 * (width n / 2) <= width n) by (apply Z.mul_div_le; lia).
  destruct (Z.ltb_spec v 0).
  - rewrite <-(Z_mod_plus_full v 1), Z.mod_small by lia. rewrite (proj2 (Z.ltb_ge _ _)); lia.
  - rewrite Z.mod_small by lia. rewrite (proj2 (Z.ltb_lt _ _)); lia.
Qed.

Lemma pack_u_ok enc n v : 0 <= v < width n → pack_u enc n v = Ok (enc n v).
Proof. intros. unfold pack_u. if_true. done. Qed.

Lemma pack_u_err enc n v : ¬ 0 <= v < width n → pack_u enc n v = Err StructError.
Proof. intros. unfold pack_u. if_false. done. Qed.

Lemma pack_u_cases enc n v : pack_u enc n v = Ok (enc n v) ∨ pack_u enc n v = Err StructError.
Proof. unfold pack_u. case_match; auto. Qed.

Lemma pack_u_inv enc n v x : pack_u enc n v = Ok x → 0 <= v < width n ∧ x = enc n v.
Proof. unfold pack_u. case_match eqn:E; intros H; invert_res. split; [lia|done]. Qed.

Lemma unpack_be_be_bytes n v : 0 <= v < width n → unpack_be n (be_bytes n v) = Ok v.
Proof.
  intros. unfold unpack_be. rewrite length_be_bytes, Z.eqb_refl, be_val_be_bytes.
  by rewrite Z.mod_small by lia.
Qed.

Lemma unpack_from_app n p x s :
  length x = n → unpack_from n (p ++ x ++ s) (len p) = Ok x.
Proof.
  intros <-. unfold unpack_from, py_index. if_false.
  assert ((len p <? 0) || (len (p ++ x ++ s) <? len p + len x) = false) as ->.
  { rewrite !length_app. lia. }
  rewrite Nat2Z.id, drop_app_length, take_app_length. done.
Qed.

Lemma unpack_be_from_at d n p v s off :
  d = p ++ be_bytes n v ++ s → 0 <= v < width n → off = len p → unpack_be_from n d off = Ok v.
Proof.
  intros -> ? ->. unfold unpack_be_from. rewrite unpack_from_app by apply length_be_bytes.
  cbn. by rewrite be_val_be_bytes, Z.mod_small.
Qed.

Lemma pack_s_inv enc n v x :
  pack_s enc n v = Ok x → - (width n / 2) <= v < width n / 2 ∧ x = enc n v.
Proof. unfold pack_s. case_match eqn:E; intros H; invert_res. split; [lia|done]. Qed.

Lemma unpack_be_s_from_at d n p v s off :
  d = p ++ be_bytes n v ++ s → - (width n / 2) <= v < width n / 2 → off = len p →
  unpack_be_s_from n d off = Ok v.
Proof.
  intros -> ? ->. unfold unpack_be_s_from, unpack_be_from.
  rewrite unpack_from_app by apply length_be_bytes. cbn. by rewrite be_val_be_bytes, to_signed_mod.
Qed.

Lemma pack_be_many_inv n vs x :
  pack_be_many n vs = Ok x →
  Forall (λ v, 0 <= v < width n) vs ∧ x = concat (be_bytes n <$> vs) ∧ len x = len vs * Z.of_nat n.
Proof.
  unfold pack_be_many. revert x. induction vs as [|v vs IH]; intros x; cbn.
  { intros H; invert_res. done. }
  destruct (pack_be n v) as [y|] eqn:Ey; [|done]. apply pack_u_inv in Ey as [Hv ->]. cbn.
  destruct (res_map (pack_be n) vs) as [ys|]; [|done]. cbn in IH |- *.
  intros E; injection E as <-.
  destruct (IH _ eq_refl) as (Hvs & E & L). rewrite <-E.
  split_and!; [by constructor|done|]. rewrite length_app, length_be_bytes. lia.
Qed.

Lemma be_vals_concat n vs s :
  Forall (λ v, 0 <= v < width n) vs →
  be_vals n (length vs) (concat (be_bytes n <$> vs) ++ s) = vs.
Proof.
  induction 1 as [|v vs Hv _ IH]; [done|]. cbn. rewrite <-app_assoc.
  rewrite take_app_length', drop_app_length' by (by rewrite length_be_bytes).
  by rewrite IH, be_val_be_bytes, Z.mod_small.
Qed.

Lemma unpack_be_many_at d n p vs x s off :
  pack_be_many n vs = Ok x → d = p ++ x ++ s → off = len p →
  unpack_be_many n (length vs) d off = Ok vs.
Proof.
  intros (Hvs & -> & L)%pack_be_many_inv -> ->. unfold unpack_be_many.
  rewrite unpack_from_app by lia. cbn. f_equal.
  rewrite <-(app_nil_r (concat _)). by apply be_vals_concat.
Qed.

Lemma unpack_from_range n l off :
  0 <= off → off + Z.of_nat n <= len l →
  unpack_from n l off = Ok (py_slice l off (off + Z.of_nat n)).
Proof.
  intros ??. unfold unpack_from, py_index. if_false. if_false.
  rewrite py_slice_range by lia. do 2 f_equal. lia.
Qed.

Lemma length_pack_fields fs :
  Forall (λ f, ∀ x, f.2 = Ok x → length x = f.1) fs →
  length (pack_fields fs).1 = sum_list fs.*1.
Proof.
  induction 1 as [|[n [x|e]] fs Hn _ IH]; [done| |]; cbn [pack_fields fmap list_fmap fst snd sum_list].
  - destruct (pack_fields fs) as [b r]. cbn in IH |- *. rewrite length_app, IH, (Hn x eq_refl). done.
  - apply length_replicate.
Qed.

(** Without an exception every field was packed. *)
Lemma pack_fields_inv fs x u :
  pack_fields fs = (x, Ok u) → Forall (λ f, ∃ y, f.2 = Ok y) fs.
Proof.
  revert x. induction fs as [|[n [y|e]] fs IH]; intros x H; [done| |done]. cbn in H.
  destruct (pack_fields fs) as [b r]. injection H as _ ->. constructor; [by exists y|by eapply IH].
Qed.

Lemma pack_into_range fs buf off :
  Forall (λ f, ∀ x, f.2 = Ok x → length x = f.1) fs →
  0 <= off → off + Z.of_nat (sum_list fs.*1) <= len buf →
  pack_into fs buf off =
  (py_slice_set buf off (off + len (pack_fields fs).1) (pack_fields fs).1, (pack_fields fs).2).
Proof.
  intros Hf ??. pose proof (length_pack_fields fs Hf) as Hl.
  unfold pack_into, py_index. if_false. if_false.
  destruct (pack_fields fs) as [x r]. cbn [fst snd] in *.
  rewrite Hl, py_slice_set_range by lia. done.
Qed.

Lemma pack_into_short fs buf off :
  0 <= off → len buf < off + Z.of_nat (sum_list fs.*1) → pack_into fs buf off = (buf, Err StructError).
Proof. intros ??. unfold pack_into, py_index. if_false. by if_true. Qed.

(** The fields of two and four bytes, byte by byte. *)
Lemma be_bytes_1 v : 0 <= v < 256 → be_bytes 1 v = [v].
Proof. intros. unfold be_bytes. cbn [le_bytes reverse rev_append]. by rewrite Z.mod_small by lia. Qed.

Lemma be_bytes_2 v : 0 <= v < 65536 → be_bytes 2 v = [v / 256; v mod 256].
Proof.
  intros. unfold be_bytes. cbn [le_bytes reverse rev_append]. by rewrite (Z.mod_small (v / 256)) by lia.
Qed.

Lemma be_bytes_4 v :
  be_bytes 4 v = [v / 256 / 256 / 256 mod 256; v / 256 / 256 mod 256; v / 256 mod 256; v mod 256].
Proof. done. Qed.

Lemma unpack_be_2 a b : unpack_be 2 [a; b] = Ok (a * 256 + b).
Proof. unfold unpack_be, be_val. cbn [reverse rev_append le_val length]. simpl. f_equal. lia. Qed.

Lemma unpack_be_2_split v : unpack_be 2 [v / 256; v mod 256] = Ok v.
Proof. rewrite unpack_be_2. f_equal. lia. Qed.

Lemma unpack_be_4_bytes v :
  0 <= v < 2 ^ 32 →
  unpack_be 4 [v / 256 / 256 / 256 mod 256; v / 256 / 256 mod 256; v / 256 mod 256; v mod 256] = Ok v.
Proof. intros. rewrite <-be_bytes_4. by apply unpack_be_be_bytes. Qed.

#[export] Hint Rewrite length_le_bytes length_be_bytes : pylist.
#[export] Hint Resolve le_bytes_ok be_bytes_ok Forall_app_2 : pylist.

(** Lengths of concatenations of fields. *)
Ltac lens :=
  repeat first [rewrite length_app | rewrite length_be_bytes | progress cbn [length]]; lia.

(** Equality of such concatenations. *)
Ltac apps := repeat first [rewrite <-app_assoc | progress cbn [app]]; reflexivity.

(** * Self-delimiting encodings *)

(** [pc_enc a] is the encoding of [a]; [pc_dec data off] decodes the value that
    starts at [off] and returns it with the offset after it. *)
Class PrefixCodec (A : Type) := {
  pc_wf : A → Prop;
  pc_enc : A → bytes;
  pc_dec : bytes → Z → res (A * Z);
  pc_dec_enc : ∀ p a s, pc_wf a →
    pc_dec (p ++ pc_enc a ++ s) (len p) = Ok (a, len p + len (pc_enc a));
}.

Section PrefixCodecClient.
Context {A : Type} `{PrefixCodec A}.

(** Reading [n] values one after the other. *)
Fixpoint dec_many (n : nat) (data : bytes) (off : Z) : res (list A * Z) :=
  match n with
  | O => Ok ([], off)
  | S n' =>
      r ← pc_dec data off;
      let '(a, off1) := r in
      r' ← dec_many n' data off1;
      let '(l, off2) := r' in Ok (a :: l, off2)
  end.

Definition enc_many (l : list A) : bytes := concat (pc_enc <$> l).

Lemma dec_many_enc_many p l s :
  Forall pc_wf l →
  dec_many (length l) (p ++ enc_many l ++ s) (len p) = Ok (l, len p + len (enc_many l)).
Proof.
  intros Hl. revert p. induction Hl as [|a l Ha Hl IH]; intros p; simpl.
  - do 2 f_equal. lia.
  - unfold enc_many in *. cbn [fmap list_fmap concat].
    rewrite <-app_assoc. rewrite pc_dec_enc by done. simpl.
    specialize (IH (p ++ pc_enc a)). rewrite <-app_assoc, length_app, Nat2Z.inj_add in IH.
    rewrite IH. simpl. rewrite length_app. do 2 f_equal. lia.
Qed.
End PrefixCodecClient.
