(* ===== verification/Sorting.v ===== *)
(** Sorting: Python's [list.sort] and [sorted] as a stable insertion sort, by an order
    and by an integer key. *)

From Stdlib Require Import Sorted.
From S2P Require Import Prelude.

Fixpoint insert_by {A} (lt : A → A → bool) (x : A) (l : list A) : list A :=
  match l with
  | [] => [x]
  | y :: l' => if lt y x then y :: insert_by lt x l' else x :: l
  end.
Definition sort_by {A} (lt : A → A → bool) (l : list A) : list A := foldr (insert_by lt) [] l.

Lemma insert_by_perm {A} (lt : A → A → bool) x l : insert_by lt x l ≡ₚ x :: l.
Proof.
  induction l as [|y l IH]; [done|]. cbn [insert_by]. destruct (lt y x); [|done].
  rewrite IH. apply Permutation_swap.
Qed.
Lemma sort_by_perm {A} (lt : A → A → bool) l : sort_by lt l ≡ₚ l.
Proof. induction l as [|x l IH]; [done|]. cbn [sort_by foldr]. rewrite insert_by_perm. by constructor. Qed.

(** Filters that keep everything, or nothing, or go through a map. *)
Section Filter.
Context {A : Type} (P : A → Prop) `{!∀ x, Decision (P x)}.

Lemma filter_id (l : list A) : (∀ x, x ∈ l → P x) → filter P l = l.
Proof.
  induction l as [|x l IH]; intros Hl; [done|]. rewrite filter_cons_True by (apply Hl; left).
  rewrite IH; [done|]. intros; apply Hl; by right.
Qed.

Lemma filter_none (l : list A) : (∀ x, x ∈ l → ¬ P x) → filter P l = [].
Proof.
  induction l as [|x l IH]; intros Hl; [done|]. rewrite filter_cons_False by (apply Hl; left).
  apply IH. intros; apply Hl; by right.
Qed.

Lemma filter_ext_in (Q : A → Prop) `{!∀ x, Decision (Q x)} (l : list A) :
  (∀ x, x ∈ l → P x ↔ Q x) → filter P l = filter Q l.
Proof.
  induction l as [|x l IH]; intros Hl; [done|]. rewrite !filter_cons, IH by (intros; apply Hl; by right).
  assert (P x ↔ Q x) as Hx by (apply Hl; left). by repeat case_decide; try tauto.
Qed.

Lemma filter_map {B} (f : B → A) (l : list B) : filter P (f <$> l) = f <$> filter (λ x, P (f x)) l.
Proof.
  induction l as [|x l IH]; [done|]. cbn [fmap list_fmap]. rewrite !filter_cons. case_decide; cbn; by rewrite <-IH.
Qed.
End Filter.

(** [existsb] looks at the members. *)
Lemma existsb_ext_in {A} (f g : A → bool) l : (∀ x, x ∈ l → f x = g x) → existsb f l = existsb g l.
Proof.
  induction l as [|x l IH]; intros H; [done|]. cbn [existsb]. rewrite (H x) by left.
  by rewrite IH by (intros; apply H; by right).
Qed.
Lemma existsb_none {A} (f : A → bool) l : (∀ x, x ∈ l → f x = false) → existsb f l = false.
Proof. intros H. rewrite (existsb_ext_in _ (λ _, false)) by done. clear. by induction l. Qed.
Lemma existsb_fmap {A B} (g : A → B) (f : B → bool) l : existsb f (g <$> l) = existsb (λ x, f (g x)) l.
Proof. induction l as [|x l IH]; [done|]. cbn. by rewrite <-IH. Qed.

Lemma nodup_key {A B} (f : A → B) (l : list A) x y : NoDup (f <$> l) → x ∈ l → y ∈ l → f x = f y → x = y.
Proof.
  induction l as [|z l IH]; cbn; [by intros _ ?%elem_of_nil|].
  intros [Hz Hl]%NoDup_cons [->|Hx]%elem_of_cons [->|Hy]%elem_of_cons E; [done|..|by apply IH].
  - destruct Hz. rewrite E. by apply list_elem_of_fmap_2.
  - destruct Hz. rewrite <-E. by apply list_elem_of_fmap_2.
Qed.

Lemma Forall_sublist {A} (P : A → Prop) l l' : l' `sublist_of` l → Forall P l → Forall P l'.
Proof.
  induction 1 as [|x l1 l2 Hs IH|x l1 l2 Hs IH]; [done|..]; intros [Hx Hl]%Forall_cons; [|by apply IH].
  constructor; [done|by apply IH].
Qed.

Lemma sorted_sublist {A} (R : A → A → Prop) l l' : l' `sublist_of` l → StronglySorted R l → StronglySorted R l'.
Proof.
  induction 1 as [|x l1 l2 Hs IH|x l1 l2 Hs IH]; [done|..]; intros [Hl Hx]%StronglySorted_inv; [|by apply IH].
  constructor; [by apply IH|]. by eapply Forall_sublist.
Qed.

Section Sorting.
Context {A : Type}.
Variable lt : A → A → bool.
Hypothesis le_total : ∀ x y, lt x y = true → lt y x = false.
Hypothesis le_trans : ∀ x y z, lt y x = false → lt z y = false → lt z x = false.
#[local] Abbreviation le := (λ x y, lt y x = false).

Lemma insert_by_sorted x l : StronglySorted le l → StronglySorted le (insert_by lt x l).
Proof.
  induction 1 as [|y l Hl IH Hy]; [by repeat constructor|]. cbn [insert_by]. destruct (lt y x) eqn:E.
  - constructor; [done|]. rewrite insert_by_perm. constructor; [by apply le_total|done].
  - constructor; [by constructor|]. constructor; [done|]. eapply Forall_impl; [exact Hy|].
    intros z Hz. by apply (le_trans x y z).
Qed.
Lemma sort_by_sorted l : StronglySorted le (sort_by lt l).
Proof. induction l as [|x l IH]; [constructor|]. by apply insert_by_sorted. Qed.

(** Elements that are equivalent keep their order. *)
Lemma insert_by_stable (P : A → Prop) `{!∀ x, Decision (P x)} x l :
  (∀ y, P x → P y → lt y x = false) → filter P (insert_by lt x l) = filter P (x :: l).
Proof.
  intros HP. induction l as [|y l IH]; [done|]. cbn [insert_by]. destruct (lt y x) eqn:E; [|done].
  rewrite (filter_cons P y), IH, !filter_cons. repeat case_decide; try done.
  exfalso. specialize (HP y). rewrite HP in E; done.
Qed.
Lemma sort_by_stable (P : A → Prop) `{!∀ x, Decision (P x)} l :
  (∀ x y, P x → P y → lt y x = false) → filter P (sort_by lt l) = filter P l.
Proof.
  intros HP. induction l as [|x l IH]; [done|]. cbn [sort_by foldr]. rewrite insert_by_stable by auto.
  rewrite !filter_cons. unfold sort_by in IH. by rewrite IH.
Qed.
End Sorting.

Lemma insert_by_fmap {A B} (f : A → B) lt x l :
  insert_by lt (f x) (f <$> l) = f <$> insert_by (λ a b, lt (f a) (f b)) x l.
Proof. induction l as [|y l IH]; [done|]. cbn. destruct (lt (f y) (f x)); [|done]. cbn. by rewrite <-IH. Qed.
Lemma sort_by_fmap {A B} (f : A → B) lt l : sort_by lt (f <$> l) = f <$> sort_by (λ a b, lt (f a) (f b)) l.
Proof.
  induction l as [|x l IH]; [done|]. unfold sort_by in *. cbn [foldr fmap list_fmap]. by rewrite IH, insert_by_fmap.
Qed.

(** Only the comparisons of the elements matter; without any the list is as it was. *)
Lemma insert_by_ext {A} (lt lt' : A → A → bool) x l :
  (∀ y, y ∈ l → lt y x = lt' y x) → insert_by lt x l = insert_by lt' x l.
Proof.
  induction l as [|y l IH]; intros H; [done|]. cbn [insert_by]. rewrite (H y) by left.
  by rewrite IH by (intros; apply H; by right).
Qed.
Lemma sort_by_ext {A} (lt lt' : A → A → bool) l :
  (∀ x y, x ∈ l → y ∈ l → lt x y = lt' x y) → sort_by lt l = sort_by lt' l.
Proof.
  induction l as [|x l IH]; intros H; [done|]. cbn [sort_by foldr]. unfold sort_by in IH.
  rewrite IH by (intros; apply H; by right). apply insert_by_ext. intros y Hy.
  apply H; [|left]. right. by rewrite (sort_by_perm lt' l : foldr _ _ _ ≡ₚ _) in Hy.
Qed.
Lemma sort_by_never {A} (lt : A → A → bool) l : (∀ x y, lt x y = false) → sort_by lt l = l.
Proof.
  intros H. induction l as [|x l IH]; [done|]. cbn [sort_by foldr]. unfold sort_by in IH. rewrite IH.
  destruct l as [|y l]; [done|]. cbn. by rewrite H.
Qed.

(** * By an integer key: [list.sort(key=...)] *)

Section Key.
Context {A : Type} (key : A → Z).

Definition sort_on (l : list A) : list A := sort_by (λ x y, key x <? key y) l.
Definition key_le (x y : A) : Prop := key x <= key y.

Lemma sort_on_perm l : sort_on l ≡ₚ l.
Proof. apply sort_by_perm. Qed.

Lemma sort_on_sorted l : StronglySorted key_le (sort_on l).
Proof.
  assert (StronglySorted (λ x y, (key y <? key x) = false) (sort_on l)) as H
    by (apply (sort_by_sorted (λ x y, key x <? key y)); lia).
  induction H as [|x l' _ IH Hx]; constructor; [done|].
  eapply Forall_impl; [exact Hx|]. unfold key_le. intros; lia.
Qed.

(** A list sorted strictly is what sorting any permutation of it gives. *)
Lemma sort_on_stable k l : filter (λ x, key x = k) (sort_on l) = filter (λ x, key x = k) l.
Proof. apply sort_by_stable. intros x y -> ->. lia. Qed.

(** A sorted list is determined by its parts of equal keys. *)
Lemma sorted_unique l l' :
  StronglySorted key_le l → StronglySorted key_le l' →
  (∀ k, filter (λ x, key x = k) l = filter (λ x, key x = k) l') → l = l'.
Proof.
  intros Hl. revert l'. induction Hl as [|x l Hl IH Hx]; intros l' Hl' Hf.
  - destruct l' as [|y l']; [done|]. specialize (Hf (key y)). by rewrite filter_cons_True in Hf.
  - destruct l' as [|y l']; [specialize (Hf (key x)); by rewrite filter_cons_True in Hf|].
    apply StronglySorted_inv in Hl' as [Hl' Hy].
    assert (∀ a b l l', filter (λ x, key x = key b) (b :: l) = filter (λ x, key x = key b) (a :: l') →
      Forall (key_le a) l' → key_le a b) as Hle.
    { intros a b m m'. rewrite filter_cons_True by done. intros E Ha.
      assert (b ∈ filter (λ x, key x = key b) (a :: m')) as Hb by (rewrite <-E; left).
      apply list_elem_of_filter in Hb as [_ [->|Hb]%elem_of_cons]; [unfold key_le; lia|].
      rewrite Forall_forall in Ha. by apply Ha. }
    assert (key x = key y) as E.
    { pose proof (Hle y x _ _ (Hf (key x)) Hy). pose proof (Hle x y _ _ (eq_sym (Hf (key y))) Hx).
      unfold key_le in *. lia. }
    pose proof (Hf (key x)) as E'. rewrite !filter_cons_True in E' by done. injection E' as -> _.
    f_equal. apply IH; [done|]. intros k. specialize (Hf k). rewrite !filter_cons in Hf.
    case_decide; [by injection Hf|done].
Qed.

Lemma sorted_perm_unique l l' :
  StronglySorted (λ x y, key x < key y) l → StronglySorted key_le l' → l' ≡ₚ l → l' = l.
Proof.
  intros Hl. revert l'. induction Hl as [|x l Hl IH Hx]; intros l' Hs Hp.
  - by apply Permutation_nil_r in Hp.
  - destruct l' as [|y l']; [by apply Permutation_nil_l in Hp|].
    apply StronglySorted_inv in Hs as [Hs Hy].
    assert (y = x) as ->.
    { assert (y ∈ x :: l) as Hin by (rewrite <-Hp; left).
      apply elem_of_cons in Hin as [->|Hin]; [done|].
      rewrite Forall_forall in Hx, Hy. specialize (Hx y Hin).
      assert (x ∈ y :: l') as Hin' by (rewrite Hp; left).
      apply elem_of_cons in Hin' as [->|Hin']; [lia|].
      specialize (Hy x Hin'). unfold key_le in Hy. lia. }
    f_equal. apply IH; [done|]. by apply Permutation_cons_inv in Hp.
Qed.

Lemma sort_on_strict l l' :
  StronglySorted (λ x y, key x < key y) l → l' ≡ₚ l → sort_on l' = l.
Proof.
  intros Hl Hp. apply sorted_perm_unique; [done|apply sort_on_sorted|].
  by rewrite sort_on_perm.
Qed.
End Key.
