(* ===== verification/Leb128.v ===== *)
(** LEB128 variable-length integers: wasm/src/utils/leb128.py.

    [decode_unsigned_leb128] and [decode_signed_leb128] run the same byte loop,
    modelled by [decode_loop]: its structural argument is 10 minus the source's
    [byte_count], so the "more than 10 bytes" branch is the base case and no
    fuel is involved. The encoders loop on the value; their fuel is a bound on
    its bit length, and [encode_unsigned_unfold] and [encode_signed_unfold] show
    that it is never exhausted. [LEB128Reader] is the streaming reader. *)

From S2P Require Import Prelude Bytes.

(** * Decoding *)

(** The loop's variables at its [break]. *)
Record decoded := { d_result : Z; d_shift : Z; d_byte_val : Z; d_offset : Z }.

Fixpoint decode_loop (left : nat) (data : bytes) (offset result shift : Z) : res decoded :=
  match left with
  | O => Err ValueError                       (* byte_count > 10 *)
  | S left' =>
      byte_val ← py_get data offset;
      let result' := Z.lor result (Z.shiftl (Z.land byte_val 0x7F) shift) in
      let shift' := shift + 7 in
      let offset' := offset + 1 in
      if Z.land byte_val 0x80 =? 0 then
        Ok {| d_result := result'; d_shift := shift'; d_byte_val := byte_val; d_offset := offset' |}
      else if (len data <=? offset') && (0 <? Z.of_nat left') then Err ValueError
      else decode_loop left' data offset' result' shift'
  end.

Definition decode_unsigned_leb128 (data : bytes) (offset : Z) : res (Z * Z) :=
  if len data <=? offset then Err ValueError
  else d ← decode_loop 10 data offset 0 0; Ok (d_result d, d_offset d).

Definition decode_signed_leb128 (data : bytes) (offset : Z) : res (Z * Z) :=
  if len data <=? offset then Err ValueError
  else
    d ← decode_loop 10 data offset 0 0;
    let result :=
      if negb (Z.land (d_byte_val d) 0x40 =? 0) then
        let mask := Z.shiftl 1 (d_shift d) - 1 in
        Z.lor (d_result d) (Z.lnot mask)
      else d_result d in
    Ok (result, d_offset d).

(** * Encoding *)

Fixpoint encode_unsigned_loop (fuel : nat) (value : Z) : bytes :=
  match fuel with
  | O => []
  | S fuel' =>
      let byte_val := Z.land value 0x7F in
      let value' := Z.shiftr value 7 in
      let byte_val' := if negb (value' =? 0) then Z.lor byte_val 0x80 else byte_val in
      byte_val' :: (if value' =? 0 then [] else encode_unsigned_loop fuel' value')
  end.

Definition encode_fuel (value : Z) : nat := S (S (Z.to_nat (Z.log2 (Z.abs value)))).

Definition encode_unsigned_leb128 (value : Z) : res bytes :=
  if value <? 0 then Err ValueError
  else Ok (encode_unsigned_loop (encode_fuel value) value).

(** The loop test of [encode_signed_leb128]: the value is in its final form. *)
Definition signed_final (value' byte_val : Z) : bool :=
  ((value' =? 0) && (Z.land byte_val 0x40 =? 0))
  || ((value' =? -1) && negb (Z.land byte_val 0x40 =? 0)).

Fixpoint encode_signed_loop (fuel : nat) (value : Z) : bytes :=
  match fuel with
  | O => []
  | S fuel' =>
      let byte_val := Z.land value 0x7F in
      let value' := Z.shiftr value 7 in
      if signed_final value' byte_val then [byte_val]
      else Z.lor byte_val 0x80 :: encode_signed_loop fuel' value'
  end.

Definition encode_signed_leb128 (value : Z) : bytes :=
  encode_signed_loop (encode_fuel value) value.

Definition encode_leb128 (value : Z) (signed : bool) : res bytes :=
  if signed then Ok (encode_signed_leb128 value) else encode_unsigned_leb128 value.

(** * The streaming reader *)

Module LEB128Reader.
Record t := { data : bytes; offset : Z }.

Definition set_offset (r : t) (o : Z) : t := {| data := data r; offset := o |}.

Definition init (data : bytes) (offset : Z) : t := {| data := data; offset := offset |}.

Definition read_unsigned : method t Z := λ r,
  match decode_unsigned_leb128 (data r) (offset r) with
  | Ok (value, o) => (set_offset r o, Ok value)
  | Err e => (r, Err e)
  end.

Definition read_signed : method t Z := λ r,
  match decode_signed_leb128 (data r) (offset r) with
  | Ok (value, o) => (set_offset r o, Ok value)
  | Err e => (r, Err e)
  end.

Definition read_u32 : method t Z := read_unsigned.
Definition read_u64 : method t Z := read_unsigned.
Definition read_s32 : method t Z := read_signed.
Definition read_s64 : method t Z := read_signed.

(** The body of the [for] loop of [skip]: a read whose value is dropped. *)
Definition skip_one (_ : Z) : method t () := let! _ := read_unsigned in m_ret ().

Definition skip (count : Z) : method t () := for_each skip_one (py_range count).

Definition remaining (r : t) : Z := Z.max 0 (len (data r) - offset r).

Definition tell (r : t) : Z := offset r.

Definition seek (o : Z) : method t () := λ r,
  if (o <? 0) || (len (data r) <? o) then (r, Err ValueError)
  else (set_offset r o, Ok ()).
End LEB128Reader.

(** * Base-128 digits

    Both encoders produce [cont ds]: the digits [ds], least significant first,
    with the continuation bit on all but the last. *)

Definition digit_ok (d : Z) : Prop := 0 <= d < 128.

Fixpoint cont (ds : list Z) : bytes :=
  match ds with
  | [] => []
  | d :: ds' => match ds' with [] => [d] | _ => (d + 128) :: cont ds' end
  end.

Fixpoint digits_val (ds : list Z) : Z :=
  match ds with
  | [] => 0
  | d :: ds' => d + 128 * digits_val ds'
  end.

(** The value of the digits read as a two's complement number. *)
Definition signed_val (ds : list Z) : Z :=
  if default 0 (last ds) <? 64 then digits_val ds else digits_val ds - 2 ^ (7 * len ds).

Lemma land_0x7F v : Z.land v 0x7F = v mod 128.
Proof. apply (land_ones_mod 7); lia. Qed.

Lemma land_0x80 b : byte_ok b → (Z.land b 0x80 =? 0) = (b <? 128).
Proof.
  intros Hb. apply eqb_prop.
  apply (forallb_range (λ b, Bool.eqb (Z.land b 0x80 =? 0) (b <? 128)) 256); [|exact Hb].
  vm_compute. reflexivity.
Qed.

Lemma land_0x40 b : digit_ok b → (Z.land b 0x40 =? 0) = (b <? 64).
Proof.
  intros Hb. apply eqb_prop.
  apply (forallb_range (λ b, Bool.eqb (Z.land b 0x40 =? 0) (b <? 64)) 128); [|exact Hb].
  vm_compute. reflexivity.
Qed.

Lemma lor_0x80 b : digit_ok b → Z.lor b 0x80 = b + 128.
Proof. intros. apply (lor_low_high 7 b 1); unfold digit_ok in *; lia. Qed.

Lemma shiftr_7 v : Z.shiftr v 7 = v / 128.
Proof. apply (Z.shiftr_div_pow2 v 7). lia. Qed.

Lemma lor_digit acc d shift :
  0 <= shift → 0 <= acc < 2 ^ shift → Z.lor acc (Z.shiftl d shift) = acc + d * 2 ^ shift.
Proof. intros. rewrite Z.shiftl_mul_pow2 by lia. by apply lor_low_high. Qed.

Lemma pow2_add7 shift : 0 <= shift → 2 ^ (shift + 7) = 128 * 2 ^ shift.
Proof. intros. rewrite Z.pow_add_r by lia. lia. Qed.

Lemma length_cont ds : length (cont ds) = length ds.
Proof. induction ds as [|d [|d' ds] IH]; [done..|]. simpl in *. by rewrite IH. Qed.

Lemma cont_bytes_ok ds : Forall digit_ok ds → bytes_ok (cont ds).
Proof.
  unfold digit_ok. induction 1 as [|d ds Hd Hds IH]; [constructor|].
  destruct ds; constructor; auto; unfold byte_ok; lia.
Qed.

Lemma digits_val_bound ds : Forall digit_ok ds → 0 <= digits_val ds < 2 ^ (7 * len ds).
Proof.
  induction 1 as [|d ds Hd Hds IH]; simpl length; [simpl; lia|].
  replace (7 * Z.of_nat (S (length ds))) with (7 * len ds + 7) by lia.
  rewrite pow2_add7 by lia. unfold digit_ok in Hd. simpl. lia.
Qed.

(** The decoding loop reads digits back, or gives up after ten bytes. *)
Lemma decode_loop_cont ds left p s acc shift :
  ds ≠ [] → Forall digit_ok ds → 0 <= shift → 0 <= acc < 2 ^ shift →
  decode_loop left (p ++ cont ds ++ s) (len p) acc shift =
    if (length ds <=? left)%nat then
      Ok {| d_result := acc + digits_val ds * 2 ^ shift; d_shift := shift + 7 * len ds;
            d_byte_val := default 0 (last ds); d_offset := len p + len ds |}
    else Err ValueError.
Proof.
  intros Hne Hds. revert left p acc shift.
  induction Hds as [|d ds Hd Hds IH]; intros left p acc shift Hshift Hacc; [done|].
  destruct left as [|left]; [by destruct ds|].
  unfold digit_ok in Hd. destruct ds as [|d' ds].
  - simpl. rewrite py_get_app_mid. simpl.
    rewrite land_0x7F, land_0x80, Z.mod_small by (unfold byte_ok; lia). if_true.
    rewrite lor_digit by lia. do 2 f_equal; lia.
  - change (cont (d :: d' :: ds)) with ((d + 128) :: cont (d' :: ds)).
    cbn [decode_loop app]. rewrite py_get_app_mid. unfold mbind, res_bind.
    rewrite land_0x7F, land_0x80 by (unfold byte_ok; lia). if_false.
    replace ((d + 128) mod 128) with d
      by (rewrite <-(Z.mod_small d 128) at 1 by lia; symmetry; apply (Z_mod_plus_full d 1 128)).
    rewrite lor_digit by lia.
    assert (0 < len (cont (d' :: ds))) by (rewrite length_cont; simpl; lia).
    rewrite length_app. cbn [length]. rewrite length_app. if_false.
    specialize (IH ltac:(done) left (p ++ [d + 128]) (acc + d * 2 ^ shift) (shift + 7)).
    rewrite <-app_assoc, length_app in IH. cbn [app length] in IH.
    replace (Z.of_nat (length p + 1)) with (len p + 1) in IH by lia. rewrite IH; clear IH.
    + rewrite pow2_add7 by lia. cbn [length].
      change (S (S (length ds)) <=? S left)%nat with (S (length ds) <=? left)%nat.
      destruct (S (length ds) <=? left)%nat; [|done]. f_equal. f_equal; simpl; lia.
    + lia.
    + rewrite pow2_add7 by lia. nia.
Qed.

(** Whatever the decoding loop accepts is a digit string. *)
Lemma decode_loop_complete left data off acc shift d :
  bytes_ok data → 0 <= off → 0 <= shift → 0 <= acc < 2 ^ shift →
  decode_loop left data off acc shift = Ok d →
  ∃ ds, ds ≠ [] ∧ Forall digit_ok ds ∧ (length ds <= left)%nat ∧
    off + len ds <= len data ∧ d_offset d = off + len ds ∧
    py_slice data off (off + len ds) = cont ds ∧
    d_result d = acc + digits_val ds * 2 ^ shift ∧ d_shift d = shift + 7 * len ds ∧
    d_byte_val d = default 0 (last ds).
Proof.
  intros Hdata. revert off acc shift.
  induction left as [|left IH]; intros off acc shift Hoff Hshift Hacc; [done|].
  cbn [decode_loop]. destruct (decide (off < len data)) as [Hlt|];
    [|by rewrite py_get_past_end by lia].
  destruct (py_get_in_range data off) as (b & -> & Hb); [lia|]. unfold mbind, res_bind.
  assert (byte_ok b) as Hok by (by eapply Forall_lookup_1).
  rewrite land_0x7F, land_0x80 by done. unfold byte_ok in Hok.
  assert (Hmod : 0 <= b mod 128 < 128) by (apply Z.mod_pos_bound; lia).
  rewrite lor_digit by lia.
  assert (Hdrop : drop (Z.to_nat off) data = b :: drop (S (Z.to_nat off)) data)
    by (by apply drop_S).
  destruct (Z.ltb_spec b 128).
  - rewrite Z.mod_small by lia. intros ?; invert_res. exists [b].
    split_and!; try done; simpl; try lia.
    + repeat constructor; lia.
    + rewrite py_slice_range by lia.
      replace (Z.to_nat _) with 1%nat by lia. by rewrite Hdrop.
  - destruct (_ && _) eqn:Hend; [done|]. intros Hd.
    apply IH in Hd; [|lia..|rewrite pow2_add7 by lia; nia].
    destruct Hd as (ds & Hne & Hds & Hlen & Hbound & Ho & Hslice & Hr & Hs & Hbv).
    exists (b mod 128 :: ds). cbn [length digits_val]. split_and!; try done; try lia.
    + by constructor.
    + revert Hslice. rewrite !py_slice_range by lia.
      replace (Z.to_nat (off + 1)) with (S (Z.to_nat off)) by lia.
      replace (Z.to_nat (off + 1 + len ds - (off + 1))) with (length ds) by lia.
      replace (Z.to_nat (off + Z.of_nat (S (length ds)) - off)) with (S (length ds)) by lia.
      intros Hslice. rewrite Hdrop. cbn [take]. rewrite Hslice.
      destruct ds; [done|]. change (cont (?x :: z :: ds)) with ((x + 128) :: cont (z :: ds)).
      f_equal. rewrite (Z.mod_eq b 128) by lia.
      assert (b / 128 = 1) as -> by (symmetry; apply (Z.div_unique b 128 1 (b - 128)); lia). lia.
    + rewrite Hr, pow2_add7 by lia. lia.
    + rewrite Hbv. by destruct ds.
Qed.

(** From an offset inside the data, the loop returns or raises ValueError. *)
Lemma decode_loop_total left data off acc shift :
  0 <= off < len data →
  is_ok (decode_loop left data off acc shift) = true ∨
  decode_loop left data off acc shift = Err ValueError.
Proof.
  revert off acc shift. induction left as [|left IH]; intros off acc shift Hoff; [by right|].
  cbn [decode_loop]. destruct (py_get_in_range data off) as (b & -> & _); [lia|].
  unfold mbind, res_bind. case_match; [by left|].
  destruct ((len data <=? off + 1) && (0 <? Z.of_nat left)) eqn:E; [by right|].
  destruct left as [|left]; [by right|]. apply IH. lia.
Qed.

(** ** The encoders produce the shortest digit string *)

Lemma encode_fuel_enough v : Z.abs v < 2 ^ (7 * Z.of_nat (encode_fuel v) - 1).
Proof.
  unfold encode_fuel. destruct (Z.eq_dec v 0) as [->|]; [reflexivity|].
  pose proof (Z.log2_nonneg (Z.abs v)).
  eapply Z.lt_le_trans; [apply Z.log2_spec; lia|]. apply Z.pow_le_mono_r; lia.
Qed.

Lemma encode_unsigned_loop_digits f v :
  0 <= v < 2 ^ (7 * Z.of_nat f) → (0 < f)%nat →
  ∃ ds, encode_unsigned_loop f v = cont ds ∧ ds ≠ [] ∧ Forall digit_ok ds ∧
    digits_val ds = v ∧ (length ds = 1%nat ∨ 2 ^ (7 * (len ds - 1)) <= v).
Proof.
  revert v. induction f as [|f IH]; intros v Hv Hf; [lia|].
  assert (Hd : 0 <= v mod 128 < 128) by (apply Z.mod_pos_bound; lia).
  cbn [encode_unsigned_loop]. rewrite land_0x7F, shiftr_7.
  destruct (Z.eqb_spec (v / 128) 0) as [E|E].
  - assert (v < 128) by (apply Z.div_small_iff in E; lia).
    exists [v]. rewrite Z.mod_small by lia. split_and!; try done.
    + repeat constructor; lia.
    + simpl. lia.
    + by left.
  - assert (128 <= v) by (destruct (Z.le_gt_cases 128 v); [done|]; rewrite Z.div_small in E; lia).
    replace (7 * Z.of_nat (S f)) with (7 * Z.of_nat f + 7) in Hv by lia.
    rewrite pow2_add7 in Hv by lia.
    destruct (IH (v / 128)) as (ds & Heq & Hne & Hds & Hval & Hmin).
    + split; [apply Z.div_pos; lia|apply Z.div_lt_upper_bound; lia].
    + destruct f; [|lia]. simpl in Hv. lia.
    + exists (v mod 128 :: ds). rewrite Heq. cbn [negb]. split_and!.
      * destruct ds; [done|]. rewrite lor_0x80 by done. done.
      * done.
      * by constructor.
      * cbn [digits_val]. rewrite Hval. pose proof (Z.div_mod v 128). lia.
      * right. cbn [length]. replace (7 * (Z.of_nat (S (length ds)) - 1)) with (7 * (len ds - 1) + 7) by lia.
        rewrite pow2_add7 by (destruct ds; simpl; [done|lia]).
        pose proof (Z.mul_div_le v 128).
        destruct Hmin as [->|?]; [simpl; lia|lia].
Qed.

Lemma signed_final_range v :
  signed_final (v / 128) (v mod 128) = (-64 <=? v) && (v <? 64).
Proof.
  assert (Hd : digit_ok (v mod 128)) by (apply Z.mod_pos_bound; lia).
  unfold signed_final. rewrite land_0x40 by done.
  pose proof (Z.div_mod v 128). unfold digit_ok in Hd. lia.
Qed.

Lemma encode_signed_loop_digits f v :
  - 2 ^ (7 * Z.of_nat f - 1) <= v < 2 ^ (7 * Z.of_nat f - 1) → (0 < f)%nat →
  ∃ ds, encode_signed_loop f v = cont ds ∧ ds ≠ [] ∧ Forall digit_ok ds ∧ signed_val ds = v ∧
    (length ds = 1%nat ∨ ¬ - 2 ^ (7 * (len ds - 1) - 1) <= v < 2 ^ (7 * (len ds - 1) - 1)).
Proof.
  revert v. induction f as [|f IH]; intros v Hv Hf; [lia|].
  assert (Hd : digit_ok (v mod 128)) by (apply Z.mod_pos_bound; lia).
  pose proof (Z.div_mod v 128 ltac:(lia)) as Hdm.
  cbn [encode_signed_loop]. rewrite land_0x7F, shiftr_7, signed_final_range.
  destruct (_ && _) eqn:E.
  - exists [v mod 128]. split_and!; try done.
    + by constructor.
    + unfold signed_val, digit_ok in *. simpl. case_ifs; lia.
    + by left.
  - replace (7 * Z.of_nat (S f) - 1) with (7 * Z.of_nat f - 1 + 7) in Hv by lia.
    destruct f as [|f]; [simpl in Hv; lia|]. rewrite pow2_add7 in Hv by lia.
    destruct (IH (v / 128)) as (ds & Heq & Hne & Hds & Hval & Hmin); [unfold digit_ok in Hd; lia|lia|].
    exists (v mod 128 :: ds). rewrite Heq. split_and!.
    + destruct ds; [done|]. by rewrite lor_0x80.
    + done.
    + by constructor.
    + unfold signed_val in *. destruct ds as [|d ds]; [done|].
      change (last (v mod 128 :: d :: ds)) with (last (d :: ds)). cbn [digits_val length] in *.
      replace (7 * Z.of_nat (S (S (length ds)))) with (7 * Z.of_nat (S (length ds)) + 7) by lia.
      rewrite pow2_add7 by lia. case_ifs; lia.
    + right. cbn [length]. unfold digit_ok in Hd.
      destruct (decide (length ds = 1%nat)) as [->|Hlen]; [simpl; lia|].
      destruct Hmin as [?|Hmin]; [done|].
      assert (0 < len ds) by (destruct ds; simpl; [done|lia]).
      replace (7 * (Z.of_nat (S (length ds)) - 1) - 1) with (7 * (len ds - 1) - 1 + 7) by lia.
      rewrite pow2_add7 by lia. lia.
Qed.

Lemma encode_unsigned_digits v :
  0 <= v →
  ∃ ds, encode_unsigned_leb128 v = Ok (cont ds) ∧ ds ≠ [] ∧ Forall digit_ok ds ∧
    digits_val ds = v ∧ (length ds = 1%nat ∨ 2 ^ (7 * (len ds - 1)) <= v).
Proof.
  intros Hv. unfold encode_unsigned_leb128. if_false.
  pose proof (encode_fuel_enough v) as Hf.
  assert (2 ^ (7 * Z.of_nat (encode_fuel v) - 1) <= 2 ^ (7 * Z.of_nat (encode_fuel v)))
    by (apply Z.pow_le_mono_r; lia).
  destruct (encode_unsigned_loop_digits (encode_fuel v) v) as (ds & -> & ?); [lia| |eauto].
  unfold encode_fuel. lia.
Qed.

Lemma encode_signed_digits v :
  ∃ ds, encode_signed_leb128 v = cont ds ∧ ds ≠ [] ∧ Forall digit_ok ds ∧ signed_val ds = v ∧
    (length ds = 1%nat ∨ ¬ - 2 ^ (7 * (len ds - 1) - 1) <= v < 2 ^ (7 * (len ds - 1) - 1)).
Proof.
  unfold encode_signed_leb128. pose proof (encode_fuel_enough v) as Hf.
  apply encode_signed_loop_digits; [lia|]. unfold encode_fuel. lia.
Qed.

(** ** Decoding a digit string *)

Lemma decode_unsigned_cont ds p s :
  ds ≠ [] → Forall digit_ok ds →
  decode_unsigned_leb128 (p ++ cont ds ++ s) (len p) =
    if (length ds <=? 10)%nat then Ok (digits_val ds, len p + len ds) else Err ValueError.
Proof.
  intros Hne Hds. unfold decode_unsigned_leb128.
  assert (0 < length ds)%nat by (destruct ds; simpl; [done|lia]).
  rewrite !length_app, length_cont. if_false.
  rewrite decode_loop_cont by (done || lia). unfold mbind, res_bind.
  destruct (length ds <=? 10)%nat; [|done]. cbn [d_result d_offset].
  rewrite Z.pow_0_r, Z.mul_1_r, Z.add_0_l. done.
Qed.

Lemma lor_lnot_mask r sh : 0 <= sh → 0 <= r < 2 ^ sh → Z.lor r (Z.lnot (Z.shiftl 1 sh - 1)) = r - 2 ^ sh.
Proof.
  intros. rewrite Z.shiftl_mul_pow2, Z.mul_1_l by lia.
  assert (Z.lnot (2 ^ sh - 1) = -1 * 2 ^ sh) as -> by (unfold Z.lnot; lia).
  rewrite lor_low_high by lia. lia.
Qed.

Lemma decode_signed_cont ds p s :
  ds ≠ [] → Forall digit_ok ds →
  decode_signed_leb128 (p ++ cont ds ++ s) (len p) =
    if (length ds <=? 10)%nat then Ok (signed_val ds, len p + len ds) else Err ValueError.
Proof.
  intros Hne Hds. unfold decode_signed_leb128.
  assert (0 < length ds)%nat by (destruct ds; simpl; [done|lia]).
  rewrite !length_app, length_cont. if_false.
  rewrite decode_loop_cont by (done || lia). unfold mbind, res_bind.
  destruct (length ds <=? 10)%nat; [|done]. cbn [d_byte_val d_shift d_result d_offset].
  assert (digit_ok (default 0 (last ds))) as Hlast.
  { destruct (last ds) as [d|] eqn:E; [|apply last_None in E; done].
    rewrite last_lookup in E. by eapply Forall_lookup_1. }
  pose proof (digits_val_bound ds Hds).
  rewrite Z.pow_0_r, Z.mul_1_r, !Z.add_0_l. rewrite land_0x40 by done. unfold signed_val. destruct (_ <? 64); cbn [negb].
  - done.
  - rewrite lor_lnot_mask by lia. done.
Qed.

Lemma digits_fit_10 ds v :
  Forall digit_ok ds → digits_val ds = v → (length ds = 1%nat ∨ 2 ^ (7 * (len ds - 1)) <= v) →
  (length ds <=? 10)%nat = (v <? 2 ^ 70).
Proof.
  intros Hds Hv Hmin. pose proof (digits_val_bound ds Hds) as Hb.
  destruct (Nat.leb_spec (length ds) 10); symmetry.
  - apply Z.ltb_lt. assert (2 ^ (7 * len ds) <= 2 ^ 70) by (apply Z.pow_le_mono_r; lia). lia.
  - apply Z.ltb_ge. assert (2 ^ 70 <= 2 ^ (7 * (len ds - 1))) by (apply Z.pow_le_mono_r; lia). lia.
Qed.

Lemma signed_val_bound ds :
  ds ≠ [] → Forall digit_ok ds → - 2 ^ (7 * len ds - 1) <= signed_val ds < 2 ^ (7 * len ds - 1).
Proof.
  intros Hne Hds. induction Hds as [|d ds Hd Hds IH]; [done|]. unfold digit_ok in Hd.
  destruct ds as [|d' ds].
  - unfold signed_val. simpl. case_ifs; lia.
  - specialize (IH ltac:(done)). unfold signed_val in *.
    change (last (d :: d' :: ds)) with (last (d' :: ds)). cbn [length] in *.
    replace (7 * Z.of_nat (S (S (length ds)))) with (7 * Z.of_nat (S (length ds)) + 7) by lia.
    replace (7 * Z.of_nat (S (length ds)) + 7 - 1) with (7 * Z.of_nat (S (length ds)) - 1 + 7) by lia.
    rewrite !pow2_add7 by lia.
    change (digits_val (d :: d' :: ds)) with (d + 128 * digits_val (d' :: ds)).
    case_ifs; lia.
Qed.

Lemma signed_digits_fit_10 ds v :
  ds ≠ [] → Forall digit_ok ds → signed_val ds = v →
  (length ds = 1%nat ∨ ¬ - 2 ^ (7 * (len ds - 1) - 1) <= v < 2 ^ (7 * (len ds - 1) - 1)) →
  (length ds <=? 10)%nat = (- 2 ^ 69 <=? v) && (v <? 2 ^ 69).
Proof.
  intros Hne Hds Hv Hmin. pose proof (signed_val_bound ds Hne Hds) as Hb.
  destruct (Nat.leb_spec (length ds) 10); symmetry.
  - assert (2 ^ (7 * len ds - 1) <= 2 ^ 69) by (apply Z.pow_le_mono_r; lia). lia.
  - assert (2 ^ 69 <= 2 ^ (7 * (len ds - 1) - 1)) by (apply Z.pow_le_mono_r; lia). lia.
Qed.

(** ** The codec interface *)

Definition uleb (v : Z) : bytes := encode_unsigned_loop (encode_fuel v) v.

Lemma uleb_encode v : 0 <= v → encode_unsigned_leb128 v = Ok (uleb v).
Proof. intros. unfold encode_unsigned_leb128. if_false. done. Qed.

Lemma decode_uleb p v s :
  0 <= v → decode_unsigned_leb128 (p ++ uleb v ++ s) (len p) =
    if v <? 2 ^ 70 then Ok (v, len p + len (uleb v)) else Err ValueError.
Proof.
  intros Hv. destruct (encode_unsigned_digits v Hv) as (ds & He & Hne & Hds & Hval & Hmin).
  rewrite (uleb_encode v Hv) in He. injection He as ->.
  rewrite decode_unsigned_cont by done. rewrite (digits_fit_10 ds v) by done.
  by rewrite length_cont, Hval.
Qed.

Lemma decode_uleb_small p v s :
  0 <= v < 2 ^ 70 →
  decode_unsigned_leb128 (p ++ uleb v ++ s) (len p) = Ok (v, len p + len (uleb v)).
Proof. intros Hv. rewrite decode_uleb by lia. if_true. done. Qed.

#[export] Instance uleb_codec : PrefixCodec Z := {
  pc_wf v := 0 <= v < 2 ^ 70;
  pc_enc := uleb;
  pc_dec := decode_unsigned_leb128;
  pc_dec_enc := decode_uleb_small;
}.

Lemma skip_one_spec i p v s :
  0 <= v < 2 ^ 70 →
  LEB128Reader.skip_one i (LEB128Reader.init (p ++ uleb v ++ s) (len p)) =
  (LEB128Reader.init (p ++ uleb v ++ s) (len p + len (uleb v)), Ok ()).
Proof.
  intros Hv. unfold LEB128Reader.skip_one, m_bind, LEB128Reader.read_unsigned.
  cbn [LEB128Reader.init LEB128Reader.data LEB128Reader.offset].
  rewrite decode_uleb_small by done. done.
Qed.

Lemma skip_loop_spec (r : list Z) vs p s :
  length r = length vs → Forall (λ v, 0 <= v < 2 ^ 70) vs →
  for_each LEB128Reader.skip_one r (LEB128Reader.init (p ++ enc_many vs ++ s) (len p)) =
  (LEB128Reader.init (p ++ enc_many vs ++ s) (len p + len (enc_many vs)), Ok ()).
Proof.
  intros Hr Hvs. revert r p Hr. induction Hvs as [|v vs Hv Hvs IH]; intros [|x r] p Hr; try done.
  - cbn. by rewrite Z.add_0_r.
  - change (enc_many (v :: vs)) with (uleb v ++ enc_many vs).
    rewrite <-app_assoc. cbn [for_each]. unfold m_bind. rewrite skip_one_spec by done.
    specialize (IH r (p ++ uleb v) ltac:(by injection Hr)).
    rewrite <-app_assoc, length_app, Nat2Z.inj_add in IH. rewrite IH.
    rewrite length_app, Nat2Z.inj_add, Z.add_assoc. done.
Qed.

(** * Properties *)

(** The unsigned decoder inverts the unsigned encoder, in any surrounding
    data, exactly for the values below 2^70; for the larger ones the encoder
    succeeds and the decoder raises ValueError on its output. *)
Theorem unsigned_leb128_roundtrip p v s :
  0 <= v →
  ∃ e, encode_unsigned_leb128 v = Ok e ∧
    decode_unsigned_leb128 (p ++ e ++ s) (len p) =
      if v <? 2 ^ 70 then Ok (v, len p + len e) else Err ValueError.
Proof. intros Hv. exists (uleb v). split; [by apply uleb_encode|by apply decode_uleb]. Qed.

Lemma unsigned_leb128_roundtrip_witness :
  0 <= 624485 ∧
  ∃ e, encode_unsigned_leb128 624485 = Ok e ∧
    decode_unsigned_leb128 ([7] ++ e ++ [1; 2]) (len [7]) =
      if 624485 <? 2 ^ 70 then Ok (624485, len [7] + len e) else Err ValueError.
Proof. split; [lia|]. apply (unsigned_leb128_roundtrip [7] 624485 [1; 2]). lia. Defined.

(** The signed decoder inverts the signed encoder exactly for the values
    from -2^69 up to 2^69 - 1, and raises ValueError on the encoding of any
    other integer. *)
Theorem signed_leb128_roundtrip p v s :
  decode_signed_leb128 (p ++ encode_signed_leb128 v ++ s) (len p) =
    if (- 2 ^ 69 <=? v) && (v <? 2 ^ 69)
    then Ok (v, len p + len (encode_signed_leb128 v)) else Err ValueError.
Proof.
  destruct (encode_signed_digits v) as (ds & -> & Hne & Hds & Hval & Hmin).
  rewrite decode_signed_cont, (signed_digits_fit_10 ds v), length_cont, Hval by done. done.
Qed.

(** On arbitrary bytes and any offset that is not negative, the unsigned
    decoder either raises ValueError or returns a value below 2^70, having
    consumed between one and ten bytes inside the data, and no fewer than the
    encoder uses for that value. *)
Theorem decode_unsigned_sound data off :
  bytes_ok data → 0 <= off →
  match decode_unsigned_leb128 data off with
  | Ok (v, off') =>
      0 <= v < 2 ^ 70 ∧ off < off' <= off + 10 ∧ off' <= len data ∧
      ∃ e, encode_unsigned_leb128 v = Ok e ∧ len e <= off' - off
  | Err e => e = ValueError
  end.
Proof.
  intros Hdata Hoff. unfold decode_unsigned_leb128. destruct (Z.leb_spec (len data) off); [done|].
  destruct (decode_loop 10 data off 0 0) as [d|e] eqn:E; simpl.
  - apply decode_loop_complete in E; [|done|lia..].
    destruct E as (ds & Hne & Hds & Hlen & Hb & -> & Hsl & Hr & Hs & Hbv).
    rewrite Hr, Z.pow_0_r, Z.mul_1_r, Z.add_0_l. pose proof (digits_val_bound ds Hds) as Hval.
    assert (2 ^ (7 * len ds) <= 2 ^ 70) by (apply Z.pow_le_mono_r; lia).
    assert (0 < len ds) by (destruct ds; simpl; [done|lia]).
    split_and!; try lia.
    destruct (encode_unsigned_digits (digits_val ds)) as (ds' & He & _ & _ & _ & Hmin); [lia|].
    exists (cont ds'). split; [done|]. rewrite length_cont.
    destruct Hmin as [->|Hmin]; [lia|].
    assert (¬ 7 * len ds <= 7 * (len ds' - 1)); [|lia].
    intros Hle. apply (Z.pow_le_mono_r 2) in Hle; lia.
  - destruct (decode_loop_total 10 data off 0 0) as [H1|H1]; [lia|by rewrite E in H1|].
    rewrite E in H1. by injection H1.
Qed.

Lemma decode_unsigned_sound_witness :
  bytes_ok [0xE5; 0x8E; 0x26] ∧ 0 <= 0 ∧
  match decode_unsigned_leb128 [0xE5; 0x8E; 0x26] 0 with
  | Ok (v, off') =>
      0 <= v < 2 ^ 70 ∧ 0 < off' <= 0 + 10 ∧ off' <= len [0xE5; 0x8E; 0x26] ∧
      ∃ e, encode_unsigned_leb128 v = Ok e ∧ len e <= off' - 0
  | Err e => e = ValueError
  end.
Proof.
  assert (bytes_ok [0xE5; 0x8E; 0x26]) as H by (repeat constructor; lia).
  split; [exact H|]. split; [lia|]. apply (decode_unsigned_sound _ 0 H). lia.
Defined.

(** [skip(n)] on a reader placed at the first of n consecutive encodings
    leaves it exactly after the last one, whatever follows. *)
Theorem reader_skip vs p s :
  Forall (λ v, 0 <= v < 2 ^ 70) vs →
  LEB128Reader.skip (len vs) (LEB128Reader.init (p ++ enc_many vs ++ s) (len p)) =
  (LEB128Reader.init (p ++ enc_many vs ++ s) (len p + len (enc_many vs)), Ok ()).
Proof.
  intros Hvs. unfold LEB128Reader.skip, py_range. apply skip_loop_spec; [|done].
  rewrite length_seqZ. lia.
Qed.

Lemma reader_skip_witness :
  Forall (λ v, 0 <= v < 2 ^ 70) [3; 300; 70000] ∧
  LEB128Reader.skip (len [3; 300; 70000])
    (LEB128Reader.init ([9] ++ enc_many [3; 300; 70000] ++ [8]) (len [9])) =
  (LEB128Reader.init ([9] ++ enc_many [3; 300; 70000] ++ [8])
     (len [9] + len (enc_many [3; 300; 70000])), Ok ()).
Proof.
  assert (Forall (λ v, 0 <= v < 2 ^ 70) [3; 300; 70000]) as H by (repeat constructor; lia).
  split; [exact H|]. apply (reader_skip [3; 300; 70000] [9] [8] H).
Defined.

Example decode_wikipedia : decode_unsigned_leb128 [0xE5; 0x8E; 0x26] 0 = Ok (624485, 3).
Proof. reflexivity. Qed.

Example decode_signed_vector : decode_signed_leb128 [0xC0; 0xBB; 0x78] 0 = Ok (-123456, 3).
Proof. reflexivity. Qed.
