(* ===== verification/WasmMemory.v ===== *)
(** WebAssembly linear memory: wasm/src/engine/memory.py.

    [Memory] is the class of the same name: the byte array, the page counters
    and every operation that reads or changes them; [SharedMemory] is the
    wrapper with the atomic operations. A method that raises returns the
    exception together with the memory as it was left. A float is its binary64 bit
    pattern, which is what [struct] writes for a 64-bit float; a 32-bit float is rounded
    to the nearest, ties to even, and a NaN becomes quiet. Of the slices that [__getitem__] and
    [__setitem__] take, those with a step are left out. *)

From S2P Require Import Prelude Bytes.

Definition WASM_PAGE_SIZE : Z := 65536.
Definition MAX_PAGES : Z := 65536.
Definition MAX_MEMORY_SIZE : Z := MAX_PAGES * WASM_PAGE_SIZE.

(** * 32-bit floats

    [struct]'s format [f] as patterns: [f32_of_f64] rounds a binary64 pattern to a binary32 one,
    or raises when a finite value is too large, and [f64_of_f32] is exact. *)

(** The integer nearest to [n / 2 ^ s], ties to even. *)
Definition round_shift (n s : Z) : Z :=
  let q := n / 2 ^ s in
  let r := n mod 2 ^ s in
  if 2 * r <? 2 ^ s then q else if 2 ^ s <? 2 * r then q + 1 else if Z.even q then q else q + 1.

Definition f32_of_f64 (f : Z) : res Z :=
  let s := f / 2 ^ 63 * 2 ^ 31 in
  let e := f / 2 ^ 52 mod 2048 in
  let m := f mod 2 ^ 52 in
  if e =? 2047 then Ok (s + 0x7F800000 + (if m =? 0 then 0 else Z.lor 0x400000 (m / 2 ^ 29)))
  else
    let '(n, x) := if e =? 0 then (m, -1074) else (m + 2 ^ 52, e - 1075) in
    let q := Z.max (x + 29) (-149) in
    let bits := (q + 149) * 2 ^ 23 + round_shift n (q - x) in
    if 0x7F800000 <=? bits then Err OverflowError else Ok (s + bits).

Definition f64_of_f32 (b : Z) : Z :=
  let s := b / 2 ^ 31 * 2 ^ 63 in
  let e := b / 2 ^ 23 mod 256 in
  let m := b mod 2 ^ 23 in
  if e =? 255 then s + 2047 * 2 ^ 52 + (if m =? 0 then 0 else Z.lor (2 ^ 51) (m * 2 ^ 29))
  else if e =? 0 then
    if m =? 0 then s else s + (Z.log2 m + 874) * 2 ^ 52 + (m - 2 ^ Z.log2 m) * 2 ^ (52 - Z.log2 m)
  else s + (e + 896) * 2 ^ 52 + m * 2 ^ 29.

(** 1.5, 0.1, the smallest and the largest 32-bit floats, infinity; 2^128 is too large. *)
Example f32_patterns :
  f32_of_f64 0x3FF8000000000000 = Ok 0x3FC00000 ∧ f64_of_f32 0x3FC00000 = 0x3FF8000000000000 ∧
  f32_of_f64 0x3FB999999999999A = Ok 0x3DCCCCCD ∧ f64_of_f32 0x3DCCCCCD = 0x3FB99999A0000000 ∧
  f32_of_f64 (f64_of_f32 1) = Ok 1 ∧ f32_of_f64 (f64_of_f32 0xFF7FFFFF) = Ok 0xFF7FFFFF ∧
  f32_of_f64 0x7FF0000000000000 = Ok 0x7F800000 ∧ f32_of_f64 0x47F0000000000000 = Err OverflowError.
Proof. vm_compute. repeat split. Qed.

Module Memory.
Record t := {
  initial_pages : Z;
  max_pages : Z;
  pages : Z;
  data : bytes;
}.

Definition with_data (m : t) (d : bytes) : t :=
  {| initial_pages := initial_pages m; max_pages := max_pages m; pages := pages m; data := d |}.

Definition init_memory (initial : Z) (max : option Z) : res t :=
  if initial <? 0 then Err WasmMemoryError
  else if match max with Some mx => mx <? initial | None => false end then Err WasmMemoryError
  else
    let max' := match max with Some mx => if MAX_PAGES <? mx then MAX_PAGES else mx
                             | None => MAX_PAGES end in
    Ok {| initial_pages := initial; max_pages := max'; pages := initial;
          data := py_repeat (initial * WASM_PAGE_SIZE) 0 |}.

Definition size (m : t) : Z := len (data m).

Definition grow (delta_pages : Z) : method t Z := λ m,
  if delta_pages =? 0 then (m, Ok (pages m))
  else
    let new_pages := pages m + delta_pages in
    if max_pages m <? new_pages then (m, Err WasmMemoryError)
    else if new_pages <? 0 then (m, Ok (-1))
    else
      let new_size := new_pages * WASM_PAGE_SIZE in
      if MAX_MEMORY_SIZE <? new_size then (m, Err WasmMemoryError)
      else
        let old_pages := pages m in
        ({| initial_pages := initial_pages m; max_pages := max_pages m; pages := new_pages;
            data := data m ++ py_repeat (delta_pages * WASM_PAGE_SIZE) 0 |},
         Ok old_pages).

Definition check_bounds (m : t) (address size : Z) : res () :=
  if address <? 0 then Err WasmMemoryError
  else if len (data m) <? address + size then Err WasmMemoryError
  else Ok ().

(** ** Loads *)

Definition load_i32 (m : t) (address : Z) : res Z :=
  _ ← check_bounds m address 4; unpack_le_s_from 4 (data m) address.

Definition load_i64 (m : t) (address : Z) : res Z :=
  _ ← check_bounds m address 8; unpack_le_s_from 8 (data m) address.

Definition load_f32 (m : t) (address : Z) : res Z :=
  _ ← check_bounds m address 4; f64_of_f32 <$> unpack_le_from 4 (data m) address.

Definition load_f64 (m : t) (address : Z) : res Z :=
  _ ← check_bounds m address 8; unpack_le_from 8 (data m) address.

Definition load_i32_8s (m : t) (address : Z) : res Z :=
  _ ← check_bounds m address 1;
  val ← py_get (data m) address;
  Ok (if negb (Z.land val 0x80 =? 0) then Z.lor val 0xFFFFFF00 else val).

Definition load_i32_8u (m : t) (address : Z) : res Z :=
  _ ← check_bounds m address 1; py_get (data m) address.

Definition load_i32_16s (m : t) (address : Z) : res Z :=
  _ ← check_bounds m address 2; unpack_le_s_from 2 (data m) address.

Definition load_i32_16u (m : t) (address : Z) : res Z :=
  _ ← check_bounds m address 2; unpack_le_from 2 (data m) address.

Definition load_i64_8s (m : t) (address : Z) : res Z :=
  _ ← check_bounds m address 1;
  val ← py_get (data m) address;
  Ok (if negb (Z.land val 0x80 =? 0) then Z.lor val 0xFFFFFFFFFFFFFF00 else val).

Definition load_i64_8u (m : t) (address : Z) : res Z :=
  _ ← check_bounds m address 1; py_get (data m) address.

Definition load_i64_16s (m : t) (address : Z) : res Z :=
  _ ← check_bounds m address 2; unpack_le_s_from 2 (data m) address.

Definition load_i64_16u (m : t) (address : Z) : res Z :=
  _ ← check_bounds m address 2; unpack_le_from 2 (data m) address.

Definition load_i64_32s (m : t) (address : Z) : res Z :=
  _ ← check_bounds m address 4; unpack_le_s_from 4 (data m) address.

Definition load_i64_32u (m : t) (address : Z) : res Z :=
  _ ← check_bounds m address 4; unpack_le_from 4 (data m) address.

(** ** Stores *)

(** A mutation of the byte array that may raise instead. *)
Definition update (f : t → res bytes) : method t () := λ m,
  match f m with Ok d => (with_data m d, Ok ()) | Err e => (m, Err e) end.

(** The bounds check and the [struct.pack_into] of one field of [n] bytes. *)
Definition store (n : nat) (packed : res bytes) (address : Z) : method t () := λ m,
  match check_bounds m address (Z.of_nat n) with
  | Err e => (m, Err e)
  | Ok _ => let '(d, r) := pack_into [(n, packed)] (data m) address in (with_data m d, r)
  end.

Definition store_i32 (address value : Z) : method t () :=
  store 4 (pack_le_s 4 (Z.land value 0xFFFFFFFF)) address.

Definition store_i64 (address value : Z) : method t () :=
  store 8 (pack_le_s 8 (Z.land value 0xFFFFFFFFFFFFFFFF)) address.

Definition store_f32 (address bits : Z) : method t () := store 4 (f32_of_f64 bits ≫= pack_le 4) address.

Definition store_f64 (address bits : Z) : method t () := store 8 (pack_le 8 bits) address.

Definition store_i32_8 (address value : Z) : method t () := update (λ m,
  _ ← check_bounds m address 1;
  py_set (data m) address (Z.land value 0xFF)).

Definition store_i32_16 (address value : Z) : method t () :=
  store 2 (pack_le 2 (Z.land value 0xFFFF)) address.

Definition store_i64_8 (address value : Z) : method t () := update (λ m,
  _ ← check_bounds m address 1;
  py_set (data m) address (Z.land value 0xFF)).

Definition store_i64_16 (address value : Z) : method t () :=
  store 2 (pack_le 2 (Z.land value 0xFFFF)) address.

Definition store_i64_32 (address value : Z) : method t () :=
  store 4 (pack_le 4 (Z.land value 0xFFFFFFFF)) address.

(** ** Bulk operations *)

Definition copy (dest src count : Z) : method t () := update (λ m,
  _ ← check_bounds m dest count;
  _ ← check_bounds m src count;
  Ok (if 0 <? count
      then py_slice_set (data m) dest (dest + count) (py_slice (data m) src (src + count))
      else data m)).

Definition fill (dest value count : Z) : method t () := update (λ m,
  _ ← check_bounds m dest count;
  Ok (if 0 <? count
      then py_slice_set (data m) dest (dest + count) (py_repeat count (Z.land value 0xFF))
      else data m)).

Definition init (dest : Z) (seg : bytes) (src_offset count : Z) : method t () := update (λ m,
  _ ← check_bounds m dest count;
  if len seg <? src_offset + count then Err WasmMemoryError
  else Ok (if 0 <? count
           then py_slice_set (data m) dest (dest + count)
                  (py_slice seg src_offset (src_offset + count))
           else data m)).

Definition read (m : t) (address size : Z) : res bytes :=
  _ ← check_bounds m address size; Ok (py_slice (data m) address (address + size)).

Definition write (address : Z) (x : bytes) : method t () := update (λ m,
  _ ← check_bounds m address (len x);
  Ok (py_slice_set (data m) address (address + len x) x)).

Definition get_byte (m : t) (address : Z) : res Z :=
  _ ← check_bounds m address 1; py_get (data m) address.

Definition set_byte (address value : Z) : method t () := update (λ m,
  _ ← check_bounds m address 1;
  py_set (data m) address (Z.land value 0xFF)).

Definition get_bytes (m : t) (address count : Z) : res bytes :=
  _ ← check_bounds m address count; Ok (py_slice (data m) address (address + count)).

Definition set_bytes (address : Z) (x : bytes) : method t () := write address x.

(** [m[address]], [m[start:stop]] and the assignments to them; a bound may be left out. *)
Definition getitem (m : t) (address : Z) : res Z := get_byte m address.
Definition setitem (address value : Z) : method t () := set_byte address value.
Definition getitem_slice (m : t) (start stop : option Z) : bytes :=
  py_slice (data m) (default 0 start) (default (len (data m)) stop).
Definition setitem_slice (start stop : option Z) (x : bytes) : method t () := update (λ m,
  Ok (py_slice_set (data m) (default 0 start) (default (len (data m)) stop) x)).

Definition contains (m : t) (address : Z) : bool := (0 <=? address) && (address <? len (data m)).
End Memory.

Module SharedMemory.
Record t := { memory : Memory.t; is_shared : bool }.

Definition init_shared (initial : Z) (max : option Z) : res t :=
  m ← Memory.init_memory initial max; Ok {| memory := m; is_shared := true |}.

(** A call of a method of the wrapped memory. *)
Definition on_memory {A} (f : method Memory.t A) : method t A := λ s,
  let '(m, r) := f (memory s) in ({| memory := m; is_shared := is_shared s |}, r).

Definition grow (delta_pages : Z) : method t Z := on_memory (Memory.grow delta_pages).

Definition atomic_load_i32 (address : Z) : method t Z :=
  on_memory (λ m, (m, Memory.load_i32 m address)).

Definition atomic_store_i32 (address value : Z) : method t () :=
  on_memory (Memory.store_i32 address value).

Definition atomic_rmw_add (address value : Z) : method t Z :=
  let! prev := on_memory (λ m, (m, Memory.load_i32 m address)) in
  let! _ := on_memory (Memory.store_i32 address (Z.land (prev + value) 0xFFFFFFFF)) in
  m_ret prev.
End SharedMemory.

Definition create_memory (initial : Z) (max : option Z) : res Memory.t :=
  Memory.init_memory initial max.

(** * Single accesses *)

Import Memory.

Lemma check_bounds_ok m a n :
  check_bounds m a n = if (0 <=? a) && (a + n <=? size m) then Ok () else Err WasmMemoryError.
Proof. unfold check_bounds, size. case_ifs; done. Qed.

Lemma check_bounds_inv m a n u : check_bounds m a n = Ok u → 0 <= a ∧ a + n <= size m.
Proof. rewrite check_bounds_ok. case_match eqn:E; intros H; invert_res. lia. Qed.

(** [written m m' a x]: [m'] is [m] with the bytes [x] at [a] and nothing else changed. *)
Definition written (m m' : t) (a : Z) (x : bytes) : Prop :=
  m' = with_data m (py_slice_set (data m) a (a + len x) x).

(** What a store writes: the packed value, or zeros when it does not fit. *)
Definition stored (n : nat) (packed : res bytes) : bytes :=
  match packed with Ok x => x | Err _ => replicate n 0 end.

(** The common shape of the stores. *)
Lemma store_shape m a n packed :
  (∀ x, packed = Ok x → length x = n) →
  store n packed a m =
  if (0 <=? a) && (a + Z.of_nat n <=? size m) then
    (with_data m (py_slice_set (data m) a (a + len (stored n packed)) (stored n packed)),
     _ ← packed; Ok ())
  else (m, Err WasmMemoryError).
Proof.
  intros Hn. unfold store. rewrite check_bounds_ok.
  destruct (_ && _) eqn:E; [|done]. unfold size in E.
  rewrite pack_into_range; [|by repeat constructor|lia|cbn; lia]. cbn.
  destruct packed as [x|e]; cbn; [by rewrite app_nil_r|]. by rewrite Nat.add_0_r.
Qed.

Lemma length_stored n packed :
  (∀ x, packed = Ok x → length x = n) → length (stored n packed) = n.
Proof. intros H. destruct packed; [by apply H|apply length_replicate]. Qed.

Lemma pack_u_length n v x : pack_le n v = Ok x → length x = n.
Proof. intros H. apply pack_u_inv in H as [_ ->]. apply length_le_bytes. Qed.

Lemma pack_s_length n v x : pack_le_s n v = Ok x → length x = n.
Proof. unfold pack_s. case_match; intros; invert_res. apply length_le_bytes. Qed.

(** The byte stores. *)
Lemma store8_shape m a v :
  update (λ m, _ ← check_bounds m a 1; py_set (data m) a (Z.land v 0xFF)) m =
  if (0 <=? a) && (a + 1 <=? size m) then
    (with_data m (py_slice_set (data m) a (a + 1) [Z.land v 0xFF]), Ok ())
  else (m, Err WasmMemoryError).
Proof.
  unfold update, mbind, res_bind. rewrite check_bounds_ok.
  destruct (_ && _) eqn:E; [|done]. unfold size in E.
  unfold py_set, py_index. if_false. if_true. do 2 f_equal.
  rewrite py_slice_set_range by lia.
  rewrite insert_take_drop by lia. do 2 f_equal. simpl. do 2 f_equal. lia.
Qed.

Lemma unpack_written n m a x :
  length x = n → 0 <= a → a + len x <= size m →
  unpack_from n (py_slice_set (data m) a (a + len x) x) a = Ok x.
Proof.
  intros <- ??. unfold size in *. rewrite unpack_from_range; [|lia|].
  - by rewrite py_slice_of_set by lia.
  - rewrite length_py_slice_set by lia. lia.
Qed.

Lemma size_written m m' a x :
  written m m' a x → 0 <= a → a + len x <= size m → size m' = size m.
Proof.
  intros -> ??. unfold size in *. simpl. rewrite length_py_slice_set by lia. done.
Qed.

Lemma check_bounds_written m m' a x b n :
  written m m' a x → 0 <= a → a + len x <= size m →
  check_bounds m' b n = check_bounds m b n.
Proof. intros Hw ??. rewrite !check_bounds_ok. by erewrite size_written. Qed.

(** * The invariant of the memory *)

(** Every element of the array is a byte, and the array has the size the page
    counter says. *)
Definition wf (m : t) : Prop :=
  bytes_ok (data m) ∧ 0 <= pages m ∧ size m = pages m * WASM_PAGE_SIZE.

(** The operations of the class that change it. *)
Inductive op :=
  | OpGrow (delta : Z)
  | OpStoreI32 (a v : Z)
  | OpStoreI64 (a v : Z)
  | OpStoreF32 (a bits : Z)
  | OpStoreF64 (a bits : Z)
  | OpStoreI32_8 (a v : Z)
  | OpStoreI32_16 (a v : Z)
  | OpStoreI64_8 (a v : Z)
  | OpStoreI64_16 (a v : Z)
  | OpStoreI64_32 (a v : Z)
  | OpCopy (dest src count : Z)
  | OpFill (dest value count : Z)
  | OpInit (dest : Z) (seg : bytes) (src_offset count : Z)
  | OpWrite (a : Z) (x : bytes)
  | OpSetByte (a v : Z)
  | OpSetItem (a v : Z)
  | OpSetSlice (start stop : option Z) (x : bytes).

Definition run_op (o : op) (m : t) : t :=
  match o with
  | OpGrow d => (grow d m).1
  | OpStoreI32 a v => (store_i32 a v m).1
  | OpStoreI64 a v => (store_i64 a v m).1
  | OpStoreF32 a v => (store_f32 a v m).1
  | OpStoreF64 a v => (store_f64 a v m).1
  | OpStoreI32_8 a v => (store_i32_8 a v m).1
  | OpStoreI32_16 a v => (store_i32_16 a v m).1
  | OpStoreI64_8 a v => (store_i64_8 a v m).1
  | OpStoreI64_16 a v => (store_i64_16 a v m).1
  | OpStoreI64_32 a v => (store_i64_32 a v m).1
  | OpCopy d s n => (copy d s n m).1
  | OpFill d v n => (fill d v n m).1
  | OpInit d x s n => (init d x s n m).1
  | OpWrite a x => (write a x m).1
  | OpSetByte a v => (set_byte a v m).1
  | OpSetItem a v => (setitem a v m).1
  | OpSetSlice a b x => (setitem_slice a b x m).1
  end.

(** The obligations the code leaves to its callers: a memory only grows, a
    segment is read from a non-negative offset, written data are bytes, and a slice is assigned
    as many bytes as it has. *)
Definition op_ok (m : t) (o : op) : Prop :=
  match o with
  | OpGrow d => 0 <= d
  | OpInit _ x s _ => 0 <= s ∧ bytes_ok x
  | OpWrite _ x => bytes_ok x
  | OpSetSlice a b x => bytes_ok x ∧ len x = len (getitem_slice m a b)
  | _ => True
  end.

Definition run_ops (l : list op) (m : t) : t := foldl (λ m o, run_op o m) m l.

(** Each operation meets its obligation in the memory that the ones before it have left. *)
Fixpoint ops_ok (l : list op) (m : t) : Prop :=
  match l with [] => True | o :: l' => op_ok m o ∧ ops_ok l' (run_op o m) end.

Lemma bytes_ok_slice l a b : bytes_ok l → bytes_ok (py_slice l a b).
Proof. intros. unfold py_slice. by apply Forall_take, Forall_drop. Qed.

Lemma bytes_ok_slice_set l a b x : bytes_ok l → bytes_ok x → bytes_ok (py_slice_set l a b x).
Proof. intros. unfold py_slice_set. auto using Forall_app_2, Forall_take, Forall_drop. Qed.

Lemma bytes_ok_repeat n b : byte_ok b → bytes_ok (py_repeat n b).
Proof. intros. unfold py_repeat. by apply Forall_replicate. Qed.

Lemma land_byte_ok v : byte_ok (Z.land v 0xFF).
Proof.
  rewrite (land_ones_mod 8) by lia. unfold byte_ok. apply Z.mod_pos_bound. lia.
Qed.

#[local] Hint Resolve bytes_ok_slice bytes_ok_slice_set bytes_ok_repeat land_byte_ok : pylist.

Lemma wf_written m a x :
  wf m → bytes_ok x → 0 <= a → a + len x <= size m →
  wf (with_data m (py_slice_set (data m) a (a + len x) x)).
Proof.
  intros (Hb & Hp & Hs) ???. unfold wf, size in *. simpl.
  rewrite length_py_slice_set by lia. auto with pylist.
Qed.

(** A mutation keeps the invariant when every successful result is a write of
    bytes inside the array. *)
Lemma wf_update (f : t → res bytes) m :
  wf m →
  (∀ d, f m = Ok d → d = data m ∨
     ∃ a x, d = py_slice_set (data m) a (a + len x) x ∧ bytes_ok x ∧
            0 <= a ∧ a + len x <= size m) →
  wf (update f m).1.
Proof.
  intros Hwf H. unfold update. destruct (f m) as [d|e] eqn:E; [|done].
  destruct (H d eq_refl) as [->|(a & x & -> & ? & ? & ?)]; simpl.
  - by destruct m.
  - by apply wf_written.
Qed.

Lemma wf_store m a n packed :
  (∀ x, packed = Ok x → length x = n ∧ bytes_ok x) → wf m → wf (store n packed a m).1.
Proof.
  intros Hp Hwf. assert (∀ x, packed = Ok x → length x = n) as Hl by (intros x Hx; apply (Hp x Hx)).
  rewrite store_shape by done. pose proof (length_stored n packed Hl).
  destruct (_ && _) eqn:E; [|done]. apply wf_written; [done| |lia..].
  destruct packed as [x|e]; [by apply Hp|]. apply Forall_replicate. unfold byte_ok. lia.
Qed.

Lemma pack_u_bytes n v x : pack_le n v = Ok x → length x = n ∧ bytes_ok x.
Proof.
  intros H. apply pack_u_inv in H as [_ ->]. split; [apply length_le_bytes|apply le_bytes_ok].
Qed.

Lemma pack_s_bytes n v x : pack_le_s n v = Ok x → length x = n ∧ bytes_ok x.
Proof.
  unfold pack_s. case_match; intros; invert_res.
  split; [apply length_le_bytes|apply le_bytes_ok].
Qed.

Lemma wf_store8 m a v :
  wf m → wf (update (λ m, _ ← check_bounds m a 1; py_set (data m) a (Z.land v 0xFF)) m).1.
Proof.
  intros Hwf. rewrite store8_shape. destruct (_ && _) eqn:E; [|done].
  apply (wf_written _ _ [Z.land v 255]); auto with pylist; simpl; lia.
Qed.

Lemma wf_grow m d : wf m → 0 <= d → wf (grow d m).1.
Proof.
  intros (Hb & Hp & Hs) Hd. unfold grow. case_ifs; try done.
  unfold wf, size, WASM_PAGE_SIZE in *. simpl. split; [|split; [lia|]].
  - apply Forall_app_2; [done|]. apply bytes_ok_repeat. unfold byte_ok. lia.
  - rewrite length_app, Nat2Z.inj_add, length_py_repeat. lia.
Qed.

Lemma wf_copy m d s n : wf m → wf (copy d s n m).1.
Proof.
  intros Hwf. apply wf_update; [done|]. intros x Hx. invert_res.
  apply check_bounds_inv in E, E0. unfold size in *.
  destruct (0 <? n) eqn:En; [right|by left].
  exists d, (py_slice (data m) s (s + n)).
  rewrite length_py_slice by lia. rewrite Z.add_simpl_l.
  repeat split; try lia. destruct Hwf. auto with pylist.
Qed.

Lemma wf_fill m d v n : wf m → wf (fill d v n m).1.
Proof.
  intros Hwf. apply wf_update; [done|]. intros x Hx. invert_res.
  apply check_bounds_inv in E. unfold size in *.
  destruct (0 <? n) eqn:En; [right|by left].
  exists d, (py_repeat n (Z.land v 0xFF)). rewrite length_py_repeat.
  rewrite Z.max_r by lia. repeat split; try lia. auto with pylist.
Qed.

Lemma wf_init m d x s n : wf m → 0 <= s → bytes_ok x → wf (init d x s n m).1.
Proof.
  intros Hwf Hs Hx. apply wf_update; [done|]. intros y Hy. invert_res.
  apply check_bounds_inv in E. destruct (len x <? s + n) eqn:El; invert_res.
  destruct (0 <? n) eqn:En; [right|by left].
  exists d, (py_slice x s (s + n)). rewrite length_py_slice by lia.
  rewrite Z.add_simpl_l. repeat split; try lia. auto with pylist.
Qed.

Lemma wf_write m a x : wf m → bytes_ok x → wf (write a x m).1.
Proof.
  intros Hwf Hx. apply wf_update; [done|]. intros y Hy. invert_res.
  apply check_bounds_inv in E. right. exists a, x. auto with lia.
Qed.

Lemma slice_bound_range n i : 0 <= n → 0 <= slice_bound n i <= n.
Proof. unfold slice_bound. case_match; lia. Qed.

Lemma wf_setitem_slice m a b x :
  wf m → bytes_ok x → len x = len (getitem_slice m a b) → wf (setitem_slice a b x m).1.
Proof.
  intros (Hb & Hp & Hs) Hx Hl. unfold setitem_slice, update, getitem_slice, wf, size in *. cbn [fst with_data data pages].
  set (i := default 0 a) in *. set (j := default _ b) in *.
  pose proof (slice_bound_range (len (data m)) i ltac:(lia)). pose proof (slice_bound_range (len (data m)) j ltac:(lia)).
  split_and!; [by apply bytes_ok_slice_set|done|]. unfold py_slice_set, py_slice in *.
  rewrite length_take, length_drop in Hl. rewrite !length_app, length_take, length_drop. lia.
Qed.

Lemma pack_f32_bytes f x : f32_of_f64 f ≫= pack_le 4 = Ok x → length x = 4%nat ∧ bytes_ok x.
Proof. intros (b & _ & Hb)%bind_Ok. by apply pack_u_bytes in Hb. Qed.

Lemma wf_run_op o m : wf m → op_ok m o → wf (run_op o m).
Proof.
  intros Hwf Ho. destruct o; simpl in *.
  - by apply wf_grow.
  - apply (wf_store m a 4); [apply pack_s_bytes|done].
  - apply (wf_store m a 8); [apply pack_s_bytes|done].
  - apply (wf_store m a 4); [apply pack_f32_bytes|done].
  - apply (wf_store m a 8); [apply pack_u_bytes|done].
  - by apply wf_store8.
  - apply (wf_store m a 2); [apply pack_u_bytes|done].
  - by apply wf_store8.
  - apply (wf_store m a 2); [apply pack_u_bytes|done].
  - apply (wf_store m a 4); [apply pack_u_bytes|done].
  - by apply wf_copy.
  - by apply wf_fill.
  - destruct Ho. by apply wf_init.
  - by apply wf_write.
  - by apply wf_store8.
  - by apply wf_store8.
  - destruct Ho. by apply wf_setitem_slice.
Qed.

(** What a step does to the counters. *)
Definition counters_step (m m' : t) : Prop :=
  max_pages m' = max_pages m ∧
  (pages m' = pages m ∨ pages m < pages m' <= max_pages m).

Lemma update_counters (f : t → res bytes) m : counters_step m (update f m).1.
Proof. unfold update, counters_step. destruct (f m); auto. Qed.

Lemma store_counters n packed a m : counters_step m (store n packed a m).1.
Proof.
  unfold store, counters_step. destruct (check_bounds _ _ _); [|auto].
  destruct (pack_into _ _ _); auto.
Qed.

Lemma run_op_counters o m : op_ok m o → counters_step m (run_op o m).
Proof.
  intros Ho. destruct o as [d| | | | | | | | | | | | | | | |];
    try exact (update_counters _ m); try exact (store_counters _ _ _ m).
  simpl in *. unfold counters_step, grow. case_ifs; simpl; auto with lia.
Qed.

Lemma run_ops_inv l m :
  ops_ok l m → wf m →
  wf (run_ops l m) ∧ max_pages (run_ops l m) = max_pages m ∧
  (pages (run_ops l m) = pages m ∨ pages m < pages (run_ops l m) <= max_pages m).
Proof.
  revert m. induction l as [|o l IH]; intros m Hl Hwf; [by auto|]. destruct Hl as [Ho Hl].
  destruct (IH (run_op o m) Hl (wf_run_op o m Hwf Ho)) as (H1 & H2 & H3).
  pose proof (run_op_counters o m Ho) as [? ?]. simpl in *. change (run_ops (o :: l) m) with
    (run_ops l (run_op o m)). intuition lia.
Qed.

Lemma init_memory_wf n mx m : init_memory n mx = Ok m → wf m ∧ pages m = n.
Proof.
  unfold init_memory. destruct (n <? 0) eqn:En; [done|].
  destruct mx as [x|]; repeat case_match; intros; invert_res; unfold wf, size; simpl;
    rewrite length_py_repeat; unfold WASM_PAGE_SIZE;
    (split; [|done]); (split; [apply bytes_ok_repeat; unfold byte_ok; lia|lia]).
Qed.

(** * Properties *)

(** C11: Any sequence of operations on a fresh memory, stores of all widths, bulk operations, growth
    and assignments to bytes and slices, leaves an array of bytes whose length is 64 KiB times
    the page counter, never loses a page, and never grows past the maximum, provided that it
    grows by non-negative amounts, segments are read from non-negative offsets, written data
    are bytes, and a slice is assigned exactly as many bytes as it has (the code checks none of
    these, and a slice assignment of another length changes the size). *)
Theorem memory_reachable_wf n mx l m :
  init_memory n mx = Ok m → ops_ok l m →
  let m' := run_ops l m in
  bytes_ok (data m') ∧ size m' = pages m' * WASM_PAGE_SIZE ∧
  (pages m' = n ∨ n < pages m' <= max_pages m).
Proof.
  intros Hi Hl. destruct (init_memory_wf _ _ _ Hi) as [Hwf <-].
  destruct (run_ops_inv l m Hl Hwf) as ((? & ? & ?) & ? & ?). auto.
Qed.

Definition memory_example : t :=
  {| initial_pages := 0; max_pages := 2; pages := 0; data := [] |}.

Lemma memory_reachable_wf_witness :
  let m' := run_ops [OpStoreF32 0 1; OpGrow 2; OpSetSlice (Some 8) (Some 10) [1; 2]; OpFill 0 1 9] memory_example in
  bytes_ok (data m') ∧ size m' = pages m' * WASM_PAGE_SIZE ∧
  (pages m' = 0 ∨ 0 < pages m' <= max_pages memory_example).
Proof.
  apply (memory_reachable_wf 0 (Some 2)); [reflexivity|].
  split; [exact I|]. split; [cbn; lia|]. split; [|split; exact I].
  split; [repeat constructor; unfold byte_ok; lia|vm_compute; reflexivity].
Defined.

(** [store_i32] on every branch. Out of bounds it raises [MemoryError] and
    changes nothing. In bounds it succeeds exactly when the low 32 bits of the
    value are below 2^31: then [load_i32] gives those bits back. For the other half
    of the 32-bit values (every negative one) the packing with the signed
    format raises [struct.error], after having cleared the four bytes. In both
    cases the size is the same and no other byte changes. *)
Theorem memory_store_i32_spec m a v :
  let '(m', r) := store_i32 a v m in
  if (0 <=? a) && (a + 4 <=? size m) then
    let fits := v mod 2 ^ 32 <? 2 ^ 31 in
    r = (if fits then Ok () else Err StructError) ∧
    load_i32 m' a = Ok (if fits then v mod 2 ^ 32 else 0) ∧ size m' = size m ∧
    ∀ j : nat, ¬ a <= Z.of_nat j < a + 4 → data m' !! j = data m !! j
  else r = Err WasmMemoryError ∧ m' = m.
Proof.
  unfold store_i32. rewrite (store_shape m a 4) by apply pack_s_length.
  rewrite (land_ones_mod 32) by lia. change (Z.of_nat 4) with 4.
  destruct (_ && _) eqn:E; [|done]. cbv zeta.
  pose proof (length_stored 4 _ (pack_s_length 4 (v mod 2 ^ 32))) as Hx.
  set (x := stored 4 _) in *. set (m' := with_data m _).
  assert (written m m' a x) as Hw by done.
  split; [|split; [|split; [eapply size_written; [exact Hw|lia..]|]]].
  - unfold pack_s. change (width 4 / 2) with (2 ^ 31).
    destruct (v mod 2 ^ 32 <? 2 ^ 31) eqn:Ev; [by if_true|by if_false].
  - unfold load_i32. erewrite check_bounds_written by (exact Hw || lia).
    rewrite check_bounds_ok, E. unfold mbind, res_bind, unpack_le_s_from, unpack_le_from.
    subst m'. cbn [with_data data]. rewrite unpack_written by (done || lia).
    cbn [fmap res_fmap]. f_equal. unfold x, stored, pack_s. change (width 4 / 2) with (2 ^ 31).
    destruct (v mod 2 ^ 32 <? 2 ^ 31) eqn:Ev; [if_true|by if_false].
    rewrite le_val_le_bytes. unfold to_signed. change (width 4) with (2 ^ 32). rewrite Zmod_mod.
    change (2 ^ 32 / 2) with (2 ^ 31). by rewrite Ev.
  - intros j Hj. subst m'. cbn [with_data data]. unfold size in E.
    rewrite lookup_py_slice_set by lia. by rewrite decide_False by lia.
Qed.

(** [copy] is [memmove]: in bounds, the byte at [dest + k] becomes the byte
    that was at [src + k] before the call, also when the two ranges overlap, and
    every other byte is kept; out of bounds it raises and changes nothing. *)
Theorem memory_copy_memmove m dest src count :
  0 <= count →
  let '(m', r) := copy dest src count m in
  if (0 <=? dest) && (dest + count <=? size m) && (0 <=? src) && (src + count <=? size m) then
    r = Ok () ∧ size m' = size m ∧
    ∀ j : nat, data m' !! j =
      if decide (dest <= Z.of_nat j < dest + count)
      then data m !! Z.to_nat (Z.of_nat j - dest + src) else data m !! j
  else r = Err WasmMemoryError ∧ m' = m.
Proof.
  intros Hc. unfold copy, update, mbind, res_bind. rewrite !check_bounds_ok. unfold size.
  destruct ((0 <=? dest) && (dest + count <=? len (data m))) eqn:Ed; [|by if_false].
  destruct ((0 <=? src) && (src + count <=? len (data m))) eqn:Es; [|by if_false].
  if_true. split; [done|]. simpl. destruct (0 <? count) eqn:Ec.
  - set (x := py_slice _ _ _).
    assert (len x = count) as Hx by (unfold x; rewrite length_py_slice; lia).
    replace (dest + count) with (dest + len x) by lia.
    split; [by rewrite length_py_slice_set by lia|]. intros j.
    rewrite lookup_py_slice_set by lia. case_decide as Hj; [|done].
    unfold x. rewrite py_slice_range, lookup_take_lt, lookup_drop by lia. f_equal. lia.
  - split; [done|]. intros j. case_decide; [lia|done].
Qed.

Lemma memory_copy_memmove_witness :
  (copy 1 0 3 {| initial_pages := 1; max_pages := 1; pages := 1; data := [1;2;3;4] |}).2 = Ok ().
Proof.
  pose proof (memory_copy_memmove
    {| initial_pages := 1; max_pages := 1; pages := 1; data := [1;2;3;4] |} 1 0 3
    ltac:(lia)) as H. vm_compute in H |- *. exact (proj1 H).
Defined.

(** C33: [grow] by a non-negative number of pages either returns the old page
    count, keeps every old byte and appends zeros, or raises and changes
    nothing; it succeeds exactly when the new count fits the maximum and the
    4 GiB limit (a growth by zero always succeeds). *)
Theorem memory_grow_spec m d :
  0 <= d → 0 <= pages m →
  let '(m', r) := grow d m in
  if (d =? 0) || ((pages m + d <=? max_pages m) && (pages m + d <=? MAX_PAGES)) then
    r = Ok (pages m) ∧ pages m' = pages m + d ∧ max_pages m' = max_pages m ∧
    data m' = data m ++ replicate (Z.to_nat (d * WASM_PAGE_SIZE)) 0
  else r = Err WasmMemoryError ∧ m' = m.
Proof.
  intros Hd Hp. unfold grow, MAX_MEMORY_SIZE, MAX_PAGES, WASM_PAGE_SIZE.
  destruct (d =? 0) eqn:E0; simpl.
  - assert (d = 0) as -> by lia. rewrite app_nil_r, Z.add_0_r. done.
  - destruct (max_pages m <? pages m + d) eqn:E1; [by if_false|].
    if_false. destruct (65536 * 65536 <? (pages m + d) * 65536) eqn:E2; [by if_false|].
    if_true. done.
Qed.

Lemma memory_grow_spec_witness :
  (grow 3 memory_example).2 = Err WasmMemoryError ∧ (grow 3 memory_example).1 = memory_example.
Proof.
  pose proof (memory_grow_spec memory_example 3 ltac:(lia) ltac:(simpl; lia)) as H.
  destruct (grow 3 memory_example) as [m' r] eqn:E. simpl in *. exact H.
Defined.

(** A negative growth changes the page counter but not the array, so the
    two disagree: the obligation in [op_ok] is needed. *)
Example grow_negative_desync :
  let m := (grow (-1) {| initial_pages := 1; max_pages := 1; pages := 1; data := [5] |}).1 in
  pages m = 0 ∧ data m = [5].
Proof. split; reflexivity. Qed.

(** So does a slice assignment of another length. *)
Example setitem_slice_desync :
  let m := (setitem_slice (Some 0) (Some 4) []
              {| initial_pages := 1; max_pages := 1; pages := 1; data := [1; 2; 3; 4; 5] |}).1 in
  pages m = 1 ∧ data m = [5].
Proof. split; reflexivity. Qed.

(** The atomic addition goes through the signed store, so adding to reach a
    negative number raises after the load. *)
Example atomic_rmw_add_negative :
  (SharedMemory.atomic_rmw_add 0 (-1) {| SharedMemory.memory :=
     {| initial_pages := 0; max_pages := 0; pages := 0; data := [0;0;0;0] |};
     SharedMemory.is_shared := true |}).2 = Err StructError.
Proof. reflexivity. Qed.
