(* ===== verification/WasmTables.v ===== *)
(** WebAssembly tables: wasm/src/engine/tables.py.

    [Table] is the class of the same name, over any type of references; [None]
    is the null reference. [FunctionTable] is its subclass for function indices.
    The loops of the code are kept as loops, in the direction the code runs
    them; the loop rules of the prelude give their effect. *)

From S2P Require Import Prelude.

Module Table.
Section Table.
Context {A : Type}.

Record t := {
  elem_type : Z;
  initial_size : Z;
  max_size : option Z;
  elements : list (option A);
}.

Definition with_elements (m : t) (l : list (option A)) : t :=
  {| elem_type := elem_type m; initial_size := initial_size m;
     max_size := max_size m; elements := l |}.

Definition init_table (ty initial : Z) (max : option Z) (init_value : option A) : res t :=
  if initial <? 0 then Err TableError
  else if match max with Some mx => mx <? initial | None => false end then Err TableError
  else Ok {| elem_type := ty; initial_size := initial; max_size := max;
             elements := py_repeat initial init_value |}.

Definition size (m : t) : Z := len (elements m).

Definition get (m : t) (index : Z) : res (option A) :=
  if (index <? 0) || (size m <=? index) then Err TableError
  else py_get (elements m) index.

(** [self._elements[i] = value]. *)
Definition assign (i : Z) (value : option A) : method t () := λ m,
  match py_set (elements m) i value with
  | Ok l => (with_elements m l, Ok ())
  | Err e => (m, Err e)
  end.

Definition set (index : Z) (value : option A) : method t () := λ m,
  if (index <? 0) || (size m <=? index) then (m, Err TableError)
  else assign index value m.

Definition grow (delta : Z) (init_value : option A) : method t Z := λ m,
  if delta =? 0 then (m, Ok (size m))
  else
    let new_size := size m + delta in
    if match max_size m with Some mx => mx <? new_size | None => false end then (m, Ok (-1))
    else (with_elements m (elements m ++ py_repeat delta init_value), Ok (new_size - delta)).

Definition fill (index : Z) (value : option A) (count : Z) : method t () := λ m,
  if (index <? 0) || (size m <? index + count) then (m, Err TableError)
  else for_each (λ i, assign (index + i) value) (py_range count) m.

(** [self._elements[dest + i] = self._elements[src + i]]. *)
Definition move (dest src i : Z) : method t () := λ m,
  match py_get (elements m) (src + i) with
  | Ok x => assign (dest + i) x m
  | Err e => (m, Err e)
  end.

Definition copy (dest src count : Z) : method t () := λ m,
  if (dest <? 0) || (src <? 0) || (size m <? dest + count) || (size m <? src + count)
  then (m, Err TableError)
  else if dest <=? src then for_each (move dest src) (py_range count) m
  else for_each (move dest src) (py_range_down count) m.

(** [self._elements[index + i] = elements[src_offset + i]]. *)
Definition init_step (index : Z) (elems : list (option A)) (src_offset i : Z) : method t () :=
  λ m, match py_get elems (src_offset + i) with
       | Ok x => assign (index + i) x m
       | Err e => (m, Err e)
       end.

Definition init (index : Z) (elems : list (option A)) (src_offset count : Z) : method t () :=
  λ m,
    if (index <? 0) || (size m <? index + count) then (m, Err TableError)
    else if (src_offset <? 0) || (len elems <? src_offset + count) then (m, Err TableError)
    else for_each (init_step index elems src_offset) (py_range count) m.
End Table.
Arguments t : clear implicits.
End Table.

Module FunctionTable.
Definition t : Type := Table.t Z.

Definition init_function_table (initial : Z) (max : option Z) : res t :=
  Table.init_table 0x70 initial max None.

Definition get_func (m : t) (index : Z) : res Z :=
  val ← Table.get m index;
  Ok match val with None => -1 | Some f => f end.

Definition set_func (index func_idx : Z) : method t () := Table.set index (Some func_idx).
End FunctionTable.

Definition init_external_table (initial : Z) (max : option Z) : res (Table.t Z) :=
  Table.init_table 0x6F initial max None.

Definition create_table (ty initial : Z) (max : option Z) : res (Table.t Z) :=
  if ty =? 0x70 then FunctionTable.init_function_table initial max
  else if ty =? 0x6F then init_external_table initial max
  else Table.init_table ty initial max None.

(** * Lemmas *)

Import Table.

Section lemmas.
Context {A : Type}.
Implicit Types (m : t A) (x : option A).

Lemma table_assign_ok m i x :
  0 <= i < size m → assign i x m = (with_elements m (<[Z.to_nat i := x]> (elements m)), Ok ()).
Proof.
  intros Hi. unfold assign, py_set, py_index, size in *. if_false. if_true. done.
Qed.

Lemma table_lookup_assign m i x (j : nat) :
  0 <= i < size m →
  elements (with_elements m (<[Z.to_nat i := x]> (elements m))) !! j =
    if decide (Z.of_nat j = i) then Some x else elements m !! j.
Proof.
  intros Hi. cbn [with_elements elements]. unfold size in Hi. case_decide as E.
  - subst i. rewrite Nat2Z.id. apply list_lookup_insert_eq. lia.
  - apply list_lookup_insert_ne. lia.
Qed.

(** [m'] is [m0] where the indices satisfying [P] have been overwritten with [g]. *)
Definition overwritten (m0 m' : t A) (P : nat → bool) (g : nat → option (option A)) : Prop :=
  size m' = size m0 ∧ max_size m' = max_size m0 ∧
  ∀ j : nat, elements m' !! j = if P j then g j else elements m0 !! j.

Lemma overwritten_assign m0 m' P Q g i x :
  overwritten m0 m' P g → 0 <= i < size m0 → g (Z.to_nat i) = Some x →
  (∀ j : nat, Q j = (P j || (Z.of_nat j =? i))) →
  ∃ m'', assign i x m' = (m'', Ok ()) ∧ overwritten m0 m'' Q g.
Proof.
  intros (Hs & Hm & Hl) Hi Hg HQ. eexists. rewrite table_assign_ok by lia.
  split; [done|]. split; [|split; [done|]].
  - unfold size in *. cbn [with_elements elements]. rewrite length_insert. done.
  - intros j. rewrite table_lookup_assign by lia. rewrite HQ, Hl. case_decide as E.
    + subst i. rewrite Nat2Z.id in Hg. rewrite Z.eqb_refl, orb_true_r. done.
    + destruct (P j); [done|]. by rewrite (proj2 (Z.eqb_neq _ _)).
Qed.

Lemma table_copy_loop_up m dest src count :
  0 <= count → 0 <= dest <= src → src + count <= size m →
  ∃ m', for_each (move dest src) (py_range count) m = (m', Ok ()) ∧
    overwritten m m' (λ j, (dest <=? Z.of_nat j) && (Z.of_nat j <? dest + count))
      (λ j, elements m !! Z.to_nat (Z.of_nat j - dest + src)).
Proof.
  intros Hc Hd Hs.
  apply (for_each_range_up _ (λ i m', overwritten m m'
    (λ j, (dest <=? Z.of_nat j) && (Z.of_nat j <? dest + i))
    (λ j, elements m !! Z.to_nat (Z.of_nat j - dest + src)))); [done| |].
  - split; [done|split; [done|]]. intros j. by if_false.
  - intros i m' Hi Hm'.
    destruct (py_get_in_range (elements m) (src + i)) as (x & _ & Hx); [unfold size in *; lia|].
    assert (py_get (elements m') (src + i) = Ok x) as Hx'.
    { rewrite py_get_lookup by lia. destruct Hm' as (_ & _ & ->). if_false. by rewrite Hx. }
    unfold move. rewrite Hx'.
    eapply overwritten_assign; [exact Hm'|lia| |intros j; cbv beta; lia].
    rewrite <-Hx. f_equal. lia.
Qed.

Lemma table_copy_loop_down m dest src count :
  0 <= count → 0 <= src < dest → dest + count <= size m →
  ∃ m', for_each (move dest src) (py_range_down count) m = (m', Ok ()) ∧
    overwritten m m' (λ j, (dest + 0 <=? Z.of_nat j) && (Z.of_nat j <? dest + count))
      (λ j, elements m !! Z.to_nat (Z.of_nat j - dest + src)).
Proof.
  intros Hc Hd Hs.
  apply (for_each_range_down _ (λ i m', overwritten m m'
    (λ j, (dest + i <=? Z.of_nat j) && (Z.of_nat j <? dest + count))
    (λ j, elements m !! Z.to_nat (Z.of_nat j - dest + src)))); [done| |].
  - split; [done|split; [done|]]. intros j. by if_false.
  - intros i m' Hi Hm'.
    destruct (py_get_in_range (elements m) (src + i)) as (x & _ & Hx); [unfold size in *; lia|].
    assert (py_get (elements m') (src + i) = Ok x) as Hx'.
    { rewrite py_get_lookup by lia. destruct Hm' as (_ & _ & ->). if_false. by rewrite Hx. }
    unfold move. rewrite Hx'.
    eapply overwritten_assign; [exact Hm'|lia| |intros j; cbv beta; lia].
    rewrite <-Hx. f_equal. lia.
Qed.

Lemma table_init_loop m index elems off count :
  0 <= count → 0 <= index → index + count <= size m →
  0 <= off → off + count <= len elems →
  ∃ m', for_each (init_step index elems off) (py_range count) m = (m', Ok ()) ∧
    overwritten m m' (λ j, (index <=? Z.of_nat j) && (Z.of_nat j <? index + count))
      (λ j, elems !! Z.to_nat (Z.of_nat j - index + off)).
Proof.
  intros Hc Hi Hs Ho He.
  apply (for_each_range_up _ (λ i m', overwritten m m'
    (λ j, (index <=? Z.of_nat j) && (Z.of_nat j <? index + i))
    (λ j, elems !! Z.to_nat (Z.of_nat j - index + off)))); [done| |].
  - split; [done|split; [done|]]. intros j. by if_false.
  - intros i m' Hi' Hm'.
    destruct (py_get_in_range elems (off + i)) as (x & Hx & Hx'); [lia|].
    unfold init_step. rewrite Hx.
    eapply overwritten_assign; [exact Hm'|lia| |intros j; cbv beta; lia].
    rewrite <-Hx'. f_equal. lia.
Qed.
End lemmas.

(** * Properties *)

(** [copy] on every branch, with either direction of its loop: out of range
    it raises and changes nothing; otherwise it is [memmove], entry [dest + k]
    becoming what entry [src + k] was before the call, overlap or not. *)
Theorem table_copy_memmove {A} (m : t A) dest src count :
  0 <= count →
  let '(m', r) := copy dest src count m in
  if (0 <=? dest) && (0 <=? src) && (dest + count <=? size m) && (src + count <=? size m) then
    r = Ok () ∧ size m' = size m ∧
    ∀ j : nat, elements m' !! j =
      if (dest <=? Z.of_nat j) && (Z.of_nat j <? dest + count)
      then elements m !! Z.to_nat (Z.of_nat j - dest + src) else elements m !! j
  else r = Err TableError ∧ m' = m.
Proof.
  intros Hc. unfold copy.
  destruct (_ || _ || _ || _) eqn:E; [by if_false|].
  destruct (dest <=? src) eqn:Eds.
  - destruct (table_copy_loop_up m dest src count) as (m' & -> & ? & ? & H); [lia..|].
    if_true. done.
  - destruct (table_copy_loop_down m dest src count) as (m' & -> & ? & ? & H); [lia..|].
    if_true. rewrite Z.add_0_r in H. done.
Qed.

Definition table_example : t Z :=
  {| elem_type := 0x70; initial_size := 4; max_size := Some 5;
     elements := [Some 1; None; Some 3; Some 4] |}.

Lemma table_copy_memmove_witness :
  (copy 1 0 3 table_example).2 = Ok () ∧
  elements (copy 1 0 3 table_example).1 !! 3%nat = Some (Some 3).
Proof.
  pose proof (table_copy_memmove table_example 1 0 3 ltac:(lia)) as H.
  destruct (copy 1 0 3 table_example) as [m' r] eqn:E. simpl in H |- *.
  destruct H as (Hr & _ & Hj). split; [exact Hr|]. rewrite Hj. reflexivity.
Defined.

(** [init] copies a range of an element segment into the table, and
    checks both ranges before it writes anything. *)
Theorem table_init_spec {A} (m : t A) index elems off count :
  0 <= count →
  let '(m', r) := init index elems off count m in
  if (0 <=? index) && (index + count <=? size m) && (0 <=? off) && (off + count <=? len elems) then
    r = Ok () ∧ size m' = size m ∧
    ∀ j : nat, elements m' !! j =
      if (index <=? Z.of_nat j) && (Z.of_nat j <? index + count)
      then elems !! Z.to_nat (Z.of_nat j - index + off) else elements m !! j
  else r = Err TableError ∧ m' = m.
Proof.
  intros Hc. unfold init.
  destruct ((index <? 0) || _) eqn:E; [by if_false|].
  destruct ((off <? 0) || _) eqn:E2; [by if_false|].
  destruct (table_init_loop m index elems off count) as (m' & -> & ? & ? & H); [lia..|].
  if_true. done.
Qed.

Lemma table_init_spec_witness :
  (init 3 [Some 7; Some 8] 1 1 table_example).2 = Ok ().
Proof.
  pose proof (table_init_spec table_example 3 [Some 7; Some 8] 1 1 ltac:(lia)) as H.
  destruct (init 3 [Some 7; Some 8] 1 1 table_example) as [m' r]. exact (proj1 H).
Defined.

(** Growth past the maximum is refused, and reported by -1, not an exception. *)
Example table_grow_refused : grow 2 None table_example = (table_example, Ok (-1)).
Proof. reflexivity. Qed.
