(* ===== verification/WasmStack.v ===== *)
(** The WebAssembly stacks: wasm/src/engine/stack.py, and the value types of
    wasm/src/module/types.py they are labelled with.

    An operand stack keeps its values and their types in two parallel lists,
    the top at the end of each. [OperandStack], [ControlStack] and [CallStack]
    are the classes of the same names. A value is an integer, a float being its
    bit pattern; [push_f32], which rounds, is not modelled. *)

From S2P Require Import Prelude.

(** * Types (module/types.py) *)

Inductive ValType := I32 | I64 | F32 | F64 | V128 | FUNCREF | EXTERNREF.

#[export] Instance ValType_eq_dec : EqDecision ValType.
Proof. solve_decision. Defined.

Module ValType.
(** The values of the enumeration, which are the bytes of the binary format. *)
Definition code (t : ValType) : Z :=
  match t with
  | I32 => 0x7F | I64 => 0x7E | F32 => 0x7D | F64 => 0x7C
  | V128 => 0x7B | FUNCREF => 0x70 | EXTERNREF => 0x6F
  end.

Definition size (t : ValType) : Z :=
  match t with
  | I32 => 4 | I64 => 8 | F32 => 4 | F64 => 8 | V128 => 16 | FUNCREF => 4 | EXTERNREF => 4
  end.

Definition is_integer (t : ValType) : bool := match t with I32 | I64 => true | _ => false end.
Definition is_float (t : ValType) : bool := match t with F32 | F64 => true | _ => false end.
End ValType.

Definition valtype_from_byte (b : Z) : res ValType :=
  if b =? 0x7F then Ok I32 else if b =? 0x7E then Ok I64
  else if b =? 0x7D then Ok F32 else if b =? 0x7C then Ok F64
  else if b =? 0x7B then Ok V128 else if b =? 0x70 then Ok FUNCREF
  else if b =? 0x6F then Ok EXTERNREF else Err ValueError.

Record FuncType := { ft_params : list ValType; ft_results : list ValType }.

#[export] Instance FuncType_eq_dec : EqDecision FuncType.
Proof. solve_decision. Defined.

Definition functype_from_bytes (params_bytes results_bytes : list Z) : res FuncType :=
  params ← res_map valtype_from_byte params_bytes;
  results ← res_map valtype_from_byte results_bytes;
  Ok {| ft_params := params; ft_results := results |}.

Definition match_valtype (expected actual : ValType) : bool := bool_decide (expected = actual).

(** The code compares [expected] with itself. *)
Definition match_functype (expected actual : FuncType) : bool := bool_decide (expected = expected).

Fixpoint type_index_from (i : Z) (functype : FuncType) (types : list FuncType) : res Z :=
  match types with
  | [] => Err ValueError
  | t :: types' => if bool_decide (t = functype) then Ok i
                   else type_index_from (i + 1) functype types'
  end.
Definition type_index_from_functype := type_index_from 0.

Definition type_check_conversion (src dst : ValType) : bool :=
  if bool_decide (src = dst) then true
  else if ValType.is_integer src && ValType.is_integer dst then true
  else if ValType.is_float src && ValType.is_float dst then true
  else if ValType.is_integer src && ValType.is_float dst then true
  else if ValType.is_float src && ValType.is_integer dst then true
  else false.

Record BlockType := { params : list ValType; results : list ValType; type_idx : option Z }.

(** * The operand stack *)

Module OperandStack.
Record t := { max_height : Z; values : list Z; types : list ValType }.

Definition init_stack (max : Z) : t := {| max_height := max; values := []; types := [] |}.

Definition set_values (s : t) (l : list Z) : t :=
  {| max_height := max_height s; values := l; types := types s |}.
Definition set_types (s : t) (l : list ValType) : t :=
  {| max_height := max_height s; values := values s; types := l |}.

Definition height (s : t) : Z := len (values s).

Definition push (value : Z) (ty : ValType) : method t () := λ s,
  if max_height s <=? height s then (s, Err RuntimeError)
  else ({| max_height := max_height s; values := values s ++ [value];
           types := types s ++ [ty] |}, Ok ()).

Definition push_i32 (value : Z) : method t () := push (Z.land value 0xFFFFFFFF) I32.
Definition push_i64 (value : Z) : method t () := push (Z.land value 0xFFFFFFFFFFFFFFFF) I64.
Definition push_f64 (bits : Z) : method t () := push bits F64.

(** [self._values.pop()] and [self._types.pop()]. *)
Definition values_pop : method t Z := λ s,
  match py_pop (values s) with
  | Ok (v, l) => (set_values s l, Ok v)
  | Err e => (s, Err e)
  end.
Definition types_pop : method t ValType := λ s,
  match py_pop (types s) with
  | Ok (ty, l) => (set_types s l, Ok ty)
  | Err e => (s, Err e)
  end.

Definition pop : method t Z := λ s,
  if height s =? 0 then (s, Err IndexError)
  else (let! _ := types_pop in values_pop) s.

(** [pop_i32], [pop_i64], [pop_f32] and [pop_f64] have this body, with their type. *)
Definition pop_expect (ty : ValType) : method t Z := λ s,
  if height s =? 0 then (s, Err IndexError)
  else (let! val_type := types_pop in
        if bool_decide (val_type = ty) then values_pop else m_raise TypeError) s.

Definition pop_i32 : method t Z := pop_expect I32.
Definition pop_i64 : method t Z := pop_expect I64.
Definition pop_f32 : method t Z := pop_expect F32.
Definition pop_f64 : method t Z := pop_expect F64.

Definition pop_typed : method t (Z * ValType) := λ s,
  if height s =? 0 then (s, Err IndexError)
  else (let! v := values_pop in let! ty := types_pop in m_ret (v, ty)) s.

Definition peek (s : t) (depth : Z) : res Z :=
  if len (values s) <=? depth then Err IndexError else py_get (values s) (- (depth + 1)).

Definition peek_type (s : t) (depth : Z) : res ValType :=
  if len (types s) <=? depth then Err IndexError else py_get (types s) (- (depth + 1)).

(** [[self._values.pop() for _ in range(count)]]. *)
Fixpoint pop_values (n : nat) : method t (list Z) :=
  match n with
  | O => m_ret []
  | S n' => let! v := values_pop in let! l := pop_values n' in m_ret (v :: l)
  end.
Fixpoint pop_types (n : nat) : method t () :=
  match n with
  | O => m_ret ()
  | S n' => let! _ := types_pop in pop_types n'
  end.

Definition pop_many (count : Z) : method t (list Z) := λ s,
  if height s <? count then (s, Err IndexError)
  else (let! l := pop_values (Z.to_nat count) in
        let! _ := pop_types (Z.to_nat count) in
        m_ret (reverse l)) s.

Definition push_many (vs : list Z) (tys : list ValType) : method t () :=
  for_each (λ p, push p.1 p.2) (zip vs tys).

Definition truncate (h : Z) (s : t) : t :=
  if h <? height s
  then {| max_height := max_height s; values := py_del_from (values s) h;
          types := py_del_from (types s) h |}
  else s.

Definition clear (s : t) : t := {| max_height := max_height s; values := []; types := [] |}.
End OperandStack.

(** * The control stack and the call stack *)

Inductive block_kind := KBlock | KLoop | KIf | KElse | KFunction.

Module ControlEntry.
(** The fields the constructor sets; the ones it resets are never read here. *)
Record t := {
  kind : block_kind;
  block_type : BlockType;
  start_pc : Z;
  start_stack_height : Z;
  func_idx : option Z;
}.

Definition label_types (e : t) : list ValType :=
  match kind e with KLoop => params (block_type e) | _ => results (block_type e) end.

Definition arity (e : t) : Z := len (results (block_type e)).
End ControlEntry.

Module ControlStack.
Record t := { max_depth : Z; frames : list ControlEntry.t }.

Definition init_stack (max : Z) : t := {| max_depth := max; frames := [] |}.

Definition push (entry : ControlEntry.t) : method t () := λ s,
  if max_depth s <=? len (frames s) then (s, Err RuntimeError)
  else ({| max_depth := max_depth s; frames := frames s ++ [entry] |}, Ok ()).

Definition pop : method t ControlEntry.t := λ s,
  match py_pop (frames s) with
  | Ok (e, l) => ({| max_depth := max_depth s; frames := l |}, Ok e)
  | Err e => (s, Err e)
  end.

Definition peek (s : t) : res ControlEntry.t :=
  if len (frames s) =? 0 then Err IndexError else py_get (frames s) (-1).

Definition get_label (s : t) (depth : Z) : res ControlEntry.t :=
  if len (frames s) <=? depth then Err IndexError else py_get (frames s) (- (depth + 1)).

Definition get_frame (s : t) (func_idx : Z) : option ControlEntry.t :=
  snd <$> list_find (λ e, ControlEntry.func_idx e = Some func_idx) (reverse (frames s)).

Definition depth (s : t) : Z := len (frames s).
End ControlStack.

Module CallFrame.
Record t := {
  func_idx : Z;
  locals : list Z;
  arity : Z;
  return_pc : Z;
  return_height : Z;
  stack_height : Z;
}.
End CallFrame.

Module CallStack.
Record t := { max_depth : Z; frames : list CallFrame.t }.

Definition init_stack (max : Z) : t := {| max_depth := max; frames := [] |}.

Definition push (frame : CallFrame.t) : method t () := λ s,
  if max_depth s <=? len (frames s) then (s, Err RuntimeError)
  else ({| max_depth := max_depth s; frames := frames s ++ [frame] |}, Ok ()).

Definition pop : method t CallFrame.t := λ s,
  match py_pop (frames s) with
  | Ok (e, l) => ({| max_depth := max_depth s; frames := l |}, Ok e)
  | Err e => (s, Err e)
  end.

Definition peek (s : t) : res CallFrame.t :=
  if len (frames s) =? 0 then Err IndexError else py_get (frames s) (-1).

Definition depth (s : t) : Z := len (frames s).
End CallStack.

(** * The typed stack the operand stack implements *)

Import OperandStack.

(** The operations of the operand stack. *)
Inductive stack_op :=
  | OpPush (v : Z) (ty : ValType)
  | OpPushI32 (v : Z)
  | OpPushI64 (v : Z)
  | OpPop
  | OpPopExpect (ty : ValType)
  | OpPopMany (n : Z)
  | OpPushMany (vs : list Z) (tys : list ValType)
  | OpTruncate (h : Z)
  | OpClear.

Definition returning {A} (f : A → list Z) (m : method t A) : method t (list Z) :=
  let! x := m in m_ret (f x).

(** Each call, with the values it returns. *)
Definition exec (o : stack_op) : method t (list Z) :=
  match o with
  | OpPush v ty => returning (λ _, []) (push v ty)
  | OpPushI32 v => returning (λ _, []) (push_i32 v)
  | OpPushI64 v => returning (λ _, []) (push_i64 v)
  | OpPop => returning (λ v, [v]) pop
  | OpPopExpect ty => returning (λ v, [v]) (pop_expect ty)
  | OpPopMany n => pop_many n
  | OpPushMany vs tys => returning (λ _, []) (push_many vs tys)
  | OpTruncate h => λ s, (truncate h s, Ok [])
  | OpClear => λ s, (clear s, Ok [])
  end.

(** The specification: one list of typed values, the top at the end. *)
Definition typed_stack : Type := list (Z * ValType).

Definition spec_push (max : Z) (l a : typed_stack) : typed_stack * res (list Z) :=
  let room := Z.to_nat (max - len a) in
  if len l <=? Z.of_nat room then (a ++ l, Ok []) else (a ++ take room l, Err RuntimeError).

Definition spec_pop (ok : ValType → bool) (a : typed_stack) : typed_stack * res (list Z) :=
  match last a with
  | None => (a, Err IndexError)
  | Some (v, ty) => (take (pred (length a)) a, if ok ty then Ok [v] else Err TypeError)
  end.

Definition spec_exec (max : Z) (o : stack_op) (a : typed_stack) : typed_stack * res (list Z) :=
  match o with
  | OpPush v ty => spec_push max [(v, ty)] a
  | OpPushI32 v => spec_push max [(v mod 2 ^ 32, I32)] a
  | OpPushI64 v => spec_push max [(v mod 2 ^ 64, I64)] a
  | OpPop => spec_pop (λ _, true) a
  | OpPopExpect ty => spec_pop (λ ty', bool_decide (ty' = ty)) a
  | OpPopMany n =>
      if len a <? n then (a, Err IndexError)
      else let k := (length a - Z.to_nat n)%nat in (take k a, Ok (drop k a).*1)
  | OpPushMany vs tys => spec_push max (zip vs tys) a
  | OpTruncate h => (if h <? len a then py_del_from a h else a, Ok [])
  | OpClear => ([], Ok [])
  end.

(** [s] holds exactly the typed values [a]. *)
Definition rep (s : t) (a : typed_stack) : Prop := values s = a.*1 ∧ types s = a.*2.

(** ** Each operation against the specification *)

Lemma rep_height s a : rep s a → height s = len a.
Proof. intros [Hv _]. unfold height. rewrite Hv, length_fmap. done. Qed.

Lemma rep_eq s a :
  rep s a → s = {| max_height := max_height s; values := a.*1; types := a.*2 |}.
Proof. intros [<- <-]. by destruct s. Qed.

(** What an operation promises: the same result, and the new contents unless a
    typed pop failed. *)
Definition implements (max : Z) (m : t * res (list Z)) (spec : typed_stack * res (list Z)) : Prop :=
  m.2 = spec.2 ∧ max_height m.1 = max ∧ (m.2 ≠ Err TypeError → rep m.1 spec.1).

Lemma push_many_rep l s a :
  rep s a →
  implements (max_height s) (returning (λ _, []) (for_each (λ p, push p.1 p.2) l) s)
    (spec_push (max_height s) l a).
Proof.
  revert s a. induction l as [|[v ty] l IH]; intros s a Hr.
  - unfold spec_push, implements, returning, m_bind. simpl. if_true.
    by rewrite app_nil_r.
  - unfold returning, m_bind. cbn [for_each]. unfold m_bind, push.
    rewrite (rep_height _ _ Hr). destruct (max_height s <=? len a) eqn:E.
    + unfold spec_push. cbn [length]. if_false.
      replace (Z.to_nat (max_height s - len a)) with 0%nat by lia.
      rewrite app_nil_r. unfold implements. auto.
    + set (s1 := {| max_height := _ |}).
      assert (rep s1 (a ++ [(v, ty)])) as H1.
      { destruct Hr as [Hv Ht]. split; cbn [s1 values types fst snd];
          by rewrite fmap_app, ?Hv, ?Ht. }
      specialize (IH s1 _ H1). unfold returning, m_bind in IH. cbn [s1 max_height] in IH.
      unfold spec_push in *. rewrite length_app in IH. cbn [length] in *.
      rewrite <-!app_assoc in IH. cbn [app] in IH.
      replace (Z.to_nat (max_height s - len a))
        with (S (Z.to_nat (max_height s - Z.of_nat (length a + 1)))) by lia.
      cbn [take]. destruct (len l <=? _) eqn:E2 in IH.
      * if_true. exact IH.
      * if_false. exact IH.
Qed.

Lemma push_rep v ty s a :
  rep s a →
  implements (max_height s) (returning (λ _, []) (push v ty) s)
    (spec_push (max_height s) [(v, ty)] a).
Proof.
  intros Hr. pose proof (push_many_rep [(v, ty)] s a Hr) as H.
  unfold returning, m_bind in *. cbn [for_each fst snd] in H. unfold m_bind in H.
  destruct (push v ty s) as [s' [[]|e]]; exact H.
Qed.

(** Popping a value and its type, in either order, off a non-empty stack. *)
Lemma types_pop_rep s a v ty :
  rep s (a ++ [(v, ty)]) → types_pop s = (set_types s a.*2, Ok ty).
Proof. intros [_ Ht]. unfold types_pop. rewrite Ht, fmap_app. simpl. by rewrite py_pop_snoc. Qed.

Lemma values_pop_snoc s l v : values s = l ++ [v] → values_pop s = (set_values s l, Ok v).
Proof. intros Hv. unfold values_pop. by rewrite Hv, py_pop_snoc. Qed.

Lemma pop_with_rep (m : method t Z) (ok : ValType → bool) s a :
  rep s a →
  (∀ s, m s = if height s =? 0 then (s, Err IndexError)
     else (let! ty := types_pop in if ok ty then values_pop else m_raise TypeError) s) →
  implements (max_height s) (returning (λ v, [v]) m s) (spec_pop ok a).
Proof.
  intros Hr Hm. unfold returning. unfold m_bind at 1. rewrite Hm, (rep_height _ _ Hr).
  destruct a as [|[v ty] a _] using rev_ind.
  - unfold implements. simpl. auto.
  - rewrite length_app. cbn [length]. if_false. unfold m_bind. rewrite (types_pop_rep _ _ _ _ Hr).
    unfold spec_pop. rewrite last_snoc, length_app. simpl. rewrite Nat.add_1_r. simpl.
    rewrite take_app_length. destruct (ok ty) eqn:Eok.
    + rewrite (values_pop_snoc _ a.*1 v).
      2:{ destruct Hr as [Hv _]. cbn [set_types values]. by rewrite Hv, fmap_app. }
      split; [done|split; [done|]]. done.
    + split; [done|split; [done|]]. by intros [].
Qed.

Lemma pop_values_rep b s l :
  values s = l ++ b → pop_values (length b) s = (set_values s l, Ok (reverse b)).
Proof.
  revert s. induction b as [|v b IH] using rev_ind; intros s Hv.
  - rewrite app_nil_r in Hv. subst l. by destruct s.
  - rewrite length_app, Nat.add_1_r. cbn [pop_values]. unfold m_bind.
    rewrite (values_pop_snoc _ (l ++ b) v) by (by rewrite <-app_assoc).
    rewrite IH by done. unfold m_ret. rewrite reverse_app. by destruct s.
Qed.

Lemma pop_types_rep b s l :
  types s = l ++ b → pop_types (length b) s = (set_types s l, Ok ()).
Proof.
  revert s. induction b as [|ty b IH] using rev_ind; intros s Hv.
  - rewrite app_nil_r in Hv. subst l. by destruct s.
  - rewrite length_app, Nat.add_1_r. cbn [pop_types]. unfold m_bind, types_pop.
    rewrite Hv, app_assoc, py_pop_snoc, IH by done. by destruct s.
Qed.

Lemma pop_many_rep n s a :
  rep s a → implements (max_height s) (pop_many n s) (spec_exec (max_height s) (OpPopMany n) a).
Proof.
  intros Hr. cbn [spec_exec]. unfold pop_many. rewrite (rep_height _ _ Hr).
  destruct (len a <? n) eqn:E; [unfold implements; auto|].
  set (k := (length a - Z.to_nat n)%nat).
  assert (length (drop k a) = Z.to_nat n) as Hk by (rewrite length_drop; lia).
  destruct Hr as [Hv Ht]. unfold m_bind.
  assert (values s = (take k a).*1 ++ (drop k a).*1) as Hv' by (by rewrite <-fmap_app, take_drop).
  assert (types s = (take k a).*2 ++ (drop k a).*2) as Ht' by (by rewrite <-fmap_app, take_drop).
  pose proof (pop_values_rep (drop k a).*1 s (take k a).*1 Hv') as Ev.
  rewrite length_fmap, Hk in Ev. rewrite Ev. clear Ev.
  pose proof (pop_types_rep (drop k a).*2 (set_values s (take k a).*1) (take k a).*2 Ht') as Et.
  rewrite length_fmap, Hk in Et. rewrite Et. clear Et.
  unfold implements, m_ret. cbn [fst snd]. rewrite reverse_involutive. done.
Qed.

Lemma exec_implements o s a :
  rep s a → implements (max_height s) (exec o s) (spec_exec (max_height s) o a).
Proof.
  intros Hr. destruct o; cbn [exec].
  - by apply push_rep.
  - unfold push_i32. rewrite (land_ones_mod 32) by lia. by apply push_rep.
  - unfold push_i64. rewrite (land_ones_mod 64) by lia. by apply push_rep.
  - by apply (pop_with_rep pop).
  - by apply (pop_with_rep (pop_expect ty)).
  - by apply pop_many_rep.
  - by apply push_many_rep.
  - unfold implements, truncate. cbn [spec_exec fst snd]. rewrite (rep_height _ _ Hr).
    destruct Hr as [Hv Ht]. case_match; [|done]. split; [done|split; [done|]]. intros _.
    unfold rep, py_del_from. cbn [values types]. rewrite Hv, Ht, !length_fmap, !fmap_take. done.
  - done.
Qed.

Fixpoint exec_all (l : list stack_op) (s : t) : t * list (res (list Z)) :=
  match l with
  | [] => (s, [])
  | o :: l' => let '(s1, r) := exec o s in
               let '(s2, rs) := exec_all l' s1 in (s2, r :: rs)
  end.

Fixpoint spec_exec_all (max : Z) (l : list stack_op) (a : typed_stack) :
    typed_stack * list (res (list Z)) :=
  match l with
  | [] => (a, [])
  | o :: l' => let '(a1, r) := spec_exec max o a in
               let '(a2, rs) := spec_exec_all max l' a1 in (a2, r :: rs)
  end.

Lemma exec_all_implements l s a :
  rep s a → Err TypeError ∉ (spec_exec_all (max_height s) l a).2 →
  (exec_all l s).2 = (spec_exec_all (max_height s) l a).2 ∧
  rep (exec_all l s).1 (spec_exec_all (max_height s) l a).1.
Proof.
  revert s a. induction l as [|o l IH]; intros s a Hr Hne; [done|].
  cbn [exec_all spec_exec_all] in *.
  destruct (exec_implements o s a Hr) as (H1 & H2 & H3).
  destruct (exec o s) as [s1 r]. destruct (spec_exec (max_height s) o a) as [a1 r'].
  cbn [fst snd] in *. subst r'. rewrite <-H2 in *.
  specialize (IH s1 a1). destruct (exec_all l s1) as [s2 rs].
  destruct (spec_exec_all (max_height s1) l a1) as [a2 rs']. cbn [fst snd] in *.
  apply not_elem_of_cons in Hne as [Hr1 Hne].
  destruct IH as [-> ?]; [by apply H3; congruence|done|]. done.
Qed.

(** A stack in the specification never exceeds its maximum height. *)
Lemma spec_exec_height max o a :
  len a <= Z.max 0 max → len (spec_exec max o a).1 <= Z.max 0 max.
Proof.
  intros Ha.
  assert (∀ l, len (spec_push max l a).1 <= Z.max 0 max) as Hpush.
  { intros l. unfold spec_push. case_ifs; simpl; rewrite length_app, ?length_take; lia. }
  assert (∀ ok, len (spec_pop ok a).1 <= Z.max 0 max) as Hpop.
  { intros ok. unfold spec_pop. destruct (last a) as [[v ty]|]; simpl; [|lia].
    rewrite length_take. lia. }
  destruct o; simpl; auto; case_ifs; simpl; unfold py_del_from;
    rewrite ?length_take; lia.
Qed.

Lemma spec_exec_all_height max l a :
  len a <= Z.max 0 max → len (spec_exec_all max l a).1 <= Z.max 0 max.
Proof.
  revert a. induction l as [|o l IH]; intros a Ha; [done|]. simpl.
  pose proof (spec_exec_height max o a Ha) as H.
  destruct (spec_exec max o a) as [a1 r]. specialize (IH a1 H).
  by destruct (spec_exec_all max l a1).
Qed.

(** * Properties *)

(** The operand stack implements a stack of typed values: on any sequence
    of calls from the empty stack in which the specification reports no type
    error, every call returns the value or the exception of the specification
    (overflow, underflow, a partially done [push_many]), the two parallel lists
    hold its contents, and their height stays within the maximum. *)
Theorem operand_stack_refines max l :
  Err TypeError ∉ (spec_exec_all max l []).2 →
  let '(s, rs) := exec_all l (init_stack max) in
  let '(a, rs') := spec_exec_all max l [] in
  rs = rs' ∧ values s = a.*1 ∧ types s = a.*2 ∧ len (values s) <= Z.max 0 max.
Proof.
  intros Hne. destruct (exec_all_implements l (init_stack max) []) as [H1 [H2 H3]];
    [done|done|]. cbn [init_stack max_height] in *.
  pose proof (spec_exec_all_height max l [] ltac:(simpl; lia)) as Hh.
  destruct (exec_all l (init_stack max)) as [s rs].
  destruct (spec_exec_all max l []) as [a rs']. cbn [fst snd] in *.
  split; [done|split; [done|split; [done|]]]. rewrite H2, length_fmap. done.
Qed.

Lemma operand_stack_refines_witness :
  let l := [OpPushI32 (-1); OpPushMany [5; 6] [I64; F64]; OpPopMany 2; OpPopExpect I32; OpPop] in
  (exec_all l (init_stack 2)).2 =
    [Ok []; Err RuntimeError; Ok [4294967295; 5]; Err IndexError; Err IndexError].
Proof.
  intros l. pose proof (operand_stack_refines 2 l) as H.
  destruct (exec_all l (init_stack 2)) as [s rs] eqn:E.
  destruct (spec_exec_all 2 l []) as [a rs'] eqn:E2. vm_compute in E2. injection E2 as <- <-.
  destruct H as [-> _]; [|reflexivity]. cbn [snd].
  intros Hin. repeat (apply elem_of_cons in Hin as [Hin|Hin]; [discriminate|]).
  by apply elem_of_nil in Hin.
Defined.

(** The exceptional case of the refinement: a typed pop of a value of
    another type raises [TypeError] after it removed the type but not the value,
    so the value that stays on top is paired with the type of the one below. *)
Theorem operand_stack_mistyped_pop s a v ty ty' :
  rep s (a ++ [(v, ty')]) → ty ≠ ty' →
  let '(s', r) := pop_expect ty s in
  r = Err TypeError ∧ values s' = values s ∧ types s' = a.*2 ∧ ¬ ∃ b, rep s' b.
Proof.
  intros Hr Hty. unfold pop_expect. rewrite (rep_height _ _ Hr), length_app. cbn [length]. if_false.
  unfold m_bind. rewrite (types_pop_rep _ _ _ _ Hr), bool_decide_false by congruence.
  unfold m_raise. split; [done|split; [done|split; [done|]]].
  intros [b [Hb1 Hb2]]. destruct Hr as [Hv _]. cbn [set_types values types] in *.
  apply (f_equal length) in Hb1, Hb2, Hv.
  autorewrite with pylist in Hb1, Hb2, Hv. simpl in Hv. lia.
Qed.

Lemma operand_stack_mistyped_pop_witness :
  (pop_i32 {| max_height := 9; values := [1; 2]; types := [I32; I64] |}).2 = Err TypeError.
Proof.
  pose proof (operand_stack_mistyped_pop
    {| max_height := 9; values := [1; 2]; types := [I32; I64] |} [(1, I32)] 2 I32 I64
    ltac:(split; reflexivity) ltac:(discriminate)) as H.
  exact (proj1 H).
Defined.

(** The byte codes of the value types are those [valtype_from_byte] reads. *)
Lemma valtype_from_byte_code t : valtype_from_byte (ValType.code t) = Ok t.
Proof. by destruct t. Qed.

(** Any two function types match. *)
Lemma match_functype_always e a : match_functype e a = true.
Proof. unfold match_functype. by rewrite bool_decide_true. Qed.

(** [get_label] counts from the innermost frame. *)
Lemma get_label_snoc m l e k :
  0 <= k < len l → ControlStack.get_label {| ControlStack.max_depth := m;
    ControlStack.frames := l ++ [e] |} (k + 1) =
  ControlStack.get_label {| ControlStack.max_depth := m; ControlStack.frames := l |} k.
Proof.
  intros Hk. unfold ControlStack.get_label. cbn [ControlStack.frames].
  rewrite length_app. cbn [length]. if_false. if_false.
  unfold py_get, py_index. rewrite length_app. cbn [length].
  do 2 if_true. if_false.
  rewrite lookup_app_l by lia.
  replace (- (k + 1 + 1) + Z.of_nat (length l + 1)) with (- (k + 1) + len l) by lia.
  if_false. done.
Qed.
