(* ===== verification/Checksum.v ===== *)
(** Checksums: network/src/utils/checksum.py.

    [InternetChecksum] (RFC 1071), [CRCCalculator], the table-driven [FCS32] and
    the incremental [ChecksumContext] are the classes of the same names.
    [zlib.crc32] is the reflected CRC with polynomial 0xEDB88320, computed bit by
    bit. The hash algorithms of [hashlib] and the file checksum are not modelled. *)

From S2P Require Import Prelude Bytes.

(** * The Internet checksum *)

(** [for i in range(0, len(data), 2): total += (data[i] << 8) + data[i + 1]]. *)
Fixpoint sum_words (data : bytes) (total : Z) : Z :=
  match data with
  | a :: b :: data' => sum_words data' (total + (Z.shiftl a 8 + b))
  | _ => total
  end.

(** [while total >> 16: total = (total & 0xFFFF) + (total >> 16)]. *)
Fixpoint fold_loop (fuel : nat) (total : Z) : Z :=
  match fuel with
  | O => total
  | S fuel' =>
      if Z.shiftr total 16 =? 0 then total
      else fold_loop fuel' (Z.land total 0xFFFF + Z.shiftr total 16)
  end.
Definition fold_fuel (total : Z) : nat := Z.to_nat (Z.log2 (Z.abs total)) + 2.
Definition fold_carry (total : Z) : Z := fold_loop (fold_fuel total) total.

Module InternetChecksum.
Definition compute (data : bytes) (initial_value : Z) : Z :=
  let data := if negb (len data mod 2 =? 0) then data ++ [0] else data in
  let total := fold_carry (sum_words data initial_value) in
  Z.land (Z.lnot total) 0xFFFF.

Definition verify (data : bytes) (checksum : Z) : bool := compute data 0 =? checksum.

Definition compute_ipv4 (header : bytes) : res Z :=
  if len header <? 20 then Err ChecksumError
  else
    let header := py_slice header 0 10 ++ [0; 0] ++ py_from header 12 in
    Ok (compute header 0).

(** [4s] pads or cuts its argument to four bytes. *)
Definition pack_4s (s : bytes) : bytes := take 4 (s ++ [0; 0; 0; 0]).

Definition compute_pseudo_header (src_ip dst_ip : bytes) (protocol payload_length : Z) : res bytes :=
  zero ← pack_be 1 0;
  proto ← pack_be 1 protocol;
  plen ← pack_be 2 payload_length;
  Ok (pack_4s src_ip ++ pack_4s dst_ip ++ zero ++ proto ++ plen).

Definition compute_tcp_udp (src_ip dst_ip : bytes) (protocol : Z) (header payload : bytes) : res Z :=
  pseudo_header ← compute_pseudo_header src_ip dst_ip protocol (len header + len payload);
  Ok (compute (pseudo_header ++ header ++ payload) 0).
End InternetChecksum.

(** * Cyclic redundancy checks *)

(** One bit of a CRC that shifts left: [if crc & top: crc = (crc << 1) ^ poly
    else: crc <<= 1], then the mask. *)
Definition crc_left_bit (top mask polynomial crc : Z) : Z :=
  Z.land (if negb (Z.land crc top =? 0) then Z.lxor (Z.shiftl crc 1) polynomial
          else Z.shiftl crc 1) mask.

(** One bit of a CRC that shifts right (reflected). *)
Definition crc_right_bit (crc : Z) : Z :=
  if negb (Z.land crc 1 =? 0) then Z.lxor (Z.shiftr crc 1) 0xEDB88320 else Z.shiftr crc 1.

Module CRCCalculator.
Definition crc16_byte (polynomial crc byte : Z) : Z :=
  Nat.iter 8 (crc_left_bit 0x8000 0xFFFF polynomial) (Z.lxor crc (Z.shiftl byte 8)).
Definition crc16 (data : bytes) (polynomial : Z) : Z :=
  foldl (crc16_byte polynomial) 0xFFFF data.

Definition crc8_byte (polynomial crc byte : Z) : Z :=
  Nat.iter 8 (crc_left_bit 0x80 0xFF polynomial) (Z.lxor crc byte).
Definition crc8 (data : bytes) (polynomial : Z) : Z := foldl (crc8_byte polynomial) 0x00 data.

(** [zlib.crc32]: the register, bit by bit. *)
Definition crc32_byte (crc byte : Z) : Z := Nat.iter 8 crc_right_bit (Z.lxor crc byte).
Definition zlib_crc32 (data : bytes) : Z :=
  Z.lxor (foldl crc32_byte 0xFFFFFFFF data) 0xFFFFFFFF.

Definition crc32 (data : bytes) : Z := Z.land (zlib_crc32 data) 0xFFFFFFFF.
Definition verify_crc32 (data : bytes) (expected : Z) : bool := crc32 data =? expected.
End CRCCalculator.

Module FCS32.
(** The class attribute [_TABLE]: [None] until the first call. *)
Definition cache : Type := option (list Z).

Definition build_table : list Z := (λ i, Nat.iter 8 crc_right_bit i) <$> py_range 256.

Definition compute_step (table : list Z) (crc byte : Z) : res Z :=
  entry ← py_get table (Z.land (Z.lxor crc byte) 0xFF);
  Ok (Z.lxor entry (Z.shiftr crc 8)).

Fixpoint compute_loop (table : list Z) (data : bytes) (crc : Z) : res Z :=
  match data with
  | [] => Ok crc
  | byte :: data' => crc' ← compute_step table crc byte; compute_loop table data' crc'
  end.

Definition compute (data : bytes) : method cache Z := λ c,
  let table := match c with None => build_table | Some t => t end in
  (Some table, crc ← compute_loop table data 0xFFFFFFFF; Ok (Z.lxor crc 0xFFFFFFFF)).

Definition verify (data : bytes) (fcs : Z) : method cache bool :=
  let! computed := compute data in m_ret (computed =? fcs).
End FCS32.

(** * The incremental checksum *)

Module ChecksumContext.
(** The context without a hash object: [algorithm] is none of the four
    [hashlib] names. *)
Record t := { is_internet : bool; internet_total : Z }.

Definition init_context (is_internet : bool) : t :=
  {| is_internet := is_internet; internet_total := 0 |}.

(** The words of a chunk; an odd last byte is the high byte of a word. *)
Fixpoint add_words (data : bytes) (total : Z) : Z :=
  match data with
  | [] => total
  | [a] => total + Z.shiftl a 8
  | a :: b :: data' => add_words data' (total + (Z.shiftl a 8 + b))
  end.

Definition update (data : bytes) (c : t) : t :=
  if is_internet c
  then {| is_internet := true; internet_total := add_words data (internet_total c) |}
  else c.

Definition digest (c : t) : Z :=
  if is_internet c then Z.land (Z.lnot (fold_carry (internet_total c))) 0xFFFF else 0.
End ChecksumContext.

(** * Lemmas: one's-complement sums *)

Import InternetChecksum.

(** The value of the 16-bit words of [data], an odd last byte being a high byte. *)
Fixpoint word_sum (data : bytes) : Z :=
  match data with
  | [] => 0
  | [a] => a * 256
  | a :: b :: data' => a * 256 + b + word_sum data'
  end.

(** The 16-bit one's-complement representative of a sum: 1..65535 for a
    positive sum, by its class modulo 65535. *)
Definition ones_complement (total : Z) : Z :=
  if total =? 0 then 0 else (total - 1) mod 65535 + 1.

(** Induction two elements at a time. *)
Lemma pair_ind (P : bytes → Prop) :
  P [] → (∀ a, P [a]) → (∀ a b l, P l → P (a :: b :: l)) → ∀ l, P l.
Proof.
  intros H0 H1 H2. fix IH 1. intros [|a [|b l]]; [apply H0|apply H1|apply H2, IH].
Qed.

Lemma add_words_sum data t : ChecksumContext.add_words data t = t + word_sum data.
Proof.
  revert t. induction data as [|a|a b l IH] using pair_ind; intros t;
    cbn [ChecksumContext.add_words word_sum]; rewrite ?IH, ?Z.shiftl_mul_pow2 by lia; lia.
Qed.

Lemma sum_words_even data t :
  len data mod 2 = 0 → sum_words data t = t + word_sum data.
Proof.
  revert t. induction data as [|a|a b l IH] using pair_ind; intros t Hl.
  - simpl. lia.
  - done.
  - cbn [sum_words word_sum]. rewrite IH by (simpl length in Hl; lia).
    rewrite Z.shiftl_mul_pow2 by lia. lia.
Qed.

Lemma sum_words_odd data t :
  len data mod 2 ≠ 0 → sum_words (data ++ [0]) t = t + word_sum data.
Proof.
  revert t. induction data as [|a|a b l IH] using pair_ind; intros t Hl.
  - done.
  - cbn [app sum_words word_sum]. rewrite Z.shiftl_mul_pow2 by lia. lia.
  - cbn [app sum_words word_sum]. rewrite IH by (simpl length in Hl; lia).
    rewrite Z.shiftl_mul_pow2 by lia. lia.
Qed.

Lemma word_sum_nonneg data : bytes_ok data → 0 <= word_sum data.
Proof.
  induction data as [|a|a b l IH] using pair_ind; intros H; cbn [word_sum]; [lia| |].
  - apply Forall_cons in H as [Ha _]. unfold byte_ok in Ha. lia.
  - do 2 apply Forall_cons in H as [? H]. unfold byte_ok in *. specialize (IH H). lia.
Qed.

Lemma word_sum_app p s : len p mod 2 = 0 → word_sum (p ++ s) = word_sum p + word_sum s.
Proof.
  induction p as [|a|a b l IH] using pair_ind; intros Hl; [done|done|].
  cbn [app word_sum]. rewrite IH by (simpl length in Hl; lia). lia.
Qed.

Lemma fold_step total :
  0 <= total → Z.land total 0xFFFF + Z.shiftr total 16 = total - 65535 * (total / 2 ^ 16).
Proof.
  intros. rewrite (land_ones_mod 16), Z.shiftr_div_pow2 by lia. lia.
Qed.

Lemma ones_complement_step total :
  0 <= total → ones_complement (total - 65535 * (total / 2 ^ 16)) = ones_complement total.
Proof.
  intros Ht. unfold ones_complement.
  destruct (Z.eqb_spec total 0) as [->|]; [done|].
  rewrite (proj2 (Z.eqb_neq _ _)) by lia. f_equal.
  rewrite <-(Z_mod_plus_full _ (total / 2 ^ 16)). f_equal. lia.
Qed.

Lemma ones_complement_small total : 0 <= total < 2 ^ 16 → ones_complement total = total.
Proof. intros. unfold ones_complement. case_ifs; lia. Qed.

Lemma fold_loop_small fuel total : 0 <= total < 2 ^ 16 → fold_loop fuel total = total.
Proof.
  intros. destruct fuel; [done|]. cbn [fold_loop].
  rewrite Z.shiftr_div_pow2, Z.div_small by lia. done.
Qed.

(** The loop ends within the fuel: the sum loses a bit in each round until it
    fits 17 bits, and two more rounds end it. *)
Lemma fold_loop_spec (k : nat) total :
  0 <= total < 2 ^ (17 + Z.of_nat k) →
  fold_loop (k + 2) total = ones_complement total.
Proof.
  revert total. induction k as [|k IH]; intros total Ht.
  - cbn [fold_loop Nat.add]. rewrite !Z.shiftr_div_pow2 by lia.
    destruct (total / 2 ^ 16 =? 0) eqn:E; [by rewrite ones_complement_small by lia|].
    rewrite !(land_ones_mod 16) by lia. rewrite <-(ones_complement_step total) by lia.
    replace (total mod 2 ^ 16 + total / 2 ^ 16) with (total - 65535 * (total / 2 ^ 16)) by lia.
    assert (total / 2 ^ 16 = 1) as E1 by lia. rewrite E1 in *.
    destruct ((total - 65535 * 1) / 2 ^ 16 =? 0) eqn:E2.
    + by rewrite ones_complement_small by lia.
    + assert (total = 131071) as -> by lia. reflexivity.
  - cbn [fold_loop Nat.add]. destruct (Z.shiftr total 16 =? 0) eqn:E;
      rewrite Z.shiftr_div_pow2 in E by lia.
    { rewrite ones_complement_small; lia. }
    rewrite fold_step by lia. rewrite IH, ones_complement_step; [done|lia|].
    assert (2 ^ (17 + Z.of_nat (S k)) = 2 ^ 16 * 2 ^ (2 + Z.of_nat k)) as E1
      by (rewrite <-Z.pow_add_r by lia; f_equal; lia).
    assert (2 ^ (17 + Z.of_nat k) = 2 ^ 15 * 2 ^ (2 + Z.of_nat k)) as E2
      by (rewrite <-Z.pow_add_r by lia; f_equal; lia).
    assert (2 ^ 2 <= 2 ^ (2 + Z.of_nat k)) by (apply Z.pow_le_mono_r; lia).
    assert (total / 2 ^ 16 < 2 ^ (2 + Z.of_nat k)) by (apply Z.div_lt_upper_bound; lia).
    lia.
Qed.

Lemma fold_carry_spec total : 0 <= total → fold_carry total = ones_complement total.
Proof.
  intros Ht. unfold fold_carry, fold_fuel. apply fold_loop_spec.
  rewrite Z.abs_eq, Z2Nat.id by (lia || apply Z.log2_nonneg).
  split; [lia|].
  destruct (decide (total = 0)) as [->|]; [done|].
  eapply Z.lt_le_trans; [apply Z.log2_spec; lia|]. apply Z.pow_le_mono_r; [lia|]. lia.
Qed.

Lemma ones_complement_bound total : 0 <= total → 0 <= ones_complement total <= 65535.
Proof. intros. unfold ones_complement. case_ifs; lia. Qed.

Lemma land_lnot_16 t : 0 <= t <= 65535 → Z.land (Z.lnot t) 0xFFFF = 65535 - t.
Proof.
  intros. rewrite (land_ones_mod 16) by lia. unfold Z.lnot. lia.
Qed.

(** The checksum in closed form. *)
Lemma compute_closed data i :
  bytes_ok data → 0 <= i → compute data i = 65535 - ones_complement (i + word_sum data).
Proof.
  intros Hd Hi. pose proof (word_sum_nonneg data Hd). unfold compute.
  assert (sum_words (if negb (len data mod 2 =? 0) then data ++ [0] else data) i
          = i + word_sum data) as ->.
  { destruct (len data mod 2 =? 0) eqn:E; simpl.
    - apply sum_words_even. lia.
    - apply sum_words_odd. lia. }
  rewrite fold_carry_spec by lia. apply land_lnot_16, ones_complement_bound. lia.
Qed.

(** Writing the checksum of the zeroed data into its field makes the whole sum
    to zero: the receiver's test. [p] is what comes before the field. *)
Lemma compute_embedded p s :
  bytes_ok p → bytes_ok s → len p mod 2 = 0 →
  compute (p ++ be_bytes 2 (compute (p ++ [0; 0] ++ s) 0) ++ s) 0 = 0.
Proof.
  intros Hp Hs Hl. set (c := compute (p ++ [0; 0] ++ s) 0).
  pose proof (word_sum_nonneg p Hp). pose proof (word_sum_nonneg s Hs).
  assert (c = 65535 - ones_complement (word_sum p + word_sum s)) as Hc.
  { unfold c. rewrite compute_closed; [|repeat apply Forall_app_2; auto|lia].
    - rewrite word_sum_app by done. cbn [app word_sum]. f_equal; f_equal; lia.
    - repeat constructor; lia. }
  pose proof (ones_complement_bound (word_sum p + word_sum s) ltac:(lia)).
  rewrite compute_closed; [|repeat apply Forall_app_2; auto using be_bytes_ok|lia].
  rewrite word_sum_app by done.
  assert (word_sum (be_bytes 2 c ++ s) = c + word_sum s) as ->.
  { unfold be_bytes. cbn [le_bytes reverse rev_append app word_sum].
    change (2 ^ 16) with 65536 in *. assert (c / 256 mod 256 = c / 256) by lia. lia. }
  unfold ones_complement in *. remember (word_sum p + word_sum s) as w.
  destruct (Z.eqb_spec w 0).
  - replace (0 + (word_sum p + (c + word_sum s))) with 65535 by lia. done.
  - rewrite (proj2 (Z.eqb_neq _ _)) by lia.
    replace (0 + (word_sum p + (c + word_sum s)) - 1)
      with (65534 + (w - 1) / 65535 * 65535) by lia.
    rewrite Z_mod_plus_full. done.
Qed.

(** * Lemmas: the reflected CRC is linear *)

Lemma land_1_odd c : negb (Z.land c 1 =? 0) = Z.odd c.
Proof.
  change 1 with (Z.ones 1) at 1. rewrite Z.land_ones by lia. change (2 ^ 1) with 2.
  rewrite Zmod_odd. by destruct (Z.odd c).
Qed.

Lemma odd_lxor a b : Z.odd (Z.lxor a b) = xorb (Z.odd a) (Z.odd b).
Proof. rewrite <-!Z.bit0_odd. apply Z.lxor_spec. Qed.

Lemma crc_right_bit_lxor a b :
  crc_right_bit (Z.lxor a b) = Z.lxor (crc_right_bit a) (crc_right_bit b).
Proof.
  unfold crc_right_bit. rewrite !land_1_odd, odd_lxor, Z.shiftr_lxor.
  set (p := 0xEDB88320).
  destruct (Z.odd a), (Z.odd b); cbn [xorb];
    apply Z.bits_inj'; intros n Hn; rewrite !Z.lxor_spec;
    by destruct (Z.testbit (Z.shiftr a 1) n), (Z.testbit (Z.shiftr b 1) n), (Z.testbit p n).
Qed.

Lemma iter_lxor n a b :
  Nat.iter n crc_right_bit (Z.lxor a b) =
  Z.lxor (Nat.iter n crc_right_bit a) (Nat.iter n crc_right_bit b).
Proof.
  induction n as [|n IH]; [done|]. cbn [Nat.iter nat_rect].
  change (nat_rect _ ?x (λ _, crc_right_bit) n) with (Nat.iter n crc_right_bit x).
  rewrite <-crc_right_bit_lxor. f_equal. exact IH.
Qed.

Lemma iter_shift n x : Nat.iter n crc_right_bit (x * 2 ^ Z.of_nat n) = x.
Proof.
  revert x. induction n as [|n IH]; intros x; [simpl; lia|].
  rewrite Nat.iter_succ_r. rewrite <-(IH x) at 2. f_equal.
  replace (x * 2 ^ Z.of_nat (S n)) with (2 * (x * 2 ^ Z.of_nat n))
    by (rewrite Nat2Z.inj_succ, Z.pow_succ_r by lia; lia).
  unfold crc_right_bit. rewrite land_1_odd, Z.odd_mul. cbn [Z.odd andb].
  rewrite Z.shiftr_div_pow2, Z.mul_comm by lia. apply Z.div_mul. lia.
Qed.

(** One byte of the register against the table entry of its low byte. *)
Lemma table_entry crc byte :
  byte_ok byte →
  Z.lxor (Nat.iter 8 crc_right_bit (Z.land (Z.lxor crc byte) 0xFF)) (Z.shiftr crc 8) =
  CRCCalculator.crc32_byte crc byte.
Proof.
  intros Hb. unfold CRCCalculator.crc32_byte. set (v := Z.lxor crc byte).
  assert (Z.shiftr v 8 = Z.shiftr crc 8) as <-.
  { unfold v. rewrite Z.shiftr_lxor, (Z.shiftr_div_pow2 byte) by lia.
    rewrite Z.div_small by exact Hb. apply Z.lxor_0_r. }
  rewrite <-(iter_shift 8 (Z.shiftr v 8)) at 1. rewrite <-iter_lxor. f_equal.
  apply Z.bits_inj'. intros n Hn. rewrite Z.lxor_spec, Z.land_spec.
  change (2 ^ Z.of_nat 8) with (2 ^ 8). rewrite <-Z.shiftl_mul_pow2 by lia.
  change 0xFF with (Z.ones 8). destruct (decide (n < 8)).
  - rewrite Z.ones_spec_low, Z.shiftl_spec_low by lia.
    by rewrite andb_true_r, xorb_false_r.
  - rewrite Z.ones_spec_high, Z.shiftl_spec, Z.shiftr_spec by lia.
    rewrite andb_false_r, xorb_false_l. f_equal. lia.
Qed.

Lemma build_table_get i :
  0 <= i < 256 → py_get FCS32.build_table i = Ok (Nat.iter 8 crc_right_bit i).
Proof.
  intros Hi. unfold FCS32.build_table. rewrite py_get_lookup, list_lookup_fmap by lia.
  unfold py_range. rewrite lookup_seqZ_lt by lia. simpl fmap.
  by rewrite Z.add_0_l, Z2Nat.id by lia.
Qed.

Lemma fcs32_loop data crc :
  bytes_ok data →
  FCS32.compute_loop FCS32.build_table data crc =
  Ok (foldl CRCCalculator.crc32_byte crc data).
Proof.
  intros Hd. revert crc. induction Hd as [|b l Hb Hl IH]; intros crc; [done|].
  cbn [FCS32.compute_loop]. unfold FCS32.compute_step.
  rewrite build_table_get.
  - cbn [mbind res_bind foldl]. rewrite table_entry by done. apply IH.
  - rewrite (land_ones_mod 8) by lia. apply Z.mod_pos_bound. lia.
Qed.

(** A register below 2^32 stays below, so the masks of the code lose nothing. *)
Lemma crc_right_bit_bound c : 0 <= c < 2 ^ 32 → 0 <= crc_right_bit c < 2 ^ 32.
Proof.
  intros Hc. unfold crc_right_bit. rewrite Z.shiftr_div_pow2 by lia.
  assert (0 <= c / 2 ^ 1 < 2 ^ 31) by lia. case_match; [|lia].
  apply (lxor_bound 32); lia.
Qed.

Lemma crc32_byte_bound c b :
  0 <= c < 2 ^ 32 → byte_ok b → 0 <= CRCCalculator.crc32_byte c b < 2 ^ 32.
Proof.
  intros Hc Hb. unfold byte_ok in Hb. unfold CRCCalculator.crc32_byte.
  assert (∀ n x, 0 <= x < 2 ^ 32 → 0 <= Nat.iter n crc_right_bit x < 2 ^ 32) as Hi.
  { intros n x Hx. induction n; [done|]. by apply crc_right_bit_bound. }
  apply Hi, lxor_bound; lia.
Qed.

Lemma crc32_loop_bound data c :
  bytes_ok data → 0 <= c < 2 ^ 32 → 0 <= foldl CRCCalculator.crc32_byte c data < 2 ^ 32.
Proof.
  intros Hd. revert c. induction Hd as [|b l Hb Hl IH]; intros c Hc; [done|].
  apply IH. by apply crc32_byte_bound.
Qed.

Lemma crc32_zlib data : bytes_ok data → CRCCalculator.crc32 data = CRCCalculator.zlib_crc32 data.
Proof.
  intros Hd. unfold CRCCalculator.crc32, CRCCalculator.zlib_crc32.
  rewrite (land_ones_mod 32) by lia. apply Z.mod_small, lxor_bound; [lia| |lia].
  apply crc32_loop_bound; [done|lia].
Qed.

(** ** The incremental checksum *)

Definition update_all (chunks : list bytes) (c : ChecksumContext.t) : ChecksumContext.t :=
  foldl (λ c d, ChecksumContext.update d c) c chunks.

Lemma update_all_total chunks total :
  Forall (λ d, len d mod 2 = 0) chunks →
  update_all chunks {| ChecksumContext.is_internet := true;
                       ChecksumContext.internet_total := total |} =
  {| ChecksumContext.is_internet := true;
     ChecksumContext.internet_total := total + word_sum (concat chunks) |}.
Proof.
  intros Hc. revert total. induction Hc as [|d chunks Hd Hc IH]; intros total.
  - simpl. by rewrite Z.add_0_r.
  - cbn [update_all foldl concat]. unfold ChecksumContext.update at 2.
    cbn [ChecksumContext.is_internet ChecksumContext.internet_total].
    rewrite add_words_sum. etransitivity; [apply IH|].
    rewrite word_sum_app by done. f_equal. lia.
Qed.

(** * Properties *)

(** The Internet checksum of any byte string, of even or odd length and
    from any non-negative initial value, is the complement of the one's-complement
    sum of its 16-bit words; in particular the carry loop ends within its fuel. *)
Theorem internet_checksum_closed data i :
  bytes_ok data → 0 <= i →
  Z.shiftr (fold_carry (i + word_sum data)) 16 = 0 ∧
  compute data i = 65535 - ones_complement (i + word_sum data) ∧
  0 <= compute data i <= 65535.
Proof.
  intros Hd Hi. pose proof (word_sum_nonneg data Hd).
  pose proof (ones_complement_bound (i + word_sum data) ltac:(lia)).
  rewrite compute_closed, fold_carry_spec, Z.shiftr_div_pow2, Z.div_small by (done || lia).
  lia.
Qed.

Lemma internet_checksum_closed_witness :
  compute [0x45; 0x00; 0xFF] 0 = 65535 - ones_complement (0 + word_sum [0x45; 0x00; 0xFF]).
Proof.
  apply (internet_checksum_closed [0x45; 0x00; 0xFF] 0); [|lia].
  repeat constructor; lia.
Defined.

(** What a sender does with the checksum makes the receiver's check succeed:
    when the checksum computed over zeroed field bytes at an even offset is written
    into that field, the checksum of the whole is zero. *)
Theorem internet_checksum_verifies p s :
  bytes_ok p → bytes_ok s → len p mod 2 = 0 →
  verify (p ++ be_bytes 2 (compute (p ++ [0; 0] ++ s) 0) ++ s) 0 = true.
Proof. intros. unfold verify. by rewrite compute_embedded. Qed.

Lemma internet_checksum_verifies_witness :
  verify ([1; 2] ++ be_bytes 2 (compute ([1; 2] ++ [0; 0] ++ [200; 7; 9]) 0) ++ [200; 7; 9]) 0 = true.
Proof. apply (internet_checksum_verifies [1; 2] [200; 7; 9]); [..|reflexivity]; repeat constructor; lia. Defined.

(** Feeding a message to [ChecksumContext] in chunks of even length, the
    last chunk being of any length, gives the checksum of the whole message. *)
Theorem checksum_context_incremental chunks last_chunk :
  Forall (λ d, len d mod 2 = 0) chunks → Forall bytes_ok chunks → bytes_ok last_chunk →
  ChecksumContext.digest
    (update_all (chunks ++ [last_chunk]) (ChecksumContext.init_context true)) =
  compute (concat (chunks ++ [last_chunk])) 0.
Proof.
  intros Hc Hb Hl. unfold update_all. rewrite foldl_app. fold (update_all chunks).
  unfold ChecksumContext.init_context.
  change (foldl _ ?c chunks) with (update_all chunks c). rewrite update_all_total by done.
  assert (bytes_ok (concat chunks)) as Hcb by (by apply Forall_concat).
  assert (len (concat chunks) mod 2 = 0) as Hce.
  { clear -Hc. induction Hc; simpl; [done|]. rewrite length_app. lia. }
  rewrite concat_app. simpl concat. rewrite app_nil_r.
  rewrite compute_closed by (auto using Forall_app_2 with lia).
  rewrite word_sum_app by done. cbn [foldl]. unfold ChecksumContext.update.
  cbn [ChecksumContext.is_internet ChecksumContext.internet_total].
  unfold ChecksumContext.digest. cbn [ChecksumContext.is_internet ChecksumContext.internet_total].
  rewrite add_words_sum. pose proof (word_sum_nonneg _ Hcb). pose proof (word_sum_nonneg _ Hl).
  rewrite fold_carry_spec by lia. rewrite land_lnot_16 by (apply ones_complement_bound; lia).
  do 2 f_equal.
Qed.

Lemma checksum_context_incremental_witness :
  ChecksumContext.digest
    (update_all ([[1; 2]; [3; 4; 5; 6]] ++ [[7]]) (ChecksumContext.init_context true)) =
  compute (concat ([[1; 2]; [3; 4; 5; 6]] ++ [[7]])) 0.
Proof.
  apply (checksum_context_incremental [[1; 2]; [3; 4; 5; 6]] [7]); repeat constructor; lia.
Defined.

(** A chunk of odd length in the middle pads the middle of the message. *)
Example checksum_context_odd_chunk :
  ChecksumContext.digest (update_all [[1]; [2]] (ChecksumContext.init_context true)) ≠
  compute [1; 2] 0.
Proof. vm_compute. discriminate. Qed.

(** The table-driven FCS-32, whether it finds its table cached or builds it,
    computes the bitwise CRC-32 of every byte string, and leaves the table cached. *)
Theorem fcs32_is_crc32 data (c : FCS32.cache) :
  bytes_ok data → c = None ∨ c = Some FCS32.build_table →
  FCS32.compute data c = (Some FCS32.build_table, Ok (CRCCalculator.crc32 data)).
Proof.
  intros Hd Hc. rewrite crc32_zlib by done. unfold FCS32.compute.
  assert (match c with None => FCS32.build_table | Some t => t end = FCS32.build_table) as ->
    by (by destruct Hc as [-> | ->]).
  rewrite fcs32_loop by done. done.
Qed.

Lemma fcs32_is_crc32_witness :
  (FCS32.compute [49; 50; 51; 52; 53; 54; 55; 56; 57] None).2 = Ok 0xCBF43926.
Proof.
  rewrite (fcs32_is_crc32 [49; 50; 51; 52; 53; 54; 55; 56; 57] None).
  - vm_compute. reflexivity.
  - repeat constructor; lia.
  - by left.
Defined.
