(* ===== verification/Ipv4Address.v ===== *)
(** Dotted-quad addresses: what network/src/protocol/ip.py uses of the
    [ipaddress] module of the standard library.

    [IPv4Address(s).packed] parses a text into four bytes and
    [str(IPv4Address(b))] prints four bytes; a network is its base address and
    prefix length. *)

From Stdlib Require Import Ascii.
From S2P Require Import Prelude Bytes.

Abbreviation chars := String.list_ascii_of_string.
Abbreviation text_of := String.string_of_list_ascii.

Definition dot : Ascii.ascii := "."%char.

(** The value of an ASCII decimal digit. *)
Definition digit (c : Ascii.ascii) : option Z :=
  let n := Z.of_nat (Ascii.nat_of_ascii c) in
  if (48 <=? n) && (n <=? 57) then Some (n - 48) else None.

Definition digit_char (d : Z) : Ascii.ascii := Ascii.ascii_of_nat (48 + Z.to_nat d).

(** [int(s)] of a text of digits, [None] when another character occurs. *)
Fixpoint int_of_digits (acc : Z) (l : list Ascii.ascii) : option Z :=
  match l with
  | [] => Some acc
  | c :: l' => match digit c with Some d => int_of_digits (acc * 10 + d) l' | None => None end
  end.

(** [IPv4Address._parse_octet]: one to three digits, no leading zero, at most 255. *)
Definition parse_octet (l : list Ascii.ascii) : res Z :=
  match l with
  | [] => Err ValueError
  | c :: l' =>
      match int_of_digits 0 l with
      | None => Err ValueError
      | Some n =>
          if 3 <? len l then Err ValueError
          else if (negb (len l =? 1)) && bool_decide (c = "0"%char) then Err ValueError
          else if 255 <? n then Err ValueError else Ok n
      end
  end.

(** [ipaddress.IPv4Address(s).packed]. *)
Definition ip_packed (s : string) : res bytes :=
  let octets := split_on dot (chars s) in
  if len octets =? 4 then res_map parse_octet octets else Err ValueError.

(** [str(n)] for an octet. *)
Definition octet_text (n : Z) : list Ascii.ascii :=
  if n <? 10 then [digit_char n]
  else if n <? 100 then [digit_char (n / 10); digit_char (n mod 10)]
  else [digit_char (n / 100); digit_char (n / 10 mod 10); digit_char (n mod 10)].

(** [str(ipaddress.IPv4Address(b))]: the constructor wants four bytes. *)
Definition ip_text (b : bytes) : res string :=
  if len b =? 4 then Ok (text_of (join_with dot (octet_text <$> b))) else Err ValueError.

(** ** Networks *)

Record IPv4Network := { network_address : Z; prefixlen : Z }.

(** [ip in network], on the integer value of the address. *)
Definition in_network (ip : Z) (n : IPv4Network) : bool :=
  Z.shiftl (Z.shiftr ip (32 - prefixlen n)) (32 - prefixlen n) =? network_address n.

(** * Lemmas *)

Lemma octet_text_parse n : byte_ok n → parse_octet (octet_text n) = Ok n.
Proof.
  intros Hn.
  pose proof (forallb_range
    (λ n, bool_decide (parse_octet (octet_text n) = Ok n)) 256 n) as H.
  apply (bool_decide_unpack _), Is_true_true, H; [vm_compute; reflexivity|exact Hn].
Qed.

Lemma octet_text_no_dot n : byte_ok n → dot ∉ octet_text n.
Proof.
  intros Hn.
  pose proof (forallb_range (λ n, bool_decide (dot ∉ octet_text n)) 256 n) as H.
  apply (bool_decide_unpack _), Is_true_true, H; [vm_compute; reflexivity|exact Hn].
Qed.

(** A digit is determined by its value. *)
Lemma digit_inv c d : digit c = Some d → 0 <= d < 10 ∧ c = digit_char d.
Proof.
  unfold digit, digit_char. case_match eqn:E; [|done]. intros [= <-]. split; [lia|].
  rewrite <-(Ascii.ascii_nat_embedding c) at 1. f_equal. lia.
Qed.

(** An octet that parses has the text that its value prints. *)
Lemma parse_octet_text l n : parse_octet l = Ok n → octet_text n = l ∧ byte_ok n.
Proof.
  intros H. destruct l as [|c1 l]; [done|]. unfold parse_octet in H.
  destruct (int_of_digits 0 (c1 :: l)) as [m|] eqn:Hi; [|done].
  destruct (3 <? len (c1 :: l)) eqn:Hlen; [done|].
  destruct (negb _ && _) eqn:Hz; [done|]. destruct (255 <? m) eqn:Hm; invert_res.
  cbn [int_of_digits] in Hi. destruct (digit c1) as [d1|] eqn:E1; [|done].
  apply digit_inv in E1 as [? ->].
  destruct l as [|c2 l].
  { injection Hi as <-. unfold octet_text, byte_ok. if_true. split; [f_equal; f_equal|]; lia. }
  assert (d1 ≠ 0) as Hd1.
  { intros ->. rewrite bool_decide_true in Hz by done. cbn [length] in Hz. lia. }
  cbn [int_of_digits] in Hi. destruct (digit c2) as [d2|] eqn:E2; [|done].
  apply digit_inv in E2 as [? ->].
  destruct l as [|c3 l].
  { injection Hi as <-. unfold octet_text, byte_ok. if_false. if_true.
    split; [repeat (f_equal; try lia)|lia]. }
  cbn [int_of_digits] in Hi. destruct (digit c3) as [d3|] eqn:E3; [|done].
  apply digit_inv in E3 as [? ->].
  destruct l as [|c4 l]; [|cbn [length] in Hlen; lia].
  injection Hi as <-. unfold octet_text, byte_ok. if_false. if_false.
  split; [repeat (f_equal; try lia)|lia].
Qed.

Lemma res_map_octets l b :
  res_map parse_octet l = Ok b → octet_text <$> b = l ∧ bytes_ok b.
Proof.
  revert b. induction l as [|x l IH]; intros b H; simpl in H; invert_res; [done|].
  destruct (parse_octet_text _ _ E) as [? ?]. destruct (IH _ eq_refl) as [Hl ?].
  split; [|by constructor]. rewrite fmap_cons. by f_equal.
Qed.

Lemma res_map_octet_text b : bytes_ok b → res_map parse_octet (octet_text <$> b) = Ok b.
Proof.
  induction 1 as [|n b Hn Hb IH]; [done|]. rewrite fmap_cons. cbn [res_map].
  rewrite octet_text_parse by done. cbn [mbind res_bind]. by rewrite IH.
Qed.

Lemma ip_packed_inv s b :
  ip_packed s = Ok b → length b = 4%nat ∧ bytes_ok b ∧ ip_text b = Ok s.
Proof.
  unfold ip_packed, ip_text. case_match eqn:E; [|done]. intros H.
  pose proof (res_map_length _ _ _ H). apply res_map_octets in H as [Hb Hok].
  split; [lia|split; [done|]]. if_true. rewrite Hb, join_split.
  by rewrite String.string_of_list_ascii_of_string.
Qed.

Lemma ip_text_packed b :
  length b = 4%nat → bytes_ok b → ∃ s, ip_text b = Ok s ∧ ip_packed s = Ok b.
Proof.
  intros Hl Hb. unfold ip_text. if_true. eexists. split; [done|]. unfold ip_packed.
  rewrite String.list_ascii_of_string_of_list_ascii, split_join.
  - rewrite length_fmap. if_true. by apply res_map_octet_text.
  - destruct b; done.
  - apply Forall_fmap. eapply Forall_impl; [exact Hb|]. intros n Hn. by apply octet_text_no_dot.
Qed.
