(* ===== verification/Ip.v ===== *)
(** IPv4 headers and packets: network/src/protocol/ip.py, [IPHeader] and
    [IPPacket].

    A header keeps its addresses as dotted-quad texts, as the code does. Packet
    times are integers in a unit of the model's choice (the code uses float
    seconds and only subtracts and compares them). *)

From S2P Require Import Prelude Bytes Checksum Ipv4Address.

(** The flag bits of [IPFlag]. *)
Definition IPFlag_DF : Z := 0x02.
Definition IPFlag_MF : Z := 0x01.

Module IPHeader.
Record t := {
  version : Z;
  ihl : Z;
  tos : Z;
  total_length : Z;
  identification : Z;
  flags : Z;
  fragment_offset : Z;
  ttl : Z;
  protocol : Z;
  header_checksum : Z;
  src_ip : string;
  dst_ip : string;
  options : bytes;
}.

Definition set_total_length (h : t) (n : Z) : t :=
  {| version := version h; ihl := ihl h; tos := tos h; total_length := n;
     identification := identification h; flags := flags h;
     fragment_offset := fragment_offset h; ttl := ttl h; protocol := protocol h;
     header_checksum := header_checksum h; src_ip := src_ip h; dst_ip := dst_ip h;
     options := options h |}.

Definition set_checksum (h : t) (c : Z) : t :=
  {| version := version h; ihl := ihl h; tos := tos h; total_length := total_length h;
     identification := identification h; flags := flags h;
     fragment_offset := fragment_offset h; ttl := ttl h; protocol := protocol h;
     header_checksum := c; src_ip := src_ip h; dst_ip := dst_ip h;
     options := options h |}.

(** [header.flags = 0; header.fragment_offset = 0]. *)
Definition clear_fragment (h : t) : t :=
  {| version := version h; ihl := ihl h; tos := tos h; total_length := total_length h;
     identification := identification h; flags := 0;
     fragment_offset := 0; ttl := ttl h; protocol := protocol h;
     header_checksum := header_checksum h; src_ip := src_ip h; dst_ip := dst_ip h;
     options := options h |}.

Definition header_length (h : t) : Z := ihl h * 4.
Definition is_df (h : t) : bool := negb (Z.land (flags h) IPFlag_DF =? 0).
Definition is_mf (h : t) : bool := negb (Z.land (flags h) IPFlag_MF =? 0).
Definition is_fragment (h : t) : bool := is_mf h || (0 <? fragment_offset h).

Definition compute_checksum (data : bytes) : Z :=
  let data := if negb (len data mod 2 =? 0) then data ++ [0] else data in
  let total := fold_carry (sum_words data 0) in
  Z.land (Z.lnot total) 0xFFFF.

(** [raise IPError] for an address that does not parse. *)
Definition packed_or_error (s : string) : res bytes :=
  match ip_packed s with Ok b => Ok b | Err _ => Err IPError end.

(** [struct.pack("!BBHHHBBH4s4s", ...)]. *)
Definition pack_fixed (h : t) (version_ihl flags_fragment : Z) (src_bytes dst_bytes : bytes) :
    res bytes :=
  b0 ← pack_be 1 version_ihl;
  b1 ← pack_be 1 (tos h);
  b2 ← pack_be 2 (total_length h);
  b4 ← pack_be 2 (identification h);
  b6 ← pack_be 2 flags_fragment;
  b8 ← pack_be 1 (ttl h);
  b9 ← pack_be 1 (protocol h);
  b10 ← pack_be 2 (header_checksum h);
  Ok (b0 ++ b1 ++ b2 ++ b4 ++ b6 ++ b8 ++ b9 ++ b10 ++ src_bytes ++ dst_bytes).

Definition encode (h : t) : res bytes :=
  let version_ihl := Z.lor (Z.shiftl (version h) 4) (ihl h) in
  let flags_fragment := Z.lor (Z.shiftl (flags h) 13) (fragment_offset h) in
  src_bytes ← packed_or_error (src_ip h);
  dst_bytes ← packed_or_error (dst_ip h);
  header ← pack_fixed h version_ihl flags_fragment src_bytes dst_bytes;
  let header := header ++ options h in
  (* the padding loop adds one zero byte at a time *)
  let header := header ++ py_repeat (header_length h - len header) 0 in
  if header_checksum h =? 0 then
    let checksum := compute_checksum header in
    c ← pack_be 2 checksum;
    Ok (py_slice header 0 10 ++ c ++ py_from header 12)
  else Ok header.

Definition decode (data : bytes) : res t :=
  if len data <? 20 then Err IPError
  else
    version_ihl ← py_get data 0;
    let version := Z.shiftr version_ihl 4 in
    let ihl := Z.land version_ihl 0x0F in
    if negb (version =? 4) then Err IPError
    else
      let header_length := ihl * 4 in
      if len data <? header_length then Err IPError
      else
        tos ← py_get data 1;
        total_length ← unpack_be 2 (py_slice data 2 4);
        identification ← unpack_be 2 (py_slice data 4 6);
        flags_fragment ← unpack_be 2 (py_slice data 6 8);
        let flags := Z.land (Z.shiftr flags_fragment 13) 0x07 in
        let fragment_offset := Z.land flags_fragment 0x1FFF in
        ttl ← py_get data 8;
        protocol ← py_get data 9;
        header_checksum ← unpack_be 2 (py_slice data 10 12);
        src_ip ← ip_text (py_slice data 12 16);
        dst_ip ← ip_text (py_slice data 16 20);
        let options := if 20 <? header_length then py_slice data 20 header_length else [] in
        Ok {| version := version; ihl := ihl; tos := tos; total_length := total_length;
              identification := identification; flags := flags;
              fragment_offset := fragment_offset; ttl := ttl; protocol := protocol;
              header_checksum := header_checksum; src_ip := src_ip; dst_ip := dst_ip;
              options := options |}.
End IPHeader.

Module IPPacket.
Record t := {
  header : IPHeader.t;
  payload : bytes;
  timestamp : Z;
  interface : string;
}.

Definition is_fragment (p : t) : bool := IPHeader.is_fragment (header p).
Definition size (p : t) : Z := IPHeader.header_length (header p) + len (payload p).

Definition encode : method t bytes := λ p,
  let h := IPHeader.set_total_length (header p) (size p) in
  ({| header := h; payload := payload p; timestamp := timestamp p; interface := interface p |},
   b ← IPHeader.encode h; Ok (b ++ payload p)).

(** [now] is the time the dataclass stamps on the new packet. *)
Definition decode (now : Z) (data : bytes) : res t :=
  h ← IPHeader.decode data;
  Ok {| header := h;
        payload := py_slice data (IPHeader.header_length h) (IPHeader.total_length h);
        timestamp := now; interface := "" |}.
End IPPacket.

(** [IPProtocol._verify_checksum]. *)
Definition verify_checksum (p : IPPacket.t) : res bool :=
  let h := IPPacket.header p in
  b ← IPHeader.encode h;
  let header_data := py_slice b 0 (IPHeader.header_length h) in
  checksum ← unpack_be 2 (py_slice header_data 10 12);
  let header_data := py_slice header_data 0 10 ++ [0; 0] ++ py_from header_data 12 in
  let computed := IPHeader.compute_checksum header_data in
  Ok ((checksum =? computed) || (checksum =? 0)).

(** * Lemmas *)

Import IPHeader.

(** The headers whose fields fit the wire format. *)
Record hwf (h : t) : Prop := {
  hwf_version : version h = 4;
  hwf_ihl : 5 <= ihl h <= 15;
  hwf_tos : byte_ok (tos h);
  hwf_total : 0 <= total_length h < 65536;
  hwf_id : 0 <= identification h < 65536;
  hwf_flags : 0 <= flags h < 8;
  hwf_offset : 0 <= fragment_offset h < 8192;
  hwf_ttl : byte_ok (ttl h);
  hwf_protocol : byte_ok (protocol h);
  hwf_checksum : 0 <= header_checksum h < 65536;
  hwf_src : is_ok (ip_packed (src_ip h)) = true;
  hwf_dst : is_ok (ip_packed (dst_ip h)) = true;
  hwf_options : bytes_ok (options h);
  hwf_options_len : len (options h) = 4 * ihl h - 20;
}.

(** The encoding with checksum [c], as an explicit list; the first ten bytes
    and what follows the checksum. *)
Definition head10 (h : t) : bytes :=
  let ff := flags h * 8192 + fragment_offset h in
  [64 + ihl h; tos h; total_length h / 256; total_length h mod 256;
   identification h / 256; identification h mod 256; ff / 256; ff mod 256; ttl h; protocol h].

Definition wire (h : t) (src dst : bytes) (c : Z) : bytes :=
  head10 h ++ be_bytes 2 c ++ (src ++ dst ++ options h).

(** The checksum field that [encode] emits. *)
Definition emitted_checksum (h : t) (src dst : bytes) : Z :=
  if header_checksum h =? 0 then compute_checksum (wire h src dst 0) else header_checksum h.

Lemma length4 (b : bytes) : length b = 4%nat → ∃ a1 a2 a3 a4, b = [a1; a2; a3; a4].
Proof. destruct b as [|? [|? [|? [|? [|]]]]]; intros; try done. eauto. Qed.

Lemma packed_ok s : is_ok (ip_packed s) = true →
  ∃ b, ip_packed s = Ok b ∧ length b = 4%nat ∧ bytes_ok b ∧ ip_text b = Ok s.
Proof.
  destruct (ip_packed s) as [b|] eqn:E; [|done]. intros _. exists b.
  pose proof (ip_packed_inv _ _ E) as (? & ? & ?). done.
Qed.

Lemma compute_checksum_internet data : compute_checksum data = InternetChecksum.compute data 0.
Proof. done. Qed.

Lemma head10_ok h : hwf h → bytes_ok (head10 h).
Proof. intros []. unfold head10, byte_ok in *. repeat constructor; lia. Qed.

Lemma wire_ok h src dst c :
  hwf h → bytes_ok src → bytes_ok dst → bytes_ok (wire h src dst c).
Proof.
  intros H Hs Hd. unfold wire. pose proof (hwf_options h H).
  repeat apply Forall_app_2; auto using head10_ok, be_bytes_ok.
Qed.

Lemma checksum_bound data : bytes_ok data → 0 <= compute_checksum data <= 65535.
Proof.
  intros Hd. rewrite compute_checksum_internet, compute_closed by (done || lia).
  pose proof (word_sum_nonneg data Hd).
  pose proof (ones_complement_bound (0 + word_sum data) ltac:(lia)). lia.
Qed.

Lemma emitted_bound h src dst :
  hwf h → bytes_ok src → bytes_ok dst → 0 <= emitted_checksum h src dst < 65536.
Proof.
  intros H Hs Hd. unfold emitted_checksum. pose proof (hwf_checksum h H).
  pose proof (checksum_bound (wire h src dst 0) (wire_ok _ _ _ _ H Hs Hd)).
  destruct (_ =? 0); lia.
Qed.

Lemma encode_wire h src dst :
  hwf h → ip_packed (src_ip h) = Ok src → ip_packed (dst_ip h) = Ok dst →
  encode h = Ok (wire h src dst (emitted_checksum h src dst)).
Proof.
  intros H Hs Hd. pose proof (ip_packed_inv _ _ Hs) as (Hsl & Hso & _).
  pose proof (ip_packed_inv _ _ Hd) as (Hdl & Hdo & _).
  pose proof (emitted_bound h src dst H Hso Hdo) as Hc. unfold emitted_checksum in *.
  destruct H. unfold encode, packed_or_error. rewrite Hs, Hd. cbn [mbind res_bind].
  rewrite hwf_version0.
  rewrite !Z.shiftl_mul_pow2, (lor_high_low 4), (lor_high_low 13) by lia.
  change (4 * 2 ^ 4) with 64. change (2 ^ 13) with 8192. unfold pack_fixed, byte_ok in *.
  rewrite !pack_u_ok by (unfold width; simpl Z.of_nat; lia). cbn [mbind res_bind].
  rewrite !be_bytes_1, !(be_bytes_2 (total_length h)), !(be_bytes_2 (identification h)),
    !(be_bytes_2 (_ + _)) by lia.
  set (raw := (_ ++ _) ++ options h).
  assert (raw = wire h src dst (header_checksum h)) as Hraw.
  { unfold raw, wire, head10. rewrite <-!app_assoc. done. }
  assert (len raw = 4 * ihl h) as Hlen.
  { rewrite Hraw. unfold wire, head10. autorewrite with pylist. cbn [length]. lia. }
  assert (py_repeat (header_length h - len raw) 0 = []) as Hpad.
  { rewrite Hlen. unfold header_length, py_repeat.
    by replace (Z.to_nat _) with 0%nat by lia. }
  rewrite Hpad, app_nil_r, Hraw. destruct (header_checksum h =? 0) eqn:E; [|done].
  assert (header_checksum h = 0) as E0 by lia. rewrite E0 in *.
  rewrite pack_u_ok by (unfold width; simpl Z.of_nat; lia). cbn [mbind res_bind].
  f_equal. unfold wire at 2 3 4. rewrite (be_bytes_2 0) by lia. unfold head10. by fields.
Qed.

Lemma decode_wire h src dst c rest :
  hwf h → ip_packed (src_ip h) = Ok src → ip_packed (dst_ip h) = Ok dst → 0 <= c < 65536 →
  decode (wire h src dst c ++ rest) = Ok (set_checksum h c).
Proof.
  intros H Hs Hd Hc. pose proof (ip_packed_inv _ _ Hs) as (Hsl & Hso & Hst).
  pose proof (ip_packed_inv _ _ Hd) as (Hdl & Hdo & Hdt).
  destruct (length4 src Hsl) as (s1 & s2 & s3 & s4 & ->).
  destruct (length4 dst Hdl) as (d1 & d2 & d3 & d4 & ->). destruct H.
  unfold wire. rewrite be_bytes_2 by done. unfold head10, decode, byte_ok in *.
  set (ff := flags h * 8192 + fragment_offset h).
  assert (0 <= ff < 65536) as Hff by lia.
  set (o := options h ++ rest).
  replace (len _ <? 20) with false by (cbn [app length]; lia).
  fields. cbn [mbind res_bind].
  assert (Z.shiftr (64 + ihl h) 4 = 4) as -> by (rewrite Z.shiftr_div_pow2 by lia; lia).
  assert (Z.land (64 + ihl h) 15 = ihl h) as -> by (rewrite (land_ones_mod 4) by lia; lia).
  change (negb (4 =? 4)) with false. cbn iota.
  rewrite <-?app_assoc.
  match goal with |- context [len ?l <? ihl h * 4] =>
    replace (len l <? ihl h * 4) with false
      by (autorewrite with pylist; cbn [length app]; autorewrite with pylist; lia) end.
  repeat (rewrite ?unpack_be_2_split, ?take_0; cbn [mbind res_bind]).
  rewrite Hst. cbn [mbind res_bind]. rewrite ?take_0, Hdt. cbn [mbind res_bind].
  rewrite py_slice_nonneg by lia. lit_nat. cbn [drop]. rewrite drop_0.
  assert (Z.land (Z.shiftr ff 13) 7 = flags h) as ->
    by (rewrite (land_ones_mod 3), Z.shiftr_div_pow2 by lia; lia).
  assert (Z.land ff 0x1FFF = fragment_offset h) as ->
    by (rewrite (land_ones_mod 13) by lia; lia).
  assert ((if 20 <? ihl h * 4
           then take (Z.to_nat (ihl h * 4 - 20)) (options h ++ rest) else []) = options h) as Ho.
  { destruct (20 <? ihl h * 4) eqn:E.
    - rewrite take_app_le by lia. apply take_ge. lia.
    - destruct (options h); [done|]. cbn [length] in *. lia. }
  rewrite Ho. by rewrite <-hwf_version0.
Qed.

(** The verification of a header that was just encoded or decoded. *)
Lemma verify_wire p src dst :
  let h := IPPacket.header p in
  hwf h → ip_packed (src_ip h) = Ok src → ip_packed (dst_ip h) = Ok dst →
  verify_checksum p =
    Ok ((emitted_checksum h src dst =? compute_checksum (wire h src dst 0)) ||
        (emitted_checksum h src dst =? 0)).
Proof.
  intros h H Hs Hd. unfold verify_checksum. fold h. rewrite (encode_wire h src dst) by done.
  cbn [mbind res_bind].
  pose proof (ip_packed_inv _ _ Hs) as (Hsl & Hso & _).
  pose proof (ip_packed_inv _ _ Hd) as (Hdl & Hdo & _).
  pose proof (emitted_bound h src dst H Hso Hdo) as Hc.
  set (c := emitted_checksum h src dst) in *.
  assert (len (wire h src dst c) = header_length h) as Hlen.
  { unfold wire, head10, header_length. autorewrite with pylist. cbn [length]. destruct H. lia. }
  assert (py_slice (wire h src dst c) 0 (header_length h) = wire h src dst c) as ->.
  { rewrite <-Hlen, py_slice_clamp by lia. apply drop_0. }
  unfold wire. rewrite (be_bytes_2 c), (be_bytes_2 0) by lia. unfold head10. fields.
  rewrite ?take_0, unpack_be_2_split. done.
Qed.

(** * Properties *)

(** Encoding an IPv4 header and decoding the bytes, whatever follows them,
    gives the header back, with the checksum the encoder filled in when the
    field was zero; the encoding is exactly the header length long. *)
Theorem ip_header_roundtrip h rest :
  hwf h →
  ∃ b c, encode h = Ok b ∧ bytes_ok b ∧ len b = header_length h ∧
    decode (b ++ rest) = Ok (set_checksum h c) ∧
    if header_checksum h =? 0 then InternetChecksum.compute b 0 = 0 else c = header_checksum h.
Proof.
  intros H.
  destruct (packed_ok _ (hwf_src h H)) as (src & Hs & Hsl & Hso & _).
  destruct (packed_ok _ (hwf_dst h H)) as (dst & Hd & Hdl & Hdo & _).
  exists (wire h src dst (emitted_checksum h src dst)), (emitted_checksum h src dst).
  split; [by apply encode_wire|]. split; [by apply wire_ok|]. split; [|split].
  - unfold wire, head10, header_length. autorewrite with pylist. cbn [length].
    destruct H. lia.
  - apply decode_wire; auto. by apply emitted_bound.
  - unfold emitted_checksum. destruct (header_checksum h =? 0) eqn:E; [|done].
    unfold wire at 1. rewrite compute_checksum_internet. unfold wire.
    apply compute_embedded; [by apply head10_ok| |done].
    pose proof (hwf_options h H). repeat apply Forall_app_2; auto.
Qed.

Definition header_example : t :=
  {| version := 4; ihl := 6; tos := 0; total_length := 40; identification := 7; flags := 2;
     fragment_offset := 0; ttl := 64; protocol := 6; header_checksum := 0;
     src_ip := "10.0.0.1"; dst_ip := "192.168.1.254"; options := [1; 1; 1; 0] |}.

Lemma header_example_wf : hwf header_example.
Proof. split; unfold byte_ok; simpl; try lia; try reflexivity. repeat constructor; lia. Qed.

Lemma ip_header_roundtrip_witness :
  ∃ b c, encode header_example = Ok b ∧ bytes_ok b ∧ len b = header_length header_example ∧
    decode (b ++ [9; 9]) = Ok (set_checksum header_example c) ∧
    if header_checksum header_example =? 0 then InternetChecksum.compute b 0 = 0
    else c = header_checksum header_example.
Proof. apply (ip_header_roundtrip header_example [9; 9]), header_example_wf. Defined.

(** A packet built by the sender (checksum zero) that is encoded and decoded
    by the receiver has its payload, is a packet of the same header up to length
    and checksum, and passes the receiver's checksum test. *)
Theorem ip_packet_transmission p now :
  let h := IPPacket.header p in
  hwf h → header_checksum h = 0 → IPPacket.size p < 65536 →
  ∃ b q c, (IPPacket.encode p).2 = Ok b ∧ IPPacket.decode now b = Ok q ∧
    IPPacket.payload q = IPPacket.payload p ∧
    IPPacket.header q = set_checksum (set_total_length h (IPPacket.size p)) c ∧
    verify_checksum q = Ok true.
Proof.
  intros h H H0 Hsz. set (h' := set_total_length h (IPPacket.size p)).
  assert (hwf h') as H'.
  { destruct H. split; auto. unfold h', IPPacket.size, header_length in *. simpl.
    fold h in Hsz |- *. lia. }
  destruct (packed_ok _ (hwf_src h' H')) as (src & Hs & Hsl & Hso & _).
  destruct (packed_ok _ (hwf_dst h' H')) as (dst & Hd & Hdl & Hdo & _).
  set (c := emitted_checksum h' src dst).
  assert (0 <= c < 65536) as Hc by (by apply emitted_bound).
  assert (len (wire h' src dst c) = header_length h') as Hlen.
  { unfold wire, head10, header_length. autorewrite with pylist. cbn [length]. destruct H'. lia. }
  set (q := {| IPPacket.header := set_checksum h' c; IPPacket.payload := IPPacket.payload p;
               IPPacket.timestamp := now; IPPacket.interface := "" |}).
  exists (wire h' src dst c ++ IPPacket.payload p), q, c.
  split; [|split; [|split; [done|split; [done|]]]].
  - unfold IPPacket.encode. fold h. fold h'. cbn [snd]. by rewrite (encode_wire h' src dst).
  - unfold IPPacket.decode. rewrite (decode_wire h' src dst) by done. cbn [mbind res_bind].
    unfold q. do 2 f_equal.
    change (header_length (set_checksum h' c)) with (header_length h').
    change (total_length (set_checksum h' c)) with (IPPacket.size p).
    unfold IPPacket.size. fold h. change (header_length h) with (header_length h').
    rewrite <-Hlen.
    rewrite <-(app_nil_r (_ ++ IPPacket.payload p)), <-app_assoc. apply py_slice_app_mid.
  - rewrite (verify_wire q src dst); [|cbn; destruct H'; by split|done..].
    cbn [IPPacket.header q]. unfold emitted_checksum at 1 2. cbn [header_checksum set_checksum].
    change (wire (set_checksum h' c) src dst) with (wire h' src dst).
    destruct (c =? 0) eqn:Ec; f_equal; [by rewrite Z.eqb_refl|].
    unfold c, emitted_checksum. cbn [header_checksum h' set_total_length]. rewrite H0.
    cbn [Z.eqb]. by rewrite Z.eqb_refl.
Qed.

Definition packet_example : IPPacket.t :=
  {| IPPacket.header := header_example; IPPacket.payload := [1; 2; 3]; IPPacket.timestamp := 0;
     IPPacket.interface := "" |}.

Lemma ip_packet_transmission_witness :
  ∃ b q c, (IPPacket.encode packet_example).2 = Ok b ∧ IPPacket.decode 5 b = Ok q ∧
    IPPacket.payload q = [1; 2; 3] ∧
    IPPacket.header q = set_checksum (set_total_length header_example 27) c ∧
    verify_checksum q = Ok true.
Proof.
  apply (ip_packet_transmission packet_example 5); [exact header_example_wf|reflexivity|].
  vm_compute. reflexivity.
Defined.
