(* ===== verification/IpFrag.v ===== *)
(** IPv4 fragmentation and reassembly: network/src/protocol/ip.py,
    [IPProtocol._fragment_packet] and [IPFragmentAssembler].

    The fragmentation loop carries fuel, and [None] stands for a loop that has
    not ended; [fragment_packet_total] says when the fuel of [fragment_packet] is
    enough. The assembler's dictionaries are finite maps keyed by the four
    fields of the code's tuple. The reassembled packet takes a copy of the first
    fragment's header, which the code shares with that fragment. *)

From Stdlib Require Import Sorted.
From S2P Require Import Prelude Bytes Sorting Ipv4Address Ip.

(** * Fragmentation *)

(** The header of a fragment: a fresh [IPHeader] with the named fields, the other
    ones at their defaults. *)
Definition fragment_header (h : IPHeader.t) (more_fragments : bool) (offset : Z) : IPHeader.t :=
  {| IPHeader.version := 4; IPHeader.ihl := 5; IPHeader.tos := IPHeader.tos h;
     IPHeader.total_length := 20; IPHeader.identification := IPHeader.identification h;
     IPHeader.flags := if more_fragments then IPFlag_MF else 0;
     IPHeader.fragment_offset := offset / 8;
     IPHeader.ttl := IPHeader.ttl h; IPHeader.protocol := IPHeader.protocol h;
     IPHeader.header_checksum := 0;
     IPHeader.src_ip := IPHeader.src_ip h; IPHeader.dst_ip := IPHeader.dst_ip h;
     IPHeader.options := [] |}.

Definition make_fragment (now : Z) (h : IPHeader.t) (more_fragments : bool) (offset : Z)
    (chunk : bytes) : IPPacket.t :=
  {| IPPacket.header := fragment_header h more_fragments offset; IPPacket.payload := chunk;
     IPPacket.timestamp := now; IPPacket.interface := "" |}.

(** The [while more_fragments] loop, [None] when the fuel runs out. *)
Fixpoint fragment_loop (fuel : nat) (now : Z) (h : IPHeader.t) (max_payload : Z) (offset : Z)
    (payload : bytes) : option (list IPPacket.t) :=
  match fuel with
  | O => None
  | S fuel' =>
      let chunk := py_slice payload 0 max_payload in
      let rest := py_from payload max_payload in
      let more_fragments := 0 <? len rest in
      let fragment := make_fragment now h more_fragments offset chunk in
      if more_fragments
      then cons fragment <$> fragment_loop fuel' now h max_payload (offset + len chunk) rest
      else Some [fragment]
  end.

(** [max_payload], rounded down to a multiple of eight bytes. *)
Definition max_payload (mtu : Z) (p : IPPacket.t) : Z :=
  let m := mtu - IPHeader.header_length (IPPacket.header p) in m - m mod 8.

Definition fragment_packet (mtu now : Z) (p : IPPacket.t) : option (list IPPacket.t) :=
  fragment_loop (S (length (IPPacket.payload p))) now (IPPacket.header p) (max_payload mtu p) 0
    (IPPacket.payload p).

(** * Reassembly *)

Record IPFragment := {
  packet : IPPacket.t;
  offset : Z;
  more_fragments : bool;
  data : bytes;
}.

Definition frag_key : Type := string * string * Z * Z.

Module IPFragmentAssembler.
Record t := {
  fragments : gmap frag_key (list IPFragment);
  timeout : Z;
  completed : gmap frag_key IPPacket.t;
}.

Definition init_assembler (timeout : Z) : t :=
  {| fragments := ∅; timeout := timeout; completed := ∅ |}.

Definition key_of (p : IPPacket.t) : frag_key :=
  let h := IPPacket.header p in
  (IPHeader.src_ip h, IPHeader.dst_ip h, IPHeader.identification h, IPHeader.protocol h).

Definition fragment_of (p : IPPacket.t) : IPFragment :=
  {| packet := p; offset := IPHeader.fragment_offset (IPPacket.header p) * 8;
     more_fragments := IPHeader.is_mf (IPPacket.header p); data := IPPacket.payload p |}.

(** The loop that looks for a missing fragment. *)
Fixpoint contiguous (expected_offset : Z) (l : list IPFragment) : bool :=
  match l with
  | [] => true
  | f :: l' =>
      if negb (offset f =? expected_offset) then false
      else contiguous (expected_offset + len (data f)) l'
  end.

Definition set_fragments (s : t) (fs : gmap frag_key (list IPFragment)) : t :=
  {| fragments := fs; timeout := timeout s; completed := completed s |}.

(** [_try_assemble]: the list under [key] is sorted in place; the complete
    packet is built at time [now]. *)
Definition try_assemble (now : Z) (key : frag_key) : t → t * option IPPacket.t := λ s,
  match fragments s !! key with
  | None | Some [] => (s, None)
  | Some l =>
      let l := sort_on offset l in
      let s1 := set_fragments s (<[key := l]> (fragments s)) in
      match last l, head l with
      | Some lst, Some fst =>
          if more_fragments lst then (s1, None)
          else if negb (contiguous 0 l) then (s1, None)
          else
            let p := {| IPPacket.header := IPHeader.clear_fragment (IPPacket.header (packet fst));
                        IPPacket.payload := concat (data <$> l);
                        IPPacket.timestamp := now; IPPacket.interface := "" |} in
            ({| fragments := delete key (fragments s1); timeout := timeout s1;
                completed := <[key := p]> (completed s1) |}, Some p)
      | _, _ => (s1, None)
      end
  end.

Definition add_fragment (now : Z) (p : IPPacket.t) : t → t * option IPPacket.t := λ s,
  let key := key_of p in
  let old := default [] (fragments s !! key) in
  try_assemble now key (set_fragments s (<[key := old ++ [fragment_of p]]> (fragments s))).

(** [cleanup]: drops the entries whose first fragment is older than the timeout. *)
Definition expired (now : Z) (s : t) (l : list IPFragment) : bool :=
  match l with
  | f :: _ => timeout s <? now - IPPacket.timestamp (packet f)
  | [] => false
  end.

Definition cleanup (now : Z) (s : t) : t * Z :=
  let keep := filter (λ kv, expired now s kv.2 = false) (fragments s) in
  (set_fragments s keep, Z.of_nat (size (fragments s)) - Z.of_nat (size keep)).
End IPFragmentAssembler.

(** * Lemmas: the chain of fragments of a packet *)

Import IPFragmentAssembler.

(** The fragments of one packet from offset [off] on: contiguous, all but the
    last one non-empty and announcing more. *)
Fixpoint chain (off : Z) (l : list IPFragment) : Prop :=
  match l with
  | [] => False
  | f :: l' =>
      offset f = off ∧
      match l' with
      | [] => more_fragments f = false
      | _ => more_fragments f = true ∧ 0 < len (data f) ∧ chain (off + len (data f)) l'
      end
  end.

Lemma chain_offsets l off : chain off l → Forall (λ f, off <= offset f) l.
Proof.
  revert off. induction l as [|f l IH]; intros off Hc; [done|].
  destruct Hc as [Ho Hc]. constructor; [lia|]. destruct l as [|g l]; [done|].
  destruct Hc as (_ & Hd & Hc). eapply Forall_impl; [by apply IH|]. intros; simpl in *; lia.
Qed.

Lemma chain_sorted l off : chain off l → StronglySorted (λ x y, offset x < offset y) l.
Proof.
  revert off. induction l as [|f l IH]; intros off Hc; [constructor|].
  destruct Hc as [Ho Hc]. destruct l as [|g l]; [repeat constructor|].
  destruct Hc as (_ & Hd & Hc). constructor; [by eapply IH|].
  eapply Forall_impl; [by eapply chain_offsets|]. intros; simpl in *; lia.
Qed.

Lemma strict_sorted_NoDup l : StronglySorted (λ x y, offset x < offset y) l → NoDup l.
Proof.
  induction 1 as [|f l Hl IH Hf]; constructor; [|done].
  intros Hin. rewrite Forall_forall in Hf. specialize (Hf f Hin). lia.
Qed.

Lemma chain_contiguous l off : chain off l → contiguous off l = true.
Proof.
  revert off. induction l as [|f l IH]; intros off Hc; [done|].
  destruct Hc as [Ho Hc]. cbn [contiguous]. rewrite Ho, Z.eqb_refl. cbn [negb].
  destruct l as [|g l]; [done|]. destruct Hc as (_ & _ & Hc). by apply IH.
Qed.

Lemma chain_last l off : chain off l → ∃ f, last l = Some f ∧ more_fragments f = false.
Proof.
  revert off. induction l as [|f l IH]; intros off Hc; [done|].
  destruct Hc as [Ho Hc]. destruct l as [|g l]; [by exists f|].
  destruct Hc as (_ & _ & Hc). apply IH in Hc as (x & Hx & ?). exists x. by rewrite last_cons_cons.
Qed.

(** A gap-free selection of fragments that ends with the final one is the whole
    packet: nothing less than all the fragments passes the code's tests. *)
Lemma chain_complete l l' off x :
  chain off l → NoDup l' → (∀ f, f ∈ l' → f ∈ l) →
  contiguous off l' = true → last l' = Some x → more_fragments x = false → l' = l.
Proof.
  revert l off. induction l' as [|f' t' IH]; intros l off Hc Hnd Hsub Hcont Hlast Hmore; [done|].
  destruct l as [|f t]; [done|]. destruct Hc as [Ho Hc].
  cbn [contiguous] in Hcont. destruct (negb _) eqn:Eo; [done|].
  assert (f' = f) as ->.
  { assert (f' ∈ f :: t) as Hin by (apply Hsub; left).
    apply elem_of_cons in Hin as [->|Hin]; [done|].
    destruct t as [|g t]; [by apply elem_of_nil in Hin|]. destruct Hc as (_ & Hd & Hc).
    apply chain_offsets in Hc. rewrite Forall_forall in Hc. specialize (Hc f' Hin). lia. }
  apply NoDup_cons in Hnd as [Hnot Hnd].
  assert (∀ g, g ∈ t' → g ∈ t) as Hsub'.
  { intros g Hg. assert (g ∈ f :: t) as Hin by (apply Hsub; by right).
    apply elem_of_cons in Hin as [->|]; done. }
  destruct t' as [|g' t'].
  - injection Hlast as <-. destruct t as [|g t]; [done|]. destruct Hc as [Hm _]. congruence.
  - destruct t as [|g t]; [exfalso; apply (not_elem_of_nil g'), Hsub'; left|].
    destruct Hc as (_ & _ & Hc). f_equal. rewrite last_cons_cons in Hlast.
    assert (offset f = off) as Ho' by lia.
    by apply (IH (g :: t) (off + len (data f))).
Qed.

(** ** The fragmentation loop *)

Lemma py_split_at (l : bytes) m :
  0 < m → py_slice l 0 m = take (Z.to_nat m) l ∧ py_from l m = drop (Z.to_nat m) l.
Proof.
  intros. rewrite py_slice_nonneg, py_from_nonneg by lia.
  rewrite drop_0. split; [f_equal; lia|done].
Qed.

Lemma fragment_loop_chain fuel now h m off pl ps :
  0 < m → m mod 8 = 0 → 0 <= off → off mod 8 = 0 →
  fragment_loop fuel now h m off pl = Some ps →
  chain off (fragment_of <$> ps) ∧ concat (IPPacket.payload <$> ps) = pl ∧
  Forall (λ q, len (IPPacket.payload q) <= m ∧
               ∃ mf o, IPPacket.header q = fragment_header h mf o) ps ∧
  ∃ q mf, head ps = Some q ∧ IPPacket.header q = fragment_header h mf off.
Proof.
  intros Hm Hm8. revert off pl ps. induction fuel as [|fuel IH]; intros off pl ps Ho Ho8 H; [done|].
  cbn [fragment_loop] in H. destruct (py_split_at pl m Hm) as [Es Ef]. rewrite Es, Ef in H.
  destruct (0 <? len (drop (Z.to_nat m) pl)) eqn:E.
  - rewrite length_drop in E.
    assert (len (take (Z.to_nat m) pl) = m) as Hlen by (rewrite length_take; lia).
    rewrite Hlen in H. destruct (fragment_loop _ _ _ _ _ _) as [qs|] eqn:Eq; [|done].
    injection H as <-. apply IH in Eq as (Hc & Hp & Hs & _); [|lia..].
    split; [|split; [|split]].
    + cbn [fmap list_fmap chain fragment_of offset more_fragments data make_fragment
           IPPacket.header IPPacket.payload fragment_header IPHeader.fragment_offset].
      rewrite Hlen. split; [lia|]. destruct (fragment_of <$> qs) eqn:Ef'; [done|].
      split; [reflexivity|]. split; [lia|exact Hc].
    + cbn [fmap list_fmap concat make_fragment IPPacket.payload]. rewrite Hp. apply take_drop.
    + constructor; [|done]. cbn [make_fragment IPPacket.payload IPPacket.header]. split; [lia|].
      by exists true, off.
    + eexists _, true. split; [done|]. done.
  - injection H as <-. rewrite length_drop in E.
    rewrite take_ge by lia. split; [|split; [|split]].
    + cbn [fmap list_fmap chain fragment_of offset more_fragments data make_fragment
           IPPacket.header IPPacket.payload fragment_header IPHeader.fragment_offset].
      split; [lia|reflexivity].
    + cbn. by rewrite app_nil_r.
    + constructor; [|done]. cbn [make_fragment IPPacket.payload IPPacket.header]. split; [lia|].
      by exists false, off.
    + eexists _, false. split; [done|]. done.
Qed.

Lemma fragment_loop_enough fuel now h m off pl :
  0 < m → (length pl < fuel)%nat → is_Some (fragment_loop fuel now h m off pl).
Proof.
  intros Hm. revert off pl. induction fuel as [|fuel IH]; intros off pl Hf; [lia|].
  cbn [fragment_loop]. destruct (py_split_at pl m Hm) as [_ ->].
  destruct (0 <? _) eqn:E; [|by eexists]. rewrite length_drop in E.
  destruct (IH (off + len (py_slice pl 0 m)) (drop (Z.to_nat m) pl)) as [x Hx];
    [rewrite length_drop; lia|].
  rewrite Hx. by eexists.
Qed.

Lemma fragment_loop_diverges fuel now h m off pl :
  m <= 0 → pl ≠ [] → fragment_loop fuel now h m off pl = None.
Proof.
  intros Hm. revert off pl. induction fuel as [|fuel IH]; intros off pl Hne; [done|].
  cbn [fragment_loop].
  assert (0 < len pl) by (destruct pl; [done|cbn [length]; lia]).
  assert (0 < len (py_from pl m)) as Hr.
  { unfold py_from, py_slice, slice_bound. rewrite length_take, length_drop. case_ifs. }
  if_true. rewrite IH; [done|]. intros E. rewrite E in Hr. simpl in Hr. lia.
Qed.

(** ** The assembler, one arrival at a time *)

(** The packet rebuilt from the complete sorted list [f :: l]. *)
Definition rebuilt (now : Z) (f : IPFragment) (l : list IPFragment) : IPPacket.t :=
  {| IPPacket.header := IPHeader.clear_fragment (IPPacket.header (packet f));
     IPPacket.payload := concat (data <$> f :: l);
     IPPacket.timestamp := now; IPPacket.interface := "" |}.

Lemma try_assemble_incomplete now key s l old F :
  chain 0 F → fragments s !! key = Some old → old ≠ [] → NoDup old →
  (∀ f, f ∈ old → f ∈ F) → ¬ old ≡ₚ F → l = sort_on offset old →
  try_assemble now key s = (set_fragments s (<[key := l]> (fragments s)), None).
Proof.
  intros Hc Hold Hne Hnd Hsub Hnp ->. unfold try_assemble. rewrite Hold.
  destruct old as [|f0 old]; [done|]. set (l := sort_on offset (f0 :: old)).
  assert (l ≡ₚ f0 :: old) as Hp by apply sort_on_perm.
  destruct l as [|f l'] eqn:El; [by apply Permutation_nil_l in Hp|].
  destruct (last (f :: l')) as [x|] eqn:Ex; [|by apply last_None in Ex].
  cbn [head]. destruct (more_fragments x) eqn:Em; [done|].
  destruct (contiguous 0 (f :: l')) eqn:Ec; [|done]. exfalso. apply Hnp.
  rewrite <-Hp. rewrite (chain_complete F (f :: l') 0 x); auto.
  - by rewrite Hp.
  - intros g Hg. apply Hsub. by rewrite <-Hp.
Qed.

Lemma try_assemble_complete now key s old f F :
  chain 0 (f :: F) → fragments s !! key = Some old → old ≡ₚ f :: F →
  try_assemble now key s =
    ({| fragments := delete key (<[key := f :: F]> (fragments s)); timeout := timeout s;
        completed := <[key := rebuilt now f F]> (completed s) |}, Some (rebuilt now f F)).
Proof.
  intros Hc Hold Hp. unfold try_assemble. rewrite Hold.
  assert (sort_on offset old = f :: F) as El
    by (apply sort_on_strict; [by eapply chain_sorted|done]).
  destruct old as [|f0 old]; [by apply Permutation_nil_l in Hp|]. rewrite El.
  destruct (chain_last _ _ Hc) as (x & Hx & Hm). rewrite Hx. cbn [head].
  rewrite Hm, (chain_contiguous _ _ Hc). done.
Qed.

(** Feeding arrivals, each with its time. *)
Fixpoint feed (l : list (Z * IPPacket.t)) (s : t) : t * list (option IPPacket.t) :=
  match l with
  | [] => (s, [])
  | (now, p) :: l' =>
      let '(s1, r) := add_fragment now p s in
      let '(s2, rs) := feed l' s1 in (s2, r :: rs)
  end.

(** [holds s key q]: the fragments stored under [key] are those of the packets [q]. *)
Definition holds (s : t) (key : frag_key) (q : list IPPacket.t) : Prop :=
  default [] (fragments s !! key) ≡ₚ fragment_of <$> q.

Lemma holds_insert s key q p :
  holds s key q →
  ∃ old, fragments (set_fragments s
           (<[key := default [] (fragments s !! key) ++ [fragment_of p]]> (fragments s))) !! key
         = Some old ∧ old ≠ [] ∧ old ≡ₚ fragment_of <$> (q ++ [p]).
Proof.
  intros Hq. eexists. split; [apply lookup_insert_eq|]. split.
  - by destruct (default [] (fragments s !! key)).
  - rewrite fmap_app. by rewrite Hq.
Qed.

Lemma delete_insert_insert (m : gmap frag_key (list IPFragment)) key a b :
  delete key (<[key := b]> (<[key := a]> m)) = delete key m.
Proof. by rewrite !delete_insert_eq. Qed.

Lemma feed_all F f key l q s :
  fragment_of <$> (q ++ l.*2) ≡ₚ f :: F → chain 0 (f :: F) → l ≠ [] →
  (∀ p, p ∈ l.*2 → key_of p = key) → holds s key q →
  let '(s', rs) := feed l s in
  ∃ now, rs = replicate (pred (length l)) None ++ [Some (rebuilt now f F)] ∧
    fragments s' = delete key (fragments s) ∧
    completed s' = <[key := rebuilt now f F]> (completed s).
Proof.
  intros Hp Hc. revert q s Hp. induction l as [|[now p] l IH]; intros q s Hp Hne Hkey Hq; [done|].
  cbn [feed]. unfold add_fragment.
  rewrite (Hkey p) by (cbn; left).
  destruct (holds_insert s key q p Hq) as (old & Hold & Hne' & Hperm).
  assert (NoDup (f :: F)) as Hnd by (by eapply strict_sorted_NoDup, chain_sorted).
  change (((now, p) :: l).*2) with ([p] ++ l.*2) in Hp. rewrite app_assoc in Hp.
  destruct l as [|np l].
  - rewrite app_nil_r in Hp.
    rewrite (try_assemble_complete now key _ old f F) by (done || by rewrite Hperm).
    cbn [feed]. exists now. cbn [set_fragments fragments completed].
    by rewrite delete_insert_insert.
  - assert (NoDup (fragment_of <$> (q ++ [p]) ++ (np :: l).*2)) as Hnd' by (by rewrite Hp).
    rewrite fmap_app in Hnd', Hp. apply NoDup_app in Hnd' as (Hnd1 & _ & _).
    rewrite (try_assemble_incomplete now key _ (sort_on offset old) old (f :: F));
      [|done|done|done|by rewrite Hperm| | |done].
    + set (s1 := set_fragments _ _).
      assert (holds s1 key (q ++ [p])) as Hq1.
      { unfold holds, s1. cbn [set_fragments fragments]. rewrite lookup_insert_eq. cbn [default].
        by rewrite sort_on_perm. }
      specialize (IH (q ++ [p]) s1). rewrite fmap_app in IH.
      specialize (IH Hp ltac:(done) ltac:(intros; apply Hkey; by right) Hq1).
      destruct (feed (np :: l) s1) as [s2 rs]. destruct IH as (now' & -> & Hf & Hcm).
      exists now'. split; [done|]. rewrite Hf, Hcm. unfold s1. cbn [set_fragments fragments completed].
      by rewrite delete_insert_insert.
    + intros g Hg. rewrite <-Hp. apply elem_of_app. left. by rewrite <-Hperm.
    + rewrite <-Hp, Hperm. intros Hbad. apply Permutation_length in Hbad.
      rewrite length_app in Hbad. cbn in Hbad. lia.
Qed.

Lemma max_payload_mod mtu p : max_payload mtu p mod 8 = 0.
Proof. unfold max_payload. lia. Qed.

(** * Properties *)

(** Fragmenting ends if and only if a fragment can carry at least eight
    bytes or there is nothing to carry; for the loop [fragment_packet] runs, the
    fuel then suffices. With a header of at least 20 bytes every fragment fits
    the MTU, and the payloads of the fragments, in order, are the payload. *)
Theorem fragment_packet_total mtu now p :
  let m := max_payload mtu p in
  let h := IPPacket.header p in
  ((∃ fuel ps, fragment_loop fuel now h m 0 (IPPacket.payload p) = Some ps) ↔
   8 <= m ∨ IPPacket.payload p = []) ∧
  (8 <= m → ∃ ps, fragment_packet mtu now p = Some ps ∧
     concat (IPPacket.payload <$> ps) = IPPacket.payload p ∧
     (20 <= IPHeader.header_length h → Forall (λ q, IPPacket.size q <= mtu) ps)).
Proof.
  intros m h. assert (m mod 8 = 0) as Hm8 by apply max_payload_mod. split; [split|].
  - intros (fuel & ps & H). destruct (decide (8 <= m)); [by left|]. right.
    destruct (IPPacket.payload p) eqn:E; [done|].
    rewrite fragment_loop_diverges in H; [done|lia|done].
  - intros [Hm|Hp].
    + destruct (fragment_loop_enough (S (length (IPPacket.payload p))) now h m 0
        (IPPacket.payload p)) as [ps Hps]; [lia..|]. eauto.
    + exists 1%nat. rewrite Hp. cbn [fragment_loop].
      assert (py_from (@nil Z) m = []) as -> by (unfold py_from, py_slice; by rewrite drop_nil, take_nil).
      eauto.
  - intros Hm. destruct (fragment_loop_enough (S (length (IPPacket.payload p))) now h m 0
      (IPPacket.payload p)) as [ps Hps]; [lia..|].
    exists ps. split; [done|].
    apply fragment_loop_chain in Hps as (_ & Hc & Hs & _); [|lia..].
    split; [done|]. intros Hh. eapply Forall_impl; [exact Hs|].
    intros q (Hq & mf & o & Eh). unfold IPPacket.size. rewrite Eh.
    unfold m, max_payload in *. fold h in Hq. unfold IPHeader.header_length at 1. cbn. lia.
Qed.

(** C5: Fragments arriving in any order, interleaved with nothing else of the
    same key, are reassembled exactly when the last of them arrives, into a packet
    with the original payload and with the header the sender gives fragments (no
    flags, offset zero); the assembler keeps nothing under the key. *)
Theorem fragments_reassemble mtu now p ps l s :
  8 <= max_payload mtu p → fragment_packet mtu now p = Some ps →
  l.*2 ≡ₚ ps → fragments s !! key_of p = None →
  let '(s', rs) := feed l s in
  ∃ q, rs = replicate (pred (length ps)) None ++ [Some q] ∧
    IPPacket.payload q = IPPacket.payload p ∧
    IPPacket.header q = fragment_header (IPPacket.header p) false 0 ∧
    fragments s' = fragments s.
Proof.
  intros Hm Hps Hl Hs.
  apply fragment_loop_chain in Hps as (Hc & Hp & Hh & f0 & mf & Hf0 & Ef0);
    [|lia|apply max_payload_mod|lia..].
  destruct ps as [|f ps]; [done|]. injection Hf0 as <-.
  assert (l ≠ []) as Hne by (intros ->; by apply Permutation_nil_l in Hl).
  assert (∀ q, q ∈ l.*2 → key_of q = key_of p) as Hkey.
  { intros q Hq. rewrite Hl in Hq. rewrite Forall_forall in Hh.
    destruct (Hh q Hq) as (_ & mf' & o & E). unfold key_of. by rewrite E. }
  pose proof (feed_all (fragment_of <$> ps) (fragment_of f) (key_of p) l [] s) as Hfeed.
  destruct (feed l s) as [s' rs].
  destruct Hfeed as (t0 & -> & Hfr & _); [by rewrite Hl|done|done|done|by unfold holds; rewrite Hs|].
  exists (rebuilt t0 (fragment_of f) (fragment_of <$> ps)). split; [|split; [|split]].
  - apply Permutation_length in Hl. rewrite length_fmap in Hl. by rewrite Hl.
  - cbn [rebuilt IPPacket.payload]. rewrite <-Hp, <-fmap_cons, <-list_fmap_compose. done.
  - cbn [rebuilt IPPacket.header fragment_of packet]. rewrite Ef0. done.
  - rewrite Hfr. by apply delete_id.
Qed.

Definition big_packet : IPPacket.t :=
  {| IPPacket.header := header_example; IPPacket.payload := py_range 20; IPPacket.timestamp := 0;
     IPPacket.interface := "" |}.

Lemma fragments_reassemble_witness :
  ∃ a b c, fragment_packet 35 0 big_packet = Some [a; b; c] ∧
  ∃ q, (feed [(1, b); (2, c); (3, a)] (init_assembler 30)).2 = [None; None; Some q] ∧
    IPPacket.payload q = py_range 20.
Proof.
  eexists _, _, _. split; [vm_compute; reflexivity|].
  match goal with |- ∃ q, (feed ?l ?s).2 = _ ∧ _ =>
    pose proof (fragments_reassemble 35 0 big_packet
      (default [] (fragment_packet 35 0 big_packet)) l s ltac:(vm_compute; discriminate)
      ltac:(vm_compute; reflexivity)
      ltac:(vm_compute; apply (Permutation_app_comm [_; _] [_]))
      ltac:(reflexivity)) as H;
    destruct (feed l s) as [s' rs] end.
  destruct H as (q & -> & Hq & _). exists q. split; [reflexivity|exact Hq].
Defined.
