(* ===== verification/IpProto.v ===== *)
(** The IP layer: network/src/protocol/ip.py, [IPProtocol].

    The state has the routing table, the local addresses, the upper-layer
    handlers, the filters, the fragment assembler and the counters. A filter and a
    handler are client code: they are named by integers, and [run_filter] gives
    the verdict of a filter. What the layer does to the outside (a handler call, a
    forwarding decision, a packet handed to [_send_raw]) is the list of events or
    packets a call returns. The parsing of network texts by [IPv4Network] happens
    before the calls, which receive its result. *)

From Stdlib Require Import Sorted.
From S2P Require Import Prelude Bytes Sorting Ipv4Address Ip IpFrag.

Record Stats := {
  packets_received : Z;
  packets_sent : Z;
  packets_forwarded : Z;
  packets_dropped : Z;
  fragments_received : Z;
  fragments_created : Z;
  fragments_reassembled : Z;
  checksum_errors : Z;
  ttl_exceeded : Z;
}.

Definition stats_zero : Stats :=
  {| packets_received := 0; packets_sent := 0; packets_forwarded := 0; packets_dropped := 0;
     fragments_received := 0; fragments_created := 0; fragments_reassembled := 0;
     checksum_errors := 0; ttl_exceeded := 0 |}.

(** The increments [self._stats[...] += n] of each counter. *)
Inductive counter :=
  | CReceived | CSent | CForwarded | CDropped | CFragReceived | CFragCreated
  | CFragReassembled | CChecksum | CTtl.

#[export] Instance counter_eq_dec : EqDecision counter.
Proof. solve_decision. Defined.

Definition bump (c : counter) (n : Z) (s : Stats) : Stats :=
  let on c' v := if decide (c = c') then v + n else v in
  {| packets_received := on CReceived (packets_received s);
     packets_sent := on CSent (packets_sent s);
     packets_forwarded := on CForwarded (packets_forwarded s);
     packets_dropped := on CDropped (packets_dropped s);
     fragments_received := on CFragReceived (fragments_received s);
     fragments_created := on CFragCreated (fragments_created s);
     fragments_reassembled := on CFragReassembled (fragments_reassembled s);
     checksum_errors := on CChecksum (checksum_errors s);
     ttl_exceeded := on CTtl (ttl_exceeded s) |}.

Record route := {
  network : IPv4Network;
  gateway : string;
  interface : string;
  metric : Z;
}.

(** [str(network)]. *)
Definition network_text (n : IPv4Network) : res string :=
  a ← ip_text (be_bytes 4 (network_address n));
  Ok (String.append a (String.append "/" (text_of (octet_text (prefixlen n))))).

(** The members of the enumeration [IPProtocolNumber]. *)
Definition known_protocol (n : Z) : bool :=
  bool_decide (n ∈ [1; 2; 6; 17; 47; 50; 51; 58; 88; 89; 103; 132]).

Inductive event :=
  | EvDeliver (handler : Z) (p : IPPacket.t)
  | EvNoHandler (p : IPPacket.t)
  | EvForward (via : option string) (p : IPPacket.t).

Module IPProtocol.
Section IPProtocol.
Variable run_filter : Z → IPPacket.t → bool.

Record t := {
  routes : list route;
  default_gateway : option string;
  local_ips : gset string;
  assembler : IPFragmentAssembler.t;
  protocol_handlers : gmap Z Z;
  packet_filters : list Z;
  is_running : bool;
  identification : Z;
  default_ttl : Z;
  mtu : Z;
  stats : Stats;
}.

(** [ident] is the random starting identifier. *)
Definition init_protocol (ident : Z) : t :=
  {| routes := []; default_gateway := None; local_ips := ∅;
     assembler := IPFragmentAssembler.init_assembler 30; protocol_handlers := ∅;
     packet_filters := []; is_running := false; identification := ident; default_ttl := 64;
     mtu := 1500; stats := stats_zero |}.

(** Updates of one field. *)
Definition set_routes (s : t) (x : list route) : t :=
  {| routes := x; default_gateway := default_gateway s; local_ips := local_ips s;
     assembler := assembler s; protocol_handlers := protocol_handlers s;
     packet_filters := packet_filters s; is_running := is_running s;
     identification := identification s; default_ttl := default_ttl s; mtu := mtu s;
     stats := stats s |}.
Definition set_default_gateway (gw : string) (s : t) : t :=
  {| routes := routes s; default_gateway := Some gw; local_ips := local_ips s;
     assembler := assembler s; protocol_handlers := protocol_handlers s;
     packet_filters := packet_filters s; is_running := is_running s;
     identification := identification s; default_ttl := default_ttl s; mtu := mtu s;
     stats := stats s |}.
Definition set_local_ips (s : t) (x : gset string) : t :=
  {| routes := routes s; default_gateway := default_gateway s; local_ips := x;
     assembler := assembler s; protocol_handlers := protocol_handlers s;
     packet_filters := packet_filters s; is_running := is_running s;
     identification := identification s; default_ttl := default_ttl s; mtu := mtu s;
     stats := stats s |}.
Definition set_assembler (s : t) (x : IPFragmentAssembler.t) : t :=
  {| routes := routes s; default_gateway := default_gateway s; local_ips := local_ips s;
     assembler := x; protocol_handlers := protocol_handlers s;
     packet_filters := packet_filters s; is_running := is_running s;
     identification := identification s; default_ttl := default_ttl s; mtu := mtu s;
     stats := stats s |}.
Definition set_handlers (s : t) (x : gmap Z Z) : t :=
  {| routes := routes s; default_gateway := default_gateway s; local_ips := local_ips s;
     assembler := assembler s; protocol_handlers := x;
     packet_filters := packet_filters s; is_running := is_running s;
     identification := identification s; default_ttl := default_ttl s; mtu := mtu s;
     stats := stats s |}.
Definition set_filters (s : t) (x : list Z) : t :=
  {| routes := routes s; default_gateway := default_gateway s; local_ips := local_ips s;
     assembler := assembler s; protocol_handlers := protocol_handlers s;
     packet_filters := x; is_running := is_running s;
     identification := identification s; default_ttl := default_ttl s; mtu := mtu s;
     stats := stats s |}.
Definition set_running (s : t) (x : bool) : t :=
  {| routes := routes s; default_gateway := default_gateway s; local_ips := local_ips s;
     assembler := assembler s; protocol_handlers := protocol_handlers s;
     packet_filters := packet_filters s; is_running := x;
     identification := identification s; default_ttl := default_ttl s; mtu := mtu s;
     stats := stats s |}.
Definition set_identification (s : t) (x : Z) : t :=
  {| routes := routes s; default_gateway := default_gateway s; local_ips := local_ips s;
     assembler := assembler s; protocol_handlers := protocol_handlers s;
     packet_filters := packet_filters s; is_running := is_running s;
     identification := x; default_ttl := default_ttl s; mtu := mtu s; stats := stats s |}.
Definition count (c : counter) (n : Z) (s : t) : t :=
  {| routes := routes s; default_gateway := default_gateway s; local_ips := local_ips s;
     assembler := assembler s; protocol_handlers := protocol_handlers s;
     packet_filters := packet_filters s; is_running := is_running s;
     identification := identification s; default_ttl := default_ttl s; mtu := mtu s;
     stats := bump c n (stats s) |}.

Definition start (s : t) : t := set_running s true.
Definition stop (now : Z) (s : t) : t :=
  let s := set_running s false in
  set_assembler s (IPFragmentAssembler.cleanup now (assembler s)).1.

(** The log message of [register_protocol] looks the number up in the
    enumeration, after the handler is stored. *)
Definition register_protocol (protocol_num handler : Z) : method t () := λ s,
  (set_handlers s (<[protocol_num := handler]> (protocol_handlers s)),
   if known_protocol protocol_num then Ok () else Err ValueError).

Definition unregister_protocol (protocol_num : Z) : method t bool := λ s,
  match protocol_handlers s !! protocol_num with
  | Some _ => (set_handlers s (delete protocol_num (protocol_handlers s)), Ok true)
  | None => (s, Ok false)
  end.

(** [network_obj] is the result of [IPv4Network(network, strict=False)]. *)
Definition add_route (network_obj : option IPv4Network) (gw intf : string) (m : Z) :
    method t bool := λ s,
  match network_obj with
  | None => (s, Err IPError)
  | Some n =>
      let r := {| network := n; gateway := gw; interface := intf; metric := m |} in
      (set_routes s (sort_on (λ r, - prefixlen (network r)) (routes s ++ [r])), Ok true)
  end.

(** Deletes the first route whose network prints as [net]. *)
Fixpoint drop_route (net : string) (l : list route) : option (list route) :=
  match l with
  | [] => None
  | r :: l' =>
      if bool_decide (network_text (network r) = Ok net) then Some l'
      else cons r <$> drop_route net l'
  end.

Definition remove_route (net : string) : method t bool := λ s,
  match drop_route net (routes s) with
  | Some l => (set_routes s l, Ok true)
  | None => (s, Ok false)
  end.

Definition add_local_ip (ip : string) : method t bool := λ s,
  match ip_packed ip with
  | Ok _ => (set_local_ips s ({[ip]} ∪ local_ips s), Ok true)
  | Err _ => (s, Err IPError)
  end.

(** [set.discard] returns [None], so the result is always [False]. *)
Definition remove_local_ip (ip : string) : method t bool := λ s,
  (set_local_ips s (local_ips s ∖ {[ip]}), Ok false).

Definition is_local_ip (ip : string) (s : t) : bool := bool_decide (ip ∈ local_ips s).

Definition add_filter (f : Z) (s : t) : t := set_filters s (packet_filters s ++ [f]).

Fixpoint remove_first (f : Z) (l : list Z) : list Z :=
  match l with
  | [] => []
  | g :: l' => if g =? f then l' else g :: remove_first f l'
  end.

Definition remove_filter (f : Z) : method t bool := λ s,
  if bool_decide (f ∈ packet_filters s)
  then (set_filters s (remove_first f (packet_filters s)), Ok true)
  else (s, Ok false).

Definition next_identification : method t Z := λ s,
  (set_identification s ((identification s + 1) mod 65536), Ok (identification s)).

Definition create_packet (now : Z) (src dst : string) (protocol : Z) (payload : bytes)
    (ttl tos : Z) (df : bool) : method t IPPacket.t :=
  let! ident := next_identification in
  let! s := m_get in
  let header :=
    {| IPHeader.version := 4; IPHeader.ihl := 5; IPHeader.tos := tos;
       IPHeader.total_length := 20; IPHeader.identification := ident;
       IPHeader.flags := if df then IPFlag_DF else 0; IPHeader.fragment_offset := 0;
       IPHeader.ttl := if 0 <? ttl then ttl else default_ttl s;
       IPHeader.protocol := protocol; IPHeader.header_checksum := 0;
       IPHeader.src_ip := src; IPHeader.dst_ip := dst; IPHeader.options := [] |} in
  m_ret {| IPPacket.header := header; IPPacket.payload := payload;
           IPPacket.timestamp := now; IPPacket.interface := "" |}.

(** The packets handed to [_send_raw]; [None] when the fragmentation loop does
    not end. *)
Definition send_packet (now : Z) (p : IPPacket.t) (s : t) : option (t * list IPPacket.t) :=
  if (mtu s <? IPPacket.size p) && negb (IPHeader.is_df (IPPacket.header p)) then
    fragments ← fragment_packet (mtu s) now p;
    Some (count CSent 1 (count CFragCreated (len fragments) s), fragments)
  else Some (count CSent 1 s, [p]).

(** The route or gateway a packet is logged to leave by. *)
Definition forward_packet (p : IPPacket.t) (s : t) : res (option string) :=
  dst ← ip_packed (IPHeader.dst_ip (IPPacket.header p));
  match list_find (λ r, in_network (be_val dst) (network r) = true) (routes s) with
  | Some (_, r) => Ok (Some (gateway r))
  | None => Ok (default_gateway s)
  end.

(** The last part of [receive_packet]: up or out. *)
Definition dispatch (p : IPPacket.t) : method t (list event) := λ s,
  if is_local_ip (IPHeader.dst_ip (IPPacket.header p)) s then
    match protocol_handlers s !! IPHeader.protocol (IPPacket.header p) with
    | Some h => (s, Ok [EvDeliver h p])
    | None => (s, Ok [EvNoHandler p])
    end
  else
    match forward_packet p s with
    | Ok via => (count CForwarded 1 s, Ok [EvForward via p])
    | Err e => (s, Err e)
    end.

Definition receive_packet (now : Z) (p : IPPacket.t) : method t (list event) := λ s,
  let s := count CReceived 1 s in
  match verify_checksum p with
  | Err e => (s, Err e)
  | Ok false => (count CChecksum 1 s, Ok [])
  | Ok true =>
      if IPHeader.ttl (IPPacket.header p) <=? 0 then (count CTtl 1 s, Ok [])
      else if negb (forallb (λ f, run_filter f p) (packet_filters s))
      then (count CDropped 1 s, Ok [])
      else if IPPacket.is_fragment p then
        let s := count CFragReceived 1 s in
        let '(a, reassembled) := IPFragmentAssembler.add_fragment now p (assembler s) in
        let s := set_assembler s a in
        match reassembled with
        | Some q => dispatch q (count CFragReassembled 1 s)
        | None => (s, Ok [])
        end
      else dispatch p s
  end.
End IPProtocol.
End IPProtocol.

(** * Lemmas: the counters *)

Import IPProtocol.

(** The packets received and not yet accounted for by a counter: those handed
    to a local handler (or to none). *)
Definition unaccounted (s : t) : Z :=
  let c := stats s in
  packets_received c - checksum_errors c - ttl_exceeded c - packets_dropped c
  - (fragments_received c - fragments_reassembled c) - packets_forwarded c.

(** What a call of [receive_packet] leaves to the upper layer. *)
Definition local_event (e : event) : bool :=
  match e with EvForward _ _ => false | _ => true end.

Definition local_outcomes (r : res (list event)) : Z :=
  match r with
  | Ok evs => len (filter (λ e, local_event e = true) evs)
  | Err _ => 1
  end.

Lemma dispatch_account p s :
  unaccounted (dispatch p s).1 = unaccounted s + local_outcomes (dispatch p s).2 - 1.
Proof.
  unfold dispatch. destruct (is_local_ip _ s).
  - destruct (protocol_handlers s !! _); simpl; lia.
  - destruct (forward_packet p s); simpl; [|lia]. unfold unaccounted, count. simpl. lia.
Qed.

Section receive.
Variable run_filter : Z → IPPacket.t → bool.

Lemma receive_account now p s :
  unaccounted (receive_packet run_filter now p s).1 =
  unaccounted s + local_outcomes (receive_packet run_filter now p s).2.
Proof.
  unfold receive_packet. set (s0 := count CReceived 1 s).
  assert (unaccounted s0 = unaccounted s + 1) as E0
    by (unfold unaccounted, s0, count; simpl; lia).
  destruct (verify_checksum p) as [[]|e].
  - destruct (_ <=? 0); [unfold unaccounted, s0, count; simpl; lia|].
    destruct (negb _); [unfold unaccounted, s0, count; simpl; lia|].
    destruct (IPPacket.is_fragment p); [|rewrite dispatch_account; lia].
    destruct (IPFragmentAssembler.add_fragment _ _ _) as [a [q|]].
    + rewrite dispatch_account. unfold unaccounted, s0, count. simpl. lia.
    + unfold unaccounted, s0, count. simpl. lia.
  - unfold unaccounted, s0, count. simpl. lia.
  - simpl. lia.
Qed.

Fixpoint receive_all (l : list (Z * IPPacket.t)) (s : t) : t * list (res (list event)) :=
  match l with
  | [] => (s, [])
  | (now, p) :: l' =>
      let '(s1, r) := receive_packet run_filter now p s in
      let '(s2, rs) := receive_all l' s1 in (s2, r :: rs)
  end.

Lemma receive_all_account l s :
  unaccounted (receive_all l s).1 =
  unaccounted s + foldr Z.add 0 (local_outcomes <$> (receive_all l s).2).
Proof.
  revert s. induction l as [|[now p] l IH]; intros s; [simpl; lia|].
  cbn [receive_all]. pose proof (receive_account now p s) as H.
  destruct (receive_packet run_filter now p s) as [s1 r]. specialize (IH s1).
  destruct (receive_all l s1) as [s2 rs]. cbn [fst snd foldr fmap list_fmap] in *. lia.
Qed.

(** A verified packet has addresses that parse, so its forwarding never raises. *)
Lemma verify_checksum_dst p b :
  verify_checksum p = Ok b → is_ok (ip_packed (IPHeader.dst_ip (IPPacket.header p))) = true.
Proof.
  unfold verify_checksum, IPHeader.encode, IPHeader.packed_or_error.
  destruct (ip_packed (IPHeader.src_ip _)); [|done].
  destruct (ip_packed (IPHeader.dst_ip _)); done.
Qed.
End receive.

(** ** The routing table *)

(** The operations on routes, by their arguments. *)
Inductive route_op :=
  | RAdd (network_obj : option IPv4Network) (gw intf : string) (m : Z)
  | RRemove (net : string)
  | RGateway (gw : string).

Definition run_route_op (s : t) (o : route_op) : t :=
  match o with
  | RAdd n gw intf m => (add_route n gw intf m s).1
  | RRemove net => (remove_route net s).1
  | RGateway gw => set_default_gateway gw s
  end.

Abbreviation route_order := (StronglySorted (key_le (λ r, - prefixlen (network r)))).

Lemma drop_route_sorted net l l' : route_order l → drop_route net l = Some l' → route_order l'.
Proof.
  intros Hl. revert l'. induction Hl as [|r l Hl IH Hr]; intros l' H; [done|].
  simpl in H. case_bool_decide; [by injection H as <-|].
  destruct (drop_route net l) as [l1|] eqn:E; [|done]. injection H as <-.
  constructor; [by apply IH|]. clear -Hr E. revert l1 E.
  induction Hr as [|x l Hx Hr IH]; intros l1 E; [done|]. simpl in E.
  case_bool_decide; [by injection E as <-|].
  destruct (drop_route net l); [|done]. injection E as <-. constructor; auto.
Qed.

Lemma run_route_op_sorted s o : route_order (routes s) → route_order (routes (run_route_op s o)).
Proof.
  intros H. destruct o as [[n|] gw intf m|net|gw]; simpl; try done.
  - apply sort_on_sorted.
  - unfold remove_route. destruct (drop_route net (routes s)) eqn:E; [|done].
    by eapply drop_route_sorted.
Qed.

Lemma run_route_ops_sorted ops s :
  route_order (routes s) → route_order (routes (foldl run_route_op s ops)).
Proof.
  revert s. induction ops as [|o ops IH]; intros s H; [done|]. by apply IH, run_route_op_sorted.
Qed.

Lemma sorted_lookup {A} (R : A → A → Prop) l i j x y :
  StronglySorted R l → l !! i = Some x → l !! j = Some y → (i < j)%nat → R x y.
Proof.
  intros Hl. revert i j. induction Hl as [|z l Hl IH Hz]; intros i j Hi Hj Hij; [done|].
  destruct j as [|j]; [lia|]. cbn in Hj. destruct i as [|i]; cbn in Hi.
  - injection Hi as ->. rewrite Forall_forall in Hz. apply Hz. by eapply list_elem_of_lookup_2.
  - apply (IH i j); auto with lia.
Qed.

(** * Properties *)

(** Every received packet is accounted for once: over any sequence of
    receptions, the received count is the sum of the checksum errors, the expired
    TTLs, the filtered packets, the fragments still held or merged, the forwarded
    packets, and the packets handed to the local upper layer or lost in an
    exception. *)
Theorem receive_accounting run_filter ident l :
  let '(s, rs) := receive_all run_filter l (init_protocol ident) in
  let c := stats s in
  packets_received c =
    checksum_errors c + ttl_exceeded c + packets_dropped c
    + (fragments_received c - fragments_reassembled c) + packets_forwarded c
    + foldr Z.add 0 (local_outcomes <$> rs).
Proof.
  pose proof (receive_all_account run_filter l (init_protocol ident)) as H.
  destruct (receive_all run_filter l (init_protocol ident)) as [s rs].
  change (unaccounted (init_protocol ident)) with 0 in H. cbn [fst snd] in H.
  unfold unaccounted in H. cbv zeta. lia.
Qed.

(** After any sequence of route changes, a packet is forwarded by a route of
    the longest matching prefix, or by the default gateway when no route matches. *)
Theorem forward_longest_prefix ident ops p dst :
  ip_packed (IPHeader.dst_ip (IPPacket.header p)) = Ok dst →
  let s := foldl run_route_op (init_protocol ident) ops in
  let matches r := in_network (be_val dst) (network r) = true in
  (∃ r, r ∈ routes s ∧ matches r ∧
        (∀ r', r' ∈ routes s → matches r' → prefixlen (network r') <= prefixlen (network r)) ∧
        forward_packet p s = Ok (Some (gateway r))) ∨
  ((∀ r, r ∈ routes s → ¬ matches r) ∧ forward_packet p s = Ok (default_gateway s)).
Proof.
  intros Hd s matches.
  assert (route_order (routes s)) as Hs by (apply run_route_ops_sorted; constructor).
  unfold forward_packet. rewrite Hd. cbn [mbind res_bind].
  destruct (list_find _ (routes s)) as [[i r]|] eqn:E.
  - left. apply list_find_Some in E as (Hi & Hr & Hfirst). exists r.
    split; [by eapply list_elem_of_lookup_2|]. split; [done|]. split; [|done].
    intros r' Hin Hr'. apply list_elem_of_lookup in Hin as [j Hj].
    destruct (decide (j < i)%nat); [by destruct (Hfirst j r' Hj)|].
    destruct (decide (j = i)) as [->|]; [rewrite Hi in Hj; by injection Hj as ->|].
    pose proof (sorted_lookup _ _ i j r r' Hs Hi Hj ltac:(lia)) as H.
    unfold key_le in H. lia.
  - right. apply list_find_None in E. rewrite Forall_forall in E. auto.
Qed.

Definition route_example (a p : Z) (gw : string) : route_op :=
  RAdd (Some {| network_address := a; prefixlen := p |}) gw "eth0" 0.

Lemma forward_longest_prefix_witness :
  forward_packet packet_example
    (foldl run_route_op (init_protocol 0)
       [route_example 0xC0000000 8 "a"; route_example 0xC0A80100 24 "b"]) = Ok (Some "b"%string).
Proof.
  destruct (forward_longest_prefix 0 [route_example 0xC0000000 8 "a"; route_example 0xC0A80100 24 "b"]
    packet_example [192; 168; 1; 254] ltac:(vm_compute; reflexivity))
    as [(r & Hr & Hm & Hmax & ->) | [Hno _]].
  - vm_compute in Hr. apply elem_of_cons in Hr as [->|Hr]; [reflexivity|].
    apply elem_of_cons in Hr as [->|Hr]; [|by apply elem_of_nil in Hr].
    exfalso. pose (b := {| network := {| network_address := 0xC0A80100; prefixlen := 24 |};
      gateway := "b"; interface := "eth0"; metric := 0 |}).
    specialize (Hmax b ltac:(vm_compute; left) ltac:(vm_compute; reflexivity)).
    apply Hmax. reflexivity.
  - exfalso. vm_compute in Hno. eapply Hno; [left|reflexivity].
Defined.
