(* ===== verification/TcpPacket.v ===== *)
(** TCP segments: network/src/protocol/tcp.py, [TCPPacket].

    Times are integers; a segment built with time zero is stamped with the time
    of its construction, as [__post_init__] does. *)

From S2P Require Import Prelude Bytes.

Definition FIN : Z := 0x01.
Definition SYN : Z := 0x02.
Definition RST : Z := 0x04.
Definition PSH : Z := 0x08.
Definition ACK : Z := 0x10.
Definition URG : Z := 0x20.

Module TCPPacket.
Record t := {
  src_port : Z;
  dst_port : Z;
  sequence_number : Z;
  acknowledgment_number : Z;
  data_offset : Z;
  flags : Z;
  window_size : Z;
  checksum : Z;
  urgent_pointer : Z;
  options : bytes;
  payload : bytes;
  timestamp : Z;
  retransmitted : bool;
  rtt : option Z;
}.

(** The constructor with the defaults the code relies on. *)
Definition make (now src dst seq ack fl : Z) (pl : bytes) : t :=
  {| src_port := src; dst_port := dst; sequence_number := seq; acknowledgment_number := ack;
     data_offset := 5; flags := fl; window_size := 65535; checksum := 0; urgent_pointer := 0;
     options := []; payload := pl; timestamp := now; retransmitted := false; rtt := None |}.

Definition header_length (p : t) : Z := data_offset p * 4.
Definition has_flag (f : Z) (p : t) : bool := negb (Z.land (flags p) f =? 0).
Definition is_syn (p : t) : bool := has_flag SYN p.
Definition is_ack (p : t) : bool := has_flag ACK p.
Definition is_fin (p : t) : bool := has_flag FIN p.
Definition is_rst (p : t) : bool := has_flag RST p.
Definition is_psh (p : t) : bool := has_flag PSH p.
Definition is_urg (p : t) : bool := has_flag URG p.

Definition encode (p : t) : res bytes :=
  let data_offset_byte := Z.lor (Z.shiftl (data_offset p) 4) 0 in
  b0 ← pack_be 2 (src_port p);
  b2 ← pack_be 2 (dst_port p);
  b4 ← pack_be 4 (sequence_number p);
  b8 ← pack_be 4 (acknowledgment_number p);
  b12 ← pack_be 1 data_offset_byte;
  b13 ← pack_be 1 (flags p);
  b14 ← pack_be 2 (window_size p);
  b16 ← pack_be 2 (checksum p);
  b18 ← pack_be 2 (urgent_pointer p);
  let header := b0 ++ b2 ++ b4 ++ b8 ++ b12 ++ b13 ++ b14 ++ b16 ++ b18 in
  let header := header ++ options p in
  (* the padding loop adds one zero byte at a time *)
  let header := header ++ py_repeat (header_length p - len header) 0 in
  Ok (header ++ payload p).

Definition decode (now : Z) (data : bytes) : res t :=
  if len data <? 20 then Err ValueError
  else
    src_port ← unpack_be 2 (py_slice (py_slice data 0 4) 0 2);
    dst_port ← unpack_be 2 (py_slice (py_slice data 0 4) 2 4);
    seq_num ← unpack_be 4 (py_slice (py_slice data 4 12) 0 4);
    ack_num ← unpack_be 4 (py_slice (py_slice data 4 12) 4 8);
    data_offset_byte ← unpack_be 1 (py_slice (py_slice data 12 14) 0 1);
    flags ← unpack_be 1 (py_slice (py_slice data 12 14) 1 2);
    let data_offset := Z.land (Z.shiftr data_offset_byte 4) 0x0F in
    window_size ← unpack_be 2 (py_slice data 14 16);
    checksum ← unpack_be 2 (py_slice data 16 18);
    urgent_pointer ← unpack_be 2 (py_slice data 18 20);
    let header_length := data_offset * 4 in
    let options := if 20 <? header_length then py_slice data 20 header_length else [] in
    let payload := if header_length <? len data then py_from data header_length else [] in
    Ok {| src_port := src_port; dst_port := dst_port; sequence_number := seq_num;
          acknowledgment_number := ack_num; data_offset := data_offset; flags := flags;
          window_size := window_size; checksum := checksum; urgent_pointer := urgent_pointer;
          options := options; payload := payload; timestamp := now;
          retransmitted := false; rtt := None |}.
End TCPPacket.

(** * Lemmas *)

Import TCPPacket.

(** The segments whose fields fit the wire format. *)
Record segment_wf (p : t) : Prop := {
  sw_src : 0 <= src_port p < 65536;
  sw_dst : 0 <= dst_port p < 65536;
  sw_seq : 0 <= sequence_number p < 2 ^ 32;
  sw_ack : 0 <= acknowledgment_number p < 2 ^ 32;
  sw_offset : 5 <= data_offset p <= 15;
  sw_flags : byte_ok (flags p);
  sw_window : 0 <= window_size p < 65536;
  sw_checksum : 0 <= checksum p < 65536;
  sw_urgent : 0 <= urgent_pointer p < 65536;
  sw_options : len (options p) = 4 * data_offset p - 20;
}.

(** What the wire does not carry: the construction time and the retransmission marks. *)
Definition as_received (now : Z) (p : t) : t :=
  {| src_port := src_port p; dst_port := dst_port p; sequence_number := sequence_number p;
     acknowledgment_number := acknowledgment_number p; data_offset := data_offset p;
     flags := flags p; window_size := window_size p; checksum := checksum p;
     urgent_pointer := urgent_pointer p; options := options p; payload := payload p;
     timestamp := now; retransmitted := false; rtt := None |}.

(** The fixed part of the encoding. *)
Definition fixed20 (p : t) : bytes :=
  be_bytes 2 (src_port p) ++ be_bytes 2 (dst_port p) ++ be_bytes 4 (sequence_number p) ++
  be_bytes 4 (acknowledgment_number p) ++ [data_offset p * 16] ++ [flags p] ++
  be_bytes 2 (window_size p) ++ be_bytes 2 (checksum p) ++ be_bytes 2 (urgent_pointer p).

Lemma length_fixed20 p : length (fixed20 p) = 20%nat.
Proof. unfold fixed20. autorewrite with pylist. done. Qed.

Lemma encode_fixed p :
  segment_wf p → encode p = Ok (fixed20 p ++ options p ++ payload p).
Proof.
  intros []. unfold encode, byte_ok in *. rewrite Z.lor_0_r, Z.shiftl_mul_pow2 by lia.
  rewrite !pack_u_ok by (unfold width; simpl Z.of_nat; lia). cbn [mbind res_bind].
  rewrite !be_bytes_1 by lia.
  change (data_offset p * 2 ^ 4) with (data_offset p * 16). fold (fixed20 p).
  assert (py_repeat (header_length p - len (fixed20 p ++ options p)) 0 = []) as ->.
  { unfold header_length, py_repeat. rewrite length_app, length_fixed20.
    by replace (Z.to_nat _) with 0%nat by lia. }
  by rewrite app_nil_r, <-app_assoc.
Qed.

Lemma unpack_be_1 a : unpack_be 1 [a] = Ok a.
Proof. unfold unpack_be, be_val. cbn. f_equal. lia. Qed.

(** * Properties *)

(** Decoding the encoding of a TCP segment gives the segment back: ports,
    32-bit sequence numbers, flags, options and payload; only the local marks
    (time, retransmission) are reset. *)
Theorem tcp_segment_roundtrip p now :
  segment_wf p → ∃ b, encode p = Ok b ∧ decode now b = Ok (as_received now p).
Proof.
  intros H. exists (fixed20 p ++ options p ++ payload p). split; [by apply encode_fixed|].
  destruct H. unfold byte_ok in *. unfold decode.
  replace (len _ <? 20) with false by (rewrite length_app, length_fixed20; lia).
  assert (py_from (fixed20 p ++ options p ++ payload p) (data_offset p * 4) = payload p) as Hpl.
  { rewrite app_assoc.
    replace (data_offset p * 4) with (len (fixed20 p ++ options p))
      by (rewrite length_app, length_fixed20; lia).
    apply py_from_app. }
  assert (py_slice (fixed20 p ++ options p ++ payload p) 20 (data_offset p * 4) = options p) as Hop.
  { replace 20 with (len (fixed20 p)) by (by rewrite length_fixed20).
    replace (data_offset p * 4) with (len (fixed20 p) + len (options p))
      by (rewrite length_fixed20; lia).
    apply py_slice_app_mid. }
  assert (len (fixed20 p ++ options p ++ payload p) = data_offset p * 4 + len (payload p)) as Hlen
    by (autorewrite with pylist; rewrite length_fixed20; lia).
  remember (fixed20 p ++ options p ++ payload p) as data eqn:Hd.
  assert (data = fixed20 p ++ (options p ++ payload p)) as Hd' by done.
  unfold fixed20 in Hd'. rewrite !be_bytes_2, !be_bytes_4 in Hd' by lia. cbn [app] in Hd'.
  rewrite !(py_slice_nonneg data) by quick_lia. rewrite Hd'. fields.
  rewrite ?take_0, !unpack_be_2_split, !unpack_be_4_bytes, !unpack_be_1 by lia.
  cbn [mbind res_bind]. rewrite <-Hd'.
  assert (Z.land (Z.shiftr (data_offset p * 16) 4) 15 = data_offset p) as ->
    by (rewrite (land_ones_mod 4), Z.shiftr_div_pow2 by lia; clear -sw_offset0; lia).
  assert ((if 20 <? data_offset p * 4 then py_slice data 20 (data_offset p * 4) else [])
          = options p) as ->.
  { destruct (20 <? _) eqn:E; [done|]. destruct (options p); [done|]. cbn [length] in *. lia. }
  assert ((if data_offset p * 4 <? len data then py_from data (data_offset p * 4) else [])
          = payload p) as ->.
  { destruct (_ <? len data) eqn:E; [done|]. destruct (payload p); [done|]. cbn [length] in *. lia. }
  done.
Qed.

Definition segment_example : t :=
  {| src_port := 4321; dst_port := 80; sequence_number := 0xFFFFFFFF;
     acknowledgment_number := 17; data_offset := 6; flags := 0x18; window_size := 512;
     checksum := 0xABCD; urgent_pointer := 0; options := [1; 1; 1; 1]; payload := [104; 105];
     timestamp := 3; retransmitted := true; rtt := None |}.

Lemma tcp_segment_roundtrip_witness :
  ∃ b, encode segment_example = Ok b ∧ decode 9 b = Ok (as_received 9 segment_example).
Proof.
  apply (tcp_segment_roundtrip segment_example 9). split; unfold byte_ok; simpl; lia.
Defined.
