(* ===== verification/TcpCongestion.v ===== *)
(** TCP congestion control and retransmission: network/src/protocol/tcp.py,
    [CongestionControl] and [RetransmissionManager].

    [Cong] holds the fields of a [TCPConnection] that [CongestionControl] reads
    and writes. The round-trip quantities, floats in the code, are rationals.
    The retransmission manager's dictionary is an association list in insertion
    order, because the code returns packets in that order; its times are integers. *)

From Stdlib Require Import QArith Qminmax Qabs Lqa.
From S2P Require Import Prelude Bytes TcpPacket.
Open Scope Z_scope.

Inductive CongestionState := SLOW_START | CONGESTION_AVOIDANCE | FAST_RECOVERY.

Record Cong := {
  mss : Z;
  snd_cwnd : Z;
  snd_ssthresh : Z;
  congestion_state : CongestionState;
  duplicate_acks : Z;
  retransmissions : Z;
  rto : Q;
  srtt : Q;
  rttvar : Q;
  rtt_estimate : Q;
  rtt_dev : Q;
}.

(** The defaults of the dataclass. *)
Definition cong_default : Cong :=
  {| mss := 1460; snd_cwnd := 1; snd_ssthresh := 65535; congestion_state := SLOW_START;
     duplicate_acks := 0; retransmissions := 0; rto := 1; srtt := 0; rttvar := 3 # 4;
     rtt_estimate := 0; rtt_dev := 0 |}.

Module CongestionControl.
Definition min_cwnd : Z := 1.
Definition max_cwnd : Z := 65535 * 2.

(** [int(snd_cwnd * 0.5)] truncates towards zero. *)
Definition half (cwnd : Z) : Z := Z.quot cwnd 2.

Definition set_window (c : Cong) (cwnd ssthresh : Z) (st : CongestionState) (dup : Z) : Cong :=
  {| mss := mss c; snd_cwnd := cwnd; snd_ssthresh := ssthresh; congestion_state := st;
     duplicate_acks := dup; retransmissions := retransmissions c; rto := rto c; srtt := srtt c;
     rttvar := rttvar c; rtt_estimate := rtt_estimate c; rtt_dev := rtt_dev c |}.

Definition add_retransmission (c : Cong) : Cong :=
  {| mss := mss c; snd_cwnd := snd_cwnd c; snd_ssthresh := snd_ssthresh c;
     congestion_state := congestion_state c; duplicate_acks := duplicate_acks c;
     retransmissions := retransmissions c + 1; rto := rto c; srtt := srtt c;
     rttvar := rttvar c; rtt_estimate := rtt_estimate c; rtt_dev := rtt_dev c |}.

Definition set_rtt (c : Cong) (rto' srtt' rttvar' est dev : Q) : Cong :=
  {| mss := mss c; snd_cwnd := snd_cwnd c; snd_ssthresh := snd_ssthresh c;
     congestion_state := congestion_state c; duplicate_acks := duplicate_acks c;
     retransmissions := retransmissions c; rto := rto'; srtt := srtt'; rttvar := rttvar';
     rtt_estimate := est; rtt_dev := dev |}.

Definition on_packet_loss (c : Cong) : Cong :=
  set_window (add_retransmission c) min_cwnd (Z.max (half (snd_cwnd c)) (min_cwnd * 2))
    SLOW_START 0.

Definition on_duplicate_ack (count : Z) (c : Cong) : Cong :=
  if 3 <=? count then
    match congestion_state c with
    | FAST_RECOVERY =>
        set_window c (snd_cwnd c + 1) (snd_ssthresh c) FAST_RECOVERY (duplicate_acks c)
    | _ =>
        let ssthresh := Z.max (half (snd_cwnd c)) (min_cwnd * 2) in
        set_window c (ssthresh + 3) ssthresh FAST_RECOVERY (duplicate_acks c)
    end
  else c.

(** The last assignment of [on_new_ack]. *)
Definition cap_window (c : Cong) : Cong :=
  set_window c (Z.min (snd_cwnd c) max_cwnd) (snd_ssthresh c) (congestion_state c)
    (duplicate_acks c).

Definition on_new_ack (acked_bytes : Z) : method Cong () := λ c,
  match congestion_state c with
  | SLOW_START =>
      let cwnd := snd_cwnd c + Z.min acked_bytes (mss c) in
      let st := if snd_ssthresh c <=? cwnd then CONGESTION_AVOIDANCE else SLOW_START in
      (cap_window (set_window c cwnd (snd_ssthresh c) st (duplicate_acks c)), Ok ())
  | CONGESTION_AVOIDANCE =>
      if 2 * snd_cwnd c =? 0 then (c, Err ZeroDivisionError)
      else
        let cwnd := snd_cwnd c + mss c * mss c / (2 * snd_cwnd c) in
        (cap_window (set_window c cwnd (snd_ssthresh c) CONGESTION_AVOIDANCE (duplicate_acks c)),
         Ok ())
  | FAST_RECOVERY =>
      (cap_window (set_window c (snd_ssthresh c) (snd_ssthresh c) CONGESTION_AVOIDANCE 0), Ok ())
  end.

Definition on_timeout (c : Cong) : Cong :=
  let c1 := set_window c min_cwnd (Z.max (half (snd_cwnd c)) (min_cwnd * 2)) SLOW_START 0 in
  set_rtt c1 (Qmin (rto c * 2) 120) (srtt c) (rttvar c) (rtt_estimate c) (rtt_dev c).

Definition update_rtt (measured_rtt : Q) (c : Cong) : Cong :=
  if Qle_bool measured_rtt 0 then c
  else
    let '(srtt', rttvar') :=
      if Qeq_bool (srtt c) 0 then (measured_rtt, measured_rtt / 2)%Q
      else ((1 - (1 # 8)) * srtt c + (1 # 8) * measured_rtt,
            (1 - (1 # 4)) * rttvar c + (1 # 4) * Qabs (srtt c - measured_rtt))%Q in
    set_rtt c (Qmin (Qmax (srtt' + 4 * rttvar') (2 # 10)) 120) srtt' rttvar' srtt' rttvar'.
End CongestionControl.

Module RetransmissionManager.
Definition key : Type := Z * Z.

Record t := { pending : list (key * (TCPPacket.t * Z)); rto : Z }.

Definition init_manager (r : Z) : t := {| pending := []; rto := r |}.

(** [self._pending[k] = v]: an existing key keeps its place. *)
Fixpoint dict_set (k : key) (v : TCPPacket.t * Z) (l : list (key * (TCPPacket.t * Z))) :
    list (key * (TCPPacket.t * Z)) :=
  match l with
  | [] => [(k, v)]
  | (k', v') :: l' => if decide (k = k') then (k', v) :: l' else (k', v') :: dict_set k v l'
  end.

Definition packet_key (p : TCPPacket.t) : key :=
  (TCPPacket.sequence_number p, len (TCPPacket.payload p)).

Definition add_packet (now : Z) (p : TCPPacket.t) (m : t) : t :=
  {| pending := dict_set (packet_key p) (p, now + rto m) (pending m); rto := rto m |}.

(** The test of [ack_received]. *)
Definition covered (ack_number : Z) (kv : key * (TCPPacket.t * Z)) : bool :=
  let p := kv.2.1 in
  TCPPacket.sequence_number p + len (TCPPacket.payload p) <=? ack_number.

Definition ack_received (ack_number : Z) (m : t) : t * list TCPPacket.t :=
  let confirmed := filter (λ kv, covered ack_number kv = true) (pending m) in
  let to_remove := confirmed.*1 in
  ({| pending := filter (λ kv, kv.1 ∉ to_remove) (pending m); rto := rto m |},
   (λ kv, kv.2.1) <$> confirmed).

(** [packet.retransmitted = True; packet.rtt = time.time() - packet.timestamp]. *)
Definition mark (now : Z) (p : TCPPacket.t) : TCPPacket.t :=
  {| TCPPacket.src_port := TCPPacket.src_port p; TCPPacket.dst_port := TCPPacket.dst_port p;
     TCPPacket.sequence_number := TCPPacket.sequence_number p;
     TCPPacket.acknowledgment_number := TCPPacket.acknowledgment_number p;
     TCPPacket.data_offset := TCPPacket.data_offset p; TCPPacket.flags := TCPPacket.flags p;
     TCPPacket.window_size := TCPPacket.window_size p; TCPPacket.checksum := TCPPacket.checksum p;
     TCPPacket.urgent_pointer := TCPPacket.urgent_pointer p;
     TCPPacket.options := TCPPacket.options p; TCPPacket.payload := TCPPacket.payload p;
     TCPPacket.timestamp := TCPPacket.timestamp p; TCPPacket.retransmitted := true;
     TCPPacket.rtt := Some (now - TCPPacket.timestamp p) |}.

Definition check_timeouts (now : Z) (m : t) : t * list TCPPacket.t :=
  ({| pending := (λ kv, if kv.2.2 <=? now then (kv.1, (mark now kv.2.1, kv.2.2)) else kv)
                 <$> pending m; rto := rto m |},
   (λ kv, mark now kv.2.1) <$> filter (λ kv, kv.2.2 <= now) (pending m)).

Definition get_pending_count (m : t) : Z := len (pending m).

Definition reset (m : t) : t := {| pending := []; rto := rto m |}.
End RetransmissionManager.

(** * Lemmas: the congestion window *)

Import CongestionControl.

(** The invariant of the congestion fields. *)
Definition cong_ok (c : Cong) : Prop :=
  1 <= snd_cwnd c ∧ 2 <= snd_ssthresh c ∧ 0 <= mss c ∧ (0 < rto c <= 120)%Q.

Inductive cong_event :=
  | PacketLoss
  | DuplicateAck (count : Z)
  | NewAck (acked_bytes : Z)
  | Timeout
  | MeasuredRtt (r : Q).

Definition cong_step (e : cong_event) : method Cong () := λ c,
  match e with
  | PacketLoss => (on_packet_loss c, Ok ())
  | DuplicateAck n => (on_duplicate_ack n c, Ok ())
  | NewAck n => on_new_ack n c
  | Timeout => (on_timeout c, Ok ())
  | MeasuredRtt r => (update_rtt r c, Ok ())
  end.

Definition event_ok (e : cong_event) : Prop :=
  match e with NewAck n => 0 <= n | _ => True end.

Lemma rto_min_bounds (q : Q) : (0 < q → 0 < Qmin q 120 <= 120)%Q.
Proof.
  intros H. split; [|apply Q.le_min_r]. by apply Q.min_glb_lt.
Qed.

Lemma rto_max_pos (q : Q) : (0 < Qmax q (2 # 10))%Q.
Proof. eapply Qlt_le_trans; [|apply Q.le_max_r]. reflexivity. Qed.

Lemma cap_window_ok c : cong_ok c → cong_ok (cap_window c) ∧ snd_cwnd (cap_window c) <= max_cwnd.
Proof.
  intros (H1 & H2 & H3 & H4). unfold cong_ok, cap_window, max_cwnd. cbn. repeat split; try lia; apply H4.
Qed.

Lemma cong_step_ok e c :
  cong_ok c → event_ok e → (cong_step e c).2 = Ok () ∧ cong_ok (cong_step e c).1.
Proof.
  intros Hc He. pose proof Hc as (Hw & Hs & Hm & Hr). destruct e as [|n|n| |r]; cbn [cong_step].
  - split; [done|]. unfold cong_ok, on_packet_loss, min_cwnd. cbn. split; [lia|].
    split; [lia|]. done.
  - split; [done|]. unfold on_duplicate_ack, min_cwnd. cbn [fst].
    destruct (3 <=? n); [|done]. destruct (congestion_state c); unfold cong_ok; cbn;
      repeat split; try lia; apply Hr.
  - unfold on_new_ack. simpl in He. destruct (congestion_state c).
    + split; [done|]. apply cap_window_ok. unfold cong_ok. cbn. repeat split; try lia; apply Hr.
    + if_false. split; [done|]. apply cap_window_ok. unfold cong_ok. cbn.
      assert (0 <= mss c * mss c / (2 * snd_cwnd c)) by (apply Z.div_pos; nia).
      repeat split; try lia; apply Hr.
    + split; [done|]. apply cap_window_ok. unfold cong_ok. cbn. repeat split; try lia; apply Hr.
  - split; [done|]. unfold cong_ok, on_timeout, min_cwnd. cbn.
    split; [lia|]. split; [lia|]. split; [lia|]. apply rto_min_bounds. lra.
  - split; [done|]. unfold update_rtt. destruct (Qle_bool r 0); [done|].
    destruct (Qeq_bool (srtt c) 0); unfold cong_ok; cbn;
      (split; [lia|split; [lia|split; [lia|apply rto_min_bounds, rto_max_pos]]]).
Qed.

Definition cong_run (l : list cong_event) (c : Cong) : Cong := foldl (λ c e, (cong_step e c).1) c l.

Lemma cong_run_ok l c : cong_ok c → Forall event_ok l → cong_ok (cong_run l c).
Proof.
  intros Hc Hl. revert c Hc. induction Hl as [|e l He Hl IH]; intros c Hc; [done|].
  apply IH. by apply cong_step_ok.
Qed.

(** * Properties *)

(** From a fresh connection, no sequence of congestion events (losses,
    duplicate and new acknowledgements, timeouts, measurements) makes a handler
    raise; the window stays positive, the threshold at least two segments and the
    retransmission timeout within (0, 120]; and every new acknowledgement
    leaves a window of at most 131070. *)
Theorem congestion_invariant l e :
  Forall event_ok l → event_ok e →
  let c := cong_run l cong_default in
  let '(c', r) := cong_step e c in
  r = Ok () ∧ 1 <= snd_cwnd c' ∧ 2 <= snd_ssthresh c' ∧ (0 < rto c' <= 120)%Q ∧
  (match e with NewAck _ => snd_cwnd c' <= 131070 | _ => True end).
Proof.
  intros Hl He c.
  assert (cong_ok c) as Hc.
  { apply cong_run_ok; [|done]. unfold cong_ok. cbn. repeat split; try lia; by compute. }
  destruct (cong_step_ok e c Hc He) as (Hr & Hw & Hs & Hm & Ho).
  destruct (cong_step e c) as [c' r] eqn:E. cbn [fst snd] in *.
  split; [done|]. split; [done|]. split; [done|]. split; [done|].
  destruct e as [| |n| |]; try done. cbn [cong_step] in E. unfold on_new_ack in E.
  destruct (congestion_state c).
  - injection E as <- _. cbn. unfold max_cwnd. lia.
  - destruct (_ =? 0); injection E as <- <-; [done|]. cbn. unfold max_cwnd. lia.
  - injection E as <- _. cbn. unfold max_cwnd. lia.
Qed.

Lemma congestion_invariant_witness :
  let c := cong_run [NewAck 1; DuplicateAck 3; Timeout] cong_default in
  (cong_step (NewAck 1) c).2 = Ok ().
Proof.
  pose proof (congestion_invariant [NewAck 1; DuplicateAck 3; Timeout] (NewAck 1)
    ltac:(repeat constructor; simpl; lia) ltac:(simpl; lia)) as H.
  cbv zeta in H |- *.
  destruct (cong_step (NewAck 1) (cong_run [NewAck 1; DuplicateAck 3; Timeout] cong_default))
    as [c' r]. exact (proj1 H).
Defined.
