(* ===== verification/Tcp.v ===== *)
(** TCP connections: network/src/protocol/tcp.py, [TCPConnection] and [TCPProtocol].

    The protocol's dictionaries are finite maps keyed by the connection
    identifier. The congestion controllers hold no state besides their connection,
    so the model keeps the set of identifiers that have one. A listener callback is
    client code that may change the connection it is given: [listener_cb] is that
    change. The data callbacks are observed: [process_packet] returns the payloads
    it hands to them. Random numbers are arguments. *)

From Stdlib Require Import QArith.
From S2P Require Import Prelude Bytes TcpPacket TcpCongestion.
Open Scope Z_scope.

Inductive TCPState :=
  | CLOSED | LISTEN | SYN_SENT | SYN_RECEIVED | ESTABLISHED | FIN_WAIT_1 | FIN_WAIT_2
  | CLOSE_WAIT | CLOSING | LAST_ACK | TIME_WAIT.

#[export] Instance TCPState_eq_dec : EqDecision TCPState.
Proof. solve_decision. Defined.

Definition addr : Type := string * Z.

(** The decimal text of a port, [f"{port}"]. *)
Fixpoint dec_loop (fuel : nat) (n : Z) (acc : list Ascii.ascii) : list Ascii.ascii :=
  match fuel with
  | O => acc
  | S fuel' =>
      let acc' := Ascii.ascii_of_nat (48 + Z.to_nat (n mod 10)) :: acc in
      if n / 10 =? 0 then acc' else dec_loop fuel' (n / 10) acc'
  end.
Definition port_text (n : Z) : string :=
  String.string_of_list_ascii (dec_loop (S (Z.to_nat (Z.log2 n))) n []).

Definition conn_id_of (local remote : addr) : string :=
  String.append local.1 (String.append ":" (String.append (port_text local.2)
    (String.append "-" (String.append remote.1 (String.append ":" (port_text remote.2)))))).

Module TCPConnection.
(** The fields that the protocol reads or writes; the congestion fields are a
    record of their own. *)
Record t := {
  local_addr : addr;
  remote_addr : addr;
  state : TCPState;
  send_next : Z;
  send_window : Z;
  iss : Z;
  rcv_next : Z;
  irs : Z;
  cong : Cong;
  out_of_order_queue : gmap Z TCPPacket.t;
  bytes_sent : Z;
  bytes_received : Z;
  packets_sent : Z;
  packets_received : Z;
}.

Definition make (local remote : addr) (st : TCPState) (iss_ send_next_ irs_ rcv_next_ : Z) : t :=
  {| local_addr := local; remote_addr := remote; state := st; send_next := send_next_;
     send_window := 65535; iss := iss_; rcv_next := rcv_next_; irs := irs_;
     cong := cong_default; out_of_order_queue := ∅; bytes_sent := 0; bytes_received := 0;
     packets_sent := 0; packets_received := 0 |}.

Definition connection_id (c : t) : string := conn_id_of (local_addr c) (remote_addr c).
Definition is_established (c : t) : bool := bool_decide (state c = ESTABLISHED).
Definition is_closing (c : t) : bool :=
  bool_decide (state c ∈ [FIN_WAIT_1; FIN_WAIT_2; CLOSE_WAIT; CLOSING; LAST_ACK; TIME_WAIT]).
Definition is_closed (c : t) : bool := bool_decide (state c = CLOSED).

(** [conn.state = st]. *)
Definition set_state (st : TCPState) (c : t) : t :=
  {| local_addr := local_addr c; remote_addr := remote_addr c; state := st;
     send_next := send_next c; send_window := send_window c; iss := iss c;
     rcv_next := rcv_next c; irs := irs c; cong := cong c;
     out_of_order_queue := out_of_order_queue c; bytes_sent := bytes_sent c;
     bytes_received := bytes_received c; packets_sent := packets_sent c;
     packets_received := packets_received c |}.

(** The acknowledgement branch of [process_packet]: the peer's window and
    the congestion fields. *)
Definition set_ack (win : Z) (cg : Cong) (c : t) : t :=
  {| local_addr := local_addr c; remote_addr := remote_addr c; state := state c;
     send_next := send_next c; send_window := win; iss := iss c;
     rcv_next := rcv_next c; irs := irs c; cong := cg;
     out_of_order_queue := out_of_order_queue c; bytes_sent := bytes_sent c;
     bytes_received := bytes_received c; packets_sent := packets_sent c;
     packets_received := packets_received c |}.

(** One segment of [n] bytes sent. *)
Definition count_sent (n : Z) (c : t) : t :=
  {| local_addr := local_addr c; remote_addr := remote_addr c; state := state c;
     send_next := send_next c + n; send_window := send_window c; iss := iss c;
     rcv_next := rcv_next c; irs := irs c; cong := cong c;
     out_of_order_queue := out_of_order_queue c; bytes_sent := bytes_sent c + n;
     bytes_received := bytes_received c; packets_sent := packets_sent c + 1;
     packets_received := packets_received c |}.

(** One segment of [n] bytes counted as received. *)
Definition count_received (n : Z) (c : t) : t :=
  {| local_addr := local_addr c; remote_addr := remote_addr c; state := state c;
     send_next := send_next c; send_window := send_window c; iss := iss c;
     rcv_next := rcv_next c; irs := irs c; cong := cong c;
     out_of_order_queue := out_of_order_queue c; bytes_sent := bytes_sent c;
     bytes_received := bytes_received c + n; packets_sent := packets_sent c;
     packets_received := packets_received c + 1 |}.

(** [conn.rcv_next += n], and the queue. *)
Definition set_receive (n : Z) (q : gmap Z TCPPacket.t) (c : t) : t :=
  {| local_addr := local_addr c; remote_addr := remote_addr c; state := state c;
     send_next := send_next c; send_window := send_window c; iss := iss c;
     rcv_next := rcv_next c + n; irs := irs c; cong := cong c;
     out_of_order_queue := q; bytes_sent := bytes_sent c;
     bytes_received := bytes_received c; packets_sent := packets_sent c;
     packets_received := packets_received c |}.
End TCPConnection.

Module TCPProtocol.
Section TCPProtocol.
(** What the listener with this name does to a new connection. *)
Variable listener_cb : Z → TCPConnection.t → TCPConnection.t.

Record t := {
  connections : gmap string TCPConnection.t;
  listeners : gmap Z Z;
  congestion_controls : gset string;
  retransmission_managers : gmap string RetransmissionManager.t;
  data_callbacks : gmap string Z;
  close_callbacks : gmap string Z;
  max_connections : Z;
  is_running : bool;
  sequence_number : Z;
}.

Definition init_protocol (seq : Z) : t :=
  {| connections := ∅; listeners := ∅; congestion_controls := ∅;
     retransmission_managers := ∅; data_callbacks := ∅; close_callbacks := ∅;
     max_connections := 1000; is_running := false; sequence_number := seq |}.

Definition set_connections (s : t) (x : gmap string TCPConnection.t) : t :=
  {| connections := x; listeners := listeners s; congestion_controls := congestion_controls s;
     retransmission_managers := retransmission_managers s; data_callbacks := data_callbacks s;
     close_callbacks := close_callbacks s; max_connections := max_connections s;
     is_running := is_running s; sequence_number := sequence_number s |}.
Definition set_listeners (s : t) (x : gmap Z Z) : t :=
  {| connections := connections s; listeners := x; congestion_controls := congestion_controls s;
     retransmission_managers := retransmission_managers s; data_callbacks := data_callbacks s;
     close_callbacks := close_callbacks s; max_connections := max_connections s;
     is_running := is_running s; sequence_number := sequence_number s |}.
Definition set_managers (s : t) (x : gmap string RetransmissionManager.t) : t :=
  {| connections := connections s; listeners := listeners s;
     congestion_controls := congestion_controls s;
     retransmission_managers := x; data_callbacks := data_callbacks s;
     close_callbacks := close_callbacks s; max_connections := max_connections s;
     is_running := is_running s; sequence_number := sequence_number s |}.
Definition set_sequence (s : t) (x : Z) : t :=
  {| connections := connections s; listeners := listeners s;
     congestion_controls := congestion_controls s;
     retransmission_managers := retransmission_managers s; data_callbacks := data_callbacks s;
     close_callbacks := close_callbacks s; max_connections := max_connections s;
     is_running := is_running s; sequence_number := x |}.
Definition set_callbacks (s : t) (data close : gmap string Z) : t :=
  {| connections := connections s; listeners := listeners s;
     congestion_controls := congestion_controls s;
     retransmission_managers := retransmission_managers s; data_callbacks := data;
     close_callbacks := close; max_connections := max_connections s;
     is_running := is_running s; sequence_number := sequence_number s |}.

(** The three insertions for a new connection. *)
Definition register (id : string) (c : TCPConnection.t) (s : t) : t :=
  {| connections := <[id := c]> (connections s); listeners := listeners s;
     congestion_controls := {[id]} ∪ congestion_controls s;
     retransmission_managers :=
       <[id := RetransmissionManager.init_manager 1]> (retransmission_managers s);
     data_callbacks := data_callbacks s; close_callbacks := close_callbacks s;
     max_connections := max_connections s; is_running := is_running s;
     sequence_number := sequence_number s |}.

(** A change of the connection object stored under [id]. *)
Definition on_conn (id : string) (f : TCPConnection.t → TCPConnection.t) (s : t) : t :=
  set_connections s (alter f id (connections s)).

(** [r] is [random.randint(1, 1000)]. *)
Definition next_sequence_number (r : Z) : method t Z := λ s,
  (set_sequence s ((sequence_number s + r) mod 2 ^ 32), Ok (sequence_number s)).

Definition create_connection (r1 r2 : Z) (local remote : addr) : method t TCPConnection.t :=
  let! s := m_get in
  if max_connections s <=? Z.of_nat (size (connections s)) then m_raise ConnectionError
  else
    let! iss := next_sequence_number r1 in
    let! send_next := next_sequence_number r2 in
    let conn := TCPConnection.make local remote SYN_SENT iss send_next 0 0 in
    let! s := m_get in
    let! _ := m_put (register (TCPConnection.connection_id conn) conn s) in
    m_ret conn.

Definition listen (port callback : Z) (s : t) : t :=
  set_listeners s (<[port := callback]> (listeners s)).

Definition unlisten (port : Z) : method t bool := λ s,
  match listeners s !! port with
  | Some _ => (set_listeners s (delete port (listeners s)), Ok true)
  | None => (s, Ok false)
  end.

(** [connect] creates the connection and then passes [TCPPacket] an argument it
    does not have. *)
Definition connect (r1 r2 ephemeral : Z) (host : string) (port : Z) : method t () :=
  let! conn := create_connection r1 r2 ("0.0.0.0"%string, ephemeral) (host, port) in
  m_raise TypeError.

Definition cleanup_connection (id : string) (s : t) : t :=
  {| connections := delete id (connections s); listeners := listeners s;
     congestion_controls := congestion_controls s ∖ {[id]};
     retransmission_managers := delete id (retransmission_managers s);
     data_callbacks := delete id (data_callbacks s);
     close_callbacks := delete id (close_callbacks s);
     max_connections := max_connections s; is_running := is_running s;
     sequence_number := sequence_number s |}.

(** The result says whether a connection was closed, and which close callback
    is then awaited. *)
Definition close_connection (id : string) (s : t) : t * (bool * option Z) :=
  match connections s !! id with
  | None => (s, (false, None))
  | Some _ =>
      let s := on_conn id (TCPConnection.set_state CLOSED) s in
      let s := cleanup_connection id s in
      (s, (true, close_callbacks s !! id))
  end.

Definition set_running (s : t) (b : bool) : t :=
  {| connections := connections s; listeners := listeners s;
     congestion_controls := congestion_controls s;
     retransmission_managers := retransmission_managers s; data_callbacks := data_callbacks s;
     close_callbacks := close_callbacks s; max_connections := max_connections s;
     is_running := b; sequence_number := sequence_number s |}.

Definition start (s : t) : t := set_running s true.

(** [stop] closes every connection of the table. *)
Definition stop (s : t) : t :=
  foldl (λ s id, (close_connection id s).1) (set_running s false) (map_to_list (connections s)).*1.

Definition active_connections (s : t) : Z :=
  len (filter (λ c, TCPConnection.is_established c = true) (map_to_list (connections s)).*2).
Definition total_connections (s : t) : Z := Z.of_nat (size (connections s)).

(** ** Sending *)

(** The loop of [send_data]; [None] when it does not end. *)
Fixpoint send_loop (fuel : nat) (now : Z) (id : string) (data : bytes) (sent : Z) (s : t) :
    option (t * list TCPPacket.t) :=
  if len data <=? sent then Some (s, [])
  else match fuel with
  | O => None
  | S fuel' =>
      match connections s !! id with
      | None => None
      | Some conn =>
          let chunk := py_slice data sent (sent + mss (TCPConnection.cong conn)) in
          let packet := TCPPacket.make now (TCPConnection.local_addr conn).2
            (TCPConnection.remote_addr conn).2 (TCPConnection.send_next conn)
            (TCPConnection.rcv_next conn) (Z.lor ACK PSH) chunk in
          let s := on_conn id (TCPConnection.count_sent (len chunk)) s in
          let s := set_managers s
            (alter (RetransmissionManager.add_packet now packet) id
               (retransmission_managers s)) in
          r ← send_loop fuel' now id data (sent + len chunk) s;
          Some (r.1, packet :: r.2)
      end
  end.

Definition established (id : string) (s : t) : bool :=
  match connections s !! id with
  | Some c => TCPConnection.is_established c
  | None => false
  end.

(** The bytes sent and the segments built; [None] when the loop does not end. *)
Definition send_data (now : Z) (id : string) (data : bytes) (s : t) :
    option (t * res (Z * list TCPPacket.t)) :=
  if negb (established id s) then Some (s, Err ConnectionError)
  else
    r ← send_loop (length data) now id data 0 s;
    Some (r.1, Ok (len data, r.2)).

(** ** Receiving *)

(** The smallest key of the out-of-order queue. *)
Definition min_key (q : gmap Z TCPPacket.t) : option Z :=
  foldr (λ kv acc, match acc with Some m => Some (Z.min kv.1 m) | None => Some kv.1 end)
    None (map_to_list q).

(** One round of the polling loop of [receive_data]: the data returned, or
    [None] when the loop sleeps and tries again. *)
Definition receive_poll (buffer_size : Z) (c : TCPConnection.t) :
    TCPConnection.t * option bytes :=
  match min_key (TCPConnection.out_of_order_queue c) with
  | None => (c, None)
  | Some seq =>
      if negb (seq =? TCPConnection.rcv_next c) then (c, None)
      else match TCPConnection.out_of_order_queue c !! seq with
      | None => (c, None)
      | Some p =>
          let n := len (TCPPacket.payload p) in
          let c := TCPConnection.set_receive n
            (delete seq (TCPConnection.out_of_order_queue c)) c in
          (TCPConnection.count_received n c, Some (py_slice (TCPPacket.payload p) 0 buffer_size))
      end
  end.

(** One round of [receive_data] on the protocol. *)
Definition receive_data (id : string) (buffer_size : Z) : method t (option bytes) := λ s,
  match connections s !! id with
  | Some c =>
      if TCPConnection.is_established c then
        let '(c', r) := receive_poll buffer_size c in
        (set_connections s (<[id := c']> (connections s)), Ok r)
      else (s, Err ConnectionError)
  | None => (s, Err ConnectionError)
  end.

Definition on_data (id : string) (callback : Z) (s : t) : t :=
  set_callbacks s (<[id := callback]> (data_callbacks s)) (close_callbacks s).
Definition on_close (id : string) (callback : Z) (s : t) : t :=
  set_callbacks s (data_callbacks s) (<[id := callback]> (close_callbacks s)).

(** The acknowledgement branch: window, retransmission queue, congestion. *)
Definition process_ack (id : string) (p : TCPPacket.t) (c : TCPConnection.t) (s : t) :
    t * TCPConnection.t * res () :=
  let s := set_managers s
    (alter (λ m, (RetransmissionManager.ack_received (TCPPacket.acknowledgment_number p) m).1)
       id (retransmission_managers s)) in
  if bool_decide (id ∈ congestion_controls s) then
    let '(cg, r) := CongestionControl.on_new_ack 1 (TCPConnection.cong c) in
    (s, TCPConnection.set_ack (TCPPacket.window_size p) cg c, r)
  else (s, TCPConnection.set_ack (TCPPacket.window_size p) (TCPConnection.cong c) c, Ok ()).

(** The data branch: the connection and the payload accepted in order. *)
Definition process_payload (p : TCPPacket.t) (c : TCPConnection.t) :
    TCPConnection.t * option bytes :=
  let n := len (TCPPacket.payload p) in
  if n =? 0 then (c, None)
  else if TCPPacket.sequence_number p =? TCPConnection.rcv_next c then
    (TCPConnection.set_receive n (TCPConnection.out_of_order_queue c) c,
     Some (TCPPacket.payload p))
  else
    (TCPConnection.set_receive 0
       (<[TCPPacket.sequence_number p := p]> (TCPConnection.out_of_order_queue c)) c, None).

(** The part of [process_packet] after the connection is found or made; the
    result is the payload handed to the data callback, when there is one. *)
Definition process_on (id : string) (p : TCPPacket.t) (c : TCPConnection.t) :
    method t (option bytes) := λ s,
  let c := TCPConnection.count_received (len (TCPPacket.payload p)) c in
  let '(s, c, r) :=
    if TCPPacket.is_ack p && TCPConnection.is_established c
    then process_ack id p c s else (s, c, Ok ()) in
  match r with
  | Err e => (set_connections s (<[id := c]> (connections s)), Err e)
  | Ok _ =>
      let '(c, delivered) := process_payload p c in
      (set_connections s (<[id := c]> (connections s)),
       Ok match data_callbacks s !! id with Some _ => delivered | None => None end)
  end.

Definition process_packet (p : TCPPacket.t) (src_ip dst_ip : string) :
    method t (option bytes) := λ s,
  let local := (dst_ip, TCPPacket.dst_port p) in
  let remote := (src_ip, TCPPacket.src_port p) in
  let id := conn_id_of local remote in
  match connections s !! id with
  | Some c => process_on id p c s
  | None =>
      match listeners s !! TCPPacket.dst_port p with
      | Some callback =>
          if TCPPacket.is_syn p then
            let c := TCPConnection.make local remote SYN_RECEIVED 0 0
              (TCPPacket.sequence_number p) (TCPPacket.sequence_number p + 1) in
            let s := register id c s in
            process_on id p (listener_cb callback c) s
          else (s, Ok None)
      | None => (s, Ok None)
      end
  end.

Definition get_connections_by_state (st : TCPState) (s : t) : list TCPConnection.t :=
  filter (λ c, TCPConnection.state c = st) (map_to_list (connections s)).*2.
End TCPProtocol.
End TCPProtocol.

(** * Lemmas: one step on a connection *)

Import TCPConnection TCPProtocol.

(** [process_ack] touches neither the receive side of the connection nor the
    maps other than the retransmission managers. *)
Lemma process_ack_frame id p c s :
  let '(s', c', r) := process_ack id p c s in
  connections s' = connections s ∧ data_callbacks s' = data_callbacks s ∧
  listeners s' = listeners s ∧
  rcv_next c' = rcv_next c ∧ out_of_order_queue c' = out_of_order_queue c ∧ state c' = state c.
Proof.
  unfold process_ack. destruct (bool_decide _); [|done].
  by destruct (CongestionControl.on_new_ack 1 (cong c)).
Qed.

(** What [process_on] does to the connection and what it delivers. *)
Lemma process_on_spec id p c s :
  ∃ c1 s1 (r : res (option bytes)), process_on id p c s =
    (set_connections s1 (<[id := c1]> (connections s1)), r) ∧
    connections s1 = connections s ∧ data_callbacks s1 = data_callbacks s ∧
    listeners s1 = listeners s ∧ state c1 = state c ∧
    ((∃ e, r = Err e ∧ rcv_next c1 = rcv_next c ∧
           out_of_order_queue c1 = out_of_order_queue c) ∨
     (∃ c0 d, rcv_next c0 = rcv_next c ∧ out_of_order_queue c0 = out_of_order_queue c ∧
              process_payload p c0 = (c1, d) ∧
              r = Ok match data_callbacks s !! id with Some _ => d | None => None end)).
Proof.
  set (c0 := count_received (len (TCPPacket.payload p)) c).
  set (x := if TCPPacket.is_ack p && is_established c0 then process_ack id p c0 s else (s, c0, Ok ())).
  unfold process_on. fold c0. fold x.
  assert (let '(s', c', r) := x in
          connections s' = connections s ∧ data_callbacks s' = data_callbacks s ∧
          listeners s' = listeners s ∧
          rcv_next c' = rcv_next c ∧ out_of_order_queue c' = out_of_order_queue c ∧
          state c' = state c) as Hx.
  { unfold x. destruct (_ && _); [|done]. exact (process_ack_frame id p c0 s). }
  destruct x as [[s' c'] r]. destruct Hx as (H1 & H2 & H3 & H4 & H5 & H6).
  destruct r as [[]|e].
  - destruct (process_payload p c') as [c1 d] eqn:E. exists c1, s'. eexists.
    split; [done|]. do 3 (split; [done|]). split.
    { revert E. unfold process_payload. case_ifs; intros [= <- <-]; exact H6. }
    right. exists c', d. rewrite H2. done.
  - exists c', s'. eexists. split; [done|]. do 4 (split; [done|]). left. eauto.
Qed.

(** ** The byte stream of a connection *)

Section stream.
(** The peer's byte at each sequence number. *)
Variable stream : Z → Z.

Definition segment (a n : Z) : bytes := stream <$> seqZ a n.

Lemma segment_app a n m : 0 <= n → 0 <= m → segment a n ++ segment (a + n) m = segment a (n + m).
Proof. intros. unfold segment. rewrite <-fmap_app. f_equal. by rewrite seqZ_app by lia. Qed.

Lemma segment_0 a : segment a 0 = [].
Proof. done. Qed.

(** The segments the peer may send: slices of its stream, at most [B] long. *)
Definition consistent (B : Z) (p : TCPPacket.t) : Prop :=
  TCPPacket.payload p = segment (TCPPacket.sequence_number p) (len (TCPPacket.payload p)) ∧
  len (TCPPacket.payload p) <= B.

Definition queue_ok (B : Z) (q : gmap Z TCPPacket.t) : Prop :=
  ∀ k p, q !! k = Some p → TCPPacket.sequence_number p = k ∧ consistent B p.

Lemma process_payload_stream B p c :
  consistent B p → queue_ok B (out_of_order_queue c) →
  let '(c', d) := process_payload p c in
  queue_ok B (out_of_order_queue c') ∧ rcv_next c <= rcv_next c' ∧
  default [] d = segment (rcv_next c) (rcv_next c' - rcv_next c).
Proof.
  intros Hp Hq. unfold process_payload.
  destruct (_ =? 0) eqn:E0; [by rewrite Z.sub_diag|].
  destruct (_ =? rcv_next c) eqn:E; cbn [set_receive out_of_order_queue rcv_next default].
  - split; [done|]. split; [lia|]. destruct Hp as [Hp _]. etransitivity; [exact Hp|].
    f_equal; lia.
  - split; [|split; [lia|by rewrite Z.add_0_r, Z.sub_diag]].
    intros k p'. destruct (decide (k = TCPPacket.sequence_number p)) as [->|].
    + rewrite lookup_insert_eq. intros [= <-]. done.
    + rewrite lookup_insert_ne by done. apply Hq.
Qed.

Lemma receive_poll_stream B bs c :
  B <= bs → queue_ok B (out_of_order_queue c) →
  let '(c', d) := receive_poll bs c in
  queue_ok B (out_of_order_queue c') ∧ rcv_next c <= rcv_next c' ∧
  default [] d = segment (rcv_next c) (rcv_next c' - rcv_next c).
Proof.
  intros HB Hq. unfold receive_poll.
  destruct (min_key _) as [k|]; [|by rewrite Z.sub_diag].
  destruct (negb _) eqn:E; [by rewrite Z.sub_diag|].
  destruct (out_of_order_queue c !! k) as [p|] eqn:Ek; [|by rewrite Z.sub_diag].
  destruct (Hq k p Ek) as [Hs [Hp Hl]]. cbn [count_received set_receive out_of_order_queue rcv_next default].
  split; [|split; [lia|]].
  - intros k' p'. intros H. apply lookup_delete_Some in H as [_ H]. by apply Hq.
  - rewrite py_slice_clamp by lia. rewrite drop_0. etransitivity; [exact Hp|]. f_equal; lia.
Qed.

(** What happens to one connection: a segment for it arrives, or the
    application polls for data with some buffer size. *)
Inductive conn_action :=
  | Arrive (p : TCPPacket.t) (src_ip dst_ip : string)
  | Poll (buffer_size : Z).

Definition action_for (B : Z) (id : string) (a : conn_action) : Prop :=
  match a with
  | Arrive p src dst =>
      conn_id_of (dst, TCPPacket.dst_port p) (src, TCPPacket.src_port p) = id ∧ consistent B p
  | Poll bs => B <= bs
  end.

Variable cb : Z → TCPConnection.t → TCPConnection.t.

(** The data an action hands to the application: to the callback or as a result. *)
Definition run_action (id : string) (a : conn_action) (s : TCPProtocol.t) : TCPProtocol.t * bytes :=
  let '(s', r) := match a with
                  | Arrive p src dst => process_packet cb p src dst s
                  | Poll bs => receive_data id bs s
                  end in
  (s', match r with Ok (Some d) => d | _ => [] end).

Fixpoint run_actions (id : string) (l : list conn_action) (s : TCPProtocol.t) :
    TCPProtocol.t * bytes :=
  match l with
  | [] => (s, [])
  | a :: l' =>
      let '(s1, d1) := run_action id a s in
      let '(s2, d2) := run_actions id l' s1 in (s2, d1 ++ d2)
  end.

Lemma run_action_stream B id a s c :
  action_for B id a → connections s !! id = Some c → is_Some (data_callbacks s !! id) →
  queue_ok B (out_of_order_queue c) →
  let '(s', d) := run_action id a s in
  ∃ c', connections s' !! id = Some c' ∧ is_Some (data_callbacks s' !! id) ∧
    queue_ok B (out_of_order_queue c') ∧ rcv_next c <= rcv_next c' ∧
    d = segment (rcv_next c) (rcv_next c' - rcv_next c).
Proof.
  intros Ha Hc [k Hk] Hq. destruct a as [p src dst|bs]; cbn [action_for run_action] in *.
  - destruct Ha as [Hid Hp]. unfold run_action, process_packet. rewrite Hid, Hc.
    destruct (process_on_spec id p c s) as (c1 & s1 & r & -> & E1 & E2 & E3 & E4 & Hr).
    exists c1. cbn [set_connections connections data_callbacks].
    rewrite lookup_insert_eq, E2, Hk. split; [done|]. split; [done|].
    destruct Hr as [(e & -> & En & Eq) | (c0 & d & En & Eq & Ep & ->)].
    + rewrite En, Eq, Z.sub_diag, segment_0. split; [done|]. split; [lia|done].
    + rewrite <-Eq in Hq. pose proof (process_payload_stream B p c0 Hp Hq) as H.
      rewrite Ep in H. rewrite En in H. destruct H as (H1 & H2 & <-).
      do 2 (split; [done|]). by rewrite Hk; destruct d.
  - unfold run_action, receive_data. rewrite Hc. destruct (is_established c).
    + pose proof (receive_poll_stream B bs c Ha Hq) as H.
      destruct (receive_poll bs c) as [c' d]. exists c'.
      cbn [set_connections connections data_callbacks]. rewrite lookup_insert_eq, Hk.
      destruct H as (H1 & H2 & <-). do 4 (split; [done|]). done.
    + exists c. rewrite Hk, Z.sub_diag. split; [done|]. split; [done|]. split; [done|].
      split; [lia|done].
Qed.

Lemma run_actions_stream B id l s c :
  Forall (action_for B id) l → connections s !! id = Some c →
  is_Some (data_callbacks s !! id) → queue_ok B (out_of_order_queue c) →
  let '(s', d) := run_actions id l s in
  ∃ c', connections s' !! id = Some c' ∧ rcv_next c <= rcv_next c' ∧
    d = segment (rcv_next c) (rcv_next c' - rcv_next c).
Proof.
  intros Hl. revert s c. induction Hl as [|a l Ha Hl IH]; intros s c Hc Hk Hq.
  - exists c. rewrite Z.sub_diag. split; [done|]. split; [lia|done].
  - cbn [run_actions]. pose proof (run_action_stream B id a s c Ha Hc Hk Hq) as H.
    destruct (run_action id a s) as [s1 d1].
    destruct H as (c1 & Hc1 & Hk1 & Hq1 & Hn1 & ->). specialize (IH s1 c1 Hc1 Hk1 Hq1).
    destruct (run_actions id l s1) as [s2 d2]. destruct IH as (c2 & Hc2 & Hn2 & ->).
    exists c2. split; [done|]. split; [lia|].
    replace (rcv_next c2 - rcv_next c)
      with ((rcv_next c1 - rcv_next c) + (rcv_next c2 - rcv_next c1)) by lia.
    rewrite <-segment_app by lia. f_equal. f_equal. lia.
Qed.
End stream.

(** ** A queue entry below the expected number *)

Lemma min_key_le q k : is_Some (q !! k) → ∃ m, min_key q = Some m ∧ m <= k.
Proof.
  intros [p Hp]. apply elem_of_map_to_list in Hp. unfold min_key.
  induction (map_to_list q) as [|kv l IH]; [by apply elem_of_nil in Hp|].
  cbn [foldr]. apply elem_of_cons in Hp as [<-|Hp].
  - cbn [fst]. destruct (foldr _ None l) as [m|]; eexists; (split; [done|]); lia.
  - destruct (IH Hp) as (m & -> & Hm). eexists. split; [done|]. lia.
Qed.

Definition stale (c : TCPConnection.t) : Prop :=
  ∃ k, k < rcv_next c ∧ is_Some (out_of_order_queue c !! k).

Lemma receive_poll_stale bs c : stale c → receive_poll bs c = (c, None).
Proof.
  intros (k & Hk & Hq). unfold receive_poll.
  destruct (min_key_le _ k Hq) as (m & -> & Hm). if_true. done.
Qed.

Lemma process_payload_stale p c : stale c → stale (process_payload p c).1.
Proof.
  intros (k & Hk & Hq). unfold process_payload.
  destruct (_ =? 0); [by exists k|].
  destruct (_ =? rcv_next c); exists k; cbn [fst set_receive rcv_next out_of_order_queue].
  - split; [lia|done].
  - split; [lia|]. destruct (decide (k = TCPPacket.sequence_number p)) as [->|].
    + rewrite lookup_insert_eq. by eexists.
    + by rewrite lookup_insert_ne.
Qed.

Lemma run_action_stale cb id a s c :
  connections s !! id = Some c → stale c →
  match a with
  | Arrive p src dst => conn_id_of (dst, TCPPacket.dst_port p) (src, TCPPacket.src_port p) = id
  | Poll _ => True
  end →
  (∃ c', connections (run_action cb id a s).1 !! id = Some c' ∧ stale c') ∧
  match a with Poll bs => (receive_data id bs s).2 = Ok None ∨
                          (receive_data id bs s).2 = Err ConnectionError
             | Arrive _ _ _ => True end.
Proof.
  intros Hc Hs Ha. destruct a as [p src dst|bs].
  - split; [|done]. unfold run_action, process_packet. rewrite Ha, Hc.
    destruct (process_on_spec id p c s) as (c1 & s1 & r & -> & E1 & E2 & E3 & E4 & Hr).
    cbn [fst set_connections connections]. exists c1. split; [apply lookup_insert_eq|].
    destruct Hr as [(e & _ & En & Eq) | (c0 & d & En & Eq & Ep & _)].
    + destruct Hs as (k & Hk & Hq). exists k. by rewrite En, Eq.
    + assert (stale c0) as Hs0 by (destruct Hs as (k & Hk & Hq); exists k; by rewrite En, Eq).
      apply (process_payload_stale p) in Hs0. by rewrite Ep in Hs0.
  - unfold run_action, receive_data. rewrite Hc. destruct (is_established c).
    + rewrite receive_poll_stale by done. cbn. split; [|by left].
      exists c. split; [apply lookup_insert_eq|done].
    + split; [|by right]. by exists c.
Qed.

(** The results of the polls of a run. *)
Fixpoint poll_results (cb : Z → TCPConnection.t → TCPConnection.t) (id : string)
    (l : list conn_action) (s : TCPProtocol.t) : list (res (option bytes)) :=
  match l with
  | [] => []
  | a :: l' =>
      let rest := poll_results cb id l' (run_action cb id a s).1 in
      match a with Poll bs => (receive_data id bs s).2 :: rest | Arrive _ _ _ => rest end
  end.

(** * Properties *)

(** C1: For a connection that has a data callback and no segment waiting: when every segment that
    arrives for it is a slice of the peer's byte stream (at its sequence number, which does not
    wrap) of at most B bytes, and every call of [receive_data] asks for at least B bytes (one that
    asks for fewer loses the rest of a segment), what the connection hands to the application,
    through the callback or through [receive_data], is exactly the part of the stream between
    the old and the new expected sequence number: in order, without gap or duplicate, whatever
    segments are lost, repeated or reordered. *)
Theorem tcp_in_order_delivery stream cb B id l s c :
  Forall (action_for stream B id) l → connections s !! id = Some c →
  is_Some (data_callbacks s !! id) → out_of_order_queue c = ∅ →
  let '(s', d) := run_actions cb id l s in
  ∃ c', connections s' !! id = Some c' ∧ rcv_next c <= rcv_next c' ∧
    d = segment stream (rcv_next c) (rcv_next c' - rcv_next c).
Proof.
  intros Hl Hc Hk Hq. apply (run_actions_stream stream cb B id l s c Hl Hc Hk).
  rewrite Hq. intros k p H. by rewrite lookup_empty in H.
Qed.

Definition conn_example : TCPConnection.t :=
  TCPConnection.make ("10.0.0.1"%string, 80) ("10.0.0.2"%string, 9000) ESTABLISHED 0 0 100 101.

Definition proto_example : TCPProtocol.t :=
  on_data "10.0.0.1:80-10.0.0.2:9000" 1
    (register "10.0.0.1:80-10.0.0.2:9000" conn_example (init_protocol 0)).

Definition data_segment (seq n : Z) : TCPPacket.t :=
  TCPPacket.make 1 9000 80 seq 0 ACK (segment (λ i, i mod 256) seq n).

Lemma tcp_in_order_delivery_witness :
  ∃ s' c', run_actions (λ _ c, c) "10.0.0.1:80-10.0.0.2:9000"
    [Arrive (data_segment 104 2) "10.0.0.2" "10.0.0.1"; Poll 10;
     Arrive (data_segment 101 3) "10.0.0.2" "10.0.0.1"; Poll 10] proto_example =
    (s', segment (λ i, i mod 256) 101 (rcv_next c' - 101)).
Proof.
  match goal with |- ∃ _ _, run_actions ?cb ?id ?l ?s = _ =>
    pose proof (tcp_in_order_delivery (λ i, i mod 256) cb 10 id l s conn_example) as H;
    destruct (run_actions cb id l s) as [s' d] eqn:E end.
  destruct H as (c' & _ & _ & ->).
  - repeat constructor; vm_compute; discriminate.
  - vm_compute. reflexivity.
  - eexists. vm_compute. reflexivity.
  - reflexivity.
  - exists s', c'. reflexivity.
Defined.

(** A segment that was already received and arrives again is kept in the
    out-of-order queue, and from then on [receive_data] never returns data on that
    connection, whatever else arrives. *)
Theorem tcp_stale_segment_blocks cb id l s c :
  connections s !! id = Some c → stale c →
  Forall (λ a, match a with
               | Arrive p src dst =>
                   conn_id_of (dst, TCPPacket.dst_port p) (src, TCPPacket.src_port p) = id
               | Poll _ => True
               end) l →
  Forall (λ r, r = Ok None ∨ r = Err ConnectionError) (poll_results cb id l s).
Proof.
  intros Hc Hs Hl. revert s c Hc Hs. induction Hl as [|a l Ha Hl IH]; intros s c Hc Hs; [constructor|].
  destruct (run_action_stale cb id a s c Hc Hs Ha) as [(c' & Hc' & Hs') Hr].
  specialize (IH _ _ Hc' Hs'). destruct a; cbn [poll_results]; [done|]. by constructor.
Qed.

(** A retransmission of a delivered segment makes its connection stale. *)
Example duplicate_segment_stale :
  let s := (run_actions (λ _ c, c) "10.0.0.1:80-10.0.0.2:9000"
    [Arrive (data_segment 101 3) "10.0.0.2" "10.0.0.1";
     Arrive (data_segment 101 3) "10.0.0.2" "10.0.0.1"] proto_example).1 in
  (λ c, (rcv_next c, bool_decide (is_Some (out_of_order_queue c !! 101))))
    <$> connections s !! "10.0.0.1:80-10.0.0.2:9000"%string = Some (104, true).
Proof. vm_compute. reflexivity. Qed.

Definition stale_example : TCPProtocol.t :=
  (run_actions (λ _ c, c) "10.0.0.1:80-10.0.0.2:9000"
    [Arrive (data_segment 101 3) "10.0.0.2" "10.0.0.1";
     Arrive (data_segment 101 3) "10.0.0.2" "10.0.0.1"] proto_example).1.

Lemma tcp_stale_segment_blocks_witness :
  Forall (λ r, r = Ok None ∨ r = Err ConnectionError)
    (poll_results (λ _ c, c) "10.0.0.1:80-10.0.0.2:9000"
       [Arrive (data_segment 104 3) "10.0.0.2" "10.0.0.1"; Poll 10] stale_example).
Proof.
  destruct (connections stale_example !! "10.0.0.1:80-10.0.0.2:9000"%string) as [c|] eqn:E;
    [|vm_compute in E; discriminate].
  apply (tcp_stale_segment_blocks _ _ _ _ c E).
  - vm_compute in E. injection E as <-. exists 101. split; [vm_compute; reflexivity|].
    eexists. vm_compute. reflexivity.
  - repeat constructor.
Defined.
