(* ===== verification/TcpSend.v ===== *)
(** Sending on TCP connections, and which connections can be used at all:
    properties of [TCPProtocol] of network/src/protocol/tcp.py, over the
    definitions of the file Tcp. *)

From S2P Require Import Prelude Bytes TcpPacket TcpCongestion Tcp.
Import TCPConnection TCPProtocol.

(** * The states connections reach *)

(** The calls a program makes on the protocol, and the packets it is given. *)
Inductive tcp_op :=
  | OpCreate (r1 r2 : Z) (local remote : addr)
  | OpConnect (r1 r2 ephemeral : Z) (host : string) (port : Z)
  | OpListen (port callback : Z)
  | OpUnlisten (port : Z)
  | OpClose (id : string)
  | OpSend (now : Z) (id : string) (data : bytes)
  | OpReceive (id : string) (buffer_size : Z)
  | OpOnData (id : string) (callback : Z)
  | OpOnClose (id : string) (callback : Z)
  | OpPacket (p : TCPPacket.t) (src_ip dst_ip : string)
  | OpStart
  | OpStop.

Section reach.
Variable cb : Z → TCPConnection.t → TCPConnection.t.

Definition tcp_step (s : TCPProtocol.t) (o : tcp_op) : TCPProtocol.t :=
  match o with
  | OpCreate r1 r2 l r => (create_connection r1 r2 l r s).1
  | OpConnect r1 r2 e h p => (connect r1 r2 e h p s).1
  | OpListen p k => listen p k s
  | OpUnlisten p => (unlisten p s).1
  | OpClose id => (close_connection id s).1
  | OpSend now id data => match send_data now id data s with Some (s', _) => s' | None => s end
  | OpReceive id bs => (receive_data id bs s).1
  | OpOnData id k => on_data id k s
  | OpOnClose id k => on_close id k s
  | OpPacket p src dst => (process_packet cb p src dst s).1
  | OpStart => start s
  | OpStop => stop s
  end.

Definition none_established (s : TCPProtocol.t) : Prop :=
  ∀ id c, connections s !! id = Some c → state c ≠ ESTABLISHED.

Lemma none_established_insert s s' id c :
  none_established s → connections s' = <[id := c]> (connections s) →
  state c ≠ ESTABLISHED → none_established s'.
Proof.
  intros H E Hc id' c'. rewrite E. intros [[-> <-]|[_ H']]%lookup_insert_Some; [done|].
  by eapply H.
Qed.

Lemma not_established id s : none_established s → established id s = false.
Proof.
  intros H. unfold established. destruct (connections s !! id) as [c|] eqn:E; [|done].
  unfold is_established. rewrite bool_decide_false; [done|]. by eapply H.
Qed.

Lemma create_connection_established r1 r2 l r s :
  none_established s → none_established (create_connection r1 r2 l r s).1.
Proof.
  intros H. unfold create_connection, m_bind, m_get.
  destruct (_ <=? _); [done|]. cbn.
  by eapply none_established_insert; [exact H|reflexivity|].
Qed.

Lemma process_on_established id p c s :
  none_established s → state c ≠ ESTABLISHED → none_established (process_on id p c s).1.
Proof.
  intros H Hc.
  destruct (process_on_spec id p c s) as (c1 & s1 & r & -> & E1 & _ & _ & E4 & _).
  eapply none_established_insert; [exact H| |by rewrite E4]. cbn. by rewrite E1.
Qed.

Lemma close_connection_established id s :
  none_established s → none_established (close_connection id s).1.
Proof.
  intros H. unfold close_connection. destruct (connections s !! id) eqn:E; [|done]. cbn [fst].
  intros id' c'. cbn. intros [Hne H']%lookup_delete_Some. rewrite lookup_alter_ne in H' by done.
  by eapply H.
Qed.

(** The client's listener does not establish the connection by itself. *)
Hypothesis cb_state : ∀ k c, state c = SYN_RECEIVED → state (cb k c) ≠ ESTABLISHED.

Lemma tcp_step_established s o : none_established s → none_established (tcp_step s o).
Proof.
  intros H. destruct o; cbn [tcp_step].
  - by apply create_connection_established.
  - unfold connect. pose proof (create_connection_established r1 r2 ("0.0.0.0"%string, ephemeral)
      (host, port) s H) as Hc. unfold m_bind at 1.
    destruct (create_connection _ _ _ _ s) as [s' [c|e]]; exact Hc.
  - exact H.
  - unfold unlisten. by destruct (listeners s !! port).
  - by apply close_connection_established.
  - unfold send_data. by rewrite not_established.
  - unfold receive_data. destruct (connections s !! id) as [c|] eqn:E; [|done].
    unfold is_established. by rewrite bool_decide_false by (by eapply H).
  - exact H.
  - exact H.
  - unfold process_packet. destruct (connections s !! _) as [c|] eqn:E.
    + apply process_on_established; [done|]. by eapply H.
    + destruct (listeners s !! _) as [k|]; [|done]. destruct (TCPPacket.is_syn p); [|done].
      apply process_on_established; [|by apply cb_state].
      by eapply none_established_insert; [exact H|reflexivity|].
  - exact H.
  - unfold stop. assert (none_established (set_running s false)) as H' by exact H.
    revert H'. generalize (set_running s false). generalize ((map_to_list (connections s)).*1).
    intros l. induction l as [|id l IH]; intros s' H'; [done|].
    by apply IH, close_connection_established.
Qed.
End reach.

Lemma tcp_run_established cb l s :
  (∀ k c, state c = SYN_RECEIVED → state (cb k c) ≠ ESTABLISHED) →
  none_established s → none_established (foldl (tcp_step cb) s l).
Proof.
  intros Hcb. revert s. induction l as [|o l IH]; intros s H; [done|].
  by apply IH, tcp_step_established.
Qed.

(** * Segmentation *)

(** Segments of one to [m] bytes that continue each other from [seq] on. *)
Fixpoint segments_from (m seq : Z) (ps : list TCPPacket.t) : Prop :=
  match ps with
  | [] => True
  | p :: ps' =>
      TCPPacket.sequence_number p = seq ∧ 0 < len (TCPPacket.payload p) <= m ∧
      segments_from m (seq + len (TCPPacket.payload p)) ps'
  end.

Abbreviation all_covered n m :=
  (Forall (λ kv, RetransmissionManager.covered n kv = true) (RetransmissionManager.pending m)).

Lemma covered_mono n n' kv :
  n <= n' → RetransmissionManager.covered n kv = true →
  RetransmissionManager.covered n' kv = true.
Proof. unfold RetransmissionManager.covered. lia. Qed.

Lemma dict_set_Forall (P : RetransmissionManager.key * (TCPPacket.t * Z) → Prop) k v l :
  (∀ k', P (k', v)) → Forall P l → Forall P (RetransmissionManager.dict_set k v l).
Proof.
  intros Hv. induction 1 as [|[k' v'] l Hx Hl IH]; simpl; [by constructor|].
  case_decide; by constructor.
Qed.

Lemma add_packet_covered now p m n :
  all_covered n m →
  TCPPacket.sequence_number p = n →
  all_covered (n + len (TCPPacket.payload p)) (RetransmissionManager.add_packet now p m).
Proof.
  intros H Hs. unfold RetransmissionManager.add_packet. cbn [RetransmissionManager.pending].
  apply dict_set_Forall.
  - intros k. unfold RetransmissionManager.covered. cbn. lia.
  - eapply Forall_impl; [exact H|]. intros kv. apply covered_mono. lia.
Qed.

Lemma filter_keys_none (ks : list RetransmissionManager.key)
    (l : list (RetransmissionManager.key * (TCPPacket.t * Z))) :
  (∀ kv, kv ∈ l → kv.1 ∈ ks) → filter (λ kv, kv.1 ∉ ks) l = [].
Proof.
  induction l as [|kv l IH]; intros H; [done|]. rewrite filter_cons_False.
  - apply IH. intros kv' H'. apply H. by right.
  - intros Hn. apply Hn, H. left.
Qed.

Lemma ack_all_covered n m :
  all_covered n m → RetransmissionManager.get_pending_count (RetransmissionManager.ack_received n m).1 = 0.
Proof.
  intros H. unfold RetransmissionManager.ack_received, RetransmissionManager.get_pending_count.
  cbn [fst RetransmissionManager.pending].
  assert (filter (λ kv, RetransmissionManager.covered n kv = true) (RetransmissionManager.pending m)
          = RetransmissionManager.pending m) as ->.
  { induction H as [|kv l Hkv Hl IH]; [done|]. by rewrite filter_cons_True, IH. }
  rewrite filter_keys_none; [done|]. intros kv Hkv. by apply list_elem_of_fmap_2.
Qed.

Lemma chunk_take (data : bytes) sent m :
  0 <= sent <= len data → 0 < m →
  py_slice data sent (sent + m) =
  take (Z.to_nat (Z.min m (len data - sent))) (drop (Z.to_nat sent) data).
Proof.
  intros. rewrite py_slice_nonneg by lia. rewrite Z.add_simpl_l.
  destruct (decide (m <= len data - sent)).
  - by rewrite Z.min_l by lia.
  - rewrite !take_ge by (rewrite length_drop; lia). done.
Qed.

Lemma send_loop_spec fuel now id data sent s c m :
  connections s !! id = Some c → retransmission_managers s !! id = Some m →
  0 < mss (cong c) → 0 <= sent <= len data → len data - sent <= Z.of_nat fuel →
  all_covered (send_next c) m →
  ∃ s' ps c' m', send_loop fuel now id data sent s = Some (s', ps) ∧
    connections s' !! id = Some c' ∧ retransmission_managers s' !! id = Some m' ∧
    send_next c' = send_next c + (len data - sent) ∧
    bytes_sent c' = bytes_sent c + (len data - sent) ∧
    packets_sent c' = packets_sent c + len ps ∧
    concat (TCPPacket.payload <$> ps) = drop (Z.to_nat sent) data ∧
    segments_from (mss (cong c)) (send_next c) ps ∧ all_covered (send_next c') m'.
Proof.
  revert sent s c m. induction fuel as [|fuel IH]; intros sent s c m Hc Hm Hmss Hsent Hfuel Hcov;
    cbn [send_loop]; destruct (len data <=? sent) eqn:E; try lia.
  1, 2: exists s, [], c, m; rewrite drop_ge by lia; cbn; rewrite !Z.add_0_r;
    assert (len data - sent = 0) as -> by lia; rewrite !Z.add_0_r; done.
  rewrite Hc. set (chunk := py_slice data sent (sent + mss (cong c))).
  set (n := Z.min (mss (cong c)) (len data - sent)).
  assert (chunk = take (Z.to_nat n) (drop (Z.to_nat sent) data)) as Hchunk by (apply chunk_take; lia).
  assert (len chunk = n) as Hn by (rewrite Hchunk, length_take, length_drop; lia).
  set (p := TCPPacket.make _ _ _ _ _ _ chunk).
  set (s1 := set_managers _ _).
  destruct (IH (sent + len chunk) s1 (count_sent (len chunk) c)
              (RetransmissionManager.add_packet now p m))
    as (s' & ps & c' & m' & -> & Hc' & Hm' & H1 & H2 & H3 & H4 & H5 & H6).
  - cbn. by rewrite lookup_alter_eq, Hc.
  - cbn. by rewrite lookup_alter_eq, Hm.
  - done.
  - lia.
  - lia.
  - exact (add_packet_covered now p m (send_next c) Hcov eq_refl).
  - exists s', (p :: ps), c', m'. cbn [count_sent send_next bytes_sent packets_sent cong] in *.
    split; [done|]. split; [done|]. split; [done|]. split; [lia|]. split; [lia|].
    split; [cbn [length]; lia|]. split; [|split; [|done]].
    + rewrite fmap_cons. cbn [concat]. rewrite H4. change (TCPPacket.payload p) with chunk.
      rewrite Hchunk at 1. replace (Z.to_nat (sent + len chunk)) with
        (Z.to_nat sent + Z.to_nat n)%nat by lia.
      rewrite <-drop_drop. apply take_drop.
    + cbn [segments_from]. change (TCPPacket.payload p) with chunk. split; [done|].
      split; [lia|done].
Qed.

(** * Properties *)

(** The state machine has no transition into [ESTABLISHED]: after any sequence
    of calls and packets, with listeners that do not set that state themselves,
    sending and receiving on every connection raise [ConnectionError]. *)
Theorem tcp_never_established cb l seq0 now id data bs :
  (∀ k c, state c = SYN_RECEIVED → state (cb k c) ≠ ESTABLISHED) →
  let s := foldl (tcp_step cb) (init_protocol seq0) l in
  send_data now id data s = Some (s, Err ConnectionError) ∧
  receive_data id bs s = (s, Err ConnectionError).
Proof.
  intros Hcb s. assert (none_established s) as H.
  { apply tcp_run_established; [done|]. intros id' c'. cbn. by rewrite lookup_empty. }
  split.
  - unfold send_data. by rewrite not_established.
  - unfold receive_data. destruct (connections s !! id) as [c|] eqn:E; [|done].
    unfold is_established. by rewrite bool_decide_false by (by eapply H).
Qed.

Lemma tcp_never_established_witness :
  let s := foldl (tcp_step (λ _ c, c)) (init_protocol 7)
    [OpListen 80 1; OpPacket (TCPPacket.make 1 9000 80 100 0 SYN []) "10.0.0.2" "10.0.0.1";
     OpPacket (TCPPacket.make 1 9000 80 101 8 ACK []) "10.0.0.2" "10.0.0.1"] in
  send_data 2 "10.0.0.1:80-10.0.0.2:9000" [1] s = Some (s, Err ConnectionError) ∧
  receive_data "10.0.0.1:80-10.0.0.2:9000" 10 s = (s, Err ConnectionError).
Proof. apply (tcp_never_established (λ _ c, c)). intros k c ->. discriminate. Defined.

(** On an established connection [send_data] ends and cuts the data into
    segments of one to [mss] bytes, with consecutive sequence numbers from
    [send_next], whose payloads are the data in order; it counts them, and an
    acknowledgement of the new [send_next] then empties the retransmission queue. *)
Theorem tcp_send_data_spec now id data s c m :
  connections s !! id = Some c → retransmission_managers s !! id = Some m →
  state c = ESTABLISHED → 0 < mss (cong c) → all_covered (send_next c) m →
  ∃ s' ps c' m', send_data now id data s = Some (s', Ok (len data, ps)) ∧
    connections s' !! id = Some c' ∧ retransmission_managers s' !! id = Some m' ∧
    send_next c' = send_next c + len data ∧ bytes_sent c' = bytes_sent c + len data ∧
    packets_sent c' = packets_sent c + len ps ∧
    concat (TCPPacket.payload <$> ps) = data ∧
    segments_from (mss (cong c)) (send_next c) ps ∧
    RetransmissionManager.get_pending_count
      (RetransmissionManager.ack_received (send_next c') m').1 = 0.
Proof.
  intros Hc Hm Hst Hmss Hcov.
  destruct (send_loop_spec (length data) now id data 0 s c m Hc Hm Hmss ltac:(lia) ltac:(lia) Hcov)
    as (s' & ps & c' & m' & E & Hc' & Hm' & H1 & H2 & H3 & H4 & H5 & H6).
  exists s', ps, c', m'. unfold send_data, established. rewrite Hc. unfold is_established.
  rewrite bool_decide_true by done. cbn [negb]. rewrite E.
  rewrite Z.sub_0_r in *. repeat (split; [done|]). by apply ack_all_covered.
Qed.

Lemma tcp_send_data_spec_witness :
  ∃ s' ps, send_data 5 "10.0.0.1:80-10.0.0.2:9000" (py_range 2000) proto_example =
    Some (s', Ok (2000, ps)) ∧ concat (TCPPacket.payload <$> ps) = py_range 2000.
Proof.
  destruct (tcp_send_data_spec 5 "10.0.0.1:80-10.0.0.2:9000" (py_range 2000) proto_example
    conn_example (RetransmissionManager.init_manager 1))
    as (s' & ps & c' & m' & E & _ & _ & _ & _ & _ & H & _);
    [vm_compute; reflexivity|vm_compute; reflexivity|reflexivity|reflexivity|constructor|].
  exists s', ps. split; [exact E|exact H].
Defined.

(** [close_connection] removes the close callback before it looks it up. *)
Lemma close_callback_never_called id s : (close_connection id s).2.2 = None.
Proof.
  unfold close_connection. destruct (connections s !! id); [|done]. cbn.
  apply lookup_delete_eq.
Qed.
