(* ===== verification/Utf8.v ===== *)
(** Python strings as UTF-8 bytes.

    A [str] is the list of its code points. [str.encode("utf-8")] raises
    [UnicodeEncodeError] on a surrogate; [bytes.decode("utf-8")] is the strict
    decoder, which refuses truncated, overlong and surrogate sequences, and with
    [errors="replace"] the lenient one, which agrees with it where that succeeds. The two
    theorems say that each is the inverse of the other. *)

From S2P Require Import Prelude Bytes.

Abbreviation pystr := (list Z).

(** The code points a string may hold and UTF-8 can encode. *)
Definition scalar (c : Z) : Prop := (0 <= c < 55296) ∨ (57344 <= c < 1114112).
#[export] Instance scalar_dec c : Decision (scalar c).
Proof. unfold scalar. apply _. Defined.

Definition utf8_char (c : Z) : res bytes :=
  if c <? 128 then Ok [c]
  else if c <? 2048 then Ok [192 + c / 64; 128 + c mod 64]
  else if (55296 <=? c) && (c <? 57344) then Err UnicodeError
  else if c <? 65536 then Ok [224 + c / 4096; 128 + c / 64 mod 64; 128 + c mod 64]
  else Ok [240 + c / 262144; 128 + c / 4096 mod 64; 128 + c / 64 mod 64; 128 + c mod 64].

Definition utf8_encode (s : pystr) : res bytes := xs ← res_map utf8_char s; Ok (concat xs).

(** A continuation byte. *)
Definition cont (b : Z) : bool := (128 <=? b) && (b <? 192).

(** The second byte that may follow the first byte of a long sequence: it rules out
    overlong forms, surrogates and what lies beyond the last code point. *)
Definition second_ok (b c : Z) : bool :=
  if b =? 224 then (160 <=? c) && (c <? 192)
  else if b =? 237 then (128 <=? c) && (c <? 160)
  else if b =? 240 then (144 <=? c) && (c <? 192)
  else if b =? 244 then (128 <=? c) && (c <? 144)
  else cont c.

Fixpoint utf8_decode (l : bytes) : res pystr :=
  match l with
  | [] => Ok []
  | b :: l1 =>
      if b <? 128 then cons b <$> utf8_decode l1
      else if (194 <=? b) && (b <? 224) then
        match l1 with
        | c :: l2 =>
            if cont c then cons ((b - 192) * 64 + (c - 128)) <$> utf8_decode l2
            else Err UnicodeError
        | _ => Err UnicodeError
        end
      else if (224 <=? b) && (b <? 240) then
        match l1 with
        | c :: d :: l3 =>
            if second_ok b c && cont d then
              cons ((b - 224) * 4096 + (c - 128) * 64 + (d - 128)) <$> utf8_decode l3
            else Err UnicodeError
        | _ => Err UnicodeError
        end
      else if (240 <=? b) && (b <? 245) then
        match l1 with
        | c :: d :: e :: l4 =>
            if second_ok b c && cont d && cont e then
              cons ((b - 240) * 262144 + (c - 128) * 4096 + (d - 128) * 64 + (e - 128))
                <$> utf8_decode l4
            else Err UnicodeError
        | _ => Err UnicodeError
        end
      else Err UnicodeError
  end.

(** [bytes.decode("utf-8", errors="replace")]: a sequence that is cut short or goes
    wrong becomes one U+FFFD for as much of it as could have begun a character. *)
Definition replacement : Z := 65533.

Fixpoint utf8_decode_replace (l : bytes) : pystr :=
  match l with
  | [] => []
  | b :: l1 =>
      if b <? 128 then b :: utf8_decode_replace l1
      else if (194 <=? b) && (b <? 224) then
        match l1 with
        | c :: l2 =>
            if cont c then ((b - 192) * 64 + (c - 128)) :: utf8_decode_replace l2
            else replacement :: utf8_decode_replace l1
        | [] => [replacement]
        end
      else if (224 <=? b) && (b <? 240) then
        match l1 with
        | c :: l2 =>
            if second_ok b c then
              match l2 with
              | d :: l3 =>
                  if cont d then
                    ((b - 224) * 4096 + (c - 128) * 64 + (d - 128)) :: utf8_decode_replace l3
                  else replacement :: utf8_decode_replace l2
              | [] => [replacement]
              end
            else replacement :: utf8_decode_replace l1
        | [] => [replacement]
        end
      else if (240 <=? b) && (b <? 245) then
        match l1 with
        | c :: l2 =>
            if second_ok b c then
              match l2 with
              | d :: l3 =>
                  if cont d then
                    match l3 with
                    | e :: l4 =>
                        if cont e then
                          ((b - 240) * 262144 + (c - 128) * 4096 + (d - 128) * 64 + (e - 128))
                            :: utf8_decode_replace l4
                        else replacement :: utf8_decode_replace l3
                    | [] => [replacement]
                    end
                  else replacement :: utf8_decode_replace l2
              | [] => [replacement]
              end
            else replacement :: utf8_decode_replace l1
        | [] => [replacement]
        end
      else replacement :: utf8_decode_replace l1
  end.

(** * Lemmas *)

(** One character, decoded in front of anything. *)
Lemma utf8_decode_char c x l :
  scalar c → utf8_char c = Ok x → utf8_decode (x ++ l) = cons c <$> utf8_decode l.
Proof.
  unfold scalar, utf8_char. intros Hc E. repeat case_match; invert_res; cbn [app utf8_decode].
  - if_true. done.
  - assert (((192 + c / 64) <? 128) = false) as -> by lia.
    if_true. assert (cont (128 + c mod 64) = true) as -> by (unfold cont; lia).
    do 2 f_equal; try lia.
  - assert (((224 + c / 4096) <? 128) = false) as -> by lia.
    if_false. if_true.
    assert (second_ok (224 + c / 4096) (128 + c / 64 mod 64) &&
            cont (128 + c mod 64) = true) as ->.
    { unfold second_ok, cont. repeat case_match; lia. }
    do 2 f_equal; try lia.
  - assert (((240 + c / 262144) <? 128) = false) as -> by lia.
    if_false. if_false. if_true.
    assert (second_ok (240 + c / 262144) (128 + c / 4096 mod 64) &&
            cont (128 + c / 64 mod 64) && cont (128 + c mod 64) = true) as ->.
    { unfold second_ok, cont. repeat case_match; lia. }
    do 2 f_equal; try lia.
Qed.

Lemma utf8_char_scalar c x : 0 <= c < 1114112 → utf8_char c = Ok x → scalar c.
Proof. unfold scalar, utf8_char. intros ? E. repeat case_match; invert_res; lia. Qed.

Lemma utf8_char_ok c : scalar c → ∃ x, utf8_char c = Ok x ∧ bytes_ok x.
Proof.
  unfold scalar, utf8_char. intros Hc. repeat case_match; try lia.
  all: eexists; split; [done|]; repeat constructor; unfold byte_ok; lia.
Qed.

(** Encoding succeeds exactly on strings without surrogates. *)
Lemma utf8_encode_scalar s :
  Forall scalar s → ∃ x, utf8_encode s = Ok x ∧ bytes_ok x ∧ utf8_decode x = Ok s.
Proof.
  unfold utf8_encode. induction 1 as [|c s Hc _ (x & Ex & Hx & Dx)].
  { exists []. split_and!; done. }
  destruct (utf8_char_ok c Hc) as (y & Ey & Hy).
  destruct (res_map utf8_char s) as [ys|] eqn:Es; [|done]. cbn in Ex. injection Ex as <-.
  exists (y ++ concat ys). cbn [res_map]. rewrite Ey, Es. cbn.
  rewrite (utf8_decode_char c) by done. rewrite Dx.
  split_and!; [done|by apply Forall_app_2|done].
Qed.

Lemma utf8_decode_encode s x :
  Forall scalar s → utf8_encode s = Ok x → utf8_decode x = Ok s.
Proof. intros Hs E. destruct (utf8_encode_scalar s Hs) as (y & Ey & _ & Dy). congruence. Qed.

Lemma utf8_encode_ok s x : Forall scalar s → utf8_encode s = Ok x → bytes_ok x.
Proof. intros Hs E. destruct (utf8_encode_scalar s Hs) as (y & Ey & Hy & _). congruence. Qed.

(** Bytes the strict decoder accepts are read alike by the lenient one. *)
Lemma utf8_decode_replace_strict l s : utf8_decode l = Ok s → utf8_decode_replace l = s.
Proof.
  remember (length l) as n eqn:Hn. revert l s Hn.
  induction (lt_wf n) as [n _ IH]. intros l s -> E.
  destruct l as [|b l1]; cbn [utf8_decode utf8_decode_replace] in *; [by injection E as <-|].
  repeat case_match; try done; simplify_eq;
    repeat match goal with H : _ && _ = true |- _ => apply andb_prop in H as [? ?] end;
    try congruence;
    (destruct (utf8_decode _) as [t|] eqn:Et in E; [|done]; cbn in E; injection E as <-;
     f_equal; eapply IH; [|done|exact Et]; cbn [length]; lia).
Qed.

(** What was encoded is read back, with either treatment of errors. *)
Lemma utf8_decode_replace_encode s x :
  Forall scalar s → utf8_encode s = Ok x → utf8_decode_replace x = s.
Proof. intros Hs E. by apply utf8_decode_replace_strict, utf8_decode_encode. Qed.

(** A text that was encoded holds no surrogate. *)
Lemma utf8_scalars s x :
  Forall (λ c, 0 <= c < 1114112) s → utf8_encode s = Ok x → Forall scalar s.
Proof.
  unfold utf8_encode. intros Hs. revert x. induction Hs as [|c s Hc _ IH]; intros x E; [done|].
  cbn [res_map] in E. destruct (utf8_char c) as [y|] eqn:Ec; [|done].
  cbn [mbind res_bind] in E. destruct (res_map utf8_char s) as [ys|]; [|done].
  constructor; [by eapply utf8_char_scalar|by eapply IH].
Qed.
