(* ===== verification/WebSocket.v ===== *)
(** WebSocket frames and messages: network/src/protocol/websocket.py,
    [WebSocketFrame] and [WebSocket].

    The stream reader is the list of bytes still to come, after which the stream
    ends; the writer is the list of bytes written. A message is a text or bytes: a text
    is encoded as UTF-8 when it is sent, and decoded with U+FFFD in place of what is not
    UTF-8 when it is received. The HTTP handshake is left out, and writes do not fail. *)

From S2P Require Import Prelude Bytes Utf8.

Inductive WebSocketOpcode := CONTINUATION | TEXT | BINARY | CLOSE | PING | PONG.

#[export] Instance WebSocketOpcode_eq_dec : EqDecision WebSocketOpcode.
Proof. solve_decision. Defined.

Definition opcode_val (o : WebSocketOpcode) : Z :=
  match o with
  | CONTINUATION => 0x0 | TEXT => 0x1 | BINARY => 0x2 | CLOSE => 0x8 | PING => 0x9 | PONG => 0xA
  end.

(** [WebSocketOpcode(n)]. *)
Definition opcode_of (n : Z) : res WebSocketOpcode :=
  if n =? 0 then Ok CONTINUATION else if n =? 1 then Ok TEXT else if n =? 2 then Ok BINARY
  else if n =? 8 then Ok CLOSE else if n =? 9 then Ok PING else if n =? 10 then Ok PONG
  else Err ValueError.

Module WebSocketFrame.
(** [length] is always the length of the payload. *)
Record t := {
  fin : bool;
  rsv1 : bool;
  rsv2 : bool;
  rsv3 : bool;
  opcode : WebSocketOpcode;
  mask : bool;
  masking_key : bytes;
  payload : bytes;
}.

Definition is_control_frame (f : t) : bool := bool_decide (opcode f ∈ [CLOSE; PING; PONG]).
Definition is_data_frame (f : t) : bool :=
  bool_decide (opcode f ∈ [TEXT; BINARY; CONTINUATION]).

Definition apply_mask (data mask_key : bytes) : bytes :=
  if negb (len mask_key =? 4) then data
  else imap (λ i b, Z.lxor b (default 0 (mask_key !! (i mod 4)%nat))) data.

Definition flag (b : bool) (bit v : Z) : Z := if b then Z.lor v bit else v.

Definition first_byte (f : t) : Z :=
  Z.lor (flag (rsv3 f) 0x10 (flag (rsv2 f) 0x20 (flag (rsv1 f) 0x40 (flag (fin f) 0x80 0x00))))
    (opcode_val (opcode f)).

Definition encode (f : t) : res bytes :=
  let second_byte := flag (mask f) 0x80 0x00 in
  let pl := if mask f && negb (len (masking_key f) =? 0)
            then apply_mask (payload f) (masking_key f) else payload f in
  let length := len (payload f) in
  header ←
    (if length <? 126 then Ok [first_byte f; Z.lor second_byte length]
     else if length <? 65536 then
       l ← pack_be 2 length; Ok ([first_byte f; Z.lor second_byte 126] ++ l)
     else
       l ← pack_be 8 length; Ok ([first_byte f; Z.lor second_byte 127] ++ l));
  let header := if mask f then header ++ masking_key f else header in
  Ok (header ++ pl).

(** The length field of the second byte, and its extension at [offset] 2. *)
Definition decode_length (data : bytes) (length : Z) : res (Z * Z) :=
  if length =? 126 then
    if len data <? 4 then Err WebSocketProtocolError
    else l ← unpack_be 2 (py_slice data 2 4); Ok (l, 4)
  else if length =? 127 then
    if len data <? 10 then Err WebSocketProtocolError
    else l ← unpack_be 8 (py_slice data 2 10); Ok (l, 10)
  else Ok (length, 2).

Definition bit_set (v bit : Z) : bool := negb (Z.land v bit =? 0).

Definition decode (data : bytes) : res t :=
  if len data <? 2 then Err WebSocketProtocolError
  else
    b0 ← py_get data 0;
    b1 ← py_get data 1;
    op ← opcode_of (Z.land b0 0x0F);
    let mask := bit_set b1 0x80 in
    lo ← decode_length data (Z.land b1 0x7F);
    let '(length, offset) := lo in
    ko ← (if mask then
            if len data <? offset + 4 then Err WebSocketProtocolError
            else Ok (py_slice data offset (offset + 4), offset + 4)
          else Ok ([], offset));
    let '(masking_key, offset) := ko in
    if len data <? offset + length then Err WebSocketProtocolError
    else
      let payload := py_slice data offset (offset + length) in
      let payload := if mask then apply_mask payload masking_key else payload in
      Ok {| fin := bit_set b0 0x80; rsv1 := bit_set b0 0x40; rsv2 := bit_set b0 0x20;
            rsv3 := bit_set b0 0x10; opcode := op; mask := mask;
            masking_key := masking_key; payload := payload |}.
End WebSocketFrame.

Inductive message :=
  | MText (text : pystr)
  | MBytes (data : bytes).

Module WebSocket.
Record Stats := {
  bytes_sent : Z;
  bytes_received : Z;
  frames_sent : Z;
  frames_received : Z;
  messages_sent : Z;
  messages_received : Z;
  pings_sent : Z;
  pongs_received : Z;
}.

Record t := {
  max_message_size : Z;
  is_server : bool;
  (** the reader and the writer are set *)
  connected : bool;
  is_closed : bool;
  message_buffer : bytes;
  message_opcode : option WebSocketOpcode;
  close_code : option Z;
  close_reason : pystr;
  stats : Stats;
  inbox : bytes;
  outbox : bytes;
}.

Definition init_websocket (max : Z) : t :=
  {| max_message_size := max; is_server := false; connected := false; is_closed := false;
     message_buffer := []; message_opcode := None; close_code := None; close_reason := [];
     stats := {| bytes_sent := 0; bytes_received := 0; frames_sent := 0; frames_received := 0;
                 messages_sent := 0; messages_received := 0; pings_sent := 0;
                 pongs_received := 0 |};
     inbox := []; outbox := [] |}.

(** [accept] without the handshake: the stream and the server role are set. *)
Definition accept (stream : bytes) (s : t) : t :=
  {| max_message_size := max_message_size s; is_server := true; connected := true;
     is_closed := false; message_buffer := message_buffer s; message_opcode := message_opcode s;
     close_code := close_code s; close_reason := close_reason s; stats := stats s;
     inbox := stream; outbox := outbox s |}.

Definition set_closed (s : t) : t :=
  {| max_message_size := max_message_size s; is_server := is_server s; connected := connected s;
     is_closed := true; message_buffer := message_buffer s; message_opcode := message_opcode s;
     close_code := close_code s; close_reason := close_reason s; stats := stats s;
     inbox := inbox s; outbox := outbox s |}.
Definition set_close_info (c : Z) (reason : pystr) (s : t) : t :=
  {| max_message_size := max_message_size s; is_server := is_server s; connected := connected s;
     is_closed := is_closed s; message_buffer := message_buffer s;
     message_opcode := message_opcode s; close_code := Some c; close_reason := reason;
     stats := stats s; inbox := inbox s; outbox := outbox s |}.
Definition set_message (b : bytes) (o : option WebSocketOpcode) (s : t) : t :=
  {| max_message_size := max_message_size s; is_server := is_server s; connected := connected s;
     is_closed := is_closed s; message_buffer := b; message_opcode := o;
     close_code := close_code s; close_reason := close_reason s; stats := stats s;
     inbox := inbox s; outbox := outbox s |}.
Definition set_stats (s : t) (x : Stats) : t :=
  {| max_message_size := max_message_size s; is_server := is_server s; connected := connected s;
     is_closed := is_closed s; message_buffer := message_buffer s;
     message_opcode := message_opcode s; close_code := close_code s;
     close_reason := close_reason s; stats := x; inbox := inbox s; outbox := outbox s |}.
Definition set_inbox (x : bytes) (s : t) : t :=
  {| max_message_size := max_message_size s; is_server := is_server s; connected := connected s;
     is_closed := is_closed s; message_buffer := message_buffer s;
     message_opcode := message_opcode s; close_code := close_code s;
     close_reason := close_reason s; stats := stats s; inbox := x; outbox := outbox s |}.
(** [self._writer.write(x)]. *)
Definition write (x : bytes) (s : t) : t :=
  {| max_message_size := max_message_size s; is_server := is_server s; connected := connected s;
     is_closed := is_closed s; message_buffer := message_buffer s;
     message_opcode := message_opcode s; close_code := close_code s;
     close_reason := close_reason s; stats := stats s; inbox := inbox s;
     outbox := outbox s ++ x |}.

Definition count_frame_received (n : Z) (x : Stats) : Stats :=
  {| bytes_sent := bytes_sent x; bytes_received := bytes_received x + n;
     frames_sent := frames_sent x; frames_received := frames_received x + 1;
     messages_sent := messages_sent x; messages_received := messages_received x;
     pings_sent := pings_sent x; pongs_received := pongs_received x |}.
Definition count_message_sent (n : Z) (x : Stats) : Stats :=
  {| bytes_sent := bytes_sent x + n; bytes_received := bytes_received x;
     frames_sent := frames_sent x + 1; frames_received := frames_received x;
     messages_sent := messages_sent x + 1; messages_received := messages_received x;
     pings_sent := pings_sent x; pongs_received := pongs_received x |}.
Definition count_message_received (x : Stats) : Stats :=
  {| bytes_sent := bytes_sent x; bytes_received := bytes_received x;
     frames_sent := frames_sent x; frames_received := frames_received x;
     messages_sent := messages_sent x; messages_received := messages_received x + 1;
     pings_sent := pings_sent x; pongs_received := pongs_received x |}.
Definition count_pong (x : Stats) : Stats :=
  {| bytes_sent := bytes_sent x; bytes_received := bytes_received x;
     frames_sent := frames_sent x; frames_received := frames_received x;
     messages_sent := messages_sent x; messages_received := messages_received x;
     pings_sent := pings_sent x; pongs_received := pongs_received x + 1 |}.
Definition count_ping (x : Stats) : Stats :=
  {| bytes_sent := bytes_sent x; bytes_received := bytes_received x;
     frames_sent := frames_sent x; frames_received := frames_received x;
     messages_sent := messages_sent x; messages_received := messages_received x;
     pings_sent := pings_sent x + 1; pongs_received := pongs_received x |}.

Definition is_connected (s : t) : bool := negb (is_closed s) && connected s.

(** An unmasked final frame, as the control frames are built. *)
Definition control_frame (o : WebSocketOpcode) (pl : bytes) : WebSocketFrame.t :=
  {| WebSocketFrame.fin := true; WebSocketFrame.rsv1 := false; WebSocketFrame.rsv2 := false;
     WebSocketFrame.rsv3 := false; WebSocketFrame.opcode := o; WebSocketFrame.mask := false;
     WebSocketFrame.masking_key := []; WebSocketFrame.payload := pl |}.

(** [self._writer.write(frame.encode())]. *)
Definition write_frame (f : WebSocketFrame.t) : method t () := λ s,
  match WebSocketFrame.encode f with
  | Ok b => (write b s, Ok ())
  | Err e => (s, Err e)
  end.

(** [key] is the random masking key. *)
Definition send (key : bytes) (m : message) : method t bool :=
  let! s := m_get in
  if is_closed s || negb (connected s) then m_raise WebSocketConnectionClosed
  else
    let! po := m_lift (match m with
                       | MText text => pl ← utf8_encode text; Ok (pl, TEXT)
                       | MBytes b => Ok (b, BINARY)
                       end) in
    let '(pl, op) := po in
    if max_message_size s <? len pl then m_raise WebSocketError
    else
      let mask := negb (is_server s) in
      let frame :=
        {| WebSocketFrame.fin := true; WebSocketFrame.rsv1 := false;
           WebSocketFrame.rsv2 := false; WebSocketFrame.rsv3 := false;
           WebSocketFrame.opcode := op; WebSocketFrame.mask := mask;
           WebSocketFrame.masking_key := if mask then key else [];
           WebSocketFrame.payload := pl |} in
      let! _ := write_frame frame in
      let! s := m_get in
      let! _ := m_put (set_stats s (count_message_sent (len pl) (stats s))) in
      m_ret true.

(** [await self._reader.readexactly(n)]: at the end of the stream what is left
    is consumed and the read is incomplete. *)
Definition readexactly (n : Z) : method t bytes := λ s,
  if len (inbox s) <? n then (set_inbox [] s, Err WebSocketConnectionClosed)
  else (set_inbox (drop (Z.to_nat n) (inbox s)) s, Ok (take (Z.to_nat n) (inbox s))).

(** The first read of a frame also marks the connection closed when it fails. *)
Definition read_header : method t bytes := λ s,
  match readexactly 2 s with
  | (s', Err e) => (set_closed s', Err e)
  | r => r
  end.

Definition read_length (length : Z) : method t Z :=
  if length =? 126 then let! ext := readexactly 2 in m_lift (unpack_be 2 ext)
  else if length =? 127 then let! ext := readexactly 8 in m_lift (unpack_be 8 ext)
  else m_ret length.

Definition read_frame : method t WebSocketFrame.t :=
  let! s := m_get in
  if is_closed s || negb (connected s) then m_raise WebSocketConnectionClosed
  else
    let! header := read_header in
    let! b0 := m_lift (py_get header 0) in
    let! b1 := m_lift (py_get header 1) in
    let! op := m_lift (opcode_of (Z.land b0 0x0F)) in
    let mask := WebSocketFrame.bit_set b1 0x80 in
    let! length := read_length (Z.land b1 0x7F) in
    let! key := (if mask then readexactly 4 else m_ret []) in
    let! pl := readexactly length in
    let pl := if mask then WebSocketFrame.apply_mask pl key else pl in
    m_ret {| WebSocketFrame.fin := WebSocketFrame.bit_set b0 0x80; WebSocketFrame.rsv1 := false;
             WebSocketFrame.rsv2 := false; WebSocketFrame.rsv3 := false;
             WebSocketFrame.opcode := op; WebSocketFrame.mask := mask;
             WebSocketFrame.masking_key := key; WebSocketFrame.payload := pl |}.

Definition send_pong (pl : bytes) : method t () :=
  let! s := m_get in
  if connected s && negb (is_closed s) then write_frame (control_frame PONG pl) else m_ret ().

Definition ping (now : Z) : method t bool :=
  let! s := m_get in
  if is_closed s || negb (connected s) then m_ret false
  else
    let! pl := m_lift (pack_be 8 now) in
    let! _ := write_frame (control_frame PING pl) in
    let! s := m_get in
    let! _ := m_put (set_stats s (count_ping (stats s))) in
    m_ret true.

Definition handle_close (pl : bytes) : method t () :=
  let! code := m_lift (if 2 <=? len pl then unpack_be 2 (py_slice pl 0 2) else Ok 1000) in
  let reason := if 2 <? len pl then utf8_decode_replace (py_from pl 2) else [] in
  let! s := m_get in
  let! _ := m_put (set_close_info code reason s) in
  let! _ := (if negb (is_closed s) then
               let! response := m_lift (pack_be 2 code) in
               write_frame (control_frame CLOSE response)
             else m_ret ()) in
  let! s := m_get in
  m_put (set_closed s).

(** [close]: without a writer the write raises [AttributeError]. *)
Definition close (code : Z) (reason : pystr) : method t () :=
  let! s := m_get in
  if is_closed s then m_ret ()
  else
    let! c := m_lift (pack_be 2 code) in
    let! encoded := m_lift (utf8_encode reason) in
    if negb (connected s) then m_raise AttributeError
    else
      let! _ := write_frame (control_frame CLOSE (c ++ take 123 encoded)) in
      let! s := m_get in
      m_put (set_close_info code reason (set_closed s)).

(** One turn of the loop of [recv]: a message to return, or another turn. *)
Definition handle_frame (f : WebSocketFrame.t) : method t (option message) :=
  let! s := m_get in
  let! _ := m_put (set_stats s (count_frame_received (len (WebSocketFrame.payload f)) (stats s))) in
  let! s := m_get in
  match WebSocketFrame.opcode f with
  | CONTINUATION =>
      let buf := message_buffer s ++ WebSocketFrame.payload f in
      if WebSocketFrame.fin f then
        let op := message_opcode s in
        let s := set_message [] None s in
        let! _ := m_put (set_stats s (count_message_received (stats s))) in
        m_ret (Some (if bool_decide (op = Some TEXT) then MText (utf8_decode_replace buf) else MBytes buf))
      else
        let! _ := m_put (set_message buf (message_opcode s) s) in m_ret None
  | TEXT | BINARY =>
      let pl := WebSocketFrame.payload f in
      if WebSocketFrame.fin f then
        let! _ := m_put (set_stats s (count_message_received (stats s))) in
        m_ret (Some (if bool_decide (WebSocketFrame.opcode f = TEXT) then MText (utf8_decode_replace pl) else MBytes pl))
      else
        let! _ := m_put (set_message pl (Some (WebSocketFrame.opcode f)) s) in m_ret None
  | PING => let! _ := send_pong (WebSocketFrame.payload f) in m_ret None
  | PONG => let! _ := m_put (set_stats s (count_pong (stats s))) in m_ret None
  | CLOSE =>
      let! _ := handle_close (WebSocketFrame.payload f) in m_raise WebSocketConnectionClosed
  end.

Fixpoint recv_loop (fuel : nat) : method t (option message) :=
  match fuel with
  | O => m_ret None
  | S fuel' =>
      let! f := read_frame in
      let! r := handle_frame f in
      match r with
      | Some m => m_ret (Some m)
      | None => recv_loop fuel'
      end
  end.

(** [recv]: each turn of the loop consumes at least two bytes of the stream, so
    the loop ends within [S (length (inbox s))] turns; [None] is never the
    result (theorem [recv_total]). *)
Definition recv : method t (option message) :=
  let! s := m_get in
  if is_closed s then m_raise WebSocketConnectionClosed
  else recv_loop (S (length (inbox s))).
End WebSocket.

(** * Lemmas: frames on the wire *)

Import WebSocketFrame.

Lemma apply_mask_involutive data key : apply_mask (apply_mask data key) key = data.
Proof.
  unfold apply_mask. destruct (negb _); [done|].
  apply list_eq. intros i. rewrite !list_lookup_imap. destruct (data !! i) as [b|]; [|done].
  cbn. f_equal. by rewrite Z.lxor_assoc, Z.lxor_nilpotent, Z.lxor_0_r.
Qed.

Lemma length_apply_mask data key : length (apply_mask data key) = length data.
Proof. unfold apply_mask. destruct (negb _); [done|]. by rewrite length_imap. Qed.

(** A frame as the constructor and the decoder make it. *)
Definition frame_wf (f : t) : Prop :=
  len (payload f) < 2 ^ 64 ∧ len (masking_key f) = (if mask f then 4 else 0).

(** The payload as it is transmitted. *)
Definition masked (f : t) : bytes :=
  if mask f then apply_mask (payload f) (masking_key f) else payload f.

(** The seven-bit length field and the extension that follows it. *)
Definition len7 (n : Z) : Z := if n <? 126 then n else if n <? 65536 then 126 else 127.
Definition len_ext (n : Z) : bytes :=
  if n <? 126 then [] else if n <? 65536 then be_bytes 2 n else be_bytes 8 n.

Lemma encode_shape f :
  frame_wf f →
  encode f = Ok ([first_byte f; Z.lor (flag (mask f) 0x80 0) (len7 (len (payload f)))] ++
                 len_ext (len (payload f)) ++ masking_key f ++ masked f).
Proof.
  intros [Hl Hk]. unfold encode, masked, len7, len_ext.
  set (n := len (payload f)) in *. assert (0 <= n) by lia.
  assert ((if mask f && negb (len (masking_key f) =? 0)
           then apply_mask (payload f) (masking_key f) else payload f) =
          (if mask f then apply_mask (payload f) (masking_key f) else payload f)) as ->.
  { destruct (mask f); [|done]. by rewrite Hk. }
  assert (mask f = false → masking_key f = []) as Hnil.
  { intros E. rewrite E in Hk. destruct (masking_key f); [done|]. cbn [length] in Hk. lia. }
  destruct (n <? 126) eqn:E1; [|destruct (n <? 65536) eqn:E2].
  1: cbn [mbind res_bind].
  2, 3: rewrite pack_u_ok by (unfold width; simpl Z.of_nat; lia); cbn [mbind res_bind].
  all: destruct (mask f); rewrite ?Hnil by done; rewrite <-?app_assoc; done.
Qed.

Lemma opcode_of_val o : opcode_of (opcode_val o) = Ok o.
Proof. by destruct o. Qed.

Lemma first_byte_fields f :
  opcode_of (Z.land (first_byte f) 0x0F) = Ok (opcode f) ∧
  bit_set (first_byte f) 0x80 = fin f ∧ bit_set (first_byte f) 0x40 = rsv1 f ∧
  bit_set (first_byte f) 0x20 = rsv2 f ∧ bit_set (first_byte f) 0x10 = rsv3 f.
Proof.
  destruct f as [f1 f2 f3 f4 o m k p]. unfold first_byte. cbn [fin rsv1 rsv2 rsv3 opcode].
  by destruct f1, f2, f3, f4, o.
Qed.

Lemma second_byte_fields m l :
  0 <= l < 128 →
  Z.land (Z.lor (flag m 0x80 0) l) 0x7F = l ∧ bit_set (Z.lor (flag m 0x80 0) l) 0x80 = m.
Proof.
  intros Hl.
  pose proof (forallb_range (λ l, (Z.land (Z.lor (flag m 0x80 0) l) 0x7F =? l) &&
    Bool.eqb (bit_set (Z.lor (flag m 0x80 0) l) 0x80) m) 128 l) as H.
  cbv beta in H. destruct (andb_prop _ _ (H ltac:(by destruct m; vm_compute) Hl)) as [H1 H2].
  split; [lia|]. by apply Bool.eqb_prop.
Qed.

Lemma len7_bound n : 0 <= n → 0 <= len7 n < 128.
Proof. intros. unfold len7. case_ifs; lia. Qed.

(** The decoder's length field: the payload length and the offset after it. *)
Lemma decode_length_shape n b0 b1 tl :
  0 <= n < 2 ^ 64 →
  decode_length ([b0; b1] ++ len_ext n ++ tl) (len7 n) = Ok (n, 2 + len (len_ext n)).
Proof.
  intros Hn. unfold decode_length, len7, len_ext. set (data := _ ++ _).
  destruct (n <? 126) eqn:E1; [by if_false; if_false|].
  destruct (n <? 65536) eqn:E2.
  - cbn [Z.eqb Pos.eqb]. unfold data. rewrite !length_app, length_be_bytes. cbn [length]. if_false.
    rewrite (py_slice_at _ [b0; b1] (be_bytes 2 n) tl) by (done || by rewrite length_be_bytes).
    rewrite unpack_be_be_bytes by (unfold width; simpl Z.of_nat; lia). done.
  - cbn [Z.eqb Pos.eqb]. unfold data. rewrite !length_app, length_be_bytes. cbn [length]. if_false.
    rewrite (py_slice_at _ [b0; b1] (be_bytes 8 n) tl) by (done || by rewrite length_be_bytes).
    rewrite unpack_be_be_bytes by (unfold width; simpl Z.of_nat; lia). done.
Qed.

Lemma unmask f : (if mask f then apply_mask (masked f) (masking_key f) else masked f) = payload f.
Proof. unfold masked. destruct (mask f); [apply apply_mask_involutive|done]. Qed.

Lemma length_masked f : length (masked f) = length (payload f).
Proof. unfold masked. destruct (mask f); [apply length_apply_mask|done]. Qed.

Lemma decode_shape f rest b :
  frame_wf f → encode f = Ok b → decode (b ++ rest) = Ok f.
Proof.
  intros Hwf Hb. pose proof Hwf as [Hl Hk]. rewrite encode_shape in Hb by done. injection Hb as <-.
  set (n := len (payload f)) in *.
  remember (Z.lor (flag (mask f) 0x80 0) (len7 n)) as b1 eqn:Eb1.
  cbn [app]. rewrite <-!app_assoc.
  match goal with |- decode ?x = _ => remember x as data eqn:Ed end.
  change (data = [first_byte f; b1] ++ len_ext n ++ masking_key f ++ masked f ++ rest) in Ed.
  assert (len data = 2 + len (len_ext n) + len (masking_key f) + n + len rest) as Hdata.
  { rewrite Ed, !length_app, length_masked. cbn [length]. clear -n. lia. }
  unfold decode. if_false.
  assert (py_get data 0 = Ok (first_byte f)) as -> by (by rewrite Ed).
  assert (py_get data 1 = Ok b1) as -> by (by rewrite Ed).
  cbn [mbind res_bind]. rewrite (proj1 (first_byte_fields f)).
  rewrite Eb1, (proj1 (second_byte_fields (mask f) (len7 n) (len7_bound n ltac:(lia)))),
    (proj2 (second_byte_fields (mask f) (len7 n) (len7_bound n ltac:(lia)))).
  cbn [mbind res_bind].
  assert (decode_length data (len7 n) = Ok (n, 2 + len (len_ext n))) as ->
    by (rewrite Ed; apply decode_length_shape; clear -Hl n; lia).
  cbn [mbind res_bind].
  set (o := 2 + len (len_ext n)) in *.
  assert ((if mask f then if len data <? o + 4 then Err WebSocketProtocolError
                          else Ok (py_slice data o (o + 4), o + 4) else Ok ([], o)) =
          Ok (masking_key f, o + len (masking_key f))) as ->.
  { destruct (mask f).
    - if_false. rewrite Hk. do 2 f_equal.
      apply (py_slice_at _ ([first_byte f; b1] ++ len_ext n) _ (masked f ++ rest));
        [by rewrite Ed, <-?app_assoc|rewrite length_app; unfold o; cbn [length]; lia|lia].
    - destruct (masking_key f); [|done]. cbn [length]. do 2 f_equal. lia. }
  cbn [mbind res_bind]. if_false.
  rewrite (py_slice_at data ([first_byte f; b1] ++ len_ext n ++ masking_key f) (masked f) rest);
    [|by rewrite Ed, <-?app_assoc|rewrite !length_app; unfold o; cbn [length]; lia
     |rewrite length_masked; unfold n; lia].
  destruct (first_byte_fields f) as (_ & -> & -> & -> & ->).
  rewrite unmask. by destruct f.
Qed.

(** * Lemmas: reading frames from the stream *)

Import WebSocket.

Lemma readexactly_app x y s n :
  inbox s = x ++ y → n = len x → readexactly n s = (set_inbox y s, Ok x).
Proof.
  intros Hi ->. unfold readexactly. rewrite Hi, length_app. if_false.
  rewrite Nat2Z.id, drop_app_length, take_app_length. done.
Qed.

(** A frame as [read_frame] returns it: the reserved bits are dropped. *)
Definition strip_rsv (f : WebSocketFrame.t) : WebSocketFrame.t :=
  {| fin := fin f; rsv1 := false; rsv2 := false; rsv3 := false; opcode := opcode f;
     mask := mask f; masking_key := masking_key f; payload := payload f |}.

Lemma set_inbox_twice a b s : set_inbox a (set_inbox b s) = set_inbox a s.
Proof. done. Qed.

Lemma read_length_shape n tl s :
  0 <= n < 2 ^ 64 → inbox s = len_ext n ++ tl →
  read_length (len7 n) s = (set_inbox tl s, Ok n).
Proof.
  intros Hn Hi. unfold read_length, len7, len_ext in *.
  destruct (n <? 126) eqn:E1; [|destruct (n <? 65536) eqn:E2].
  - if_false. if_false. cbn [app] in Hi. unfold m_ret. f_equal. rewrite <-Hi. by destruct s.
  - cbn [Z.eqb Pos.eqb].
    rewrite (m_bind_ok _ _ _ _ _ (readexactly_app _ _ _ 2 Hi ltac:(by rewrite length_be_bytes))).
    unfold m_lift. rewrite unpack_be_be_bytes by (unfold width; simpl Z.of_nat; lia). done.
  - cbn [Z.eqb Pos.eqb].
    rewrite (m_bind_ok _ _ _ _ _ (readexactly_app _ _ _ 8 Hi ltac:(by rewrite length_be_bytes))).
    unfold m_lift. rewrite unpack_be_be_bytes by (unfold width; simpl Z.of_nat; lia). done.
Qed.

Lemma read_frame_encoded f b rest s :
  frame_wf f → encode f = Ok b → is_connected s = true → inbox s = b ++ rest →
  read_frame s = (set_inbox rest s, Ok (strip_rsv f)).
Proof.
  intros Hwf Hb Hs Hi. pose proof Hwf as [Hl Hk]. rewrite encode_shape in Hb by done.
  injection Hb as <-. set (n := len (payload f)) in *.
  remember (Z.lor (flag (mask f) 0x80 0) (len7 n)) as b1 eqn:Eb1.
  assert (inbox s = [first_byte f; b1] ++ len_ext n ++ masking_key f ++ masked f ++ rest) as Hi'.
  { rewrite Hi. cbn [app]. by rewrite <-!app_assoc. }
  unfold read_frame. rewrite (m_bind_ok m_get _ s s s) by done.
  assert (is_closed s || negb (connected s) = false) as ->
    by (unfold is_connected in Hs; destruct (is_closed s), (connected s); done).
  assert (read_header s = (set_inbox (len_ext n ++ masking_key f ++ masked f ++ rest) s,
                           Ok [first_byte f; b1])) as Hh
    by (unfold read_header; by rewrite (readexactly_app _ _ _ 2 Hi')).
  rewrite (m_bind_ok _ _ _ _ _ Hh). clear Hh.
  rewrite (m_bind_lift (py_get [first_byte f; b1] 0) (first_byte f)) by done.
  rewrite (m_bind_lift (py_get [first_byte f; b1] 1) b1) by done.
  rewrite (m_bind_lift (opcode_of _) (opcode f)) by apply (first_byte_fields f).
  rewrite Eb1, (proj1 (second_byte_fields (mask f) (len7 n) (len7_bound n ltac:(lia)))),
    (proj2 (second_byte_fields (mask f) (len7 n) (len7_bound n ltac:(lia)))).
  rewrite (m_bind_ok _ _ _ _ _ (read_length_shape n (masking_key f ++ masked f ++ rest)
    (set_inbox (len_ext n ++ masking_key f ++ masked f ++ rest) s) ltac:(lia) eq_refl)).
  rewrite set_inbox_twice.
  assert ((if mask f then readexactly 4 else m_ret [])
            (set_inbox (masking_key f ++ masked f ++ rest) s) =
          (set_inbox (masked f ++ rest) s, Ok (masking_key f))) as Hkey.
  { destruct (mask f) eqn:Em.
    - by rewrite (readexactly_app (masking_key f) (masked f ++ rest)) by (done || lia).
    - destruct (masking_key f); [done|]. cbn [length] in Hk. lia. }
  rewrite (m_bind_ok _ _ _ _ _ Hkey). clear Hkey.
  rewrite (m_bind_ok _ _ _ _ _ (readexactly_app (masked f) rest (set_inbox (masked f ++ rest) s) n eq_refl
    ltac:(unfold n; by rewrite length_masked))).
  rewrite set_inbox_twice, unmask. destruct (first_byte_fields f) as (_ & -> & _). done.
Qed.

(** ** Messages as sequences of frames *)

Definition is_ping_or_pong (f : WebSocketFrame.t) : Prop := opcode f = PING ∨ opcode f = PONG.

(** The frames after the first one of a fragmented message, with the payload they
    add; control frames may come in between. *)
Inductive continuation : bytes → list WebSocketFrame.t → Prop :=
  | cont_end f :
      opcode f = CONTINUATION → fin f = true → continuation (payload f) [f]
  | cont_more f p fs :
      opcode f = CONTINUATION → fin f = false → continuation p fs →
      continuation (payload f ++ p) (f :: fs)
  | cont_control f p fs :
      is_ping_or_pong f → continuation p fs → continuation p (f :: fs).

(** The frames that carry one message of type [op] and payload [p]. *)
Inductive carries (op : WebSocketOpcode) : bytes → list WebSocketFrame.t → Prop :=
  | carries_single f : opcode f = op → fin f = true → carries op (payload f) [f]
  | carries_first f p fs :
      opcode f = op → fin f = false → continuation p fs →
      carries op (payload f ++ p) (f :: fs)
  | carries_control f p fs :
      is_ping_or_pong f → carries op p fs → carries op p (f :: fs).

(** The pongs written for the pings among the frames. *)
Fixpoint pongs (fs : list WebSocketFrame.t) : res bytes :=
  match fs with
  | [] => Ok []
  | f :: fs' =>
      match opcode f with
      | PING => b ← encode (control_frame PONG (payload f)); bs ← pongs fs'; Ok (b ++ bs)
      | _ => pongs fs'
      end
  end.

Fixpoint wire_of (fs : list WebSocketFrame.t) : res bytes :=
  match fs with
  | [] => Ok []
  | f :: fs' => b ← encode f; bs ← wire_of fs'; Ok (b ++ bs)
  end.

Definition message_of (op : WebSocketOpcode) (p : bytes) : message :=
  if bool_decide (op = TEXT) then MText (utf8_decode_replace p) else MBytes p.

Definition counted (f : WebSocketFrame.t) (s : t) : t :=
  set_stats s (count_frame_received (len (payload f)) (stats s)).

(** A control frame other than CLOSE: nothing to return; a ping is answered. *)
Lemma handle_control f s :
  is_ping_or_pong f → is_connected s = true → len (payload f) < 2 ^ 64 →
  ∃ po s', handle_frame f s = (s', Ok None) ∧ pongs [f] = Ok po ∧
    is_connected s' = true ∧ inbox s' = inbox s ∧ outbox s' = outbox s ++ po ∧
    message_buffer s' = message_buffer s ∧ message_opcode s' = message_opcode s ∧
    messages_received (stats s') = messages_received (stats s).
Proof.
  intros Hf Hs Hl.
  assert (is_closed s = false ∧ connected s = true) as [Hc1 Hc2]
    by (unfold is_connected in Hs; destruct (is_closed s), (connected s); done).
  unfold handle_frame, send_pong, m_bind, m_get, m_put, m_ret. destruct Hf as [Hf|Hf]; rewrite Hf.
  - assert (frame_wf (control_frame PONG (payload f))) as Hwf by done.
    assert (∃ b, encode (control_frame PONG (payload f)) = Ok b) as [b Hb]
      by (eexists; by apply encode_shape).
    cbn [pongs]. rewrite Hf. cbn [set_stats connected is_closed].
    rewrite Hc1, Hc2. cbn [negb andb]. unfold write_frame. rewrite Hb. cbn [mbind res_bind].
    exists (b ++ []). eexists. split; [done|]. split; [done|]. cbn.
    unfold is_connected. cbn. rewrite Hc1, Hc2, app_nil_r. done.
  - cbn [pongs]. rewrite Hf. exists []. eexists. split; [done|]. split; [done|].
    cbn. rewrite app_nil_r. done.
Qed.

Lemma pongs_cons f fs po1 po2 :
  pongs [f] = Ok po1 → pongs fs = Ok po2 → pongs (f :: fs) = Ok (po1 ++ po2).
Proof.
  cbn [pongs]. destruct (opcode f); intros H1 H2; invert_res; try exact H2.
  rewrite H2. cbn [mbind res_bind]. by rewrite app_nil_r.
Qed.

Lemma pongs_data f fs po : opcode f ≠ PING → pongs fs = Ok po → pongs (f :: fs) = Ok po.
Proof. cbn [pongs]. by destruct (opcode f). Qed.

(** What [recv] achieves on the frames [fs] followed by [rest]. *)
Definition receives (fs : list WebSocketFrame.t) (rest : bytes) (m : message) (s s' : t) : Prop :=
  is_connected s' = true ∧ inbox s' = rest ∧
  messages_received (stats s') = messages_received (stats s) + 1 ∧
  ∃ po, pongs fs = Ok po ∧ outbox s' = outbox s ++ po.

Lemma recv_loop_step fuel f b tl s s1 r :
  frame_wf f → encode f = Ok b → is_connected s = true → inbox s = b ++ tl →
  handle_frame (strip_rsv f) (set_inbox tl s) = (s1, Ok r) →
  recv_loop (S fuel) s = match r with Some m => (s1, Ok (Some m)) | None => recv_loop fuel s1 end.
Proof.
  intros Hwf Hb Hs Hi Hh. cbn [recv_loop].
  rewrite (m_bind_ok _ _ _ _ _ (read_frame_encoded f b tl s Hwf Hb Hs Hi)).
  rewrite (m_bind_ok _ _ _ _ _ Hh). by destruct r.
Qed.

Lemma wire_of_cons f fs w :
  wire_of (f :: fs) = Ok w → ∃ b w', encode f = Ok b ∧ wire_of fs = Ok w' ∧ w = b ++ w'.
Proof.
  cbn [wire_of]. intros H. unfold mbind, res_bind in H. destruct (encode f); [|done].
  destruct (wire_of fs); [|done]. injection H as <-. eauto.
Qed.

Lemma strip_control f : is_ping_or_pong f → is_ping_or_pong (strip_rsv f).
Proof. done. Qed.

(** The control frames of a message are handled, and the loop goes on. *)
Lemma recv_loop_control fuel f fs w rest s op p :
  is_ping_or_pong f → frame_wf f → is_connected s = true →
  wire_of (f :: fs) = Ok w → inbox s = w ++ rest →
  (∀ w' s1, wire_of fs = Ok w' → is_connected s1 = true → inbox s1 = w' ++ rest →
     message_buffer s1 = message_buffer s → message_opcode s1 = message_opcode s →
     ∃ s', recv_loop fuel s1 = (s', Ok (Some (message_of op p))) ∧
           receives fs rest (message_of op p) s1 s') →
  ∃ s', recv_loop (S fuel) s = (s', Ok (Some (message_of op p))) ∧
        receives (f :: fs) rest (message_of op p) s s'.
Proof.
  intros Hf Hwf Hs Hw Hi IH. apply wire_of_cons in Hw as (b & w' & Hb & Hw' & ->).
  rewrite <-app_assoc in Hi. pose proof Hwf as [Hl _].
  destruct (handle_control (strip_rsv f) (set_inbox (w' ++ rest) s) Hf Hs Hl)
    as (po & s1 & Hh & Hpo & Hc1 & Hi1 & Ho1 & Hb1 & Hop1 & Hm1).
  rewrite (recv_loop_step fuel f b (w' ++ rest) s s1 None) by done.
  destruct (IH w' s1 Hw' Hc1 Hi1 Hb1 Hop1) as (s' & -> & H1 & H2 & H3 & po' & Hpo' & Ho').
  exists s'. split; [done|]. split; [done|]. split; [done|]. split; [by rewrite H3, Hm1|].
  exists (po ++ po'). split; [by apply pongs_cons|]. by rewrite Ho', Ho1, app_assoc.
Qed.

Lemma recv_continuation op p fs w rest fuel s :
  continuation p fs → Forall frame_wf fs → wire_of fs = Ok w → inbox s = w ++ rest →
  is_connected s = true → message_opcode s = Some op → (length fs <= fuel)%nat →
  ∃ s', recv_loop fuel s = (s', Ok (Some (message_of op (message_buffer s ++ p)))) ∧
        receives fs rest (message_of op (message_buffer s ++ p)) s s'.
Proof.
  intros Hc. revert w fuel s. induction Hc as [f Ho Hf|f p fs Ho Hf Hc IH|f p fs Hf Hc IH];
    intros w fuel s Hwf Hw Hi Hs Hop Hfuel; (destruct fuel as [|fuel]; [simpl in Hfuel; lia|]);
    apply Forall_cons in Hwf as [Hwf Hwfs].
  - apply wire_of_cons in Hw as (b & w' & Hb & Hw' & ->). rewrite <-app_assoc in Hi.
    injection Hw' as <-.
    erewrite recv_loop_step; [|done..|].
    2:{ unfold handle_frame, m_bind, m_get, m_put, m_ret. cbn [strip_rsv opcode fin].
        rewrite Ho, Hf. cbn. rewrite Hop. reflexivity. }
    eexists. split.
    { unfold message_of. rewrite (bool_decide_ext (Some op = Some TEXT) (op = TEXT)); [done|].
      split; congruence. }
    split; [done|]. split; [done|]. split; [done|]. exists []. cbn [pongs]. rewrite Ho.
    by rewrite app_nil_r.
  - apply wire_of_cons in Hw as (b & w' & Hb & Hw' & ->). rewrite <-app_assoc in Hi.
    erewrite recv_loop_step; [|done..|].
    2:{ unfold handle_frame, m_bind, m_get, m_put, m_ret. cbn [strip_rsv opcode fin].
        rewrite Ho, Hf. reflexivity. }
    cbn beta iota. set (s1 := set_message _ _ _).
    destruct (IH w' fuel s1 Hwfs Hw' eq_refl Hs Hop ltac:(simpl in Hfuel; lia))
      as (s' & E & H1 & H2 & H3 & po & Hpo & Ho').
    cbn [s1 set_message message_buffer] in E. cbn [strip_rsv payload] in E.
    exists s'. rewrite app_assoc. split; [exact E|]. split; [done|]. split; [done|].
    split; [done|]. exists po. split; [|done]. apply pongs_data; [by rewrite Ho|done].
  - apply (recv_loop_control fuel f fs w rest s op (message_buffer s ++ p)); try done.
    intros w' s1 Hw' Hs1 Hi1 Hb1 Hop1. rewrite <-Hb1.
    apply (IH w' fuel s1); try done; [by rewrite Hop1|simpl in Hfuel; lia].
Qed.

Lemma recv_carries op p fs w rest fuel s :
  op = TEXT ∨ op = BINARY → carries op p fs → Forall frame_wf fs → wire_of fs = Ok w →
  inbox s = w ++ rest → is_connected s = true → (length fs <= fuel)%nat →
  ∃ s', recv_loop fuel s = (s', Ok (Some (message_of op p))) ∧
        receives fs rest (message_of op p) s s'.
Proof.
  intros Hop Hc. revert w fuel s. induction Hc as [f Ho Hf|f p fs Ho Hf Hc|f p fs Hf Hc IH];
    intros w fuel s Hwf Hw Hi Hs Hfuel; (destruct fuel as [|fuel]; [simpl in Hfuel; lia|]);
    apply Forall_cons in Hwf as [Hwf Hwfs].
  - apply wire_of_cons in Hw as (b & w' & Hb & Hw' & ->). rewrite <-app_assoc in Hi.
    injection Hw' as <-.
    assert (handle_frame (strip_rsv f) (set_inbox rest s) =
            (set_stats (counted f (set_inbox rest s))
               (count_message_received (stats (counted f (set_inbox rest s)))),
             Ok (Some (message_of op (payload f))))) as Hh.
    { unfold handle_frame, m_bind, m_get, m_put, m_ret. cbn [strip_rsv opcode fin].
      rewrite Ho, Hf. unfold message_of. by destruct Hop as [-> | ->]. }
    rewrite (recv_loop_step fuel f b rest s _ _ Hwf Hb Hs Hi Hh).
    eexists. split; [done|]. split; [done|]. split; [done|]. split; [done|]. exists [].
    rewrite app_nil_r. split; [|done]. apply pongs_data; [by rewrite Ho; destruct Hop as [-> | ->]|done].
  - apply wire_of_cons in Hw as (b & w' & Hb & Hw' & ->). rewrite <-app_assoc in Hi.
    set (s1 := set_message (payload f) (Some op) (counted f (set_inbox (w' ++ rest) s))).
    assert (handle_frame (strip_rsv f) (set_inbox (w' ++ rest) s) = (s1, Ok None)) as Hh.
    { unfold handle_frame, m_bind, m_get, m_put, m_ret. cbn [strip_rsv opcode fin].
      rewrite Ho, Hf. by destruct Hop as [-> | ->]. }
    rewrite (recv_loop_step fuel f b (w' ++ rest) s _ _ Hwf Hb Hs Hi Hh).
    destruct (recv_continuation op p fs w' rest fuel s1 Hc Hwfs Hw' eq_refl Hs eq_refl
      ltac:(simpl in Hfuel; lia)) as (s' & E & H1 & H2 & H3 & po & Hpo & Ho').
    exists s'. split; [exact E|]. split; [done|]. split; [done|]. split; [done|].
    exists po. split; [|done]. apply pongs_data; [by rewrite Ho; destruct Hop as [-> | ->]|done].
  - apply (recv_loop_control fuel f fs w rest s op p); try done.
    intros w' s1 Hw' Hs1 Hi1 Hb1 Hop1. apply (IH w' fuel s1); try done. simpl in Hfuel; lia.
Qed.

Lemma wire_length fs w : Forall frame_wf fs → wire_of fs = Ok w → (length fs <= length w)%nat.
Proof.
  intros Hwf. revert w. induction Hwf as [|f fs Hf Hwf IH]; intros w Hw; [simpl; lia|].
  apply wire_of_cons in Hw as (b & w' & Hb & Hw' & ->). specialize (IH w' Hw').
  rewrite encode_shape in Hb by done. injection Hb as <-. rewrite length_app. simpl. lia.
Qed.

(** ** Every turn of the loop that goes on consumes at least two bytes *)

Definition reads_only {A} (m : method t A) : Prop :=
  ∀ s, (length (inbox (m s).1) <= length (inbox s))%nat.

Lemma reads_bind {A B} (m : method t A) (k : A → method t B) :
  reads_only m → (∀ a, reads_only (k a)) → reads_only (m_bind m k).
Proof.
  intros Hm Hk s. unfold m_bind. specialize (Hm s). destruct (m s) as [s1 [a|e]]; cbn [fst] in *.
  - specialize (Hk a s1). lia.
  - done.
Qed.

Lemma reads_exactly n : reads_only (readexactly n).
Proof.
  intros s. unfold readexactly. destruct (_ <? n); cbn; [lia|]. rewrite length_drop. lia.
Qed.

Lemma reads_same {A} (m : method t A) : (∀ s, inbox (m s).1 = inbox s) → reads_only m.
Proof. intros H s. by rewrite H. Qed.

Lemma reads_length l : reads_only (read_length l).
Proof.
  unfold read_length. repeat case_match; [| |by apply reads_same];
    (apply reads_bind; [apply reads_exactly|intros; by apply reads_same]).
Qed.

Lemma read_frame_consumes s s' f :
  read_frame s = (s', Ok f) → (length (inbox s') + 2 <= length (inbox s))%nat.
Proof.
  unfold read_frame. rewrite (m_bind_ok m_get _ s s s) by done. destruct (_ || _); [done|].
  unfold m_bind at 1. unfold read_header, readexactly.
  destruct (len (inbox s) <? 2) eqn:E; [done|].
  match goal with |- ?k ?s1 = _ → _ => assert (reads_only k) as Hk; [|specialize (Hk s1)] end.
  { repeat (apply reads_bind; [|intros ?]);
      try (by apply reads_same); try apply reads_length; try apply reads_exactly.
    destruct (WebSocketFrame.bit_set _ _); [apply reads_exactly|by apply reads_same]. }
  intros H. rewrite H in Hk. cbn [fst set_inbox inbox] in Hk. rewrite length_drop in Hk. lia.
Qed.

Lemma write_frame_inbox f s : inbox (write_frame f s).1 = inbox s.
Proof. unfold write_frame. by destruct (encode f). Qed.

Lemma same_bind {A B} (m : method t A) (k : A → method t B) :
  (∀ s, inbox (m s).1 = inbox s) → (∀ a s, inbox (k a s).1 = inbox s) →
  ∀ s, inbox (m_bind m k s).1 = inbox s.
Proof.
  intros Hm Hk s. unfold m_bind. specialize (Hm s). destruct (m s) as [s1 [a|e]]; cbn [fst] in *;
    [by rewrite Hk|done].
Qed.

Lemma handle_close_inbox pl s : inbox (handle_close pl s).1 = inbox s.
Proof.
  unfold handle_close, m_bind, m_lift, m_get, m_put, m_ret.
  destruct (if 2 <=? len pl then _ else _) as [c|e]; [|done]. cbn [set_close_info is_closed].
  destruct (negb _); [|done].
  destruct (pack_be 2 c) as [r|e]; [|done].
  pose proof (write_frame_inbox (control_frame CLOSE r)
    (set_close_info c (if 2 <? len pl then utf8_decode_replace (py_from pl 2) else []) s)) as H.
  destruct (write_frame _ _) as [s1 [[]|e]]; cbn [fst] in *; exact H.
Qed.

Lemma send_pong_inbox pl s : inbox (send_pong pl s).1 = inbox s.
Proof.
  unfold send_pong. rewrite (m_bind_ok m_get _ s s s) by done.
  destruct (_ && _); [apply write_frame_inbox|done].
Qed.

Lemma handle_frame_inbox f s : inbox (handle_frame f s).1 = inbox s.
Proof.
  unfold handle_frame. rewrite (m_bind_ok m_get _ s s s) by done.
  unfold m_bind at 1. cbn [m_put]. rewrite (m_bind_ok m_get _ (counted f s) (counted f s) _) by done.
  destruct (opcode f); try (destruct (fin f); done).
  - pose proof (handle_close_inbox (payload f) (counted f s)) as H. unfold m_bind.
    destruct (handle_close _ _) as [s1 [a|e]]; exact H.
  - pose proof (send_pong_inbox (payload f) (counted f s)) as H. unfold m_bind.
    destruct (send_pong _ _) as [s1 [a|e]]; exact H.
Qed.

Lemma recv_loop_total fuel s :
  (length (inbox s) < fuel)%nat → (recv_loop fuel s).2 ≠ Ok None.
Proof.
  revert s. induction fuel as [|fuel IH]; intros s Hf; [lia|]. cbn [recv_loop].
  unfold m_bind at 1. destruct (read_frame s) as [s1 [f|e]] eqn:E; [|done].
  apply read_frame_consumes in E. unfold m_bind. pose proof (handle_frame_inbox f s1) as Hi.
  destruct (handle_frame f s1) as [s2 [[m|]|e]]; [done| |done].
  apply IH. cbn [fst] in Hi. rewrite Hi. lia.
Qed.

(** * Properties *)

(** Decoding an encoded WebSocket frame gives it back, for every payload length
    class, masked or not, whatever bytes follow; and the stream reader gives the
    same frame (without the reserved bits) and leaves exactly the bytes that follow. *)
Theorem websocket_frame_roundtrip f rest s :
  frame_wf f → is_connected s = true →
  ∃ b, encode f = Ok b ∧ decode (b ++ rest) = Ok f ∧
    read_frame (set_inbox (b ++ rest) s) = (set_inbox rest s, Ok (strip_rsv f)).
Proof.
  intros Hwf Hs. eexists. split; [by apply encode_shape|]. split.
  - apply decode_shape; [done|by apply encode_shape].
  - by erewrite read_frame_encoded by (done || by apply encode_shape).
Qed.

Definition masked_example : WebSocketFrame.t :=
  {| fin := true; rsv1 := false; rsv2 := true; rsv3 := false; opcode := BINARY; mask := true;
     masking_key := [1; 2; 3; 4]; payload := py_range 130 |}.

Lemma websocket_frame_roundtrip_witness :
  ∃ b, encode masked_example = Ok b ∧ decode (b ++ [7]) = Ok masked_example ∧
    read_frame (set_inbox (b ++ [7]) (accept [] (init_websocket 100))) =
    (set_inbox [7] (accept [] (init_websocket 100)), Ok (strip_rsv masked_example)).
Proof.
  apply (websocket_frame_roundtrip masked_example [7]); [|reflexivity].
  split; vm_compute; reflexivity.
Defined.

(** C9: [recv] reassembles a message: when the stream holds the frames of one text
    or binary message, whole or fragmented, with pings and pongs in between, it
    returns that message (its bytes, or the text they encode in UTF-8, with U+FFFD for what
    is not UTF-8), answers every ping in order, and leaves the rest of the stream unread. *)
Theorem websocket_recv_message op p fs w rest s :
  op = TEXT ∨ op = BINARY → carries op p fs → Forall frame_wf fs → wire_of fs = Ok w →
  inbox s = w ++ rest → is_connected s = true →
  ∃ s' po, recv s = (s', Ok (Some (message_of op p))) ∧ inbox s' = rest ∧
    is_connected s' = true ∧ messages_received (stats s') = messages_received (stats s) + 1 ∧
    pongs fs = Ok po ∧ outbox s' = outbox s ++ po.
Proof.
  intros Hop Hc Hwf Hw Hi Hs.
  destruct (recv_carries op p fs w rest (S (length (inbox s))) s Hop Hc Hwf Hw Hi Hs)
    as (s' & E & H1 & H2 & H3 & po & Hpo & Ho).
  { rewrite Hi, length_app. pose proof (wire_length fs w Hwf Hw). lia. }
  exists s', po. split; [|done]. unfold recv. rewrite (m_bind_ok m_get _ s s s) by done.
  unfold is_connected in Hs. by destruct (is_closed s).
Qed.

Definition data_frame (o : WebSocketOpcode) (final : bool) (pl : bytes) : WebSocketFrame.t :=
  {| fin := final; rsv1 := false; rsv2 := false; rsv3 := false; opcode := o; mask := false;
     masking_key := []; payload := pl |}.

Lemma websocket_recv_message_witness :
  ∃ s' po, recv (accept [1; 2; 104; 105; 137; 1; 7; 128; 1; 33] (init_websocket 100)) =
    (s', Ok (Some (MText [104; 105; 33]))) ∧ pongs [data_frame PING true [7]] = Ok po ∧
    outbox s' = po.
Proof.
  destruct (websocket_recv_message TEXT [104; 105; 33]
    [data_frame TEXT false [104; 105]; data_frame PING true [7]; data_frame CONTINUATION true [33]]
    [1; 2; 104; 105; 137; 1; 7; 128; 1; 33] []
    (accept [1; 2; 104; 105; 137; 1; 7; 128; 1; 33] (init_websocket 100)))
    as (s' & po & E & _ & _ & _ & Hpo & Ho).
  - by left.
  - apply (carries_first TEXT (data_frame TEXT false [104; 105]) [33]); [done|done|].
    apply cont_control; [by left|]. by apply (cont_end (data_frame CONTINUATION true [33])).
  - repeat constructor.
  - reflexivity.
  - reflexivity.
  - reflexivity.
  - exists s', po. split; [exact E|]. split; [exact Hpo|exact Ho].
Defined.

(** [recv] always comes to an end on a stream that ends: it returns a
    message or raises, because every turn of its loop takes a frame off the stream. *)
Theorem recv_total s : (recv s).2 ≠ Ok None.
Proof.
  unfold recv. rewrite (m_bind_ok m_get _ s s s) by done. destruct (is_closed s); [done|].
  apply recv_loop_total. lia.
Qed.
