(* ===== verification/Dns.v ===== *)
(** DNS names, questions and the resolver's cache: network/src/protocol/dns.py,
    [DNSQuestion] and [LRUCache].

    A text is a list of code points. The decoder follows compression pointers; its
    loop carries fuel and [None] is a loop that has not ended. [name_at] is the
    specification of what a name in a message is. The cache is a list of its
    entries, the least recently used first, as the code's [OrderedDict]. *)

From S2P Require Import Prelude Bytes.

Abbreviation text := (list Z).

Definition DOT : Z := 46.

(** The values of [DNSType] and [DNSClass]. *)
Definition dns_type_ok (n : Z) : bool :=
  bool_decide (n ∈ [1; 2; 3; 4; 5; 6; 7; 8; 9; 10; 11; 12; 13; 14; 15; 16; 17; 18; 24; 25; 28;
                    29; 33; 35; 36; 37; 39; 41; 43; 46; 47; 48; 50; 51; 52; 257]).
Definition dns_class_ok (n : Z) : bool := bool_decide (n ∈ [1; 2; 3; 4; 255]).

(** [s.rstrip(".")]. *)
Definition rstrip_dot (s : text) : text :=
  reverse ((fix go (l : text) : text :=
    match l with
    | c :: l' => if c =? DOT then go l' else l
    | [] => []
    end) (reverse s)).

(** [s.encode("ascii", errors="ignore")] and [b.decode("ascii", errors="ignore")]. *)
Definition ascii_only (s : text) : text := filter (λ c, (c <? 128) = true) s.

Module DNSQuestion.
Record t := { qname : text; qtype : Z; qclass : Z }.

(** [bytes([len(label)]) + label.encode(...)]: a length above 255 is no byte. *)
Definition encode_label (label : text) : res bytes :=
  if 255 <? len label then Err ValueError else Ok (len label :: ascii_only label).

Definition encode_name (name : text) : res bytes :=
  if bool_decide (name = [DOT]) then Ok [0]
  else
    parts ← res_map encode_label (split_on DOT (rstrip_dot name));
    Ok (concat parts ++ [0]).

(** The loop of [_decode_name]: the labels, the offset where the loop stopped
    and [original_offset]. *)
Fixpoint decode_loop (fuel : nat) (data : bytes) (offset : Z) (labels : list text)
    (jumped : bool) (original_offset : Z) : option (res (list text * Z)) :=
  match fuel with
  | O => None
  | S fuel' =>
      if len data <=? offset then Some (Err DNSResolverError)
      else
        match py_get data offset with
        | Err e => Some (Err e)
        | Ok length =>
            if negb (Z.land length 0xC0 =? 0) then
              let original_offset := if jumped then original_offset else offset + 2 in
              match py_get data (offset + 1) with
              | Err e => Some (Err e)
              | Ok low =>
                  let pointer := Z.lor (Z.shiftl (Z.land length 0x3F) 8) low in
                  decode_loop fuel' data pointer labels true original_offset
              end
            else if length =? 0 then
              Some (Ok (labels, if jumped then original_offset else offset + 1))
            else
              let offset := offset + 1 in
              if len data <? offset + length then Some (Err DNSResolverError)
              else
                let label := ascii_only (py_slice data offset (offset + length)) in
                decode_loop fuel' data (offset + length) (labels ++ [label]) jumped
                  original_offset
        end
  end.

(** [".".join(labels) + "."]. *)
Definition name_of (labels : list text) : text := join_with DOT labels ++ [DOT].

(** [_decode_name], with the fuel of its loop. *)
Definition decode_name (fuel : nat) (data : bytes) (offset : Z) : option (res (text * Z)) :=
  r ← decode_loop fuel data offset [] false offset;
  Some (x ← r; let '(labels, final_offset) := x in Ok (name_of labels, final_offset)).

Definition encode (q : t) : res bytes :=
  data ← encode_name (qname q);
  ty ← pack_be 2 (qtype q);
  cl ← pack_be 2 (qclass q);
  Ok (data ++ ty ++ cl).

Definition decode (fuel : nat) (data : bytes) (offset : Z) : option (res (t * Z)) :=
  r ← decode_name fuel data offset;
  Some (
    x ← r;
    let '(name, offset) := x in
    let four := py_slice data offset (offset + 4) in
    _ ← guard_else (len four =? 4) StructError;
    ty ← unpack_be 2 (py_slice four 0 2);
    cl ← unpack_be 2 (py_slice four 2 4);
    _ ← guard_else (dns_type_ok ty) ValueError;
    _ ← guard_else (dns_class_ok cl) ValueError;
    Ok ({| qname := name; qtype := ty; qclass := cl |}, offset + 4)).
End DNSQuestion.

Module LRUCache.
Section LRUCache.
Context {K V : Type} `{EqDecision K}.

Record t := { cache : list (K * V); maxsize : Z }.

Definition init_cache (maxsize : Z) : t := {| cache := []; maxsize := maxsize |}.

Fixpoint find (key : K) (l : list (K * V)) : option V :=
  match l with
  | [] => None
  | (k, v) :: l' => if decide (k = key) then Some v else find key l'
  end.

Definition drop_key (key : K) (l : list (K * V)) : list (K * V) :=
  filter (λ kv, kv.1 ≠ key) l.

(** [move_to_end] after the lookup. *)
Definition get (key : K) (c : t) : t * option V :=
  match find key (cache c) with
  | Some v => ({| cache := drop_key key (cache c) ++ [(key, v)]; maxsize := maxsize c |}, Some v)
  | None => (c, None)
  end.

Definition put (key : K) (value : V) (c : t) : t :=
  let l := drop_key key (cache c) ++ [(key, value)] in
  {| cache := if maxsize c <? len l then drop 1 l else l; maxsize := maxsize c |}.

Definition remove (key : K) (c : t) : t * bool :=
  match find key (cache c) with
  | Some _ => ({| cache := drop_key key (cache c); maxsize := maxsize c |}, true)
  | None => (c, false)
  end.

Definition clear (c : t) : t := {| cache := []; maxsize := maxsize c |}.

Definition contains (key : K) (c : t) : bool :=
  match find key (cache c) with Some _ => true | None => false end.
End LRUCache.
Arguments t : clear implicits.
End LRUCache.

(** * Names in a message: the specification *)

Import DNSQuestion.

(** [name_at data off labels next]: the message has at [off] the name with these
    labels, and what follows the name starts at [next]. *)
Inductive name_at (data : bytes) : Z → list text → Z → Prop :=
  | name_end off :
      py_get data off = Ok 0 → 0 <= off → name_at data off [] (off + 1)
  | name_label off n labels next :
      py_get data off = Ok n → 0 <= off → Z.land n 0xC0 = 0 → n ≠ 0 →
      off + 1 + n <= len data →
      name_at data (off + 1 + n) labels next →
      name_at data off (ascii_only (py_slice data (off + 1) (off + 1 + n)) :: labels) next
  | name_pointer off n low labels next :
      py_get data off = Ok n → 0 <= off → Z.land n 0xC0 ≠ 0 →
      py_get data (off + 1) = Ok low →
      name_at data (Z.lor (Z.shiftl (Z.land n 0x3F) 8) low) labels next →
      name_at data off labels (off + 2).

(** Where the code's [final_offset] comes from. *)
Definition final (jumped : bool) (original next : Z) : Z := if jumped then original else next.

Lemma py_get_bound {A} (l : list A) i a : py_get l i = Ok a → 0 <= i → i < len l.
Proof.
  intros H Hi. destruct (decide (i < len l)); [done|].
  rewrite py_get_past_end in H by lia. done.
Qed.

Lemma decode_name_loop_complete data off labels next :
  name_at data off labels next →
  ∀ acc jumped orig, ∃ fuel,
    decode_loop fuel data off acc jumped orig = Some (Ok (acc ++ labels, final jumped orig next)).
Proof.
  induction 1 as [off H0 Hoff|off n labels next Hn Hoff Hc Hz Hlen Hat IH
                 |off n low labels next Hn Hoff Hc Hlow Hat IH]; intros acc jumped orig.
  - exists 1%nat. cbn [decode_loop]. pose proof (py_get_bound _ _ _ H0 Hoff). if_false.
    rewrite H0. cbn. by rewrite app_nil_r.
  - destruct (IH (acc ++ [ascii_only (py_slice data (off + 1) (off + 1 + n))]) jumped orig)
      as [fuel Hf].
    exists (S fuel). cbn [decode_loop]. pose proof (py_get_bound _ _ _ Hn Hoff). if_false.
    rewrite Hn, Hc. cbn [Z.eqb negb]. rewrite (proj2 (Z.eqb_neq _ _)) by done. if_false.
    rewrite Hf. by rewrite <-app_assoc.
  - destruct (IH acc true (if jumped then orig else off + 2)) as [fuel Hf].
    exists (S fuel). cbn [decode_loop]. pose proof (py_get_bound _ _ _ Hn Hoff). if_false.
    rewrite Hn, (proj2 (Z.eqb_neq _ _)) by done. cbn [negb]. rewrite Hlow, Hf.
    by destruct jumped.
Qed.

Lemma decode_loop_sound fuel data off acc jumped orig labels fin :
  bytes_ok data → 0 <= off →
  decode_loop fuel data off acc jumped orig = Some (Ok (labels, fin)) →
  ∃ ls next, labels = acc ++ ls ∧ fin = final jumped orig next ∧ name_at data off ls next.
Proof.
  intros Hd. revert off acc jumped orig.
  induction fuel as [|fuel IH]; intros off acc jumped orig Hoff H; [done|].
  cbn [decode_loop] in H. destruct (len data <=? off) eqn:El; [done|].
  destruct (py_get data off) as [n|e] eqn:En; [|done].
  assert (byte_ok n) as Hb.
  { rewrite py_get_lookup in En by done. destruct (data !! Z.to_nat off) eqn:Ed; [|done].
    injection En as <-. rewrite Forall_forall in Hd. apply Hd. by eapply list_elem_of_lookup_2. }
  unfold byte_ok in Hb.
  destruct (Z.land n 0xC0 =? 0) eqn:Ec; cbn [negb] in H.
  - destruct (n =? 0) eqn:E0.
    + injection H as <- <-. exists [], (off + 1). rewrite app_nil_r. split; [done|].
      split; [done|]. apply name_end; [|done]. rewrite En. f_equal. lia.
    + destruct (len data <? off + 1 + n) eqn:El2; [done|].
      apply IH in H as (ls & next & -> & -> & Hat); [|lia].
      eexists (_ :: ls), next. rewrite <-app_assoc. split; [done|]. split; [done|].
      eapply name_label; try done; lia.
  - destruct (py_get data (off + 1)) as [low|e] eqn:Elow; [|done].
    assert (0 <= low) as Hlow.
    { rewrite py_get_lookup in Elow by lia. destruct (data !! Z.to_nat (off + 1)) eqn:Ed; [|done].
      injection Elow as <-. rewrite Forall_forall in Hd.
      apply list_elem_of_lookup_2 in Ed. apply Hd in Ed. unfold byte_ok in Ed. lia. }
    apply IH in H as (ls & next & -> & -> & Hat).
    + exists ls, (off + 2). split; [done|]. split; [by destruct jumped|].
      eapply name_pointer; try done. lia.
    + apply Z.lor_nonneg. split; [|done]. apply Z.shiftl_nonneg, Z.land_nonneg. lia.
Qed.

(** * Lemmas: encoding names *)

(** A label that the wire format can carry. *)
Definition label_ok (l : text) : Prop :=
  1 <= len l <= 63 ∧ Forall (λ c, 0 <= c < 128) l ∧ DOT ∉ l.

Lemma ascii_only_ok l : Forall (λ c, 0 <= c < 128) l → ascii_only l = l.
Proof.
  unfold ascii_only. induction 1 as [|c l Hc Hl IH]; [done|].
  rewrite filter_cons_True by lia. by rewrite IH.
Qed.

Definition wire_label (l : text) : bytes := len l :: l.

Lemma length_wire_label l : length (wire_label l) = S (length l).
Proof. done. Qed.

Lemma encode_label_ok l : label_ok l → encode_label l = Ok (wire_label l).
Proof. intros (Hl & Ha & _). unfold encode_label. if_false. by rewrite ascii_only_ok. Qed.

Lemma rstrip_dot_snoc l c : c ≠ DOT → rstrip_dot ((l ++ [c]) ++ [DOT]) = l ++ [c].
Proof.
  intros Hc. unfold rstrip_dot. rewrite reverse_app. cbn [reverse rev_append app].
  rewrite Z.eqb_refl. rewrite reverse_app. cbn [reverse rev_append app].
  rewrite (proj2 (Z.eqb_neq _ _)) by done.
  change (reverse ([c] ++ reverse l) = l ++ [c]). by rewrite reverse_app, reverse_involutive.
Qed.

Lemma join_with_snoc ls :
  ls ≠ [] → Forall label_ok ls → ∃ l c, join_with DOT ls = l ++ [c] ∧ c ≠ DOT.
Proof.
  intros Hne Hls. induction Hls as [|p ls Hp Hls IH]; [done|].
  destruct ls as [|q ls].
  - cbn [join_with]. destruct Hp as (Hl & _ & Hdot).
    destruct p as [|c p _] using rev_ind; [simpl in Hl; lia|].
    exists p, c. split; [done|]. intros ->. apply Hdot. apply elem_of_app. right. left.
  - destruct (IH ltac:(done)) as (l & c & E & Hc). exists (p ++ DOT :: l), c. split; [|done].
    change (join_with DOT (p :: q :: ls)) with (p ++ DOT :: join_with DOT (q :: ls)).
    rewrite E. by rewrite <-app_assoc.
Qed.

Lemma encode_name_ok ls :
  ls ≠ [] → Forall label_ok ls → encode_name (name_of ls) = Ok (concat (wire_label <$> ls) ++ [0]).
Proof.
  intros Hne Hls. unfold encode_name, name_of.
  destruct (join_with_snoc ls Hne Hls) as (l & c & E & Hc).
  rewrite bool_decide_false.
  2:{ rewrite E. intros H. apply (f_equal length) in H. rewrite !length_app in H. simpl in H. lia. }
  rewrite E, rstrip_dot_snoc, <-E by done. rewrite split_join; [|done|].
  2:{ eapply Forall_impl; [exact Hls|]. by intros ? (_ & _ & ?). }
  assert (res_map encode_label ls = Ok (wire_label <$> ls)) as ->; [|done].
  clear E Hne. induction Hls as [|p ls Hp Hls IH]; [done|]. cbn [res_map].
  rewrite encode_label_ok by done. cbn [mbind res_bind]. by rewrite IH.
Qed.

Lemma name_at_encoded ls p s :
  Forall label_ok ls →
  name_at (p ++ (concat (wire_label <$> ls) ++ [0]) ++ s) (len p) ls
    (len p + len (concat (wire_label <$> ls) ++ [0])).
Proof.
  intros Hls. revert p. induction Hls as [|l ls Hl Hls IH]; intros p.
  - cbn. apply name_end; [apply py_get_app_mid|lia].
  - cbn [fmap list_fmap concat]. destruct Hl as (Hlen & Hasc & _).
    specialize (IH (p ++ wire_label l)).
    assert (p ++ ((wire_label l ++ concat (wire_label <$> ls)) ++ [0]) ++ s =
            (p ++ wire_label l) ++ (concat (wire_label <$> ls) ++ [0]) ++ s) as E
      by (by rewrite <-!app_assoc).
    cbn [fmap list_fmap] in *. rewrite E. set (data := (p ++ wire_label l) ++ _) in *.
    assert (data = p ++ len l :: l ++ (concat (wire_label <$> ls) ++ [0]) ++ s) as Ed
      by (unfold data, wire_label; by rewrite <-!app_assoc).
    assert (py_slice data (len p + 1) (len p + 1 + len l) = l) as Hsl.
    { rewrite Ed, (cons_middle _ p).
      apply (py_slice_at _ (p ++ [len l]) l ((concat (wire_label <$> ls) ++ [0]) ++ s));
        [by rewrite <-!app_assoc|rewrite length_app; simpl; lia|done]. }
    match goal with |- name_at _ _ _ ?e => assert (name_at data (len p)
      (ascii_only (py_slice data (len p + 1) (len p + 1 + len l)) :: ls) e) as H;
      [|by rewrite Hsl, ascii_only_ok in H] end.
    eapply name_label.
    + rewrite Ed. apply py_get_app_mid.
    + lia.
    + change 0xC0 with (Z.shiftl 3 6). apply Z.bits_inj'. intros i Hi.
      rewrite Z.land_spec, Z.bits_0. destruct (decide (i < 6)).
      * rewrite Z.shiftl_spec_low by lia. apply andb_false_r.
      * rewrite (testbit_above 6) by lia. done.
    + lia.
    + rewrite Ed. rewrite length_app. cbn [length]. rewrite length_app. lia.
    + rewrite length_app, length_wire_label in IH.
      replace (len p + 1 + len l) with (Z.of_nat (length p + S (length l))) by lia.
      replace (len p + len ((wire_label l ++ concat (wire_label <$> ls)) ++ [0]))
        with (Z.of_nat (length p + S (length l)) + len (concat (wire_label <$> ls) ++ [0]));
        [exact IH|].
      rewrite !length_app, length_wire_label. cbn [length]. lia.
Qed.

(** * Lemmas: the cache *)

Import LRUCache.

Section lru.
Context {K V : Type} `{EqDecision K}.
Implicit Types (l : list (K * V)) (c : LRUCache.t K V).

Lemma find_app key l1 l2 :
  find key (l1 ++ l2) = match find key l1 with Some v => Some v | None => find key l2 end.
Proof. induction l1 as [|[k v] l1 IH]; [done|]. simpl. by case_decide. Qed.

Lemma find_drop_key key k l :
  find k (drop_key key l) = if decide (k = key) then None else find k l.
Proof.
  unfold drop_key. induction l as [|[k' v] l IH]; simpl; [by case_decide|].
  destruct (decide (k' = key)) as [->|Hne].
  - rewrite filter_cons_False by (simpl; intros H'; by apply H').
    rewrite IH. case_decide; [done|]. by rewrite decide_False by congruence.
  - rewrite filter_cons_True by done. simpl. rewrite IH.
    destruct (decide (k' = k)) as [->|]; [by rewrite decide_False by done|done].
Qed.

Lemma find_None_notin key l : find key l = None ↔ key ∉ l.*1.
Proof.
  induction l as [|[k v] l IH]; simpl; [split; [intros _; apply not_elem_of_nil|done]|].
  rewrite not_elem_of_cons. case_decide as E; [split; [done|intros []; congruence]|].
  rewrite IH. split; [intros ?; split; [congruence|done]|by intros []].
Qed.

Lemma drop_key_NoDup key l : NoDup l.*1 → NoDup (drop_key key l).*1 ∧ key ∉ (drop_key key l).*1.
Proof.
  intros H. split.
  - unfold drop_key. induction l as [|[k v] l IH]; [constructor|].
    cbn in H. apply NoDup_cons in H as [Hk H]. rewrite filter_cons. case_decide; [|by apply IH].
    cbn. constructor; [|by apply IH]. intros Hin. apply Hk.
    apply list_elem_of_fmap in Hin as ([k' v'] & -> & Hin). apply list_elem_of_filter in Hin as [_ Hin].
    apply list_elem_of_fmap. by exists (k', v').
  - apply find_None_notin. rewrite find_drop_key. by rewrite decide_True.
Qed.

Definition cache_ok c : Prop := NoDup (cache c).*1 ∧ len (cache c) <= Z.max 0 (maxsize c).

Lemma move_to_end_NoDup key v l : NoDup l.*1 → NoDup (drop_key key l ++ [(key, v)]).*1.
Proof.
  intros H. apply (drop_key_NoDup key) in H as [H1 H2]. rewrite fmap_app. cbn.
  apply NoDup_app. split; [done|]. split; [|apply NoDup_singleton].
  intros k Hk Hin. apply list_elem_of_singleton in Hin as ->. by apply H2.
Qed.

Lemma length_drop_key key l v :
  NoDup l.*1 → find key l = Some v → S (length (drop_key key l)) = length l.
Proof.
  unfold drop_key. induction l as [|[k w] l IH]; [done|]. intros H Hf.
  cbn [fmap list_fmap fst] in H. cbn [find] in Hf.
  apply NoDup_cons in H as [Hk H]. destruct (decide (k = key)) as [E|E].
  - subst k. rewrite filter_cons_False by (simpl; intros H'; by apply H').
    cbn [length]. f_equal. assert (filter (λ kv, kv.1 ≠ key) l = l) as ->; [|done].
    clear -Hk. induction l as [|[k v'] l IH]; [done|]. cbn in Hk. apply not_elem_of_cons in Hk as [? ?].
    rewrite filter_cons_True by (simpl; congruence). by rewrite IH.
  - rewrite filter_cons_True by done. cbn [length]. f_equal. by apply IH.
Qed.

Lemma drop_key_absent key l : find key l = None → drop_key key l = l.
Proof.
  unfold drop_key. induction l as [|[k v] l IH]; [done|]. cbn [find]. intros Hf.
  destruct (decide (k = key)); [done|]. rewrite filter_cons_True by done. by rewrite IH.
Qed.

Lemma length_drop_key_le key l : (length (drop_key key l) <= length l)%nat.
Proof. apply length_filter. Qed.

Lemma get_ok key c : cache_ok c → cache_ok (get key c).1.
Proof.
  intros [Hn Hl]. unfold get. destruct (find key (cache c)) as [v|] eqn:E; [|done].
  split; cbn [cache maxsize fst]; [by apply move_to_end_NoDup|].
  rewrite length_app. cbn. pose proof (length_drop_key key _ v Hn E). lia.
Qed.

Lemma put_ok key v c : cache_ok c → cache_ok (put key v c).
Proof.
  intros [Hn Hl]. unfold put, cache_ok. cbn [cache maxsize].
  pose proof (move_to_end_NoDup key v _ Hn) as Hn'.
  pose proof (length_drop_key_le key (cache c)).
  destruct (maxsize c <? _) eqn:E.
  - split.
    + rewrite fmap_drop. rewrite <-(take_drop 1 (_.*1)) in Hn'. by apply NoDup_app in Hn' as (_ & _ & ?).
    + rewrite length_drop, length_app. cbn. lia.
  - split; [done|]. lia.
Qed.

Lemma remove_ok key c : cache_ok c → cache_ok (remove key c).1.
Proof.
  intros [Hn Hl]. unfold remove. destruct (find key (cache c)); [|done].
  split; cbn [cache maxsize fst]; [by apply drop_key_NoDup|].
  pose proof (length_drop_key_le key (cache c)). lia.
Qed.

(** What [put] does to the lookups. *)
Lemma put_find key v c :
  NoDup (cache c).*1 → len (cache c) <= maxsize c → 1 <= maxsize c →
  find key (cache (put key v c)) = Some v ∧
  ∀ k, k ≠ key → find k (cache (put key v c)) =
    if match cache c with
       | (k0, _) :: _ => bool_decide (k = k0) && (len (cache c) =? maxsize c) &&
                         bool_decide (find key (cache c) = None)
       | [] => false
       end then None else find k (cache c).
Proof.
  intros Hn Hl Hm. unfold put. cbn [cache]. rewrite length_app. cbn [length].
  destruct (find key (cache c)) as [w|] eqn:Ef.
  - pose proof (length_drop_key key _ w Hn Ef). if_false. rewrite bool_decide_false by done.
    split.
    + rewrite find_app, find_drop_key, decide_True by done. simpl. by rewrite decide_True.
    + intros k Hk. rewrite find_app, find_drop_key, decide_False by done. simpl.
      rewrite decide_False by congruence.
      destruct (cache c) as [|[k0 v0] l]; [done|]. rewrite andb_false_r. by destruct (find k _).
  - assert (drop_key key (cache c) = cache c) as Ed by (by apply drop_key_absent).
    rewrite Ed, bool_decide_true by done.
    destruct (cache c) as [|[k0 v0] l] eqn:Ec.
    + cbn [length app]. if_false. simpl. rewrite decide_True by done. split; [done|].
      intros k Hk. by rewrite decide_False by congruence.
    + cbn [find] in Ef. case_decide; [done|].
      destruct (maxsize c <? _) eqn:E; cbn [app drop].
      * rewrite drop_0. split; [by rewrite find_app, Ef; simpl; rewrite decide_True by done|].
        intros k Hk. cbn [length] in *. assert ((Z.of_nat (S (length l)) =? maxsize c) = true) as -> by lia.
        rewrite !andb_true_r, find_app. cbn [find].
        rewrite (decide_False (P := key = k)) by congruence.
        cbn in Hn. apply NoDup_cons in Hn as [Hn0 _].
        destruct (decide (k0 = k)) as [<-|].
        -- rewrite bool_decide_true by done. apply find_None_notin in Hn0. by rewrite Hn0.
        -- rewrite bool_decide_false by congruence. by destruct (find k l).
      * split; [cbn [find]; rewrite decide_False by done; rewrite find_app, Ef; simpl;
                by rewrite decide_True by done|].
        intros k Hk. cbn [length] in *. assert ((Z.of_nat (S (length l)) =? maxsize c) = false) as -> by lia.
        rewrite andb_false_r, andb_false_l. cbn [find].
        destruct (decide (k0 = k)); [done|]. rewrite find_app. cbn [find].
        rewrite (decide_False (P := key = k)) by congruence. by destruct (find k l).
Qed.

Inductive cache_op := COGet (k : K) | COPut (k : K) (v : V) | CORemove (k : K) | COClear.

Definition run_cache_op c (o : cache_op) : LRUCache.t K V :=
  match o with
  | COGet k => (get k c).1
  | COPut k v => put k v c
  | CORemove k => (remove k c).1
  | COClear => clear c
  end.

Lemma run_cache_op_ok c o : cache_ok c → cache_ok (run_cache_op c o).
Proof.
  intros H. destruct o; cbn [run_cache_op]; [by apply get_ok|by apply put_ok|by apply remove_ok|].
  split; cbn; [constructor|lia].
Qed.

Lemma run_cache_op_maxsize c o : maxsize (run_cache_op c o) = maxsize c.
Proof.
  destruct o; cbn; try done; unfold get, remove; by destruct (find _ _).
Qed.

Lemma run_cache_ok ops c : cache_ok c → cache_ok (foldl run_cache_op c ops).
Proof.
  revert c. induction ops as [|o ops IH]; intros c H; [done|]. by apply IH, run_cache_op_ok.
Qed.

Lemma run_cache_maxsize ops c : maxsize (foldl run_cache_op c ops) = maxsize c.
Proof.
  revert c. induction ops as [|o ops IH]; intros c; [done|]. cbn. rewrite IH.
  apply run_cache_op_maxsize.
Qed.
End lru.

(** * Properties *)

(** The name decoder computes exactly the names the message contains:
    [_decode_name] returns a name and an offset, with some number of turns of its
    loop, if and only if there are labels at that position, read through
    compression pointers, that spell the name, and the offset is that of the byte
    after them (after the first pointer, when there is one). *)
Theorem dns_decode_name_spec data off nm next :
  bytes_ok data → 0 <= off →
  (∃ fuel, decode_name fuel data off = Some (Ok (nm, next))) ↔
  (∃ labels, name_at data off labels next ∧ nm = name_of labels).
Proof.
  intros Hd Hoff. split.
  - intros (fuel & H). unfold decode_name in H.
    destruct (decode_loop fuel data off [] false off) as [[[labels fin]|e]|] eqn:E; try done.
    cbn in H. injection H as <- <-.
    apply decode_loop_sound in E as (ls & nx & -> & -> & Hat); [|done..].
    exists ls. done.
  - intros (labels & Hat & ->).
    destruct (decode_name_loop_complete data off labels next Hat [] false off) as [fuel H].
    exists fuel. unfold decode_name. by rewrite H.
Qed.

Lemma dns_decode_name_spec_witness :
  (∃ fuel, decode_name fuel [1; 97; 0; 1; 98; 192; 0] 3 = Some (Ok (name_of [[98]; [97]], 7))) .
Proof.
  apply (dns_decode_name_spec [1; 97; 0; 1; 98; 192; 0] 3).
  - repeat constructor; lia.
  - lia.
  - exists [[98]; [97]]. split; [|reflexivity].
    change (name_at [1; 97; 0; 1; 98; 192; 0] 3
      [ascii_only (py_slice [1; 97; 0; 1; 98; 192; 0] 4 5);
       ascii_only (py_slice [1; 97; 0; 1; 98; 192; 0] 1 2)] 7).
    apply (name_label [1; 97; 0; 1; 98; 192; 0] 3 1
      [ascii_only (py_slice [1; 97; 0; 1; 98; 192; 0] 1 2)] 7); [reflexivity|lia|reflexivity|lia|cbn; lia|].
    apply (name_pointer _ 5 192 0 [ascii_only (py_slice [1; 97; 0; 1; 98; 192; 0] 1 2)] 3); [reflexivity|lia|vm_compute; discriminate|reflexivity|].
    apply (name_label [1; 97; 0; 1; 98; 192; 0] 0 1 [] 3); [reflexivity|lia|reflexivity|lia|cbn; lia|].
    apply (name_end _ 2); [reflexivity|lia].
Defined.

(** A question encoded anywhere in a message decodes to itself, with the offset
    of the byte after it, for every name of one or more labels of 1 to 63 ASCII
    characters. *)
Theorem dns_question_roundtrip ls ty cl p s :
  ls ≠ [] → Forall label_ok ls → dns_type_ok ty = true → dns_class_ok cl = true →
  let q := {| qname := name_of ls; qtype := ty; qclass := cl |} in
  ∃ b fuel, encode q = Ok b ∧ decode fuel (p ++ b ++ s) (len p) = Some (Ok (q, len p + len b)).
Proof.
  intros Hne Hls Hty Hcl q.
  assert (0 <= ty < 65536) as Hty'.
  { unfold dns_type_ok in Hty. apply bool_decide_eq_true in Hty.
    repeat (apply elem_of_cons in Hty as [->|Hty]; [lia|]). by apply elem_of_nil in Hty. }
  assert (0 <= cl < 65536) as Hcl'.
  { unfold dns_class_ok in Hcl. apply bool_decide_eq_true in Hcl.
    repeat (apply elem_of_cons in Hcl as [->|Hcl]; [lia|]). by apply elem_of_nil in Hcl. }
  set (n := concat (wire_label <$> ls) ++ [0]). set (four := be_bytes 2 ty ++ be_bytes 2 cl).
  pose proof (name_at_encoded ls p (four ++ s) Hls) as Hat. fold n in Hat.
  destruct (decode_name_loop_complete _ _ _ _ Hat [] false (len p)) as [fuel Hf].
  exists (n ++ four), fuel. split.
  - unfold encode. cbn [qname q qtype qclass]. rewrite encode_name_ok by done.
    rewrite !pack_u_ok by (unfold width; simpl Z.of_nat; lia). done.
  - unfold decode, decode_name. rewrite <-app_assoc, Hf. cbn [mbind option_bind res_bind final app].
    rewrite (py_slice_at (p ++ n ++ four ++ s) (p ++ n) four s);
      [|by rewrite <-app_assoc|rewrite length_app; lia|done].
    unfold four at 1 2 3. rewrite !be_bytes_2 by lia. cbn [app length].
    unfold guard_else. cbn [Z.of_nat Z.eqb Pos.of_succ_nat Pos.succ Pos.eqb mbind res_bind]. fields.
    rewrite !unpack_be_2_split. cbn [mbind res_bind]. rewrite Hty, Hcl. cbn [mbind res_bind].
    change (Z.of_nat 4 =? 4) with true. cbn [mbind res_bind].
    rewrite length_app. unfold four. rewrite length_app, !length_be_bytes. do 3 f_equal. lia.
Qed.

Lemma dns_question_roundtrip_witness :
  ∃ b fuel, encode {| qname := name_of [[119; 119; 119]; [97]]; qtype := 1; qclass := 1 |} = Ok b ∧
    decode fuel ([0; 0] ++ b ++ [5]) 2 =
    Some (Ok ({| qname := name_of [[119; 119; 119]; [97]]; qtype := 1; qclass := 1 |}, 2 + len b)).
Proof.
  apply (dns_question_roundtrip [[119; 119; 119]; [97]] 1 1 [0; 0] [5]); try done.
  assert (∀ l : text, bool_decide (label_ok l) = true → label_ok l) as H
    by (intros l; apply bool_decide_eq_true).
  repeat constructor; try (cbn; lia); intros Hin;
    repeat (apply elem_of_cons in Hin as [Hin|Hin]; [discriminate|]); by apply elem_of_nil in Hin.
Defined.

(** A compression pointer that points at itself makes the decoder loop
    forever: no number of turns is enough. *)
Theorem dns_pointer_loop_diverges data off n low :
  0 <= off → py_get data off = Ok n → Z.land n 0xC0 ≠ 0 → py_get data (off + 1) = Ok low →
  Z.lor (Z.shiftl (Z.land n 0x3F) 8) low = off →
  ∀ fuel, decode_name fuel data off = None.
Proof.
  intros Hoff Hn Hc Hlow Hp fuel.
  assert (∀ labels jumped orig, decode_loop fuel data off labels jumped orig = None) as H.
  { induction fuel as [|fuel IH]; intros labels jumped orig; [done|]. cbn [decode_loop].
    pose proof (py_get_bound _ _ _ Hn Hoff). if_false.
    rewrite Hn, (proj2 (Z.eqb_neq _ _)) by done. cbn [negb]. rewrite Hlow, Hp. apply IH. }
  unfold decode_name. by rewrite H.
Qed.

Lemma dns_pointer_loop_diverges_witness : decode_name (Z.to_nat 1000000) [192; 0] 0 = None.
Proof.
  apply (dns_pointer_loop_diverges [192; 0] 0 192 0); [lia|reflexivity|vm_compute; discriminate
    |reflexivity|reflexivity].
Defined.

(** After any sequence of operations the cache holds distinct keys, at most
    [maxsize] of them; then [put] makes its key present with its value, keeps every
    other entry when there is room or the key was there, and otherwise drops
    exactly the least recently used entry. *)
Theorem lru_cache_spec {K V} `{EqDecision K} (max : Z) (ops : list (cache_op (K := K) (V := V))) key v :
  1 <= max →
  let c := foldl run_cache_op (init_cache max) ops in
  let c' := put key v c in
  NoDup (cache c).*1 ∧ len (cache c) <= max ∧
  find key (cache c') = Some v ∧
  ∀ k, k ≠ key →
    find k (cache c') =
      match cache c with
      | (k0, _) :: _ =>
          if bool_decide (k = k0) && (len (cache c) =? max) &&
             bool_decide (find key (cache c) = None)
          then None else find k (cache c)
      | [] => None
      end.
Proof.
  intros Hmax c c'. assert (cache_ok c) as Hok.
  { apply run_cache_ok. split; cbn; [constructor|lia]. }
  assert (maxsize c = max) as Hm by (unfold c; by rewrite run_cache_maxsize).
  destruct Hok as [Hn Hl]. rewrite Hm in Hl. split; [done|]. split; [lia|].
  destruct (put_find key v c Hn) as [Hp1 Hp2]; [lia..|]. split; [done|]. intros k Hk.
  unfold c'. rewrite Hp2 by done. rewrite Hm.
  destruct (cache c) as [|[k0 v0] l] eqn:Ec; [done|].
  rewrite Z.max_r in Hl by lia.
  destruct (bool_decide (k = k0)), (bool_decide (find key _ = None)), (len _ =? max) eqn:E;
    cbn [andb]; try done; by if_false || by if_true.
Qed.

Lemma lru_cache_spec_witness :
  let c := foldl run_cache_op (init_cache 2) [COPut 1 10; COPut 2 20; COGet 1] in
  find 3 (cache (put 3 30 c)) = Some 30 ∧ find 1 (cache (put 3 30 c)) = Some 10 ∧
  find 2 (cache (put 3 30 c)) = None.
Proof.
  intros c. destruct (lru_cache_spec 2 [COPut 1 10; COPut 2 20; COGet 1] 3 30) as (_ & _ & H & Hk);
    [lia|].
  split; [exact H|]. split; [apply (Hk 1); lia|apply (Hk 2); lia].
Defined.
