(* ===== verification/Page.v ===== *)
(** Database pages: database/src/storage/page.py, [PageType], [PageId] and [Page].

    A page is its fields and its [bytearray]; the header lives in the first twenty
    bytes of the array and is written there when a page is made or serialised. The
    data area starts at byte 24. Pages are mutable objects: the operations are
    methods, and the sharing of pages between the buffer pool and its clients is
    modelled in the file Buffer. *)

From S2P Require Import Prelude Bytes.

Inductive PageType :=
  | FREE | BTREE_NODE | BTREE_LEAF | BTREE_INTERNAL | BTREE_ROOT | CATALOG | WAL_PAGE
  | CHECKPOINT | OVERFLOW | VECTOR_PAGE | DOCUMENT_PAGE | META_PAGE.

#[export] Instance PageType_eq_dec : EqDecision PageType.
Proof. solve_decision. Defined.

Definition page_types : list PageType :=
  [FREE; BTREE_NODE; BTREE_LEAF; BTREE_INTERNAL; BTREE_ROOT; CATALOG; WAL_PAGE;
   CHECKPOINT; OVERFLOW; VECTOR_PAGE; DOCUMENT_PAGE; META_PAGE].

(** [int(page_type)]. *)
Definition page_type_int (ty : PageType) : Z :=
  match ty with
  | FREE => 0 | BTREE_NODE => 1 | BTREE_LEAF => 2 | BTREE_INTERNAL => 3 | BTREE_ROOT => 4
  | CATALOG => 5 | WAL_PAGE => 6 | CHECKPOINT => 7 | OVERFLOW => 8 | VECTOR_PAGE => 9
  | DOCUMENT_PAGE => 10 | META_PAGE => 11
  end.

(** [PageType(n)]. *)
Definition page_type_of (n : Z) : res PageType :=
  match (if n <? 0 then None else page_types !! Z.to_nat n) with
  | Some ty => Ok ty
  | None => Err ValueError
  end.

Module PageId.
Record t := mk { page_num : Z; table_id : Z }.

#[global] Instance t_eq_dec : EqDecision t.
Proof. solve_decision. Defined.
#[global] Instance t_countable : Countable t.
Proof.
  apply (inj_countable' (λ i, (table_id i, page_num i)) (λ x, mk x.2 x.1)). by intros [].
Defined.

Definition to_bytes (i : t) : res bytes :=
  a ← pack_be 4 (table_id i); b ← pack_be 4 (page_num i); Ok (a ++ b).

Definition from_bytes (data : bytes) (offset : Z) : res (t * Z) :=
  tid ← unpack_be_from 4 data offset;
  num ← unpack_be_from 4 data (offset + 4);
  Ok (mk num tid, offset + 8).
End PageId.

Module Page.
Definition HEADER_SIZE : Z := 24.

Record t := {
  page_id : PageId.t;
  page_type : PageType;
  page_size : Z;
  data : bytes;
  dirty : bool;
  pin_count : Z;
  free_offset : Z;
  flags : Z;
  version : Z;
}.

Definition with_data (d : bytes) (p : t) : t :=
  {| page_id := page_id p; page_type := page_type p; page_size := page_size p; data := d;
     dirty := dirty p; pin_count := pin_count p; free_offset := free_offset p;
     flags := flags p; version := version p |}.
Definition with_dirty (b : bool) (p : t) : t :=
  {| page_id := page_id p; page_type := page_type p; page_size := page_size p;
     data := data p; dirty := b; pin_count := pin_count p; free_offset := free_offset p;
     flags := flags p; version := version p |}.
Definition with_pin (n : Z) (p : t) : t :=
  {| page_id := page_id p; page_type := page_type p; page_size := page_size p;
     data := data p; dirty := dirty p; pin_count := n; free_offset := free_offset p;
     flags := flags p; version := version p |}.
Definition with_free (n : Z) (p : t) : t :=
  {| page_id := page_id p; page_type := page_type p; page_size := page_size p;
     data := data p; dirty := dirty p; pin_count := pin_count p; free_offset := n;
     flags := flags p; version := version p |}.

(** The format [!IIHHII] of the header. *)
Definition header_fields (p : t) : list (nat * res bytes) :=
  [(4%nat, pack_be 4 (PageId.page_num (page_id p)));
   (4%nat, pack_be 4 (PageId.table_id (page_id p)));
   (2%nat, pack_be 2 (page_type_int (page_type p)));
   (2%nat, pack_be 2 (free_offset p));
   (4%nat, pack_be 4 (flags p));
   (4%nat, pack_be 4 (version p))].

Definition write_header : method t () := λ p,
  let '(d, r) := pack_into (header_fields p) (data p) 0 in (with_data d p, r).

(** [__init__]; [bytearray(page_size)] refuses a negative size. *)
Definition init (id : PageId.t) (ty : PageType) (size : Z) : res t :=
  if size <? 0 then Err ValueError
  else
    let '(p, r) := write_header
      {| page_id := id; page_type := ty; page_size := size; data := py_repeat size 0;
         dirty := false; pin_count := 0; free_offset := HEADER_SIZE; flags := 0;
         version := 1 |} in
    _ ← r; Ok p.

Definition read_header (size : Z) (d : bytes) : res t :=
  num ← unpack_be_from 4 d 0;
  tid ← unpack_be_from 4 d 4;
  ty_int ← unpack_be_from 2 d 8;
  free ← unpack_be_from 2 d 10;
  fl ← unpack_be_from 4 d 12;
  ver ← unpack_be_from 4 d 16;
  ty ← page_type_of ty_int;
  Ok {| page_id := PageId.mk num tid; page_type := ty; page_size := size; data := d;
        dirty := false; pin_count := 0; free_offset := free; flags := fl; version := ver |}.

Definition from_bytes (d : bytes) (size : Z) : res t := read_header size d.

Definition to_bytes : method t bytes :=
  let! _ := write_header in let! p := m_get in m_ret (data p).

Definition free_space (p : t) : Z := page_size p - free_offset p.

Definition set_free_offset (offset : Z) (p : t) : t := with_dirty true (with_free offset p).

Definition write_data (offset : Z) (x : bytes) : method t () := λ p,
  let last := offset + len x in
  if page_size p <? last then (p, Err ValueError)
  else (with_dirty true (with_data (py_slice_set (data p) offset last x) p), Ok ()).

Definition read_data (p : t) (offset length : Z) : res bytes :=
  let last := offset + length in
  if page_size p <? last then Err ValueError else Ok (py_slice (data p) offset last).

Definition append_data (x : bytes) : method t Z := λ p,
  if free_space p <? len x then (p, Err ValueError)
  else
    let offset := free_offset p in
    (with_dirty true (with_free (free_offset p + len x)
       (with_data (py_slice_set (data p) offset (offset + len x) x) p)), Ok offset).

Definition clear (p : t) : t :=
  with_dirty true (with_free HEADER_SIZE
    (with_data (py_slice_set (data p) HEADER_SIZE (len (data p))
                  (py_repeat (page_size p - HEADER_SIZE) 0)) p)).

Definition pin (p : t) : t := with_pin (pin_count p + 1) p.
Definition unpin (p : t) : t := if 0 <? pin_count p then with_pin (pin_count p - 1) p else p.
Definition is_pinned (p : t) : bool := 0 <? pin_count p.
End Page.

(** * Lemmas *)

Import Page.

Lemma page_type_of_int ty : page_type_of (page_type_int ty) = Ok ty.
Proof. by destruct ty. Qed.

Lemma page_type_int_bound ty : 0 <= page_type_int ty < 12.
Proof. destruct ty; cbn; lia. Qed.

(** What the header can carry. *)
Record header_ok (p : t) : Prop := {
  ho_num : 0 <= PageId.page_num (page_id p) < 2 ^ 32;
  ho_table : 0 <= PageId.table_id (page_id p) < 2 ^ 32;
  ho_free : 0 <= free_offset p < 65536;
  ho_flags : 0 <= flags p < 2 ^ 32;
  ho_version : 0 <= version p < 2 ^ 32;
}.

(** The twenty bytes of the header. *)
Definition header_bytes (p : t) : bytes :=
  be_bytes 4 (PageId.page_num (page_id p)) ++ be_bytes 4 (PageId.table_id (page_id p)) ++
  be_bytes 2 (page_type_int (page_type p)) ++ be_bytes 2 (free_offset p) ++
  be_bytes 4 (flags p) ++ be_bytes 4 (version p).

Lemma length_header_bytes p : length (header_bytes p) = 20%nat.
Proof. unfold header_bytes. by rewrite !length_app, !length_be_bytes. Qed.

Lemma pack_be_length n v x : pack_be n v = Ok x → length x = n.
Proof. intros H. apply pack_u_inv in H as [_ ->]. apply length_be_bytes. Qed.

Lemma header_fields_sizes p :
  Forall (λ f : nat * res bytes, ∀ x, f.2 = Ok x → length x = f.1) (header_fields p).
Proof. repeat constructor; cbn [fst snd]; intros x; apply pack_be_length. Qed.

Lemma pack_header p : header_ok p → pack_fields (header_fields p) = (header_bytes p, Ok ()).
Proof.
  intros []. pose proof (page_type_int_bound (page_type p)). unfold header_fields.
  rewrite !pack_u_ok by (unfold width; simpl Z.of_nat; lia). cbn [pack_fields].
  unfold header_bytes. by rewrite app_nil_r.
Qed.

Lemma write_header_ok p :
  header_ok p → 20 <= len (data p) →
  write_header p = (with_data (py_slice_set (data p) 0 20 (header_bytes p)) p, Ok ()).
Proof.
  intros Hp Hl. unfold write_header.
  rewrite pack_into_range by (apply header_fields_sizes || cbn; lia).
  rewrite pack_header by done. cbn [fst snd]. by rewrite length_header_bytes.
Qed.

Lemma header_fields_inv p x u : pack_fields (header_fields p) = (x, Ok u) → header_ok p.
Proof.
  intros H. apply pack_fields_inv in H. unfold header_fields in H.
  rewrite !Forall_cons in H. cbn [snd] in H.
  destruct H as ([? [H1 _]%pack_u_inv] & [? [H2 _]%pack_u_inv] & _ & [? [H4 _]%pack_u_inv] &
                 [? [H5 _]%pack_u_inv] & [? [H6 _]%pack_u_inv] & _).
  by split.
Qed.

(** A page whose header did not pack was never made. *)
Lemma init_inv id ty size p :
  init id ty size = Ok p →
  header_ok p ∧ page_id p = id ∧ page_type p = ty ∧ page_size p = size ∧
  len (data p) = size ∧ 20 <= size ∧ free_offset p = HEADER_SIZE.
Proof.
  unfold init. case_ifs; [done|]. unfold write_header. intros H.
  set (p0 := {| page_id := id; page_type := ty; page_size := size; data := py_repeat size 0;
                dirty := false; pin_count := 0; free_offset := HEADER_SIZE; flags := 0;
                version := 1 |}) in *.
  destruct (decide (20 <= size)).
  - rewrite pack_into_range in H;
      [|apply header_fields_sizes|lia|cbn [data p0]; rewrite length_py_repeat; cbn; lia].
    destruct (pack_fields (header_fields p0)) as [x r] eqn:E. cbn [fst snd] in H.
    pose proof (length_pack_fields _ (header_fields_sizes p0)) as Hx. rewrite E in Hx. cbn in Hx.
    destruct r; [|done]. cbn in H. injection H as <-.
    cbn [page_id page_type page_size data free_offset with_data].
    rewrite length_py_slice_set by (rewrite ?length_py_repeat; lia).
    rewrite length_py_repeat. destruct (header_fields_inv p0 _ _ E) as [].
    split; [by split|]. repeat split; (lia || done).
  - rewrite pack_into_short in H; [done|lia|].
    cbn [data p0]. rewrite length_py_repeat. cbn. lia.
Qed.

(** ** Appending *)

(** [append_all l]: append each blob of a list; the offsets they got. *)
Fixpoint append_all (l : list bytes) : method t (list Z) :=
  match l with
  | [] => m_ret []
  | x :: l' => let! o := append_data x in let! os := append_all l' in m_ret (o :: os)
  end.

(** [x] is stored at [o] in the used part of the page. *)
Definition stored_at (p : t) (o : Z) (x : bytes) : Prop :=
  HEADER_SIZE <= o ∧ o + len x <= free_offset p ∧ o + len x <= len (data p) ∧
  py_slice (data p) o (o + len x) = x.

(** What an append keeps: everything but the data, the free offset and the dirty bit. *)
Definition same_frame (p q : t) : Prop :=
  page_id q = page_id p ∧ page_type q = page_type p ∧ page_size q = page_size p ∧
  len (data q) = len (data p) ∧ flags q = flags p ∧ version q = version p ∧
  ∀ o x, stored_at p o x → stored_at q o x.

Lemma same_frame_refl p : same_frame p p.
Proof. unfold same_frame. auto 10. Qed.

Lemma same_frame_trans p q r : same_frame p q → same_frame q r → same_frame p r.
Proof. unfold same_frame. intuition (congruence || auto). Qed.

Lemma append_data_spec p x q o :
  len (data p) = page_size p → HEADER_SIZE <= free_offset p →
  append_data x p = (q, Ok o) →
  same_frame p q ∧ o = free_offset p ∧ free_offset q = free_offset p + len x ∧
  (x ≠ [] → free_offset q <= page_size q ∧ stored_at q o x).
Proof.
  unfold append_data, HEADER_SIZE, free_space. intros Hl Hf H. case_match eqn:E; [done|].
  injection H as <- <-. unfold same_frame, stored_at.
  cbn [page_id page_type page_size data free_offset flags version with_data with_free with_dirty].
  destruct x as [|b x'] eqn:Ex.
  - cbn [length]. rewrite !Z.add_0_r, !py_slice_set_nil.
    split; [by auto 10|]. split; [done|]. split; [done|]. by intros [].
  - rewrite <-Ex in *. assert (0 < len x) by (subst x; cbn; lia). clear Ex b x'.
    rewrite length_py_slice_set by lia. split; [|split; [done|split; [done|]]].
    + do 6 (split; [done|]). unfold HEADER_SIZE. intros o y (? & ? & ? & Hy).
      rewrite py_slice_set_other by lia. split_and!; (done || lia).
    + intros _. unfold HEADER_SIZE. rewrite py_slice_of_set by lia. split_and!; (done || lia).
Qed.

Lemma append_all_spec l p q os :
  len (data p) = page_size p → HEADER_SIZE <= free_offset p →
  append_all l p = (q, Ok os) →
  same_frame p q ∧ free_offset q = free_offset p + len (concat l) ∧
  (concat l ≠ [] → free_offset q <= page_size q) ∧
  length os = length l ∧
  ∀ i o x, os !! i = Some o → l !! i = Some x → x ≠ [] → stored_at q o x.
Proof.
  revert p os. induction l as [|x l IH]; intros p os Hl Hf H; cbn in H.
  - injection H as <- <-. split; [apply same_frame_refl|]. cbn. split; [lia|]. done.
  - unfold m_bind in H. destruct (append_data x p) as [p1 [o|e]] eqn:E1; [|done].
    destruct (append_all l p1) as [p2 [os'|e]] eqn:E2; [|done]. injection H as <- <-.
    destruct (append_data_spec p x p1 o) as (Hs & -> & Hf1 & Hx); [done..|].
    destruct Hs as (Hi & Ht & Hz & Hd & Hfl & Hv & Hst) eqn:Es.
    destruct (IH p1 os') as (Hs' & Hf2 & Hb & Hn & Hall); [congruence|lia|done|].
    split; [by apply (same_frame_trans p p1 p2)|]. cbn [concat]. rewrite length_app.
    split; [lia|]. split; [|split; [cbn; lia|]].
    + intros Hne. destruct (concat l) eqn:Ec; [|by apply Hb].
      rewrite app_nil_r in Hne. destruct (Hx Hne) as [? _].
      destruct Hs' as (_ & _ & Hz' & _). cbn in Hf2. lia.
    + intros [|i] o y Ho Hy Hne; [|by apply (Hall i)].
      cbn in Ho, Hy. injection Ho as <-. injection Hy as ->. apply Hs'. by apply Hx.
Qed.

(** ** The header, written and read *)

(** The side conditions of [unpack_be_from_at] for a field of the header. *)
#[local] Ltac field_of Ed H4 H2 :=
  rewrite <-?app_assoc;
  first [done | exact Ed | by apply H4 | apply H2; lia | repeat match goal with x := be_bytes _ _ |- _ => subst x end;
      by rewrite ?length_app, ?length_be_bytes].

Lemma read_header_bytes p size rest :
  header_ok p →
  read_header size (header_bytes p ++ rest) =
  Ok {| page_id := page_id p; page_type := page_type p; page_size := size;
        data := header_bytes p ++ rest; dirty := false; pin_count := 0;
        free_offset := free_offset p; flags := flags p; version := version p |}.
Proof.
  intros []. pose proof (page_type_int_bound (page_type p)).
  set (a := be_bytes 4 (PageId.page_num (page_id p))).
  set (b := be_bytes 4 (PageId.table_id (page_id p))).
  set (c := be_bytes 2 (page_type_int (page_type p))). set (f := be_bytes 2 (free_offset p)).
  set (g := be_bytes 4 (flags p)). set (d := header_bytes p ++ rest).
  assert (d = a ++ b ++ c ++ f ++ g ++ be_bytes 4 (version p) ++ rest) as Ed
    by (unfold d, header_bytes; by rewrite <-!app_assoc).
  assert (∀ v, 0 <= v < 2 ^ 32 → 0 <= v < width 4) as H4 by done.
  assert (∀ v, 0 <= v < 65536 → 0 <= v < width 2) as H2 by done.
  unfold read_header.
  rewrite (unpack_be_from_at d 4 [] (PageId.page_num (page_id p))
             (b ++ c ++ f ++ g ++ be_bytes 4 (version p) ++ rest) 0) by field_of Ed H4 H2.
  rewrite (unpack_be_from_at d 4 a (PageId.table_id (page_id p))
             (c ++ f ++ g ++ be_bytes 4 (version p) ++ rest) 4) by field_of Ed H4 H2.
  rewrite (unpack_be_from_at d 2 (a ++ b) (page_type_int (page_type p))
             (f ++ g ++ be_bytes 4 (version p) ++ rest) 8) by field_of Ed H4 H2.
  rewrite (unpack_be_from_at d 2 (a ++ b ++ c) (free_offset p)
             (g ++ be_bytes 4 (version p) ++ rest) 10) by field_of Ed H4 H2.
  rewrite (unpack_be_from_at d 4 (a ++ b ++ c ++ f) (flags p)
             (be_bytes 4 (version p) ++ rest) 12) by field_of Ed H4 H2.
  rewrite (unpack_be_from_at d 4 (a ++ b ++ c ++ f ++ g) (version p) rest 16) by field_of Ed H4 H2.
  cbn [mbind res_bind]. rewrite page_type_of_int. cbn [mbind res_bind].
  by destruct (page_id p).
Qed.

(** What is written to disk reads back as the page, clean and unpinned. *)
Lemma from_to_bytes p :
  header_ok p → 20 <= len (data p) →
  ∃ d, to_bytes p = (with_data d p, Ok d) ∧ len d = len (data p) ∧
       (∀ o x, stored_at p o x → stored_at (with_data d p) o x) ∧
       ∀ size, from_bytes d size =
         Ok {| page_id := page_id p; page_type := page_type p; page_size := size; data := d;
               dirty := false; pin_count := 0; free_offset := free_offset p;
               flags := flags p; version := version p |}.
Proof.
  intros Hp Hl. pose proof (length_header_bytes p) as Hh. set (h := header_bytes p) in *.
  assert (20 = 0 + len h) as E20 by (rewrite Hh; done).
  exists (py_slice_set (data p) 0 (0 + len h) h).
  assert (len (py_slice_set (data p) 0 (0 + len h) h) = len (data p)) as Hlen
    by (rewrite length_py_slice_set by lia; done).
  split; [|split; [done|split]].
  - unfold to_bytes, m_bind. rewrite write_header_ok by done. by rewrite <-E20.
  - unfold stored_at, HEADER_SIZE. cbn [data free_offset with_data]. intros o x (? & ? & ? & Hx).
    rewrite Hlen. split_and!; [done..|]. rewrite py_slice_set_other by lia. done.
  - intros size. unfold from_bytes. rewrite py_slice_set_range by lia.
    change (Z.to_nat 0) with 0%nat. rewrite take_0, app_nil_l. by apply read_header_bytes.
Qed.

(** * Properties *)

(** Blobs appended to a fresh page survive the disk: when all of them were
    accepted, serialising the page gives [page_size] bytes, and the page made of those
    bytes has the identifier, the type and the free offset of the original, and reads
    every non-empty blob back at the offset its append returned. *)
Theorem page_appends_persist id ty size p0 blobs p offs :
  init id ty size = Ok p0 → size <= 65535 → append_all blobs p0 = (p, Ok offs) →
  ∃ d q, (to_bytes p).2 = Ok d ∧ len d = size ∧ from_bytes d size = Ok q ∧
    page_id q = id ∧ page_type q = ty ∧ free_offset q = HEADER_SIZE + len (concat blobs) ∧
    length offs = length blobs ∧
    ∀ i o x, offs !! i = Some o → blobs !! i = Some x → x ≠ [] → read_data q o (len x) = Ok x.
Proof.
  intros Hi Hs Ha. apply init_inv in Hi as (Hh & <- & <- & <- & Hl & Hmin & Hf).
  apply append_all_spec in Ha as ((Eid & Ety & Esz & El & Efl & Ev & _) & Hfree & Hfit & Hn & Hst);
    [|done|rewrite Hf; done].
  assert (header_ok p) as Hp.
  { destruct Hh as [h1 h2 h3 h4 h5]. split; rewrite ?Eid, ?Efl, ?Ev; try done.
    destruct (decide (concat blobs = [])) as [E|E]; [rewrite Hfree, E; cbn; lia|].
    specialize (Hfit E). lia. }
  destruct (from_to_bytes p Hp) as (d & Ht & Hd & Hkeep & Hr); [lia|].
  eexists d, _. rewrite Ht. split; [done|]. split; [lia|]. split; [apply Hr|].
  cbn [page_id page_type free_offset]. split_and!; try congruence.
  intros i o x Ho Hx Hne. pose proof (Hst i o x Ho Hx Hne) as Hs'.
  apply Hkeep in Hs' as (? & ? & Hle & Hsl). cbn [data with_data] in Hle, Hsl.
  unfold read_data. cbn [page_size data]. rewrite Hd, El, Hl in Hle. if_false. by rewrite Hsl.
Qed.

Lemma page_appends_persist_witness :
  match init (PageId.mk 7 1) DOCUMENT_PAGE 64 with
  | Ok p0 =>
      match append_all [[1; 2; 3]; [4]] p0 with
      | (p, Ok [o1; o2]) =>
          ∃ d q, (to_bytes p).2 = Ok d ∧ len d = 64 ∧ from_bytes d 64 = Ok q ∧
                 read_data q o1 3 = Ok [1; 2; 3] ∧ read_data q o2 1 = Ok [4]
      | _ => False
      end
  | Err _ => False
  end.
Proof.
  destruct (init _ _ _) as [p0|e] eqn:Ei; [|vm_compute in Ei; discriminate].
  destruct (append_all _ p0) as [p [offs|e]] eqn:Ea.
  - destruct (page_appends_persist _ _ _ _ _ _ _ Ei ltac:(lia) Ea)
      as (d & q & H1 & H2 & H3 & _ & _ & _ & Hn & H).
    destruct offs as [|o1 [|o2 [|]]]; try discriminate Hn.
    exists d, q. split; [exact H1|]. split; [exact H2|]. split; [exact H3|].
    split; [apply (H 0%nat o1 [1; 2; 3]); done|apply (H 1%nat o2 [4]); done].
  - vm_compute in Ei. injection Ei as <-. vm_compute in Ea. discriminate.
Defined.

(** The offset field has sixteen bits: a page used beyond them does not serialise. *)
Example page_offset_overflow :
  match init (PageId.mk 0 0) FREE 70000 with
  | Ok p => (to_bytes (set_free_offset 65536 p)).2
  | Err e => Err e
  end = Err StructError.
Proof. vm_compute. reflexivity. Qed.
