(* ===== verification/Buffer.v ===== *)
(** The buffer pool: database/src/storage/buffer.py, [BufferPool].

    The pool and its clients share page objects, so the state holds an object
    store, [heap], from references to pages, and the slots hold references. The
    CLOCK sweep of [_evict_page] is a loop without a bound: it carries fuel, and [None]
    is a sweep that has not ended. The reentrant lock serialises the methods, each of
    which is one step; the hit ratio, a float, is not modelled. *)

From stdpp Require Import functions.
From S2P Require Import Prelude Bytes Page.

Module BufferPool.
(** A reference to a page object. *)
Abbreviation ref := positive.

Record Stats := { hits : Z; misses : Z; evictions : Z; reads : Z; writes : Z }.
Definition stats_zero : Stats := {| hits := 0; misses := 0; evictions := 0; reads := 0; writes := 0 |}.

Record t := {
  capacity : Z;
  page_size : Z;
  slots : list (option ref);
  page_ids : gmap PageId.t Z;
  clock_hand : Z;
  clock_refs : list bool;
  dirty_pages : gset Z;
  stats : Stats;
  heap : ref → Page.t;
}.

Definition init_pool (cap psize : Z) (h : ref → Page.t) : t :=
  {| capacity := cap; page_size := psize; slots := py_repeat cap None; page_ids := ∅;
     clock_hand := 0; clock_refs := py_repeat cap false; dirty_pages := ∅;
     stats := stats_zero; heap := h |}.

Definition with_slots (s : t) (l : list (option ref)) : t :=
  {| capacity := capacity s; page_size := page_size s; slots := l; page_ids := page_ids s;
     clock_hand := clock_hand s; clock_refs := clock_refs s; dirty_pages := dirty_pages s;
     stats := stats s; heap := heap s |}.
Definition with_ids (s : t) (m : gmap PageId.t Z) : t :=
  {| capacity := capacity s; page_size := page_size s; slots := slots s; page_ids := m;
     clock_hand := clock_hand s; clock_refs := clock_refs s; dirty_pages := dirty_pages s;
     stats := stats s; heap := heap s |}.
Definition with_hand (s : t) (h : Z) : t :=
  {| capacity := capacity s; page_size := page_size s; slots := slots s;
     page_ids := page_ids s; clock_hand := h; clock_refs := clock_refs s;
     dirty_pages := dirty_pages s; stats := stats s; heap := heap s |}.
Definition with_refs (s : t) (l : list bool) : t :=
  {| capacity := capacity s; page_size := page_size s; slots := slots s;
     page_ids := page_ids s; clock_hand := clock_hand s; clock_refs := l;
     dirty_pages := dirty_pages s; stats := stats s; heap := heap s |}.
Definition with_dirty_pages (s : t) (d : gset Z) : t :=
  {| capacity := capacity s; page_size := page_size s; slots := slots s;
     page_ids := page_ids s; clock_hand := clock_hand s; clock_refs := clock_refs s;
     dirty_pages := d; stats := stats s; heap := heap s |}.
Definition with_stats (s : t) (x : Stats) : t :=
  {| capacity := capacity s; page_size := page_size s; slots := slots s;
     page_ids := page_ids s; clock_hand := clock_hand s; clock_refs := clock_refs s;
     dirty_pages := dirty_pages s; stats := x; heap := heap s |}.
Definition with_heap (s : t) (h : ref → Page.t) : t :=
  {| capacity := capacity s; page_size := page_size s; slots := slots s;
     page_ids := page_ids s; clock_hand := clock_hand s; clock_refs := clock_refs s;
     dirty_pages := dirty_pages s; stats := stats s; heap := h |}.

Definition add_hit (x : Stats) : Stats :=
  {| hits := hits x + 1; misses := misses x; evictions := evictions x; reads := reads x;
     writes := writes x |}.
Definition add_miss (x : Stats) : Stats :=
  {| hits := hits x; misses := misses x + 1; evictions := evictions x; reads := reads x;
     writes := writes x |}.
Definition add_eviction (x : Stats) : Stats :=
  {| hits := hits x; misses := misses x; evictions := evictions x + 1; reads := reads x;
     writes := writes x |}.
Definition add_read (x : Stats) : Stats :=
  {| hits := hits x; misses := misses x; evictions := evictions x; reads := reads x + 1;
     writes := writes x |}.
Definition add_write (x : Stats) : Stats :=
  {| hits := hits x; misses := misses x; evictions := evictions x; reads := reads x;
     writes := writes x + 1 |}.

Definition count (f : Stats → Stats) : method t () := λ s, (with_stats s (f (stats s)), Ok ()).
Definition modify (f : t → t) : method t () := λ s, (f s, Ok ()).

(** [self._pages[i]], and its assignment. *)
Definition get_slot (i : Z) : method t (option ref) := λ s, (s, py_get (slots s) i).
Definition set_slot (i : Z) (o : option ref) : method t () := λ s,
  match py_set (slots s) i o with Ok l => (with_slots s l, Ok ()) | Err e => (s, Err e) end.
(** [self._clock_refs[i] = b]. *)
Definition set_ref (i : Z) (b : bool) : method t () := λ s,
  match py_set (clock_refs s) i b with Ok l => (with_refs s l, Ok ()) | Err e => (s, Err e) end.

(** A call of a method of the page object [r]. *)
Definition page_call {A} (r : ref) (m : method Page.t A) : method t A := λ s,
  let '(p, x) := m (heap s r) in (with_heap s (<[r := p]> (heap s)), x).
Definition on_page (r : ref) (f : Page.t → Page.t) : method t () :=
  page_call r (λ p, (f p, Ok ())).

Definition size (s : t) : Z := Z.of_nat (base.size (page_ids s)).

Definition fetch_page (id : PageId.t) : method t (option ref) :=
  let! s := m_get in
  match page_ids s !! id with
  | Some idx =>
      let! _ := set_ref idx true in
      let! page := get_slot idx in
      match page with
      | Some r =>
          let! _ := on_page r Page.pin in
          let! _ := count add_hit in
          m_ret (Some r)
      | None => let! _ := count add_miss in m_ret None
      end
  | None => let! _ := count add_miss in m_ret None
  end.

Definition get_page (id : PageId.t) : method t (option ref) :=
  let! s := m_get in
  match page_ids s !! id with Some idx => get_slot idx | None => m_ret None end.

(** One turn of the sweep: [true] when the method returns. *)
Definition evict_turn : method t bool :=
  let! s := m_get in
  let idx := clock_hand s in
  if capacity s =? 0 then m_raise ZeroDivisionError
  else
    let! _ := modify (λ s, with_hand s ((idx + 1) mod capacity s)) in
    let! page := get_slot idx in
    match page with
    | None => m_ret true
    | Some r =>
        if Page.is_pinned (heap s r) then m_ret false
        else
          let! referenced := m_lift (py_get (clock_refs s) idx) in
          if referenced then let! _ := set_ref idx false in m_ret false
          else
            let! _ := (if Page.dirty (heap s r) then
                         let! _ := on_page r (Page.with_dirty false) in count add_write
                       else m_ret ()) in
            let! _ := modify (λ s, with_ids s (delete (Page.page_id (heap s r)) (page_ids s))) in
            let! _ := set_slot idx None in
            let! _ := modify (λ s, with_dirty_pages s (dirty_pages s ∖ {[idx]})) in
            let! _ := count add_eviction in
            m_ret true
    end.

Fixpoint evict_page (fuel : nat) (s : t) : option (t * res ()) :=
  match fuel with
  | O => None
  | S fuel' =>
      match evict_turn s with
      | (s', Err e) => Some (s', Err e)
      | (s', Ok true) => Some (s', Ok ())
      | (s', Ok false) => evict_page fuel' s'
      end
  end.

Definition find_slot : method t Z := λ s,
  match list_find (λ o, o = None) (slots s) with
  | Some (i, _) => (s, Ok (Z.of_nat i))
  | None => (s, Err RuntimeError)
  end.

(** The end of [insert_page], once there is room. *)
Definition place_page (r : ref) : method t ref :=
  let! idx := find_slot in
  let! _ := on_page r Page.pin in
  let! _ := set_slot idx (Some r) in
  let! _ := modify (λ s, with_ids s (<[Page.page_id (heap s r) := idx]> (page_ids s))) in
  let! _ := set_ref idx true in
  let! _ := count add_read in
  m_ret r.

Definition insert_page (fuel : nat) (r : ref) (s : t) : option (t * res ref) :=
  match page_ids s !! Page.page_id (heap s r) with
  | Some _ => Some (s, Err ValueError)
  | None =>
      if capacity s <=? size s then
        match evict_page fuel s with
        | None => None
        | Some (s', Err e) => Some (s', Err e)
        | Some (s', Ok _) => Some (place_page r s')
        end
      else Some (place_page r s)
  end.

Definition unpin_page (id : PageId.t) : method t () :=
  let! s := m_get in
  match page_ids s !! id with
  | Some idx =>
      let! page := get_slot idx in
      match page with Some r => on_page r Page.unpin | None => m_ret () end
  | None => m_ret ()
  end.

Definition mark_dirty (id : PageId.t) : method t () :=
  let! s := m_get in
  match page_ids s !! id with
  | Some idx =>
      let! _ := modify (λ s, with_dirty_pages s (dirty_pages s ∪ {[idx]})) in
      let! page := get_slot idx in
      match page with Some r => on_page r (Page.with_dirty true) | None => m_ret () end
  | None => m_ret ()
  end.

(** [page.dirty = False], the count, and [page.to_bytes()]. *)
Definition write_out (r : ref) : method t bytes :=
  let! _ := on_page r (Page.with_dirty false) in
  let! _ := count add_write in
  page_call r Page.to_bytes.

Definition flush_page (id : PageId.t) : method t (option bytes) :=
  let! s := m_get in
  match page_ids s !! id with
  | Some idx =>
      if decide (idx ∈ dirty_pages s) then
        let! page := get_slot idx in
        match page with
        | Some r =>
            if Page.dirty (heap s r) then
              let! _ := modify (λ s, with_dirty_pages s (dirty_pages s ∖ {[idx]})) in
              let! b := write_out r in
              m_ret (Some b)
            else m_ret None
        | None => m_ret None
        end
      else m_ret None
  | None => m_ret None
  end.

(** The loop of [flush_all] over [list(self._dirty_pages)]. *)
Fixpoint flush_loop (idxs : list Z) : method t (list (PageId.t * bytes)) :=
  match idxs with
  | [] => m_ret []
  | idx :: idxs' =>
      let! page := get_slot idx in
      let! s := m_get in
      let! x := match page with
                | Some r =>
                    if Page.dirty (heap s r) then
                      let! b := write_out r in m_ret [(Page.page_id (heap s r), b)]
                    else m_ret []
                | None => m_ret []
                end in
      let! l := flush_loop idxs' in
      m_ret (x ++ l)
  end.

(** [order] is the order in which Python lists the set of dirty slots. *)
Definition flush_all (order : list Z) : method t (list (PageId.t * bytes)) :=
  let! l := flush_loop order in
  let! _ := modify (λ s, with_dirty_pages s ∅) in
  m_ret l.

Definition remove_page (id : PageId.t) : method t (option bytes) :=
  let! s := m_get in
  match page_ids s !! id with
  | Some idx =>
      let! _ := modify (λ s, with_ids s (delete id (page_ids s))) in
      let! page := get_slot idx in
      let! _ := set_slot idx None in
      let! _ := set_ref idx false in
      let! _ := modify (λ s, with_dirty_pages s (dirty_pages s ∖ {[idx]})) in
      match page with
      | Some r =>
          if Page.dirty (heap s r) then let! b := write_out r in m_ret (Some b) else m_ret None
      | None => m_ret None
      end
  | None => m_ret None
  end.

Definition reset_stats (s : t) : t := with_stats s stats_zero.
End BufferPool.

(** * The invariant of the pool *)

Import BufferPool.

Definition occupied (s : t) (i : Z) (r : ref) : Prop :=
  0 <= i ∧ slots s !! Z.to_nat i = Some (Some r).

(** The index is exact, the slots marked dirty hold pages, the sizes agree. *)
Record wf (s : t) : Prop := {
  wf_cap : 1 <= capacity s;
  wf_slots : len (slots s) = capacity s;
  wf_refs : len (clock_refs s) = capacity s;
  wf_hand : 0 <= clock_hand s < capacity s;
  wf_ids : ∀ id i, page_ids s !! id = Some i ↔
             ∃ r, occupied s i r ∧ Page.page_id (heap s r) = id;
  wf_dirty : ∀ i, i ∈ dirty_pages s → ∃ r, occupied s i r;
}.

(** What [get_page] answers. *)
Definition cached (s : t) (id : PageId.t) : option ref :=
  match (get_page id s).2 with Ok o => o | Err _ => None end.

Definition full (s : t) : Prop := ∀ i, 0 <= i < capacity s → ∃ r, occupied s i r.

Lemma occupied_range s i r : wf s → occupied s i r → 0 <= i < capacity s.
Proof. intros H [? Hl]. apply lookup_lt_Some in Hl. pose proof (wf_slots s H). lia. Qed.

Lemma occupied_get s i r : occupied s i r → get_slot i s = (s, Ok (Some r)).
Proof.
  intros [Hi Hl]. unfold get_slot. rewrite py_get_lookup by done. by rewrite Hl.
Qed.

Lemma occupied_fun s i r r' : occupied s i r → occupied s i r' → r = r'.
Proof. unfold occupied. intros [_ H] [_ H']. congruence. Qed.

Lemma occupied_inj s i j r r' :
  wf s → occupied s i r → occupied s j r' →
  Page.page_id (heap s r) = Page.page_id (heap s r') → i = j.
Proof.
  intros H Hi Hj E. assert (page_ids s !! Page.page_id (heap s r) = Some i) as H1
    by (apply (wf_ids s H); eauto).
  assert (page_ids s !! Page.page_id (heap s r) = Some j) as H2 by (apply (wf_ids s H); eauto).
  congruence.
Qed.

Lemma cached_spec s id r :
  wf s → cached s id = Some r ↔ ∃ i, occupied s i r ∧ Page.page_id (heap s r) = id.
Proof.
  intros H. unfold cached, get_page, m_bind, m_get. split.
  - destruct (page_ids s !! id) as [i|] eqn:E; [|done].
    apply (wf_ids s H) in E as (r' & Hr & <-). rewrite (occupied_get _ _ _ Hr). cbn.
    intros [= ->]. eauto.
  - intros (i & Hi & E). assert (page_ids s !! id = Some i) as -> by (apply (wf_ids s H); eauto).
    by rewrite (occupied_get _ _ _ Hi).
Qed.

Lemma cached_None s id : wf s → cached s id = None ↔ page_ids s !! id = None.
Proof.
  intros H. unfold cached, get_page, m_bind, m_get.
  destruct (page_ids s !! id) as [i|] eqn:E; [|done].
  apply (wf_ids s H) in E as (r' & Hr & <-). by rewrite (occupied_get _ _ _ Hr).
Qed.

Lemma cached_heap s h k : cached (with_heap s h) k = cached s k.
Proof.
  unfold cached, get_page, m_bind, m_get. cbn [page_ids with_heap]. by destruct (page_ids s !! k).
Qed.

(** ** Counting the pages *)

Definition used (s : t) : list Z := (map_to_list (page_ids s)).*2.

Lemma used_spec s i : wf s → i ∈ used s ↔ ∃ r, occupied s i r.
Proof.
  intros H. unfold used. rewrite list_elem_of_fmap. split.
  - intros ([id j] & -> & Hin). apply elem_of_map_to_list, (wf_ids s H) in Hin as (r & ? & _).
    by exists r.
  - intros (r & Hr). exists (Page.page_id (heap s r), i). split; [done|].
    apply elem_of_map_to_list, (wf_ids s H). by exists r.
Qed.

Lemma used_NoDup s : wf s → NoDup (used s).
Proof.
  intros H. unfold used. apply NoDup_fmap_2_strong; [|apply NoDup_map_to_list].
  intros [id i] [id' i'] Hx Hy E. cbn in E. subst i'.
  apply elem_of_map_to_list, (wf_ids s H) in Hx as (r & Hr & <-).
  apply elem_of_map_to_list, (wf_ids s H) in Hy as (r' & Hr' & <-).
  by rewrite (occupied_fun _ _ _ _ Hr Hr').
Qed.

Lemma length_used s : len (used s) = size s.
Proof. unfold used, size. by rewrite length_fmap, length_map_to_list. Qed.

Lemma used_incl s : wf s → ∀ i, i ∈ used s → i ∈ seqZ 0 (capacity s).
Proof.
  intros H i Hi. apply (used_spec s i H) in Hi as (r & Hr).
  apply elem_of_seqZ. pose proof (occupied_range _ _ _ H Hr). lia.
Qed.

Lemma size_le_capacity s : wf s → size s <= capacity s.
Proof.
  intros H. rewrite <-length_used.
  pose proof (submseteq_length _ _ (NoDup_submseteq _ _ (used_NoDup s H) (used_incl s H))) as Hl.
  rewrite length_seqZ in Hl. pose proof (wf_cap s H). lia.
Qed.

Lemma size_full s : wf s → full s ↔ capacity s <= size s.
Proof.
  intros H. pose proof (wf_cap s H). rewrite <-length_used. split.
  - intros Hf. assert (seqZ 0 (capacity s) ⊆+ used s) as Hsub.
    { apply NoDup_submseteq; [apply NoDup_seqZ|]. intros i Hi. apply elem_of_seqZ in Hi.
      apply used_spec; [done|]. apply Hf. lia. }
    apply submseteq_length in Hsub. rewrite length_seqZ in Hsub. lia.
  - intros Hc i Hi. destruct (slots s !! Z.to_nat i) as [[r|]|] eqn:E.
    + exists r. split; [lia|done].
    + exfalso. assert (i :: used s ⊆+ seqZ 0 (capacity s)) as Hsub.
      { apply NoDup_submseteq.
        - apply NoDup_cons. split; [|by apply used_NoDup]. intros Hin.
          apply (used_spec s i H) in Hin as (r & _ & E'). congruence.
        - intros j Hj. apply elem_of_cons in Hj as [->|Hj]; [apply elem_of_seqZ; lia|].
          by apply used_incl. }
      apply submseteq_length in Hsub. rewrite length_seqZ in Hsub. cbn in Hsub. lia.
    + apply lookup_ge_None in E. pose proof (wf_slots s H). lia.
Qed.

(** ** Steps of the sweep *)

(** [s'] is [s] but for the hand, the reference bits and the counters. *)
Definition swept (s s' : t) : Prop :=
  capacity s' = capacity s ∧ slots s' = slots s ∧ page_ids s' = page_ids s ∧
  dirty_pages s' = dirty_pages s ∧ heap s' = heap s ∧
  len (clock_refs s') = len (clock_refs s) ∧ 0 <= clock_hand s' < capacity s.

Lemma swept_wf s s' : swept s s' → wf s → wf s'.
Proof.
  intros (Ec & Es & Ei & Ed & Eh & El & Eha) [].
  split; rewrite ?Ec, ?Es, ?Ei, ?Ed, ?El; try done; try lia;
    unfold occupied; rewrite ?Es, ?Eh; done.
Qed.

Lemma swept_occupied s s' i r : swept s s' → occupied s' i r ↔ occupied s i r.
Proof. intros (_ & Es & _). unfold occupied. by rewrite Es. Qed.

(** The page [rv] of slot [v] has been evicted. *)
Definition evicted (s s' : t) (v : Z) (rv : ref) : Prop :=
  capacity s' = capacity s ∧ slots s' = <[Z.to_nat v := None]> (slots s) ∧
  page_ids s' = delete (Page.page_id (heap s rv)) (page_ids s) ∧
  dirty_pages s' = dirty_pages s ∖ {[v]} ∧
  heap s' = (if Page.dirty (heap s rv)
             then <[rv := Page.with_dirty false (heap s rv)]> (heap s) else heap s) ∧
  len (clock_refs s') = len (clock_refs s) ∧ 0 <= clock_hand s' < capacity s.

Lemma py_set_range {A} (l : list A) i x :
  0 <= i < len l → py_set l i x = Ok (<[Z.to_nat i := x]> l).
Proof. intros. unfold py_set, py_index. if_false. by if_true. Qed.

(** What one turn does at an occupied hand. *)
Lemma evict_turn_spec s r :
  wf s → occupied s (clock_hand s) r →
  let h := clock_hand s in
  let referenced := default false (clock_refs s !! Z.to_nat h) in
  ∃ s', evict_turn s = (s', Ok (negb (Page.is_pinned (heap s r)) && negb referenced)) ∧
  if Page.is_pinned (heap s r) then s' = with_hand s ((h + 1) mod capacity s)
  else if referenced
  then s' = with_refs (with_hand s ((h + 1) mod capacity s)) (<[Z.to_nat h := false]> (clock_refs s))
  else evicted s s' h r.
Proof.
  intros H Hr h referenced. pose proof (wf_cap s H). pose proof (wf_refs s H).
  pose proof (wf_hand s H) as Hh. pose proof (wf_slots s H).
  unfold evict_turn, m_bind, m_get, m_ret, modify. if_false.
  pose proof (occupied_get (with_hand s ((h + 1) mod capacity s)) h r Hr) as Hg.
  fold h. rewrite Hg. clear Hg. cbn [heap with_hand].
  destruct (Page.is_pinned (heap s r)); [by eexists|].
  unfold m_lift. cbn [clock_refs with_hand].
  destruct (py_get_in_range (clock_refs s) h) as (b & Hb & Hl); [lia|].
  rewrite Hb. subst referenced. rewrite Hl. cbn [default]. destruct b.
  - unfold set_ref. cbn [clock_refs with_hand]. rewrite py_set_range by lia. by eexists.
  - assert (0 <= (h + 1) mod capacity s < capacity s) by (apply Z.mod_pos_bound; lia).
    unfold evicted, on_page, page_call, count, set_slot.
    destruct (Page.dirty (heap s r)) eqn:Ed;
      cbn [heap slots page_ids with_hand with_heap with_stats with_ids];
      rewrite py_set_range by lia; eexists; split; try done;
      cbn [capacity slots page_ids dirty_pages heap clock_refs clock_hand with_hand with_heap
           with_stats with_ids with_slots with_dirty_pages];
      rewrite ?fn_lookup_insert; unfold id; split_and!; (done || lia).
Qed.

(** ** Termination of the sweep *)

Lemma clock_step cap h k :
  0 <= h < cap → 0 <= k < cap →
  (k - (h + 1) mod cap) mod cap = if k =? h then cap - 1 else (k - h) mod cap - 1.
Proof.
  intros Hh Hk. rewrite Zminus_mod_idemp_r. case_ifs.
  - replace (k - (h + 1)) with (-1) by lia. symmetry. apply (Z.mod_unique _ _ (-1)); lia.
  - replace (k - (h + 1)) with (k - h - 1) by lia.
    pose proof (Z.mod_pos_bound (k - h) cap ltac:(lia)).
    destruct (decide ((k - h) mod cap = 0)) as [E|].
    + exfalso. destruct (decide (h <= k)).
      * rewrite Z.mod_small in E by lia. lia.
      * pose proof (Z.mod_unique (k - h) cap (-1) (k - h + cap)). lia.
    + rewrite <-Zminus_mod_idemp_l. apply Z.mod_small. lia.
Qed.

(** The turns left before slot [k] is evicted, if nothing is evicted before. *)
Definition turns_left (s : t) (k : Z) : Z :=
  (k - clock_hand s) mod capacity s +
  (if default false (clock_refs s !! Z.to_nat k) then capacity s else 0).

Lemma turns_left_bound s k : wf s → 0 <= turns_left s k < 2 * capacity s.
Proof.
  intros H. unfold turns_left. pose proof (wf_cap s H).
  pose proof (Z.mod_pos_bound (k - clock_hand s) (capacity s) ltac:(lia)). case_ifs.
Qed.

(** A turn over full slots either evicts the unpinned page at the hand, or goes on
    one turn closer to the eviction of each unpinned page. *)
Lemma evict_page_step fuel s :
  wf s → full s →
  (∃ s', swept s s' ∧ evict_page (S fuel) s = evict_page fuel s' ∧
     ∀ k r, occupied s k r → Page.is_pinned (heap s r) = false →
            turns_left s' k < turns_left s k) ∨
  (∃ s1 v rv, evict_page (S fuel) s = Some (s1, Ok ()) ∧ occupied s v rv ∧
     Page.is_pinned (heap s rv) = false ∧ evicted s s1 v rv).
Proof.
  intros H Hf. destruct (Hf (clock_hand s) (wf_hand s H)) as (rh & Hrh).
  destruct (evict_turn_spec s rh H Hrh) as (s' & Et & Hs'). cbn [evict_page]. rewrite Et.
  pose proof (wf_hand s H). pose proof (wf_cap s H). pose proof (wf_refs s H).
  assert (0 <= (clock_hand s + 1) mod capacity s < capacity s) by (apply Z.mod_pos_bound; lia).
  assert (∀ k r, occupied s k r → Page.is_pinned (heap s r) = false →
    Page.is_pinned (heap s rh) = true → k ≠ clock_hand s) as Hne.
  { intros k r Hk Hp Hph ->. rewrite (occupied_fun _ _ _ _ Hk Hrh) in Hp. congruence. }
  destruct (Page.is_pinned (heap s rh)) eqn:Eph; cbn [negb andb];
    [|destruct (default false (clock_refs s !! Z.to_nat (clock_hand s))) eqn:Er; cbn [negb andb]].
  - left. exists s'. subst s'. split; [done|]. split; [done|]. intros k r Hk Hp.
    unfold turns_left. cbn [clock_hand capacity clock_refs with_hand].
    rewrite clock_step by (eauto using occupied_range).
    specialize (Hne k r Hk Hp eq_refl). rewrite (proj2 (Z.eqb_neq _ _)) by done. lia.
  - left. exists s'. subst s'. split; [unfold swept; cbn; by rewrite length_insert|].
    split; [done|]. intros k r Hk Hp. pose proof (occupied_range s k r H Hk).
    unfold turns_left. cbn [clock_hand capacity clock_refs with_hand with_refs].
    rewrite clock_step by done. destruct (decide (k = clock_hand s)) as [->|].
    + rewrite Z.eqb_refl, list_lookup_insert_eq by lia. cbn [default].
      rewrite Er, Z.sub_diag, Z.mod_0_l by lia. unfold id. lia.
    + rewrite (proj2 (Z.eqb_neq _ _)), list_lookup_insert_ne by lia. lia.
  - right. exists s', (clock_hand s), rh. done.
Qed.

(** A sweep over full slots that ends has evicted an unpinned page. *)
Lemma evict_page_inv fuel s s1 x :
  wf s → full s → evict_page fuel s = Some (s1, x) →
  x = Ok () ∧ ∃ s0 v rv, swept s s0 ∧ occupied s v rv ∧
    Page.is_pinned (heap s rv) = false ∧ evicted s0 s1 v rv.
Proof.
  revert s. induction fuel as [|fuel IH]; intros s H Hf; [done|].
  destruct (evict_page_step fuel s H Hf) as [(s' & Hsw & -> & _)|(s2 & v & rv & -> & ? & ? & ?)].
  - intros He. pose proof Hsw as (Ec & Es & _ & _ & Eh & _).
    destruct (IH s') as (-> & s0 & v & rv & Hs0 & Hv & Hp & Hev);
      [by eapply swept_wf| |done|].
    { intros i. rewrite Ec. intros (r & Hr)%Hf. exists r. by apply (swept_occupied s s'). }
    split; [done|]. exists s0, v, rv. rewrite Eh in Hp. apply (swept_occupied s s') in Hv; [|done].
    split; [|done]. destruct Hs0 as (?&?&?&?&?&?&?), Hsw as (?&?&?&?&?&?&?).
    unfold swept. split_and!; (congruence || lia).
  - intros [= <- <-]. split; [done|]. exists s, v, rv.
    split; [|done]. pose proof (wf_hand s H). done.
Qed.

(** With an unpinned page the sweep ends within two rounds. *)
Lemma evict_page_ends fuel s k r :
  wf s → full s → occupied s k r → Page.is_pinned (heap s r) = false →
  turns_left s k < Z.of_nat fuel → is_Some (evict_page fuel s).
Proof.
  revert s. induction fuel as [|fuel IH]; intros s H Hf Hk Hp Hfuel.
  { pose proof (turns_left_bound s k H). lia. }
  destruct (evict_page_step fuel s H Hf) as [(s' & Hsw & -> & Ht)|(s2 & v & rv & -> & _)]; [|done].
  specialize (Ht k r Hk Hp). pose proof Hsw as (Ec & Es & _ & _ & Eh & _).
  apply IH; [by eapply swept_wf| |by apply (swept_occupied s s')|by rewrite Eh|lia].
  intros i. rewrite Ec. intros (r' & Hr)%Hf. exists r'. by apply (swept_occupied s s').
Qed.

(** With every page pinned the sweep goes on forever. *)
Lemma evict_page_pinned fuel s :
  wf s → (∀ i, 0 <= i < capacity s → ∃ r, occupied s i r ∧ Page.is_pinned (heap s r) = true) →
  evict_page fuel s = None.
Proof.
  revert s. induction fuel as [|fuel IH]; intros s H Hall; [done|].
  destruct (Hall (clock_hand s) (wf_hand s H)) as (r & Hr & Hp).
  destruct (evict_turn_spec s r H Hr) as (s' & Et & Hs'). cbn [evict_page]. rewrite Et.
  rewrite Hp in *. cbn [negb andb]. subst s'. pose proof (wf_cap s H).
  apply IH; [|exact Hall]. apply (swept_wf s); [|done].
  assert (0 <= (clock_hand s + 1) mod capacity s < capacity s) by (apply Z.mod_pos_bound; lia).
  done.
Qed.

(** ** The effects of the operations on the index *)

(** A page object changes, its identifier does not. *)
Lemma heap_update_wf s r p :
  wf s → Page.page_id p = Page.page_id (heap s r) → wf (with_heap s (<[r := p]> (heap s))).
Proof.
  intros [h1 h2 h3 h4 h5 h6] E. split; try done.
  intros id i. cbn [page_ids heap with_heap]. rewrite h5.
  assert (∀ r', Page.page_id (<[r := p]> (heap s) r') = Page.page_id (heap s r')) as Hid.
  { intros r'. destruct (decide (r' = r)) as [->|];
      [by rewrite fn_lookup_insert|by rewrite fn_lookup_insert_ne]. }
  split; intros (r' & Hr & <-); exists r'; by rewrite Hid.
Qed.

(** Slot [v] is emptied and its page leaves the index. *)
Definition vacated (s s' : t) (v : Z) (rv : ref) : Prop :=
  capacity s' = capacity s ∧ slots s' = <[Z.to_nat v := None]> (slots s) ∧
  page_ids s' = delete (Page.page_id (heap s rv)) (page_ids s) ∧
  dirty_pages s' = dirty_pages s ∖ {[v]} ∧ heap s' = heap s ∧
  len (clock_refs s') = len (clock_refs s) ∧ 0 <= clock_hand s' < capacity s.

Lemma vacated_occupied s s' v rv i r :
  wf s → occupied s v rv → vacated s s' v rv →
  occupied s' i r ↔ occupied s i r ∧ i ≠ v.
Proof.
  intros H Hv (_ & Es & _). unfold occupied. rewrite Es. destruct Hv as [Hv0 Hv].
  apply lookup_lt_Some in Hv. split.
  - intros [Hi Hl]. destruct (decide (i = v)) as [->|];
      [by rewrite list_lookup_insert_eq in Hl|].
    by rewrite list_lookup_insert_ne in Hl by lia.
  - intros [[Hi Hl] Hne]. by rewrite list_lookup_insert_ne by lia.
Qed.

Lemma vacated_wf s s' v rv : wf s → occupied s v rv → vacated s s' v rv → wf s'.
Proof.
  intros H Hv Hs. pose proof (λ i r, vacated_occupied s s' v rv i r H Hv Hs) as Ho.
  destruct Hs as (Ec & Es & Ei & Ed & Eh & El & Eha).
  pose proof H as [h1 h2 h3 h4 h5 h6]. split; rewrite ?Ec; try lia.
  - by rewrite Es, length_insert.
  - intros id i. rewrite Ei, Eh, lookup_delete_Some, h5. split.
    + intros (Hne & r & Hr & <-). exists r. split; [|done]. apply Ho. split; [done|].
      intros ->. by rewrite (occupied_fun _ _ _ _ Hr Hv) in Hne.
    + intros (r & [Hr Hne]%Ho & <-). split; [|by exists r]. intros E. apply Hne.
      by apply (occupied_inj s i v r rv).
  - intros i. rewrite Ed. intros [Hi Hne]%elem_of_difference.
    apply h6 in Hi as (r & Hr). exists r. apply Ho. split; [done|]. set_solver.
Qed.

Lemma vacated_cached s s' v rv k :
  wf s → occupied s v rv → vacated s s' v rv →
  cached s' k = if decide (k = Page.page_id (heap s rv)) then None else cached s k.
Proof.
  intros H Hv Hs. pose proof (vacated_wf s s' v rv H Hv Hs) as H'.
  pose proof (λ i r, vacated_occupied s s' v rv i r H Hv Hs) as Ho.
  apply option_eq. intros r. rewrite (cached_spec s' k r H').
  destruct Hs as (_ & _ & _ & _ & Eh & _). rewrite Eh. split.
  - intros (i & [Hi Hne]%Ho & <-). rewrite decide_False; [apply cached_spec; eauto|].
    intros E. apply Hne. by apply (occupied_inj s i v r rv).
  - case_decide as Hk; [done|]. rewrite (cached_spec s k r H). intros (i & Hi & <-).
    exists i. split; [|done]. apply Ho. split; [done|]. intros ->.
    by rewrite (occupied_fun _ _ _ _ Hi Hv) in Hk.
Qed.

(** Page [r] is put in the empty slot [i]. *)
Definition placed (s s' : t) (i : Z) (r : ref) : Prop :=
  capacity s' = capacity s ∧ slots s' = <[Z.to_nat i := Some r]> (slots s) ∧
  page_ids s' = <[Page.page_id (heap s r) := i]> (page_ids s) ∧
  dirty_pages s' = dirty_pages s ∧ heap s' = heap s ∧
  len (clock_refs s') = len (clock_refs s) ∧ clock_hand s' = clock_hand s.

Lemma placed_occupied s s' i r j x :
  wf s → 0 <= i → slots s !! Z.to_nat i = Some None → placed s s' i r →
  occupied s' j x ↔ (j = i ∧ x = r) ∨ occupied s j x.
Proof.
  intros H Hi Hs (_ & Es & _). unfold occupied. rewrite Es.
  pose proof (lookup_lt_Some _ _ _ Hs). split.
  - intros [Hj Hl]. destruct (decide (j = i)) as [->|].
    + rewrite list_lookup_insert_eq in Hl by done. left. split; [done|congruence].
    + rewrite list_lookup_insert_ne in Hl by lia. by right.
  - intros [[-> ->]|[Hj Hl]]; [by rewrite list_lookup_insert_eq|].
    split; [done|]. rewrite list_lookup_insert_ne; [done|]. intros E. rewrite <-E in Hl. congruence.
Qed.

Lemma placed_wf s s' i r :
  wf s → 0 <= i → slots s !! Z.to_nat i = Some None →
  page_ids s !! Page.page_id (heap s r) = None → placed s s' i r → wf s'.
Proof.
  intros H Hi Hs Hid Hp. pose proof (λ j x, placed_occupied s s' i r j x H Hi Hs Hp) as Ho.
  destruct Hp as (Ec & Es & Ei & Ed & Eh & El & Eha).
  pose proof H as [h1 h2 h3 h4 h5 h6]. split; rewrite ?Ec; try lia.
  - by rewrite Es, length_insert.
  - intros id j. rewrite Ei, Eh, lookup_insert_Some, h5. split.
    + intros [[<- <-]|(Hne & x & Hx & <-)]; [exists r|exists x]; split; try done; apply Ho; auto.
    + intros (x & [[-> ->]|Hx]%Ho & <-); [by left|]. right. split; [|by exists x].
      intros E. rewrite E in Hid. assert (page_ids s !! Page.page_id (heap s x) = Some j)
        by (apply h5; by exists x). congruence.
  - intros j. rewrite Ed. intros (x & Hx)%h6. exists x. apply Ho. by right.
Qed.

Lemma placed_cached s s' i r k :
  wf s → 0 <= i → slots s !! Z.to_nat i = Some None →
  page_ids s !! Page.page_id (heap s r) = None → placed s s' i r →
  cached s' k = if decide (k = Page.page_id (heap s r)) then Some r else cached s k.
Proof.
  intros H Hi Hs Hid Hp. pose proof (placed_wf s s' i r H Hi Hs Hid Hp) as H'.
  pose proof (λ j x, placed_occupied s s' i r j x H Hi Hs Hp) as Ho.
  destruct Hp as (_ & _ & _ & _ & Eh & _).
  apply option_eq. intros x. rewrite (cached_spec s' k x H'), Eh. split.
  - intros (j & [[-> ->]|Hx]%Ho & <-); [by rewrite decide_True|].
    rewrite decide_False; [apply cached_spec; eauto|]. intros E.
    assert (page_ids s !! Page.page_id (heap s x) = Some j) by (apply (wf_ids s H); by exists x).
    congruence.
  - case_decide as Hk.
    + intros [= ->]. exists i. split; [|done]. apply Ho. by left.
    + rewrite (cached_spec s k x H). intros (j & Hj & <-). exists j. split; [|done].
      apply Ho. by right.
Qed.

Lemma find_slot_spec s :
  wf s → size s < capacity s →
  ∃ i, find_slot s = (s, Ok i) ∧ 0 <= i ∧ slots s !! Z.to_nat i = Some None.
Proof.
  intros H Hs. unfold find_slot. destruct (list_find _ _) as [[i o]|] eqn:E.
  - apply list_find_Some in E as (Hl & -> & _). exists (Z.of_nat i). rewrite Nat2Z.id.
    split_and!; (done || lia).
  - apply list_find_None in E. exfalso. assert (full s) as Hf; [|apply size_full in Hf; [lia|done]].
    intros i Hi. pose proof (wf_slots s H).
    destruct (slots s !! Z.to_nat i) as [[r|]|] eqn:El.
    + exists r. split; [lia|done].
    + rewrite Forall_lookup in E. by apply E in El.
    + apply lookup_ge_None in El. lia.
Qed.

(** Pinning the page on its way in. *)
Definition pinned_in (s : t) (r : ref) : t :=
  with_heap s (<[r := Page.pin (heap s r)]> (heap s)).

Lemma place_page_spec s r :
  wf s → size s < capacity s → page_ids s !! Page.page_id (heap s r) = None →
  ∃ s', place_page r s = (s', Ok r) ∧ wf s' ∧ heap s' = heap (pinned_in s r) ∧
    ∀ k, cached s' k = if decide (k = Page.page_id (heap s r)) then Some r else cached s k.
Proof.
  intros H Hs Hid. destruct (find_slot_spec s H Hs) as (i & Hf & Hi & Hl).
  assert (wf (pinned_in s r)) as Hp by (by apply heap_update_wf).
  assert (Page.page_id (heap (pinned_in s r) r) = Page.page_id (heap s r)) as Er
    by (unfold pinned_in; cbn; by rewrite fn_lookup_insert).
  assert (∃ s', place_page r s = (s', Ok r) ∧ placed (pinned_in s r) s' i r) as (s' & E & Hpl).
  { unfold place_page, m_bind. rewrite Hf. unfold on_page, page_call, set_slot, set_ref.
    pose proof (lookup_lt_Some _ _ _ Hl). pose proof (wf_refs s H). pose proof (wf_slots s H).
    cbn [slots with_heap]. rewrite py_set_range by lia. unfold modify, count, m_ret.
    cbn [clock_refs with_slots with_heap with_ids]. rewrite py_set_range by lia.
    eexists. split; [done|]. unfold placed. cbn. rewrite length_insert. by rewrite fn_lookup_insert. }
  exists s'. split; [done|]. rewrite <-Er in Hid |- *.
  split; [by eapply placed_wf|]. split; [apply Hpl|].
  intros k. rewrite (placed_cached (pinned_in s r) s' i r k Hp Hi Hl Hid Hpl).
  case_decide; [done|]. apply cached_heap.
Qed.

Lemma evicted_vacated s s' v rv : evicted s s' v rv → vacated s (with_heap s' (heap s)) v rv.
Proof. intros (? & ? & ? & ? & ? & ? & [? ?]). by split_and!. Qed.

Lemma with_heap_id s : with_heap s (heap s) = s.
Proof. by destruct s. Qed.

Lemma evicted_wf s s' v rv :
  wf s → occupied s v rv → evicted s s' v rv →
  wf s' ∧ size s' < capacity s' ∧
  (∀ r, Page.page_id (heap s' r) = Page.page_id (heap s r)) ∧
  ∀ k, cached s' k = if decide (k = Page.page_id (heap s rv)) then None else cached s k.
Proof.
  intros H Hv He. pose proof (evicted_vacated _ _ _ _ He) as Hva.
  pose proof (vacated_wf _ _ _ _ H Hv Hva) as Hw.
  pose proof (λ k, vacated_cached _ _ _ _ k H Hv Hva) as Hc.
  destruct He as (Ec & Es & _ & _ & Eh & _ & _).
  assert (wf s') as H'.
  { rewrite <-(with_heap_id s'), Eh. destruct (Page.dirty (heap s rv)); [|done].
    by apply (heap_update_wf _ rv (Page.with_dirty false (heap s rv))) in Hw. }
  split; [done|]. split; [|split; [|intros k; by rewrite <-Hc, cached_heap]].
  - destruct (decide (capacity s' <= size s')) as [Hf|]; [|lia].
    apply size_full in Hf; [|done]. pose proof (occupied_range s v rv H Hv).
    destruct (Hf v) as (r & _ & Hr); [lia|]. pose proof (wf_slots s H).
    rewrite Es, list_lookup_insert_eq in Hr by lia. done.
  - intros r. rewrite Eh. case_match; [|done].
    destruct (decide (r = rv)) as [->|]; [by rewrite fn_lookup_insert|by rewrite fn_lookup_insert_ne].
Qed.

(** ** Sequences of operations *)

(** What a client does to a page object. *)
Inductive page_op :=
  | PWrite (offset : Z) (x : bytes)
  | PAppend (x : bytes)
  | PClear
  | PSetFree (offset : Z)
  | PPin
  | PUnpin.

Definition run_page_op (o : page_op) (p : Page.t) : Page.t :=
  match o with
  | PWrite off x => (Page.write_data off x p).1
  | PAppend x => (Page.append_data x p).1
  | PClear => Page.clear p
  | PSetFree off => Page.set_free_offset off p
  | PPin => Page.pin p
  | PUnpin => Page.unpin p
  end.

Inductive pool_op :=
  | PoFetch (id : PageId.t)
  | PoInsert (r : ref)
  | PoUnpin (id : PageId.t)
  | PoDirty (id : PageId.t)
  | PoFlush (id : PageId.t)
  | PoFlushAll (order : list Z)
  | PoRemove (id : PageId.t)
  | PoResetStats
  | PoPage (r : ref) (o : page_op).

(** [None]: the operation does not return. *)
Definition run_pool_op (fuel : nat) (s : t) (o : pool_op) : option t :=
  match o with
  | PoFetch id => Some (fetch_page id s).1
  | PoInsert r => fst <$> insert_page fuel r s
  | PoUnpin id => Some (unpin_page id s).1
  | PoDirty id => Some (mark_dirty id s).1
  | PoFlush id => Some (flush_page id s).1
  | PoFlushAll order => Some (flush_all order s).1
  | PoRemove id => Some (remove_page id s).1
  | PoResetStats => Some (reset_stats s)
  | PoPage r o => Some (with_heap s (<[r := run_page_op o (heap s r)]> (heap s)))
  end.

Fixpoint run_pool (fuel : nat) (s : t) (l : list pool_op) : option t :=
  match l with
  | [] => Some s
  | o :: l' => s' ← run_pool_op fuel s o; run_pool fuel s' l'
  end.

(** A method that keeps the invariant, and the index with it. *)
Definition keeps {A} (m : method t A) : Prop := ∀ s, wf s → wf (m s).1.

Lemma keeps_bind {A B} (m : method t A) (k : A → method t B) :
  keeps m → (∀ a, keeps (k a)) → keeps (m_bind m k).
Proof.
  intros Hm Hk s H. unfold m_bind. pose proof (Hm s H).
  destruct (m s) as [s' [a|e]]; [by apply Hk|done].
Qed.

Lemma keeps_at {A} (m : method t A) s : wf s → keeps m → wf (m s).1.
Proof. intros H Hm. by apply Hm. Qed.

Lemma keeps_ret {A} (a : A) : keeps (m_ret a).
Proof. by intros s H. Qed.

Lemma keeps_count f : keeps (count f).
Proof. intros s []. by split. Qed.

Lemma keeps_get_slot i : keeps (get_slot i).
Proof. by intros s H. Qed.

Lemma keeps_set_ref i b : keeps (set_ref i b).
Proof.
  intros s H. unfold set_ref. destruct (py_set _ _ _) as [l|e] eqn:E; [|done].
  unfold py_set in E. case_match; try done. injection E as <-.
  destruct H as [h1 h2 h3 h4 h5 h6]. split; try done. cbn. by rewrite length_insert.
Qed.

Lemma keeps_page_call {A} r (m : method Page.t A) :
  (∀ p, Page.page_id (m p).1 = Page.page_id p) → keeps (page_call r m).
Proof.
  intros Hm s H. unfold page_call. specialize (Hm (heap s r)). destruct (m (heap s r)) as [p x].
  by apply heap_update_wf.
Qed.

Lemma keeps_on_page r f : (∀ p, Page.page_id (f p) = Page.page_id p) → keeps (on_page r f).
Proof. intros Hf. by apply keeps_page_call. Qed.

Create HintDb keeps.
#[local] Hint Resolve keeps_bind keeps_ret keeps_count keeps_get_slot keeps_set_ref keeps_page_call
  keeps_on_page : keeps.

Lemma keeps_fetch_page id : keeps (fetch_page id).
Proof.
  intros s H. unfold fetch_page, m_bind at 1, m_get. destruct (page_ids s !! id) as [i|].
  - apply keeps_at; [done|]. apply keeps_bind; [auto with keeps|]. intros _. apply keeps_bind; [auto with keeps|].
    intros [r|]; auto 10 with keeps.
  - apply keeps_at; [done|]. apply keeps_bind; auto with keeps.
Qed.

Lemma keeps_unpin_page id : keeps (unpin_page id).
Proof.
  intros s H. unfold unpin_page, m_bind at 1, m_get. destruct (page_ids s !! id) as [i|]; [|done].
  apply keeps_at; [done|]. apply keeps_bind; [auto with keeps|]. intros [r|]; [|auto with keeps].
  apply keeps_on_page. intros p. unfold Page.unpin. by case_match.
Qed.

Lemma page_to_bytes_id p : Page.page_id (Page.to_bytes p).1 = Page.page_id p.
Proof.
  unfold Page.to_bytes, Page.write_header, m_bind. destruct (pack_into _ _ _) as [d [u|e]]; done.
Qed.

Lemma keeps_write_out r : keeps (write_out r).
Proof.
  unfold write_out. repeat (apply keeps_bind; [auto with keeps|intros _]).
  apply keeps_page_call, page_to_bytes_id.
Qed.

(** Unmarking slots never hurts. *)
Lemma wf_unmark s d : wf s → d ⊆ dirty_pages s → wf (with_dirty_pages s d).
Proof.
  intros [h1 h2 h3 h4 h5 h6] Hd. split; try done. intros i Hi. apply h6. by apply Hd.
Qed.

Lemma keeps_unmark (f : gset Z → gset Z) :
  (∀ d, f d ⊆ d) → keeps (modify (λ s, with_dirty_pages s (f (dirty_pages s)))).
Proof. intros Hf s H. by apply wf_unmark. Qed.

Lemma keeps_mark_dirty id : keeps (mark_dirty id).
Proof.
  intros s H. unfold mark_dirty, m_bind at 1, m_get.
  destruct (page_ids s !! id) as [i|] eqn:E; [|done].
  assert (wf (with_dirty_pages s (dirty_pages s ∪ {[i]}))) as H1.
  { pose proof H as [h1 h2 h3 h4 h5 h6]. split; try done. intros j. cbn [dirty_pages with_dirty_pages].
    intros [Hj| ->%elem_of_singleton]%elem_of_union; [by apply h6|].
    apply h5 in E as (r & ? & _). by exists r. }
  unfold modify. unfold m_bind at 1. apply keeps_at; [done|]. apply keeps_bind; [auto with keeps|]. intros [r|]; auto with keeps.
Qed.

Lemma keeps_flush_page id : keeps (flush_page id).
Proof.
  intros s H. unfold flush_page, m_bind at 1, m_get. destruct (page_ids s !! id) as [i|]; [|done].
  case_decide; [|done]. unfold m_bind at 1. pose proof (keeps_get_slot i s H) as H1.
  destruct (get_slot i s) as [s1 [[r|]|e]]; [|done..]. cbn in H1.
  destruct (Page.dirty (heap s r)); [|done]. apply keeps_at; [done|].
  apply keeps_bind; [apply (keeps_unmark (λ d, d ∖ {[i]})); by intros d j [? _]%elem_of_difference|]. intros _.
  apply keeps_bind; [apply keeps_write_out|auto with keeps].
Qed.

Lemma keeps_flush_loop l : keeps (flush_loop l).
Proof.
  induction l as [|i l IH]; [apply keeps_ret|]. cbn [flush_loop].
  apply keeps_bind; [auto with keeps|]. intros page. apply keeps_bind; [by intros s H|]. intros s0.
  apply keeps_bind; [|intros x; apply keeps_bind; auto with keeps].
  destruct page as [r|]; [|auto with keeps]. destruct (Page.dirty _); [|auto with keeps].
  apply keeps_bind; [apply keeps_write_out|auto with keeps].
Qed.

Lemma keeps_flush_all order : keeps (flush_all order).
Proof.
  apply keeps_bind; [apply keeps_flush_loop|]. intros l.
  apply keeps_bind; [|auto with keeps]. intros s H. apply wf_unmark; [done|apply empty_subseteq].
Qed.

Lemma remove_page_vacates s id i r :
  wf s → occupied s i r → Page.page_id (heap s r) = id →
  ∃ s1, vacated s s1 i r ∧
    remove_page id s = (if Page.dirty (heap s r) then let! b := write_out r in m_ret (Some b)
                        else m_ret None) s1.
Proof.
  intros H Hr Hid. pose proof (occupied_range s i r H Hr). pose proof (wf_refs s H).
  pose proof (wf_slots s H). pose proof (wf_hand s H).
  unfold remove_page, m_bind at 1, m_get.
  assert (page_ids s !! id = Some i) as -> by (apply (wf_ids s H); by exists r).
  unfold modify, m_bind at 1. unfold m_bind at 1.
  rewrite (occupied_get (with_ids s (delete id (page_ids s))) i r Hr).
  unfold m_bind at 1, set_slot. cbn [slots with_ids]. rewrite py_set_range by lia.
  unfold m_bind at 1, set_ref. cbn [clock_refs with_slots with_ids]. rewrite py_set_range by lia.
  unfold m_bind at 1. eexists. split; [|reflexivity].
  unfold vacated. cbn. rewrite length_insert, Hid. split_and!; (done || lia).
Qed.

Lemma keeps_remove_page id : keeps (remove_page id).
Proof.
  intros s H. destruct (page_ids s !! id) as [i|] eqn:E.
  - apply (wf_ids s H) in E as (r & Hr & Hid).
    destruct (remove_page_vacates s id i r H Hr Hid) as (s1 & Hv & ->).
    apply keeps_at; [by eapply vacated_wf|].
    destruct (Page.dirty _); [|auto with keeps].
    apply keeps_bind; [apply keeps_write_out|auto with keeps].
  - unfold remove_page, m_bind, m_get. by rewrite E.
Qed.

Lemma run_page_op_id o p : Page.page_id (run_page_op o p) = Page.page_id p.
Proof.
  destruct o; cbn; unfold Page.write_data, Page.append_data, Page.unpin; by repeat case_match.
Qed.

(** What [insert_page] does to a full pool, once the sweep ends. *)
Lemma insert_page_full fuel r s s1 x :
  wf s → full s → page_ids s !! Page.page_id (heap s r) = None →
  evict_page fuel s = Some (s1, x) →
  ∃ v rv s', occupied s v rv ∧ Page.is_pinned (heap s rv) = false ∧
    insert_page fuel r s = Some (s', Ok r) ∧ wf s' ∧
    ∀ k, cached s' k = if decide (k = Page.page_id (heap s r)) then Some r
                       else if decide (k = Page.page_id (heap s rv)) then None else cached s k.
Proof.
  intros H Hf Hid He.
  destruct (evict_page_inv fuel s s1 x H Hf He) as (-> & s0 & v & rv & Hsw & Hv & Hp & Hev).
  pose proof (swept_wf _ _ Hsw H) as H0. pose proof Hsw as (Ec & Es & Ei & _ & Eh & _).
  destruct (evicted_wf s0 s1 v rv) as (H1 & Hsz & Hids & Hc);
    [done|by apply (swept_occupied s s0)|done|].
  rewrite Eh in Hids, Hc.
  assert (∀ k, cached s0 k = cached s k) as Hc0.
  { intros k. unfold cached, get_page, get_slot, m_bind, m_get. rewrite Ei.
    destruct (page_ids s !! k); [|done]. cbn. by rewrite Es. }
  destruct (place_page_spec s1 r) as (s' & Hpl & Hw & _ & Hc'); [done|done| |].
  { rewrite Hids. apply cached_None; [done|]. rewrite Hc, Hc0. case_decide; [done|].
    by apply cached_None. }
  exists v, rv, s'. split; [done|]. split; [done|]. split; [|split; [done|]].
  - unfold insert_page. rewrite Hid. apply size_full in Hf; [|done]. if_true.
    by rewrite He, Hpl.
  - intros k. by rewrite Hc', Hids, Hc, Hc0.
Qed.

Lemma insert_page_wf fuel r s s' x : wf s → insert_page fuel r s = Some (s', x) → wf s'.
Proof.
  intros H Hi. destruct (page_ids s !! Page.page_id (heap s r)) eqn:Eid.
  { unfold insert_page in Hi. rewrite Eid in Hi. by injection Hi as <- _. }
  destruct (capacity s <=? size s) eqn:Ec.
  - assert (full s) as Hf by (apply size_full; [done|lia]).
    destruct (evict_page fuel s) as [[s1 y]|] eqn:Ee.
    + destruct (insert_page_full fuel r s s1 y H Hf Eid Ee) as (v & rv & s2 & _ & _ & E & Hw & _).
      congruence.
    + unfold insert_page in Hi. by rewrite Eid, Ec, Ee in Hi.
  - unfold insert_page in Hi. rewrite Eid, Ec in Hi.
    destruct (place_page_spec s r) as (s1 & Ep & H1 & _); [done|lia|done|]. congruence.
Qed.

Lemma run_pool_op_wf fuel s o s' : wf s → run_pool_op fuel s o = Some s' → wf s'.
Proof.
  intros H. destruct o; cbn [run_pool_op].
  2: { intros ([s1 x] & E & ->)%fmap_Some. by eapply insert_page_wf. }
  all: intros [= <-].
  - by apply keeps_fetch_page.
  - by apply keeps_unpin_page.
  - by apply keeps_mark_dirty.
  - by apply keeps_flush_page.
  - by apply keeps_flush_all.
  - by apply keeps_remove_page.
  - by apply (keeps_count (λ _, stats_zero)).
  - apply heap_update_wf; [done|]. apply run_page_op_id.
Qed.

Lemma run_pool_wf fuel l s s' : wf s → run_pool fuel s l = Some s' → wf s'.
Proof.
  revert s. induction l as [|o l IH]; intros s H; [by intros [= <-]|].
  cbn. intros (s1 & E & Hr)%bind_Some. eapply IH; [|done]. by eapply run_pool_op_wf.
Qed.

Lemma init_pool_wf cap psize h : 1 <= cap → wf (init_pool cap psize h).
Proof.
  intros Hc. split; cbn; rewrite ?length_py_repeat; try lia.
  - intros id i. rewrite lookup_empty. split; [done|]. intros (r & [_ Hl] & _). cbn in Hl.
    unfold py_repeat in Hl. by apply lookup_replicate in Hl as [? _].
  - intros i Hi. by apply elem_of_empty in Hi.
Qed.

(** * Properties *)

(** C20: However the pool and its pages are used (any sequence of operations that
    return), the pool never holds more pages than its capacity, the index finds exactly
    the pages in the slots, each under its own identifier and in one slot only, and
    only slots that hold a page are marked dirty. *)
Theorem buffer_pool_consistent cap psize h fuel l s :
  1 <= cap → run_pool fuel (init_pool cap psize h) l = Some s →
  size s <= capacity s ∧
  (∀ id r, cached s id = Some r ↔ ∃ i, occupied s i r ∧ Page.page_id (heap s r) = id) ∧
  (∀ i j r r', occupied s i r → occupied s j r' →
     Page.page_id (heap s r) = Page.page_id (heap s r') → i = j) ∧
  (∀ i, i ∈ dirty_pages s → ∃ r, occupied s i r).
Proof.
  intros Hc Hr. assert (wf s) as H by (eapply run_pool_wf; [by apply init_pool_wf|done]).
  split; [by apply size_le_capacity|]. split; [intros id r; by apply cached_spec|].
  split; [by intros i j r r'; apply occupied_inj|by apply wf_dirty].
Qed.

(** C7: [insert_page] of a page that is not cached, in any state the pool can be in.
    With room, the page is cached and nothing else changes. In a full pool with an
    unpinned page the CLOCK sweep ends within two rounds, and exactly one other
    page leaves the cache, an unpinned one. In a full pool whose pages are all
    pinned the sweep never ends. *)
Theorem buffer_insert_spec cap psize h fuel0 l s r :
  1 <= cap → run_pool fuel0 (init_pool cap psize h) l = Some s →
  let id := Page.page_id (heap s r) in
  cached s id = None →
  (size s < capacity s → ∃ s', ∀ fuel, insert_page fuel r s = Some (s', Ok r) ∧
     ∀ k, cached s' k = if decide (k = id) then Some r else cached s k) ∧
  (size s = capacity s →
   (∃ k x, cached s k = Some x ∧ Page.is_pinned (heap s x) = false) →
   ∀ fuel, 2 * capacity s <= Z.of_nat fuel →
   ∃ victim rv s', cached s victim = Some rv ∧ Page.is_pinned (heap s rv) = false ∧
     insert_page fuel r s = Some (s', Ok r) ∧
     ∀ k, cached s' k = if decide (k = id) then Some r
                        else if decide (k = victim) then None else cached s k) ∧
  (size s = capacity s →
   (∀ k x, cached s k = Some x → Page.is_pinned (heap s x) = true) →
   ∀ fuel, insert_page fuel r s = None).
Proof.
  intros Hc Hr id Hid. assert (wf s) as H by (eapply run_pool_wf; [by apply init_pool_wf|done]).
  apply cached_None in Hid; [|done]. split; [|split].
  - intros Hs. destruct (place_page_spec s r H Hs Hid) as (s' & E & _ & _ & Hk).
    exists s'. intros fuel. split; [|done]. unfold insert_page. fold id. rewrite Hid. if_false. by rewrite E.
  - intros Hs (k & x & Hk & Hp) fuel Hfuel. assert (full s) as Hf by (apply size_full; [done|lia]).
    apply cached_spec in Hk as (i & Hi & _); [|done]. pose proof (turns_left_bound s i H).
    destruct (evict_page_ends fuel s i x) as [[s1 y] He]; [done..|lia|].
    destruct (insert_page_full fuel r s s1 y H Hf Hid He) as (v & rv & s' & Hv & Hpv & Hi' & _ & Hc').
    exists (Page.page_id (heap s rv)), rv, s'. split; [apply cached_spec; eauto|]. done.
  - intros Hs Hall fuel. assert (full s) as Hf by (apply size_full; [done|lia]).
    unfold insert_page. fold id. rewrite Hid. if_true. rewrite evict_page_pinned; [done|done|].
    intros i (x & Hx)%Hf. exists x. split; [done|].
    apply (Hall (Page.page_id (heap s x))). apply cached_spec; eauto.
Qed.

(** ** Witnesses: a pool of two slots *)

(** Three pages, references 1, 2 and 3, numbered like their references. *)
Definition heap_example (r : ref) : Page.t :=
  {| Page.page_id := PageId.mk (Zpos r) 0; Page.page_type := BTREE_LEAF; Page.page_size := 32;
     Page.data := py_repeat 32 0; Page.dirty := false; Page.pin_count := 0;
     Page.free_offset := 24; Page.flags := 0; Page.version := 1 |}.

Definition pool_example : t := init_pool 2 32 heap_example.

Definition pool_full : list pool_op :=
  [PoInsert 1%positive; PoInsert 2%positive; PoUnpin (PageId.mk 1 0)].

Lemma buffer_pool_consistent_witness :
  match run_pool 5 pool_example pool_full with
  | Some s => size s <= capacity s
  | None => False
  end.
Proof.
  destruct (run_pool 5 pool_example pool_full) as [s|] eqn:E; [|vm_compute in E; discriminate].
  apply (buffer_pool_consistent 2 32 heap_example 5 pool_full s); [lia|exact E].
Defined.

Lemma buffer_insert_spec_witness :
  match run_pool 5 pool_example pool_full with
  | Some s => ∃ victim rv s', Page.is_pinned (heap s rv) = false ∧ cached s victim = Some rv ∧
                insert_page 5 3%positive s = Some (s', Ok 3%positive)
  | None => False
  end.
Proof.
  destruct (run_pool 5 pool_example pool_full) as [s|] eqn:E; [|vm_compute in E; discriminate].
  destruct (buffer_insert_spec 2 32 heap_example 5 pool_full s 3%positive) as (_ & H & _);
    [lia|exact E|vm_compute in E; injection E as <-; vm_compute; reflexivity|].
  destruct (H) with (fuel := 5%nat) as (victim & rv & s' & H1 & H2 & H3 & _).
  - vm_compute in E. injection E as <-. vm_compute. reflexivity.
  - exists (PageId.mk 1 0), 1%positive. vm_compute in E. injection E as <-. split; reflexivity.
  - vm_compute in E. injection E as <-. vm_compute. discriminate.
  - exists victim, rv, s'. split; [exact H2|]. split; [exact H1|exact H3].
Defined.

(** An evicted dirty page is counted as written, but its bytes are handed to nobody:
    what was written in page 1 is lost. *)
Example evicted_dirty_page_is_lost :
  match run_pool 5 pool_example
          [PoInsert 1%positive; PoPage 1%positive (PAppend [42]); PoDirty (PageId.mk 1 0);
           PoInsert 2%positive; PoUnpin (PageId.mk 1 0); PoInsert 3%positive] with
  | Some s => cached s (PageId.mk 1 0) = None ∧ writes (stats s) = 1 ∧
              (flush_all [0; 1] s).2 = Ok []
  | None => False
  end.
Proof. vm_compute. auto. Qed.
