(* ===== verification/SortedMap.v ===== *)
(** [sorted(d.items())] for a dictionary with integer keys, and [sorted(s)] for a
    set of integers.

    The keys are distinct, so the order of the items is decided by the keys. The
    lemma [sorted_items_unique] is what the components use: the sorted items are
    the only list with increasing keys that has the dictionary's entries. *)

From stdpp Require Import sorting.
From S2P Require Import Prelude.

(** Increasing keys. *)
Abbreviation increasing := (StronglySorted (λ a b, a.1 < b.1)).

Section Items.
Context {A : Type}.
Implicit Types (m : gmap Z A) (l : list (Z * A)).

Definition by_key : relation (Z * A) := λ a b, a.1 <= b.1.
#[global] Instance by_key_dec : RelDecision by_key.
Proof. intros a b. unfold by_key. apply _. Defined.
#[global] Instance by_key_total : Total by_key.
Proof. intros a b. unfold by_key. lia. Qed.
#[global] Instance by_key_trans : Transitive by_key.
Proof. intros a b c. unfold by_key. lia. Qed.

Definition sorted_items m : list (Z * A) := merge_sort by_key (map_to_list m).

Lemma increasing_nodup l : increasing l → NoDup l.
Proof.
  induction 1 as [|a l _ IH Ha]; constructor; [|done].
  intros Hin. rewrite Forall_forall in Ha. specialize (Ha a Hin). lia.
Qed.

Lemma increasing_by_key l : increasing l → StronglySorted by_key l.
Proof.
  induction 1 as [|a l _ IH Ha]; constructor; [done|].
  eapply Forall_impl; [done|]. unfold by_key. lia.
Qed.

Lemma elem_of_sorted_items m k x : (k, x) ∈ sorted_items m ↔ m !! k = Some x.
Proof. unfold sorted_items. by rewrite merge_sort_Permutation, elem_of_map_to_list. Qed.

Lemma sorted_items_unique m l :
  increasing l → (∀ k x, (k, x) ∈ l ↔ m !! k = Some x) → sorted_items m = l.
Proof.
  intros Hs Hl.
  assert (sorted_items m ≡ₚ l) as HP.
  { unfold sorted_items. rewrite merge_sort_Permutation.
    apply NoDup_Permutation; [apply NoDup_map_to_list|by apply increasing_nodup|].
    intros [k x]. by rewrite elem_of_map_to_list, Hl. }
  apply (StronglySorted_unique_strong by_key); [| | |exact HP].
  - intros [k x] [k' x'] H1%elem_of_sorted_items H2%Hl. unfold by_key. cbn. intros.
    assert (k = k') as -> by lia. congruence.
  - apply StronglySorted_merge_sort; apply _.
  - by apply increasing_by_key.
Qed.

Lemma sorted_items_increasing m : increasing (sorted_items m).
Proof.
  assert (StronglySorted by_key (sorted_items m)) as Hs
    by (apply StronglySorted_merge_sort; apply _).
  assert (∀ k x y, (k, x) ∈ sorted_items m → (k, y) ∈ sorted_items m → x = y) as Hf.
  { intros k x y. rewrite !elem_of_sorted_items. congruence. }
  assert (NoDup (sorted_items m)) as Hn.
  { unfold sorted_items. rewrite merge_sort_Permutation. apply NoDup_map_to_list. }
  revert Hs Hf Hn. induction (sorted_items m) as [|[k x] l IH]; intros Hs Hf Hn; [constructor|].
  apply StronglySorted_inv in Hs as [Hs Ha]. apply NoDup_cons in Hn as [Hk Hn]. constructor.
  { apply IH; [done| |done]. intros k' y z ??. apply (Hf k'); by right. }
  apply Forall_forall. intros [k' y] Hin. rewrite Forall_forall in Ha.
  specialize (Ha _ Hin). unfold by_key in Ha. cbn in *.
  destruct (decide (k = k')) as [<-|]; [|lia].
  destruct Hk. by rewrite (Hf k x y) by (by left || by right).
Qed.

(** A new largest key comes last. *)
Lemma sorted_items_insert_last m k x :
  (∀ k' y, m !! k' = Some y → k' < k) → sorted_items (<[k := x]> m) = sorted_items m ++ [(k, x)].
Proof.
  intros Hk. apply sorted_items_unique.
  - apply StronglySorted_app_2; [|apply sorted_items_increasing|repeat constructor].
    intros [a u] [b v] Ha%elem_of_sorted_items Hb%list_elem_of_singleton. cbn.
    injection Hb as -> ->. by eapply Hk.
  - intros k' y. rewrite elem_of_app, elem_of_sorted_items, list_elem_of_singleton.
    destruct (decide (k = k')) as [<-|].
    + rewrite lookup_insert_eq. split; [|naive_solver].
      intros [H%Hk|H]; [lia|congruence].
    + rewrite lookup_insert_ne by done. naive_solver.
Qed.

Lemma increasing_filter (P : Z * A → Prop) `{∀ x, Decision (P x)} l :
  increasing l → increasing (filter P l).
Proof.
  induction 1 as [|a l _ IH Ha]; [constructor|]. rewrite filter_cons. destruct (decide (P a)); [|done].
  constructor; [done|]. apply Forall_forall. intros b [_ Hb]%list_elem_of_filter.
  by rewrite Forall_forall in Ha; apply Ha.
Qed.

(** Filtering a dictionary filters its sorted items. *)
Lemma sorted_items_filter (P : Z * A → Prop) `{∀ x, Decision (P x)} m :
  sorted_items (filter P m) = filter P (sorted_items m).
Proof.
  apply sorted_items_unique; [apply increasing_filter, sorted_items_increasing|].
  intros k x. rewrite list_elem_of_filter, elem_of_sorted_items, map_lookup_filter_Some. naive_solver.
Qed.

(** Increasing keys make a dictionary whose items they are. *)
Lemma sorted_items_list_to_map l : increasing l → sorted_items (list_to_map l) = l.
Proof.
  intros Hs. apply sorted_items_unique; [done|]. intros k x. apply elem_of_list_to_map.
  clear k x. induction Hs as [|a l _ IH Ha]; cbn [fmap list_fmap]; constructor; [|done].
  intros (b & E & Hb)%list_elem_of_fmap. rewrite Forall_forall in Ha. apply Ha in Hb. lia.
Qed.

Lemma increasing_take n l : increasing l → increasing (take n l).
Proof.
  intros Hs. revert n. induction Hs as [|a l _ IH Ha]; intros [|n]; cbn; try constructor; [done|].
  by apply Forall_take.
Qed.

Lemma map_seqZ_snoc (xs : list A) x :
  map_seqZ (M := gmap Z A) 0 (xs ++ [x]) = <[len xs := x]> (map_seqZ 0 xs).
Proof.
  rewrite map_seqZ_app, map_seqZ_singleton, Z.add_0_l. symmetry. apply insert_union_singleton_r.
  apply lookup_map_seqZ_None. lia.
Qed.

(** The entries of a dictionary numbered from [start]. *)
Lemma sorted_items_seq (start : Z) (xs : list A) :
  (sorted_items (map_seqZ start xs)).*2 = xs.
Proof.
  assert (increasing (zip (seqZ start (len xs)) xs)) as Hs.
  { revert start. induction xs as [|x xs IH]; intros start; [constructor|].
    cbn [length]. rewrite seqZ_cons by lia. cbn [zip zip_with]. constructor.
    - replace (Z.pred _) with (len xs) by lia. apply IH.
    - apply Forall_forall. intros [k y] Hk%elem_of_zip_l. cbn. apply elem_of_seqZ in Hk. lia. }
  rewrite (sorted_items_unique _ (zip (seqZ start (len xs)) xs)); [|done|].
  - apply snd_zip. rewrite length_seqZ. lia.
  - intros k x. rewrite lookup_map_seqZ_Some, list_elem_of_lookup. split.
    + intros (i & Hi). rewrite lookup_zip_with_Some in Hi.
      destruct Hi as (? & ? & E & Hk & Hx). injection E as <- <-.
      apply lookup_seqZ in Hk as [-> ?]. split; [lia|]. by replace (Z.to_nat _) with i by lia.
    + intros [? Hx]. exists (Z.to_nat (k - start)). apply lookup_zip_with_Some.
      exists k, x. split; [done|]. split; [|done].
      apply lookup_seqZ. apply lookup_lt_Some in Hx. lia.
Qed.
End Items.
