(* ===== verification/Serializer.v ===== *)
(** Values and rows: database/src/utils/serializer.py, class [Serializer].

    A value is written as a type byte and its payload; a row is the number of its
    values, their encoded lengths and the encodings. What the code leaves to
    pickle, to numpy and to the local time zone is the class [Runtime]. *)

From S2P Require Import Prelude Bytes Utf8.

(** What the serialiser calls outside the repository: [pickle] on lists, tuples,
    dictionaries and other objects, [datetime.timestamp] and
    [datetime.fromtimestamp] (whose float is a binary64 pattern), and numpy arrays. *)
Class Runtime := {
  object : Type;
  is_sequence : object → bool;  (* isinstance(value, (list, tuple)) *)
  pickle_dumps : object → bytes;
  pickle_loads : bytes → res object;
  int_list : list Z → object;  (* a list of integers *)
  datetime : Type;
  timestamp : datetime → Z;
  fromtimestamp : Z → res datetime;
  ndarray : Type;
  nd_shape : ndarray → list Z;
  nd_tobytes : ndarray → bytes;
  nd_float32 : bytes → list Z → res ndarray;  (* np.frombuffer(.., float32).reshape(shape) *)
}.

(** [struct.unpack("!f")]: the binary64 pattern of a binary32 pattern. *)
Definition widen (b : Z) : Z :=
  let s := b / 2 ^ 31 in
  let e := b / 2 ^ 23 mod 256 in
  let m := b mod 2 ^ 23 in
  let k := Z.log2 m in
  s * 2 ^ 63 +
  (if e =? 255 then 2047 * 2 ^ 52 + (if m =? 0 then 0 else Z.lor (m * 2 ^ 29) (2 ^ 51))
   else if e =? 0 then (if m =? 0 then 0 else (k + 874) * 2 ^ 52 + (m - 2 ^ k) * 2 ^ (52 - k))
   else (e + 896) * 2 ^ 52 + m * 2 ^ 29).

Module Serializer.
Section WithRuntime.
Context `{RT : Runtime}.

Inductive value :=
  | VNone
  | VBool (b : bool)
  | VInt (z : Z)
  | VFloat (bits : Z)
  | VStr (s : pystr)
  | VBytes (b : bytes)
  | VDatetime (d : datetime)
  | VDate (ordinal : Z)
  | VObject (o : object)
  | VArray (a : ndarray).

Definition TYPE_NULL : Z := 0.
Definition TYPE_INT : Z := 1.
Definition TYPE_FLOAT : Z := 2.
Definition TYPE_STR : Z := 3.
Definition TYPE_BYTES : Z := 4.
Definition TYPE_BOOL : Z := 5.
Definition TYPE_LIST : Z := 6.
Definition TYPE_DICT : Z := 7.
Definition TYPE_FLOAT32 : Z := 8.
Definition TYPE_FLOAT64 : Z := 9.
Definition TYPE_INT64 : Z := 10.
Definition TYPE_DATETIME : Z := 11.
Definition TYPE_DATE : Z := 12.

(** [struct.pack("!BI", tag, len(x)) + x]. *)
Definition tagged (tag : Z) (x : bytes) : res bytes :=
  l ← pack_be 4 (len x); Ok (tag :: l ++ x).

Definition encode (v : value) : res bytes :=
  match v with
  | VNone => Ok [TYPE_NULL]
  | VBool b => Ok [TYPE_BOOL; if b then 1 else 0]
  | VInt z => x ← pack_be_s 8 z; Ok (TYPE_INT64 :: x)
  | VFloat f => x ← pack_be 8 f; Ok (TYPE_FLOAT64 :: x)
  | VStr s => x ← utf8_encode s; tagged TYPE_STR x
  | VBytes x => tagged TYPE_BYTES x
  | VDatetime d => x ← pack_be 8 (timestamp d); Ok (TYPE_DATETIME :: x)
  | VDate days => x ← pack_be_s 4 days; Ok (TYPE_DATE :: x)
  | VObject o => tagged (if is_sequence o then TYPE_LIST else TYPE_DICT) (pickle_dumps o)
  | VArray a =>
      let x := nd_tobytes a in
      n ← pack_be 1 (len (nd_shape a));
      l ← pack_be 4 (len x);
      shape ← pack_be_many 4 (nd_shape a);
      Ok (TYPE_FLOAT32 :: n ++ l ++ shape ++ x)
  end.

(** [date.fromordinal]. *)
Definition fromordinal (days : Z) : res value :=
  if (1 <=? days) && (days <=? 3652059) then Ok (VDate days) else Err ValueError.

(** The length field and the slice after it; a slice past the end is shorter. *)
Definition sized (data : bytes) (offset : Z) : res (bytes * Z) :=
  length ← unpack_be_from 4 data offset;
  Ok (py_slice data (offset + 4) (offset + 4 + length), offset + 4 + length).

Definition decode (data : bytes) (offset : Z) : res (value * Z) :=
  type_byte ← py_get data offset;
  let offset := offset + 1 in
  if type_byte =? TYPE_NULL then Ok (VNone, offset)
  else if type_byte =? TYPE_BOOL then
    val ← unpack_be_from 1 data offset; Ok (VBool (negb (val =? 0)), offset + 1)
  else if type_byte =? TYPE_INT then
    val ← unpack_be_s_from 4 data offset; Ok (VInt val, offset + 4)
  else if type_byte =? TYPE_INT64 then
    val ← unpack_be_s_from 8 data offset; Ok (VInt val, offset + 8)
  else if type_byte =? TYPE_FLOAT then
    val ← unpack_be_from 4 data offset; Ok (VFloat (widen val), offset + 4)
  else if type_byte =? TYPE_FLOAT64 then
    val ← unpack_be_from 8 data offset; Ok (VFloat val, offset + 8)
  else if type_byte =? TYPE_STR then
    r ← sized data offset; val ← utf8_decode r.1; Ok (VStr val, r.2)
  else if type_byte =? TYPE_BYTES then
    r ← sized data offset; Ok (VBytes r.1, r.2)
  else if (type_byte =? TYPE_LIST) || (type_byte =? TYPE_DICT) then
    r ← sized data offset; val ← pickle_loads r.1; Ok (VObject val, r.2)
  else if type_byte =? TYPE_FLOAT32 then
    ndim ← unpack_be_from 1 data offset;
    length ← unpack_be_from 4 data (offset + 1);
    let offset := offset + 5 in
    shape ← unpack_be_many 4 (Z.to_nat ndim) data offset;
    let offset := offset + 4 * ndim in
    arr ← nd_float32 (py_slice data offset (offset + length)) shape;
    Ok (VArray arr, offset + length)
  else if type_byte =? TYPE_DATETIME then
    ts ← unpack_be_from 8 data offset; d ← fromtimestamp ts; Ok (VDatetime d, offset + 8)
  else if type_byte =? TYPE_DATE then
    days ← unpack_be_s_from 4 data offset; d ← fromordinal days; Ok (d, offset + 4)
  else Err ValueError.

Definition encode_row (values : list value) : res bytes :=
  encoded_values ← res_map encode values;
  n ← pack_be 2 (len values);
  lengths ← pack_be_many 4 ((λ ev, len ev) <$> encoded_values);
  Ok (n ++ lengths ++ concat encoded_values).

(** The loop of [decode_row] over the lengths. *)
Fixpoint decode_values (data : bytes) (lengths : list Z) (offset : Z) : res (list value * Z) :=
  match lengths with
  | [] => Ok ([], offset)
  | length :: lengths' =>
      r ← decode data offset;
      rs ← decode_values data lengths' (offset + length);
      Ok (r.1 :: rs.1, rs.2)
  end.

Definition decode_row (data : bytes) (offset : Z) : res (list value * Z) :=
  num_values ← unpack_be_from 2 data offset;
  let offset := offset + 2 in
  lengths ← unpack_be_many 4 (Z.to_nat num_values) data offset;
  decode_values data lengths (offset + 4 * num_values).

Definition encode_slot (key val : value) : res bytes :=
  key_data ← encode key;
  val_data ← encode val;
  a ← pack_be 4 (len key_data);
  b ← pack_be 4 (len val_data);
  Ok (a ++ b ++ key_data ++ val_data).

Definition decode_slot (data : bytes) (offset : Z) : res (value * value * Z) :=
  lens ← unpack_be_many 4 2 data offset;
  key_len ← py_get lens 0;
  val_len ← py_get lens 1;
  let offset := offset + 8 in
  key ← decode data offset;
  let offset := offset + key_len in
  val ← decode data offset;
  Ok (key.1, val.1, offset + val_len).

(** What survives the trip: a string's code points, a date in the calendar's range,
    and whatever pickle, the time zone and numpy give back. *)
Definition faithful (v : value) : Prop :=
  match v with
  | VStr s => Forall (λ c, 0 <= c < 1114112) s
  | VDate days => 1 <= days <= 3652059
  | VDatetime d => fromtimestamp (timestamp d) = Ok d
  | VObject o => pickle_loads (pickle_dumps o) = Ok o
  | VArray a => nd_float32 (nd_tobytes a) (nd_shape a) = Ok a
  | _ => True
  end.

(** * Lemmas *)

Lemma tagged_inv tag x y :
  tagged tag x = Ok y → 0 <= len x < width 4 ∧ y = tag :: be_bytes 4 (len x) ++ x.
Proof.
  unfold tagged. destruct (pack_be 4 (len x)) as [l|] eqn:El; [|done].
  apply pack_u_inv in El as [? ->]. cbn [mbind res_bind]. by intros <-%Ok_inj.
Qed.

Lemma sized_at p tag x s :
  0 <= len x < width 4 →
  sized (p ++ (tag :: be_bytes 4 (len x) ++ x) ++ s) (len p + 1) = Ok (x, len p + (5 + len x)).
Proof.
  intros Hx. unfold sized.
  erewrite (unpack_be_from_at _ 4 (p ++ [tag]) (len x) (x ++ s));
    [|by rewrite <-!app_assoc|done|rewrite length_app; cbn; lia].
  cbn [mbind res_bind]. f_equal. f_equal; [|lia].
  apply (py_slice_at _ (p ++ tag :: be_bytes 4 (len x)) x s);
    rewrite <-?app_assoc; cbn [app]; rewrite ?length_app; cbn [length];
    rewrite ?length_be_bytes; try done; lia.
Qed.

(** The decoder's first step: the type byte. *)
Lemma py_get_tag p (tag : Z) x s : py_get (p ++ (tag :: x) ++ s) (len p) = Ok tag.
Proof. cbn [app]. apply py_get_app_mid. Qed.

Ltac tag_step :=
  unfold decode; rewrite py_get_tag; cbn [mbind res_bind];
  repeat match goal with |- context [?a =? ?b] =>
    let v := eval vm_compute in (a =? b) in change (a =? b) with v end;
  cbn [orb]; cbv iota.

Lemma decode_null data off : py_get data off = Ok TYPE_NULL → decode data off = Ok (VNone, off + 1).
Proof. unfold decode. by intros ->. Qed.

(** The payload of a fixed size after the type byte. *)
Lemma payload_at p (tag : Z) x s : p ++ (tag :: x) ++ s = (p ++ [tag]) ++ x ++ s.
Proof. by rewrite <-app_assoc. Qed.

Lemma after_tag p (tag : Z) : len p + 1 = len (p ++ [tag]).
Proof. rewrite length_app. cbn. lia. Qed.

Lemma payload_u n p (tag v : Z) s :
  0 <= v < width n → unpack_be_from n (p ++ (tag :: be_bytes n v) ++ s) (len p + 1) = Ok v.
Proof. intros. eapply unpack_be_from_at; [apply payload_at|done|apply after_tag]. Qed.

Lemma payload_s n p (tag v : Z) s :
  - (width n / 2) <= v < width n / 2 →
  unpack_be_s_from n (p ++ (tag :: be_bytes n v) ++ s) (len p + 1) = Ok v.
Proof. intros. eapply unpack_be_s_from_at; [apply payload_at|done|apply after_tag]. Qed.

(** An array: rank, length, shape, contents. *)
Lemma decode_array p a x s :
  nd_float32 (nd_tobytes a) (nd_shape a) = Ok a →
  encode (VArray a) = Ok x → decode (p ++ x ++ s) (len p) = Ok (VArray a, len p + len x).
Proof.
  intros Ha. cbn [encode].
  destruct (pack_be 1 _) as [n|] eqn:En; [|done]. apply pack_u_inv in En as [Hn ->].
  destruct (pack_be 4 _) as [l|] eqn:El; [|done]. apply pack_u_inv in El as [Hl ->].
  cbn [mbind res_bind].
  destruct (pack_be_many 4 _) as [sh|] eqn:Es; [|done].
  pose proof (pack_be_many_inv _ _ _ Es) as (_ & _ & Lsh).
  cbn [mbind res_bind]. intros <-%Ok_inj. tag_step.
  set (r := nd_tobytes a) in *.
  erewrite (unpack_be_from_at _ 1 (p ++ [TYPE_FLOAT32]) (len (nd_shape a))); cycle 1.
  { apps. } { done. } { apply after_tag. }
  cbn [mbind res_bind].
  erewrite (unpack_be_from_at _ 4 (p ++ TYPE_FLOAT32 :: be_bytes 1 (len (nd_shape a))) (len r)); cycle 1.
  { apps. } { done. } { lens. }
  cbn [mbind res_bind]. rewrite Nat2Z.id.
  erewrite (unpack_be_many_at _ 4
    (p ++ TYPE_FLOAT32 :: be_bytes 1 (len (nd_shape a)) ++ be_bytes 4 (len r))); cycle 1.
  { done. } { apps. }
  { lens. }
  cbn [mbind res_bind].
  rewrite (py_slice_at _
    (p ++ TYPE_FLOAT32 :: be_bytes 1 (len (nd_shape a)) ++ be_bytes 4 (len r) ++ sh) r s).
  - rewrite Ha. cbn [mbind res_bind]. do 2 f_equal. lens.
  - apps.
  - lens.
  - lens.
Qed.

Lemma decode_encode p v x s :
  faithful v → encode v = Ok x → decode (p ++ x ++ s) (len p) = Ok (v, len p + len x).
Proof.
  intros Hv E.
  destruct v as [|b|z|f|u|y|d|days|o|a]; [..|by apply decode_array]; cbn [encode faithful] in *;
    repeat match goal with
    | E : (_ ≫= _) = Ok _ |- _ => apply bind_Ok in E as (? & ? & ?)
    | E : pack_u _ _ _ = Ok _ |- _ => apply pack_u_inv in E as [? ->]
    | E : pack_s _ _ _ = Ok _ |- _ => apply pack_s_inv in E as [? ->]
    | E : tagged _ _ = Ok _ |- _ => apply tagged_inv in E as [? ->]
    | E : Ok _ = Ok _ |- _ => apply Ok_inj in E as <-
    end.
  - tag_step. done.
  - tag_step. rewrite <-(be_bytes_1 (if b then 1 else 0)) by (destruct b; lia).
    rewrite (payload_u 1) by (destruct b; done).
    destruct b; cbn [mbind res_bind]; do 2 f_equal; lens.
  - tag_step. rewrite payload_s by done. cbn [mbind res_bind]. do 2 f_equal. lens.
  - tag_step. rewrite payload_u by done. cbn [mbind res_bind]. do 2 f_equal. lens.
  - tag_step. rewrite sized_at by done. cbn [mbind res_bind fst snd].
    rewrite (utf8_decode_encode u) by eauto using utf8_scalars. cbn [mbind res_bind length]. do 2 f_equal. lens.
  - tag_step. rewrite sized_at by done. cbn [mbind res_bind fst snd length]. do 2 f_equal. lens.
  - tag_step. rewrite payload_u by done. cbn [mbind res_bind]. rewrite Hv. cbn [mbind res_bind]. do 2 f_equal. lens.
  - tag_step. rewrite payload_s by done. unfold fromordinal. cbn [mbind res_bind].
    if_true. cbn [mbind res_bind]. do 2 f_equal. lens.
  - destruct (is_sequence o); tag_step; rewrite sized_at by done; cbn [mbind res_bind fst snd];
      rewrite Hv; cbn [mbind res_bind length]; do 2 f_equal; lens.
Qed.

(** The decoding loop of a row on the encodings of its values. *)
Lemma decode_values_encoded vs xs p s :
  Forall faithful vs → res_map encode vs = Ok xs →
  decode_values (p ++ concat xs ++ s) ((λ x, len x) <$> xs) (len p) =
  Ok (vs, len p + len (concat xs)).
Proof.
  intros Hvs. revert xs p. induction Hvs as [|v vs Hv _ IH]; intros xs p.
  - intros <-%Ok_inj. cbn. do 2 f_equal. lia.
  - cbn [res_map]. intros (x & Ex & (xs' & Exs & <-%Ok_inj)%bind_Ok)%bind_Ok.
    cbn [fmap list_fmap decode_values concat]. rewrite <-app_assoc.
    rewrite (decode_encode p v) by done. cbn [mbind res_bind].
    specialize (IH xs' (p ++ x) Exs). rewrite <-app_assoc, length_app, Nat2Z.inj_add in IH.
    rewrite IH. cbn [mbind res_bind fst snd]. do 2 f_equal. rewrite length_app. lia.
Qed.

Lemma length_res_map {A B} (f : A → res B) l ys : res_map f l = Ok ys → length ys = length l.
Proof.
  revert ys. induction l as [|a l IH]; intros ys; cbn; [by intros <-%Ok_inj|].
  intros (y & _ & (ys' & E & <-%Ok_inj)%bind_Ok)%bind_Ok. cbn. by rewrite (IH _ E).
Qed.

(** * Properties *)

(** A row of any values the runtime can give back is read back from anywhere in
    a page: [decode_row] at the place of an encoded row returns the same values and
    the offset just after the row, whatever surrounds it. *)
Theorem serializer_row_roundtrip p vs x s :
  Forall faithful vs → encode_row vs = Ok x →
  decode_row (p ++ x ++ s) (len p) = Ok (vs, len p + len x).
Proof.
  intros Hvs. unfold encode_row.
  intros (xs & Exs & (n & [Hn ->]%pack_u_inv & (ls & Els & <-%Ok_inj)%bind_Ok)%bind_Ok)%bind_Ok.
  pose proof (pack_be_many_inv _ _ _ Els) as (_ & _ & Lls).
  pose proof (length_res_map _ _ _ Exs) as Lxs. rewrite length_fmap in Lls.
  unfold decode_row.
  rewrite (unpack_be_from_at _ 2 p (len vs) (ls ++ concat xs ++ s)); [|apps|done|done].
  cbn [mbind res_bind].
  assert (Z.to_nat (len vs) = length ((λ ev, len ev) <$> xs)) as ->
    by (rewrite length_fmap; lia).
  erewrite (unpack_be_many_at _ 4 (p ++ be_bytes 2 (len vs))); [|done|apps|lens].
  cbn [mbind res_bind].
  pose proof (decode_values_encoded vs xs (p ++ be_bytes 2 (len vs) ++ ls) s Hvs Exs) as D.
  replace (len (p ++ be_bytes 2 (len vs) ++ ls)) with (len p + 2 + 4 * len vs) in D.
  2: { rewrite !length_app, length_be_bytes. lia. }
  replace ((p ++ be_bytes 2 (len vs) ++ ls) ++ concat xs ++ s)
    with (p ++ (be_bytes 2 (len vs) ++ ls ++ concat xs) ++ s) in D by apps.
  rewrite D. do 2 f_equal. rewrite !length_app, length_be_bytes. lia.
Qed.

(** A key and its value survive a slot of the B+ tree. *)
Theorem serializer_slot_roundtrip p k v x s :
  faithful k → faithful v → encode_slot k v = Ok x →
  decode_slot (p ++ x ++ s) (len p) = Ok (k, v, len p + len x).
Proof.
  intros Hk Hv. unfold encode_slot.
  intros (kd & Ek & (vd & Ev & (a & [Ha ->]%pack_u_inv &
    (b & [Hb ->]%pack_u_inv & <-%Ok_inj)%bind_Ok)%bind_Ok)%bind_Ok)%bind_Ok.
  unfold decode_slot.
  rewrite (unpack_be_many_at _ 4 p [len kd; len vd] (be_bytes 4 (len kd) ++ be_bytes 4 (len vd))
             (kd ++ vd ++ s)); [|by unfold pack_be_many; cbn [res_map]; rewrite !pack_u_ok by done|apps|done].
  cbn [mbind res_bind]. change (py_get [len kd; len vd] 0) with (Ok (len kd)).
  change (py_get [len kd; len vd] 1) with (Ok (len vd)). cbn [mbind res_bind].
  pose proof (decode_encode (p ++ be_bytes 4 (len kd) ++ be_bytes 4 (len vd)) k kd (vd ++ s) Hk Ek) as Dk.
  pose proof (decode_encode (p ++ be_bytes 4 (len kd) ++ be_bytes 4 (len vd) ++ kd) v vd s Hv Ev) as Dv.
  rewrite <-!app_assoc in *.
  replace (len (p ++ be_bytes 4 (len kd) ++ be_bytes 4 (len vd))) with (len p + 8) in Dk by lens.
  replace (len (p ++ be_bytes 4 (len kd) ++ be_bytes 4 (len vd) ++ kd))
    with (len p + 8 + len kd) in Dv by lens.
  rewrite Dk. cbn [mbind res_bind]. rewrite Dv. cbn [mbind res_bind fst]. do 2 f_equal. lens.
Qed.

(** No length is checked against the data: a stored byte string that was cut
    short reads back as the part that is left, with the offset of the whole one. *)
Theorem serializer_truncated b x (n : nat) :
  encode (VBytes b) = Ok x → Z.of_nat n <= len b →
  decode (take (5 + n) x) 0 = Ok (VBytes (take n b), len x).
Proof.
  cbn [encode]. intros [Hb ->]%tagged_inv Hn.
  assert (take (5 + n) (TYPE_BYTES :: be_bytes 4 (len b) ++ b) =
          [] ++ (TYPE_BYTES :: be_bytes 4 (len b)) ++ take n b) as ->.
  { done. }
  change 0 with (len (@nil Z)). tag_step. unfold sized.
  rewrite payload_u by done. cbn [mbind res_bind fst snd].
  f_equal. f_equal; [|lens]. f_equal. change (len [] + 1 + 4) with 5.
  rewrite py_slice_nonneg by lia. replace (5 + len b - 5) with (len b) by lia. rewrite Nat2Z.id.
  change (take (length b) (take n b) = take n b). apply take_ge. rewrite length_take. lia.
Qed.

End WithRuntime.

(** A runtime whose objects are their own pickles, in UTC. *)
Definition plain_runtime : Runtime := {|
  object := bytes; is_sequence := λ o, false; pickle_dumps := λ o, o; pickle_loads := Ok;
  int_list := λ l, l;
  datetime := Z; timestamp := λ d, d; fromtimestamp := Ok;
  ndarray := list Z * bytes; nd_shape := fst; nd_tobytes := snd;
  nd_float32 := λ b sh, Ok (sh, b) |}.

#[local] Existing Instance plain_runtime.

(** ["é"], -2, a date, a missing value. *)
Example row_example :
  encode_row [VStr [233]; VInt (-2); VDate 738000; VNone] =
  Ok ([0; 4; 0; 0; 0; 7; 0; 0; 0; 9; 0; 0; 0; 5; 0; 0; 0; 1; 3; 0; 0; 0; 2; 195; 169;
       10; 255; 255; 255; 255; 255; 255; 255; 254; 12; 0; 11; 66; 208; 0]).
Proof. vm_compute. reflexivity. Qed.

(** A legacy 4-byte float, 1.5. *)
Example float_example : decode [2; 63; 192; 0; 0] 0 = Ok (VFloat 4609434218613702656, 5).
Proof. vm_compute. reflexivity. Qed.

Definition sample_row : list value :=
  [VStr [233]; VInt (-2); VObject ([1; 2] : bytes);
   VDatetime (7 : Z); VArray (([2; 1], [1; 2]) : list Z * bytes)].

Lemma serializer_row_roundtrip_witness :
  ∃ x, encode_row sample_row = Ok x ∧
  decode_row ([9; 9] ++ x ++ [8]) 2 = Ok (sample_row, 2 + len x).
Proof.
  eexists. split; [vm_compute; reflexivity|].
  apply (serializer_row_roundtrip [9; 9] sample_row _ [8]); [|vm_compute; reflexivity].
  repeat constructor; cbn; try lia.
Defined.

Lemma serializer_slot_roundtrip_witness :
  ∃ x, encode_slot (VInt 5) (VBytes [1; 2]) = Ok x ∧
  decode_slot ([9] ++ x ++ []) 1 = Ok (VInt 5, VBytes [1; 2], 1 + len x).
Proof.
  eexists. split; [vm_compute; reflexivity|].
  apply (serializer_slot_roundtrip [9] (VInt 5) (VBytes [1; 2]) _ []); done.
Defined.

Lemma serializer_truncated_witness :
  decode [4; 0; 0; 0; 3; 65] 0 = Ok (VBytes [65], 8).
Proof. apply (serializer_truncated [65; 66; 67] [4; 0; 0; 0; 3; 65; 66; 67] 1); done. Defined.
End Serializer.
