(* ===== verification/Wal.v ===== *)
(** The write-ahead log: database/src/storage/wal.py, [LogType], [LogRecord] and
    [WriteAheadLog].

    The log directory is part of the state: file number to contents. The names
    [log_00000000.wal], [log_00000001.wal], ... sort like their numbers. Writes,
    flushes and fsyncs succeed. The records handed to [append] are fresh objects,
    as in all the calls of the code. *)

From S2P Require Import Prelude SortedMap Bytes Utf8 Serializer Page.

Inductive LogType :=
  | BEGIN | COMMIT | ABORT | INSERT | DELETE | UPDATE | CHECKPOINT_BEGIN | CHECKPOINT_END | CLR.

#[export] Instance LogType_eq_dec : EqDecision LogType.
Proof. solve_decision. Defined.

Definition log_types : list LogType :=
  [BEGIN; COMMIT; ABORT; INSERT; DELETE; UPDATE; CHECKPOINT_BEGIN; CHECKPOINT_END; CLR].

(** [int(log_type)]. *)
Definition log_type_int (ty : LogType) : Z :=
  match ty with
  | BEGIN => 0 | COMMIT => 1 | ABORT => 2 | INSERT => 3 | DELETE => 4 | UPDATE => 5
  | CHECKPOINT_BEGIN => 6 | CHECKPOINT_END => 7 | CLR => 8
  end.

(** [LogType(n)], for the unsigned [n] of the header. *)
Definition log_type_of (n : Z) : res LogType :=
  match (if n <? 0 then None else log_types !! Z.to_nat n) with
  | Some ty => Ok ty
  | None => Err ValueError
  end.

Module LogRecord.
Section WithRuntime.
Context `{RT : Runtime}.
Import Serializer.

(** The value [None] is the absence of a key or of a value. *)
Record t := mk {
  lsn : Z;
  log_type : LogType;
  transaction_id : Z;
  page_id : option PageId.t;
  key : value;
  old_value : value;
  new_value : value;
  prev_lsn : Z;
  table_id : Z;
}.

Definition with_lsn (n : Z) (r : t) : t :=
  mk n (log_type r) (transaction_id r) (page_id r) (key r) (old_value r) (new_value r)
     (prev_lsn r) (table_id r).

(** [struct.calcsize("!QIBIIIQQ")]. *)
Definition HEADER_SIZE : Z := 41.

(** [Serializer.encode(v) if v is not None else b""]. *)
Definition encode_opt (v : value) : res bytes :=
  match v with VNone => Ok [] | _ => encode v end.

Definition serialize (r : t) : res bytes :=
  let page_num := match page_id r with Some p => PageId.page_num p | None => -1 end in
  let page_table_id := match page_id r with Some p => PageId.table_id p | None => table_id r end in
  key_data ← encode_opt (key r);
  old_data ← encode_opt (old_value r);
  new_data ← encode_opt (new_value r);
  h1 ← pack_be 8 (lsn r);
  h2 ← pack_be 4 (log_type_int (log_type r));
  h3 ← pack_be 1 (transaction_id r);
  h4 ← pack_be 4 page_num;
  h5 ← pack_be 4 page_table_id;
  h6 ← pack_be 4 (prev_lsn r);
  h7 ← pack_be 8 (len key_data);
  h8 ← pack_be 8 (len old_data);
  n ← pack_be 4 (len new_data);
  Ok ((h1 ++ h2 ++ h3 ++ h4 ++ h5 ++ h6 ++ h7 ++ h8) ++ key_data ++ old_data ++ new_data ++ n).

(** [if n > 0: v, _ = Serializer.decode(data, offset); offset += n]. *)
Definition decode_opt (data : bytes) (n offset : Z) : res (value * Z) :=
  if 0 <? n then r ← decode data offset; Ok (r.1, offset + n) else Ok (VNone, offset).

Definition deserialize (data : bytes) (offset : Z) : res (t * Z) :=
  h ← unpack_from 41 data offset;
  lsn ← unpack_be_from 8 h 0;
  log_type_int ← unpack_be_from 4 h 8;
  transaction_id ← unpack_be_from 1 h 12;
  page_num ← unpack_be_from 4 h 13;
  page_table_id ← unpack_be_from 4 h 17;
  prev_lsn ← unpack_be_from 4 h 21;
  key_len ← unpack_be_from 8 h 25;
  old_len ← unpack_be_from 8 h 33;
  let offset := offset + HEADER_SIZE in
  new_len ← unpack_be_from 4 data offset;
  let offset := offset + 4 in
  k ← decode_opt data key_len offset;
  o ← decode_opt data old_len k.2;
  n ← decode_opt data new_len o.2;
  let page_id := if 0 <=? page_num then Some (PageId.mk page_num page_table_id) else None in
  ty ← log_type_of log_type_int;
  Ok (mk lsn ty transaction_id page_id k.1 o.1 n.1 prev_lsn page_table_id, n.2).

(** A record about a page without key and values. *)
Definition bare (r : t) : Prop :=
  key r = VNone ∧ old_value r = VNone ∧ new_value r = VNone ∧ ∃ p, page_id r = Some p.

(** What a file keeps. [serialize] writes the table of the page, if there is one, and not the
    [table_id] of the record, so that the record comes back with the table of its page. *)
Definition stored (r : t) : t :=
  mk (lsn r) (log_type r) (transaction_id r) (page_id r) (key r) (old_value r) (new_value r)
     (prev_lsn r) (match page_id r with Some p => PageId.table_id p | None => table_id r end).

(** * Lemmas *)

Lemma log_type_of_int ty : log_type_of (log_type_int ty) = Ok ty.
Proof. by destruct ty. Qed.

(** The header of a record, as bytes. *)
Definition header_bytes (r : t) (page : PageId.t) (kl ol : Z) : bytes :=
  be_bytes 8 (lsn r) ++ be_bytes 4 (log_type_int (log_type r)) ++ be_bytes 1 (transaction_id r) ++
  be_bytes 4 (PageId.page_num page) ++ be_bytes 4 (PageId.table_id page) ++
  be_bytes 4 (prev_lsn r) ++ be_bytes 8 kl ++ be_bytes 8 ol.

(** The fields of a record fit their widths. *)
Definition fits (r : t) (page : PageId.t) (kl ol : Z) : Prop :=
  0 <= lsn r < width 8 ∧ 0 <= transaction_id r < width 1 ∧ 0 <= PageId.page_num page < width 4 ∧
  0 <= PageId.table_id page < width 4 ∧ 0 <= prev_lsn r < width 4 ∧ 0 <= kl < width 8 ∧
  0 <= ol < width 8.

Lemma serialize_inv r page x :
  page_id r = Some page → serialize r = Ok x →
  ∃ kd od nd, encode_opt (key r) = Ok kd ∧ encode_opt (old_value r) = Ok od ∧
    encode_opt (new_value r) = Ok nd ∧ fits r page (len kd) (len od) ∧ 0 <= len nd < width 4 ∧
    x = header_bytes r page (len kd) (len od) ++ kd ++ od ++ nd ++ be_bytes 4 (len nd).
Proof.
  unfold serialize. intros ->.
  intros (kd & Ek & E)%bind_Ok. apply bind_Ok in E as (od & Eo & E).
  apply bind_Ok in E as (nd & En & E).
  repeat match goal with
  | E : (_ ≫= _) = Ok _ |- _ => apply bind_Ok in E as (? & [? ->]%pack_u_inv & E)
  end.
  apply Ok_inj in E as <-. exists kd, od, nd. by split_and!; first [done|lia].
Qed.

Lemma header_fields r page kl ol :
  fits r page kl ol →
  let h := header_bytes r page kl ol in
  unpack_be_from 8 h 0 = Ok (lsn r) ∧
  unpack_be_from 4 h 8 = Ok (log_type_int (log_type r)) ∧
  unpack_be_from 1 h 12 = Ok (transaction_id r) ∧
  unpack_be_from 4 h 13 = Ok (PageId.page_num page) ∧
  unpack_be_from 4 h 17 = Ok (PageId.table_id page) ∧
  unpack_be_from 4 h 21 = Ok (prev_lsn r) ∧
  unpack_be_from 8 h 25 = Ok kl ∧ unpack_be_from 8 h 33 = Ok ol.
Proof.
  intros (?&?&?&?&?&?&?). assert (0 <= log_type_int (log_type r) < width 4) by (by destruct (log_type r)).
  unfold header_bytes. cbv zeta.
  set (a := be_bytes 8 (lsn r)). set (b := be_bytes 4 (log_type_int _)).
  set (c := be_bytes 1 _). set (d := be_bytes 4 (PageId.page_num _)).
  set (e := be_bytes 4 (PageId.table_id _)). set (f := be_bytes 4 (prev_lsn r)).
  set (g := be_bytes 8 kl). set (i := be_bytes 8 ol).
  split_and!.
  - by apply (unpack_be_from_at _ 8 [] _ (b ++ c ++ d ++ e ++ f ++ g ++ i)).
  - by apply (unpack_be_from_at _ 4 a _ (c ++ d ++ e ++ f ++ g ++ i)).
  - by apply (unpack_be_from_at _ 1 (a ++ b) _ (d ++ e ++ f ++ g ++ i)).
  - by apply (unpack_be_from_at _ 4 (a ++ b ++ c) _ (e ++ f ++ g ++ i)).
  - by apply (unpack_be_from_at _ 4 (a ++ b ++ c ++ d) _ (f ++ g ++ i)).
  - by apply (unpack_be_from_at _ 4 (a ++ b ++ c ++ d ++ e) _ (g ++ i)).
  - by apply (unpack_be_from_at _ 8 (a ++ b ++ c ++ d ++ e ++ f) _ i).
  - apply (unpack_be_from_at _ 8 (a ++ b ++ c ++ d ++ e ++ f ++ g) _ []); by rewrite ?app_nil_r.
Qed.

Lemma length_record_header r page kl ol : length (header_bytes r page kl ol) = 41%nat.
Proof. done. Qed.

(** Reading a record whose header is known. *)
Lemma deserialize_header r page kl ol p y :
  fits r page kl ol →
  let data := p ++ header_bytes r page kl ol ++ y in
  deserialize data (len p) =
  (new_len ← unpack_be_from 4 data (len p + 41);
   k ← decode_opt data kl (len p + 45);
   o ← decode_opt data ol k.2;
   n ← decode_opt data new_len o.2;
   Ok (mk (lsn r) (log_type r) (transaction_id r) (Some page) k.1 o.1 n.1 (prev_lsn r)
          (PageId.table_id page), n.2)).
Proof.
  intros Hf data. unfold deserialize.
  assert (length (header_bytes r page kl ol) = 41%nat) as Hh by done.
  assert (unpack_from 41 data (len p) = Ok (header_bytes r page kl ol)) as -> by (by apply unpack_from_app).
  cbn [mbind res_bind].
  destruct (header_fields r page kl ol Hf) as (-> & -> & -> & -> & -> & -> & -> & ->).
  cbn [mbind res_bind]. unfold HEADER_SIZE.
  replace (len p + 41 + 4) with (len p + 45) by lia.
  destruct Hf as (_ & _ & Hn & _). if_true.
  rewrite log_type_of_int. by destruct page.
Qed.

(** A record without key and values is read back. *)
Lemma deserialize_bare r p x s :
  bare r → serialize r = Ok x →
  deserialize (p ++ x ++ s) (len p) = Ok (stored r, len p + len x).
Proof.
  intros (Hk & Ho & Hn & page & Hp) E.
  apply (serialize_inv _ page) in E as (kd & od & nd & Ek & Eo & En & Hf & _ & ->); [|done].
  rewrite Hk in Ek. rewrite Ho in Eo. rewrite Hn in En.
  apply Ok_inj in Ek as <-. apply Ok_inj in Eo as <-. apply Ok_inj in En as <-.
  rewrite <-app_assoc. rewrite deserialize_header by done. cbn [app length].
  change (Z.of_nat 0) with 0.
  erewrite (unpack_be_from_at _ 4 (p ++ header_bytes r page 0 0) 0 s); [|apps|done|by rewrite length_app, length_record_header; lia].
  cbn [mbind res_bind]. unfold decode_opt. change (0 <? 0) with false.
  cbn [mbind res_bind fst snd]. unfold stored. rewrite Hk, Ho, Hn, Hp.
  do 2 f_equal; rewrite ?length_app, ?length_record_header, ?length_be_bytes; lia.
Qed.

Lemma length_serialize_bare r x : bare r → serialize r = Ok x → len x = 45.
Proof.
  intros (Hk & Ho & Hn & page & Hp) E.
  apply (serialize_inv _ page) in E as (kd & od & nd & Ek & Eo & En & _ & _ & ->); [|done].
  rewrite Hk in Ek. rewrite Ho in Eo. rewrite Hn in En.
  apply Ok_inj in Ek as <-. apply Ok_inj in Eo as <-. by apply Ok_inj in En as <-.
Qed.

(** A record without a page cannot be written: its page number is -1. *)
Lemma serialize_no_page r x : page_id r = None → serialize r ≠ Ok x.
Proof.
  unfold serialize. intros ->. intros E.
  repeat (apply bind_Ok in E as (? & ? & E)). done.
Qed.
End WithRuntime.
End LogRecord.

Module WriteAheadLog.
Section WithRuntime.
Context `{RT : Runtime}.
Import Serializer LogRecord.

Record t := mk {
  current_lsn : Z;
  flushed_lsn : Z;
  log_file_num : Z;
  log_file : option Z;  (* the number of the open file *)
  records : gmap Z LogRecord.t;
  max_file_size : Z;
  log_dir : gmap Z bytes;
}.

Definition MAX_FILE_SIZE : Z := 64 * 1024 * 1024.

Definition contents (s : t) (num : Z) : bytes := default [] (log_dir s !! num).

(** Opening for appending keeps what the file holds. *)
Definition open_log_file (s : t) : t :=
  let num := log_file_num s in
  mk (current_lsn s) (flushed_lsn s) (num + 1) (Some num) (records s) (max_file_size s)
     (<[num := contents s num]> (log_dir s)).

Definition init (dir : gmap Z bytes) : t :=
  open_log_file (mk 0 0 0 None ∅ MAX_FILE_SIZE dir).

Definition rotate_log (s : t) : t :=
  match log_file s with
  | Some num => if max_file_size s <=? len (contents s num) then open_log_file s else s
  | None => s
  end.

(** [self._log_file.write(data)] when the file is open. *)
Definition write_log (data : bytes) (s : t) : t :=
  match log_file s with
  | Some num =>
      mk (current_lsn s) (flushed_lsn s) (log_file_num s) (Some num) (records s)
         (max_file_size s) (<[num := contents s num ++ data]> (log_dir s))
  | None => s
  end.

Definition set_flushed (s : t) : t :=
  mk (current_lsn s) (current_lsn s) (log_file_num s) (log_file s) (records s)
     (max_file_size s) (log_dir s).

(** The first half of [append]: the number is given out and the record is kept. *)
Definition store (r : LogRecord.t) (s : t) : t :=
  let n := current_lsn s + 1 in
  mk n (flushed_lsn s) (log_file_num s) (log_file s) (<[n := with_lsn n r]> (records s))
     (max_file_size s) (log_dir s).

Definition append (r : LogRecord.t) : method t Z := λ s,
  let s1 := store r s in
  match serialize (with_lsn (current_lsn s1) r) with
  | Err e => (s1, Err e)
  | Ok data => (rotate_log (set_flushed (write_log data s1)), Ok (current_lsn s1))
  end.

(** The records the helpers make: [LogRecord(log_type=.., transaction_id=.., ..)]. *)
Definition txn_record (ty : LogType) (txn : Z) : LogRecord.t :=
  LogRecord.mk 0 ty txn None VNone VNone VNone 0 0.
Definition page_record (ty : LogType) (txn : Z) (page : PageId.t) (k o n : value) : LogRecord.t :=
  LogRecord.mk 0 ty txn (Some page) k o n 0 0.

Definition begin_transaction (txn : Z) : method t Z := append (txn_record BEGIN txn).
Definition commit_transaction (txn : Z) : method t Z := append (txn_record COMMIT txn).
Definition abort_transaction (txn : Z) : method t Z := append (txn_record ABORT txn).
Definition log_insert (txn : Z) (page : PageId.t) (k v : value) : method t Z :=
  append (page_record INSERT txn page k VNone v).
Definition log_delete (txn : Z) (page : PageId.t) (k old : value) : method t Z :=
  append (page_record DELETE txn page k old VNone).
Definition log_update (txn : Z) (page : PageId.t) (k old new : value) : method t Z :=
  append (page_record UPDATE txn page k old new).

Definition get_record (n : Z) (s : t) : option LogRecord.t := records s !! n.

(** [sorted(self._records.items())] is [sorted_items]. *)
Definition get_records_since (n : Z) (s : t) : list LogRecord.t :=
  (filter (λ x : Z * LogRecord.t, n < x.1) (sorted_items (records s))).*2.

Definition truncate (up_to : Z) (s : t) : t :=
  mk (current_lsn s) (flushed_lsn s) (log_file_num s) (log_file s)
     (filter (λ x : Z * LogRecord.t, up_to < x.1) (records s)) (max_file_size s) (log_dir s).

(** Storing a record read back from a file. *)
Definition restore (r : LogRecord.t) (s : t) : t :=
  mk (Z.max (current_lsn s) (lsn r)) (flushed_lsn s) (log_file_num s) (log_file s)
     (<[lsn r := r]> (records s)) (max_file_size s) (log_dir s).

(** [except (struct.error, ValueError, IndexError)]; decoding errors are ValueErrors. *)
Definition caught (e : exn) : bool :=
  match e with StructError | ValueError | IndexError | UnicodeError => true | _ => false end.

(** The loop over one file: [recovery] is the call of [recovery_func], and the
    result lists the records it was called with. *)
Fixpoint replay_file (recovery : LogRecord.t → res ()) (fuel : nat) (data : bytes) (offset : Z)
    : method t (list LogRecord.t) := λ s,
  match fuel with
  | O => (s, Ok [])
  | S fuel' =>
      if offset <? len data then
        match deserialize data offset with
        | Ok (r, offset') =>
            let s1 := restore r s in
            match recovery r with
            | Ok _ =>
                (let! rs := replay_file recovery fuel' data offset' in m_ret (r :: rs)) s1
            | Err e => (s1, if caught e then Ok [r] else Err e)
            end
        | Err e => (s, if caught e then Ok [] else Err e)
        end
      else (s, Ok [])
  end.

Fixpoint replay_files (recovery : LogRecord.t → res ()) (files : list (Z * bytes))
    : method t (list LogRecord.t) :=
  match files with
  | [] => m_ret []
  | (_, data) :: files' =>
      let! rs := replay_file recovery (S (length data)) data 0 in
      let! rs' := replay_files recovery files' in
      m_ret (rs ++ rs')
  end.

(** The files are read in the order of their names. *)
Definition replay (recovery : LogRecord.t → res ()) : method t (list LogRecord.t) :=
  let! s := m_get in
  let! rs := replay_files recovery (sorted_items (log_dir s)) in
  let! s := m_get in
  let! _ := m_put (set_flushed s) in
  m_ret rs.

Definition close (s : t) : t :=
  mk (current_lsn s) (flushed_lsn s) (log_file_num s) None (records s) (max_file_size s) (log_dir s).

(** * Lemmas *)

(** Every record is kept under its number, none is from the future. *)
Definition wf (s : t) : Prop :=
  ∀ k r, records s !! k = Some r → k <= current_lsn s ∧ lsn r = k.

(** [append] called on each record of a list, whatever the calls return. *)
Definition append_all (rs : list LogRecord.t) (s : t) : t := foldl (λ s r, (append r s).1) s rs.

(** The records as [append] numbers them after [c]. *)
Fixpoint numbered (c : Z) (rs : list LogRecord.t) : list LogRecord.t :=
  match rs with
  | [] => []
  | r :: rs' => with_lsn (c + 1) r :: numbered (c + 1) rs'
  end.

Lemma rotate_log_state s :
  current_lsn (rotate_log s) = current_lsn s ∧ flushed_lsn (rotate_log s) = flushed_lsn s ∧
  records (rotate_log s) = records s.
Proof. unfold rotate_log. repeat case_match; done. Qed.

Lemma write_log_state x s :
  current_lsn (write_log x s) = current_lsn s ∧ records (write_log x s) = records s.
Proof. unfold write_log. case_match; done. Qed.

Lemma contents_rotate s g : contents (rotate_log s) g = contents s g.
Proof.
  unfold rotate_log. repeat case_match; [|done..]. unfold contents at 1, open_log_file. cbn [log_dir].
  destruct (decide (log_file_num s = g)) as [->|]; [by rewrite lookup_insert_eq|].
  by rewrite lookup_insert_ne.
Qed.

Lemma contents_write x s f g :
  log_file s = Some f →
  contents (write_log x s) g = if decide (g = f) then contents s f ++ x else contents s g.
Proof.
  intros Hf. unfold write_log. rewrite Hf. unfold contents at 1. cbn [log_dir].
  case_decide as E; [by rewrite E, lookup_insert_eq|]. by rewrite lookup_insert_ne by done.
Qed.

(** What [append] does to the memory, whatever happens to the file. *)
Lemma append_memory r s :
  current_lsn (append r s).1 = current_lsn s + 1 ∧
  records (append r s).1 = <[current_lsn s + 1 := with_lsn (current_lsn s + 1) r]> (records s).
Proof.
  unfold append. case_match; [|done]. cbn [fst].
  destruct (rotate_log_state (set_flushed (write_log a (store r s)))) as (-> & _ & ->).
  cbn. destruct (write_log_state a (store r s)) as [-> ->]. done.
Qed.

Lemma append_wf r s : wf s → wf (append r s).1.
Proof.
  intros Hwf k r'. destruct (append_memory r s) as [-> ->].
  intros [[<- <-]|[_ H]]%lookup_insert_Some; [cbn; lia|]. apply Hwf in H. lia.
Qed.

Lemma get_records_since_append n r s :
  wf s → n <= current_lsn s →
  get_records_since n (append r s).1 =
  get_records_since n s ++ [with_lsn (current_lsn s + 1) r].
Proof.
  intros Hwf Hn. unfold get_records_since. destruct (append_memory r s) as [_ ->].
  rewrite sorted_items_insert_last.
  - rewrite filter_app, fmap_app. f_equal. rewrite filter_cons_True by (cbn; lia). done.
  - intros k r' [? _]%Hwf. lia.
Qed.

(** The bytes of a list of records. *)
Definition serialize_all (rs : list LogRecord.t) : res bytes :=
  xs ← res_map serialize rs; Ok (concat xs).

Lemma serialize_all_cons r rs x :
  serialize_all (r :: rs) = Ok x ↔
  ∃ y z, serialize r = Ok y ∧ serialize_all rs = Ok z ∧ x = y ++ z.
Proof.
  unfold serialize_all. cbn [res_map]. split.
  - intros E. apply bind_Ok in E as (xs & (y & Ey & (ys & Eys & <-%Ok_inj)%bind_Ok)%bind_Ok & <-%Ok_inj).
    exists y, (concat ys). by rewrite Eys.
  - intros (y & z & -> & (ys & -> & <-%Ok_inj)%bind_Ok & ->). done.
Qed.

Lemma serialize_all_snoc rs r x y :
  serialize_all rs = Ok x → serialize r = Ok y → serialize_all (rs ++ [r]) = Ok (x ++ y).
Proof.
  revert x. induction rs as [|r' rs IH]; intros x Ex Ey.
  - apply Ok_inj in Ex as <-. cbn [app]. apply serialize_all_cons. exists y, [].
    by rewrite app_nil_r.
  - apply serialize_all_cons in Ex as (a & b & Ea & Eb & ->). cbn [app].
    apply serialize_all_cons. exists a, (b ++ y). by rewrite (IH b), app_assoc.
Qed.

Definition restore_all (rs : list LogRecord.t) (s : t) : t := foldl (λ s r, restore r s) s rs.

(** A file of such records is read to its end. *)
Lemma replay_file_bare rs x p fuel s :
  Forall bare rs → serialize_all rs = Ok x → (length x < fuel)%nat →
  replay_file (λ _, Ok ()) fuel (p ++ x) (len p) s =
  (restore_all (stored <$> rs) s, Ok (stored <$> rs)).
Proof.
  intros Hrs. revert x p fuel s. induction Hrs as [|r rs Hr _ IH]; intros x p fuel s.
  - intros <-%Ok_inj Hf. destruct fuel; [cbn in Hf; lia|].
    cbn [concat replay_file]. rewrite app_nil_r. by if_false.
  - intros (y & z & Ey & Ez & ->)%serialize_all_cons Hf.
    pose proof (length_serialize_bare r y Hr Ey) as Ly. rewrite length_app in Hf.
    destruct fuel as [|fuel]; [lia|]. cbn [replay_file].
    rewrite !length_app. if_true. rewrite (deserialize_bare r p y z) by done.
    unfold m_bind. specialize (IH z (p ++ y) fuel (restore (stored r) s) Ez).
    rewrite <-app_assoc, length_app, Nat2Z.inj_add in IH. rewrite IH by lia. done.
Qed.

(** [files_hold s rss]: the files of the directory, in order, are those records. *)
Definition file_of (rs : list LogRecord.t) (x : bytes) : Prop :=
  Forall bare rs ∧ serialize_all rs = Ok x.

Lemma replay_files_bare rss fs s :
  Forall2 (λ rs f, file_of rs f.2) rss fs →
  replay_files (λ _, Ok ()) fs s =
  (restore_all (stored <$> concat rss) s, Ok (stored <$> concat rss)).
Proof.
  intros H. revert s. induction H as [|rs [k x] rss fs [Hb Hx] _ IH]; intros s; [done|].
  cbn [replay_files concat]. unfold m_bind.
  pose proof (replay_file_bare rs x [] (S (length x)) s Hb Hx ltac:(lia)) as E.
  cbn [app] in E. change (len []) with 0 in E. rewrite E. rewrite IH. unfold m_ret, restore_all.
  by rewrite fmap_app, foldl_app.
Qed.

(** The directory after any life of the log: its files hold the records [rss], the
    last one is open. *)
Definition layout (s : t) (rss : list (list LogRecord.t)) : Prop :=
  ∃ xs x, Forall2 file_of rss (xs ++ [x]) ∧ log_dir s = map_seqZ 0 (xs ++ [x]) ∧
          log_file s = Some (len xs) ∧ log_file_num s = len xs + 1.

Lemma rotate_layout s rss :
  layout s rss → ∃ rss', layout (rotate_log s) rss' ∧ concat rss' = concat rss.
Proof.
  intros (xs & x & Hf & Hd & Hl & Hn). unfold rotate_log. rewrite Hl. case_match.
  2: { exists rss. split; [by exists xs, x|done]. }
  exists (rss ++ [[]]). split; [|by rewrite concat_app, app_nil_r].
  exists (xs ++ [x]), []. unfold open_log_file, contents. cbn [log_dir log_file log_file_num].
  rewrite Hn, Hd, length_app. cbn [length]. split_and!.
  - apply Forall2_app; [done|]. repeat constructor.
  - rewrite (map_seqZ_snoc (xs ++ [x]) []), length_app. cbn [length].
    replace (Z.of_nat (length xs + 1)) with (len xs + 1) by lia. f_equal.
    rewrite (proj2 (lookup_map_seqZ_None _ _ _)); [done|]. rewrite length_app. cbn. lia.
  - f_equal. lia.
  - lia.
Qed.

(** A successful [append] adds its record to the files. *)
Lemma append_layout s rss r s' n :
  layout s rss → bare r → append r s = (s', Ok n) →
  ∃ rss', layout s' rss' ∧ concat rss' = concat rss ++ [with_lsn (current_lsn s + 1) r].
Proof.
  intros (xs & x & Hf & Hd & Hl & Hn) Hb. unfold append.
  destruct (serialize _) as [y|] eqn:Ey; [|done]. intros E. injection E as <- <-.
  apply Forall2_app_inv_r in Hf as (rss1 & rss2 & Hf1 & Hf2 & ->).
  apply Forall2_cons_inv_r in Hf2 as (rs & tl & [Hrs Hx] & Hnil & ->).
  apply Forall2_nil_inv_r in Hnil as ->.
  set (r' := with_lsn (current_lsn s + 1) r) in *.
  destruct (rotate_layout (set_flushed (write_log y (store r s))) (rss1 ++ [rs ++ [r']]))
    as (rss' & HL & HC).
  - exists xs, (x ++ y). unfold set_flushed, write_log. cbn [log_file store]. rewrite Hl.
    cbn [log_dir log_file log_file_num]. split_and!; [|..|done|done].
    + apply Forall2_app; [done|]. repeat constructor.
      * apply Forall_app. split; [done|]. by apply Forall_singleton.
      * by apply serialize_all_snoc.
    + unfold contents. change (log_dir (store r s)) with (log_dir s).
      rewrite Hd, !map_seqZ_snoc, lookup_insert_eq. cbn [default].
      by rewrite insert_insert_eq.
  - exists rss'. split; [done|]. rewrite HC, !concat_app. cbn. by rewrite !app_nil_r, app_assoc.
Qed.

(** [append] on each record of a list, none of which raises. *)
Definition append_each (rs : list LogRecord.t) : method t () :=
  for_each (λ r, let! _ := append r in m_ret ()) rs.

Lemma append_each_layout rs s rss s' u :
  layout s rss → Forall bare rs → append_each rs s = (s', Ok u) →
  (∃ rss', layout s' rss' ∧ concat rss' = concat rss ++ numbered (current_lsn s) rs) ∧
  current_lsn s' = current_lsn s + len rs ∧ s' = append_all rs s.
Proof.
  intros HL Hb. revert s rss HL. induction Hb as [|r rs Hr _ IH]; intros s rss HL.
  - cbn. intros E. injection E as <- _. split; [exists rss; by rewrite app_nil_r|]. split; [lia|done].
  - unfold append_each. cbn [for_each append_all foldl]. unfold m_bind at 1 2.
    pose proof (append_memory r s) as [Hc _].
    destruct (append r s) as [s1 [n|]] eqn:E; [|done]. cbn [fst] in *.
    destruct (append_layout s rss r s1 n) as (rss1 & HL1 & HC1); [done..|].
    intros E'. destruct (IH s1 rss1 HL1 E') as ((rss' & HL' & HC') & Hlsn & ->).
    split; [exists rss'|split; [cbn [length]; lia|done]]. split; [done|].
    rewrite HC', HC1, Hc. cbn [numbered]. by rewrite <-app_assoc.
Qed.

Lemma init_layout : layout (init ∅) [[]].
Proof. exists [], []. split_and!; [|done..]. repeat constructor. Qed.

(** Reopening a directory changes none of its files. *)
Lemma init_log_dir s rss : layout s rss → log_dir (init (log_dir s)) = log_dir s.
Proof.
  intros (xs & x & _ & Hd & _ & _). unfold init, open_log_file, contents. cbn [log_dir log_file_num].
  rewrite Hd. apply insert_id. rewrite lookup_map_seqZ_0 by lia.
  destruct xs; done.
Qed.

Lemma current_lsn_restore_all rs s c :
  current_lsn s = c → current_lsn (restore_all (stored <$> numbered c rs) s) = c + len rs.
Proof.
  revert s c. induction rs as [|r rs IH]; intros s c Hc; cbn; [lia|].
  fold (restore_all (stored <$> numbered (c + 1) rs) (restore (stored (with_lsn (c + 1) r)) s)).
  rewrite (IH _ (c + 1)); [lia|]. cbn. lia.
Qed.

Lemma records_append_all rs s s0 :
  records s0 = stored <$> records s → 
  records (restore_all (stored <$> numbered (current_lsn s) rs) s0) =
  stored <$> records (append_all rs s).
Proof.
  revert s s0. induction rs as [|r rs IH]; intros s s0 Hr; [done|].
  cbn [numbered append_all foldl restore_all fmap list_fmap].
  fold (append_all rs (append r s).1). destruct (append_memory r s) as [Hc Hm].
  pose proof (IH (append r s).1 (restore (stored (with_lsn (current_lsn s + 1) r)) s0)) as IH'.
  rewrite Hc in IH'. apply IH'. unfold restore. cbn [records].
  rewrite Hm, Hr, fmap_insert. done.
Qed.

(** Records that already name the table of their page are kept as they are. *)
Definition same_table (r : LogRecord.t) : Prop := stored r = r.

Lemma stored_numbered rs c : Forall same_table rs → stored <$> numbered c rs = numbered c rs.
Proof.
  intros H. revert c. induction H as [|r rs Hr _ IH]; intros c; [done|]. cbn [numbered fmap list_fmap].
  f_equal; [|apply IH]. destruct r as [? ? ? p ? ? ? ? ?]. unfold same_table, stored, with_lsn in *. cbn in *.
  congruence.
Qed.

Lemma records_same_table rs s :
  Forall same_table rs → stored <$> records s = records s →
  stored <$> records (append_all rs s) = records (append_all rs s).
Proof.
  intros H. revert s. induction H as [|r rs Hr _ IH]; intros s Hs; [done|]. cbn [append_all foldl].
  fold (append_all rs (append r s).1). apply IH. destruct (append_memory r s) as [_ ->].
  rewrite fmap_insert, Hs. f_equal. unfold same_table in Hr. destruct r. unfold stored, with_lsn in *. cbn in *. congruence.
Qed.

(** * Properties *)

(** C8: recovery. After a life of the log that began in an empty directory and in which records about
    a page, without key and values, were appended without an error, a new log over the same
    directory replays these records, in order and with their numbers, the table of each being
    that of its page, and ends with the same current number and the same records in memory up to
    that, whatever rotation of files took place. If every record already named the table of
    its page, what is replayed and kept is exactly what was appended. *)
Theorem wal_recovery rs s u :
  Forall bare rs → append_each rs (init ∅) = (s, Ok u) →
  let '(s', out) := replay (λ _, Ok ()) (init (log_dir s)) in
  out = Ok (stored <$> numbered 0 rs) ∧
  current_lsn s' = current_lsn s ∧ flushed_lsn s' = current_lsn s ∧
  records s' = stored <$> records s ∧
  (Forall same_table rs → out = Ok (numbered 0 rs) ∧ records s' = records s).
Proof.
  intros Hb E.
  destruct (append_each_layout rs (init ∅) [[]] s u init_layout Hb E)
    as ((rss & HL & HC) & Hlsn & ->).
  cbn [concat app] in HC. change (current_lsn (init ∅)) with 0 in *.
  unfold replay, m_bind, m_get, m_put, m_ret. rewrite (init_log_dir _ rss HL).
  assert (Forall2 (λ rs f, file_of rs f.2) rss (sorted_items (log_dir (append_all rs (init ∅))))) as HF.
  { destruct HL as (xs & x & Hf & -> & _). rewrite <-(sorted_items_seq 0 (xs ++ [x])) in Hf.
    exact (proj1 (Forall2_fmap_r _ _ _ _) Hf). }
  rewrite (replay_files_bare rss) by done. rewrite HC. split; [done|].
  cbn [current_lsn flushed_lsn records set_flushed].
  rewrite (current_lsn_restore_all rs _ 0) by done. split; [lia|]. split; [lia|].
  assert (records (restore_all (stored <$> numbered 0 rs) (init (log_dir (append_all rs (init ∅))))) =
    stored <$> records (append_all rs (init ∅))) as Hrec by by apply (records_append_all rs (init ∅)).
  split; [exact Hrec|]. intros Ht. split; [by rewrite stored_numbered|].
  rewrite Hrec. by apply records_same_table.
Qed.

(** The log keeps what is appended, in order: however the calls of [append]
    end, [get_records_since n] afterwards is what it was before followed by all
    the appended records, numbered consecutively from the current number. *)
Theorem wal_log_order s rs n :
  wf s → n <= current_lsn s →
  get_records_since n (append_all rs s) =
  get_records_since n s ++ numbered (current_lsn s) rs.
Proof.
  revert s. induction rs as [|r rs IH]; intros s Hwf Hn; cbn [append_all foldl numbered].
  { by rewrite app_nil_r. }
  fold (append_all rs (append r s).1).
  destruct (append_memory r s) as [Hc _].
  rewrite IH by (by apply append_wf || lia).
  rewrite get_records_since_append, Hc by done. by rewrite <-app_assoc.
Qed.

(** [append] on every branch. The number is given out and the record kept in
    any case; when the record cannot be serialised the exception leaves the files
    and the flushed number as they were; otherwise the open file grows by exactly
    the serialised record (a new file is begun after it when the file is full). *)
Theorem wal_append_spec r s :
  let n := current_lsn s + 1 in
  let '(s', out) := append r s in
  current_lsn s' = n ∧ records s' = <[n := with_lsn n r]> (records s) ∧
  match serialize (with_lsn n r) with
  | Err e => out = Err e ∧ flushed_lsn s' = flushed_lsn s ∧ log_dir s' = log_dir s
  | Ok x =>
      out = Ok n ∧ flushed_lsn s' = n ∧
      match log_file s with
      | None => log_dir s' = log_dir s
      | Some f =>
          contents s' f = contents s f ++ x ∧
          ∀ g, g ≠ f → contents s' g = contents s g
      end
  end.
Proof.
  cbv zeta. pose proof (append_memory r s) as [Hc Hr].
  destruct (append r s) as [s' out] eqn:E. cbn [fst] in *. split_and!; [done..|].
  unfold append in E. cbn [current_lsn store] in E.
  destruct (serialize _) as [x|e]; [|by injection E as <- <-].
  injection E as <- <-.
  destruct (rotate_log_state (set_flushed (write_log x (store r s)))) as (_ & Hf & _).
  rewrite Hf. cbn [flushed_lsn set_flushed]. destruct (write_log_state x (store r s)) as [-> _].
  split_and!; [done..|]. destruct (log_file s) as [f|] eqn:El.
  - split.
    + rewrite contents_rotate. unfold set_flushed, contents at 1. cbn [log_dir].
      fold (contents (write_log x (store r s)) f).
      rewrite (contents_write x (store r s) f) by done. by rewrite decide_True.
    + intros g Hg. rewrite contents_rotate. unfold set_flushed, contents at 1. cbn [log_dir].
      fold (contents (write_log x (store r s)) g).
      rewrite (contents_write x (store r s) f) by done. by rewrite decide_False.
  - unfold write_log. cbn [log_file store]. rewrite El. unfold rotate_log. cbn [log_file set_flushed].
    change (log_file (store r s)) with (log_file s). by rewrite El.
Qed.

(** Truncating removes exactly the records up to its bound. *)
Theorem wal_truncate_spec n m s :
  get_records_since n (truncate m s) = get_records_since (Z.max n m) s.
Proof.
  unfold get_records_since, truncate. cbn [records]. rewrite sorted_items_filter.
  f_equal. rewrite list_filter_filter. apply list_filter_iff. intros [k r]. cbn. lia.
Qed.

(** The records of transactions and checkpoints, which have no page, are never
    written: the call raises [struct.error] and the record stays in memory. *)
Theorem wal_control_records_fail ty txn s :
  append (txn_record ty txn) s = (store (txn_record ty txn) s, Err StructError).
Proof.
  unfold append. assert (serialize (with_lsn (current_lsn (store (txn_record ty txn) s))
    (txn_record ty txn)) = Err StructError) as ->; [|done].
  unfold serialize. cbn [page_id key old_value new_value encode_opt txn_record with_lsn mbind res_bind
    lsn log_type transaction_id].
  destruct (pack_u_cases be_bytes 8 (current_lsn (store (txn_record ty txn) s))) as [-> | ->]; [|done].
  destruct (pack_u_cases be_bytes 4 (log_type_int ty)) as [-> | ->]; [|done].
  by destruct (pack_u_cases be_bytes 1 txn) as [-> | ->].
Qed.

(** A record with a key and a value is not read back: the new value's length,
    written at the end, is read right after the header. An insertion of small
    integers comes back without its key and its value, and the offset after it
    lies far beyond the file, so that nothing after it is replayed. *)
Theorem wal_insert_misread n txn page k v x s :
  0 <= k < 2 ^ 32 → 0 <= v < 2 ^ 32 →
  serialize (with_lsn n (page_record INSERT txn page (VInt k) VNone (VInt v))) = Ok x →
  deserialize (x ++ s) 0 =
  Ok (LogRecord.mk n INSERT txn (Some page) VNone VNone VNone 0 (PageId.table_id page), 167772214).
Proof.
  intros Hk Hv E. apply (serialize_inv _ page) in E; [|done].
  destruct E as (kd & od & nd & Ek & <-%Ok_inj & En & Hf & _ & ->).
  cbn [key new_value with_lsn page_record encode_opt encode] in Ek, En.
  apply bind_Ok in Ek as (? & [_ ->]%pack_s_inv & <-%Ok_inj).
  apply bind_Ok in En as (? & [_ ->]%pack_s_inv & <-%Ok_inj).
  assert (∀ z, 0 <= z < 2 ^ 32 → be_bytes 8 z = [0; 0; 0; 0] ++ be_bytes 4 z) as Hz.
  { intros z ?. unfold be_bytes. cbn [le_bytes reverse rev_append app]. repeat f_equal; lia. }
  rewrite (Hz k), (Hz v) in * by done.
  set (r := with_lsn n (page_record INSERT txn page (VInt k) VNone (VInt v))) in *.
  set (kd := TYPE_INT64 :: [0; 0; 0; 0] ++ be_bytes 4 k) in *.
  set (nd := TYPE_INT64 :: [0; 0; 0; 0] ++ be_bytes 4 v) in *.
  change (len kd) with 9 in *. change (len nd) with 9. change (len []) with 0 in *.
  rewrite <-!app_assoc. cbn [app].
  pose proof (deserialize_header r page 9 0 [] (kd ++ nd ++ be_bytes 4 9 ++ s) Hf) as D.
  cbn [app] in D. change (len []) with 0 in D. rewrite D. clear D.
  set (h := header_bytes r page 9 0).
  assert (length h = 41%nat) as Lh by done.
  rewrite (unpack_be_from_at _ 4 h 167772160 ([0] ++ be_bytes 4 k ++ nd ++ be_bytes 4 9 ++ s));
    [|done|done|by rewrite Lh].
  cbn [mbind res_bind]. unfold decode_opt. change (0 <? 9) with true. change (0 <? 0) with false.
  change (0 <? 167772160) with true.
  cbv iota. change (0 + 45 + 9) with 54.
  assert (py_get (h ++ kd ++ nd ++ be_bytes 4 9 ++ s) 45 = Ok TYPE_NULL) as D1
    by apply (py_get_app_mid (h ++ take 4 kd)).
  assert (py_get (h ++ kd ++ nd ++ be_bytes 4 9 ++ s) 54 = Ok TYPE_NULL) as D2
    by apply (py_get_app_mid (h ++ kd ++ take 4 nd)).
  change (0 + 45) with 45. rewrite (decode_null _ _ D1). cbn [mbind res_bind fst snd].
  change (45 + 9) with 54. rewrite (decode_null _ _ D2).
  done.
Qed.
End WithRuntime.

Import LogRecord.
#[local] Existing Instance Serializer.plain_runtime.

Definition bare_record (txn page : Z) : LogRecord.t :=
  page_record UPDATE txn (PageId.mk page 3) Serializer.VNone Serializer.VNone Serializer.VNone.

Lemma wal_recovery_witness :
  ∃ s, append_each [bare_record 1 7; bare_record 2 8] (init ∅) = (s, Ok ()) ∧
  let '(s', out) := replay (λ _, Ok ()) (init (log_dir s)) in
  out = Ok (stored <$> numbered 0 [bare_record 1 7; bare_record 2 8]) ∧
  current_lsn s' = current_lsn s ∧ flushed_lsn s' = current_lsn s ∧
  records s' = stored <$> records s ∧
  (Forall same_table [bare_record 1 7; bare_record 2 8] →
   out = Ok (numbered 0 [bare_record 1 7; bare_record 2 8]) ∧ records s' = records s).
Proof.
  eexists. split; [vm_compute; reflexivity|].
  eapply (wal_recovery [bare_record 1 7; bare_record 2 8]); [|vm_compute; reflexivity].
  repeat constructor; by eexists.
Defined.

Lemma wal_log_order_witness :
  wf (init ∅) ∧
  get_records_since 0 (append_all [bare_record 1 7; txn_record COMMIT 1] (init ∅)) =
  get_records_since 0 (init ∅) ++ numbered 0 [bare_record 1 7; txn_record COMMIT 1].
Proof.
  assert (wf (init ∅)) as Hwf.
  { intros k r. unfold init, open_log_file. cbn [records]. by rewrite lookup_empty. }
  split; [exact Hwf|]. apply (wal_log_order (init ∅) [bare_record 1 7; txn_record COMMIT 1] 0);
    [exact Hwf|vm_compute; congruence].
Defined.

Lemma wal_insert_misread_witness :
  ∃ x, serialize (with_lsn 1 (page_record INSERT 2 (PageId.mk 5 0) (Serializer.VInt 10)
                                 Serializer.VNone (Serializer.VInt 20))) = Ok x ∧
  deserialize (x ++ []) 0 =
  Ok (LogRecord.mk 1 INSERT 2 (Some (PageId.mk 5 0)) Serializer.VNone Serializer.VNone
        Serializer.VNone 0 0, 167772214).
Proof.
  eexists. split; [vm_compute; reflexivity|].
  apply (wal_insert_misread 1 2 (PageId.mk 5 0) 10 20); [done|done|vm_compute; reflexivity].
Defined.
End WriteAheadLog.
