(* ===== verification/Checkpoint.v ===== *)
(** Checkpoints and recovery: database/src/storage/checkpoint.py,
    [CheckpointManager].

    The flush function of the manager is a parameter, a method of some database: it
    is called without an argument to flush, with a record to redo it, and with a
    record and [undo=True]. The manager's state includes that database.
    The checkpoint file is part of the state. The iteration order of the set of
    active transactions is an argument. *)

From S2P Require Import Prelude SortedMap Bytes Utf8 Serializer Page Wal.

(** A call of [flush_func]. *)
Inductive FlushCall `{Runtime} :=
  | FlushAll
  | Redo (r : LogRecord.t)
  | Undo (r : LogRecord.t).

Module CheckpointManager.
Section WithRuntime.
Context `{RT : Runtime} {D : Type}.
Import LogRecord.

Record t := mk {
  wal : WriteAheadLog.t;
  flush_func : option (FlushCall → method D ());
  checkpoint_interval : Z;
  last_checkpoint_lsn : Z;
  active_txns : gset Z;
  in_progress : bool;
  checkpoint_file : option bytes;
  database : D;
}.

Definition with_wal (w : WriteAheadLog.t) (s : t) : t :=
  mk w (flush_func s) (checkpoint_interval s) (last_checkpoint_lsn s) (active_txns s)
     (in_progress s) (checkpoint_file s) (database s).
Definition with_last (n : Z) (s : t) : t :=
  mk (wal s) (flush_func s) (checkpoint_interval s) n (active_txns s)
     (in_progress s) (checkpoint_file s) (database s).
Definition with_txns (txns : gset Z) (s : t) : t :=
  mk (wal s) (flush_func s) (checkpoint_interval s) (last_checkpoint_lsn s) txns
     (in_progress s) (checkpoint_file s) (database s).
Definition with_progress (b : bool) (s : t) : t :=
  mk (wal s) (flush_func s) (checkpoint_interval s) (last_checkpoint_lsn s) (active_txns s)
     b (checkpoint_file s) (database s).
Definition with_file (d : bytes) (s : t) : t :=
  mk (wal s) (flush_func s) (checkpoint_interval s) (last_checkpoint_lsn s) (active_txns s)
     (in_progress s) (Some d) (database s).
Definition with_database (d : D) (s : t) : t :=
  mk (wal s) (flush_func s) (checkpoint_interval s) (last_checkpoint_lsn s) (active_txns s)
     (in_progress s) (checkpoint_file s) d.

Definition register_transaction (txn_id : Z) (s : t) : t :=
  with_txns (active_txns s ∪ {[txn_id]}) s.
Definition unregister_transaction (txn_id : Z) (s : t) : t :=
  with_txns (active_txns s ∖ {[txn_id]}) s.

Definition should_checkpoint (current_lsn : Z) (s : t) : bool :=
  checkpoint_interval s <=? current_lsn - last_checkpoint_lsn s.

(** The contents of the checkpoint file. *)
Definition state_bytes (checkpoint_lsn : Z) (txns : list Z) : res bytes :=
  a ← pack_be 8 checkpoint_lsn;
  b ← pack_be 4 (len txns);
  c ← pack_be_many 4 txns;
  Ok (a ++ b ++ c).

Definition save_checkpoint_state (checkpoint_lsn : Z) (txns : list Z) : method t () := λ s,
  match state_bytes checkpoint_lsn txns with
  | Ok d => (with_file d s, Ok ())
  | Err e => (s, Err e)
  end.

(** The loop that reads [n] identifiers. *)
Fixpoint load_txns (n : nat) (data : bytes) (offset : Z) : res (list Z) :=
  match n with
  | O => Ok []
  | S n' =>
      txn_id ← unpack_be_from 4 data offset;
      rest ← load_txns n' data (offset + 4);
      Ok (txn_id :: rest)
  end.

Definition load_checkpoint_state (s : t) : res (Z * list Z) :=
  match checkpoint_file s with
  | None => Ok (0, [])
  | Some data =>
      checkpoint_lsn ← unpack_be_from 8 data 0;
      num_txns ← unpack_be_from 4 data 8;
      active_txns ← load_txns (Z.to_nat num_txns) data 12;
      Ok (checkpoint_lsn, active_txns)
  end.

(** [self.wal.append(record)]. *)
Definition wal_append (r : LogRecord.t) : method t Z := λ s,
  let '(w, out) := WriteAheadLog.append r (wal s) in (with_wal w s, out).

(** [if self.flush_func: self.flush_func(..)]. *)
Definition call_flush (c : FlushCall) : method t () := λ s,
  match flush_func s with
  | Some f => let '(d, out) := f c (database s) in (with_database d s, out)
  | None => (s, Ok ())
  end.

(** The body of the [try]; [order] lists the set of active transactions. *)
Definition checkpoint_body (order : gset Z → list Z) : method t Z :=
  let! _ := wal_append (WriteAheadLog.txn_record CHECKPOINT_BEGIN 0) in
  let! _ := call_flush FlushAll in
  let! s := m_get in
  let txns := order (active_txns s) in
  let! end_lsn := wal_append (LogRecord.mk 0 CHECKPOINT_END 0 None
      (Serializer.VObject (int_list txns)) Serializer.VNone
      (Serializer.VInt (WriteAheadLog.current_lsn (wal s))) 0 0) in
  let! _ := save_checkpoint_state end_lsn txns in
  let! s := m_get in
  let! _ := m_put (with_last end_lsn s) in
  m_ret end_lsn.

Definition checkpoint (order : gset Z → list Z) : method t Z := λ s,
  if in_progress s then (s, Err RuntimeError)
  else
    let '(s', out) := checkpoint_body order (with_progress true s) in
    (with_progress false s', out).

Definition close (order : gset Z → list Z) : method t () := λ s,
  match checkpoint order s with
  | (s', Ok _) => (s', Ok ())
  | (s', Err e) => (s', if decide (e = RuntimeError) then Ok () else Err e)
  end.

(** The first loop of [recover]: the transactions with a COMMIT record. *)
Definition committed_txns (records : list LogRecord.t) : gset Z :=
  foldl (λ acc r, if decide (log_type r = COMMIT) then acc ∪ {[transaction_id r]} else acc)
        ∅ records.

Definition is_data (ty : LogType) : bool :=
  match ty with INSERT | UPDATE | DELETE => true | _ => false end.

Definition is_none (v : Serializer.value) : bool :=
  match v with Serializer.VNone => true | _ => false end.

(** The body of the second loop. *)
Definition recover_record (committed : gset Z) (r : LogRecord.t) : method t () :=
  if is_data (log_type r) then
    if decide (transaction_id r ∈ committed) then call_flush (Redo r)
    else if negb (is_none (old_value r)) then call_flush (Undo r)
    else m_ret ()
  else m_ret ().

Definition recover : method t () := λ s,
  match load_checkpoint_state s with
  | Err e => (s, Err e)
  | Ok (checkpoint_lsn, _) =>
      let s1 := with_last checkpoint_lsn s in
      let records := WriteAheadLog.get_records_since checkpoint_lsn (wal s1) in
      for_each (recover_record (committed_txns records)) records s1
  end.

(** * Lemmas *)

Lemma elem_of_committed_txns records txn :
  txn ∈ committed_txns records ↔
  ∃ c, c ∈ records ∧ log_type c = COMMIT ∧ transaction_id c = txn.
Proof.
  unfold committed_txns.
  assert (∀ acc : gset Z, txn ∈ foldl (λ acc r, if decide (log_type r = COMMIT)
      then acc ∪ {[transaction_id r]} else acc) acc records ↔
    txn ∈ acc ∨ ∃ c, c ∈ records ∧ log_type c = COMMIT ∧ transaction_id c = txn) as H.
  { induction records as [|r records IH]; intros acc; cbn [foldl].
    - split; [by left|]. intros [?|(c & []%not_elem_of_nil & _)]. done.
    - rewrite IH. setoid_rewrite elem_of_cons. case_decide; set_solver. }
  rewrite H. set_solver.
Qed.

Lemma load_txns_pack vs x p s :
  pack_be_many 4 vs = Ok x → load_txns (length vs) (p ++ x ++ s) (len p) = Ok vs.
Proof.
  intros (Hvs & -> & _)%pack_be_many_inv. revert p.
  induction Hvs as [|v vs Hv _ IH]; intros p; [done|]. cbn [length load_txns fmap list_fmap concat].
  rewrite <-app_assoc. rewrite (unpack_be_from_at _ 4 p v (concat (be_bytes 4 <$> vs) ++ s)) by done.
  cbn [mbind res_bind].
  specialize (IH (p ++ be_bytes 4 v)). rewrite <-app_assoc, length_app, length_be_bytes, Nat2Z.inj_add in IH.
  change (Z.of_nat 4) with 4 in IH. by rewrite IH.
Qed.

(** * Properties *)

(** No checkpoint ever completes: its first record has no page and cannot be
    written. Whatever the state, the call raises; the checkpoint position, the
    checkpoint file and the database stay as they were, no checkpoint is left in
    progress, and one record is left in the memory of the log. *)
Theorem checkpoint_never_completes order s :
  let '(s', out) := checkpoint order s in
  (if in_progress s then s' = s ∧ out = Err RuntimeError
   else s' = with_wal (WriteAheadLog.store (WriteAheadLog.txn_record CHECKPOINT_BEGIN 0) (wal s)) s
        ∧ out = Err StructError).
Proof.
  unfold checkpoint. destruct (in_progress s) eqn:E; [done|].
  unfold checkpoint_body, m_bind at 1, wal_append at 1.
  cbn [wal with_progress]. rewrite WriteAheadLog.wal_control_records_fail.
  cbn. split; [|done]. unfold with_progress, with_wal. cbn. by rewrite E.
Qed.

(** The checkpoint file is read back: the position and the transactions in the
    order in which they were written. *)
Theorem checkpoint_state_roundtrip n txns s s' u :
  save_checkpoint_state n txns s = (s', Ok u) → load_checkpoint_state s' = Ok (n, txns).
Proof.
  unfold save_checkpoint_state. destruct (state_bytes n txns) as [d|] eqn:E; [|done].
  intros H. injection H as <- _. unfold load_checkpoint_state. cbn [checkpoint_file with_file].
  unfold state_bytes in E. apply bind_Ok in E as (a & [Hn ->]%pack_u_inv & E).
  apply bind_Ok in E as (b & [Hl ->]%pack_u_inv & E). apply bind_Ok in E as (c & Ec & <-%Ok_inj).
  rewrite (unpack_be_from_at _ 8 [] n (be_bytes 4 (len txns) ++ c)) by done. cbn [mbind res_bind].
  rewrite (unpack_be_from_at _ 4 (be_bytes 8 n) (len txns) c) by done. cbn [mbind res_bind].
  rewrite Nat2Z.id.
  pose proof (load_txns_pack txns c (be_bytes 8 n ++ be_bytes 4 (len txns)) [] Ec) as L.
  rewrite app_nil_r, <-app_assoc in L. change (len (be_bytes 8 n ++ be_bytes 4 (len txns))) with 12 in L. by rewrite L.
Qed.

(** The calls recovery makes, as a specification: each data record is redone when
    its transaction has a COMMIT record, else undone when it has an old value. *)
Definition has_commit (records : list LogRecord.t) (txn : Z) : bool :=
  existsb (λ c, bool_decide (log_type c = COMMIT) && (transaction_id c =? txn)) records.

Definition recovery_call (records : list LogRecord.t) (r : LogRecord.t) : option FlushCall :=
  if is_data (log_type r) then
    if has_commit records (transaction_id r) then Some (Redo r)
    else if is_none (old_value r) then None else Some (Undo r)
  else None.

Lemma has_commit_spec records txn : has_commit records txn = bool_decide (txn ∈ committed_txns records).
Proof.
  apply eq_bool_prop_intro. rewrite bool_decide_spec, elem_of_committed_txns.
  unfold has_commit. rewrite Is_true_true, existsb_exists.
  setoid_rewrite list_elem_of_In. setoid_rewrite andb_true_iff.
  setoid_rewrite bool_decide_eq_true. setoid_rewrite Z.eqb_eq. done.
Qed.

(** One record: at most one call. *)
Lemma recover_record_call records r s :
  recover_record (committed_txns records) r s =
  match recovery_call records r with Some c => call_flush c s | None => (s, Ok ()) end.
Proof.
  unfold recover_record, recovery_call. rewrite has_commit_spec.
  destruct (is_data (log_type r)); [|done]. case_decide; case_bool_decide; try done.
  by destruct (is_none (old_value r)).
Qed.

Lemma recover_loop records rs f s :
  flush_func s = Some f →
  for_each (recover_record (committed_txns records)) rs s =
  let '(d, out) := for_each f (omap (recovery_call records) rs) (database s) in
  (with_database d s, out).
Proof.
  revert s. induction rs as [|r rs IH]; intros s Hf; [by destruct s|]. cbn [for_each omap list_omap].
  unfold m_bind at 1. rewrite recover_record_call.
  destruct (recovery_call records r) as [c|]; [|by apply IH].
  unfold call_flush. rewrite Hf. cbn [for_each]. unfold m_bind.
  destruct (f c (database s)) as [d [[]|e]]; [|done]. by rewrite IH.
Qed.

(** Recovery reads the records after the checkpoint in the order of their
    numbers and makes exactly the calls of the specification, in that order,
    stopping at the first that raises. *)
Theorem checkpoint_recover_spec s f n txns :
  load_checkpoint_state s = Ok (n, txns) → flush_func s = Some f →
  let records := WriteAheadLog.get_records_since n (wal s) in
  let '(d, out) := for_each f (omap (recovery_call records) records) (database s) in
  recover s = (with_database d (with_last n s), out).
Proof.
  intros HL Hf records. unfold recover. rewrite HL. cbn [wal with_last]. fold records.
  rewrite (recover_loop records records f) by done. cbn [database with_last].
  by destruct (for_each f _ (database s)).
Qed.
End WithRuntime.

#[local] Existing Instance Serializer.plain_runtime.
Import Serializer.

(** A database of one value: redo sets the new value, undo the old one. *)
Definition one_value : FlushCall → method value () := λ c _,
  match c with
  | FlushAll => (VNone, Ok ())
  | Redo r => (LogRecord.new_value r, Ok ())
  | Undo r => (LogRecord.old_value r, Ok ())
  end.

(** The log of two updates of a transaction, 1 to 2 and 2 to 3; [fin] ends it. *)
Definition two_updates (fin : LogType) : CheckpointManager.t :=
  let page := PageId.mk 4 0 in
  mk (WriteAheadLog.append_all
        [WriteAheadLog.page_record UPDATE 1 page (VInt 0) (VInt 1) (VInt 2);
         WriteAheadLog.page_record UPDATE 1 page (VInt 0) (VInt 2) (VInt 3);
         WriteAheadLog.txn_record fin 1] (WriteAheadLog.init ∅))
     (Some one_value) 1000 0 ∅ false None (VInt 3).

(** The committed transaction is redone in full. *)
Example recover_commit : database (recover (two_updates COMMIT)).1 = VInt 3.
Proof. vm_compute. reflexivity. Qed.

(** An aborted transaction is undone from its first record to its last: the value
    ends at 2, the value between the two updates, and not at 1. *)
Example recover_undo_order : database (recover (two_updates ABORT)).1 = VInt 2.
Proof. vm_compute. reflexivity. Qed.

Lemma checkpoint_state_roundtrip_witness :
  ∃ s', save_checkpoint_state 7 [3; 1] (two_updates COMMIT) = (s', Ok ()) ∧
        load_checkpoint_state s' = Ok (7, [3; 1]).
Proof.
  eexists. split; [reflexivity|].
  by apply (checkpoint_state_roundtrip 7 [3; 1] (two_updates COMMIT) _ ()).
Defined.

Lemma checkpoint_recover_spec_witness :
  let s := two_updates ABORT in
  let records := WriteAheadLog.get_records_since 0 (wal s) in
  let '(d, out) := for_each one_value (omap (recovery_call records) records) (database s) in
  recover s = (with_database d (with_last 0 s), out).
Proof. by apply (checkpoint_recover_spec (two_updates ABORT) one_value 0 []). Defined.
End CheckpointManager.
