(* ===== verification/Txn.v ===== *)
(** Transactions: database/src/sql/transaction.py, [Transaction] and
    [TransactionManager].

    Transaction objects are mutable and shared between the manager and its callers:
    they live in a store, the list [heap] of the objects [begin] made, and a
    reference is an index of it. The theorems on the life of transactions are about
    a manager without a log: with one, [begin] always raises. *)

From stdpp Require Import sorting.
From S2P Require Import Prelude SortedMap Bytes Utf8 Serializer Page Wal.

Inductive IsolationLevel := READ_UNCOMMITTED | READ_COMMITTED | REPEATABLE_READ | SERIALIZABLE.

(** The strings the code assigns to [status]. *)
Inductive Status := ACTIVE | COMMITTED | ABORTED.

#[export] Instance Status_eq_dec : EqDecision Status.
Proof. solve_decision. Defined.

Module Transaction.
Section WithRuntime.
Context `{RT : Runtime}.

Record t := mk {
  transaction_id : Z;
  isolation_level : IsolationLevel;
  status : Status;
  snapshot_lsn : Z;
  start_time : Z;
  modified_pages : gset PageId.t;
  undo_log : list LogRecord.t;
}.

Definition with_status (st : Status) (x : t) : t :=
  mk (transaction_id x) (isolation_level x) st (snapshot_lsn x) (start_time x)
     (modified_pages x) (undo_log x).

Definition add_undo (r : LogRecord.t) (x : t) : t :=
  mk (transaction_id x) (isolation_level x) (status x) (snapshot_lsn x) (start_time x)
     (modified_pages x) (undo_log x ++ [r]).
End WithRuntime.
End Transaction.

Module TransactionManager.
Section WithRuntime.
Context `{RT : Runtime}.
Import Transaction.

Record t := mk {
  wal : option WriteAheadLog.t;
  next_txn_id : Z;
  active_txns : gmap Z nat;  (* identifier to object *)
  committed_txns : gset Z;
  heap : list Transaction.t;
}.

Definition init (w : option WriteAheadLog.t) : t := mk w 1 ∅ ∅ [].

Definition with_wal (w : option WriteAheadLog.t) (s : t) : t :=
  mk w (next_txn_id s) (active_txns s) (committed_txns s) (heap s).
Definition with_heap (h : list Transaction.t) (s : t) : t :=
  mk (wal s) (next_txn_id s) (active_txns s) (committed_txns s) h.
Definition with_committed (c : gset Z) (s : t) : t :=
  mk (wal s) (next_txn_id s) (active_txns s) c (heap s).

(** [if self.wal: self.wal.<op>(..)], and what is returned without a log. *)
Definition log_call (op : method WriteAheadLog.t Z) : method t Z := λ s,
  match wal s with
  | Some w => let '(w', out) := op w in (with_wal (Some w') s, out)
  | None => (s, Ok 0)
  end.

(** Following a reference. *)
Definition deref (x : nat) (s : t) : res Transaction.t :=
  match heap s !! x with Some txn => Ok txn | None => Err AttributeError end.

Definition set_status (x : nat) (st : Status) (s : t) : t :=
  with_heap (alter (with_status st) x (heap s)) s.

(** [begin]; [now] is the clock. *)
Definition begin (level : IsolationLevel) (now : Z) : method t nat :=
  let! s := m_get in
  let txn_id := next_txn_id s in
  let! _ := m_put (mk (wal s) (txn_id + 1) (active_txns s) (committed_txns s) (heap s)) in
  let! lsn := log_call (WriteAheadLog.begin_transaction txn_id) in
  let! s := m_get in
  let x := length (heap s) in
  let! _ := m_put (mk (wal s) (next_txn_id s) (<[txn_id := x]> (active_txns s)) (committed_txns s)
                      (heap s ++ [Transaction.mk txn_id level ACTIVE lsn now ∅ []])) in
  m_ret x.

(** [sorted(ids)[-1000:]] when there are more than 1000. *)
Definition max_txns : Z := 1000.
Definition sorted_ids (c : gset Z) : list Z := merge_sort Z.le (elements c).
Definition cleanup (c : gset Z) : gset Z :=
  if max_txns <? Z.of_nat (size c)
  then list_to_set (py_from (sorted_ids c) (- max_txns)) else c.
Definition cleanup_committed (s : t) : t := with_committed (cleanup (committed_txns s)) s.

(** [self._active_txns.pop(id, None)]. *)
Definition pop_active (txn_id : Z) (s : t) : t :=
  mk (wal s) (next_txn_id s) (delete txn_id (active_txns s)) (committed_txns s) (heap s).

Definition commit (x : nat) : method t () :=
  let! s := m_get in
  let! txn := m_lift (deref x s) in
  if decide (status txn = ACTIVE) then
    let! _ := m_put (set_status x COMMITTED s) in
    let! _ := log_call (WriteAheadLog.commit_transaction (transaction_id txn)) in
    let! s := m_get in
    let s := with_committed (committed_txns s ∪ {[transaction_id txn]}) s in
    m_put (cleanup_committed (pop_active (transaction_id txn) s))
  else m_raise ValueError.

(** [_undo_record]: the three branches do nothing. *)
Definition undo_record (r : LogRecord.t) : method t () := m_ret ().

Definition rollback (x : nat) : method t () :=
  let! s := m_get in
  let! txn := m_lift (deref x s) in
  if decide (status txn = ACTIVE) then
    let! _ := m_put (set_status x ABORTED s) in
    let! _ := for_each undo_record (reverse (undo_log txn)) in
    let! _ := log_call (WriteAheadLog.abort_transaction (transaction_id txn)) in
    let! s := m_get in
    m_put (pop_active (transaction_id txn) s)
  else m_raise ValueError.

(** [txn.add_undo(record)], by whoever holds the object. *)
Definition add_undo (x : nat) (r : LogRecord.t) (s : t) : t :=
  with_heap (alter (Transaction.add_undo r) x (heap s)) s.

Definition get_transaction (txn_id : Z) (s : t) : option nat := active_txns s !! txn_id.
Definition is_active (txn_id : Z) (s : t) : bool := bool_decide (is_Some (active_txns s !! txn_id)).

Definition is_visible (row_txn_id : Z) (snapshot_txn : Transaction.t) (s : t) : bool :=
  if row_txn_id =? transaction_id snapshot_txn then true
  else if decide (row_txn_id ∈ committed_txns s) then true
  else negb (is_active row_txn_id s).

(** Identifiers are given out in increasing order, which is therefore the order in
    which the dictionary lists them. *)
Definition get_active_transactions (s : t) : list Z := (sorted_items (active_txns s)).*1.

Definition get_snapshot (s : t) : Z * gset Z :=
  (match wal s with Some w => WriteAheadLog.current_lsn w | None => 0 end, dom (active_txns s)).

Definition active_count (s : t) : Z := Z.of_nat (size (active_txns s)).

(** ** The life of a manager without a log *)

(** One call by a client that holds references to the objects [begin] returned;
    whether the call returns or raises is left open. *)
Inductive step : t → t → Prop :=
  | step_begin level now s : step s (begin level now s).1
  | step_commit x s : (x < length (heap s))%nat → step s (commit x s).1
  | step_rollback x s : (x < length (heap s))%nat → step s (rollback x s).1
  | step_add_undo x r s : (x < length (heap s))%nat → step s (add_undo x r s).

Definition reachable (s : t) : Prop := rtc step (init None) s.

(** The invariant of the manager: the objects are numbered in order, the active
    ones are those of the dictionary, and the set of committed identifiers holds the
    most recent ones, at most a thousand. *)
Record wf (s : t) : Prop := {
  wf_wal : wal s = None;
  wf_next : next_txn_id s = len (heap s) + 1;
  wf_ids x txn : heap s !! x = Some txn → transaction_id txn = Z.of_nat x + 1;
  wf_active k x :
    active_txns s !! k = Some x ↔
    ∃ txn, heap s !! x = Some txn ∧ transaction_id txn = k ∧ status txn = ACTIVE;
  wf_committed k :
    k ∈ committed_txns s →
    ∃ x txn, heap s !! x = Some txn ∧ transaction_id txn = k ∧ status txn = COMMITTED;
  wf_size : Z.of_nat (size (committed_txns s)) <= max_txns;
  wf_recent x txn k :
    heap s !! x = Some txn → status txn = COMMITTED → transaction_id txn ∉ committed_txns s →
    Z.of_nat (size (committed_txns s)) = max_txns ∧
    (k ∈ committed_txns s → transaction_id txn < k);
}.

(** * Lemmas *)

Lemma sorted_ids_perm c : sorted_ids c ≡ₚ elements c.
Proof. apply merge_sort_Permutation. Qed.

Lemma sorted_ids_sorted c : StronglySorted Z.le (sorted_ids c).
Proof. apply StronglySorted_merge_sort; apply _. Qed.

Lemma sorted_ids_nodup c : NoDup (sorted_ids c).
Proof. rewrite sorted_ids_perm. apply NoDup_elements. Qed.

Lemma elem_of_sorted_ids k c : k ∈ sorted_ids c ↔ k ∈ c.
Proof. by rewrite sorted_ids_perm, elem_of_elements. Qed.

Lemma length_sorted_ids c : length (sorted_ids c) = size c.
Proof. by rewrite sorted_ids_perm. Qed.

Lemma cleanup_drop c :
  max_txns < Z.of_nat (size c) →
  cleanup c = list_to_set (drop (size c - 1000) (sorted_ids c)).
Proof.
  intros Hc. unfold cleanup. if_true. f_equal. unfold py_from, py_slice, slice_bound, max_txns in *.
  rewrite length_sorted_ids. if_true. if_false. rewrite Z.min_id.
  replace (Z.to_nat (0 `max` (- (1000) + Z.of_nat (size c)))) with (size c - 1000)%nat by lia.
  rewrite take_ge; [done|]. rewrite length_drop, length_sorted_ids. lia.
Qed.

(** What the cleanup keeps: everything, or a thousand identifiers greater than the
    others. *)
Lemma cleanup_spec c :
  cleanup c ⊆ c ∧ Z.of_nat (size (cleanup c)) <= max_txns ∧
  (cleanup c = c ∨ Z.of_nat (size (cleanup c)) = max_txns) ∧
  ∀ j k, j ∈ c → j ∉ cleanup c → k ∈ cleanup c → j < k.
Proof.
  destruct (decide (max_txns < Z.of_nat (size c))) as [Hc|Hc].
  2: { unfold cleanup. if_false. split_and!; [done|lia|by left|]. intros j k Hj Hj'. by destruct Hj'. }
  rewrite cleanup_drop by done. set (n := (size c - 1000)%nat). set (l := sorted_ids c).
  assert (∀ k, k ∈ c ↔ k ∈ take n l ∨ k ∈ drop n l) as Hin.
  { intros k. rewrite <-elem_of_app, take_drop. symmetry. apply elem_of_sorted_ids. }
  assert (Z.of_nat (size (list_to_set (C := gset Z) (drop n l))) = max_txns) as Hn'.
  { rewrite size_list_to_set by (apply (sublist_NoDup (drop n l) l); [apply sorted_ids_nodup|apply sublist_drop]).
    rewrite length_drop. unfold l, n. rewrite length_sorted_ids. unfold max_txns in *. lia. }
  split_and!.
  - intros k. rewrite elem_of_list_to_set, Hin. by right.
  - lia.
  - by right.
  - intros j k. rewrite !elem_of_list_to_set, Hin. intros [Hj|?] Hj' Hk; [|done].
    pose proof (sorted_ids_sorted c) as Hs. pose proof (sorted_ids_nodup c) as Hn. fold l in Hs, Hn.
    rewrite <-(take_drop n l) in Hs, Hn. apply StronglySorted_app in Hs as [Hs _].
    specialize (Hs j k Hj Hk). assert (j ≠ k) by (by intros ->). lia.
Qed.

Lemma wf_txn_init : wf (init None).
Proof.
  split; cbn; try done.
  - intros k x. rewrite lookup_empty. split; [done|]. by intros (? & ? & _).
Qed.

(** Without a log the calls of the log do nothing. *)
Lemma begin_no_log level now s :
  wal s = None →
  begin level now s =
  (mk None (next_txn_id s + 1) (<[next_txn_id s := length (heap s)]> (active_txns s))
      (committed_txns s) (heap s ++ [Transaction.mk (next_txn_id s) level ACTIVE 0 now ∅ []]),
   Ok (length (heap s))).
Proof.
  intros E. unfold begin, m_bind, m_get, m_put, m_ret, log_call. cbn [wal]. rewrite E. cbn.
  done.
Qed.

(** The state after a call that ended the transaction. *)
Definition finished (x : nat) (st : Status) (txn : Transaction.t) (c : gset Z) (s : t) : t :=
  mk None (next_txn_id s) (delete (transaction_id txn) (active_txns s)) c
     (alter (with_status st) x (heap s)).

Lemma commit_no_log x s :
  wal s = None →
  commit x s =
  match heap s !! x with
  | None => (s, Err AttributeError)
  | Some txn =>
      if decide (status txn = ACTIVE)
      then (finished x COMMITTED txn (cleanup (committed_txns s ∪ {[transaction_id txn]})) s, Ok ())
      else (s, Err ValueError)
  end.
Proof.
  intros E. unfold commit, m_bind, m_get, m_lift, deref. destruct (heap s !! x) as [txn|]; [|done].
  case_decide; [|done]. destruct s. cbn in E. by subst.
Qed.

Lemma undo_all_nothing rs (s : t) : for_each undo_record rs s = (s, Ok ()).
Proof. induction rs as [|r rs IH]; [done|]. cbn. unfold m_bind, undo_record, m_ret. apply IH. Qed.

Lemma rollback_no_log x s :
  wal s = None →
  rollback x s =
  match heap s !! x with
  | None => (s, Err AttributeError)
  | Some txn =>
      if decide (status txn = ACTIVE)
      then (finished x ABORTED txn (committed_txns s) s, Ok ())
      else (s, Err ValueError)
  end.
Proof.
  intros E. unfold rollback, m_bind, m_get, m_lift, deref. destruct (heap s !! x) as [txn|]; [|done].
  case_decide; [|done]. unfold m_put. rewrite undo_all_nothing.
  destruct s. cbn in E. by subst.
Qed.

Lemma wf_begin level now s : wf s → wf (begin level now s).1.
Proof.
  intros [Hw Hn Hi Ha Hc Hs Hr]. rewrite begin_no_log by done. cbn [fst].
  split; cbn [wal next_txn_id active_txns committed_txns heap]; try done.
  - rewrite length_app. cbn. lia.
  - intros x txn [Hx|[Hx Ht]]%lookup_app_Some; [by apply Hi|].
    destruct (x - length (heap s))%nat eqn:E; [|done]. injection Ht as <-. cbn. lia.
  - intros k x. destruct (decide (k = next_txn_id s)) as [->|Hk].
    + rewrite lookup_insert_eq. split.
      * intros E. injection E as <-. eexists. by rewrite list_lookup_middle.
      * intros (txn & [Hx|[Hx Ht]]%lookup_app_Some & Hid & _).
        { apply Hi in Hx as Hid'. apply lookup_lt_Some in Hx. lia. }
        f_equal. destruct (x - length (heap s))%nat eqn:E; [lia|done].
    + rewrite lookup_insert_ne by done. rewrite Ha. split.
      * intros (txn & Hx & ? & ?). exists txn. by rewrite lookup_app_l by by eapply lookup_lt_Some.
      * intros (txn & [Hx|[Hx Ht]]%lookup_app_Some & Hid & ?); [by exists txn|].
        destruct (x - length (heap s))%nat eqn:E; [|done]. injection Ht as <-. done.
  - intros k (x & txn & Hx & ? & ?)%Hc. exists x, txn.
    by rewrite lookup_app_l by by eapply lookup_lt_Some.
  - intros x txn k [Hx|[Hx Ht]]%lookup_app_Some; [by eapply Hr|].
    destruct (x - length (heap s))%nat eqn:E; [|done]. by injection Ht as <-.
Qed.

(** The object store after an assignment to one status. *)
Lemma lookup_set_status (h : list Transaction.t) x st y r :
  alter (with_status st) x h !! y = Some r ↔
  (∃ r0, h !! y = Some r0 ∧ r = if decide (y = x) then with_status st r0 else r0).
Proof.
  rewrite list_lookup_alter. case_decide as E.
  - subst y. rewrite fmap_Some. setoid_rewrite decide_True; [done|done..].
  - setoid_rewrite decide_False; [naive_solver|congruence..].
Qed.

Lemma id_inj s x y a b :
  wf s → heap s !! x = Some a → heap s !! y = Some b → transaction_id a = transaction_id b → x = y.
Proof. intros Hwf Ha%(wf_ids _ Hwf) Hb%(wf_ids _ Hwf) E. lia. Qed.

Lemma active_not_committed s x txn :
  wf s → heap s !! x = Some txn → status txn = ACTIVE → transaction_id txn ∉ committed_txns s.
Proof.
  intros Hwf Hx Hst (y & r & Hy & Hid & Hr)%(wf_committed s Hwf).
  assert (x = y) as <- by (by eapply id_inj). congruence.
Qed.

(** The identifiers that should count as committed once [txn] has ended. *)
Definition now_committed (st : Status) (txn : Transaction.t) (s : t) : gset Z :=
  if decide (st = COMMITTED) then committed_txns s ∪ {[transaction_id txn]} else committed_txns s.

Lemma wf_finished x st txn c s :
  wf s → heap s !! x = Some txn → status txn = ACTIVE → st ≠ ACTIVE →
  c ⊆ now_committed st txn s → Z.of_nat (size c) <= max_txns →
  (c = now_committed st txn s ∨ Z.of_nat (size c) = max_txns) →
  (∀ j k, j ∈ now_committed st txn s → j ∉ c → k ∈ c → j < k) →
  wf (finished x st txn c s).
Proof.
  intros Hwf Hx Hact Hst Hsub Hsize Hfull Hlt. destruct (Hwf) as [Hw Hn Hi Ha Hc Hs Hr].
  split; unfold finished; cbn [wal next_txn_id active_txns committed_txns heap]; try done.
  - by rewrite length_alter.
  - intros y r (r0 & Hy & ->)%lookup_set_status. apply Hi in Hy. by case_decide.
  - intros k y. rewrite lookup_delete_Some, Ha. setoid_rewrite lookup_set_status. split.
    + intros (Hk & r & Hy & Hid & Hra). exists r. split; [|done]. exists r. split; [done|].
      rewrite decide_False; [done|]. intros ->. congruence.
    + intros (r & (r0 & Hy & ->) & Hid & Hra). destruct (decide (y = x)) as [->|Hxy]; [done|].
      split; [|by exists r0]. intros <-. by destruct Hxy; eapply id_inj.
  - intros k Hk. apply Hsub in Hk. setoid_rewrite lookup_set_status.
    assert (k ∈ committed_txns s ∨ st = COMMITTED ∧ k = transaction_id txn) as [Hk'|[-> ->]].
    { unfold now_committed in Hk. case_decide; set_solver. }
    + apply Hc in Hk' as (y & r & Hy & ? & Hrc). exists y, r. split; [|done]. exists r.
      split; [done|]. rewrite decide_False; [done|]. intros ->. congruence.
    + exists x, (with_status COMMITTED txn). split; [|done]. exists txn. by rewrite decide_True.
  - intros y r k (r0 & Hy & ->)%lookup_set_status Hrc Hnc.
    destruct (decide (y = x)) as [->|Hxy].
    + assert (r0 = txn) as -> by congruence. cbn in Hrc.
      assert (transaction_id txn ∈ now_committed st txn s) as Hin.
      { unfold now_committed. rewrite decide_True by done. set_solver. }
      split; [|by apply Hlt]. destruct Hfull as [->|?]; done.
    + destruct (decide (transaction_id r0 ∈ committed_txns s)) as [Hin|Hin].
      { assert (transaction_id r0 ∈ now_committed st txn s) as Hin'.
        { unfold now_committed. case_decide; [|done]. apply elem_of_union. by left. }
        split; [|by apply Hlt]. destruct Hfull as [->|?]; done. }
      destruct (Hr y r0 (transaction_id txn) Hy Hrc Hin) as [H1000 _].
      assert (transaction_id txn ∉ committed_txns s) as Hnew by by eapply active_not_committed.
      assert (∀ j, j ∈ committed_txns s → transaction_id r0 < j) as Hall by (intros j; by eapply Hr).
      clear Hr Hc Ha Hi. unfold now_committed in *. case_decide as Est.
      * assert (¬ committed_txns s ∪ {[transaction_id txn]} ⊆ c) as Hbig.
        { intros Hc%subseteq_size. rewrite size_union, size_singleton in Hc by set_solver.
          unfold max_txns in *. lia. }
        split; [destruct Hfull as [->|?]; [by destruct Hbig|done]|].
        intros Hk. pose proof (Hsub _ Hk) as [Hk'|Hk']%elem_of_union; [by apply Hall|].
        apply elem_of_singleton in Hk' as ->. apply Z.nle_gt. intros Hle. apply Hbig.
        intros j Hj. destruct (decide (j ∈ c)) as [|Hjc]; [done|].
        pose proof (Hlt j _ Hj Hjc Hk) as Hjk.
        apply elem_of_union in Hj as [Hj%Hall|Hj%elem_of_singleton]; lia.
      * split; [destruct Hfull as [->|?]; done|]. intros Hk%Hsub. by apply Hall.
Qed.

Lemma wf_txn_step s s' : wf s → step s s' → wf s'.
Proof.
  intros Hwf. pose proof (wf_wal s Hwf) as Hw. destruct 1 as [level now s|x s Hx|x s Hx|x r s Hx].
  - by apply wf_begin.
  - rewrite commit_no_log by done. destruct (heap s !! x) as [txn|] eqn:E; [|done].
    case_decide; [|done]. cbn [fst].
    destruct (cleanup_spec (committed_txns s ∪ {[transaction_id txn]})) as (? & ? & ? & ?).
    by apply wf_finished.
  - rewrite rollback_no_log by done. destruct (heap s !! x) as [txn|] eqn:E; [|done].
    case_decide; [|done]. cbn [fst]. apply wf_finished; try done.
    + by apply wf_size.
    + by left.
  - destruct Hwf as [_ Hn Hi Ha Hc Hs Hr].
    assert (∀ y b, alter (Transaction.add_undo r) x (heap s) !! y = Some b ↔
      ∃ a, heap s !! y = Some a ∧ b = if decide (y = x) then Transaction.add_undo r a else a) as HL.
    { intros y b. rewrite list_lookup_alter. case_decide as E.
      - subst y. rewrite fmap_Some. by setoid_rewrite decide_True.
      - setoid_rewrite decide_False; [naive_solver|congruence..]. }
    split; cbn [wal next_txn_id active_txns committed_txns heap add_undo with_heap]; try done.
    + by rewrite length_alter.
    + intros y b (a & Hy & ->)%HL. apply Hi in Hy. by case_decide.
    + intros k y. rewrite Ha. setoid_rewrite HL. split.
      * intros (a & Hy & ? & ?). eexists. split; [by exists a|]. by case_decide.
      * intros (b & (a & Hy & ->) & ? & ?). exists a. split; [done|]. by case_decide.
    + intros k (y & a & Hy & ? & ?)%Hc. exists y. eexists. split; [apply HL; by exists a|]. by case_decide.
    + intros y b k (a & Hy & ->)%HL Hcm Hnc. case_decide; by eapply (Hr y a).
Qed.

(** * Properties *)

Lemma wf_txn_steps a b : rtc step a b → wf a → wf b.
Proof. induction 1; [done|]. intros. eauto using wf_txn_step. Qed.

Lemma reachable_inv s : reachable s → wf s.
Proof. intros H. by eapply wf_txn_steps, wf_txn_init. Qed.

(** Whatever calls its clients make, a manager without a log keeps its
    invariant: identifiers are unique and increasing, the active transactions are
    exactly the objects that neither committed nor rolled back, a rolled-back
    identifier never counts as committed, and the thousand most recent committed
    identifiers are remembered. *)
Theorem txn_reachable_wf s : reachable s → wf s.
Proof. apply reachable_inv. Qed.

(** C16: visibility in any reachable state: a row is hidden from a transaction exactly
    when another transaction wrote it and is still active. So the rows of a
    transaction that was rolled back are visible, and rows committed after the
    snapshot become visible at once, whatever the isolation level. *)
Theorem txn_visibility s x txn row :
  reachable s → heap s !! x = Some txn →
  is_visible row txn s = false ↔
  row ≠ transaction_id txn ∧
  ∃ y w, heap s !! y = Some w ∧ transaction_id w = row ∧ status w = ACTIVE.
Proof.
  intros Hwf%reachable_inv Hx. unfold is_visible, is_active. case_match eqn:E.
  { split; [done|]. intros []. lia. }
  case_decide as Hc.
  - split; [done|]. intros (_ & y & w & Hy & <- & Hw).
    by destruct (active_not_committed s y w Hwf Hy Hw).
  - rewrite negb_false_iff, bool_decide_eq_true. split.
    + intros [y Hy]. split; [lia|]. apply (wf_active s Hwf) in Hy as (w & ? & ? & ?). by exists y, w.
    + intros (_ & y & w & Hy & Hid & Hw). exists y. apply (wf_active s Hwf). by exists w.
Qed.

(** Ending a transaction, on every branch: an active one gets its final status
    and leaves the active ones, no other object changes; a second call raises
    [ValueError] and changes nothing. *)
Theorem txn_end_spec (st : Status) s x txn :
  wf s → heap s !! x = Some txn →
  let '(s', out) := (if decide (st = COMMITTED) then commit x s else rollback x s) in
  match status txn with
  | ACTIVE =>
      out = Ok () ∧ heap s' = <[x := with_status (if decide (st = COMMITTED) then COMMITTED else ABORTED) txn]> (heap s) ∧
      is_active (transaction_id txn) s' = false
  | _ => out = Err ValueError ∧ s' = s
  end.
Proof.
  intros Hwf Hx. pose proof (wf_wal s Hwf) as Hw.
  assert (∀ st' c, heap (finished x st' txn c s) = <[x := with_status st' txn]> (heap s) ∧
    is_active (transaction_id txn) (finished x st' txn c s) = false) as Hfin.
  { intros st' c. unfold finished, is_active. cbn [heap active_txns]. rewrite lookup_delete_eq.
    split; [|by rewrite bool_decide_eq_false_2 by by intros []].
    apply list_eq. intros y. rewrite list_lookup_alter, list_lookup_insert.
    case_decide as E.
    - subst y. rewrite Hx, decide_True; [done|]. split; [done|by eapply lookup_lt_Some].
    - rewrite decide_False; [done|]. by intros [??]. }
  destruct (decide (st = COMMITTED)).
  - rewrite commit_no_log, Hx by done. by destruct (status txn).
  - rewrite rollback_no_log, Hx by done. by destruct (status txn).
Qed.

(** With a log no transaction can begin: the BEGIN record cannot be written. *)
Theorem txn_begin_with_log level now s w :
  wal s = Some w →
  let '(s', out) := begin level now s in
  out = Err StructError ∧ next_txn_id s' = next_txn_id s + 1 ∧
  active_txns s' = active_txns s ∧ committed_txns s' = committed_txns s ∧ heap s' = heap s.
Proof.
  intros Hw. unfold begin, m_bind, m_get, m_put, log_call. cbn [wal]. rewrite Hw.
  unfold WriteAheadLog.begin_transaction. by rewrite WriteAheadLog.wal_control_records_fail.
Qed.
End WithRuntime.

#[local] Existing Instance Serializer.plain_runtime.
Import Transaction.

(** Two transactions; the second one is rolled back. *)
Definition after_rollback : TransactionManager.t :=
  (rollback 1 (begin SERIALIZABLE 1 (begin SERIALIZABLE 0 (init None)).1).1).1.

Lemma after_rollback_reachable : reachable after_rollback.
Proof.
  unfold reachable, after_rollback.
  eapply rtc_l; [apply (step_begin SERIALIZABLE 0)|].
  eapply rtc_l; [apply (step_begin SERIALIZABLE 1)|].
  eapply rtc_l; [apply (step_rollback 1); vm_compute; lia|]. apply rtc_refl.
Qed.

(** The row of the rolled-back transaction 2 is visible to transaction 1. *)
Example aborted_row_visible :
  ∃ txn, heap after_rollback !! 0%nat = Some txn ∧ is_visible 2 txn after_rollback = true.
Proof. eexists. split; vm_compute; reflexivity. Qed.

Lemma txn_reachable_wf_witness : wf after_rollback.
Proof. apply (txn_reachable_wf after_rollback after_rollback_reachable). Defined.

Lemma txn_visibility_witness :
  ∃ txn, heap after_rollback !! 0%nat = Some txn ∧
  (is_visible 2 txn after_rollback = false ↔
   2 ≠ transaction_id txn ∧
   ∃ y w, heap after_rollback !! y = Some w ∧ transaction_id w = 2 ∧ status w = ACTIVE).
Proof.
  eexists. split; [vm_compute; reflexivity|].
  apply (txn_visibility after_rollback 0); [exact after_rollback_reachable|vm_compute; reflexivity].
Defined.

Lemma txn_end_spec_witness :
  let txn := Transaction.mk 1 SERIALIZABLE ACTIVE 0 0 ∅ [] in
  let '(s', out) :=
    (if decide (COMMITTED = COMMITTED) then commit 0 after_rollback else rollback 0 after_rollback) in
  out = Ok () ∧
  heap s' = <[0%nat := with_status (if decide (COMMITTED = COMMITTED) then COMMITTED else ABORTED) txn]>
              (heap after_rollback) ∧
  is_active (transaction_id txn) s' = false.
Proof.
  apply (txn_end_spec COMMITTED after_rollback 0 (Transaction.mk 1 SERIALIZABLE ACTIVE 0 0 ∅ []));
    [apply reachable_inv, after_rollback_reachable|vm_compute; reflexivity].
Defined.

Lemma txn_begin_with_log_witness :
  let w := WriteAheadLog.init ∅ in
  let '(s', out) := begin READ_COMMITTED 0 (init (Some w)) in
  out = Err StructError ∧ next_txn_id s' = 2 ∧
  active_txns s' = ∅ ∧ committed_txns s' = ∅ ∧ heap s' = [].
Proof. by apply (txn_begin_with_log READ_COMMITTED 0 (init (Some (WriteAheadLog.init ∅))) (WriteAheadLog.init ∅)). Defined.
End TransactionManager.
