(* ===== verification/Udp.v ===== *)
(** UDP: network/src/protocol/udp.py, [UDPDatagram], [UDPSocket] and [UDPProtocol].

    An [asyncio.Queue] is the list of its items and its bound; a queue object is
    always true. A call of [recvfrom] that has to wait gives [None]: the timer that
    may run out first is an argument. Callbacks are observed as the call they
    receive; the clock and the dictionaries made for display are left out. *)

From S2P Require Import Prelude Bytes.

Abbreviation addr := (string * Z)%type.

Module UDPDatagram.
Record t := mk {
  src_port : Z;
  dst_port : Z;
  length : Z;
  checksum : Z;
  payload : bytes;
  src_ip : string;
  dst_ip : string;
}.

#[global] Instance t_eq_dec : EqDecision t.
Proof. solve_decision. Defined.

(** The constructor: [length] has no default value, and is computed again from the
    payload when it is given. *)
Definition init (src dst : Z) (len_arg : option Z) (sum : Z) (data : bytes) (sip dip : string)
    : res t :=
  match len_arg with
  | None => Err TypeError
  | Some _ => Ok (mk src dst (8 + len data) sum data sip dip)
  end.

Definition encode (d : t) : res bytes :=
  a ← pack_be 2 (src_port d);
  b ← pack_be 2 (dst_port d);
  c ← pack_be 2 (length d);
  e ← pack_be 2 (checksum d);
  Ok ((a ++ b ++ c ++ e) ++ payload d).

Definition decode (data : bytes) : res t :=
  if len data <? 8 then Err ValueError
  else
    let h := py_slice data 0 8 in
    src ← unpack_be_from 2 h 0;
    dst ← unpack_be_from 2 h 2;
    n ← unpack_be_from 2 h 4;
    sum ← unpack_be_from 2 h 6;
    let payload := if 8 <? n then py_slice data 8 n else [] in
    init src dst (Some n) sum payload "" "".

(** * Properties of the encoding *)

(** An encoded datagram is read back with its ports, checksum and payload, also
    when other bytes follow it (padding): the length field delimits the payload. *)
Theorem udp_decode_encode d x s :
  length d = 8 + len (payload d) → encode d = Ok x →
  decode (x ++ s) = Ok (mk (src_port d) (dst_port d) (length d) (checksum d) (payload d) "" "").
Proof.
  unfold encode. intros Hl E. apply bind_Ok in E as (a & [Ha ->]%pack_u_inv & E).
  apply bind_Ok in E as (b & [Hb ->]%pack_u_inv & E).
  apply bind_Ok in E as (c & [Hc ->]%pack_u_inv & E).
  apply bind_Ok in E as (e & [He ->]%pack_u_inv & <-%Ok_inj).
  set (a := be_bytes 2 (src_port d)) in *. set (b := be_bytes 2 (dst_port d)) in *.
  set (c := be_bytes 2 (length d)) in *. set (e := be_bytes 2 (checksum d)) in *.
  assert (List.length (a ++ b ++ c ++ e) = 8%nat) as Lh by done. unfold decode.
  rewrite length_app, length_app, Lh. if_false. rewrite <-(app_assoc _ (payload d) s).
  rewrite (py_slice_at _ [] (a ++ b ++ c ++ e) (payload d ++ s)); [|done|done|by rewrite Lh].
  rewrite (unpack_be_from_at _ 2 [] (src_port d) (b ++ c ++ e) 0) by done. cbn [mbind res_bind].
  rewrite (unpack_be_from_at _ 2 a (dst_port d) (c ++ e) 2) by done. cbn [mbind res_bind].
  rewrite (unpack_be_from_at _ 2 (a ++ b) (length d) e 4) by done. cbn [mbind res_bind].
  rewrite (unpack_be_from_at _ 2 (a ++ b ++ c) (checksum d) [] 6) by (by rewrite ?app_nil_r).
  cbn [mbind res_bind]. unfold init. rewrite Hl.
  assert ((if 8 <? 8 + len (payload d) then py_slice ((a ++ b ++ c ++ e) ++ payload d ++ s) 8 (8 + len (payload d))
           else []) = payload d) as ->; [|done].
  case_match.
  - by apply (py_slice_at _ (a ++ b ++ c ++ e) (payload d) s).
  - destruct (payload d); [done|cbn in *; lia].
Qed.

Lemma udp_decode_encode_witness :
  decode ([0; 53; 4; 0; 0; 10; 0; 0; 7; 9] ++ [0; 0]) = Ok (mk 53 1024 10 0 [7; 9] "" "").
Proof. by apply (udp_decode_encode (mk 53 1024 10 0 [7; 9] "a" "b")). Defined.
End UDPDatagram.

Module UDPSocket.
Record t := mk {
  local_addr : addr;
  multicast_group : option string;
  broadcast : bool;
  ttl : Z;
  connected : bool;
  remote_addr : option addr;
  bytes_sent : Z;
  bytes_received : Z;
  datagrams_sent : Z;
  datagrams_received : Z;
  is_closed : bool;
}.

Definition init (a : addr) : t := mk a None false 64 false None 0 0 0 0 false.

Definition with_group (g : string) (s : t) : t :=
  mk (local_addr s) (Some g) (broadcast s) (ttl s) (connected s) (remote_addr s) (bytes_sent s)
     (bytes_received s) (datagrams_sent s) (datagrams_received s) (is_closed s).
Definition with_broadcast (b : bool) (s : t) : t :=
  mk (local_addr s) (multicast_group s) b (ttl s) (connected s) (remote_addr s) (bytes_sent s)
     (bytes_received s) (datagrams_sent s) (datagrams_received s) (is_closed s).
Definition with_ttl (n : Z) (s : t) : t :=
  mk (local_addr s) (multicast_group s) (broadcast s) n (connected s) (remote_addr s) (bytes_sent s)
     (bytes_received s) (datagrams_sent s) (datagrams_received s) (is_closed s).
Definition with_remote (c : bool) (r : option addr) (s : t) : t :=
  mk (local_addr s) (multicast_group s) (broadcast s) (ttl s) c r (bytes_sent s)
     (bytes_received s) (datagrams_sent s) (datagrams_received s) (is_closed s).
Definition count_sent (n : Z) (s : t) : t :=
  mk (local_addr s) (multicast_group s) (broadcast s) (ttl s) (connected s) (remote_addr s)
     (bytes_sent s + n) (bytes_received s) (datagrams_sent s + 1) (datagrams_received s) (is_closed s).
Definition count_received (n : Z) (s : t) : t :=
  mk (local_addr s) (multicast_group s) (broadcast s) (ttl s) (connected s) (remote_addr s)
     (bytes_sent s) (bytes_received s + n) (datagrams_sent s) (datagrams_received s + 1) (is_closed s).
End UDPSocket.

Module UDPProtocol.
Import UDPDatagram UDPSocket.

Record t := mk {
  sockets : gmap Z UDPSocket.t;
  recv_callbacks : gset Z;   (* the ports with a callback *)
  error_callbacks : gset Z;
  multicast_groups : gmap string (gset Z);
  datagram_queue : gmap Z (list UDPDatagram.t);
  is_running : bool;
}.

Definition init : t := mk ∅ ∅ ∅ ∅ ∅ false.

Definition max_datagram_size : Z := 65507.
Definition queue_maxsize : Z := 10000.

Definition with_sockets (m : gmap Z UDPSocket.t) (s : t) : t :=
  mk m (recv_callbacks s) (error_callbacks s) (multicast_groups s) (datagram_queue s) (is_running s).
Definition with_groups (m : gmap string (gset Z)) (s : t) : t :=
  mk (sockets s) (recv_callbacks s) (error_callbacks s) m (datagram_queue s) (is_running s).
Definition with_queues (m : gmap Z (list UDPDatagram.t)) (s : t) : t :=
  mk (sockets s) (recv_callbacks s) (error_callbacks s) (multicast_groups s) m (is_running s).
Definition with_running (b : bool) (s : t) : t :=
  mk (sockets s) (recv_callbacks s) (error_callbacks s) (multicast_groups s) (datagram_queue s) b.

(** Changing the socket of a port, if there is one. *)
Definition update_socket (port : Z) (f : UDPSocket.t → UDPSocket.t) (s : t) : t :=
  with_sockets (alter f port (sockets s)) s.

(** [for port in range(49152, 65535)]. *)
Definition find_available_port (s : t) : res Z :=
  match List.find (λ p, bool_decide (sockets s !! p = None)) (seqZ 49152 (65535 - 49152)) with
  | Some p => Ok p
  | None => Err UDPError
  end.

Definition create_socket (port : Z) (host : string) : method t UDPSocket.t :=
  let! s := m_get in
  if (0 <? port) && bool_decide (is_Some (sockets s !! port)) then m_raise UDPPortUnavailable
  else
    let! port := (if port =? 0 then m_lift (find_available_port s) else m_ret port) in
    let sock := UDPSocket.init (host, port) in
    let! _ := m_put (with_queues (<[port := []]> (datagram_queue s))
                       (with_sockets (<[port := sock]> (sockets s)) s)) in
    m_ret sock.

(** Leaving every multicast group; the groups that become empty go away. *)
Definition leave_all (port : Z) (groups : gmap string (gset Z)) : gmap string (gset Z) :=
  filter (λ x : string * gset Z, x.2 ≠ ∅) ((λ ports, ports ∖ {[port]}) <$> groups).

Definition close (port : Z) (s : t) : t * bool :=
  match sockets s !! port with
  | None => (s, false)
  | Some _ =>
      (mk (delete port (sockets s)) (recv_callbacks s ∖ {[port]}) (error_callbacks s ∖ {[port]})
          (leave_all port (multicast_groups s)) (delete port (datagram_queue s)) (is_running s), true)
  end.

Definition start (s : t) : t := with_running true s.

Definition stop (s : t) : t :=
  foldl (λ s port, (close port s).1) (with_running false s) (elements (dom (sockets s))).

(** [self._sockets.get(port)], refused when it is missing or closed. *)
Definition open_socket (port : Z) (s : t) : res UDPSocket.t :=
  match sockets s !! port with
  | Some sock => if is_closed sock then Err UDPError else Ok sock
  | None => Err UDPError
  end.

Definition sendto (data : bytes) (dst : addr) (src_port : Z) : method t Z :=
  if max_datagram_size <? len data then m_raise ValueError
  else
    let! s := m_get in
    let! src_port :=
      (if src_port =? 0 then
         let! p := m_lift (find_available_port s) in
         let! _ := create_socket p "0.0.0.0" in m_ret p
       else m_ret src_port) in
    let! s := m_get in
    let! sock := m_lift (open_socket src_port s) in
    let! datagram := m_lift (UDPDatagram.init src_port dst.2 None 0 data (local_addr sock).1 dst.1) in
    let! _ := m_put (update_socket src_port (count_sent (len data)) s) in
    m_ret (len data).

Definition send (data : bytes) (port : Z) : method t Z :=
  let! s := m_get in
  match sockets s !! port with
  | Some sock =>
      if connected sock then
        match remote_addr sock with
        | Some remote => sendto data remote port
        | None => m_raise UDPError
        end
      else m_raise UDPError
  | None => m_raise UDPError
  end.

(** [timer]: whether a timeout was given and, if so, whether it runs out first. *)
Definition recvfrom (port : Z) (timer : option bool) : method t (option (bytes * addr)) :=
  let! s := m_get in
  let! _ := m_lift (open_socket port s) in
  match datagram_queue s !! port with
  | None => m_raise UDPError
  | Some queue =>
      if bool_decide (timer = Some true) then m_raise TimeoutError
      else
        match queue with
        | [] => m_ret None
        | d :: rest =>
            let! _ := m_put (update_socket port (count_received (len (payload d)))
                               (with_queues (<[port := rest]> (datagram_queue s)) s)) in
            m_ret (Some (payload d, (src_ip d, UDPDatagram.src_port d)))
        end
  end.

Definition recv (port : Z) (timer : option bool) : method t (option bytes) :=
  let! r := recvfrom port timer in m_ret (fst <$> r).

Definition on_recv (port : Z) (s : t) : t :=
  mk (sockets s) (recv_callbacks s ∪ {[port]}) (error_callbacks s) (multicast_groups s)
     (datagram_queue s) (is_running s).
Definition on_error (port : Z) (s : t) : t :=
  mk (sockets s) (recv_callbacks s) (error_callbacks s ∪ {[port]}) (multicast_groups s)
     (datagram_queue s) (is_running s).

Definition connect (port : Z) (remote : addr) : method t () := λ s,
  match sockets s !! port with
  | None => (s, Err UDPError)
  | Some _ => (update_socket port (with_remote true (Some remote)) s, Ok ())
  end.

Definition disconnect (port : Z) (s : t) : t := update_socket port (with_remote false None) s.

Definition join_multicast_group (port : Z) (group : string) : method t bool := λ s,
  match sockets s !! port with
  | None => (s, Err UDPError)
  | Some _ =>
      (update_socket port (with_group group)
         (with_groups (<[group := default ∅ (multicast_groups s !! group) ∪ {[port]}]>
                         (multicast_groups s)) s), Ok true)
  end.

Definition leave_multicast_group (port : Z) (group : string) (s : t) : t * bool :=
  match multicast_groups s !! group with
  | Some ports =>
      let ports' := ports ∖ {[port]} in
      (with_groups (if decide (ports' = ∅) then delete group (multicast_groups s)
                    else <[group := ports']> (multicast_groups s)) s, true)
  | None => (s, false)
  end.

Definition set_broadcast (port : Z) (enabled : bool) (s : t) : t :=
  update_socket port (with_broadcast enabled) s.

Definition set_ttl (port ttl : Z) : method t () := λ s,
  if (0 <? ttl) && (ttl <=? 255) then (update_socket port (with_ttl ttl) s, Ok ())
  else (s, Err ValueError).

(** The filter of a connected socket. *)
Definition source_ok (sock : UDPSocket.t) (d : UDPDatagram.t) : bool :=
  match remote_addr sock with
  | Some remote => negb (connected sock) || bool_decide ((src_ip d, UDPDatagram.src_port d) = remote)
  | None => true
  end.

(** [queue.put_nowait(datagram)]: a full queue drops it. *)
Definition put_nowait (d : UDPDatagram.t) (q : list UDPDatagram.t) : list UDPDatagram.t :=
  if len q <? queue_maxsize then q ++ [d] else q.

(** The state and the call of the port's callback. *)
Definition process_datagram (d : UDPDatagram.t) (s : t) : t * option (bytes * addr) :=
  let port := dst_port d in
  match open_socket port s with
  | Err _ => (s, None)
  | Ok sock =>
      if source_ok sock d then
        (with_queues (alter (put_nowait d) port (datagram_queue s)) s,
         if decide (port ∈ recv_callbacks s)
         then Some (payload d, (src_ip d, UDPDatagram.src_port d)) else None)
      else (s, None)
  end.

(** The counters of the protocol. *)
Definition active_sockets (s : t) : Z :=
  len (filter (λ x : Z * UDPSocket.t, is_closed x.2 = false) (map_to_list (sockets s))).
Definition total (f : UDPSocket.t → Z) (s : t) : Z :=
  foldr (λ x acc, f x.2 + acc) 0 (map_to_list (sockets s)).
Definition total_datagrams_sent : t → Z := total datagrams_sent.
Definition total_datagrams_received : t → Z := total datagrams_received.
Definition total_bytes_sent : t → Z := total bytes_sent.
Definition total_bytes_received : t → Z := total bytes_received.

(** ** The life of the protocol *)

(** One call by a client or one datagram from the network. *)
Inductive step : t → t → Prop :=
  | step_start s : step s (start s)
  | step_stop s : step s (stop s)
  | step_create port host s : step s (create_socket port host s).1
  | step_close port s : step s (close port s).1
  | step_sendto data dst port s : step s (sendto data dst port s).1
  | step_send data port s : step s (send data port s).1
  | step_recvfrom port timer s : step s (recvfrom port timer s).1
  | step_on_recv port s : step s (on_recv port s)
  | step_on_error port s : step s (on_error port s)
  | step_connect port remote s : step s (connect port remote s).1
  | step_disconnect port s : step s (disconnect port s)
  | step_join port group s : step s (join_multicast_group port group s).1
  | step_leave port group s : step s (leave_multicast_group port group s).1
  | step_broadcast port b s : step s (set_broadcast port b s)
  | step_ttl port n s : step s (set_ttl port n s).1
  | step_datagram d s : step s (process_datagram d s).1.

(** A socket of the table: open, bound to its port, and it never sent anything. *)
Definition socket_ok (port : Z) (sock : UDPSocket.t) : Prop :=
  is_closed sock = false ∧ (local_addr sock).2 = port ∧ bytes_sent sock = 0 ∧ datagrams_sent sock = 0.

Record wf (s : t) : Prop := {
  wf_queues p : is_Some (datagram_queue s !! p) ↔ is_Some (sockets s !! p);
  wf_sockets p sock : sockets s !! p = Some sock → socket_ok p sock;
  wf_bound p q : datagram_queue s !! p = Some q → len q <= queue_maxsize;
  wf_groups g ports :
    multicast_groups s !! g = Some ports → ports ≠ ∅ ∧ ∀ p, p ∈ ports → is_Some (sockets s !! p);
}.

(** * Lemmas *)

Lemma wf_udp_init : wf init.
Proof. split; cbn; intros *; rewrite ?lookup_empty; done || (split; by intros []). Qed.

(** Changing a socket without breaking it. *)
Lemma wf_udp_update port f s :
  wf s → (∀ sock, socket_ok port sock → socket_ok port (f sock)) → wf (update_socket port f s).
Proof.
  intros [Hq Hs Hb Hg] Hf. unfold update_socket. split; cbn [sockets datagram_queue multicast_groups with_sockets].
  - intros p. by rewrite Hq, lookup_alter_is_Some.
  - intros p sock. rewrite lookup_alter. case_decide as E; [|by apply Hs].
    subst p. rewrite fmap_Some. intros (x & Hx & ->). by apply Hf, Hs.
  - done.
  - intros g ports Hp. destruct (Hg _ _ Hp) as [? Hin]. split; [done|]. intros p Hin'.
    rewrite lookup_alter_is_Some. by apply Hin.
Qed.

(** The state after a socket was made for [port]. *)
Definition opened (port : Z) (host : string) (s : t) : t :=
  with_queues (<[port := []]> (datagram_queue s))
    (with_sockets (<[port := UDPSocket.init (host, port)]> (sockets s)) s).

Lemma wf_opened port host s : wf s → wf (opened port host s).
Proof.
  intros [Hq Hs Hb Hg]. unfold opened.
  split; cbn [sockets datagram_queue multicast_groups with_sockets with_queues].
  - intros p. by rewrite !lookup_insert_is_Some', Hq.
  - intros p sock [[<- <-]|[_ Hp]]%lookup_insert_Some; [done|by apply Hs].
  - intros p q [[<- <-]|[_ Hp]]%lookup_insert_Some; [done|by eapply Hb].
  - intros g ports Hp. destruct (Hg _ _ Hp) as [? Hin]. split; [done|]. intros p Hin'.
    apply lookup_insert_is_Some'. right. by apply Hin.
Qed.

Lemma find_available_port_spec s :
  match find_available_port s with
  | Ok p => 49152 <= p < 65535 ∧ sockets s !! p = None ∧
            ∀ p', 49152 <= p' < p → is_Some (sockets s !! p')
  | Err e => e = UDPError ∧ ∀ p, 49152 <= p < 65535 → is_Some (sockets s !! p)
  end.
Proof.
  unfold find_available_port.
  assert (∀ n a, match List.find (λ p, bool_decide (sockets s !! p = None)) (seqZ a (Z.of_nat n)) with
    | Some p => a <= p < a + Z.of_nat n ∧ sockets s !! p = None ∧
                ∀ p', a <= p' < p → is_Some (sockets s !! p')
    | None => ∀ p, a <= p < a + Z.of_nat n → is_Some (sockets s !! p)
    end) as H.
  { induction n as [|n IH]; intros a; [cbn; intros p ?; lia|].
    rewrite seqZ_cons by lia. replace (Z.pred (Z.of_nat (S n))) with (Z.of_nat n) by lia.
    cbn [List.find]. case_bool_decide as E; [split_and!; [lia|lia|done|lia]|].
    apply not_eq_None_Some in E. specialize (IH (Z.succ a)).
    destruct (List.find _ _) as [p|].
    - destruct IH as (? & ? & Hp). split_and!; [lia|lia|done|]. intros p' ?.
      destruct (decide (p' = a)) as [->|]; [done|]. apply Hp. lia.
    - intros p ?. destruct (decide (p = a)) as [->|]; [done|]. apply IH. lia. }
  specialize (H (Z.to_nat 16383) 49152). rewrite Z2Nat.id in H by lia.
  change 16383 with (65535 - 49152) in H.
  destruct (List.find _ _); [|by split]. done.
Qed.

Lemma create_socket_spec port host s :
  create_socket port host s =
  if (0 <? port) && bool_decide (is_Some (sockets s !! port)) then (s, Err UDPPortUnavailable)
  else match (if port =? 0 then find_available_port s else Ok port) with
       | Ok p => (opened p host s, Ok (UDPSocket.init (host, p)))
       | Err e => (s, Err e)
       end.
Proof.
  unfold create_socket, m_bind, m_get, m_lift, m_put, m_ret, m_raise. case_match; [done|].
  destruct (port =? 0); [|done]. by destruct (find_available_port s).
Qed.

Lemma wf_create port host s : wf s → wf (create_socket port host s).1.
Proof. intros Hwf. rewrite create_socket_spec. repeat case_match; by try apply wf_opened. Qed.

Lemma lookup_leave_all port groups g ports :
  leave_all port groups !! g = Some ports ↔
  ∃ ports0, groups !! g = Some ports0 ∧ ports = ports0 ∖ {[port]} ∧ ports ≠ ∅.
Proof.
  unfold leave_all. rewrite map_lookup_filter_Some, lookup_fmap, fmap_Some. cbn. naive_solver.
Qed.

Lemma wf_close port s : wf s → wf (close port s).1.
Proof.
  intros Hwf. unfold close. destruct (sockets s !! port) as [sock|] eqn:E; [|done].
  destruct Hwf as [Hq Hs Hb Hg]. split; cbn [fst sockets datagram_queue multicast_groups].
  - intros p. by rewrite !lookup_delete_is_Some, Hq.
  - intros p x [_ Hp]%lookup_delete_Some. by apply Hs.
  - intros p q [_ Hp]%lookup_delete_Some. by eapply Hb.
  - intros g ports (ports0 & Hp & -> & Hne)%lookup_leave_all. split; [done|].
    intros p [Hin Hnp]%elem_of_difference. apply lookup_delete_is_Some.
    split; [by rewrite elem_of_singleton in Hnp|]. by eapply Hg.
Qed.

Lemma sendto_cases data dst src s :
  sendto data dst src s =
  if max_datagram_size <? len data then (s, Err ValueError)
  else if src =? 0 then
    match find_available_port s with
    | Ok p => (opened p "0.0.0.0" s, Err TypeError)
    | Err e => (s, Err e)
    end
  else (s, Err (if is_ok (open_socket src s) then TypeError else UDPError)).
Proof.
  unfold sendto. case_match; [done|]. unfold m_bind, m_get, m_lift, m_ret.
  destruct (src =? 0).
  - pose proof (find_available_port_spec s) as Hp.
    destruct (find_available_port s) as [p|e]; [|done]. destruct Hp as (? & Hp & _).
    rewrite create_socket_spec.
    assert ((0 <? p) && bool_decide (is_Some (sockets s !! p)) = false) as ->.
    { rewrite Hp, bool_decide_eq_false_2 by (by intros []). apply andb_false_r. }
    if_false. cbn [fst snd]. unfold open_socket, opened. cbn [sockets with_queues with_sockets].
    by rewrite lookup_insert_eq.
  - unfold open_socket. destruct (sockets s !! src) as [sock|]; [|done].
    by destruct (is_closed sock).
Qed.
Lemma wf_with_queues m s :
  wf s → (∀ p, is_Some (m !! p) ↔ is_Some (datagram_queue s !! p)) →
  (∀ p q, m !! p = Some q → len q <= queue_maxsize) → wf (with_queues m s).
Proof. intros [Hq Hs Hb Hg] Hm Hl. split; cbn; [|done..]. intros p. by rewrite Hm, Hq. Qed.

Lemma wf_stop s : wf s → wf (stop s).
Proof.
  intros Hwf. unfold stop. assert (wf (with_running false s)) as H by (destruct Hwf; by split).
  revert H. generalize (with_running false s).
  induction (elements (dom (sockets s))) as [|p ps IH]; intros s0 Hs0; [done|]. by apply IH, wf_close.
Qed.

Lemma wf_sendto data dst src s : wf s → wf (sendto data dst src s).1.
Proof. intros. rewrite sendto_cases. repeat case_match; by try apply wf_opened. Qed.

Lemma wf_recvfrom port timer s : wf s → wf (recvfrom port timer s).1.
Proof.
  intros Hwf. unfold recvfrom, m_bind, m_get, m_lift.
  destruct (open_socket port s); [|done].
  destruct (datagram_queue s !! port) as [q|] eqn:Eq; [|done]. case_bool_decide; [done|].
  destruct q as [|d rest]; [done|]. cbn [fst]. apply wf_udp_update; [|by intros sock (? & ? & ? & ?)].
  apply wf_with_queues; [done| |].
  - intros p. rewrite lookup_insert_is_Some'. split; [|by right]. by intros [<-|?].
  - intros p q [[<- <-]|[_ Hp]]%lookup_insert_Some; [|by eapply wf_bound].
    apply (wf_bound s Hwf) in Eq. cbn [Datatypes.length] in Eq. lia.
Qed.

Lemma put_nowait_bound d q : len q <= queue_maxsize → len (put_nowait d q) <= queue_maxsize.
Proof. unfold put_nowait. case_match; [|done]. rewrite length_app. cbn. lia. Qed.

Lemma wf_process d s : wf s → wf (process_datagram d s).1.
Proof.
  intros Hwf. unfold process_datagram.
  destruct (open_socket (dst_port d) s) as [sock|]; [|done].
  destruct (source_ok sock d); [|done]. cbn [fst]. apply wf_with_queues; [done| |].
  - intros p. apply lookup_alter_is_Some.
  - intros p q. rewrite lookup_alter. destruct (decide (dst_port d = p)); [|by eapply wf_bound].
    rewrite fmap_Some. intros (q0 & Hq & ->). by eapply put_nowait_bound, wf_bound.
Qed.

Lemma wf_join port group s : wf s → wf (join_multicast_group port group s).1.
Proof.
  intros Hwf. unfold join_multicast_group.
  destruct (sockets s !! port) as [sock|] eqn:E; [|done]. cbn [fst].
  apply wf_udp_update; [|by intros x (? & ? & ? & ?)].
  destruct Hwf as [Hq Hs Hb Hg]. split; try done. cbn [multicast_groups with_groups sockets].
  intros g ports [[<- <-]|[_ Hp]]%lookup_insert_Some; [|by eapply Hg]. split.
  - intros H. assert (port ∈ (∅ : gset Z)) as Hin; [|by apply not_elem_of_empty in Hin].
    rewrite <-H. apply elem_of_union. right. by apply elem_of_singleton.
  - intros p [Hin|Hin%elem_of_singleton]%elem_of_union; [|by subst p].
    destruct (multicast_groups s !! group) as [ports|] eqn:Eg; [|by apply not_elem_of_empty in Hin].
    by eapply Hg.
Qed.

Lemma wf_leave port group s : wf s → wf (leave_multicast_group port group s).1.
Proof.
  intros Hwf. unfold leave_multicast_group.
  destruct (multicast_groups s !! group) as [ports|] eqn:Eg; [|done]. cbn [fst].
  destruct Hwf as [Hq Hs Hb Hg]. split; try done. cbn [multicast_groups with_groups sockets].
  intros g ports'. case_decide as Hd.
  - intros [_ Hp]%lookup_delete_Some. by eapply Hg.
  - intros [[<- <-]|[_ Hp]]%lookup_insert_Some; [|by eapply Hg]. split; [done|].
    intros p [Hin _]%elem_of_difference. by eapply Hg.
Qed.

Lemma wf_udp_step s s' : wf s → step s s' → wf s'.
Proof.
  intros Hwf.
  assert (∀ port f, (∀ sock, is_closed (f sock) = is_closed sock ∧ local_addr (f sock) = local_addr sock ∧
     bytes_sent (f sock) = bytes_sent sock ∧ datagrams_sent (f sock) = datagrams_sent sock) →
     wf (update_socket port f s)) as Hupd.
  { intros port f Hf. apply wf_udp_update; [done|]. intros sock Hok.
    unfold socket_ok. by destruct (Hf sock) as (-> & -> & -> & ->). }
  destruct 1.
  - destruct Hwf; by split.
  - by apply wf_stop.
  - by apply wf_create.
  - by apply wf_close.
  - by apply wf_sendto.
  - unfold send, m_bind, m_get, m_raise. repeat case_match; try done. by apply wf_sendto.
  - by apply wf_recvfrom.
  - destruct Hwf; by split.
  - destruct Hwf; by split.
  - unfold connect. case_match; [by apply Hupd|done].
  - by apply Hupd.
  - by apply wf_join.
  - by apply wf_leave.
  - by apply Hupd.
  - unfold set_ttl. case_match; [by apply Hupd|done].
  - by apply wf_process.
Qed.

Lemma wf_udp_steps a b : rtc step a b → wf a → wf b.
Proof. induction 1; [done|]. intros. eauto using wf_udp_step. Qed.

(** What a socket accepts of the network. *)
Definition accepted (port : Z) (sock : UDPSocket.t) (d : UDPDatagram.t) : Prop :=
  dst_port d = port ∧ source_ok sock d = true.
#[global] Instance accepted_dec port sock d : Decision (accepted port sock d).
Proof. unfold accepted. apply _. Defined.

(** The datagrams of the network, one after the other. *)
Definition process_all (ds : list UDPDatagram.t) (s : t) : t :=
  foldl (λ s d, (process_datagram d s).1) s ds.

Lemma sockets_process d s : sockets (process_datagram d s).1 = sockets s.
Proof. unfold process_datagram. by repeat case_match. Qed.

(** Dropping when the queue is full is cutting the whole arrival at its size. *)
Lemma put_nowait_take d q r :
  len q <= queue_maxsize →
  take (Z.to_nat queue_maxsize) (put_nowait d q ++ r) = take (Z.to_nat queue_maxsize) (q ++ d :: r).
Proof.
  intros Hl. unfold put_nowait. case_match; [by rewrite <-app_assoc|].
  replace (Z.to_nat queue_maxsize) with (Datatypes.length q) by lia. by rewrite !take_app_length.
Qed.

Lemma queue_process_one p sock q d s :
  socket_ok p sock → sockets s !! p = Some sock → datagram_queue s !! p = Some q →
  len q <= queue_maxsize →
  datagram_queue (process_datagram d s).1 !! p =
  Some (if decide (accepted p sock d) then put_nowait d q else q).
Proof.
  intros (Hopen & _) Hs Hq Hl. unfold process_datagram, open_socket.
  destruct (decide (dst_port d = p)) as [Hp|Hp].
  - subst p. rewrite Hs, Hopen. destruct (source_ok sock d) eqn:Eok.
    + cbn [fst datagram_queue with_queues]. rewrite decide_True by done.
      by rewrite lookup_alter_eq, Hq.
    + rewrite decide_False; [done|]. intros []. congruence.
  - rewrite (decide_False (P := accepted p sock d)) by (by intros []).
    repeat case_match; try done; cbn [fst datagram_queue with_queues]; by rewrite lookup_alter_ne.
Qed.

Lemma queue_process_all p sock q ds s :
  socket_ok p sock → sockets s !! p = Some sock → datagram_queue s !! p = Some q →
  len q <= queue_maxsize →
  sockets (process_all ds s) = sockets s ∧
  datagram_queue (process_all ds s) !! p =
  Some (take (Z.to_nat queue_maxsize) (q ++ filter (accepted p sock) ds)).
Proof.
  intros Hok. revert s q. induction ds as [|d ds IH]; intros s q Hs Hq Hl.
  { split; [done|]. cbn. rewrite app_nil_r, take_ge by lia. done. }
  cbn [process_all foldl]. fold (process_all ds (process_datagram d s).1).
  pose proof (queue_process_one p sock q d s Hok Hs Hq Hl) as Hq'.
  rewrite filter_cons. destruct (IH (process_datagram d s).1 _
    ltac:(by rewrite sockets_process) Hq') as [-> ->].
  { case_decide; [by apply put_nowait_bound|done]. }
  split; [by apply sockets_process|]. f_equal. case_decide; [|done]. by apply put_nowait_take.
Qed.

(** A client that receives [n] times. *)
Fixpoint recv_many (n : nat) (port : Z) : method t (list (bytes * addr)) :=
  match n with
  | O => m_ret []
  | S n' =>
      let! r := recvfrom port None in
      match r with
      | Some x => let! xs := recv_many n' port in m_ret (x :: xs)
      | None => m_ret []
      end
  end.

(** What a client sees of a datagram. *)
Definition view (d : UDPDatagram.t) : bytes * addr :=
  (payload d, (src_ip d, UDPDatagram.src_port d)).

Lemma recv_many_queue n p sock q s :
  is_closed sock = false → sockets s !! p = Some sock → datagram_queue s !! p = Some q →
  (n <= Datatypes.length q)%nat → (recv_many n p s).2 = Ok (take n (view <$> q)).
Proof.
  revert sock q s. induction n as [|n IH]; intros sock q s Hopen Hs Hq Hn; [done|].
  destruct q as [|d q]; [cbn in Hn; lia|]. cbn [recv_many fmap list_fmap take]. unfold m_bind at 1.
  unfold recvfrom, m_bind at 1 2, m_get, m_lift, open_socket. rewrite Hs, Hopen, Hq.
  cbn [bool_decide]. rewrite bool_decide_eq_false_2 by done. cbn [m_put m_ret m_bind].
  set (s1 := update_socket p _ _).
  unfold m_bind. specialize (IH (count_received (len (payload d)) sock) q s1).
  destruct (recv_many n p s1) as [s2 out]. cbn [snd] in IH. rewrite IH; [done|done| | |cbn in Hn; lia].
  - unfold s1, update_socket. cbn [sockets with_sockets with_queues]. by rewrite lookup_alter_eq, Hs.
  - unfold s1, update_socket. cbn [datagram_queue with_sockets with_queues]. by rewrite lookup_insert_eq.
Qed.

(** * Properties *)

(** No datagram is ever sent: [sendto] raises on every path. Too large a
    datagram is refused; without a source port a socket is made on the first free
    port and stays, and the call then fails as it does for an open socket, because
    the datagram is built without its mandatory length. *)
Theorem udp_sendto_spec data dst src s :
  sendto data dst src s =
  if max_datagram_size <? len data then (s, Err ValueError)
  else if src =? 0 then
    match find_available_port s with
    | Ok p => (opened p "0.0.0.0" s, Err TypeError)
    | Err e => (s, Err e)
    end
  else (s, Err (if is_ok (open_socket src s) then TypeError else UDPError)).
Proof. apply sendto_cases. Qed.

(** Whatever calls its clients make and whatever arrives, the tables stay
    consistent: every socket of the table is open, bound to its port and has a queue
    of at most 10000 datagrams; the multicast groups are not empty and have only open
    ports; and no socket has ever counted a datagram as sent. *)
Theorem udp_reachable_wf s : rtc step init s → wf s.
Proof. intros H. eapply wf_udp_steps; [exact H|apply wf_udp_init]. Qed.

(** Delivery. Of whatever arrives, a client that receives [n] times on a port
    whose queue was empty gets exactly the first [n] datagrams addressed to the port
    (and, on a connected socket, coming from its peer), each once, in the order of
    their arrival and with its source; beyond 10000 waiting datagrams, later ones
    are dropped. *)
Theorem udp_fifo_delivery p sock ds n s :
  wf s → sockets s !! p = Some sock → datagram_queue s !! p = Some [] →
  (n <= Datatypes.length (filter (accepted p sock) ds))%nat → Z.of_nat n <= queue_maxsize →
  (recv_many n p (process_all ds s)).2 = Ok (take n (view <$> filter (accepted p sock) ds)).
Proof.
  intros Hwf Hs Hq Hn Hmax. pose proof (wf_sockets s Hwf p sock Hs) as Hok.
  destruct (queue_process_all p sock [] ds s Hok Hs Hq) as [Hs' Hq']; [done|].
  rewrite (recv_many_queue n p sock _ _ (proj1 Hok) (eq_trans (f_equal (lookup p) Hs') Hs) Hq').
  - cbn [app]. rewrite fmap_take, take_take, Nat.min_l by lia. done.
  - cbn [app]. rewrite length_take. lia.
Qed.

(** Two sources, one connected port. *)
Definition datagram (src : Z) (x : bytes) : UDPDatagram.t := UDPDatagram.mk src 53 (8 + len x) 0 x "h" "".
Definition connected_53 : t := (connect 53 ("h", 9) (create_socket 53 "0.0.0.0" init).1).1.

Lemma connected_53_reachable : rtc step init connected_53.
Proof. eapply rtc_l; [apply (step_create 53 "0.0.0.0")|]. apply rtc_once, step_connect. Qed.

Lemma udp_reachable_wf_witness : wf connected_53.
Proof. apply (udp_reachable_wf connected_53 connected_53_reachable). Defined.

Lemma udp_fifo_delivery_witness :
  ∃ sock, sockets connected_53 !! 53 = Some sock ∧
  (recv_many 2 53 (process_all [datagram 9 [1]; datagram 8 [2]; datagram 9 [3]] connected_53)).2 =
  Ok (take 2 (view <$> filter (accepted 53 sock) [datagram 9 [1]; datagram 8 [2]; datagram 9 [3]])).
Proof.
  eexists. split; [vm_compute; reflexivity|].
  apply (udp_fifo_delivery 53 _ _ 2 connected_53);
    [apply (wf_udp_steps init), wf_udp_init; apply connected_53_reachable|vm_compute; reflexivity..| |];
    vm_compute; first [lia|congruence].
Defined.

Example delivered :
  (recv_many 2 53 (process_all [datagram 9 [1]; datagram 8 [2]; datagram 9 [3]] connected_53)).2 =
  Ok [([1], ("h", 9)); ([3], ("h", 9))].
Proof. vm_compute. reflexivity. Qed.
End UDPProtocol.
