(* ===== verification/Str.v ===== *)
(** ASCII strings: the string methods the internationalisation code uses.

    A [str] is the list of its code points, as in Utf8. Locale codes and translation
    keys are ASCII; [lower], [upper] and [strip] are those of ASCII strings, and
    other characters are left alone. *)

From S2P Require Import Prelude Bytes Utf8.

(** A string literal. *)
Definition str (s : string) : pystr :=
  (λ a, Z.of_nat (Ascii.nat_of_ascii a)) <$> String.list_ascii_of_string s.

Definition char_lower (c : Z) : Z := if (65 <=? c) && (c <=? 90) then c + 32 else c.
Definition char_upper (c : Z) : Z := if (97 <=? c) && (c <=? 122) then c - 32 else c.
Definition lower (s : pystr) : pystr := char_lower <$> s.
Definition upper (s : pystr) : pystr := char_upper <$> s.

(** [s.replace(a, b)] for single characters. *)
Definition replace_char (a b : Z) (s : pystr) : pystr := (λ c, if c =? a then b else c) <$> s.

(** [s.startswith(p)]. *)
Definition startswith (p s : pystr) : bool := bool_decide (take (length p) s = p).

(** [s.strip()]. *)
Definition is_space (c : Z) : bool :=
  (c =? 32) || ((9 <=? c) && (c <=? 13)) || ((28 <=? c) && (c <=? 31)).
Fixpoint lstrip (s : pystr) : pystr :=
  match s with
  | c :: s' => if is_space c then lstrip s' else s
  | [] => []
  end.
Definition strip (s : pystr) : pystr := reverse (lstrip (reverse (lstrip s))).

(** [s.split(c)[0]]. *)
Definition before (c : Z) (s : pystr) : pystr :=
  match split_on c s with p :: _ => p | [] => [] end.

(** [s.split(c, 1)] on a string that contains [c]. *)
Definition split_first (c : Z) (s : pystr) : pystr * pystr :=
  (before c s, py_from s (len (before c s) + 1)).

(** [s < t]: the order of texts and of tuples of integers, by the first difference. *)
Fixpoint text_lt (s t : pystr) : bool :=
  match s, t with
  | _, [] => false
  | [], _ :: _ => true
  | c :: s', d :: t' => if c =? d then text_lt s' t' else c <? d
  end.

(** The order in which Python iterates a set of texts. *)
Class SetIteration := {
  iterate : gset pystr → list pystr;
  iterate_elements s : iterate s ≡ₚ elements s;
}.

(** One such order. *)
#[export] Instance elements_iteration : SetIteration := {| iterate := elements; iterate_elements s := reflexivity _ |}.

Definition underscore : Z := 95.
Definition hyphen : Z := 45.
Definition dot : Z := 46.

(** * Lemmas *)

Lemma char_lower_idemp c : char_lower (char_lower c) = char_lower c.
Proof. unfold char_lower. repeat case_match; lia. Qed.

Lemma lower_idemp s : lower (lower s) = lower s.
Proof.
  unfold lower. rewrite <-list_fmap_compose. apply list_fmap_ext. intros ? c _. apply char_lower_idemp.
Qed.

Lemma char_upper_idemp c : char_upper (char_upper c) = char_upper c.
Proof. unfold char_upper. repeat case_match; lia. Qed.

Lemma upper_idemp s : upper (upper s) = upper s.
Proof.
  unfold upper. rewrite <-list_fmap_compose. apply list_fmap_ext. intros ? c _. apply char_upper_idemp.
Qed.

(** No piece of a split contains the separator. *)
Lemma split_on_pieces (c : Z) (s : pystr) : Forall (λ p, c ∉ p) (split_on c s).
Proof.
  induction s as [|a s IH]; cbn [split_on].
  { constructor; [apply not_elem_of_nil|done]. }
  case_decide; [constructor; [apply not_elem_of_nil|done]|].
  destruct (split_on c s) as [|p ps] eqn:E.
  - constructor; [|done]. apply not_elem_of_cons. split; [congruence|apply not_elem_of_nil].
  - apply Forall_cons in IH as [Hp Hps]. constructor; [|done].
    apply not_elem_of_cons. split; [congruence|done].
Qed.

Lemma before_no_sep (c : Z) (s : pystr) : c ∉ before c s.
Proof.
  unfold before. pose proof (split_on_pieces c s) as H.
  destruct (split_on c s); [apply not_elem_of_nil|]. by apply Forall_cons in H as [? _].
Qed.

Lemma before_self (c : Z) (s : pystr) : c ∉ s → before c s = s.
Proof. intros H. unfold before. by rewrite split_on_single. Qed.

Lemma lower_no_char c s : c < 97 → c ∉ s → c ∉ lower s.
Proof.
  intros Hc H Hin. unfold lower in Hin. apply list_elem_of_fmap in Hin as (a & -> & Ha).
  unfold char_lower in *. case_match; [lia|done].
Qed.

(** The pieces of a split hold characters of the string. *)
Lemma split_on_chars (c : Z) (s : pystr) : Forall (λ p, ∀ x, x ∈ p → x ∈ s) (split_on c s).
Proof.
  induction s as [|a s IH]; cbn [split_on].
  { constructor; [|done]. intros x Hx. by apply not_elem_of_nil in Hx. }
  assert (Forall (λ p, ∀ x, x ∈ p → x ∈ a :: s) (split_on c s)) as IH'.
  { eapply Forall_impl; [exact IH|]. intros p Hp x Hx. right. by apply Hp. }
  case_decide; [constructor; [intros x Hx; by apply not_elem_of_nil in Hx|done]|].
  destruct (split_on c s) as [|p ps]; 
    [constructor; [intros x ->%list_elem_of_singleton; left|done]|].
  apply Forall_cons in IH' as [Hp Hps]. constructor; [|done].
  intros x [->|Hx]%elem_of_cons; [left|by apply Hp].
Qed.

Lemma replace_char_absent a b s : a ∉ s → replace_char a b s = s.
Proof.
  intros H. unfold replace_char. rewrite <-(list_fmap_id s) at 2. apply list_fmap_ext.
  intros i c Hc. case_match; [|done]. destruct H. apply list_elem_of_lookup. exists i. rewrite Hc. f_equal. lia.
Qed.

Lemma replace_char_removes a b s : a ≠ b → a ∉ replace_char a b s.
Proof.
  intros Hab Hin. apply list_elem_of_fmap in Hin as (c & E & _). case_match; lia.
Qed.

Lemma upper_no_char c s : c < 65 ∨ 90 < c < 97 → c ∉ s → c ∉ upper s.
Proof.
  intros Hc H Hin. apply list_elem_of_fmap in Hin as (a & -> & Ha).
  unfold char_upper in *. case_match; [lia|done].
Qed.

(** Changing the case commutes with splitting at a character that is not a letter. *)
Lemma split_on_lower c s :
  c < 65 ∨ 90 < c < 97 → split_on c (lower s) = lower <$> split_on c s.
Proof.
  intros Hc. induction s as [|a s IH]; [done|]. cbn [lower fmap list_fmap split_on].
  fold (lower s). rewrite IH.
  assert (char_lower a = c ↔ a = c) as Hiff by (unfold char_lower; case_match; lia).
  destruct (decide (a = c)) as [E|E].
  - by rewrite decide_True by tauto.
  - rewrite decide_False by tauto. by destruct (split_on c s).
Qed.

Lemma upper_lower s : upper (lower s) = upper s.
Proof.
  unfold upper, lower. rewrite <-list_fmap_compose. apply list_fmap_ext. intros i c _.
  unfold compose, char_upper, char_lower. repeat case_match; lia.
Qed.

Lemma length_lower s : length (lower s) = length s.
Proof. apply length_fmap. Qed.

Lemma length_upper s : length (upper s) = length s.
Proof. apply length_fmap. Qed.

(** The order of texts is a strict total order. *)
Lemma text_lt_irrefl s : text_lt s s = false.
Proof. induction s as [|c s IH]; [done|]. cbn. by rewrite Z.eqb_refl. Qed.

Lemma text_lt_trans s u t : text_lt s u = true → text_lt u t = true → text_lt s t = true.
Proof.
  revert u t. induction s as [|c s IH]; intros [|d u] [|e t]; cbn; try done.
  destruct (c =? d) eqn:E1, (d =? e) eqn:E2, (c =? e) eqn:E3; try lia. apply IH.
Qed.

Lemma text_lt_total s u : text_lt s u = false → text_lt u s = false → s = u.
Proof.
  revert u. induction s as [|c s IH]; intros [|d u]; cbn; try done.
  destruct (c =? d) eqn:E1, (d =? c) eqn:E2; try lia. intros. f_equal; [lia|by apply IH].
Qed.

Lemma text_lt_asym s u : text_lt s u = true → text_lt u s = false.
Proof.
  intros H. destruct (text_lt u s) eqn:E; [|done].
  pose proof (text_lt_trans s u s H E) as H'. by rewrite text_lt_irrefl in H'.
Qed.

Lemma text_le_trans s u t : text_lt u s = false → text_lt t u = false → text_lt t s = false.
Proof.
  intros H1 H2. destruct (text_lt t s) eqn:E; [|done].
  destruct (text_lt s u) eqn:E1.
  - by rewrite (text_lt_trans t s u E E1) in H2.
  - rewrite (text_lt_total s u E1 H1) in E. congruence.
Qed.
