(* ===== verification/PyNum.v ===== *)
(** Numbers in Python: [int] of a text, [str] of an integer, and binary64 numbers as
    their bit patterns, with their order and the conversions from and to integers. *)

From S2P Require Import Prelude Bytes Utf8 Str.

(** * Integers and texts *)

(** CPython refuses to convert texts of more digits than this. *)
Definition max_str_digits : Z := 4300.

Definition is_digit (c : Z) : bool := (48 <=? c) && (c <=? 57).

(** Digits with single underscores between them; [d] tells whether the last character
    was a digit. *)
Fixpoint parse_digits (acc : Z) (d : bool) (l : pystr) : option Z :=
  match l with
  | [] => if d then Some acc else None
  | c :: l' =>
      if is_digit c then parse_digits (10 * acc + (c - 48)) true l'
      else if (c =? underscore) && d then parse_digits acc false l'
      else None
  end.

(** [int(s)] on ASCII texts; [None] is [ValueError]. *)
Definition py_int (s : pystr) : option Z :=
  let s := strip s in
  if max_str_digits <? len (filter (λ c, is_digit c = true) s) then None
  else match s with
       | 45 :: s' => Z.opp <$> parse_digits 0 false s'
       | 43 :: s' => parse_digits 0 false s'
       | _ => parse_digits 0 false s
       end.

(** The decimal digits of [n], in front of [acc]. *)
Fixpoint digits (fuel : nat) (n : Z) (acc : pystr) : pystr :=
  match fuel with
  | O => acc
  | S fuel' =>
      let acc := (48 + n mod 10) :: acc in
      if n <? 10 then acc else digits fuel' (n / 10) acc
  end.

Definition dec (n : Z) : pystr := digits (Z.to_nat (Z.log2 n) + 1) n [].

(** [str(z)]. *)
Definition str_of_int (z : Z) : res pystr :=
  if 10 ^ max_str_digits <=? Z.abs z then Err ValueError
  else Ok (if z <? 0 then 45 :: dec (- z) else dec z).

(** * Floats *)

Definition float_sign (f : Z) : bool := 2 ^ 63 <=? f.
Definition float_exp (f : Z) : Z := f / 2 ^ 52 mod 2048.
Definition float_mant (f : Z) : Z := f mod 2 ^ 52.
Definition is_nan (f : Z) : bool := (float_exp f =? 2047) && negb (float_mant f =? 0).

(** [int(f)]: truncation. *)
Definition int_of_float (f : Z) : res Z :=
  if float_exp f =? 2047 then Err (if float_mant f =? 0 then OverflowError else ValueError)
  else
    let n := if float_exp f =? 0 then 0
             else Z.shiftl (2 ^ 52 + float_mant f) (float_exp f - 1075) in
    Ok (if float_sign f then - n else n).

(** [float(z)]: to the nearest, ties to even. *)
Definition float_of_nat (n : Z) : res Z :=
  let k := Z.log2 n in
  if n =? 0 then Ok 0
  else
    let bits :=
      if k <=? 52 then (k + 1023) * 2 ^ 52 + (n * 2 ^ (52 - k) - 2 ^ 52)
      else
        let d := 2 ^ (k - 52) in
        let q := n / d in
        let r := n mod d in
        let up := if (d <? 2 * r) || ((2 * r =? d) && Z.odd q) then 1 else 0 in
        (k + 1023) * 2 ^ 52 + (q + up - 2 ^ 52) in
    if 2047 * 2 ^ 52 <=? bits then Err OverflowError else Ok bits.
Definition float_of_int (z : Z) : res Z :=
  if z <? 0 then Z.add (2 ^ 63) <$> float_of_nat (- z) else float_of_nat z.

(** [n / d] to the nearest float, ties to even; too large is infinity. *)
Definition float_of_ratio (n d : Z) : Z :=
  if n =? 0 then 0
  else
    let scale e := (Z.shiftl n (Z.max 0 (- e)), Z.shiftl d (Z.max 0 e)) in
    let e0 := Z.log2 n - Z.log2 d - 52 in
    let e1 := if fst (scale e0) / snd (scale e0) <? 2 ^ 52 then e0 - 1 else e0 in
    let e := Z.max (-1074) e1 in
    let (a, b) := scale e in
    let q := a / b in
    let r := a mod b in
    let q := if (b <? 2 * r) || ((2 * r =? b) && Z.odd q) then q + 1 else q in
    let bits := if q <? 2 ^ 52 then q else (e + 1075) * 2 ^ 52 + (q - 2 ^ 52) in
    Z.min bits (2047 * 2 ^ 52).

(** [float(s)] of digits with one point. *)
Definition float_of_decimal (s : pystr) : Z :=
  let point := default (length s) (fst <$> list_find (λ c, c = dot) s) in
  let number := fold_left (λ n c, 10 * n + (c - 48)) (take point s ++ drop (S point) s) 0 in
  float_of_ratio number (10 ^ (len s - 1 - Z.of_nat point)).

(** A monotone image of the floats that are not NaN; both zeros go to 0. *)
Definition float_key (f : Z) : Z := if float_sign f then 2 ^ 63 - f else f.
Definition float_lt (f g : Z) : bool :=
  negb (is_nan f) && negb (is_nan g) && (float_key f <? float_key g).
Definition float_eq (f g : Z) : bool :=
  negb (is_nan f) && negb (is_nan g) && (float_key f =? float_key g).

(** * Lemmas *)

Example int_of_text : py_int (str " -1_024 ") = Some (-1024).
Proof. vm_compute. reflexivity. Qed.
Example text_of_int : str_of_int (-1024) = Ok (str "-1024").
Proof. vm_compute. reflexivity. Qed.
Example float_of_3 : float_of_int (-3) = Ok 13837309855095848960.
Proof. vm_compute. reflexivity. Qed.
Example float_of_big : float_of_int (2 ^ 53 + 1) = float_of_int (2 ^ 53).
Proof. vm_compute. reflexivity. Qed.
Example decimal_tenth : float_of_decimal (str "0.1") = 0x3FB999999999999A.
Proof. vm_compute. reflexivity. Qed.
Example decimal_large : float_of_decimal (str "12345678901234567890.25") = 0x43E56A95319D63E1.
Proof. vm_compute. reflexivity. Qed.
Example trunc_1_5 : int_of_float 4609434218613702656 = Ok 1.
Proof. vm_compute. reflexivity. Qed.

Lemma digits_app fuel n acc : digits fuel n acc = digits fuel n [] ++ acc.
Proof.
  revert n acc. induction fuel as [|fuel IH]; intros n acc; [done|]. cbn [digits].
  case_match; [done|]. rewrite IH, (IH _ [_]), <-app_assoc. done.
Qed.

Lemma digits_digit fuel n acc :
  0 <= n → Forall (λ c, is_digit c = true) acc → Forall (λ c, is_digit c = true) (digits fuel n acc).
Proof.
  revert n acc. induction fuel as [|fuel IH]; intros n acc Hn Ha; [done|]. cbn [digits].
  assert (Forall (λ c, is_digit c = true) ((48 + n mod 10) :: acc)).
  { constructor; [unfold is_digit; lia|done]. }
  case_match; [done|]. apply IH; [lia|done].
Qed.

Lemma parse_digits_app acc d l1 l2 :
  Forall (λ c, is_digit c = true) l1 → l1 ≠ [] →
  parse_digits acc d (l1 ++ l2) = match parse_digits acc d l1 with Some a => parse_digits a true l2 | None => None end.
Proof.
  intros H. revert acc d. induction H as [|c l Hc Hl IH]; intros acc d Hn; [done|].
  cbn [app parse_digits]. rewrite Hc. destruct l as [|c' l]; [done|]. by apply IH.
Qed.

(** What is printed is read back. *)
Lemma parse_digits_digits fuel n d :
  0 <= n → Z.log2 n < Z.of_nat fuel → parse_digits 0 d (digits fuel n []) = Some n.
Proof.
  revert n d. induction fuel as [|fuel IH]; intros n d Hn Hf; [pose proof (Z.log2_nonneg n); lia|].
  cbn [digits]. assert (is_digit (48 + n mod 10) = true) as Hd by (unfold is_digit; lia).
  case_match eqn:E.
  { cbn [parse_digits]. rewrite Hd. f_equal. lia. }
  assert (Z.log2 (n / 10) < Z.log2 n) as Hl.
  { apply Z.log2_lt_pow2; [lia|]. pose proof (Z.log2_spec n ltac:(lia)) as [_ Hs].
    rewrite Z.pow_succ_r in Hs by apply Z.log2_nonneg. lia. }
  rewrite digits_app, parse_digits_app; [|apply digits_digit; [lia|done]|].
  - rewrite IH by lia. cbn [parse_digits]. rewrite Hd. f_equal. lia.
  - pose proof (Z.log2_nonneg (n / 10)). destruct fuel as [|fuel]; [lia|]. cbn [digits]. case_match; [done|].
    rewrite digits_app. by destruct (digits fuel _ []).
Qed.

Lemma dec_digit n : 0 <= n → Forall (λ c, is_digit c = true) (dec n).
Proof. intros. apply digits_digit; [done|constructor]. Qed.

Lemma dec_nonempty n : dec n ≠ [].
Proof.
  unfold dec. rewrite Nat.add_1_r. cbn [digits]. case_match; [done|].
  rewrite digits_app. by destruct (digits _ _ []).
Qed.

(** The decimal text of a number below [10 ^ k] has at most [k] digits. *)
Lemma length_digits fuel n (k : nat) : 0 <= n < 10 ^ Z.of_nat k → (0 < k)%nat → (length (digits fuel n []) <= k)%nat.
Proof.
  revert n k. induction fuel as [|fuel IH]; intros n k Hn Hk; [cbn; lia|]. cbn [digits].
  case_match; [cbn; lia|]. rewrite digits_app, length_app. cbn [length].
  destruct k as [|k]; [lia|]. rewrite Nat2Z.inj_succ, Z.pow_succ_r in Hn by lia.
  destruct k as [|k]; [cbn in Hn; lia|].
  assert (length (digits fuel (n / 10) []) <= S k)%nat; [apply IH; lia|lia].
Qed.

(** A text without white space at its ends is its own [strip]. *)
Lemma lstrip_id c s : is_space c = false → lstrip (c :: s) = c :: s.
Proof. cbn. by intros ->. Qed.

Lemma strip_id s : Forall (λ c, is_space c = false) s → strip s = s.
Proof.
  intros H. unfold strip. destruct s as [|c s]; [done|]. apply Forall_cons in H as [Hc Hs].
  rewrite lstrip_id by done.
  assert (Forall (λ c, is_space c = false) (reverse (c :: s))) as Hr
    by (apply Forall_reverse; by constructor).
  destruct (reverse (c :: s)) as [|c' s'] eqn:E.
  { by apply (f_equal reverse) in E; rewrite reverse_involutive in E. }
  apply Forall_cons in Hr as [Hc' _]. rewrite lstrip_id by done. by rewrite <-E, reverse_involutive.
Qed.

Lemma digit_not_space c : is_digit c = true → is_space c = false.
Proof. unfold is_digit, is_space. lia. Qed.

(** The characters of a printed integer. *)
Definition int_char (c : Z) : bool := is_digit c || (c =? 45).

Lemma int_char_not_space c : int_char c = true → is_space c = false.
Proof. unfold int_char, is_digit, is_space. lia. Qed.

Lemma filter_digits l : Forall (λ c, is_digit c = true) l → filter (λ c, is_digit c = true) l = l.
Proof. induction 1 as [|c l Hc _ IH]; [done|]. rewrite filter_cons_True by done. by rewrite IH. Qed.

Lemma str_of_int_chars z s : str_of_int z = Ok s → Forall (λ c, int_char c = true) s.
Proof.
  unfold str_of_int. case_match; [done|]. intros <-%Ok_inj.
  assert (∀ n, 0 <= n → Forall (λ c, int_char c = true) (dec n)) as H1.
  { intros n Hn. eapply Forall_impl; [by apply dec_digit|]. intros c Hc. unfold int_char. by rewrite Hc. }
  case_match; [constructor; [done|]|]; apply H1; lia.
Qed.

(** The text of an integer is read back by [int]. *)
Lemma py_int_str z s : str_of_int z = Ok s → py_int s = Some z.
Proof.
  intros E. unfold py_int.
  rewrite strip_id by (eapply Forall_impl; [by eapply str_of_int_chars|apply int_char_not_space]).
  assert (0 <= max_str_digits) by done.
  unfold str_of_int in E. destruct (10 ^ max_str_digits <=? Z.abs z) eqn:Hz; [done|].
  apply Ok_inj in E as <-.
  assert (∀ n, 0 <= n < 10 ^ max_str_digits → (max_str_digits <? len (dec n)) = false) as Hlen.
  { intros n Hn. assert (length (dec n) <= Z.to_nat max_str_digits)%nat; [|lia].
    apply length_digits; [by rewrite Z2Nat.id|unfold max_str_digits; lia]. }
  assert (∀ n, 0 <= n → parse_digits 0 false (dec n) = Some n) as Hp.
  { intros n Hn. pose proof (Z.log2_nonneg n). apply parse_digits_digits; lia. }
  destruct (z <? 0) eqn:Hs.
  - rewrite filter_cons_False by done. rewrite filter_digits by (apply dec_digit; lia).
    rewrite Hlen by lia. rewrite Hp by lia. cbn. f_equal. lia.
  - rewrite filter_digits by (apply dec_digit; lia). rewrite Hlen, <-(Hp z) by lia.
    pose proof (dec_nonempty z). pose proof (dec_digit z ltac:(lia)) as Hd.
    destruct (dec z) as [|c l]; [done|]. apply Forall_cons in Hd as [Hc _]. unfold is_digit in Hc.
    repeat (case_match; try done; try lia).
Qed.
