(* ===== verification/PyDict.v ===== *)
(** Python dictionaries where the order of insertion matters: association lists whose
    keys occur once; and two rules for comprehensions that may raise. *)

From S2P Require Import Prelude.

Section Dict.
Context {K A : Type} `{!EqDecision K}.
Implicit Types (d : list (K * A)) (k : K) (a : A).

(** [d.get(k)]. *)
Fixpoint dict_get d k : option A :=
  match d with
  | [] => None
  | (k', a) :: d' => if decide (k' = k) then Some a else dict_get d' k
  end.

(** [d[k] = a]: in place, or at the end. *)
Fixpoint dict_set d k a : list (K * A) :=
  match d with
  | [] => [(k, a)]
  | (k', a') :: d' => if decide (k' = k) then (k', a) :: d' else (k', a') :: dict_set d' k a
  end.

(** [del d[k]] for a key that is there. *)
Definition dict_del d k : list (K * A) := filter (λ x, x.1 ≠ k) d.

Lemma dict_get_elem d k a : dict_get d k = Some a → (k, a) ∈ d.
Proof.
  induction d as [|[k' a'] d IH]; [done|]. cbn. case_decide as E.
  - intros [= ->]. subst. left.
  - intros H. right. by apply IH.
Qed.

Lemma dict_get_None d k : dict_get d k = None ↔ k ∉ d.*1.
Proof.
  induction d as [|[k' a'] d IH]; cbn; [split; [intros _; apply not_elem_of_nil|done]|].
  rewrite not_elem_of_cons. case_decide; [split; [done|by intros []]|]. rewrite IH.
  split; [by split|by intros []].
Qed.

Lemma elem_dict_get d k a : NoDup d.*1 → (k, a) ∈ d → dict_get d k = Some a.
Proof.
  induction d as [|[k' a'] d IH]; cbn; [intros _ H; by apply not_elem_of_nil in H|].
  intros [Hn Hd]%NoDup_cons [[= -> ->]|Hin]%elem_of_cons; [by rewrite decide_True|].
  case_decide as E; [|by apply IH]. subst. destruct Hn. apply list_elem_of_fmap. by exists (k, a).
Qed.

Lemma dict_get_set d k a k' : dict_get (dict_set d k a) k' = if decide (k = k') then Some a else dict_get d k'.
Proof.
  induction d as [|[k0 a0] d IH]; cbn; [done|]. destruct (decide (k0 = k)) as [->|Hk]; cbn.
  - by case_decide.
  - rewrite IH. destruct (decide (k = k')) as [->|]; [by rewrite decide_False|done].
Qed.

Lemma dict_set_keys d k a : (dict_set d k a).*1 = if decide (k ∈ d.*1) then d.*1 else d.*1 ++ [k].
Proof.
  induction d as [|[k0 a0] d IH]; cbn.
  { rewrite decide_False by apply not_elem_of_nil. done. }
  destruct (decide (k0 = k)) as [->|Hk]; cbn.
  - rewrite decide_True by left. done.
  - rewrite IH. case_decide as H1; case_decide as H2; try done.
    + destruct H2. by right.
    + apply elem_of_cons in H2 as [H2|H2]; [congruence|done].
Qed.

Lemma dict_set_NoDup d k a : NoDup d.*1 → NoDup (dict_set d k a).*1.
Proof.
  intros Hd. rewrite dict_set_keys. case_decide as H; [done|]. rewrite NoDup_app.
  split_and!; [done| |apply NoDup_singleton]. intros x Hx ->%list_elem_of_singleton. done.
Qed.

(** The entries after an assignment are old ones or the new one. *)
Lemma dict_set_elem d k a x b : (x, b) ∈ dict_set d k a → (x = k ∧ b = a) ∨ (x, b) ∈ d.
Proof.
  induction d as [|[k0 a0] d IH]; cbn.
  { intros [= -> ->]%list_elem_of_singleton. by left. }
  case_decide as E; intros [[= -> ->]|H]%elem_of_cons.
  - left. done.
  - right. by right.
  - right. left.
  - destruct (IH H) as [?|?]; [by left|right; by right].
Qed.

Lemma dict_get_del d k k' : dict_get (dict_del d k) k' = if decide (k = k') then None else dict_get d k'.
Proof.
  unfold dict_del. induction d as [|[k0 a0] d IH]; [by case_decide|].
  destruct (decide (k0 = k)) as [->|H].
  - rewrite filter_cons_False by (by intros ?). rewrite IH. cbn [dict_get]. by repeat case_decide.
  - rewrite filter_cons_True by done. cbn [dict_get]. rewrite IH. repeat case_decide; congruence.
Qed.

Lemma dict_del_elem d k x : x ∈ dict_del d k → x ∈ d.
Proof. unfold dict_del. by intros [_ ?]%list_elem_of_filter. Qed.

Lemma dict_del_NoDup d k : NoDup d.*1 → NoDup (dict_del d k).*1.
Proof.
  unfold dict_del. induction d as [|[k0 a0] d IH]; [done|]. cbn [fmap list_fmap].
  intros [Hn Hd]%NoDup_cons. rewrite filter_cons. case_decide; [|by apply IH].
  cbn [fmap list_fmap]. constructor; [|by apply IH].
  intros ([k1 a1] & Hk & [_ Hin]%list_elem_of_filter)%list_elem_of_fmap.
  apply Hn, list_elem_of_fmap. by exists (k1, a1).
Qed.

Lemma dict_set_new d k a : k ∉ d.*1 → dict_set d k a = d ++ [(k, a)].
Proof.
  induction d as [|[k0 a0] d IH]; [done|]. cbn. rewrite not_elem_of_cons. intros [Hk Hd].
  rewrite decide_False by congruence. by rewrite IH.
Qed.

Lemma dict_get_mid d1 k a d2 : k ∉ d1.*1 → dict_get (d1 ++ (k, a) :: d2) k = Some a.
Proof.
  induction d1 as [|[k0 a0] d1 IH]; cbn; [by rewrite decide_True|].
  rewrite not_elem_of_cons. intros [Hk Hd]. rewrite decide_False by congruence. by apply IH.
Qed.

Lemma dict_set_mid d1 k a b d2 : k ∉ d1.*1 → dict_set (d1 ++ (k, a) :: d2) k b = d1 ++ (k, b) :: d2.
Proof.
  induction d1 as [|[k0 a0] d1 IH]; cbn; [by rewrite decide_True|].
  rewrite not_elem_of_cons. intros [Hk Hd]. rewrite decide_False by congruence. by rewrite IH.
Qed.

Lemma dict_del_absent d k : k ∉ d.*1 → dict_del d k = d.
Proof.
  unfold dict_del. induction d as [|[k0 a0] d IH]; [done|]. cbn [fmap list_fmap fst].
  rewrite not_elem_of_cons. intros [Hk Hd]. rewrite filter_cons_True by (cbn; congruence). by rewrite IH.
Qed.

Lemma dict_del_mid d1 k a d2 : k ∉ d1.*1 → k ∉ d2.*1 → dict_del (d1 ++ (k, a) :: d2) k = d1 ++ d2.
Proof.
  intros H1 H2. unfold dict_del. rewrite filter_app, filter_cons_False by (cbn; auto).
  f_equal; by apply dict_del_absent.
Qed.

(** A dictionary is rebuilt from its values when they know their keys. *)
Lemma dict_rebuild (key : A → K) d acc :
  NoDup (acc.*1 ++ d.*1) → Forall (λ x, x.1 = key x.2) d →
  foldl (λ d a, dict_set d (key a) a) acc d.*2 = acc ++ d.
Proof.
  intros Hn Hd. revert acc Hn. induction Hd as [|[k a] d Hk _ IH]; intros acc Hn.
  { by rewrite app_nil_r. }
  cbn [fmap list_fmap foldl snd] in *. cbn [fst snd] in Hk. subst k.
  rewrite dict_set_new.
  - rewrite IH; [by rewrite <-app_assoc|]. by rewrite fmap_app, <-app_assoc.
  - apply NoDup_app in Hn as (_ & Hn & _). intros Hin. apply (Hn _ Hin). left.
Qed.
End Dict.

(** * Comprehensions that may raise *)

(** A comprehension of calls that succeed succeeds. *)
Lemma res_map_total {A B} (f : A → res B) l :
  (∀ x, x ∈ l → ∃ y, f x = Ok y) → ∃ ys, res_map f l = Ok ys.
Proof.
  induction l as [|x l IH]; intros H; [by exists []|]. cbn [res_map].
  destruct (H x) as [y ->]; [left|]. destruct IH as [ys ->]; [intros; apply H; by right|].
  by exists (y :: ys).
Qed.

(** An inverse element by element is an inverse of lists. *)
Lemma res_map_inverse {A B} (f : A → res B) (g : B → res A) l ys :
  (∀ x y, x ∈ l → f x = Ok y → g y = Ok x) → res_map f l = Ok ys → res_map g ys = Ok l.
Proof.
  revert ys. induction l as [|x l IH]; intros ys H; cbn [res_map]; [by intros <-%Ok_inj|].
  intros (y & Hy & (zs & Hzs & <-%Ok_inj)%bind_Ok)%bind_Ok. cbn [res_map].
  rewrite (H x y) by (try left; done). cbn [mbind res_bind].
  rewrite (IH zs); [done| |done]. intros; apply H; [by right|done].
Qed.
