(* ===== verification/Plural.v ===== *)
(** Plural rules: core/plural.py, the rule functions and [PluralRules].

    The registry is a class attribute: one dictionary for all the instances, which is
    the state here; an instance is its default locale. A registered function may
    raise, so a rule returns a result. *)

From S2P Require Import Prelude Bytes Utf8 Str.

(** * The rule functions *)

Definition asian_rule (count : Z) : string := "other".

Definition english_like_rule (count : Z) : string := if count =? 1 then "one" else "other".

Definition french_like_rule (count : Z) : string :=
  if (count =? 0) || (count =? 1) then "one" else "other".

Definition russian_like_rule (count : Z) : string :=
  let mod10 := count mod 10 in
  let mod100 := count mod 100 in
  if (mod10 =? 1) && negb (mod100 =? 11) then "one"
  else if (2 <=? mod10) && (mod10 <=? 4) && ((mod100 <? 12) || (14 <? mod100)) then "few"
  else if (mod10 =? 0) || ((5 <=? mod10) && (mod10 <=? 9)) || ((11 <=? mod100) && (mod100 <=? 14))
  then "many"
  else "other".

Definition polish_rule (count : Z) : string :=
  if count =? 1 then "one"
  else
    let mod10 := count mod 10 in
    let mod100 := count mod 100 in
    if (2 <=? mod10) && (mod10 <=? 4) && ((mod100 <? 12) || (14 <? mod100)) then "few"
    else if ((mod10 =? 0) || (mod10 =? 1)) || ((5 <=? mod10) && (mod10 <=? 9)) ||
            ((12 <=? mod100) && (mod100 <=? 14)) then "many"
    else "other".

Definition czech_rule (count : Z) : string :=
  if count =? 1 then "one"
  else if (2 <=? count) && (count <=? 4) then "few"
  else if (count =? 0) || (5 <=? count) then "many"
  else "other".

Definition arabic_rule (count : Z) : string :=
  if count =? 0 then "zero"
  else if count =? 1 then "one"
  else if count =? 2 then "two"
  else
    let mod100 := count mod 100 in
    if (3 <=? mod100) && (mod100 <=? 10) then "few"
    else if (11 <=? mod100) && (mod100 <=? 99) then "many"
    else "other".

Definition lithuanian_rule (count : Z) : string :=
  let mod10 := count mod 10 in
  let mod100 := count mod 100 in
  if (mod10 =? 1) && ((mod100 <? 11) || (19 <? mod100)) then "one"
  else if (2 <=? mod10) && (mod10 <=? 9) && ((mod100 <? 11) || (19 <? mod100)) then "few"
  else "other".

Definition latvian_rule (count : Z) : string :=
  if count =? 0 then "zero"
  else
    let mod10 := count mod 10 in
    let mod100 := count mod 100 in
    if (mod10 =? 1) && negb (mod100 =? 11) then "one" else "other".

Definition romanian_rule (count : Z) : string :=
  if count =? 1 then "one"
  else if (count =? 0) || ((1 <=? count mod 100) && (count mod 100 <=? 19)) then "few"
  else "other".

Definition slovenian_rule (count : Z) : string :=
  let mod100 := count mod 100 in
  if mod100 =? 1 then "one"
  else if mod100 =? 2 then "two"
  else if (3 <=? mod100) && (mod100 <=? 4) then "few"
  else "other".

(** The built-in rules. *)
Inductive family :=
  | Asian | EnglishLike | FrenchLike | RussianLike | Polish | Czech | Arabic | Lithuanian
  | Latvian | Romanian | Slovenian.

#[export] Instance family_eq_dec : EqDecision family.
Proof. solve_decision. Defined.

Definition rule_of (fam : family) : Z → string :=
  match fam with
  | Asian => asian_rule | EnglishLike => english_like_rule | FrenchLike => french_like_rule
  | RussianLike => russian_like_rule | Polish => polish_rule | Czech => czech_rule
  | Arabic => arabic_rule | Lithuanian => lithuanian_rule | Latvian => latvian_rule
  | Romanian => romanian_rule | Slovenian => slovenian_rule
  end.

(** * The registry *)

Module PluralRules.
Abbreviation rule := (Z → res string).
Abbreviation rules := (gmap pystr rule).

(** A built-in rule never raises. *)
Definition builtin (f : Z → string) : rule := λ n, Ok (f n).

(** The loops over languages and locale codes, for any kind of value. *)
Section Registering.
Context {A : Type}.

(** [for lang in langs: self._rules[lang] = f]. *)
Definition register_all (langs : list string) (f : A) (m : gmap pystr A) : gmap pystr A :=
  foldl (λ m lang, <[str lang := f]> m) m langs.

(** [for locale_code, meta in ..: self._rules[locale_code] = self._rules.get(meta)]. *)
Definition register_locales (codes : list (string * string)) (m : gmap pystr A) : gmap pystr A :=
  foldl (λ m x, match m !! str x.2 with Some f => <[str x.1 := f]> m | None => m end) m codes.
End Registering.

Definition locale_codes : list (string * string) :=
  [("zh_CN", "zh"); ("zh_TW", "zh"); ("zh_HK", "zh");
   ("en_US", "en"); ("en_GB", "en"); ("en_AU", "en"); ("en_CA", "en");
   ("ja_JP", "ja"); ("ko_KR", "ko");
   ("fr_FR", "fr"); ("fr_CA", "fr"); ("fr_BE", "fr");
   ("de_DE", "de"); ("de_AT", "de"); ("de_CH", "de");
   ("es_ES", "es"); ("es_MX", "es"); ("es_AR", "es");
   ("pt_BR", "pt"); ("pt_PT", "pt");
   ("ru_RU", "ru"); ("ar_SA", "ar");
   ("it_IT", "it"); ("nl_NL", "nl");
   ("pl_PL", "pl"); ("cs_CZ", "cs");
   ("sv_SE", "sv"); ("da_DK", "da");
   ("nb_NO", "nb"); ("fi_FI", "fi");
   ("el_GR", "el"); ("hu_HU", "hu");
   ("tr_TR", "tr"); ("he_IL", "he");
   ("ro_RO", "ro"); ("sl_SI", "sl");
   ("hr_HR", "hr"); ("sr_RS", "sr");
   ("uk_UA", "uk"); ("lt_LT", "lt");
   ("lv_LV", "lv"); ("bg_BG", "bg");
   ("ca_ES", "ca"); ("eu_ES", "eu");
   ("gl_ES", "gl"); ("et_EE", "et");
   ("is_IS", "is"); ("hi_IN", "hi");
   ("id_ID", "id"); ("ms_MY", "ms");
   ("th_TH", "th"); ("vi_VN", "vi")]%string.

(** The loops of [_register_default_rules], in their order. *)
Definition default_languages : list (list string * family) :=
  [(["zh"; "ja"; "ko"; "th"; "vi"; "my"; "km"; "lo"; "id"; "ms"], Asian);
   (["en"; "de"; "nl"; "da"; "sv"; "no"; "nb"; "nn"; "fi"; "et"; "el"; "it"; "es"; "pt"; "ca";
     "eu"; "gl"; "bg"; "tr"; "az"; "is"], EnglishLike);
   (["fr"; "ff"; "kab"], FrenchLike);
   (["ru"; "uk"; "be"; "sr"; "hr"; "bs"; "sh"], RussianLike);
   (["pl"], Polish);
   (["cs"; "sk"], Czech);
   (["ar"], Arabic);
   (["lt"], Lithuanian);
   (["lv"], Latvian);
   (["ro"], Romanian);
   (["sl"], Slovenian);
   (["he"; "iw"], EnglishLike);
   (["hi"], EnglishLike);
   (["hu"], EnglishLike);
   (["fi"], EnglishLike)]%string.

Definition register_defaults {A} (value : family → A) (m : gmap pystr A) : gmap pystr A :=
  register_locales locale_codes
    (foldl (λ m x, register_all x.1 (value x.2) m) m default_languages).

Definition register_default_rules (m : rules) : rules :=
  if decide (m = ∅) then register_defaults (λ fam, builtin (rule_of fam)) m else m.

Definition register_rule (locale : pystr) (func : rule) (m : rules) : rules := <[locale := func]> m.

(** [locale.split("_")[0].lower()]. *)
Definition language (locale : pystr) : pystr := lower (before underscore locale).

(** [a or b] on the results of [get]. *)
Definition or_else {A} (a b : option A) : option A := match a with Some _ => a | None => b end.

(** The lookup of [get_plural_form]. *)
Definition find_rule (default_locale : pystr) (m : rules) (locale : pystr) : option rule :=
  match or_else (m !! locale) (m !! language locale) with
  | Some f => Some f
  | None => m !! language default_locale
  end.

Definition get_plural_form (default_locale : pystr) (m : rules) (count : Z) (locale : pystr) : string :=
  match find_rule default_locale m locale with
  | None => "other"
  | Some f => match f count with Ok form => form | Err _ => "other" end
  end.

(** [sorted(self._rules.keys())] up to the order. *)
Definition get_available_locales (m : rules) : gset pystr := dom m.

(** The registry after the first instance was made. *)
Definition default_rules : rules := register_default_rules ∅.

(** * The documented rules

    The docstrings give each rule as a list of CLDR conditions, the first that holds
    deciding. *)

Inductive operand := OpN | OpMod (m : Z).
Inductive cond :=
  | CIn (o : operand) (lo hi : Z)
  | CGe (o : operand) (lo : Z)
  | CNot (c : cond)
  | CAnd (c d : cond)
  | COr (c d : cond).

Definition eval_operand (o : operand) (n : Z) : Z :=
  match o with OpN => n | OpMod m => n mod m end.

Fixpoint eval_cond (c : cond) (n : Z) : bool :=
  match c with
  | CIn o lo hi => (lo <=? eval_operand o n) && (eval_operand o n <=? hi)
  | CGe o lo => lo <=? eval_operand o n
  | CNot c => negb (eval_cond c n)
  | CAnd c d => eval_cond c n && eval_cond d n
  | COr c d => eval_cond c n || eval_cond d n
  end.

Fixpoint first_match (clauses : list (string * cond)) (n : Z) : string :=
  match clauses with
  | [] => "other"
  | (form, c) :: clauses' => if eval_cond c n then form else first_match clauses' n
  end.

Definition is_n (k : Z) : cond := CIn OpN k k.
Definition documented (fam : family) : list (string * cond) :=
  match fam with
  | Asian => []
  | EnglishLike => [("one", is_n 1)]
  | FrenchLike => [("one", CIn OpN 0 1)]
  | RussianLike =>
      [("one", CAnd (CIn (OpMod 10) 1 1) (CNot (CIn (OpMod 100) 11 11)));
       ("few", CAnd (CIn (OpMod 10) 2 4) (CNot (CIn (OpMod 100) 12 14)));
       ("many", COr (CIn (OpMod 10) 0 0) (COr (CIn (OpMod 10) 5 9) (CIn (OpMod 100) 11 14)))]
  | Polish =>
      [("one", is_n 1);
       ("few", CAnd (CIn (OpMod 10) 2 4) (CNot (CIn (OpMod 100) 12 14)));
       ("many", COr (CAnd (CNot (is_n 1)) (CIn (OpMod 10) 0 1))
                    (COr (CIn (OpMod 10) 5 9) (CIn (OpMod 100) 12 14)))]
  | Czech => [("one", is_n 1); ("few", CIn OpN 2 4); ("many", COr (is_n 0) (CGe OpN 5))]
  | Arabic =>
      [("zero", is_n 0); ("one", is_n 1); ("two", is_n 2); ("few", CIn (OpMod 100) 3 10);
       ("many", CIn (OpMod 100) 11 99)]
  | Lithuanian =>
      [("one", CAnd (CIn (OpMod 10) 1 1) (CNot (CIn (OpMod 100) 11 19)));
       ("few", CAnd (CIn (OpMod 10) 2 9) (CNot (CIn (OpMod 100) 11 19)))]
  | Latvian =>
      [("zero", is_n 0); ("one", CAnd (CIn (OpMod 10) 1 1) (CNot (CIn (OpMod 100) 11 11)))]
  | Romanian => [("one", is_n 1); ("few", COr (is_n 0) (CIn (OpMod 100) 1 19))]
  | Slovenian =>
      [("one", CIn (OpMod 100) 1 1); ("two", CIn (OpMod 100) 2 2); ("few", CIn (OpMod 100) 3 4)]
  end%string.

(** The forms that occur for a count. *)
Definition forms (fam : family) : list string :=
  match fam with
  | Asian => ["other"]
  | EnglishLike | FrenchLike => ["one"; "other"]
  | RussianLike | Polish | Czech => ["one"; "few"; "many"]
  | Arabic => ["zero"; "one"; "two"; "few"; "many"; "other"]
  | Lithuanian | Romanian => ["one"; "few"; "other"]
  | Latvian => ["zero"; "one"; "other"]
  | Slovenian => ["one"; "two"; "few"; "other"]
  end%string.

(** * Lemmas *)

(** The bodies of a rule and of its conditions, case by case. *)
Ltac rule_cases :=
  repeat match goal with |- context [if ?b then _ else _] => destruct b eqn:? end;
  first [reflexivity | lia].

(** A registry whose territories follow their languages. *)
Definition by_language (m : rules) : Prop :=
  ∀ k f, m !! k = Some f → m !! language k = Some f.

Lemma language_idemp l : language (language l) = language l.
Proof.
  unfold language. rewrite (before_self _ (lower _)); [apply lower_idemp|].
  apply lower_no_char; [done|apply before_no_sep].
Qed.

(** Each form of a family occurs for a count up to a hundred. *)
Lemma forms_occur fam c :
  c ∈ forms fam → ∃ n, 0 <= n ∧ rule_of fam n = c.
Proof.
  assert (forallb (λ c, existsb (λ n, bool_decide (rule_of fam n = c)) (seqZ 0 101)) (forms fam) = true) as H.
  { destruct fam; vm_compute; reflexivity. }
  rewrite forallb_forall in H. intros Hc%list_elem_of_In%H.
  apply existsb_exists in Hc as (n & Hn%list_elem_of_In & Hr).
  apply bool_decide_eq_true in Hr. apply elem_of_seqZ in Hn. exists n. split; [lia|done].
Qed.

Lemma rule_of_forms fam n : 0 <= n → rule_of fam n ∈ forms fam.
Proof.
  intros Hn. destruct fam; cbn [rule_of forms];
    unfold asian_rule, english_like_rule, french_like_rule, russian_like_rule, polish_rule,
      czech_rule, arabic_rule, lithuanian_rule, latvian_rule, romanian_rule, slovenian_rule;
    repeat match goal with |- context [if ?b then _ else _] => destruct b eqn:? end;
    first [exfalso; lia | repeat (first [apply list_elem_of_here | apply list_elem_of_further])].
Qed.

(** The registry of families is that of the rules. *)
Lemma register_all_fmap {A B} (g : A → B) langs f m :
  register_all langs (g f) (g <$> m) = g <$> register_all langs f m.
Proof.
  unfold register_all. revert m. induction langs as [|l langs IH]; intros m; [done|]. cbn [foldl].
  by rewrite <-fmap_insert, IH.
Qed.

Lemma register_locales_fmap {A B} (g : A → B) codes m :
  register_locales codes (g <$> m) = g <$> register_locales codes m.
Proof.
  unfold register_locales. revert m. induction codes as [|x codes IH]; intros m; [done|]. cbn [foldl].
  rewrite lookup_fmap. destruct (m !! str x.2); cbn [fmap option_fmap option_map]; [|apply IH].
  by rewrite <-fmap_insert, IH.
Qed.

Definition default_families : gmap pystr family := register_defaults id ∅.

Lemma default_rules_families : default_rules = (λ fam, builtin (rule_of fam)) <$> default_families.
Proof.
  unfold default_rules, register_default_rules, default_families, register_defaults.
  rewrite decide_True by done.
  rewrite <-register_locales_fmap. f_equal.
Qed.

(** The built-in registry, checked entry by entry. *)
Lemma default_rules_by_language : by_language default_rules.
Proof.
  assert (forallb (λ x : pystr * family, bool_decide (default_families !! language x.1 = Some x.2))
    (map_to_list default_families) = true) as H by (vm_compute; reflexivity).
  rewrite forallb_forall in H.
  intros k f. rewrite default_rules_families, !lookup_fmap, !fmap_Some.
  intros (fam & Hk%elem_of_map_to_list%list_elem_of_In & ->). apply H, bool_decide_eq_true in Hk.
  exists fam. split; [exact Hk|reflexivity].
Qed.

(** * Properties *)

(** Every built-in rule computes the form its documentation gives, for every
    integer: the first documented CLDR condition that holds decides, else "other". *)
Theorem plural_rule_documented fam n : rule_of fam n = first_match (documented fam) n.
Proof.
  destruct fam; cbn [rule_of documented first_match eval_cond eval_operand is_n];
    unfold asian_rule, english_like_rule, french_like_rule, russian_like_rule, polish_rule,
      czech_rule, arabic_rule, lithuanian_rule, latvian_rule, romanian_rule, slovenian_rule;
    rule_cases.
Qed.

(** The forms a translator has to provide: for the counts from 0 on, a rule gives
    exactly the forms listed for its family; Russian, Polish and Czech never give
    "other". *)
Theorem plural_forms_exact fam c : c ∈ forms fam ↔ ∃ n, 0 <= n ∧ rule_of fam n = c.
Proof. split; [apply forms_occur|]. intros (n & Hn & <-). by apply rule_of_forms. Qed.

(** The territory never changes the form: with the built-in registry the form of a
    count in a locale is that of the locale's language, for known and unknown
    locales alike. *)
Theorem plural_by_language d n locale :
  get_plural_form d default_rules n locale = get_plural_form d default_rules n (language locale).
Proof.
  unfold get_plural_form, find_rule. rewrite language_idemp.
  destruct (default_rules !! locale) as [f|] eqn:E; cbn [or_else].
  - rewrite (default_rules_by_language _ _ E). done.
  - by destruct (default_rules !! language locale).
Qed.

(** An unknown language uses the rule of the default locale. *)
Example plural_unknown_language :
  get_plural_form (str "en_US") default_rules 1 (str "xx_YY") = "one"%string ∧
  get_plural_form (str "ja_JP") default_rules 1 (str "xx_YY") = "other"%string.
Proof. split; vm_compute; reflexivity. Qed.

(** A rule registered for a territory replaces that of the language there. *)
Example plural_registered :
  get_plural_form (str "en_US") (register_rule (str "en_GB") (λ _, Err ZeroDivisionError) default_rules)
    1 (str "en_GB") = "other"%string.
Proof. vm_compute. reflexivity. Qed.
End PluralRules.
