(* ===== verification/Fallback.v ===== *)
(** Fallback of missing translations: core/fallback.py, [FallbackPolicy] and
    [FallbackStrategy].

    A translation file is a nested dictionary: an association list, since the code
    iterates over it. Values that are neither strings nor dictionaries are their
    [str()]; the [str()] of a dictionary is a parameter. *)

From S2P Require Import Prelude Bytes Utf8 Str PyDict Plural.

Inductive FallbackPolicy :=
  | KEY_CHAIN | LOCALE_CHAIN | KEY_AND_LOCALE_CHAIN | DEFAULT_ONLY | KEY_ONLY.

#[export] Instance FallbackPolicy_eq_dec : EqDecision FallbackPolicy.
Proof. solve_decision. Defined.

(** [FallbackPolicy(text)]. *)
Definition policy_of (text : string) : res FallbackPolicy :=
  (if decide (text = "key_chain") then Ok KEY_CHAIN
   else if decide (text = "locale_chain") then Ok LOCALE_CHAIN
   else if decide (text = "key_and_locale_chain") then Ok KEY_AND_LOCALE_CHAIN
   else if decide (text = "default_only") then Ok DEFAULT_ONLY
   else if decide (text = "key_only") then Ok KEY_ONLY
   else Err ValueError)%string.

(** A value of a translation dictionary; [TNone] is [null]. *)
Inductive tree :=
  | TNone
  | TStr (s : pystr)
  | TOther (text : pystr)
  | TDict (d : list (pystr * tree)).

Abbreviation dict := (list (pystr * tree)).

Module FallbackStrategy.
Section WithRepr.
Variable dict_repr : dict → pystr.  (* str() of a dictionary *)
Variable rules : gmap pystr (Z → res string).  (* the registry of plural rules *)

(** [str(v)]. *)
Definition py_str (v : tree) : pystr :=
  match v with TNone => str "None" | TStr s => s | TOther t => t | TDict d => dict_repr d end.

(** The loop of [_deep_get]; the result [None] is also the value [None]. *)
Fixpoint deep_get_parts (current : tree) (parts : list pystr) : option tree :=
  match parts with
  | [] => Some current
  | part :: parts' =>
      match current with
      | TDict d =>
          match dict_get d part with
          | None | Some TNone => None
          | Some v => deep_get_parts v parts'
          end
      | _ => None
      end
  end.

Definition deep_get (data : dict) (dot_key : pystr) : option tree :=
  if decide (dot_key = []) then None else deep_get_parts (TDict data) (split_on dot dot_key).

Definition build_locale_chain (locale : pystr) : list pystr :=
  let chain := [locale] in
  let chain :=
    if decide (underscore ∈ locale) then
      let lang := before underscore locale in
      if decide (lang = locale) then chain else chain ++ [lang]
    else chain in
  let chain := if decide (str "en_US" ∈ chain) then chain else chain ++ [str "en_US"] in
  if decide (str "en" ∈ chain) then chain else chain ++ [str "en"].

(** The parameters of a call: the default text, the plural rules (the default locale
    of the instance) and the count. *)
Record query := mk_query {
  default_text : option pystr;
  plural_rules : option pystr;
  count : option Z;
}.

(** [if default is not None: return default; return key]. *)
Definition default_or_key (q : query) (key : pystr) : pystr := default key (default_text q).

(** [plural_form] when there are rules and a count. *)
Definition plural_form (q : query) (locale : pystr) : option pystr :=
  match plural_rules q, count q with
  | Some d, Some n => Some (str (PluralRules.get_plural_form d rules n locale))
  | _, _ => None
  end.

(** The [if]s that look for a form in a dictionary of forms. *)
Definition form_in (d : dict) (form : pystr) : option pystr := py_str <$> dict_get d form.

Fixpoint first_string (d : dict) : option pystr :=
  match d with
  | [] => None
  | (_, TStr s) :: _ => Some s
  | _ :: d' => first_string d'
  end.

(** The keys [".".join(parts[:i])] for [i] from [len(parts)] down to 1. *)
Definition key_chain (key : pystr) : list pystr :=
  let parts := split_on dot key in
  (λ i, join_with dot (take i parts)) <$> reverse (seq 1 (length parts)).

(** [_key_chain_fallback]. *)
Definition key_chain_value (q : query) (locale : pystr) (val : tree) : option pystr :=
  match val with
  | TDict d =>
      match plural_form q locale ≫= form_in d with
      | Some s => Some s
      | None =>
          match form_in d (str "other") with
          | Some s => Some s
          | None => first_string d
          end
      end
  | _ => Some (py_str val)
  end.

Fixpoint key_chain_loop (q : query) (locale : pystr) (data : dict) (keys : list pystr) : option pystr :=
  match keys with
  | [] => None
  | k :: keys' =>
      match deep_get data k with
      | Some val =>
          match key_chain_value q locale val with
          | Some s => Some s
          | None => key_chain_loop q locale data keys'
          end
      | None => key_chain_loop q locale data keys'
      end
  end.

Definition key_chain_fallback (q : query) (key locale : pystr) (translations : list (pystr * dict))
    : pystr :=
  let data := default [] (dict_get translations locale) in
  default (default_or_key q key) (key_chain_loop q locale data (key_chain key)).

(** What the other two strategies return for a value. *)
Definition chain_value (q : query) (loc : pystr) (val : tree) : pystr :=
  match val with
  | TDict d =>
      match plural_form q loc with
      | Some form =>
          match form_in d form with
          | Some s => s
          | None => match form_in d (str "other") with Some s => s | None => py_str val end
          end
      | None => py_str val
      end
  | _ => py_str val
  end.

(** [_locale_chain_fallback]. *)
Fixpoint locale_loop (q : query) (key : pystr) (translations : list (pystr * dict)) (locs : list pystr)
    : option pystr :=
  match locs with
  | [] => None
  | loc :: locs' =>
      match dict_get translations loc with
      | None | Some [] => locale_loop q key translations locs'
      | Some data =>
          match deep_get data key with
          | Some val => Some (chain_value q loc val)
          | None => locale_loop q key translations locs'
          end
      end
  end.

Definition locale_chain_fallback (q : query) (key locale : pystr) (translations : list (pystr * dict))
    : pystr :=
  default (default_or_key q key) (locale_loop q key translations (build_locale_chain locale)).

(** [_combined_fallback]: for each locale the key and its parents. *)
Fixpoint parents_loop (q : query) (loc : pystr) (data : dict) (keys : list pystr) : option pystr :=
  match keys with
  | [] => None
  | k :: keys' =>
      match deep_get data k with
      | Some val => Some (chain_value q loc val)
      | None => parents_loop q loc data keys'
      end
  end.

Fixpoint combined_loop (q : query) (key : pystr) (translations : list (pystr * dict)) (locs : list pystr)
    : option pystr :=
  match locs with
  | [] => None
  | loc :: locs' =>
      match parents_loop q loc (default [] (dict_get translations loc)) (key_chain key) with
      | Some s => Some s
      | None => combined_loop q key translations locs'
      end
  end.

Definition combined_fallback (q : query) (key locale : pystr) (translations : list (pystr * dict))
    : pystr :=
  default (default_or_key q key) (combined_loop q key translations (build_locale_chain locale)).

Definition resolve (policy : FallbackPolicy) (q : query) (key locale : pystr)
    (translations : list (pystr * dict)) : pystr :=
  match policy with
  | KEY_ONLY => key
  | DEFAULT_ONLY => default_or_key q key
  | KEY_CHAIN => key_chain_fallback q key locale translations
  | LOCALE_CHAIN => locale_chain_fallback q key locale translations
  | KEY_AND_LOCALE_CHAIN => combined_fallback q key locale translations
  end.

(** [__init__] with a policy name: an unknown one is replaced. *)
Definition init (text : string) : FallbackPolicy :=
  match policy_of text with Ok p => p | Err _ => KEY_AND_LOCALE_CHAIN end.

(** [set_policy] with a name lets the error through. *)
Definition set_policy (text : string) : method FallbackPolicy () := λ s,
  match policy_of text with Ok p => (p, Ok ()) | Err e => (s, Err e) end.

(** * Lemmas *)

Lemma deep_get_join data ps :
  ps ≠ [] → Forall (λ p, dot ∉ p) ps → join_with dot ps ≠ [] →
  deep_get data (join_with dot ps) = deep_get_parts (TDict data) ps.
Proof. intros. unfold deep_get. rewrite decide_False by done. by rewrite split_join. Qed.

(** One more step down a path. *)
Lemma deep_get_parts_snoc t ps leaf :
  deep_get_parts t (ps ++ [leaf]) =
  deep_get_parts t ps ≫= λ v, deep_get_parts v [leaf].
Proof.
  revert t. induction ps as [|p ps IH]; intros t; [done|]. cbn [app deep_get_parts].
  destruct t as [| | |d]; try done. destruct (dict_get d p) as [[]|]; try done; apply IH.
Qed.

Lemma join_with_nonempty ps p : ps ≠ [] → join_with dot (ps ++ [p]) ≠ [].
Proof. destruct ps as [|q [|q' ps]]; [done|..]; cbn; intros _; destruct q; done. Qed.

Lemma key_chain_snoc ps leaf :
  ps ≠ [] → Forall (λ p, dot ∉ p) (ps ++ [leaf]) →
  ∃ rest, key_chain (join_with dot (ps ++ [leaf])) =
          join_with dot (ps ++ [leaf]) :: join_with dot ps :: rest.
Proof.
  intros Hne Hps. unfold key_chain. rewrite split_join by (done || by destruct ps).
  rewrite length_app. cbn [length].
  destruct (exists_last Hne) as (ps0 & p & ->).
  rewrite length_app. cbn [length].
  replace (length ps0 + 1 + 1)%nat with (S (S (length ps0))) by lia.
  rewrite !seq_S, !reverse_app. cbn [reverse rev_append app fmap list_fmap].
  eexists. f_equal; [|f_equal].
  - rewrite take_ge; [done|]. rewrite !length_app. cbn. lia.
  - f_equal. rewrite take_app_le by (rewrite length_app; cbn; lia).
    rewrite take_ge; [done|]. rewrite length_app. cbn. lia.
Qed.

Lemma locale_loop_skip q key translations l1 l2 :
  Forall (λ loc, deep_get (default [] (dict_get translations loc)) key = None) l1 →
  locale_loop q key translations (l1 ++ l2) = locale_loop q key translations l2.
Proof.
  induction 1 as [|loc l1 Hl _ IH]; [done|]. cbn [app locale_loop].
  destruct (dict_get translations loc) as [[|x data]|]; [done| |done].
  change (deep_get (x :: data) key = None) in Hl. by rewrite Hl.
Qed.

(** * Properties *)

(** The locale chain starts with the locale itself, goes on with its language,
    ends with English, and never tries a locale twice. *)
Theorem locale_chain_spec locale :
  let chain := build_locale_chain locale in
  NoDup chain ∧ head chain = Some locale ∧ before underscore locale ∈ chain ∧
  str "en_US" ∈ chain ∧ str "en" ∈ chain.
Proof.
  unfold build_locale_chain. cbv zeta.
  set (c1 := if decide (underscore ∈ locale) then
    if decide (before underscore locale = locale) then [locale] else [locale] ++ [before underscore locale]
    else [locale]).
  assert (NoDup c1 ∧ head c1 = Some locale ∧ before underscore locale ∈ c1) as (Hn & Hh & Hb).
  { unfold c1. repeat case_decide; split_and!; try done.
    - apply NoDup_singleton.
    - apply list_elem_of_singleton. congruence.
    - apply NoDup_cons; split; [|apply NoDup_singleton]. rewrite list_elem_of_singleton. congruence.
    - by right; left.
    - apply NoDup_singleton.
    - apply list_elem_of_singleton. by rewrite before_self. }
  clearbody c1.
  assert (∀ x (l : list pystr), NoDup l ∧ head l = Some locale ∧ before underscore locale ∈ l →
    let l' := if decide (x ∈ l) then l else l ++ [x] in
    (NoDup l' ∧ head l' = Some locale ∧ before underscore locale ∈ l') ∧ x ∈ l' ∧ ∀ y, y ∈ l → y ∈ l') as Hadd.
  { intros x l (Hl & Hhl & Hbl). cbv zeta. case_decide as Hx; [done|]. split_and!.
    - apply NoDup_app. split_and!; [done| |apply NoDup_singleton].
      intros y Hy ->%list_elem_of_singleton. done.
    - by destruct l.
    - apply elem_of_app. by left.
    - apply elem_of_app. right. by left.
    - intros y ?. apply elem_of_app. by left. }
  destruct (Hadd (str "en_US") c1) as (H1 & Hus & _); [done|].
  destruct (Hadd (str "en") _ H1) as ((? & ? & ?) & ? & Hk). split_and!; try done. by apply Hk.
Qed.

(** With the locale chain policy the text comes from the first locale of the chain
    that has the key; when no locale of the chain has it, it is the default text, or
    the key. *)
Theorem locale_chain_first_hit q key locale translations :
  (∀ l1 loc l2 s,
     build_locale_chain locale = l1 ++ loc :: l2 →
     Forall (λ loc, deep_get (default [] (dict_get translations loc)) key = None) l1 →
     deep_get (default [] (dict_get translations loc)) key = Some (TStr s) →
     resolve LOCALE_CHAIN q key locale translations = s) ∧
  (Forall (λ loc, deep_get (default [] (dict_get translations loc)) key = None)
     (build_locale_chain locale) →
   resolve LOCALE_CHAIN q key locale translations = default_or_key q key).
Proof.
  unfold resolve, locale_chain_fallback. split.
  - intros l1 loc l2 s -> Hl1 Hloc. rewrite locale_loop_skip by done. cbn [locale_loop].
    assert (deep_get [] key ≠ Some (TStr s)) as Hempty.
    { unfold deep_get. case_decide; [done|]. by destruct (split_on dot key). }
    destruct (dict_get translations loc) as [[|x data]|]; [done| |done].
    change (deep_get (x :: data) key = Some (TStr s)) in Hloc. by rewrite Hloc.
  - intros Hall. rewrite <-(app_nil_r (build_locale_chain locale)), locale_loop_skip by done. done.
Qed.

(** With the default policy a missing entry of an existing group is not looked up
    in the other locales, nor replaced by the default text: what the caller gets is
    the printed form of the group's dictionary. *)
Theorem combined_returns_group q group leaf locale translations d :
  group ≠ [] → Forall (λ p, dot ∉ p) (group ++ [leaf]) → join_with dot group ≠ [] →
  deep_get (default [] (dict_get translations locale)) (join_with dot group) = Some (TDict d) →
  (dict_get d leaf = None ∨ dict_get d leaf = Some TNone) → count q = None →
  resolve KEY_AND_LOCALE_CHAIN q (join_with dot (group ++ [leaf])) locale translations = dict_repr d.
Proof.
  intros Hg Hps Hj Hgroup Hleaf Hcount. unfold resolve, combined_fallback.
  set (data := default [] (dict_get translations locale)) in *.
  assert (deep_get data (join_with dot (group ++ [leaf])) = None) as Hmiss.
  { rewrite deep_get_join by (try apply join_with_nonempty; try done; by destruct group).
    apply Forall_app in Hps as [Hps _]. rewrite deep_get_join in Hgroup by done.
    rewrite deep_get_parts_snoc, Hgroup. cbn. by destruct Hleaf as [-> | ->]. }
  assert (∃ rest, build_locale_chain locale = locale :: rest) as [rest ->].
  { unfold build_locale_chain. repeat case_decide; cbn; by eexists. }
  cbn [combined_loop]. fold data.
  destruct (key_chain_snoc group leaf Hg Hps) as [keys ->].
  cbn [parents_loop]. rewrite Hmiss, Hgroup. unfold chain_value, plural_form. rewrite Hcount.
  by destruct (plural_rules q).
Qed.
End WithRepr.

(** A message missing in French and present in English. *)
Definition sample_translations : list (pystr * dict) :=
  [(str "fr_FR", [(str "errors", TDict [(str "network", TStr (str "Erreur"))])]);
   (str "en_US", [(str "errors", TDict [(str "disk", TStr (str "Disk error"))])])].
Definition no_query : query := mk_query None None None.

Lemma combined_returns_group_witness :
  resolve (λ d, str "{...}") ∅ KEY_AND_LOCALE_CHAIN no_query
    (join_with dot ([str "errors"] ++ [str "disk"])) (str "fr_FR") sample_translations = str "{...}".
Proof.
  apply (combined_returns_group (λ d, str "{...}") ∅ no_query [str "errors"] (str "disk") (str "fr_FR")
           sample_translations [(str "network", TStr (str "Erreur"))]); try done.
  - repeat constructor; vm_compute; set_solver.
  - by left.
Defined.

Lemma locale_chain_first_hit_witness :
  resolve (λ d, str "{...}") ∅ LOCALE_CHAIN no_query (str "errors.disk") (str "fr_FR")
    sample_translations = str "Disk error".
Proof.
  apply (proj1 (locale_chain_first_hit (λ d, str "{...}") ∅ no_query (str "errors.disk") (str "fr_FR")
    sample_translations) [str "fr_FR"; str "fr"] (str "en_US") [str "en"]); [vm_compute; reflexivity| |].
  - repeat constructor.
  - vm_compute. reflexivity.
Defined.
End FallbackStrategy.
