(* ===== verification/Locale.v ===== *)
(** Locales: core/locale.py, [SUPPORTED_LOCALES] and [LocaleManager].

    The metadata of a locale is a record of texts. The system locale, the environment and the
    conversion of a quality value to a number are arguments. *)

From stdpp Require Import sorting.
From S2P Require Import Prelude Bytes Utf8 Str PyDict Plural.

(** [LocaleInfo] without the code; its texts in UTF-8. *)
Record locale_meta := mk_meta {
  m_language : string;
  m_language_code : string;
  m_region : string;
  m_region_code : string;
  m_script : string;
  m_direction : string;
  m_plural_forms : list string;
  m_decimal_sep : string;
  m_grouping_sep : string;
  m_currency_symbol : string;
  m_currency_code : string;
  m_date_format : string;
  m_time_format : string;
  m_date_time_format : string;
  m_first_day_of_week : Z;
}.

(** The entries of the dictionary, in its order. *)
Definition SUPPORTED_LOCALES : list (pystr * locale_meta) :=
  ((λ x : string * locale_meta, (str x.1, x.2)) <$> [
   ("zh_CN", mk_meta "Chinese" "zh" "China" "CN" "Hans" "ltr"
     ["other"] "." "," "¥" "CNY"
     "YYYY-MM-DD" "HH:mm:ss" "YYYY-MM-DD HH:mm:ss" 1);
   ("en_US", mk_meta "English" "en" "United States" "US" "Latn" "ltr"
     ["one"; "other"] "." "," "$" "USD"
     "MM/DD/YYYY" "hh:mm:ss A" "MM/DD/YYYY hh:mm:ss A" 0);
   ("ja_JP", mk_meta "Japanese" "ja" "Japan" "JP" "Jpan" "ltr"
     ["other"] "." "," "¥" "JPY"
     "YYYY年MM月DD日" "HH:mm:ss" "YYYY年MM月DD日 HH:mm:ss" 1);
   ("ko_KR", mk_meta "Korean" "ko" "South Korea" "KR" "Kore" "ltr"
     ["other"] "." "," "₩" "KRW"
     "YYYY-MM-DD" "HH:mm:ss" "YYYY-MM-DD HH:mm:ss" 1);
   ("fr_FR", mk_meta "French" "fr" "France" "FR" "Latn" "ltr"
     ["one"; "other"] "," " " "€" "EUR"
     "DD/MM/YYYY" "HH:mm:ss" "DD/MM/YYYY HH:mm:ss" 1);
   ("de_DE", mk_meta "German" "de" "Germany" "DE" "Latn" "ltr"
     ["one"; "other"] "," "." "€" "EUR"
     "DD.MM.YYYY" "HH:mm:ss" "DD.MM.YYYY HH:mm:ss" 1);
   ("es_ES", mk_meta "Spanish" "es" "Spain" "ES" "Latn" "ltr"
     ["one"; "other"] "," "." "€" "EUR"
     "DD/MM/YYYY" "H:mm:ss" "DD/MM/YYYY H:mm:ss" 1);
   ("ru_RU", mk_meta "Russian" "ru" "Russia" "RU" "Cyrl" "ltr"
     ["one"; "few"; "many"; "other"] "," " " "₽" "RUB"
     "DD.MM.YYYY" "HH:mm:ss" "DD.MM.YYYY HH:mm:ss" 1);
   ("ar_SA", mk_meta "Arabic" "ar" "Saudi Arabia" "SA" "Arab" "rtl"
     ["zero"; "one"; "two"; "few"; "many"; "other"] "." "," "﷼" "SAR"
     "DD/MM/YYYY" "hh:mm:ss A" "DD/MM/YYYY hh:mm:ss A" 6);
   ("pt_BR", mk_meta "Portuguese" "pt" "Brazil" "BR" "Latn" "ltr"
     ["one"; "other"] "," "." "R$" "BRL"
     "DD/MM/YYYY" "HH:mm:ss" "DD/MM/YYYY HH:mm:ss" 0)])%string.

Definition codes : list pystr := SUPPORTED_LOCALES.*1.
Abbreviation supported l := (l ∈ codes).

Definition lang_to_default : list (pystr * pystr) :=
  ((λ x : string * string, (str x.1, str x.2)) <$>
   [("zh", "zh_CN"); ("en", "en_US"); ("ja", "ja_JP"); ("ko", "ko_KR"); ("fr", "fr_FR");
    ("de", "de_DE"); ("es", "es_ES"); ("ru", "ru_RU"); ("ar", "ar_SA"); ("pt", "pt_BR")])%string.

(** The first part of two or four characters, in upper case. *)
Fixpoint find_region (parts : list pystr) : option pystr :=
  match parts with
  | [] => None
  | p :: parts' => if (len p =? 2) || (len p =? 4) then Some (upper p) else find_region parts'
  end.

Definition normalize (locale : pystr) : pystr :=
  let parts := split_on underscore (replace_char hyphen underscore locale) in
  let normalized :=
    match parts with
    | [] => []
    | [p] => lower p
    | p :: rest =>
        match find_region rest with
        | Some region => lower p ++ underscore :: region
        | None => lower p
        end
    end in
  match dict_get lang_to_default normalized with
  | Some l => if decide (supported normalized) then normalized else l
  | None => normalized
  end.

(** * Lemmas on the normal form *)

(** The first half of [normalize]. *)
Definition joined (locale : pystr) : pystr :=
  match split_on underscore (replace_char hyphen underscore locale) with
  | [] => []
  | [p] => lower p
  | p :: rest =>
      match find_region rest with
      | Some region => lower p ++ underscore :: region
      | None => lower p
      end
  end.

Lemma normalize_joined l :
  normalize l =
  match dict_get lang_to_default (joined l) with
  | Some l' => if decide (supported (joined l)) then joined l else l'
  | None => joined l
  end.
Proof. done. Qed.

Lemma find_region_some parts r :
  find_region parts = Some r → ∃ p, p ∈ parts ∧ r = upper p ∧ (len p = 2 ∨ len p = 4).
Proof.
  induction parts as [|p parts IH]; [done|]. cbn [find_region]. case_match.
  - intros [= <-]. exists p. split; [left|]. split; [done|lia].
  - intros (q & Hq & ?)%IH. exists q. split; [by right|done].
Qed.

(** A part of a split string: no separator, no hyphen. *)
Lemma parts_clean l p :
  p ∈ split_on underscore (replace_char hyphen underscore l) → (underscore ∉ p) ∧ (hyphen ∉ p).
Proof.
  intros Hp. pose proof (split_on_pieces underscore (replace_char hyphen underscore l)) as H1.
  pose proof (split_on_chars underscore (replace_char hyphen underscore l)) as H2.
  rewrite Forall_forall in H1, H2. split; [by apply H1|].
  intros Hh%(H2 p Hp). by apply replace_char_removes in Hh.
Qed.

Lemma joined_single p : underscore ∉ p → hyphen ∉ p → joined (lower p) = lower p.
Proof.
  intros Hu Hh. unfold joined. rewrite replace_char_absent by (by apply lower_no_char).
  rewrite split_on_single by (by apply lower_no_char). apply lower_idemp.
Qed.

Lemma joined_pair p q :
  underscore ∉ p → hyphen ∉ p → underscore ∉ q → hyphen ∉ q → len q = 2 ∨ len q = 4 →
  joined (lower p ++ underscore :: upper q) = lower p ++ underscore :: upper q.
Proof.
  intros. unfold joined. rewrite replace_char_absent.
  - rewrite split_on_app by (by apply lower_no_char).
    rewrite split_on_single by (apply upper_no_char; [right; done|done]). cbn [find_region].
    rewrite length_upper. if_true. by rewrite lower_idemp, upper_idemp.
  - rewrite not_elem_of_app, not_elem_of_cons. split_and!; [by apply lower_no_char|done|].
    apply upper_no_char; [left; done|done].
Qed.

Lemma joined_idemp l : joined (joined l) = joined l.
Proof.
  unfold joined at 2 3. pose proof (parts_clean l) as Hc.
  destruct (split_on underscore (replace_char hyphen underscore l)) as [|p [|q rest]]; [done| |].
  - destruct (Hc p) as [? ?]; [left|]. by apply joined_single.
  - destruct (Hc p) as [? ?]; [left|].
    destruct (find_region (q :: rest)) as [r|] eqn:E; [|by apply joined_single].
    apply find_region_some in E as (q' & Hq' & -> & ?).
    destruct (Hc q') as [? ?]; [by right|]. by apply joined_pair.
Qed.

Lemma normalize_code code : supported code → normalize code = code.
Proof.
  assert (forallb (λ code, bool_decide (normalize code = code)) codes = true) as H by (vm_compute; reflexivity).
  rewrite forallb_forall in H. intros Hc%list_elem_of_In%H. by apply bool_decide_eq_true in Hc.
Qed.

Lemma lang_default_supported k l : dict_get lang_to_default k = Some l → supported l.
Proof.
  intros H. assert (l ∈ lang_to_default.*2) as Hl.
  { revert H. generalize lang_to_default. induction l0 as [|[k' v] l0 IH]; [done|]. cbn.
    case_decide; [intros [= <-]; left|intros ?; right; by apply IH]. }
  assert (forallb (λ l, bool_decide (supported l)) lang_to_default.*2 = true) as Hall by (vm_compute; reflexivity).
  rewrite forallb_forall in Hall. apply list_elem_of_In, Hall in Hl. by apply bool_decide_eq_true in Hl.
Qed.

(** * Properties of the normal form *)

(** Normalising twice is normalising once. *)
Theorem normalize_idempotent l : normalize (normalize l) = normalize l.
Proof.
  rewrite (normalize_joined l). destruct (dict_get lang_to_default (joined l)) as [l'|] eqn:E.
  - apply lang_default_supported in E as Hl'.
    case_decide; by apply normalize_code.
  - by rewrite normalize_joined, joined_idemp, E.
Qed.

(** However a supported code is written (any case, hyphens or underscores) it is
    recognised. *)
Theorem normalize_recognises code l :
  supported code → lower (replace_char hyphen underscore l) = lower code → normalize l = code.
Proof.
  intros Hc Hl. rewrite <-(normalize_code code Hc). rewrite !normalize_joined.
  assert (joined l = joined code) as ->; [|done].
  assert (replace_char hyphen underscore code = code) as Hr.
  { assert (forallb (λ c, bool_decide (replace_char hyphen underscore c = c)) codes = true) as H by (vm_compute; reflexivity).
    rewrite forallb_forall in H. apply list_elem_of_In, H in Hc. by apply bool_decide_eq_true in Hc. }
  unfold joined. rewrite Hr. set (n := replace_char hyphen underscore l) in *.
  assert (lower <$> split_on underscore n = lower <$> split_on underscore code) as Hs.
  { rewrite <-!split_on_lower by (right; done). by rewrite Hl. }
  assert (∀ ps qs, lower <$> ps = lower <$> qs → find_region ps = find_region qs) as Hreg.
  { induction ps as [|p ps IH]; intros [|q qs]; cbn [fmap list_fmap]; try done. intros [= Hpq Hps].
    cbn [find_region]. rewrite <-(length_lower p), <-(length_lower q), Hpq, (IH qs Hps).
    by rewrite <-(upper_lower p), <-(upper_lower q), Hpq. }
  destruct (split_on underscore n) as [|p [|q rest]], (split_on underscore code) as [|p' [|q' rest']];
    cbn [fmap list_fmap] in Hs; try discriminate Hs; [done| |].
  - by injection Hs.
  - injection Hs as Hp Hq Hrest. rewrite Hp, (Hreg (q :: rest) (q' :: rest')); [done|].
    cbn [fmap list_fmap]. congruence.
Qed.

Lemma normalize_recognises_witness :
  supported (str "pt_BR") ∧ normalize (str "PT-br") = str "pt_BR".
Proof.
  assert (supported (str "pt_BR")) as Hs by (apply (bool_decide_unpack _); vm_compute; exact I).
  split; [exact Hs|]. apply (normalize_recognises (str "pt_BR")); [exact Hs|vm_compute; reflexivity].
Defined.

(** The script of a longer tag is taken for the region. *)
Example normalize_script : normalize (str "zh-Hans-CN") = str "zh_HANS".
Proof. vm_compute. reflexivity. Qed.

Module LocaleManager.
Record t := mk {
  default_locale : pystr;
  current_locale : pystr;
  locale_stack : list pystr;
}.

Definition init (default : pystr) : t := mk default default [].
Definition with_current (l : pystr) (s : t) : t := mk (default_locale s) l (locale_stack s).

Definition set_locale (locale : pystr) : method t pystr := λ s,
  let normalized := normalize locale in
  if decide (supported normalized) then (with_current normalized s, Ok normalized)
  else (s, Err ValueError).

Definition push_locale (locale : pystr) : method t pystr :=
  let! s := m_get in
  let! _ := m_put (mk (default_locale s) (current_locale s) (locale_stack s ++ [current_locale s])) in
  set_locale locale.

Definition pop_locale : method t pystr :=
  let! s := m_get in
  let! r := m_lift (py_pop (locale_stack s)) in
  let '(previous, rest) := r in
  let! _ := m_put (mk (default_locale s) previous rest) in
  m_ret previous.

(** The first supported code that starts with the language. *)
Definition match_language (lang : pystr) : option pystr :=
  List.find (λ code, startswith lang code) codes.

(** [sys]: what [getdefaultlocale] returns, [Err] if it raises; [env]: the value of
    [LANG or LC_ALL or LC_MESSAGES]. *)
Definition detect_locale (sys : res (option pystr)) (env : option pystr) : method t pystr := λ s,
  let found l := (with_current l s, Ok l) in
  let from_env :=
    match env with
    | Some ((_ :: _) as e) =>
        if decide (supported (normalize e)) then found (normalize e) else found (default_locale s)
    | _ => found (default_locale s)
    end in
  match sys with
  | Ok (Some ((_ :: _) as l)) =>
      if decide (supported (normalize l)) then found (normalize l)
      else match match_language (lower (before underscore l)) with
           | Some code => found code
           | None => from_env
           end
  | _ => from_env
  end.

Section AcceptLanguage.
Variable Quality : Type.
Variable one : Quality.
Variable at_least : Quality → Quality → bool.  (* >= *)
Variable float : pystr → option Quality.       (* None: ValueError *)

(** One part of the header. *)
Definition parse_language (part : pystr) : option (pystr * Quality) :=
  let part := strip part in
  if decide (part = []) then None
  else if decide (59 ∈ part) then
    let '(lang, q) := split_first 59 part in
    let q := strip q in
    Some (lang, if decide (61 ∈ q) then
                  match split_on 61 q with
                  | _ :: v :: _ => default one (float v)
                  | _ => one
                  end
                else one)
  else Some (part, one).

(** [sort(key=quality, reverse=True)]: stable, the largest first. *)
Fixpoint insert_quality (x : pystr * Quality) (l : list (pystr * Quality)) : list (pystr * Quality) :=
  match l with
  | [] => [x]
  | y :: l' => if at_least x.2 y.2 then x :: l else y :: insert_quality x l'
  end.
Definition sort_quality (l : list (pystr * Quality)) : list (pystr * Quality) :=
  foldr insert_quality [] l.

Fixpoint first_supported (default_locale : pystr) (langs : list (pystr * Quality)) : pystr :=
  match langs with
  | [] => default_locale
  | (lang, _) :: langs' =>
      if decide (supported (normalize lang)) then normalize lang
      else match match_language (lower (before hyphen lang)) with
           | Some code => code
           | None => first_supported default_locale langs'
           end
  end.

Definition detect_locale_from_accept_language (header : pystr) (s : t) : pystr :=
  if decide (header = []) then default_locale s
  else first_supported (default_locale s) (sort_quality (omap parse_language (split_on 44 header))).
End AcceptLanguage.

(** [locale or self._current_locale], then the entry of the table. *)
Definition get_locale_info (locale : option pystr) (s : t) : res (pystr * locale_meta) :=
  let code := match locale with Some ((_ :: _) as l) => l | _ => current_locale s end in
  match dict_get SUPPORTED_LOCALES code with
  | Some raw => Ok (code, raw)
  | None => Err ValueError
  end.

Definition is_supported (locale : pystr) : bool := bool_decide (supported (normalize locale)).

Definition is_rtl (locale : option pystr) (s : t) : res bool :=
  info ← get_locale_info locale s; Ok (bool_decide (m_direction info.2 = "rtl"%string)).

(** [^[a-z]{2,3}(_[A-Z]{2})?$]; the dollar sign also matches before a final newline. *)
Definition is_az (c : Z) : bool := (97 <=? c) && (c <=? 122).
Definition is_AZ (c : Z) : bool := (65 <=? c) && (c <=? 90).
Definition at_end (l : pystr) : bool := match l with [] => true | [c] => c =? 10 | _ => false end.
Definition region_end (l : pystr) : bool :=
  at_end l ||
  match l with
  | u :: a :: b :: l' => (u =? underscore) && is_AZ a && is_AZ b && at_end l'
  | _ => false
  end.
Definition validate_locale_code (code : pystr) : bool :=
  match code with
  | a :: b :: l =>
      is_az a && is_az b &&
      (match l with c :: l' => is_az c && region_end l' | [] => false end || region_end l)
  | _ => false
  end.

(** * Properties of the manager *)

(** A locale the manager may be in. *)
Definition known (s : t) (l : pystr) : Prop := supported l ∨ l = default_locale s.

Lemma match_language_supported lang code : match_language lang = Some code → supported code.
Proof. intros [H _]%find_some. by apply list_elem_of_In. Qed.

(** A temporary switch. After a successful [push_locale] a [pop_locale] restores
    the manager exactly. After one that raises, the locale is the same but the stack
    has grown: the next [pop_locale] gives back the current locale instead of the one
    that was saved before it. *)
Theorem locale_push_pop l s :
  let '(s1, out) := push_locale l s in
  match out with
  | Ok n => n = normalize l ∧ supported n ∧ current_locale s1 = n ∧
            pop_locale s1 = (s, Ok (current_locale s))
  | Err e => e = ValueError ∧ ¬ supported (normalize l) ∧ current_locale s1 = current_locale s ∧
             pop_locale s1 = (s, Ok (current_locale s)) ∧
             locale_stack s1 = locale_stack s ++ [current_locale s]
  end.
Proof.
  unfold push_locale, pop_locale, set_locale, m_bind, m_get, m_put, m_lift, m_ret.
  case_decide as Hn; cbn [locale_stack with_current current_locale default_locale];
    rewrite py_pop_snoc; by destruct s.
Qed.

(** Whatever the system, the environment or a browser's header say, detection
    gives a supported locale or the default one. *)
Theorem detection_known sys env header Quality (one : Quality) at_least float s :
  known s (detect_locale_from_accept_language Quality one at_least float header s) ∧
  let '(s', out) := detect_locale sys env s in
  out = Ok (current_locale s') ∧ known s (current_locale s') ∧
  locale_stack s' = locale_stack s ∧ default_locale s' = default_locale s.
Proof.
  split.
  - unfold detect_locale_from_accept_language. case_decide; [by right|].
    induction (sort_quality _ _ _) as [|[lang q] langs IH]; cbn [first_supported]; [by right|].
    case_decide; [by left|]. destruct (match_language _) as [code|] eqn:E; [|done].
    left. by eapply match_language_supported.
  - assert (∀ l, known s l →
      let '(s', out) := (with_current l s, @Ok pystr l) in
      out = Ok (current_locale s') ∧ known s (current_locale s') ∧
      locale_stack s' = locale_stack s ∧ default_locale s' = default_locale s) as H by (by intros).
    assert (known s (default_locale s)) as Hd by by right.
    unfold detect_locale. destruct sys as [[[|c l]|]|].
    2: case_decide as Hs; [by apply H; left|];
       destruct (match_language _) as [code|] eqn:E;
       [apply H; left; by eapply match_language_supported|].
    all: destruct env as [[|c' e']|]; [by apply H| |by apply H].
    all: case_decide; apply H; [by left|done].
Qed.

(** The table of locales and the plural rules agree: for every supported locale the
    form of a count is one of the forms its entry lists, so a translation that
    provides them all is never asked for another one. *)
Theorem plural_forms_listed code meta d n :
  (code, meta) ∈ SUPPORTED_LOCALES → 0 <= n →
  PluralRules.get_plural_form d PluralRules.default_rules n code ∈ m_plural_forms meta.
Proof.
  intros Hin Hn.
  assert (forallb (λ x, match PluralRules.default_families !! x.1 with
      | Some fam => bool_decide (PluralRules.forms fam ⊆ m_plural_forms x.2)
      | None => false end) SUPPORTED_LOCALES = true) as H by (vm_compute; reflexivity).
  rewrite forallb_forall in H. apply list_elem_of_In, H in Hin. cbn [fst snd] in Hin.
  destruct (PluralRules.default_families !! code) as [fam|] eqn:E; [|done].
  apply bool_decide_eq_true in Hin.
  assert (PluralRules.default_rules !! code = Some (PluralRules.builtin (rule_of fam))) as Hr.
  { rewrite PluralRules.default_rules_families, lookup_fmap, E. reflexivity. }
  unfold PluralRules.get_plural_form, PluralRules.find_rule. rewrite Hr. cbn [PluralRules.or_else].
  unfold PluralRules.builtin. by apply Hin, PluralRules.rule_of_forms.
Qed.

Lemma plural_forms_listed_witness :
  PluralRules.get_plural_form (str "en_US") PluralRules.default_rules 22 (str "ru_RU")
  ∈ ["one"; "few"; "many"; "other"]%string.
Proof.
  apply (plural_forms_listed (str "ru_RU")
    (mk_meta "Russian" "ru" "Russia" "RU" "Cyrl" "ltr" ["one"; "few"; "many"; "other"] "," " " "₽" "RUB"
       "DD.MM.YYYY" "HH:mm:ss" "DD.MM.YYYY HH:mm:ss" 1)%string); [|lia].
  apply (list_elem_of_lookup_2 _ 7). reflexivity.
Defined.

Example accept_language :
  detect_locale_from_accept_language Z 10 Z.geb
    (λ v, match v with [48; 46; d] => Some (d - 48) | _ => None end)
    (str "de;q=0.5, pt-br;q=0.9") (init (str "en_US")) = str "pt_BR".
Proof. vm_compute. reflexivity. Qed.
End LocaleManager.
