(* ===== verification/SqlTypes.v ===== *)
(** The data types of SQL columns: database/src/sql/types.py.

    A value is any Python object a statement can carry; what is neither a number, a
    text, a date nor a sequence is [VOther], which every type refuses. A [datetime]
    is also a [date], a [bool] is also an [int]. The calendar's texts and the local
    time zone are the class [Host]. Floats are binary64 patterns; the NaNs of two
    values are different objects. *)

From S2P Require Import Prelude Bytes Utf8 Str PyNum.

(** [datetime] and the texts of floats and dates. *)
Class Host := {
  datetime : Type;
  datetime_eq : datetime → datetime → bool;
  datetime_lt : datetime → datetime → res bool;
  toordinal : datetime → Z;
  to_micros : datetime → res Z;           (* int(dt.timestamp() * 1_000_000) *)
  of_micros : Z → res datetime;           (* datetime.fromtimestamp(ts / 1_000_000) *)
  fromtimestamp_int : Z → res datetime;
  fromtimestamp_float : Z → res datetime;
  datetime_fromiso : pystr → option datetime;
  date_fromiso : pystr → option Z;
  float_of_str : pystr → option Z;
  str_of_float : Z → pystr;
}.

(** The columns' types. *)
Inductive DataType :=
  | NullType
  | IntegerType
  | FloatType
  | VarcharType (max_length : Z)
  | TextType
  | BooleanType
  | TimestampType
  | DateType
  | ArrayType (element_type : DataType).

Module DataType.
Section WithHost.
Context `{HO : Host}.

Inductive value :=
  | VNone
  | VBool (b : bool)
  | VInt (z : Z)
  | VFloat (bits : Z)
  | VStr (s : pystr)
  | VDatetime (d : datetime)
  | VDate (ordinal : Z)
  | VList (l : list value)
  | VTuple (l : list value)
  | VOther.

Definition int32 (z : Z) : bool := (-2147483648 <=? z) && (z <=? 2147483647).

(** [bool] as an [int]. *)
Definition bool_int (b : bool) : Z := if b then 1 else 0.

Fixpoint validate (t : DataType) (v : value) : bool :=
  match t with
  | NullType => match v with VNone => true | _ => false end
  | IntegerType => match v with VBool b => true | VInt z => int32 z | _ => false end
  | FloatType => match v with VBool _ | VInt _ | VFloat _ => true | _ => false end
  | VarcharType max_length => match v with VStr s => len s <=? max_length | _ => false end
  | TextType => match v with VStr _ => true | _ => false end
  | BooleanType => match v with VBool _ => true | _ => false end
  | TimestampType => match v with VDatetime _ => true | _ => false end
  | DateType => match v with VDatetime _ | VDate _ => true | _ => false end
  | ArrayType element_type =>
      match v with VList l | VTuple l => forallb (validate element_type) l | _ => false end
  end.

Definition checked_int32 (z : Z) : res value := if int32 z then Ok (VInt z) else Err TypeError.

(** [except ValueError: raise TypeError]. *)
Definition or_type_error {A B} (f : A → B) (m : option A) : res B :=
  match m with Some a => Ok (f a) | None => Err TypeError end.

(** [str] of a number. *)
Definition str_of_number (v : value) : res pystr :=
  match v with
  | VBool b => Ok (str (if b then "True" else "False"))
  | VInt z => str_of_int z
  | VFloat f => Ok (str_of_float f)
  | _ => Err TypeError
  end.

(** [value if len(value) <= self.max_length else value[:self.max_length]]. *)
Definition cut (max_length : Z) (s : pystr) : pystr :=
  if len s <=? max_length then s else py_slice s 0 max_length.

(** [date.fromordinal]. *)
Definition fromordinal (n : Z) : res value :=
  if (2 ^ 31 <=? n) || (n <? - 2 ^ 31) then Err OverflowError
  else if (1 <=? n) && (n <=? 3652059) then Ok (VDate n) else Err ValueError.

Definition bool_of_str (s : pystr) : option bool :=
  let s := lower s in
  if bool_decide (s ∈ str <$> ["true"; "1"; "yes"]%string) then Some true
  else if bool_decide (s ∈ str <$> ["false"; "0"; "no"]%string) then Some false
  else None.

Definition coerce_null (v : value) : res value :=
  match v with VNone => Ok VNone | _ => Err TypeError end.

Definition coerce_integer (v : value) : res value :=
  match v with
  | VBool b => Ok (VBool b)
  | VInt z => checked_int32 z
  | VFloat f => z ← int_of_float f; checked_int32 z
  | VStr s => z ← or_type_error id (py_int s); checked_int32 z
  | _ => Err TypeError
  end.

Definition coerce_float (v : value) : res value :=
  match v with
  | VBool b => VFloat <$> float_of_int (bool_int b)
  | VInt z => VFloat <$> float_of_int z
  | VFloat f => Ok (VFloat f)
  | VStr s => or_type_error VFloat (float_of_str s)
  | _ => Err TypeError
  end.

Definition coerce_varchar (max_length : Z) (v : value) : res value :=
  match v with
  | VStr s => Ok (VStr (cut max_length s))
  | _ => s ← str_of_number v; Ok (VStr (cut max_length s))
  end.

Definition coerce_text (v : value) : res value :=
  match v with
  | VStr s => Ok (VStr s)
  | _ => s ← str_of_number v; Ok (VStr s)
  end.

Definition coerce_boolean (v : value) : res value :=
  match v with
  | VBool b => Ok (VBool b)
  | VInt z => Ok (VBool (negb (z =? 0)))
  | VStr s => or_type_error VBool (bool_of_str s)
  | _ => Err TypeError
  end.

Definition coerce_timestamp (v : value) : res value :=
  match v with
  | VDatetime d => Ok (VDatetime d)
  | VBool b => VDatetime <$> fromtimestamp_int (bool_int b)
  | VInt z => VDatetime <$> fromtimestamp_int z
  | VFloat f => VDatetime <$> fromtimestamp_float f
  | VStr s => or_type_error VDatetime (datetime_fromiso s)
  | _ => Err TypeError
  end.

Definition coerce_date (v : value) : res value :=
  match v with
  | VDatetime d => Ok (VDatetime d)
  | VDate d => Ok (VDate d)
  | VStr s => or_type_error VDate (date_fromiso s)
  | VBool b => fromordinal (bool_int b)
  | VInt z => fromordinal z
  | VFloat f => z ← int_of_float f; fromordinal z
  | _ => Err TypeError
  end.

Fixpoint coerce (t : DataType) (v : value) : res value :=
  match t with
  | NullType => coerce_null v
  | IntegerType => coerce_integer v
  | FloatType => coerce_float v
  | VarcharType max_length => coerce_varchar max_length v
  | TextType => coerce_text v
  | BooleanType => coerce_boolean v
  | TimestampType => coerce_timestamp v
  | DateType => coerce_date v
  | ArrayType element_type =>
      match v with
      | VList l | VTuple l => l' ← res_map (coerce element_type) l; Ok (VList l')
      | _ => Err TypeError
      end
  end.

(** [struct.pack] of a coerced value in the format of its type. *)
Definition serialize_integer (v : value) : res bytes :=
  w ← coerce_integer v;
  match w with
  | VBool b => pack_be_s 4 (bool_int b)
  | VInt z => pack_be_s 4 z
  | _ => Err StructError
  end.

Definition serialize_float (v : value) : res bytes :=
  w ← coerce_float v; match w with VFloat f => pack_be 8 f | _ => Err StructError end.

Definition serialize_varchar (max_length : Z) (v : value) : res bytes :=
  w ← coerce_varchar max_length v;
  match w with
  | VStr s => x ← utf8_encode s; l ← pack_be 2 (len x); Ok (l ++ x)
  | _ => Err AttributeError
  end.

Definition serialize_text (v : value) : res bytes :=
  w ← coerce_text v;
  match w with
  | VStr s => x ← utf8_encode s; l ← pack_be 4 (len x); Ok (l ++ x)
  | _ => Err AttributeError
  end.

Definition serialize_boolean (v : value) : res bytes :=
  w ← coerce_boolean v; match w with VBool b => Ok [bool_int b] | _ => Err StructError end.

Definition serialize_timestamp (v : value) : res bytes :=
  w ← coerce_timestamp v;
  match w with VDatetime d => ts ← to_micros d; pack_be_s 8 ts | _ => Err AttributeError end.

Definition serialize_date (v : value) : res bytes :=
  w ← coerce_date v;
  match w with
  | VDatetime d => pack_be_s 4 (toordinal d)
  | VDate d => pack_be_s 4 d
  | _ => Err AttributeError
  end.

Fixpoint serialize (t : DataType) (v : value) : res bytes :=
  match t with
  | NullType => Ok [0]
  | IntegerType => serialize_integer v
  | FloatType => serialize_float v
  | VarcharType max_length => serialize_varchar max_length v
  | TextType => serialize_text v
  | BooleanType => serialize_boolean v
  | TimestampType => serialize_timestamp v
  | DateType => serialize_date v
  | ArrayType element_type =>
      w ← coerce t v;
      match w with
      | VList arr =>
          n ← pack_be 4 (len arr);
          xs ← res_map (serialize element_type) arr;
          Ok (n ++ concat xs)
      | _ => Err TypeError
      end
  end.

(** A length of [n] bytes and a text of that length, which a short file cuts. *)
Definition sized_text (n : nat) (data : bytes) (offset : Z) : res (value * Z) :=
  length ← unpack_be_from n data offset;
  let offset := offset + Z.of_nat n in
  s ← utf8_decode (py_slice data offset (offset + length));
  Ok (VStr s, offset + length).

(** [for _ in range(length)]. *)
Fixpoint deserialize_many (one : Z → res (value * Z)) (n : nat) (offset : Z) : res (list value * Z) :=
  match n with
  | O => Ok ([], offset)
  | S n' =>
      r ← one offset;
      rs ← deserialize_many one n' r.2;
      Ok (r.1 :: rs.1, rs.2)
  end.

Fixpoint deserialize (t : DataType) (data : bytes) (offset : Z) : res (value * Z) :=
  match t with
  | NullType => Ok (VNone, offset + 1)
  | IntegerType => z ← unpack_be_s_from 4 data offset; Ok (VInt z, offset + 4)
  | FloatType => f ← unpack_be_from 8 data offset; Ok (VFloat f, offset + 8)
  | VarcharType _ => sized_text 2 data offset
  | TextType => sized_text 4 data offset
  | BooleanType => b ← unpack_be_from 1 data offset; Ok (VBool (negb (b =? 0)), offset + 1)
  | TimestampType =>
      ts ← unpack_be_s_from 8 data offset; d ← of_micros ts; Ok (VDatetime d, offset + 8)
  | DateType => n ← unpack_be_s_from 4 data offset; d ← fromordinal n; Ok (d, offset + 4)
  | ArrayType element_type =>
      n ← unpack_be_from 4 data offset;
      r ← deserialize_many (deserialize element_type data) (Z.to_nat n) (offset + 4);
      Ok (VList r.1, r.2)
  end.

(** * Comparison *)

(** The number a value of [int] stands for. *)
Definition number (v : value) : option Z :=
  match v with VBool b => Some (bool_int b) | VInt z => Some z | _ => None end.

(** [a == b] and [a < b] for two values of the same type. *)
Fixpoint py_eq (a b : value) : bool :=
  match a, b with
  | VList xs, VList ys =>
      (fix go xs ys := match xs, ys with
        | [], [] => true
        | x :: xs', y :: ys' => py_eq x y && go xs' ys'
        | _, _ => false
        end) xs ys
  | VStr s, VStr u => bool_decide (s = u)
  | VFloat f, VFloat g => float_eq f g
  | VDatetime d, VDatetime e => datetime_eq d e
  | VDate d, VDate e => d =? e
  | VNone, VNone => true
  | _, _ => match number a, number b with Some x, Some y => x =? y | _, _ => false end
  end.

Fixpoint py_lt (a b : value) : res bool :=
  match a, b with
  | VList xs, VList ys =>
      (fix go xs ys := match xs, ys with
        | _, [] => Ok false
        | [], _ :: _ => Ok true
        | x :: xs', y :: ys' => if py_eq x y then go xs' ys' else py_lt x y
        end) xs ys
  | VStr s, VStr u => Ok (text_lt s u)
  | VFloat f, VFloat g => Ok (float_lt f g)
  | VDatetime d, VDatetime e => datetime_lt d e
  | VDate d, VDate e => Ok (d <? e)
  | _, _ => match number a, number b with Some x, Some y => Ok (x <? y) | _, _ => Err TypeError end
  end.

Definition compare (t : DataType) (a b : value) : res Z :=
  match a, b with
  | VNone, VNone => Ok 0
  | VNone, _ => Ok (-1)
  | _, VNone => Ok 1
  | _, _ =>
      a ← coerce t a;
      b ← coerce t b;
      lt ← py_lt a b;
      if lt : bool then Ok (-1)
      else gt ← py_lt b a; if gt : bool then Ok 1 else Ok 0
  end.
End WithHost.

(** * Names and registry *)

(** The property [name]. *)
Fixpoint name (t : DataType) : res pystr :=
  match t with
  | NullType => Ok (str "NULL")
  | IntegerType => Ok (str "INTEGER")
  | FloatType => Ok (str "FLOAT")
  | VarcharType max_length => n ← str_of_int max_length; Ok (str "VARCHAR(" ++ n ++ str ")")
  | TextType => Ok (str "TEXT")
  | BooleanType => Ok (str "BOOLEAN")
  | TimestampType => Ok (str "TIMESTAMP")
  | DateType => Ok (str "DATE")
  | ArrayType element_type => n ← name element_type; Ok (str "ARRAY<" ++ n ++ str ">")
  end.

Definition one_of (s : pystr) (names : list string) : bool := bool_decide (s ∈ str <$> names).

Definition parse_type_string (type_str : pystr) : res DataType :=
  let s := upper (strip type_str) in
  if one_of s ["INT"; "INTEGER"; "INT4"] then Ok IntegerType
  else if one_of s ["FLOAT"; "FLOAT8"; "DOUBLE"; "REAL"] then Ok FloatType
  else if one_of s ["TEXT"; "STRING"] then Ok TextType
  else if one_of s ["BOOL"; "BOOLEAN"] then Ok BooleanType
  else if one_of s ["NULL"] then Ok NullType
  else if one_of s ["TIMESTAMP"; "DATETIME"] then Ok TimestampType
  else if one_of s ["DATE"] then Ok DateType
  else if startswith (str "VARCHAR") s || startswith (str "CHAR") s then
    if bool_decide (40 ∈ s) && bool_decide (41 ∈ s) then
      inner ← py_get (split_on 40 s) 1;
      match py_int (before 41 inner) with Some n => Ok (VarcharType n) | None => Err ValueError end
    else Ok (VarcharType 255)
  else Err ValueError.

(** The classes, their numbers and the registry. *)
Inductive type_class := CNull | CInteger | CFloat | CVarchar | CText | CBoolean | CTimestamp | CDate | CArray.

Definition class_of (t : DataType) : type_class :=
  match t with
  | NullType => CNull | IntegerType => CInteger | FloatType => CFloat | VarcharType _ => CVarchar
  | TextType => CText | BooleanType => CBoolean | TimestampType => CTimestamp | DateType => CDate
  | ArrayType _ => CArray
  end.

Definition type_id (c : type_class) : Z :=
  match c with
  | CNull => 0 | CInteger => 1 | CFloat => 2 | CVarchar => 3 | CText => 4 | CBoolean => 5
  | CTimestamp => 6 | CDate => 7 | CArray => 8
  end.

Definition registry : list (Z * type_class) :=
  [(0, CNull); (1, CInteger); (2, CFloat); (3, CVarchar); (4, CText); (5, CBoolean);
   (6, CTimestamp); (7, CDate)].

Definition get_type (id : Z) : res type_class :=
  match list_find (λ x, x.1 = id) registry with Some (_, x) => Ok x.2 | None => Err ValueError end.

Section Properties.
Context `{HO : Host}.

(** * Lemmas *)

(** A column type whose lengths are not negative. *)
Fixpoint well_formed (t : DataType) : Prop :=
  match t with
  | VarcharType n => 0 <= n
  | ArrayType t => well_formed t
  | _ => True
  end.

(** What the two checks on a list share. *)
Lemma coerce_list (t : DataType) (P : value → Prop) l l' :
  (∀ v w, coerce t v = Ok w → P w) → res_map (coerce t) l = Ok l' → Forall P l'.
Proof.
  intros HP. revert l'. induction l as [|v l IH]; intros l'; cbn [res_map].
  { by intros <-%Ok_inj. }
  intros (w & Hw & (ws & Hws & <-%Ok_inj)%bind_Ok)%bind_Ok. constructor; eauto.
Qed.

Lemma res_map_id (t : DataType) l :
  Forall (λ w, coerce t w = Ok w) l → res_map (coerce t) l = Ok l.
Proof. induction 1 as [|w l Hw _ IH]; [done|]. cbn [res_map]. by rewrite Hw, IH. Qed.

Lemma len_cut n s : 0 <= n → len (cut n s) <= n.
Proof. intros Hn. unfold cut. case_match; [lia|]. rewrite length_py_slice; lia. Qed.

Lemma cut_idemp n s : 0 <= n → cut n (cut n s) = cut n s.
Proof. intros Hn. pose proof (len_cut n s Hn). unfold cut at 1. by if_true. Qed.

Lemma cut_fits n s : 0 <= n → (len (cut n s) <=? n) = true.
Proof. intros Hn. pose proof (len_cut n s Hn). lia. Qed.

Lemma checked_int32_inv z w : checked_int32 z = Ok w → w = VInt z ∧ int32 z = true.
Proof. unfold checked_int32. case_match; [|done]. by intros <-%Ok_inj. Qed.

Lemma or_type_error_inv {A B} (f : A → B) m b : or_type_error f m = Ok b → ∃ a, b = f a.
Proof. destruct m; [intros <-%Ok_inj; eauto|done]. Qed.

Lemma fmap_Ok {A B} (f : A → B) (m : res A) b : f <$> m = Ok b → ∃ a, b = f a.
Proof. destruct m; [intros <-%Ok_inj; eauto|done]. Qed.

Lemma fromordinal_inv n w : fromordinal n = Ok w → w = VDate n ∧ 1 <= n <= 3652059.
Proof. unfold fromordinal. repeat case_match; try done. intros <-%Ok_inj. split; [done|lia]. Qed.

(** The methods of a given class. *)
Ltac by_class :=
  cbn [validate coerce serialize deserialize] in *;
  unfold serialize_integer, serialize_float, serialize_varchar, serialize_text, serialize_boolean,
    serialize_timestamp, serialize_date, coerce_null, coerce_integer, coerce_float, coerce_varchar,
    coerce_text, coerce_boolean, coerce_timestamp, coerce_date in *.

Ltac coerced :=
  repeat match goal with
  | H : (_ ≫= _) = Ok _ |- _ => apply bind_Ok in H as (? & ? & H)
  | H : Ok _ = Ok _ |- _ => apply Ok_inj in H as <-
  | H : checked_int32 _ = Ok _ |- _ => apply checked_int32_inv in H as [-> ?]
  | H : fromordinal _ = Ok _ |- _ => apply fromordinal_inv in H as [-> ?]
  | H : or_type_error _ _ = Ok _ |- _ => apply or_type_error_inv in H as [? ->]
  | H : (_ <$> _) = Ok _ |- _ => apply fmap_Ok in H as [? ->]
  end.

(** Coercion, by induction on the type. *)
Lemma coerce_valid t v w :
  well_formed t → coerce t v = Ok w → validate t w = true ∧ coerce t w = Ok w.
Proof.
  revert v w. induction t as [| | |n| | | | |t IH]; intros v w Hw; cbn [well_formed] in Hw.
  1-8: by_class; destruct v; try done; intros H; coerced; by_class;
    unfold checked_int32; try rewrite cut_idemp, cut_fits by done;
    repeat match goal with H : _ = true |- _ => rewrite H end; done.
  cbn [coerce validate]. destruct v; try done; intros (l' & Hl & <-%Ok_inj)%bind_Ok;
    apply (coerce_list _ _ _ _ (λ v w, IH v w Hw)) in Hl;
    (split;
      [apply forallb_forall; intros x Hx; apply list_elem_of_In, (proj1 (Forall_forall _ _) Hl) in Hx; apply Hx
      |rewrite res_map_id; [done|eapply Forall_impl; [exact Hl|by intros ? []]]]).
Qed.

(** What a column reads back for a coerced value: a boolean in an integer column is a
    number, a datetime in a date column is a date. *)
Fixpoint stored (t : DataType) (w : value) : value :=
  match t, w with
  | NullType, _ => VNone
  | IntegerType, VBool b => VInt (bool_int b)
  | DateType, VDatetime d => VDate (toordinal d)
  | ArrayType t, VList l => VList (stored t <$> l)
  | _, _ => w
  end.

(** The values of Python: code points and dates in their ranges, and a datetime that the
    time zone and the division by a million give back. *)
Fixpoint faithful (t : DataType) (w : value) : Prop :=
  match t, w with
  | _, VStr s => Forall (λ c, 0 <= c < 1114112) s
  | TimestampType, VDatetime d => ∀ n, to_micros d = Ok n → of_micros n = Ok d
  | DateType, VDatetime d => 1 <= toordinal d <= 3652059
  | DateType, VDate n => 1 <= n <= 3652059
  | ArrayType t, VList l => Forall (faithful t) l
  | _, _ => True
  end.

Lemma sized_text_at n p u x s :
  Forall (λ c, 0 <= c < 1114112) u → utf8_encode u = Ok x → 0 <= len x < width n →
  sized_text n (p ++ (be_bytes n (len x) ++ x) ++ s) (len p) = Ok (VStr u, len p + len (be_bytes n (len x) ++ x)).
Proof.
  intros Hu E Hx. unfold sized_text.
  erewrite (unpack_be_from_at _ n p (len x) (x ++ s)); [|apps|done|done].
  cbn [mbind res_bind].
  rewrite (py_slice_at _ (p ++ be_bytes n (len x)) x s); [|apps|lens|lens].
  rewrite (utf8_decode_encode u) by eauto using utf8_scalars. cbn [mbind res_bind]. do 2 f_equal. lens.
Qed.

Lemma int_at z x p s :
  pack_be_s 4 z = Ok x →
  unpack_be_s_from 4 (p ++ x ++ s) (len p) = Ok z ∧ len x = 4.
Proof.
  intros [Hz ->]%pack_s_inv. split; [by eapply unpack_be_s_from_at|lens].
Qed.

(** The types that are not arrays. *)
Lemma serialize_scalar_at t v w x p s :
  (∀ t', t ≠ ArrayType t') → coerce t v = Ok w → faithful t w → serialize t v = Ok x →
  deserialize t (p ++ x ++ s) (len p) = Ok (stored t w, len p + len x).
Proof.
  intros Ht Hc Hf. destruct t as [| | |n| | | | |t]; [..|by destruct (Ht t)];
    by_class; rewrite ?Hc; cbn [mbind res_bind].
  - intros <-%Ok_inj. done.
  - destruct w; try done; intros [-> ->]%(int_at _ _ p s); done.
  - destruct w; try done. intros [Hb ->]%pack_u_inv.
    erewrite (unpack_be_from_at _ 8 p bits s) by done. cbn [mbind res_bind stored]. by rewrite length_be_bytes.
  - destruct w; try done. intros (y & Ey & (l & [Hl ->]%pack_u_inv & <-%Ok_inj)%bind_Ok)%bind_Ok.
    by apply sized_text_at.
  - destruct w; try done. intros (y & Ey & (l & [Hl ->]%pack_u_inv & <-%Ok_inj)%bind_Ok)%bind_Ok.
    by apply sized_text_at.
  - destruct w as [|b| | | | | | | |]; try done. intros <-%Ok_inj.
    rewrite <-(be_bytes_1 (bool_int b)) by (destruct b; cbn; lia).
    erewrite (unpack_be_from_at _ 1 p (bool_int b) s) by (destruct b; done).
    by destruct b.
  - destruct w as [| | | | |d| | | |]; try done.
    intros (n & En & [Hn ->]%pack_s_inv)%bind_Ok.
    erewrite (unpack_be_s_from_at _ 8 p n s) by done. cbn [mbind res_bind].
    rewrite (Hf n En). cbn [mbind res_bind stored]. by rewrite length_be_bytes.
  - destruct w as [| | | | |d|n| | |]; try done; intros [-> ->]%(int_at _ _ p s); cbn [mbind res_bind];
      cbn [faithful] in Hf; unfold fromordinal; if_false; if_true; done.
Qed.


(** The elements of an array, one after the other. *)
Lemma deserialize_many_at t data arr xs p s :
  (∀ e x p s, coerce t e = Ok e → faithful t e → serialize t e = Ok x →
     deserialize t (p ++ x ++ s) (len p) = Ok (stored t e, len p + len x)) →
  Forall (λ e, coerce t e = Ok e) arr → Forall (faithful t) arr →
  res_map (serialize t) arr = Ok xs → data = p ++ concat xs ++ s →
  deserialize_many (deserialize t data) (length arr) (len p) =
  Ok (stored t <$> arr, len p + len (concat xs)).
Proof.
  intros IH Hc. revert xs p. induction Hc as [|e arr He _ IHl]; intros xs p Hf.
  { intros <-%Ok_inj ->. cbn. do 2 f_equal. lia. }
  apply Forall_cons in Hf as [Hfe Hf]. cbn [res_map].
  intros (x & Ex & (xs' & Exs & <-%Ok_inj)%bind_Ok)%bind_Ok Ed. cbn [length deserialize_many concat].
  assert (deserialize t data (len p) = Ok (stored t e, len p + len x)) as ->.
  { rewrite Ed. cbn [concat]. rewrite <-app_assoc. by apply IH. }
  cbn [mbind res_bind fst snd].
  assert (len p + len x = len (p ++ x)) as -> by lens.
  rewrite (IHl xs' (p ++ x)) by (try done; rewrite Ed; cbn [concat]; apps). cbn [mbind res_bind fst snd fmap list_fmap].
  do 2 f_equal. lens.
Qed.

Lemma serialize_at t v w x p s :
  well_formed t → coerce t v = Ok w → faithful t w → serialize t v = Ok x →
  deserialize t (p ++ x ++ s) (len p) = Ok (stored t w, len p + len x).
Proof.
  revert v w x p s. induction t as [| | |n| | | | |t IH]; intros v w x p s Hw Hc Hf;
    [by apply serialize_scalar_at..|].
  cbn [serialize]. rewrite Hc. cbn [mbind res_bind]. destruct w as [| | | | | | |arr| |]; try done.
  intros (y & [Hn ->]%pack_u_inv & (xs & Exs & <-%Ok_inj)%bind_Ok)%bind_Ok.
  cbn [deserialize]. erewrite (unpack_be_from_at _ 4 p (len arr) (concat xs ++ s)) by (try done; apps).
  cbn [mbind res_bind]. rewrite Nat2Z.id.
  assert (len p + 4 = len (p ++ be_bytes 4 (len arr))) as -> by lens.
  rewrite (deserialize_many_at t _ arr xs (p ++ be_bytes 4 (len arr)) s).
  - cbn [mbind res_bind fst snd stored]. do 2 f_equal. lens.
  - intros e x' p' s' He Hfe Ex'. by apply (IH e e).
  - cbn [coerce] in Hc. destruct v; try done; apply bind_Ok in Hc as (l' & Hl & [= ->]);
      (eapply coerce_list; [|exact Hl]); intros v' w' H'; by apply (coerce_valid t v').
  - done.
  - done.
  - apps.
Qed.

(** -1, 0 or 1. *)
Definition lex (s u : list Z) : Z := if text_lt s u then -1 else if text_lt u s then 1 else 0.

Lemma lex_opp s u : lex u s = - lex s u.
Proof.
  unfold lex. destruct (text_lt s u) eqn:E1, (text_lt u s) eqn:E2; try done.
  pose proof (text_lt_trans _ _ _ E1 E2). by rewrite text_lt_irrefl in *.
Qed.

Lemma lex_min s u t : lex s u <= 0 → lex u t <= 0 → lex s t = Z.min (lex s u) (lex u t).
Proof.
  unfold lex. destruct (text_lt s u) eqn:E1, (text_lt u t) eqn:E2.
  - intros _ _. by rewrite (text_lt_trans _ _ _ E1 E2).
  - destruct (text_lt t u) eqn:E3; [lia|]. intros _ _. by rewrite <-(text_lt_total u t), E1 by done.
  - destruct (text_lt u s) eqn:E3; [lia|]. intros _ _. by rewrite (text_lt_total s u), E2 by done.
  - destruct (text_lt u s) eqn:E3; [lia|]. destruct (text_lt t u) eqn:E4; [lia|]. intros _ _.
    assert (s = t) as -> by (rewrite (text_lt_total s u), (text_lt_total u t) by done; done).
    by rewrite text_lt_irrefl.
Qed.

Lemma text_lt_single x y : text_lt [x] [y] = (x <? y).
Proof. cbn. case_match; lia. Qed.

(** The sort key of a coerced value. *)
Definition key (w : value) : list Z :=
  match w with
  | VBool b => [bool_int b]
  | VInt z => [z]
  | VFloat f => [float_key f]
  | VStr s => s
  | _ => []
  end.

(** The types with such keys, and the values with a place in the order. *)
Definition sorted_type (t : DataType) : Prop :=
  match t with IntegerType | FloatType | VarcharType _ | TextType | BooleanType => True | _ => False end.
Definition ordered (t : DataType) (v : value) : Prop :=
  ∀ f, coerce t v = Ok (VFloat f) → is_nan f = false.

Definition shape (t : DataType) (w : value) : Prop :=
  match t with
  | IntegerType => ∃ z, number w = Some z ∧ key w = [z]
  | FloatType => ∃ f, w = VFloat f
  | VarcharType _ | TextType => ∃ s, w = VStr s
  | BooleanType => ∃ b, w = VBool b
  | _ => True
  end.

Lemma coerce_shape t v w : coerce t v = Ok w → shape t w.
Proof.
  destruct t; cbn [shape]; try done; by_class; destruct v; try done; intros H; coerced; cbn; eauto.
Qed.

(** Integers are all in order. *)
Lemma ordered_int v : ordered IntegerType v.
Proof. intros f (z & Hz & _)%coerce_shape. done. Qed.

Lemma py_lt_numbers a b x y : number a = Some x → number b = Some y → py_lt a b = Ok (x <? y).
Proof. by destruct a, b; try done; cbn; intros [= <-] [= <-]. Qed.

Lemma py_lt_key t a b v w :
  sorted_type t → ordered t a → ordered t b → coerce t a = Ok v → coerce t b = Ok w →
  py_lt v w = Ok (text_lt (key v) (key w)).
Proof.
  intros Ht Ha Hb Ev Ew. pose proof (coerce_shape _ _ _ Ev) as Sv. pose proof (coerce_shape _ _ _ Ew) as Sw.
  destruct t; try done; cbn [shape] in Sv, Sw.
  - destruct Sv as (x & Nx & ->), Sw as (y & Ny & ->). by rewrite text_lt_single, (py_lt_numbers _ _ x y).
  - destruct Sv as [f ->], Sw as [g ->]. cbn [py_lt key]. rewrite text_lt_single. unfold float_lt.
    by rewrite (Ha f Ev), (Hb g Ew).
  - by destruct Sv as [? ->], Sw as [? ->].
  - by destruct Sv as [? ->], Sw as [? ->].
  - destruct Sv as [x ->], Sw as [y ->]. cbn [key]. by rewrite text_lt_single.
Qed.

(** Comparison of two values that are not null. *)
Lemma compare_keys t a b :
  sorted_type t → ordered t a → ordered t b → a ≠ VNone → b ≠ VNone →
  compare t a b = (v ← coerce t a; w ← coerce t b; Ok (lex (key v) (key w))).
Proof.
  intros Ht Ha Hb Na Nb.
  transitivity (v ← coerce t a; w ← coerce t b; lt ← py_lt v w;
    if lt : bool then Ok (-1) else gt ← py_lt w v; if gt : bool then Ok 1 else Ok 0).
  { by destruct a, b. }
  destruct (coerce t a) as [v|] eqn:Ev; [|done]. cbn [mbind res_bind].
  destruct (coerce t b) as [w|] eqn:Ew; [|done]. cbn [mbind res_bind].
  rewrite (py_lt_key t a b v w), (py_lt_key t b a w v) by done. unfold lex. cbn [mbind res_bind].
  by destruct (text_lt (key v) (key w)), (text_lt (key w) (key v)).
Qed.

Lemma none_or_not v : v = VNone ∨ v ≠ VNone.
Proof. destruct v; [by left|by right..]. Qed.

Lemma null_first t b : b ≠ VNone → compare t VNone b = Ok (-1).
Proof. by destruct b. Qed.

Lemma null_last t a : a ≠ VNone → compare t a VNone = Ok 1.
Proof. by destruct a. Qed.

(** * Properties *)

(** C6: coercion is sound and idempotent for every type in which no VARCHAR has a negative length
    (the parser of types lets one through): whatever a column of the type accepts becomes a
    value that [validate] accepts for the type, and coercing it again changes nothing. *)
Theorem sql_coerce_sound t v w :
  well_formed t → coerce t v = Ok w → validate t w = true ∧ coerce t w = Ok w.
Proof. apply coerce_valid. Qed.

(** The round trip. Whatever value a column's type coerces and serialises is read
    back from anywhere in the data, whatever surrounds it, up to the change of
    class that the type implies, with the offset just after it. *)
Theorem sql_serialize_roundtrip t v w x p s :
  well_formed t → coerce t v = Ok w → faithful t w → serialize t v = Ok x →
  deserialize t (p ++ x ++ s) (len p) = Ok (stored t w, len p + len x).
Proof. apply serialize_at. Qed.

(** Comparison is a total preorder on the values a numeric, text or boolean column
    accepts, with NULL before all of them: swapping the arguments changes the sign,
    and it is transitive. *)
Theorem sql_compare_preorder t a b c x y :
  sorted_type t → ordered t a → ordered t b → ordered t c →
  compare t a b = Ok x → compare t b c = Ok y → x <= 0 → y <= 0 →
  compare t b a = Ok (- x) ∧ compare t a c = Ok (Z.min x y).
Proof.
  intros Ht Ha Hb Hc Eab Ebc Hx Hy.
  destruct (none_or_not b) as [->|Nb].
  { destruct (none_or_not a) as [->|Na]; [|rewrite null_last in Eab by done; apply Ok_inj in Eab; lia].
    apply Ok_inj in Eab as <-. split; [done|]. rewrite Ebc. f_equal. lia. }
  destruct (none_or_not c) as [->|Nc]; [rewrite null_last in Ebc by done; apply Ok_inj in Ebc; lia|].
  destruct (none_or_not a) as [->|Na].
  { rewrite null_first in * by done. rewrite null_last by done. apply Ok_inj in Eab as <-.
    split; [done|]. f_equal. rewrite compare_keys in Ebc by done.
    apply bind_Ok in Ebc as (v & _ & (w & _ & <-%Ok_inj)%bind_Ok).
    unfold lex. repeat case_match; lia. }
  rewrite compare_keys in Eab, Ebc by done. rewrite !compare_keys by done.
  apply bind_Ok in Eab as (v & Ev & (w & Ew & <-%Ok_inj)%bind_Ok).
  rewrite Ew in Ebc. apply bind_Ok in Ebc as (w' & <-%Ok_inj & (u & Eu & <-%Ok_inj)%bind_Ok).
  rewrite Ev, Ew, Eu. cbn [mbind res_bind]. by rewrite lex_opp, <-lex_min.
Qed.
End Properties.

(** * Names *)

Lemma upper_int_text d : Forall (λ c, int_char c = true) d → upper d = d.
Proof.
  unfold upper. induction 1 as [|c l Hc _ IH]; [done|]. cbn [fmap list_fmap]. f_equal; [|exact IH].
  unfold int_char, is_digit in Hc. unfold char_upper. case_match; lia.
Qed.

Lemma not_in_int_text c d : Forall (λ c, int_char c = true) d → int_char c = false → c ∉ d.
Proof. rewrite Forall_forall. intros H Hc Hin%H. congruence. Qed.

(** A text with a given beginning is none of the names without it. *)
Lemma not_one_of p s names :
  Forall (λ x : string, take (length p) (str x) ≠ p) names → one_of (p ++ s) names = false.
Proof.
  intros HF. apply bool_decide_eq_false. intros (x & Hx & Hin)%list_elem_of_fmap.
  rewrite Forall_forall in HF. apply (HF x Hin). by rewrite <-Hx, take_app_length.
Qed.

Lemma strip_ends c s d : is_space c = false → is_space d = false → strip (c :: s ++ [d]) = c :: s ++ [d].
Proof.
  intros Hc Hd. unfold strip. rewrite lstrip_id by done.
  rewrite reverse_cons, reverse_app. cbn [reverse app rev_append]. change (reverse [d]) with [d].
  cbn [app]. rewrite lstrip_id by done.
  change (d :: reverse s ++ [c]) with ([d] ++ reverse s ++ [c]).
  by rewrite !reverse_app, reverse_involutive.
Qed.

Lemma parse_array d : parse_type_string (str "ARRAY<" ++ d ++ str ">") = Err ValueError.
Proof.
  unfold parse_type_string.
  change (str "ARRAY<" ++ d ++ str ">") with (65 :: (str "RRAY<" ++ d) ++ [62]).
  rewrite strip_ends by done.
  assert (upper (65 :: (str "RRAY<" ++ d) ++ [62]) = str "ARRAY<" ++ upper (d ++ [62])) as -> by done.
  by rewrite !(not_one_of (str "ARRAY<")) by (repeat constructor; by vm_compute).
Qed.

Lemma parse_varchar n d :
  str_of_int n = Ok d → parse_type_string (str "VARCHAR(" ++ d ++ str ")") = Ok (VarcharType n).
Proof.
  intros Hn. pose proof (str_of_int_chars _ _ Hn) as Hd. unfold parse_type_string.
  rewrite strip_id; cycle 1.
  { rewrite !Forall_app. split_and!; [by repeat constructor| |by repeat constructor].
    eapply Forall_impl; [exact Hd|apply int_char_not_space]. }
  assert (upper (str "VARCHAR(" ++ d ++ str ")") = str "VARCHAR(" ++ d ++ str ")") as ->.
  { unfold upper. rewrite !fmap_app. fold (upper d). by rewrite (upper_int_text d) by done. }
  rewrite !(not_one_of (str "VARCHAR(")) by (repeat constructor; by vm_compute).
  assert (startswith (str "VARCHAR") (str "VARCHAR(" ++ d ++ str ")") = true) as -> by done.
  cbn [orb].
  assert (split_on 40 (str "VARCHAR(" ++ d ++ str ")") = [str "VARCHAR"; d ++ str ")"]) as Hs.
  { change (str "VARCHAR(" ++ d ++ str ")") with (str "VARCHAR" ++ 40 :: (d ++ str ")")).
    rewrite split_on_app by (by apply (bool_decide_unpack _)). rewrite split_on_single; [done|].
    rewrite not_elem_of_app. split; [by apply not_in_int_text|by apply (bool_decide_unpack _)]. }
  rewrite !bool_decide_eq_true_2; cycle 1.
  { rewrite !elem_of_app. right. right. left. }
  { rewrite !elem_of_app. left. by apply (bool_decide_unpack _). }
  cbn [andb]. rewrite Hs. change (py_get [str "VARCHAR"; d ++ str ")"] 1) with (Ok (d ++ str ")")).
  cbn [mbind res_bind]. unfold before. change (str ")") with (41 :: []).
  rewrite split_on_app by (by apply not_in_int_text). by rewrite (py_int_str n).
Qed.

(** The name of a type other than an array is parsed back to the type. *)
Lemma parse_name t n : (∀ t', t ≠ ArrayType t') → name t = Ok n → parse_type_string n = Ok t.
Proof.
  intros Ht. destruct t as [| | |k| | | | |t]; cbn [name]; try (intros <-%Ok_inj; vm_compute; reflexivity).
  - intros (d & Hd & <-%Ok_inj)%bind_Ok. by apply parse_varchar.
  - by destruct (Ht t).
Qed.

(** A type survives in the catalog under its name, unless it is an array: the name
    of every other type is parsed back to the type, and the name of an array is
    refused. *)
Theorem sql_type_name_roundtrip t n :
  name t = Ok n →
  parse_type_string n = match t with ArrayType _ => Err ValueError | _ => Ok t end.
Proof.
  intros Hn. destruct t as [| | |k| | | | |t]; [by apply parse_name..|].
  cbn [name] in Hn. apply bind_Ok in Hn as (d & _ & <-%Ok_inj). apply parse_array.
Qed.

(** * Witnesses *)

(** A coarse calendar: a datetime is the number of a day. No ISO texts. *)
Definition day_host : Host := {|
  datetime := Z;
  datetime_eq := λ _ _, true;
  datetime_lt := λ _ _, Ok false;
  toordinal := λ d, d;
  to_micros := Ok;
  of_micros := Ok;
  fromtimestamp_int := Ok;
  fromtimestamp_float := Ok;
  datetime_fromiso := λ _, None;
  date_fromiso := λ _, None;
  float_of_str := λ _, None;
  str_of_float := λ _, [];
|}.
#[local] Existing Instance day_host.
Definition day (n : Z) : @datetime day_host := n.

Definition one_and_a_half : Z := 4609434218613702656.

Lemma sql_coerce_sound_witness :
  let l := VTuple [VStr (str " 12"); VFloat one_and_a_half; VBool true] in
  coerce (ArrayType IntegerType) l = Ok (VList [VInt 12; VInt 1; VBool true]) ∧
  coerce (ArrayType IntegerType) (VList [VInt 12; VInt 1; VBool true]) = Ok (VList [VInt 12; VInt 1; VBool true]).
Proof.
  intros l. assert (coerce (ArrayType IntegerType) l = Ok (VList [VInt 12; VInt 1; VBool true])) as H
    by (vm_compute; reflexivity).
  split; [exact H|]. by apply (sql_coerce_sound (ArrayType IntegerType) l).
Defined.

(** A datetime in an array of dates: what comes back is the date. *)
Lemma sql_serialize_roundtrip_witness :
  deserialize (ArrayType DateType) ([9] ++ [0; 0; 0; 1; 0; 10; 249; 59] ++ [7]) 1 =
  Ok (VList [VDate 719163], 1 + 8).
Proof.
  apply (sql_serialize_roundtrip (ArrayType DateType) (VTuple [VDatetime (day 719163)])
    (VList [VDatetime (day 719163)])
    [0; 0; 0; 1; 0; 10; 249; 59] [9] [7]); [done|reflexivity| |vm_compute; reflexivity].
  cbn. constructor; [unfold day; lia|constructor].
Defined.

(** NULL, 2 as a text and 10: as numbers, not as texts. *)
Lemma sql_compare_preorder_witness :
  compare IntegerType (VStr (str "2")) VNone = Ok (- -1) ∧ compare IntegerType VNone (VInt 10) = Ok (Z.min (-1) (-1)).
Proof.
  apply (sql_compare_preorder IntegerType VNone (VStr (str "2")) (VInt 10)); try (by apply ordered_int);
    [exact I|reflexivity|vm_compute; reflexivity|lia|lia].
Defined.

Lemma sql_type_name_roundtrip_witness : parse_type_string (str "VARCHAR(40)") = Ok (VarcharType 40).
Proof. apply (sql_type_name_roundtrip (VarcharType 40) (str "VARCHAR(40)")). vm_compute. reflexivity. Defined.

(** NULL forgets its value without a word. *)
Example null_forgets : serialize NullType (VInt 7) = Ok [0].
Proof. reflexivity. Qed.

(** The array class has a number that the registry does not have. *)
Example array_unregistered : get_type (type_id CArray) = Err ValueError.
Proof. reflexivity. Qed.

(** A negative length cuts from the end: the result does not fit the type. *)
Example negative_length :
  parse_type_string (str "varchar(-1)") = Ok (VarcharType (-1)) ∧
  coerce (VarcharType (-1)) (VStr (str "abc")) = Ok (VStr (str "ab")) ∧
  validate (VarcharType (-1)) (VStr (str "ab")) = false.
Proof. vm_compute. auto. Qed.
End DataType.
