(* ===== verification/Catalog.v ===== *)
(** The system catalog: database/src/sql/catalog.py.

    The catalog keeps its databases in a dictionary under their names in upper case,
    and each database its tables likewise. Every change of the schema rewrites the
    catalog's file. A default value is any JSON value; writing JSON and reading it
    back is the identity on what [to_dict] makes. *)

From S2P Require Import Prelude Bytes Utf8 Str PyNum PyDict SqlTypes.

Section Json.
Variable J : Type.

Record ColumnInfo := mk_column {
  c_name : pystr;
  data_type : DataType;
  nullable : bool;
  c_default : option J;
  primary_key_column : bool;
  unique : bool;
  indexed : bool;
}.

Record TableInfo := mk_table {
  t_name : pystr;
  columns : list ColumnInfo;
  primary_key : option pystr;
  row_count : Z;
  storage_path : option pystr;
  table_id : Z;
  column_map : gmap pystr ColumnInfo;
}.

Record DatabaseInfo := mk_database {
  db_name : pystr;
  tables : list (pystr * TableInfo);
  db_path : option pystr;
}.

(** What is written: the dictionaries of the [to_dict]s. *)
Record column_data := mk_column_data {
  d_column : pystr;
  d_type : pystr;
  d_nullable : bool;
  d_default : option J;
  d_primary_key : bool;
  d_unique : bool;
  d_indexed : bool;
}.
Record table_data := mk_table_data {
  d_table : pystr;
  d_columns : list column_data;
  d_table_key : option pystr;
  d_row_count : Z;
  d_table_id : Z;
}.
Record database_data := mk_database_data {
  d_database : pystr;
  d_tables : list (pystr * table_data);
}.
Record catalog_data := mk_catalog_data {
  d_databases : list database_data;
  d_next_table_id : Z;
}.

(** The file: not there, not JSON, or the data. *)
Inductive catalog_file := Absent | Corrupt | Saved (d : catalog_data).
End Json.

Arguments c_name {J} _.
Arguments data_type {J} _.
Arguments nullable {J} _.
Arguments c_default {J} _.
Arguments primary_key_column {J} _.
Arguments unique {J} _.
Arguments indexed {J} _.
Arguments mk_column {J} _ _ _ _ _ _ _.
Arguments t_name {J} _.
Arguments columns {J} _.
Arguments primary_key {J} _.
Arguments row_count {J} _.
Arguments storage_path {J} _.
Arguments table_id {J} _.
Arguments column_map {J} _.
Arguments mk_table {J} _ _ _ _ _ _ _.
Arguments db_name {J} _.
Arguments tables {J} _.
Arguments db_path {J} _.
Arguments mk_database {J} _ _ _.
Arguments d_column {J} _.
Arguments d_type {J} _.
Arguments d_nullable {J} _.
Arguments d_default {J} _.
Arguments d_primary_key {J} _.
Arguments d_unique {J} _.
Arguments d_indexed {J} _.
Arguments mk_column_data {J} _ _ _ _ _ _ _.
Arguments d_table {J} _.
Arguments d_columns {J} _.
Arguments d_table_key {J} _.
Arguments d_row_count {J} _.
Arguments d_table_id {J} _.
Arguments mk_table_data {J} _ _ _ _ _.
Arguments d_database {J} _.
Arguments d_tables {J} _.
Arguments mk_database_data {J} _ _.
Arguments d_databases {J} _.
Arguments d_next_table_id {J} _.
Arguments mk_catalog_data {J} _ _.
Arguments Absent {J}.
Arguments Corrupt {J}.
Arguments Saved {J} _.

#[export] Instance DataType_eq_dec : EqDecision DataType.
Proof. solve_decision. Defined.

(** The equality of dataclasses, for [list.remove]. *)
#[export] Instance ColumnInfo_eq_dec {J} `{!EqDecision J} : EqDecision (ColumnInfo J).
Proof. solve_decision. Defined.

Module ColumnInfo.
Section Json.
Context {J : Type}.

Definition to_dict (c : ColumnInfo J) : res (column_data J) :=
  n ← DataType.name (data_type c);
  Ok (mk_column_data (c_name c) n (nullable c) (c_default c) (primary_key_column c) (unique c) (indexed c)).

Definition from_dict (d : column_data J) : res (ColumnInfo J) :=
  t ← DataType.parse_type_string (d_type d);
  Ok (mk_column (d_column d) t (d_nullable d) (d_default d) (d_primary_key d) (d_unique d) (d_indexed d)).
End Json.
End ColumnInfo.

Module TableInfo.
Section Json.
Context {J : Type}.

(** [__post_init__]: the last column of a name wins. *)
Definition index (cols : list (ColumnInfo J)) : gmap pystr (ColumnInfo J) :=
  foldl (λ m c, <[upper (c_name c) := c]> m) ∅ cols.

(** The constructor. *)
Definition init (name : pystr) (cols : list (ColumnInfo J)) (pk : option pystr) (rows id : Z) : TableInfo J :=
  mk_table name cols pk rows None id (index cols).

Definition get_column (name : pystr) (t : TableInfo J) : option (ColumnInfo J) := column_map t !! upper name.
Definition has_column (name : pystr) (t : TableInfo J) : bool := bool_decide (is_Some (column_map t !! upper name)).

Definition column_index (name : pystr) (t : TableInfo J) : res Z :=
  match list_find (λ c, upper (c_name c) = upper name) (columns t) with
  | Some (i, _) => Ok (Z.of_nat i)
  | None => Err ValueError
  end.

Definition to_dict (t : TableInfo J) : res (table_data J) :=
  cs ← res_map ColumnInfo.to_dict (columns t);
  Ok (mk_table_data (t_name t) cs (primary_key t) (row_count t) (table_id t)).

Definition from_dict (d : table_data J) : res (TableInfo J) :=
  cs ← res_map ColumnInfo.from_dict (d_columns d);
  Ok (init (d_table d) cs (d_table_key d) (d_row_count d) (d_table_id d)).

Definition with_columns (cs : list (ColumnInfo J)) (m : gmap pystr (ColumnInfo J)) (t : TableInfo J) : TableInfo J :=
  mk_table (t_name t) cs (primary_key t) (row_count t) (storage_path t) (table_id t) m.
Definition with_row_count (n : Z) (t : TableInfo J) : TableInfo J :=
  mk_table (t_name t) (columns t) (primary_key t) n (storage_path t) (table_id t) (column_map t).
End Json.
End TableInfo.

Module DatabaseInfo.
Section Json.
Context {J : Type}.

(** The key of the first table whose name matches. *)
Definition find_table (name : pystr) (d : DatabaseInfo J) : option (pystr * TableInfo J) :=
  snd <$> list_find (λ x : pystr * TableInfo J, upper x.1 = upper name) (tables d).
Definition get_table (name : pystr) (d : DatabaseInfo J) : option (TableInfo J) := snd <$> find_table name d.

(** A value of a dictionary under its key. *)
Definition keyed {A B} (f : A → res B) (x : pystr * A) : res (pystr * B) := b ← f x.2; Ok (x.1, b).

Definition to_dict (d : DatabaseInfo J) : res (database_data J) :=
  ts ← res_map (keyed TableInfo.to_dict) (tables d); Ok (mk_database_data (db_name d) ts).

Definition from_dict (d : database_data J) : res (DatabaseInfo J) :=
  ts ← res_map (keyed TableInfo.from_dict) (d_tables d); Ok (mk_database (d_database d) ts None).

Definition with_tables (ts : list (pystr * TableInfo J)) (d : DatabaseInfo J) : DatabaseInfo J :=
  mk_database (db_name d) ts (db_path d).
End Json.
End DatabaseInfo.

Module Catalog.
Section Json.
Context {J : Type} `{!EqDecision J}.

Record t := mk {
  databases : list (pystr * DatabaseInfo J);
  current_db : option pystr;
  next_table_id : Z;
  file : catalog_file J;
}.

Definition with_databases (d : list (pystr * DatabaseInfo J)) (s : t) : t :=
  mk d (current_db s) (next_table_id s) (file s).
Definition with_current (c : option pystr) (s : t) : t := mk (databases s) c (next_table_id s) (file s).
Definition with_next (n : Z) (s : t) : t := mk (databases s) (current_db s) n (file s).
Definition with_file (f : catalog_file J) (s : t) : t := mk (databases s) (current_db s) (next_table_id s) f.

Definition modify (f : t → t) : method t () := λ s, (f s, Ok ()).

(** The loop of [_load]. *)
Definition add_loaded (d : list (pystr * DatabaseInfo J)) (db : DatabaseInfo J) : list (pystr * DatabaseInfo J) :=
  dict_set d (upper (db_name db)) db.

(** The constructor over a directory that holds the file. *)
Definition open (f : catalog_file J) : res t :=
  match f with
  | Absent | Corrupt => Ok (mk [] None 1 f)
  | Saved d =>
      dbs ← res_map DatabaseInfo.from_dict (d_databases d);
      Ok (mk (foldl add_loaded [] dbs) None (d_next_table_id d) f)
  end.

Definition data (s : t) : res (catalog_data J) :=
  dbs ← res_map (λ x : pystr * DatabaseInfo J, DatabaseInfo.to_dict x.2) (databases s);
  Ok (mk_catalog_data dbs (next_table_id s)).

Definition save : method t () := λ s,
  match data s with Ok d => (with_file (Saved d) s, Ok ()) | Err e => (s, Err e) end.

Definition create_database (name : pystr) : method t () :=
  let! s := m_get in
  let key := upper name in
  match dict_get (databases s) key with
  | Some _ => m_raise ValueError
  | None =>
      let! _ := modify (with_databases (dict_set (databases s) key (mk_database name [] None))) in
      save
  end.

(** [self.current_db and self.current_db.upper() == key]: the empty name is false. *)
Definition is_current (key : pystr) (s : t) : bool :=
  match current_db s with
  | Some ((_ :: _) as c) => bool_decide (upper c = key)
  | _ => false
  end.

Definition drop_database (name : pystr) : method t () :=
  let! s := m_get in
  let key := upper name in
  match dict_get (databases s) key with
  | None => m_raise ValueError
  | Some _ =>
      let! _ := modify (with_databases (dict_del (databases s) key)) in
      let! _ := modify (λ s, if is_current key s then with_current None s else s) in
      save
  end.

Definition get_database (name : pystr) (s : t) : option (DatabaseInfo J) := dict_get (databases s) (upper name).
Definition list_databases (s : t) : list pystr := (λ x : pystr * DatabaseInfo J, db_name x.2) <$> databases s.

Definition use_database (name : pystr) : method t () :=
  let! s := m_get in
  match dict_get (databases s) (upper name) with
  | None => m_raise ValueError
  | Some _ => modify (with_current (Some name))
  end.

Definition get_current_db (s : t) : option (DatabaseInfo J) :=
  match current_db s with Some c => get_database c s | None => None end.

(** An assignment to the tables of the current database, which the catalog shares. *)
Definition set_tables (ts : list (pystr * TableInfo J)) (s : t) : t :=
  match current_db s, get_current_db s with
  | Some c, Some db => with_databases (dict_set (databases s) (upper c) (DatabaseInfo.with_tables ts db)) s
  | _, _ => s
  end.

Definition create_table (table_name : pystr) (cols : list (ColumnInfo J)) (pk : option pystr) : method t () :=
  let! s := m_get in
  match get_current_db s with
  | None => m_raise ValueError
  | Some db =>
      let table_key := upper table_name in
      match dict_get (tables db) table_key with
      | Some _ => m_raise ValueError
      | None =>
          let table_info := TableInfo.init table_name cols pk 0 (next_table_id s) in
          let! _ := modify (with_next (next_table_id s + 1)) in
          let! _ := modify (set_tables (dict_set (tables db) table_key table_info)) in
          save
      end
  end.

Definition drop_table (table_name : pystr) : method t () :=
  let! s := m_get in
  match get_current_db s with
  | None => m_raise ValueError
  | Some db =>
      let table_key := upper table_name in
      match dict_get (tables db) table_key with
      | None => m_raise ValueError
      | Some _ =>
          let! _ := modify (set_tables (dict_del (tables db) table_key)) in
          save
      end
  end.

Definition find_table (table_name : pystr) (s : t) : option (DatabaseInfo J * (pystr * TableInfo J)) :=
  match get_current_db s with
  | None => None
  | Some db => pair db <$> DatabaseInfo.find_table table_name db
  end.
Definition get_table (table_name : pystr) (s : t) : option (TableInfo J) :=
  match get_current_db s with
  | None => None
  | Some db => DatabaseInfo.get_table table_name db
  end.
Definition list_tables (s : t) : list pystr :=
  match get_current_db s with
  | None => []
  | Some db => (λ x : pystr * TableInfo J, t_name x.2) <$> tables db
  end.

(** An assignment to a field of the table found, which the catalog shares. *)
Definition set_table (db : DatabaseInfo J) (key : pystr) (table : TableInfo J) : t → t :=
  set_tables (dict_set (tables db) key table).

Definition add_column (table_name : pystr) (column : ColumnInfo J) : method t () :=
  let! s := m_get in
  match find_table table_name s with
  | None => m_raise ValueError
  | Some (db, (key, table)) =>
      if TableInfo.has_column (c_name column) table then m_raise ValueError
      else
        let! _ := modify (set_table db key
          (TableInfo.with_columns (columns table ++ [column])
             (<[upper (c_name column) := column]> (column_map table)) table)) in
        save
  end.

(** [list.remove]: the first that is equal. *)
Fixpoint remove_first (c : ColumnInfo J) (l : list (ColumnInfo J)) : option (list (ColumnInfo J)) :=
  match l with
  | [] => None
  | c' :: l' => if decide (c' = c) then Some l' else cons c' <$> remove_first c l'
  end.

Definition drop_column (table_name column_name : pystr) : method t () :=
  let! s := m_get in
  match find_table table_name s with
  | None => m_raise ValueError
  | Some (db, (key, table)) =>
      match TableInfo.get_column column_name table with
      | None => m_raise ValueError
      | Some col =>
          match remove_first col (columns table) with
          | None => m_raise ValueError
          | Some cs =>
              let! _ := modify (set_table db key
                (TableInfo.with_columns cs (delete (upper column_name) (column_map table)) table)) in
              save
          end
      end
  end.

Definition update_row_count (table_name : pystr) (delta : Z) : method t () :=
  let! s := m_get in
  match find_table table_name s with
  | None => m_ret ()
  | Some (db, (key, table)) =>
      modify (set_table db key (TableInfo.with_row_count (Z.max 0 (row_count table + delta)) table))
  end.

Definition get_table_id (table_name : pystr) (s : t) : res Z :=
  match get_table table_name s with Some table => Ok (table_id table) | None => Err ValueError end.

Definition close : method t () := save.

(** * Invariant *)

(** A column whose type can be written and read back. *)
Definition storable (c : ColumnInfo J) : Prop :=
  ∃ n, DataType.name (data_type c) = Ok n ∧ DataType.parse_type_string n = Ok (data_type c).

Record table_ok (tbl : TableInfo J) : Prop := {
  ok_names : NoDup ((λ c, upper (c_name c)) <$> columns tbl);
  ok_map : column_map tbl = TableInfo.index (columns tbl);
  ok_path : storage_path tbl = None;
  ok_rows : 0 <= row_count tbl;
  ok_types : Forall storable (columns tbl);
}.

(** A table of the catalog, by the keys of its database and its own. *)
Definition at_key (s : t) (k n : pystr) (tbl : TableInfo J) : Prop :=
  ∃ db, dict_get (databases s) k = Some db ∧ dict_get (tables db) n = Some tbl.

Record wf (s : t) : Prop := {
  wf_keys : NoDup (databases s).*1;
  wf_databases : ∀ k db, dict_get (databases s) k = Some db →
    k = upper (db_name db) ∧ db_path db = None ∧ NoDup (tables db).*1;
  wf_tables : ∀ k n tbl, at_key s k n tbl → n = upper (t_name tbl) ∧ table_ok tbl ∧ table_id tbl < next_table_id s;
  wf_ids : ∀ k n tbl k' n' tbl', at_key s k n tbl → at_key s k' n' tbl' →
    table_id tbl = table_id tbl' → k = k' ∧ n = n';
  wf_current : ∀ c l, current_db s = Some (c :: l) → is_Some (dict_get (databases s) (upper (c :: l)));
}.

(** * Operations and reachable states *)

Inductive op :=
  | CreateDatabase (name : pystr)
  | DropDatabase (name : pystr)
  | UseDatabase (name : pystr)
  | CreateTable (name : pystr) (cols : list (ColumnInfo J)) (pk : option pystr)
  | DropTable (name : pystr)
  | AddColumn (table : pystr) (c : ColumnInfo J)
  | DropColumn (table column : pystr)
  | UpdateRowCount (table : pystr) (delta : Z)
  | Close.

Definition run (o : op) : method t () :=
  match o with
  | CreateDatabase n => create_database n
  | DropDatabase n => drop_database n
  | UseDatabase n => use_database n
  | CreateTable n cols pk => create_table n cols pk
  | DropTable n => drop_table n
  | AddColumn n c => add_column n c
  | DropColumn n c => drop_column n c
  | UpdateRowCount n d => update_row_count n d
  | Close => close
  end.

(** Tables are created with distinct column names, and types that have a name. *)
Definition allowed (o : op) : Prop :=
  match o with
  | CreateTable _ cols _ => NoDup ((λ c, upper (c_name c)) <$> cols) ∧ Forall storable cols
  | AddColumn _ c => storable c
  | _ => True
  end.

Inductive step (s : t) : t → Prop := step_run o : allowed o → step s (run o s).1.

Definition empty_catalog : t := mk [] None 1 Absent.
Definition reachable (s : t) : Prop := rtc step empty_catalog s.

(** * Saving and loading *)

Lemma table_roundtrip tbl d : table_ok tbl → TableInfo.to_dict tbl = Ok d → TableInfo.from_dict d = Ok tbl.
Proof.
  intros [_ Hm Hp _ Ht]. unfold TableInfo.to_dict. intros (cs & Hcs & <-%Ok_inj)%bind_Ok.
  unfold TableInfo.from_dict. cbn [d_columns d_table d_table_key d_row_count d_table_id].
  rewrite (res_map_inverse _ ColumnInfo.from_dict _ _) with (2 := Hcs).
  - cbn [mbind res_bind]. unfold TableInfo.init. rewrite <-Hm, <-Hp. by destruct tbl.
  - intros c d Hc. rewrite Forall_forall in Ht. destruct (Ht c Hc) as (n & En & Ep).
    unfold ColumnInfo.to_dict. rewrite En. intros <-%Ok_inj.
    unfold ColumnInfo.from_dict. cbn. rewrite Ep. by destruct c.
Qed.

Lemma table_writable tbl : table_ok tbl → ∃ d, TableInfo.to_dict tbl = Ok d.
Proof.
  intros [_ _ _ _ Ht]. unfold TableInfo.to_dict.
  destruct (res_map_total ColumnInfo.to_dict (columns tbl)) as [cs ->]; [|by eexists].
  intros c Hc. rewrite Forall_forall in Ht. destruct (Ht c Hc) as (n & En & _).
  unfold ColumnInfo.to_dict. rewrite En. by eexists.
Qed.

(** A database whose tables are all right. *)
Definition database_ok (db : DatabaseInfo J) : Prop :=
  db_path db = None ∧ ∀ n tbl, (n, tbl) ∈ tables db → table_ok tbl.

Lemma database_roundtrip db d :
  database_ok db → DatabaseInfo.to_dict db = Ok d → DatabaseInfo.from_dict d = Ok db.
Proof.
  intros [Hp Ht]. unfold DatabaseInfo.to_dict. intros (ts & Hts & <-%Ok_inj)%bind_Ok.
  unfold DatabaseInfo.from_dict. cbn [d_tables d_database].
  rewrite (res_map_inverse _ (DatabaseInfo.keyed TableInfo.from_dict) _ _) with (2 := Hts).
  - cbn [mbind res_bind]. rewrite <-Hp. by destruct db.
  - intros [n tbl] y Hin. unfold DatabaseInfo.keyed. cbn [fst snd].
    intros (d & Hd & <-%Ok_inj)%bind_Ok. cbn [fst snd].
    by rewrite (table_roundtrip tbl) by eauto.
Qed.

Lemma database_writable db : database_ok db → ∃ d, DatabaseInfo.to_dict db = Ok d.
Proof.
  intros [_ Ht]. unfold DatabaseInfo.to_dict.
  destruct (res_map_total (DatabaseInfo.keyed TableInfo.to_dict) (tables db)) as [ts ->]; [|by eexists].
  intros [n tbl] Hin. unfold DatabaseInfo.keyed. cbn [fst snd].
  destruct (table_writable tbl) as [d ->]; [by eapply Ht|]. by eexists.
Qed.

Lemma wf_database_ok s k db : wf s → (k, db) ∈ databases s → database_ok db.
Proof.
  intros Hwf Hin. apply elem_dict_get in Hin; [|by apply wf_keys].
  destruct (wf_databases s Hwf _ _ Hin) as (_ & Hp & Hn). split; [done|].
  intros n tbl Ht. apply elem_dict_get in Ht; [|done].
  by apply (wf_tables s Hwf k n tbl); exists db.
Qed.

(** Saving always works, and the file holds the catalog. *)
Lemma save_open s :
  wf s → ∃ d s'', save s = (with_file (Saved d) s, Ok ()) ∧ open (Saved d) = Ok s'' ∧
  databases s'' = databases s ∧ next_table_id s'' = next_table_id s.
Proof.
  intros Hwf. unfold save, data.
  destruct (res_map_total (λ x : pystr * DatabaseInfo J, DatabaseInfo.to_dict x.2) (databases s)) as [dbs E].
  { intros [k db] Hin. apply database_writable. by eapply wf_database_ok. }
  rewrite E. cbn [mbind res_bind]. do 2 eexists. split; [done|]. cbn [open d_databases d_next_table_id].
  assert (res_map DatabaseInfo.from_dict dbs = Ok (databases s).*2) as ->.
  { apply (res_map_inverse DatabaseInfo.to_dict).
    - intros db d [[k db'] [-> Hin]]%list_elem_of_fmap. apply database_roundtrip. by eapply wf_database_ok.
    - clear Hwf. revert dbs E. induction (databases s) as [|x l IH]; intros dbs; cbn [res_map fmap list_fmap]; [done|].
      intros (d & -> & (ds & Hds & <-%Ok_inj)%bind_Ok)%bind_Ok. by rewrite (IH ds Hds). }
  cbn [mbind res_bind]. split; [done|]. cbn [databases next_table_id]. split; [|done].
  apply (dict_rebuild (λ db, upper (db_name db)) (databases s) []); [by apply wf_keys|].
  apply Forall_forall. intros [k db] Hin. apply elem_dict_get in Hin; [|by apply wf_keys].
  by apply (wf_databases s Hwf).
Qed.

(** * Preservation *)

Lemma wf_empty : wf empty_catalog.
Proof. split; [constructor|done|by intros ??? (? & ? & _)|by intros ?????? (? & ? & _)|done]. Qed.

Lemma wf_same s s' :
  databases s' = databases s → current_db s' = current_db s → next_table_id s <= next_table_id s' →
  wf s → wf s'.
Proof.
  intros Hd Hc Hn [Hk Hdb Ht Hi Hcur]. split; unfold at_key in *; rewrite ?Hd, ?Hc; try done.
  intros k n tbl H. destruct (Ht k n tbl H) as (? & ? & ?). split_and!; [done|done|lia].
Qed.

(** Replacing the tables of the current database: each table there was one with the
    same number under the same key, or is the one new table, with the fresh number
    [i]. *)
Lemma wf_set_tables s c db ts n0 i :
  wf s → current_db s = Some c → get_current_db s = Some db → NoDup ts.*1 →
  (∀ k n tbl, at_key s k n tbl → table_id tbl ≠ i) →
  (∀ n tbl, dict_get ts n = Some tbl → n = upper (t_name tbl) ∧ table_ok tbl ∧
     ((∃ old, dict_get (tables db) n = Some old ∧ table_id tbl = table_id old) ∨
      (n = n0 ∧ table_id tbl = i ∧ i < next_table_id s))) →
  wf (set_tables ts s).
Proof.
  intros Hwf Hc Hg Hnd Hfresh Hts. unfold set_tables. rewrite Hc, Hg.
  assert (dict_get (databases s) (upper c) = Some db) as Hdb.
  { unfold get_current_db in Hg. by rewrite Hc in Hg. }
  set (s' := with_databases _ s).
  assert (∀ k n tbl, at_key s' k n tbl →
    (k = upper c ∧ dict_get ts n = Some tbl) ∨ (k ≠ upper c ∧ at_key s k n tbl)) as Hat.
  { intros k n tbl (db' & Hk & Hn). cbn [s' with_databases databases] in Hk. rewrite dict_get_set in Hk.
    case_decide as E; [injection Hk as <-; by left|]. right. split; [congruence|]. by exists db'. }
  assert (∀ n tbl, dict_get ts n = Some tbl →
    (∃ old, at_key s (upper c) n old ∧ table_id old = table_id tbl) ∨ (n = n0 ∧ table_id tbl = i)) as Hold.
  { intros n tbl (_ & _ & [(old & Ho & Eid)|(-> & Eid & _)])%Hts; [left|by right].
    exists old. split; [by exists db|done]. }
  split.
  - cbn. by apply dict_set_NoDup, wf_keys.
  - intros k db'. cbn. rewrite dict_get_set. case_decide as E; [|by apply wf_databases].
    intros [= <-]. subst k. destruct (wf_databases s Hwf _ _ Hdb) as (? & ? & _). done.
  - intros k n tbl [[-> H]|[_ H]]%Hat; [|by apply (wf_tables s Hwf k)].
    destruct (Hts n tbl H) as (? & ? & [(old & Ho & Eid)|(_ & Eid & ?)]); split_and!; try done; cbn; [|lia].
    destruct (wf_tables s Hwf (upper c) n old) as (_ & _ & ?); [by exists db|lia].
  - intros k n tbl k' n' tbl' H H' Eid. apply Hat in H as [[-> H]|[Hk H]], H' as [[-> H']|[Hk' H']].
    + apply Hold in H as [(t0 & H & E0)|[-> E0]], H' as [(t1 & H' & E1)|[-> E1]].
      * apply (wf_ids s Hwf _ _ _ _ _ _ H H'). congruence.
      * destruct (Hfresh _ _ _ H). congruence.
      * destruct (Hfresh _ _ _ H'). congruence.
      * done.
    + apply Hold in H as [(t0 & H & E0)|[-> E0]].
      * apply (wf_ids s Hwf _ _ _ _ _ _ H H'). congruence.
      * destruct (Hfresh _ _ _ H'). congruence.
    + apply Hold in H' as [(t0 & H' & E0)|[-> E0]].
      * apply (wf_ids s Hwf _ _ _ _ _ _ H H'). congruence.
      * destruct (Hfresh _ _ _ H). congruence.
    + by apply (wf_ids s Hwf _ _ _ _ _ _ H H').
  - intros c' l Hc'. cbn in Hc' |- *. rewrite dict_get_set. case_decide; [done|].
    by apply (wf_current s Hwf).
Qed.

Lemma wf_save s : wf s → wf (save s).1.
Proof. intros Hwf. unfold save. destruct (data s); [|done]. apply (wf_same s); by cbn. Qed.

(** A lookup by name is a lookup by its upper case. *)
Lemma find_table_key s name :
  wf s →
  find_table name s =
  (db ← get_current_db s; tbl ← dict_get (tables db) (upper name); Some (db, (upper name, tbl))).
Proof.
  intros Hwf. unfold find_table. destruct (get_current_db s) as [db|] eqn:Hg; [|done]. cbn [mbind option_bind].
  assert (Forall (λ x : pystr * TableInfo J, upper x.1 = x.1) (tables db)) as Hup.
  { apply Forall_forall. intros [n tbl] Hin. unfold get_current_db in Hg.
    destruct (current_db s) as [c|]; [|done]. unfold get_database in Hg.
    destruct (wf_databases s Hwf _ _ Hg) as (_ & _ & Hnd).
    apply elem_dict_get in Hin; [|done].
    destruct (wf_tables s Hwf (upper c) n tbl) as (-> & _); [by exists db|]. cbn. apply upper_idemp. }
  unfold DatabaseInfo.find_table. induction Hup as [|[n tbl] l Hn _ IH]; [done|].
  cbn [list_find dict_get fst]. cbn [fst] in Hn. rewrite Hn.
  destruct (decide (n = upper name)) as [->|]; [done|].
  destruct (list_find _ l) as [[j x]|]; cbn in IH |- *; by rewrite <-IH.
Qed.

Lemma find_table_inv s name db key tbl :
  wf s → find_table name s = Some (db, (key, tbl)) →
  get_current_db s = Some db ∧ key = upper name ∧ dict_get (tables db) key = Some tbl.
Proof.
  intros Hwf. rewrite find_table_key by done. destruct (get_current_db s) as [db'|]; [|done]. cbn.
  destruct (dict_get (tables db') (upper name)) as [tbl'|] eqn:E; [|done]. by intros [= <- <- <-].
Qed.

(** The columns' index. *)
Lemma index_snoc cs (c : ColumnInfo J) :
  TableInfo.index (cs ++ [c]) = <[upper (c_name c) := c]> (TableInfo.index cs).
Proof. unfold TableInfo.index. by rewrite foldl_app. Qed.

Lemma index_lookup cs k (c : ColumnInfo J) :
  NoDup ((λ c, upper (c_name c)) <$> cs) →
  TableInfo.index cs !! k = Some c ↔ c ∈ cs ∧ upper (c_name c) = k.
Proof.
  induction cs as [|c' cs IH] using rev_ind; intros Hn.
  { change (TableInfo.index []) with (∅ : gmap pystr (ColumnInfo J)).
    split; [by rewrite lookup_empty|]. by intros [H%not_elem_of_nil _]. }
  rewrite fmap_app, NoDup_app in Hn. destruct Hn as (Hn & Hd & _).
  rewrite index_snoc, lookup_insert_Some, IH, elem_of_app, list_elem_of_singleton by done.
  split.
  - intros [[? ->]|(? & ? & ?)]; split; try done; [by right|by left].
  - intros [[Hin| ->] Hk]; [|by left]. right. split_and!; try done. intros E.
    apply (Hd (upper (c_name c))); [apply list_elem_of_fmap; by exists c|].
    rewrite Hk, <-E. left.
Qed.

Lemma index_None cs k :
  TableInfo.index cs !! k = None → k ∉ (λ c : ColumnInfo J, upper (c_name c)) <$> cs.
Proof.
  induction cs as [|c cs IH] using rev_ind; [intros _; apply not_elem_of_nil|].
  rewrite index_snoc, lookup_insert_None, fmap_app, not_elem_of_app. intros [H1 H2].
  split; [by apply IH|]. by intros ->%list_elem_of_singleton.
Qed.

Lemma remove_first_inv (c : ColumnInfo J) cs cs' :
  remove_first c cs = Some cs' → ∃ l1 l2, cs = l1 ++ c :: l2 ∧ cs' = l1 ++ l2.
Proof.
  revert cs'. induction cs as [|c0 cs IH]; intros cs'; [done|]. cbn. case_decide as E.
  - intros [= <-]. subst. by exists [], cs.
  - destruct (remove_first c cs) as [l|]; [|done]. intros [= <-].
    destruct (IH l eq_refl) as (l1 & l2 & -> & ->). by exists (c0 :: l1), l2.
Qed.

Lemma index_remove l1 l2 (c : ColumnInfo J) :
  NoDup ((λ c, upper (c_name c)) <$> (l1 ++ c :: l2)) →
  TableInfo.index (l1 ++ l2) = delete (upper (c_name c)) (TableInfo.index (l1 ++ c :: l2)).
Proof.
  intros Hn. assert (upper (c_name c) ∉ (λ c, upper (c_name c)) <$> (l1 ++ l2) ∧
          NoDup ((λ c, upper (c_name c)) <$> (l1 ++ l2))) as [Hc Hn'].
  { rewrite fmap_app in Hn |- *. cbn [fmap list_fmap] in Hn.
    rewrite <-Permutation_middle in Hn. by apply NoDup_cons in Hn. }
  apply map_eq. intros k. apply option_eq. intros c'.
  rewrite lookup_delete_Some, !index_lookup, !elem_of_app, elem_of_cons by done.
  split; [|naive_solver]. intros [Hin <-]. split; [|naive_solver]. intros E. apply Hc.
  rewrite E. apply list_elem_of_fmap. exists c'. by rewrite elem_of_app.
Qed.

(** A changed table of the current database, under the same key and number. *)
Lemma wf_set_table s name db key tbl tbl' :
  wf s → find_table name s = Some (db, (key, tbl)) →
  t_name tbl' = t_name tbl → table_id tbl' = table_id tbl → (table_ok tbl → table_ok tbl') →
  wf (set_table db key tbl' s).
Proof.
  intros Hwf Hf Hname Hid Hok. destruct (find_table_inv _ _ _ _ _ Hwf Hf) as (Hg & _ & Ht).
  assert (∃ c, current_db s = Some c) as [c Hc].
  { unfold get_current_db in Hg. destruct (current_db s) as [c|]; [by exists c|done]. }
  assert (dict_get (databases s) (upper c) = Some db) as Hdb.
  { unfold get_current_db in Hg. by rewrite Hc in Hg. }
  assert (∀ n x, dict_get (tables db) n = Some x → n = upper (t_name x) ∧ table_ok x ∧ table_id x < next_table_id s) as Hall.
  { intros n x Hx. apply (wf_tables s Hwf (upper c)). by exists db. }
  apply (wf_set_tables s c db _ [] (next_table_id s)); try done.
  - apply dict_set_NoDup. by apply (wf_databases s Hwf _ _ Hdb).
  - intros k n x Hx. destruct (wf_tables s Hwf _ _ _ Hx) as (_ & _ & ?). lia.
  - intros n x. rewrite dict_get_set. case_decide as E.
    + intros [= <-]. subst n. destruct (Hall _ _ Ht) as (? & ? & _).
      split_and!; [congruence|by apply Hok|]. left. by exists tbl.
    + intros Hx. destruct (Hall _ _ Hx) as (? & ? & _). split_and!; try done. left. by exists x.
Qed.

Lemma current_of s db : get_current_db s = Some db →
  ∃ c, current_db s = Some c ∧ dict_get (databases s) (upper c) = Some db.
Proof. unfold get_current_db. destruct (current_db s) as [c|]; [|done]. intros H. by exists c. Qed.

(** A new table with the next number. *)
Lemma wf_new_table s db name cols pk :
  wf s → get_current_db s = Some db →
  NoDup ((λ c, upper (c_name c)) <$> cols) → Forall storable cols →
  wf (set_tables (dict_set (tables db) (upper name) (TableInfo.init name cols pk 0 (next_table_id s)))
        (with_next (next_table_id s + 1) s)).
Proof.
  intros Hwf Hg Hn Hs. destruct (current_of s db Hg) as (c & Hc & Hdb).
  assert (∀ n x, dict_get (tables db) n = Some x → n = upper (t_name x) ∧ table_ok x ∧ table_id x < next_table_id s) as Hall.
  { intros n x Hx. apply (wf_tables s Hwf (upper c)). by exists db. }
  apply (wf_set_tables _ c db _ (upper name) (next_table_id s)); try done.
  - apply (wf_same s); try done. cbn. lia.
  - apply dict_set_NoDup. by apply (wf_databases s Hwf _ _ Hdb).
  - intros k n x Hx. destruct (wf_tables s Hwf k n x) as (_ & _ & ?); [done|lia].
  - intros n x. rewrite dict_get_set. case_decide as E.
    + intros [= <-]. subst n. split_and!; [done|by split|]. right. cbn. split_and!; [done|done|lia].
    + intros Hx. destruct (Hall _ _ Hx) as (? & ? & _). split_and!; try done. left. by exists x.
Qed.

Lemma wf_drop_table s db key :
  wf s → get_current_db s = Some db → wf (set_tables (dict_del (tables db) key) s).
Proof.
  intros Hwf Hg. destruct (current_of s db Hg) as (c & Hc & Hdb).
  apply (wf_set_tables s c db _ [] (next_table_id s)); try done.
  - apply dict_del_NoDup. by apply (wf_databases s Hwf _ _ Hdb).
  - intros k n x Hx. destruct (wf_tables s Hwf _ _ _ Hx) as (_ & _ & ?). lia.
  - intros n x. rewrite dict_get_del. case_decide; [done|]. intros Hx.
    destruct (wf_tables s Hwf (upper c) n x) as (? & ? & _); [by exists db|].
    split_and!; try done. left. by exists x.
Qed.

Lemma wf_create_database s name :
  wf s → dict_get (databases s) (upper name) = None →
  wf (with_databases (dict_set (databases s) (upper name) (mk_database name [] None)) s).
Proof.
  intros Hwf Hnew. set (s' := with_databases _ s).
  assert (∀ k n tbl, at_key s' k n tbl → at_key s k n tbl) as Hat.
  { intros k n tbl (db & Hk & Hn). cbn in Hk. rewrite dict_get_set in Hk.
    case_decide; [by injection Hk as <-|by exists db]. }
  split.
  - cbn. by apply dict_set_NoDup, wf_keys.
  - intros k db. cbn. rewrite dict_get_set. case_decide as E; [|by apply wf_databases].
    intros [= <-]. split_and!; [done|done|constructor].
  - intros k n tbl H%Hat. by apply (wf_tables s Hwf k).
  - intros k n tbl k' n' tbl' H%Hat H'%Hat. by apply (wf_ids s Hwf).
  - intros c l Hc. cbn. rewrite dict_get_set. case_decide; [done|]. by apply (wf_current s Hwf).
Qed.

Lemma wf_drop_database s name :
  wf s →
  wf ((λ s, if is_current (upper name) s then with_current None s else s)
        (with_databases (dict_del (databases s) (upper name)) s)).
Proof.
  intros Hwf. set (s' := _ (with_databases _ s)).
  assert (databases s' = dict_del (databases s) (upper name) ∧ next_table_id s' = next_table_id s) as [Hd Hn]
    by (unfold s'; by case_match).
  assert (∀ k n tbl, at_key s' k n tbl → at_key s k n tbl) as Hat.
  { intros k n tbl (db & Hk & Ht). rewrite Hd, dict_get_del in Hk. case_decide; [done|by exists db]. }
  split.
  - rewrite Hd. by apply dict_del_NoDup, wf_keys.
  - intros k db. rewrite Hd, dict_get_del. case_decide; [done|]. by apply wf_databases.
  - intros k n tbl H%Hat. rewrite Hn. by apply (wf_tables s Hwf k).
  - intros k n tbl k' n' tbl' H%Hat H'%Hat. by apply (wf_ids s Hwf).
  - intros c l. rewrite Hd, dict_get_del. unfold s', is_current. cbn [with_databases current_db].
    destruct (current_db s) as [[|c' l']|] eqn:Hc; cbn [with_databases current_db]; rewrite ?Hc; try done.
    case_bool_decide as Hb; cbn [with_databases with_current current_db]; rewrite ?Hc; [done|].
    intros [= -> ->]. rewrite decide_False by congruence. by apply (wf_current s Hwf).
Qed.

(** The changes of a table's columns. *)
Lemma table_ok_add c tbl :
  storable c → TableInfo.has_column (c_name c) tbl = false → table_ok tbl →
  table_ok (TableInfo.with_columns (columns tbl ++ [c]) (<[upper (c_name c) := c]> (column_map tbl)) tbl).
Proof.
  intros Hc Hh [Hn Hm Hp Hr Ht]. unfold TableInfo.has_column in Hh.
  apply bool_decide_eq_false, eq_None_not_Some in Hh. rewrite Hm in Hh. apply index_None in Hh.
  split; cbn [TableInfo.with_columns columns column_map storage_path row_count]; try done.
  - rewrite fmap_app, NoDup_app. split_and!; [done| |apply NoDup_singleton].
    by intros x Hx ->%list_elem_of_singleton.
  - by rewrite index_snoc, Hm.
  - apply Forall_app. by split; [|constructor].
Qed.

Lemma table_ok_remove cn col cs tbl :
  TableInfo.get_column cn tbl = Some col → remove_first col (columns tbl) = Some cs → table_ok tbl →
  table_ok (TableInfo.with_columns cs (delete (upper cn) (column_map tbl)) tbl).
Proof.
  intros Hg Hr [Hn Hm Hp Hrow Ht]. unfold TableInfo.get_column in Hg. rewrite Hm in Hg.
  apply index_lookup in Hg as [_ Hk]; [|done].
  apply remove_first_inv in Hr as (l1 & l2 & E & ->). rewrite E in *. split; cbn [TableInfo.with_columns columns column_map storage_path row_count]; try done.
  - rewrite fmap_app in Hn |- *. cbn [fmap list_fmap] in Hn.
    rewrite <-Permutation_middle in Hn. by apply NoDup_cons in Hn as [_ ?].
  - by rewrite Hm, (index_remove l1 l2 col), Hk.
  - apply Forall_app in Ht as [? [_ ?]%Forall_cons]. by apply Forall_app.
Qed.

(** Every operation is an update of the state and, if the schema changed, a save. *)
Definition writes (o : op) : bool :=
  match o with UseDatabase _ | UpdateRowCount _ _ => false | _ => true end.

Lemma run_cases o s :
  wf s → allowed o →
  (∃ e, run o s = (s, Err e)) ∨
  (∃ s1, wf s1 ∧ run o s = (if writes o then save s1 else (s1, Ok ()))).
Proof.
  intros Hwf Ho.
  destruct o as [n|n|n|n cols pk|n|n c|n cn|n d|]; cbn [run writes];
    unfold create_database, drop_database, use_database, create_table, drop_table, add_column,
      drop_column, update_row_count, close, m_bind, m_get, modify, m_raise, m_ret; cbv beta iota.
  - destruct (dict_get _ _) eqn:E; [left; by eexists|right]. eexists. split; [|done].
    by apply wf_create_database.
  - destruct (dict_get _ _) eqn:E; [right|left; by eexists]. eexists. split; [|done].
    by apply wf_drop_database.
  - destruct (dict_get _ _) as [db|] eqn:E; [right|left; by eexists]. eexists. split; [|done].
    destruct Hwf as [H1 H2 H3 H4 H5]. split; try done.
    intros c l Hc. injection Hc as Hc. exists db. rewrite <-Hc. exact E.
  - destruct (get_current_db s) as [db|] eqn:Hg; [|left; by eexists].
    destruct (dict_get _ _) eqn:E; [left; by eexists|right]. eexists. split; [|done].
    destruct Ho. by apply wf_new_table.
  - destruct (get_current_db s) as [db|] eqn:Hg; [|left; by eexists].
    destruct (dict_get _ _) eqn:E; [right|left; by eexists]. eexists. split; [|done].
    by apply wf_drop_table.
  - destruct (find_table n s) as [[db [key tbl]]|] eqn:Hf; [|left; by eexists].
    destruct (TableInfo.has_column _ _) eqn:Hh; [left; by eexists|right]. eexists. split; [|done].
    eapply wf_set_table; try done. by apply table_ok_add.
  - destruct (find_table n s) as [[db [key tbl]]|] eqn:Hf; [|left; by eexists].
    destruct (TableInfo.get_column _ _) as [col|] eqn:Hh; [|left; by eexists].
    destruct (remove_first _ _) as [cs|] eqn:Hr; [right|left; by eexists]. eexists. split; [|done].
    eapply wf_set_table; try done. by apply (table_ok_remove cn col).
  - right. destruct (find_table n s) as [[db [key tbl]]|] eqn:Hf; [|by exists s].
    eexists. split; [|done]. eapply wf_set_table; try done. intros [H1 H2 H3 H4 H5]. split; try done. cbn. lia.
  - right. by exists s.
Qed.

Lemma step_wf s s' : step s s' → wf s → wf s'.
Proof.
  intros [o Ho] Hwf. destruct (run_cases o s Hwf Ho) as [[e ->]|(s1 & H1 & ->)]; [done|].
  destruct (writes o); [by apply wf_save|done].
Qed.

Lemma reachable_ok s : reachable s → wf s.
Proof.
  intros H. assert (wf empty_catalog) as H0 by apply wf_empty. unfold reachable in H.
  induction H as [|s1 s2 s3 H12 _ IH]; [done|]. by eauto using step_wf.
Qed.

Lemma get_table_key s name :
  wf s → get_table name s = (db ← get_current_db s; dict_get (tables db) (upper name)).
Proof.
  intros Hwf. pose proof (find_table_key s name Hwf) as H. unfold find_table, get_table, DatabaseInfo.get_table in *.
  destruct (get_current_db s) as [db|]; [|done]. cbn [mbind option_bind] in *.
  destruct (DatabaseInfo.find_table name db) as [[k x]|], (dict_get (tables db) (upper name)); cbn in *; congruence.
Qed.

Lemma current_set_tables s db ts :
  get_current_db s = Some db → get_current_db (set_tables ts s) = Some (DatabaseInfo.with_tables ts db).
Proof.
  intros Hg. destruct (current_of s db Hg) as (c & Hc & Hdb). unfold set_tables. rewrite Hc, Hg.
  unfold get_current_db, get_database. cbn [with_databases current_db databases]. rewrite Hc, dict_get_set.
  by rewrite decide_True.
Qed.

Lemma save_inv s s' u : save s = (s', Ok u) → ∃ f, s' = with_file f s.
Proof. unfold save. destruct (data s); [|done]. intros [= <- _]. by eexists. Qed.

Lemma reachable_run os : Forall allowed os → reachable (foldl (λ s o, (run o s).1) empty_catalog os).
Proof.
  intros H. unfold reachable. revert H. generalize empty_catalog. induction os as [|o os IH]; intros s0 H.
  { constructor. }
  apply Forall_cons in H as [Ho Hos]. cbn [foldl]. eapply rtc_l; [by constructor|by apply IH].
Qed.

(** * Properties *)

(** Whatever statements are executed, the catalog stays consistent: names are
    unique up to case, every table has its own number below the next one, the index
    of columns agrees with the columns, and the current database exists. *)
Theorem catalog_reachable_wf s : reachable s → wf s.
Proof. apply reachable_ok. Qed.

(** C10: durability. From an empty catalog, let the operations be called in any order, tables being
    created with column names that differ by more than their case, and columns having types whose
    name can be read back, which arrays have not. Then, once an
    operation that writes the file has succeeded, opening the file again gives the same
    databases, tables, columns and numbers; no database is selected; and closing the catalog
    cannot fail. *)
Theorem catalog_durable s o s' :
  reachable s → allowed o → writes o = true → run o s = (s', Ok ()) →
  (∃ s'', open (file s') = Ok s'' ∧ databases s'' = databases s' ∧ next_table_id s'' = next_table_id s' ∧
     current_db s'' = None) ∧
  (close s').2 = Ok ().
Proof.
  intros Hr Ho Hw Hrun. apply reachable_ok in Hr.
  destruct (run_cases o s Hr Ho) as [[e E]|(s1 & H1 & E)]; [congruence|].
  rewrite Hrun, Hw in E. destruct (save_open s1 H1) as (d & s'' & Hs & Hopen & Hdb & Hid).
  rewrite Hs in E. injection E as ->. split.
  - exists s''. split_and!; try done. cbn [open] in Hopen.
    apply bind_Ok in Hopen as (dbs & _ & <-%Ok_inj). done.
  - destruct (save_open (with_file (Saved d) s1)) as (? & ? & E & _); [by apply (wf_same s1)|].
    unfold close. by rewrite E.
Qed.

(** Tables by name. After a table is created, its name in any case gives a table
    without rows and with a number no table had, and every other name what it gave
    before; after it is dropped, its name gives nothing. *)
Theorem catalog_create_drop s name cols pk s' other :
  reachable s → NoDup ((λ c, upper (c_name c)) <$> cols) → Forall storable cols →
  create_table name cols pk s = (s', Ok ()) →
  get_table other s' =
    (if decide (upper other = upper name) then Some (TableInfo.init name cols pk 0 (next_table_id s))
     else get_table other s) ∧
  let '(s'', out) := drop_table name s' in
  out = Ok () ∧ get_table other s'' = (if decide (upper other = upper name) then None else get_table other s).
Proof.
  intros Hr Hn Hs Hrun. apply reachable_ok in Hr as Hwf.
  assert (wf s') as Hwf'.
  { assert (s' = (run (CreateTable name cols pk) s).1) as -> by (cbn [run]; by rewrite Hrun).
    by apply (step_wf s). }
  unfold create_table, m_bind, m_get, modify, m_raise in Hrun. cbv beta iota in Hrun.
  destruct (get_current_db s) as [db|] eqn:Hg; [|done].
  destruct (dict_get (tables db) (upper name)) eqn:Hnew; [done|].
  apply save_inv in Hrun as (f & ->). set (ts := dict_set _ _ _) in *.
  assert (get_current_db (with_file f (set_tables ts (with_next (next_table_id s + 1) s))) =
          Some (DatabaseInfo.with_tables ts db)) as Hg'.
  { change (get_current_db (set_tables ts (with_next (next_table_id s + 1) s)) = Some (DatabaseInfo.with_tables ts db)).
    by apply current_set_tables. }
  split.
  - rewrite !get_table_key, Hg', Hg by done. cbn [mbind option_bind DatabaseInfo.with_tables tables].
    unfold ts. rewrite dict_get_set. by repeat case_decide.
  - set (s' := with_file f _) in *. unfold drop_table, m_bind, m_get, modify, m_raise. cbv beta iota.
    rewrite Hg'. cbn [DatabaseInfo.with_tables tables]. unfold ts at 1. rewrite dict_get_set, decide_True by done.
    pose proof (wf_drop_table s' _ (upper name) Hwf' Hg') as Hwf''.
    set (s2 := set_tables _ s') in *. destruct (save_open s2 Hwf'') as (d & ? & -> & _).
    split; [done|].
    change (get_table other (with_file (Saved d) s2)) with (get_table other s2).
    rewrite !get_table_key, Hg by done. unfold s2. rewrite (current_set_tables _ _ _ Hg').
    cbn [mbind option_bind DatabaseInfo.with_tables tables]. unfold ts. rewrite dict_get_del, dict_get_set.
    by repeat case_decide.
Qed.
End Json.

(** * Witnesses *)

Definition id_column : ColumnInfo Z := mk_column (str "Id") IntegerType false None true true false.
Definition name_column : ColumnInfo Z := mk_column (str "name") (VarcharType 40) true (Some 7) false false false.

(** [CREATE DATABASE shop; USE Shop; CREATE TABLE Users (Id, name)]. *)
Definition statements : list (op (J := Z)) :=
  [CreateDatabase (str "shop"); UseDatabase (str "Shop"); CreateTable (str "Users") [id_column; name_column] None].
Definition shop : t := foldl (λ s o, (run o s).1) empty_catalog statements.

Lemma columns_storable : Forall storable [id_column; name_column].
Proof. repeat constructor; eexists; split; vm_compute; reflexivity. Qed.

Lemma columns_distinct : NoDup ((λ c, upper (c_name c)) <$> [id_column; name_column]).
Proof. apply (bool_decide_unpack _). vm_compute. exact I. Qed.

Lemma shop_reachable : reachable shop.
Proof.
  apply reachable_run. do 2 (constructor; [exact I|]). constructor; [|constructor].
  split; [exact columns_distinct|exact columns_storable].
Qed.

Lemma catalog_reachable_wf_witness : wf shop.
Proof. apply catalog_reachable_wf, shop_reachable. Defined.

Lemma catalog_durable_witness :
  ∃ s'', open (file (close shop).1) = Ok s'' ∧ databases s'' = databases shop ∧ next_table_id s'' = 2 ∧
    current_db s'' = None.
Proof. apply (catalog_durable shop Close); [exact shop_reachable|exact I|reflexivity|vm_compute; reflexivity]. Defined.

Lemma catalog_create_drop_witness :
  get_table (str "ORDERS") (create_table (str "Orders") [id_column] None shop).1 =
  Some (TableInfo.init (str "Orders") [id_column] None 0 2).
Proof.
  destruct (create_table (str "Orders") [id_column] None shop) as [s' out] eqn:E.
  pose proof (catalog_create_drop shop (str "Orders") [id_column] None s' (str "ORDERS") shop_reachable) as H.
  destruct H as [H _].
  - apply NoDup_singleton.
  - by pose proof columns_storable as [? _]%Forall_cons; constructor.
  - rewrite E. f_equal. assert ((create_table (str "Orders") [id_column] None shop).2 = Ok ()) as H by (vm_compute; reflexivity).
    rewrite E in H. exact H.
  - exact H.
Defined.

(** Names of columns are not compared when a table is created: of two that differ only
    in case, dropping one hides the other until the catalog is opened again. *)
Definition twins : list (ColumnInfo Z) :=
  [mk_column (str "a") IntegerType true None false false false; mk_column (str "A") TextType true None false false false].
Definition twins_shop : t :=
  (drop_column (str "t") (str "a") (create_table (str "t") twins None shop).1).1.
Example duplicate_columns :
  (TableInfo.get_column (str "a") <$> get_table (str "t") twins_shop) = Some None ∧
  (columns <$> get_table (str "t") twins_shop) = Some (take 1 twins).
Proof. vm_compute. auto. Qed.
End Catalog.
