(* ===== verification/Ir.v ===== *)
(** The intermediate representation of the compiler: compiler/src/middle/ir.py.

    Values, instructions and basic blocks are dataclasses: two values are equal when
    their name and type are, whatever constant they carry, and
    [replace_instruction] and [remove_instruction] act on the first instruction
    that is equal to the given one. A name is a text of bytes. *)

From Stdlib Require Import String.
From S2P Require Import Prelude.

Open Scope string_scope.
Open Scope list_scope.
Open Scope Z_scope.

(** The opcodes, in the order of the enumeration. *)
Inductive IROpcode :=
  | LABEL | GOTO | IF_GOTO | PHI | CALL | RETURN | RET | HALT | ALLOCA | LOAD | STORE | MEMCPY
  | GEP | ADD | SUB | MUL | DIV | MOD | NEG | ADD_I | SUB_I | MUL_I | DIV_I | MOD_I | ADD_F
  | SUB_F | MUL_F | DIV_F | AND | OR | XOR | NOT | SHL | SHR | AND_I | OR_I | XOR_I | NOT_I
  | EQ | NE | LT | GT | LE | GE | EQ_I | NE_I | LT_I | GT_I | LE_I | GE_I | EQ_F | NE_F | LT_F
  | GT_F | LE_F | GE_F | INT_TO_FLOAT | FLOAT_TO_INT | INT_TO_BOOL | BOOL_TO_INT | EXT | TRUNC
  | COPY | ASSERT | NOP | COMMENT | DEBUG | TENSOR_INIT | TENSOR_GET | TENSOR_SET
  | TENSOR_SHAPE | TENSOR_RESHAPE | TENSOR_SLICE | MATMUL | CONV2D | RELU | SIGMOID | TANH
  | SOFTMAX.

Definition opcodes : list IROpcode :=
  [LABEL; GOTO; IF_GOTO; PHI; CALL; RETURN; RET; HALT; ALLOCA; LOAD; STORE; MEMCPY; GEP; ADD;
  SUB; MUL; DIV; MOD; NEG; ADD_I; SUB_I; MUL_I; DIV_I; MOD_I; ADD_F; SUB_F; MUL_F; DIV_F; AND;
  OR; XOR; NOT; SHL; SHR; AND_I; OR_I; XOR_I; NOT_I; EQ; NE; LT; GT; LE; GE; EQ_I; NE_I; LT_I;
  GT_I; LE_I; GE_I; EQ_F; NE_F; LT_F; GT_F; LE_F; GE_F; INT_TO_FLOAT; FLOAT_TO_INT;
  INT_TO_BOOL; BOOL_TO_INT; EXT; TRUNC; COPY; ASSERT; NOP; COMMENT; DEBUG; TENSOR_INIT;
  TENSOR_GET; TENSOR_SET; TENSOR_SHAPE; TENSOR_RESHAPE; TENSOR_SLICE; MATMUL; CONV2D; RELU;
  SIGMOID; TANH; SOFTMAX].

(** The number [auto()] gives. *)
Definition opcode_id (o : IROpcode) : nat :=
  match o with
  | LABEL => 1 | GOTO => 2 | IF_GOTO => 3 | PHI => 4 | CALL => 5 | RETURN => 6 | RET => 7
  | HALT => 8 | ALLOCA => 9 | LOAD => 10 | STORE => 11 | MEMCPY => 12 | GEP => 13 | ADD => 14
  | SUB => 15 | MUL => 16 | DIV => 17 | MOD => 18 | NEG => 19 | ADD_I => 20 | SUB_I => 21
  | MUL_I => 22 | DIV_I => 23 | MOD_I => 24 | ADD_F => 25 | SUB_F => 26 | MUL_F => 27
  | DIV_F => 28 | AND => 29 | OR => 30 | XOR => 31 | NOT => 32 | SHL => 33 | SHR => 34
  | AND_I => 35 | OR_I => 36 | XOR_I => 37 | NOT_I => 38 | EQ => 39 | NE => 40 | LT => 41
  | GT => 42 | LE => 43 | GE => 44 | EQ_I => 45 | NE_I => 46 | LT_I => 47 | GT_I => 48
  | LE_I => 49 | GE_I => 50 | EQ_F => 51 | NE_F => 52 | LT_F => 53 | GT_F => 54 | LE_F => 55
  | GE_F => 56 | INT_TO_FLOAT => 57 | FLOAT_TO_INT => 58 | INT_TO_BOOL => 59
  | BOOL_TO_INT => 60 | EXT => 61 | TRUNC => 62 | COPY => 63 | ASSERT => 64 | NOP => 65
  | COMMENT => 66 | DEBUG => 67 | TENSOR_INIT => 68 | TENSOR_GET => 69 | TENSOR_SET => 70
  | TENSOR_SHAPE => 71 | TENSOR_RESHAPE => 72 | TENSOR_SLICE => 73 | MATMUL => 74
  | CONV2D => 75 | RELU => 76 | SIGMOID => 77 | TANH => 78 | SOFTMAX => 79
  end%nat.

(** [opcode.name]. *)
Definition opcode_name (o : IROpcode) : string :=
  match o with
  | LABEL => "LABEL" | GOTO => "GOTO" | IF_GOTO => "IF_GOTO" | PHI => "PHI" | CALL => "CALL"
  | RETURN => "RETURN" | RET => "RET" | HALT => "HALT" | ALLOCA => "ALLOCA" | LOAD => "LOAD"
  | STORE => "STORE" | MEMCPY => "MEMCPY" | GEP => "GEP" | ADD => "ADD" | SUB => "SUB"
  | MUL => "MUL" | DIV => "DIV" | MOD => "MOD" | NEG => "NEG" | ADD_I => "ADD_I"
  | SUB_I => "SUB_I" | MUL_I => "MUL_I" | DIV_I => "DIV_I" | MOD_I => "MOD_I"
  | ADD_F => "ADD_F" | SUB_F => "SUB_F" | MUL_F => "MUL_F" | DIV_F => "DIV_F" | AND => "AND"
  | OR => "OR" | XOR => "XOR" | NOT => "NOT" | SHL => "SHL" | SHR => "SHR" | AND_I => "AND_I"
  | OR_I => "OR_I" | XOR_I => "XOR_I" | NOT_I => "NOT_I" | EQ => "EQ" | NE => "NE" | LT => "LT"
  | GT => "GT" | LE => "LE" | GE => "GE" | EQ_I => "EQ_I" | NE_I => "NE_I" | LT_I => "LT_I"
  | GT_I => "GT_I" | LE_I => "LE_I" | GE_I => "GE_I" | EQ_F => "EQ_F" | NE_F => "NE_F"
  | LT_F => "LT_F" | GT_F => "GT_F" | LE_F => "LE_F" | GE_F => "GE_F"
  | INT_TO_FLOAT => "INT_TO_FLOAT" | FLOAT_TO_INT => "FLOAT_TO_INT"
  | INT_TO_BOOL => "INT_TO_BOOL" | BOOL_TO_INT => "BOOL_TO_INT" | EXT => "EXT"
  | TRUNC => "TRUNC" | COPY => "COPY" | ASSERT => "ASSERT" | NOP => "NOP"
  | COMMENT => "COMMENT" | DEBUG => "DEBUG" | TENSOR_INIT => "TENSOR_INIT"
  | TENSOR_GET => "TENSOR_GET" | TENSOR_SET => "TENSOR_SET" | TENSOR_SHAPE => "TENSOR_SHAPE"
  | TENSOR_RESHAPE => "TENSOR_RESHAPE" | TENSOR_SLICE => "TENSOR_SLICE" | MATMUL => "MATMUL"
  | CONV2D => "CONV2D" | RELU => "RELU" | SIGMOID => "SIGMOID" | TANH => "TANH"
  | SOFTMAX => "SOFTMAX"
  end.

Lemma opcode_of_id o : opcodes !! pred (opcode_id o) = Some o.
Proof. by destruct o. Qed.

#[export] Instance IROpcode_eq_dec : EqDecision IROpcode.
Proof.
  refine (λ a b, cast_if (decide (opcode_id a = opcode_id b)));
    [abstract (pose proof (opcode_of_id a); pose proof (opcode_of_id b); congruence)|congruence].
Defined.

Module IROpcode.
(** [opcode in {..}]. *)
Definition among (o : IROpcode) (l : list IROpcode) : bool := bool_decide (o ∈ l).

Definition is_arithmetic (o : IROpcode) : bool :=
  among o
    [ADD; SUB; MUL; DIV; MOD; NEG; ADD_I; SUB_I; MUL_I; DIV_I; MOD_I; ADD_F; SUB_F; MUL_F;
    DIV_F].
Definition is_comparison (o : IROpcode) : bool :=
  among o
    [EQ; NE; LT; GT; LE; GE; EQ_I; NE_I; LT_I; GT_I; LE_I; GE_I; EQ_F; NE_F; LT_F; GT_F; LE_F;
    GE_F].
Definition is_bitwise (o : IROpcode) : bool :=
  among o
    [AND; OR; XOR; NOT; SHL; SHR; AND_I; OR_I; XOR_I; NOT_I].
Definition is_control_flow (o : IROpcode) : bool :=
  among o
    [LABEL; GOTO; IF_GOTO; PHI; CALL; RETURN; RET; HALT].
Definition is_memory (o : IROpcode) : bool :=
  among o
    [ALLOCA; LOAD; STORE; MEMCPY; GEP].
Definition is_tensor_op (o : IROpcode) : bool :=
  among o
    [TENSOR_INIT; TENSOR_GET; TENSOR_SET; TENSOR_SHAPE; TENSOR_RESHAPE; TENSOR_SLICE; MATMUL;
    CONV2D; RELU; SIGMOID; TANH; SOFTMAX].
Definition is_conversion (o : IROpcode) : bool :=
  among o
    [INT_TO_FLOAT; FLOAT_TO_INT; INT_TO_BOOL; BOOL_TO_INT; EXT; TRUNC].
Definition is_terminator (o : IROpcode) : bool :=
  among o
    [GOTO; IF_GOTO; RETURN; RET; HALT].
Definition has_side_effects (o : IROpcode) : bool :=
  among o
    [STORE; CALL; RETURN; RET; GOTO; IF_GOTO; ASSERT; TENSOR_SET].
End IROpcode.

Inductive IRValueType :=
  | VOID | INT1 | INT8 | INT16 | INT32 | INT64 | UINT8 | UINT16 | UINT32 | UINT64 | FLOAT32
  | FLOAT64 | POINTER | ARRAY | TENSOR | FUNCTION | STRUCT | STRING.

#[export] Instance IRValueType_eq_dec : EqDecision IRValueType.
Proof. solve_decision. Defined.

(** The Python value of a constant; a float is its binary64 pattern. *)
Inductive const := CNone | CBool (b : bool) | CInt (z : Z) | CFloat (bits : Z) | CStr (s : string).

Record IRValue := mk_value {
  v_name : string;
  value_type : IRValueType;
  v_value : const;
  is_constant : bool;
}.

(** [__eq__]. *)
Definition same_value (a b : IRValue) : bool :=
  bool_decide (v_name a = v_name b) && bool_decide (value_type a = value_type b).

Record IRInstruction := mk_instr {
  opcode : IROpcode;
  dest : option IRValue;
  operands : list IRValue;
  label : option string;
  comment : string;
}.

(** The equality of lists and options of values. *)
Fixpoint same_values (l k : list IRValue) : bool :=
  match l, k with
  | [], [] => true
  | a :: l', b :: k' => same_value a b && same_values l' k'
  | _, _ => false
  end.
Definition same_dest (a b : option IRValue) : bool :=
  match a, b with
  | None, None => true
  | Some a, Some b => same_value a b
  | _, _ => false
  end.

Definition same_instr (i j : IRInstruction) : bool :=
  bool_decide (opcode i = opcode j) && same_dest (dest i) (dest j) &&
  same_values (operands i) (operands j) && bool_decide (label i = label j) &&
  bool_decide (comment i = comment j).

Record BasicBlock := mk_block {
  b_name : string;
  instructions : list IRInstruction;
}.

Module BasicBlock.
Definition with_instructions (l : list IRInstruction) (b : BasicBlock) : BasicBlock := mk_block (b_name b) l.

Definition add_instruction (i : IRInstruction) (b : BasicBlock) : BasicBlock :=
  with_instructions (instructions b ++ [i]) b.

(** [l.index(i)]. *)
Definition index (i : IRInstruction) (l : list IRInstruction) : option nat :=
  fst <$> list_find (λ j, same_instr j i = true) l.

(** [if instr in l: l.remove(instr)]. *)
Definition remove (i : IRInstruction) (l : list IRInstruction) : list IRInstruction :=
  match index i l with Some n => delete n l | None => l end.
Definition remove_instruction (i : IRInstruction) (b : BasicBlock) : BasicBlock :=
  with_instructions (remove i (instructions b)) b.

(** [l[l.index(old)] = new]; [ValueError] when there is no such instruction. *)
Definition replace (old new : IRInstruction) (l : list IRInstruction) : res (list IRInstruction) :=
  match index old l with Some n => Ok (<[n := new]> l) | None => Err ValueError end.
Definition replace_instruction (old new : IRInstruction) (b : BasicBlock) : res BasicBlock :=
  l ← replace old new (instructions b); Ok (with_instructions l b).

Definition terminator (b : BasicBlock) : option IRInstruction :=
  match last (instructions b) with
  | Some i => if IROpcode.is_terminator (opcode i) then Some i else None
  | None => None
  end.
Definition is_empty (b : BasicBlock) : bool := bool_decide (instructions b = []).
End BasicBlock.

Record IRFunction := mk_function {
  f_name : string;
  return_type : IRValueType;
  params : list IRValue;
  blocks : list BasicBlock;
}.

Definition with_blocks (bs : list BasicBlock) (f : IRFunction) : IRFunction :=
  mk_function (f_name f) (return_type f) (params f) bs.
