(* ===== verification/Optimizer.v ===== *)
(** The optimiser of the compiler: compiler/src/middle/optimizer.py, the passes on
    straight-line code (constant folding, dead code elimination, common
    subexpressions, copy propagation, strength reduction) and the driver.

    Float arithmetic and the texts of floats are the class [Floats]. An exception in a
    pass ends the compilation, so its partial effect is not kept. *)

From Stdlib Require Import String.
From stdpp Require Import pretty.
From S2P Require Import Prelude Bytes Utf8 Str PyNum Ir.

Open Scope string_scope.
Open Scope list_scope.
Open Scope Z_scope.

(** Binary64 arithmetic, [str] of a float and [float] of a text. *)
Class Floats := {
  fadd : Z → Z → Z;
  fsub : Z → Z → Z;
  fmul : Z → Z → Z;
  fdiv : Z → Z → Z;
  float_text : Z → string;
  float_parse : string → option Z;
}.

(** A loop that may raise. *)
Fixpoint res_fold {A B} (f : B → A → res B) (l : list A) (b : B) : res B :=
  match l with
  | [] => Ok b
  | a :: l' => b' ← f b a; res_fold f l' b'
  end.

Section WithFloats.
Context `{FL : Floats}.

(** * Constants *)

Definition int_text (z : Z) : res string :=
  if 10 ^ max_str_digits <=? Z.abs z then Err ValueError else Ok (pretty z).

Definition create_constant_int (z : Z) : res IRValue :=
  n ← int_text z; Ok (mk_value n INT32 (CInt z) true).
Definition create_constant_float (f : Z) : IRValue := mk_value (float_text f) FLOAT64 (CFloat f) true.
Definition create_constant_bool (b : bool) : IRValue :=
  mk_value (if b then "true" else "false") INT1 (CBool b) true.

Definition is_zero_float (f : Z) : bool := (f =? 0) || (f =? 2 ^ 63).

(** [int(v) if v else 0]. *)
Definition as_int (c : const) : res Z :=
  match c with
  | CNone => Ok 0
  | CBool b => Ok (if b then 1 else 0)
  | CInt z => Ok z
  | CFloat f => if is_zero_float f then Ok 0 else int_of_float f
  | CStr s =>
      if decide (s = "") then Ok 0
      else match py_int (str s) with Some z => Ok z | None => Err ValueError end
  end.

(** [float(v) if v else 0.0]. *)
Definition as_float (c : const) : res Z :=
  match c with
  | CNone => Ok 0
  | CBool b => float_of_int (if b then 1 else 0)
  | CInt z => float_of_int z
  | CFloat f => if is_zero_float f then Ok 0 else Ok f
  | CStr s =>
      if decide (s = "") then Ok 0
      else match float_parse s with Some f => Ok f | None => Err ValueError end
  end.

(** The branches of [_eval_constant_op]. *)
Definition eval_op (o : IROpcode) (lv rv lf rf : Z) : res (option IRValue) :=
  let int z := Some <$> create_constant_int z in
  let float f := Ok (Some (create_constant_float f)) in
  let bool b := Ok (Some (create_constant_bool b)) in
  match o with
  | ADD | ADD_I => int (lv + rv)
  | ADD_F => float (fadd lf rf)
  | SUB | SUB_I => int (lv - rv)
  | SUB_F => float (fsub lf rf)
  | MUL | MUL_I => int (lv * rv)
  | MUL_F => float (fmul lf rf)
  | DIV | DIV_I => if rv =? 0 then Ok None else int (lv / rv)
  | DIV_F => if is_zero_float rf then Ok None else float (fdiv lf rf)
  | MOD | MOD_I => if rv =? 0 then Ok None else int (lv mod rv)
  | AND_I => int (Z.land lv rv)
  | OR_I => int (Z.lor lv rv)
  | XOR_I => int (Z.lxor lv rv)
  | SHL => if rv <? 0 then Err ValueError else int (Z.shiftl lv rv)
  | SHR => if rv <? 0 then Err ValueError else int (Z.shiftr lv rv)
  | EQ | EQ_I => bool (lv =? rv)
  | NE | NE_I => bool (negb (lv =? rv))
  | LT | LT_I => bool (lv <? rv)
  | GT | GT_I => bool (rv <? lv)
  | LE | LE_I => bool (lv <=? rv)
  | GE | GE_I => bool (rv <=? lv)
  | NEG => int (- lv)
  | _ => Ok None
  end.

(** [except (ValueError, TypeError, ZeroDivisionError): pass]. *)
Definition or_none {A} (m : res (option A)) : res (option A) :=
  match m with
  | Err ValueError | Err TypeError | Err ZeroDivisionError => Ok None
  | _ => m
  end.

Definition eval_constant_op (o : IROpcode) (lhs rhs : IRValue) : res (option IRValue) :=
  or_none (lv ← as_int (v_value lhs);
           rv ← as_int (v_value rhs);
           lf ← as_float (v_value lhs);
           rf ← as_float (v_value rhs);
           eval_op o lv rv lf rf).

(** * Constant folding *)

(** The text of a value in a comment. *)
Definition const_text (c : const) : res string :=
  match c with
  | CNone => Ok "None"
  | CBool b => Ok (if b then "True" else "False")
  | CInt z => int_text z
  | CFloat f => Ok (float_text f)
  | CStr s => Ok s
  end.

(** The instruction that replaces an instruction, if any. *)
Definition fold_instr (i : IRInstruction) : res (option IRInstruction) :=
  match operands i, dest i with
  | [lhs; rhs], d =>
      if IROpcode.is_arithmetic (opcode i) && is_constant lhs && is_constant rhs then
        result ← eval_constant_op (opcode i) lhs rhs;
        match result, d with
        | Some v, Some d =>
            a ← const_text (v_value lhs);
            b ← const_text (v_value rhs);
            Ok (Some (mk_instr COPY (Some d) [v] None
                        ("constant folded " +:+ a +:+ " " +:+ opcode_name (opcode i) +:+ " " +:+ b)))
        | _, _ => Ok None
        end
      else Ok None
  | _, _ => Ok None
  end.

(** What a pass does to a block: the instructions and [self._changed]. *)
Definition pass_state : Type := list IRInstruction * bool.

(** [block.replace_instruction(instr, new)] at position [n], if [f] has a new one. *)
Definition rewrite_step (f : IRInstruction → res (option IRInstruction)) (s : pass_state) (n : nat)
    : res pass_state :=
  match s.1 !! n with
  | None => Ok s
  | Some i =>
      r ← f i;
      match r with
      | None => Ok s
      | Some new => l ← BasicBlock.replace i new s.1; Ok (l, true)
      end
  end.

(** The loop over the positions of a block. *)
Definition rewrite_block (f : IRInstruction → res (option IRInstruction)) (s : pass_state) : res pass_state :=
  res_fold (rewrite_step f) (seq 0 (length s.1)) s.

Definition fold_block : pass_state → res pass_state := rewrite_block fold_instr.

(** A pass that treats the blocks of a function one by one. *)
Definition each_block (f : pass_state → res pass_state) (s : IRFunction * bool) : res (IRFunction * bool) :=
  r ← res_fold (λ (acc : list BasicBlock * bool) b,
         s' ← f (instructions b, acc.2);
         Ok (acc.1 ++ [BasicBlock.with_instructions s'.1 b], s'.2))
       (blocks s.1) ([], s.2);
  Ok (with_blocks r.1 s.1, r.2).

Definition constant_folding : IRFunction * bool → res (IRFunction * bool) := each_block fold_block.

(** * Dead code elimination *)

(** [name.startswith('%')]; the name of a removable use is not empty. *)
Definition is_temp (n : string) : bool := String.prefix "%" n.

Definition used_in (i : IRInstruction) : list string :=
  filter (λ n, is_temp n = true) (v_name <$> operands i).
Definition used_vars (f : IRFunction) : list string :=
  concat ((λ b, concat (used_in <$> instructions b)) <$> blocks f).

Definition important (i : IRInstruction) : bool :=
  IROpcode.is_terminator (opcode i) || IROpcode.has_side_effects (opcode i) ||
  bool_decide (opcode i = CALL) || bool_decide (opcode i = STORE).

Definition removable (used : list string) (i : IRInstruction) : bool :=
  negb (important i) &&
  match dest i with
  | Some d => bool_decide (v_name d ∉ used) && negb (IROpcode.has_side_effects (opcode i))
  | None => false
  end.

Definition dce_block (used : list string) (s : pass_state) : pass_state :=
  foldl (λ s i, (BasicBlock.remove i s.1, true)) s (filter (λ i, removable used i = true) s.1).

Definition dead_code_elimination (s : IRFunction * bool) : res (IRFunction * bool) :=
  each_block (λ st, Ok (dce_block (used_vars s.1) st)) s.

(** * Common subexpressions *)

Definition cse_key (i : IRInstruction) : IROpcode * list string := (opcode i, v_name <$> operands i).

(** The scan of a block: the first instruction of each key, and the pairs to replace. *)
Fixpoint cse_scan (seen : list ((IROpcode * list string) * IRInstruction)) (l : list IRInstruction)
    : list (IRInstruction * IRInstruction) :=
  match l with
  | [] => []
  | i :: l' =>
      if IROpcode.is_arithmetic (opcode i) && bool_decide (is_Some (dest i)) then
        match list_find (λ x, x.1 = cse_key i) seen with
        | Some (_, x) => (i, x.2) :: cse_scan seen l'
        | None => cse_scan ((cse_key i, i) :: seen) l'
        end
      else cse_scan seen l'
  end.

Definition cse_step (s : pass_state) (p : IRInstruction * IRInstruction) : res pass_state :=
  match dest p.1, dest p.2 with
  | Some d, Some e =>
      l ← BasicBlock.replace p.1 (mk_instr COPY (Some d) [e] None ("CSE " +:+ v_name e)) s.1;
      Ok (l, true)
  | _, _ => Ok s
  end.
Definition cse_block (s : pass_state) : res pass_state := res_fold cse_step (cse_scan [] s.1) s.
Definition common_subexpression_elimination : IRFunction * bool → res (IRFunction * bool) :=
  each_block cse_block.

(** * Copy propagation *)

Definition add_copy (m : gmap string IRValue) (i : IRInstruction) : gmap string IRValue :=
  match dest i, operands i with
  | Some d, v :: _ => if bool_decide (opcode i = COPY) then <[v_name d := v]> m else m
  | _, _ => m
  end.
Definition value_map (f : IRFunction) : gmap string IRValue :=
  foldl add_copy ∅ (concat (instructions <$> blocks f)).

Definition propagated (m : gmap string IRValue) (v : IRValue) : option IRValue :=
  if is_temp (v_name v) then m !! v_name v else None.
Definition propagate_instr (m : gmap string IRValue) (s : bool) (i : IRInstruction) : IRInstruction * bool :=
  (mk_instr (opcode i) (dest i) ((λ v, default v (propagated m v)) <$> operands i) (label i) (comment i),
   s || existsb (λ v, bool_decide (is_Some (propagated m v))) (operands i)).
Definition propagate_block (m : gmap string IRValue) (s : pass_state) : pass_state :=
  ((λ i, (propagate_instr m false i).1) <$> s.1,
   s.2 || existsb (λ i, (propagate_instr m false i).2) s.1).

Definition copy_propagation (s : IRFunction * bool) : res (IRFunction * bool) :=
  each_block (λ st, Ok (propagate_block (value_map s.1) st)) s.

(** * Strength reduction *)

Definition is_power (z : Z) : bool := (0 <? z) && (Z.land z (z - 1) =? 0).

(** [val.bit_length() - 1] of a positive number. *)
Definition log_of (z : Z) : Z := Z.log2 z.

Definition shift_by (o : IROpcode) (d lhs : IRValue) (n : Z) (text : string) : res (option IRInstruction) :=
  c ← create_constant_int n; Ok (Some (mk_instr o (Some d) [lhs; c] None text)).

Definition strength_mul (d : option IRValue) (lhs : IRValue) (val : Z) : res (option IRInstruction) :=
  match d with
  | None => Ok None
  | Some d =>
      if val =? 2 then shift_by SHL d lhs 1 "strength reduction: *2 -> <<1"
      else if val =? 0 then
        c ← create_constant_int 0; Ok (Some (mk_instr COPY (Some d) [c] None "strength reduction: *0"))
      else if val =? 1 then Ok (Some (mk_instr COPY (Some d) [lhs] None "strength reduction: *1"))
      else if is_power val then
        if 0 <? log_of val then
          a ← int_text val;
          b ← int_text (log_of val);
          shift_by SHL d lhs (log_of val) ("strength reduction: *" +:+ a +:+ " -> <<" +:+ b)
        else Ok None
      else Ok None
  end.

Definition strength_div (d : option IRValue) (lhs : IRValue) (val : Z) : res (option IRInstruction) :=
  match d with
  | None => Ok None
  | Some d =>
      if val =? 1 then Ok (Some (mk_instr COPY (Some d) [lhs] None "strength reduction: /1"))
      else if is_power val then
        if 0 <? log_of val then
          a ← int_text val;
          b ← int_text (log_of val);
          shift_by SHR d lhs (log_of val) ("strength reduction: /" +:+ a +:+ " -> >>" +:+ b)
        else Ok None
      else Ok None
  end.

Definition strength_instr (i : IRInstruction) : res (option IRInstruction) :=
  match operands i with
  | [lhs; rhs] =>
      if is_constant rhs then
        if bool_decide (opcode i = MUL_I) then val ← as_int (v_value rhs); strength_mul (dest i) lhs val
        else if bool_decide (opcode i = DIV_I) then val ← as_int (v_value rhs); strength_div (dest i) lhs val
        else Ok None
      else Ok None
  | _ => Ok None
  end.

(** The loop iterates over the list it changes, by position. *)
Definition strength_block : pass_state → res pass_state := rewrite_block strength_instr.
Definition strength_reduction : IRFunction * bool → res (IRFunction * bool) := each_block strength_block.

(** * The driver *)

Inductive pass := ConstantFolding | DeadCode | Cse | CopyPropagation | StrengthReduction.

Definition run_pass (p : pass) : IRFunction * bool → res (IRFunction * bool) :=
  match p with
  | ConstantFolding => constant_folding
  | DeadCode => dead_code_elimination
  | Cse => common_subexpression_elimination
  | CopyPropagation => copy_propagation
  | StrengthReduction => strength_reduction
  end.

(** [for func in self.ir_module.functions.values()]. *)
Definition run_module (p : pass) (fs : list IRFunction) : res (list IRFunction * bool) :=
  res_fold (λ (acc : list IRFunction * bool) f, r ← run_pass p (f, acc.2); Ok (acc.1 ++ [r.1], r.2)) fs ([], false).

(** [while self._changed and iteration < 10]. *)
Fixpoint iterate (n : nat) (p : pass) (fs : list IRFunction) (changed : bool) : res (list IRFunction) :=
  match n with
  | O => Ok fs
  | S n' => if changed then s ← run_module p fs; iterate n' p s.1 s.2 else Ok fs
  end.

(** [passes or ["constant_folding", "dead_code_elimination"]]. *)
Definition optimize (passes : list pass) (fs : list IRFunction) : res (list IRFunction) :=
  let passes := match passes with [] => [ConstantFolding; DeadCode] | _ => passes end in
  res_fold (λ fs p, iterate 10 p fs true) passes fs.
End WithFloats.
