(* ===== verification/Llvm.v ===== *)
(** What the generated LLVM code of an instruction computes: compiler/src/backend/llvm_gen.py.

    The generator emits one LLVM instruction on [i32] for each instruction of the
    integer fragment: [add], [sub], [mul], [sdiv], [srem], [and], [or], [xor],
    [shl], [ashr], [sub] from 0 for a negation, [xor] with -1 for a complement, comparisons
    extended to [i32], [alloca], [load], [store], [call] and [ret], and for a copy a [bitcast]
    from the operand's type to the destination's. Values here are 32-bit integers without
    their types, on which a [bitcast] is the identity; LLVM refuses one between types of
    different widths, which the model does not tell apart. The semantics below is that of these LLVM instructions: arithmetic
    wraps to 32 bits, division truncates, and what LLVM leaves undefined has no
    result. A variable keeps one slot of the stack; a register assigned again, which LLVM
    refuses, has its last value. The called functions are a
    parameter. Floats, tensors and jumps are outside the fragment: no result. *)

From Stdlib Require Import String.
From S2P Require Import Prelude Ir.

(** The signed 32-bit integer with the same bits. *)
Definition wrap32 (z : Z) : Z := (z + 2 ^ 31) mod 2 ^ 32 - 2 ^ 31.

Definition bool32 (b : bool) : option Z := Some (if b then 1 else 0).

(** The two-operand instructions. *)
Definition llvm_op (o : IROpcode) (a b : Z) : option Z :=
  match o with
  | ADD_I => Some (wrap32 (a + b))
  | SUB_I => Some (wrap32 (a - b))
  | MUL_I => Some (wrap32 (a * b))
  | DIV_I => if (b =? 0) || ((a =? - 2 ^ 31) && (b =? -1)) then None else Some (Z.quot a b)
  | MOD_I => if (b =? 0) || ((a =? - 2 ^ 31) && (b =? -1)) then None else Some (Z.rem a b)
  | AND_I => Some (Z.land a b)
  | OR_I => Some (Z.lor a b)
  | XOR_I => Some (Z.lxor a b)
  | SHL => if (0 <=? b) && (b <? 32) then Some (wrap32 (a * 2 ^ b)) else None
  | SHR => if (0 <=? b) && (b <? 32) then Some (a / 2 ^ b) else None
  | EQ_I => bool32 (a =? b)
  | NE_I => bool32 (negb (a =? b))
  | LT_I => bool32 (a <? b)
  | GT_I => bool32 (b <? a)
  | LE_I => bool32 (a <=? b)
  | GE_I => bool32 (b <=? a)
  | _ => None
  end.

(** [_get_operand_value] of a constant; an [i32] literal is taken modulo 2^32. A boolean is a
    literal of [INT1] only: as [i32] it is written [True]. *)
Definition literal (v : IRValue) : option Z :=
  match value_type v, v_value v with
  | (FLOAT64 | STRING), _ => None
  | INT1, CBool b => bool32 b
  | INT1, CInt z => bool32 (negb (z =? 0))
  | INT1, CNone => Some 0
  | _, CInt z => Some (wrap32 z)
  | _, CNone => Some 0
  | _, _ => None
  end.

(** The register of a name: [%x] is the register of [x] and of [%x]. *)
Definition register (n : string) : string := if String.prefix "%" n then n else "%" +:+ n.

Record state := mk_state {
  env : gmap string Z;
  memory : gmap Z Z;
}.

(** A block runs on or returns. *)
Inductive outcome :=
  | Running (s : state)
  | Returned (v : option Z) (m : gmap Z Z).

Definition operand (e : gmap string Z) (v : IRValue) : option Z :=
  if is_constant v then literal v else e !! register (v_name v).

Definition operand_values (e : gmap string Z) (l : list IRValue) : option (list Z) := mapM (operand e) l.

Definition assign (d : option IRValue) (v : Z) (s : state) : state :=
  match d with Some d => mk_state (<[register (v_name d) := v]> (env s)) (memory s) | None => s end.

Section WithCalls.
Variable slot : string → Z.
Variable call : string → list Z → gmap Z Z → option (Z * gmap Z Z).

(** What the code of an instruction does, given the values of its operands. *)
Inductive effect :=
  | Assign (v : Z) (m : gmap Z Z)
  | Keep (m : gmap Z Z)
  | Return (v : option Z) (m : gmap Z Z).

Definition effect_of (i : IRInstruction) (vs : list Z) (m : gmap Z Z) : option effect :=
  match opcode i, vs with
  | ALLOCA, _ => d ← dest i; Some (Assign (slot (v_name d)) m)
  | LOAD, p :: _ => v ← m !! p; Some (Assign v m)
  | STORE, p :: v :: _ => Some (Keep (<[p := v]> m))
  | CALL, _ => f ← head (operands i); r ← call (v_name f) vs m; Some (Assign r.1 r.2)
  | (RETURN | RET), _ => Some (Return (head vs) m)
  | COPY, v :: _ => Some (Assign v m)
  | NEG, v :: _ => Some (Assign (wrap32 (- v)) m)
  | NOT_I, v :: _ => Some (Assign (Z.lxor v (-1)) m)
  | o, a :: b :: _ => v ← llvm_op o a b; Some (Assign v m)
  | _, _ => None
  end.

(** The operands that are values: the first one of a call is the function. *)
Definition arguments (i : IRInstruction) : list IRValue :=
  if bool_decide (opcode i = CALL) then tail (operands i) else operands i.

(** An instruction without a destination or with too few operands has no code. *)
Definition emitted (i : IRInstruction) : bool :=
  let target n := bool_decide (is_Some (dest i)) && (n <=? length (operands i))%nat in
  match opcode i with
  | LABEL | COMMENT | NOP => false
  | STORE => (2 <=? length (operands i))%nat
  | ALLOCA => target 0%nat
  | LOAD | COPY | NEG | NOT_I => target 1%nat
  | ADD_I | SUB_I | MUL_I | DIV_I | MOD_I | AND_I | OR_I | XOR_I | SHL | SHR
  | EQ_I | NE_I | LT_I | GT_I | LE_I | GE_I => target 2%nat
  | _ => true
  end.

Definition run_instr (i : IRInstruction) (s : state) : option outcome :=
  vs ← operand_values (env s) (arguments i);
  e ← effect_of i vs (memory s);
  Some match e with
       | Assign v m => Running (assign (dest i) v (mk_state (env s) m))
       | Keep m => Running (mk_state (env s) m)
       | Return v m => Returned v m
       end.
Definition exec_instr (i : IRInstruction) (s : state) : option outcome :=
  if emitted i then run_instr i s else Some (Running s).

Fixpoint exec (l : list IRInstruction) (s : state) : option outcome :=
  match l with
  | [] => Some (Running s)
  | i :: l' =>
      o ← exec_instr i s;
      match o with Running s' => exec l' s' | Returned v m => Some (Returned v m) end
  end.
End WithCalls.

(** * Lemmas *)

Lemma arguments_of i : opcode i ≠ CALL → arguments i = operands i.
Proof. intros H. unfold arguments. by rewrite bool_decide_eq_false_2. Qed.

Lemma operand_values_1 e a x : operand e a = Some x → operand_values e [a] = Some [x].
Proof. unfold operand_values. simpl. by intros ->. Qed.

Lemma operand_values_2 e a b x y :
  operand e a = Some x → operand e b = Some y → operand_values e [a; b] = Some [x; y].
Proof. unfold operand_values. simpl. by intros -> ->. Qed.

Lemma wrap32_range z : - 2 ^ 31 <= wrap32 z < 2 ^ 31.
Proof. unfold wrap32. lia. Qed.

Lemma wrap32_small z : - 2 ^ 31 <= z < 2 ^ 31 → wrap32 z = z.
Proof. unfold wrap32. lia. Qed.

Lemma wrap32_eq a b : a mod 2 ^ 32 = b mod 2 ^ 32 → wrap32 a = wrap32 b.
Proof. intros H. unfold wrap32. rewrite <-(Z.add_mod_idemp_l a), <-(Z.add_mod_idemp_l b), H by lia. done. Qed.

Lemma wrap32_mod z : wrap32 z mod 2 ^ 32 = z mod 2 ^ 32.
Proof.
  unfold wrap32. rewrite <-Zminus_mod_idemp_l, Z.mod_mod by lia.
  rewrite Zminus_mod_idemp_l. f_equal. lia.
Qed.

Lemma wrap32_add a b : wrap32 (wrap32 a + wrap32 b) = wrap32 (a + b).
Proof. apply wrap32_eq. by rewrite Z.add_mod, !wrap32_mod, <-Z.add_mod by lia. Qed.

Lemma wrap32_sub a b : wrap32 (wrap32 a - wrap32 b) = wrap32 (a - b).
Proof. apply wrap32_eq. by rewrite Zminus_mod, !wrap32_mod, <-Zminus_mod. Qed.

Lemma wrap32_mul a b : wrap32 (wrap32 a * wrap32 b) = wrap32 (a * b).
Proof. apply wrap32_eq. by rewrite Z.mul_mod, !wrap32_mod, <-Z.mul_mod by lia. Qed.
