(* ===== verification/OptimizerCorrect.v ===== *)
(** The optimiser preserves what the generated code computes: the passes of Optimizer on
    straight-line blocks against the semantics of Llvm. *)

From Stdlib Require Import String.
From stdpp Require Import pretty.
From S2P Require Import Prelude Bytes Utf8 Str PyNum Ir Optimizer Llvm.

Open Scope string_scope.
Open Scope list_scope.
Open Scope Z_scope.

Section WithFloats.
Context `{FL : Floats}.
Variable slot : string → Z.
Variable call : string → list Z → gmap Z Z → option (Z * gmap Z Z).
Abbreviation exec_instr := (exec_instr slot call).
Abbreviation exec := (exec slot call).

(** * Replacing instructions *)

(** Equal instructions are the same, as when the name of a constant gives its value. *)
Definition consistent (l : list IRInstruction) : Prop :=
  ∀ a b, a ∈ l → b ∈ l → same_instr a b = true → a = b.

Lemma same_value_refl v : same_value v v = true.
Proof. unfold same_value. by rewrite !bool_decide_eq_true_2. Qed.

Lemma same_instr_refl i : same_instr i i = true.
Proof.
  unfold same_instr. rewrite !bool_decide_eq_true_2 by done.
  assert (∀ l, same_values l l = true) as H.
  { induction l as [|v l IH]; [done|]. cbn. by rewrite same_value_refl. }
  rewrite H. unfold same_dest. destruct (dest i); [by rewrite same_value_refl|done].
Qed.

Lemma same_instr_opcode i j : same_instr i j = true → opcode i = opcode j.
Proof. unfold same_instr. intros H. repeat (apply andb_true_iff in H as [H ?]). by apply bool_decide_eq_true in H. Qed.

Lemma same_instr_dest i j : same_instr i j = true → v_name <$> dest i = v_name <$> dest j.
Proof.
  unfold same_instr. rewrite !andb_true_iff. intros [[[[_ H] _] _] _]. unfold same_dest, same_value in H.
  destruct (dest i), (dest j); try done. cbn. f_equal.
  apply andb_true_iff in H as [H _]. by apply bool_decide_eq_true in H.
Qed.

Lemma replace_middle l1 i l2 new :
  (∀ j, j ∈ l1 → same_instr j i = false) → BasicBlock.replace i new (l1 ++ i :: l2) = Ok (l1 ++ new :: l2).
Proof.
  intros H. unfold BasicBlock.replace, BasicBlock.index.
  assert (list_find (λ j, same_instr j i = true) (l1 ++ i :: l2) = Some (length l1, i)) as ->.
  { apply list_find_Some. split_and!; [by apply list_lookup_middle|apply same_instr_refl|].
    intros k y Hk Hlt. rewrite lookup_app_l in Hk by done. apply list_elem_of_lookup_2 in Hk.
    by rewrite (H y Hk). }
  cbn. f_equal. by rewrite insert_app_r_alt, Nat.sub_diag by done.
Qed.

(** A condition on each instruction in the state it is executed in. *)
Fixpoint along (P : IRInstruction → state → Prop) (l : list IRInstruction) (s : state) : Prop :=
  match l with
  | [] => True
  | i :: l' =>
      P i s ∧ match exec_instr i s with Some (Running s') => along P l' s' | _ => True end
  end.

Lemma along_True l s : along (λ _ _, True) l s.
Proof. revert s. induction l as [|i l IH]; intros s; [done|]. cbn. split; [done|]. by repeat case_match. Qed.

(** A pass that replaces instructions one by one where [f] says so and that cannot meet
    an instruction it made is a map. *)
Section Rewriting.
Variable f : IRInstruction → res (option IRInstruction).
Definition rewritten (i : IRInstruction) : IRInstruction :=
  match f i with Ok (Some j) => j | _ => i end.
(** A made instruction is not one to replace. *)
Hypothesis fresh : ∀ i j k r, f i = Ok (Some j) → f k = Ok (Some r) → same_instr j k = false.

Lemma rewrite_from done_ todo c :
  consistent (done_ ++ todo) → (∀ i, i ∈ todo → ∃ r, f i = Ok r) →
  ∃ c', res_fold (rewrite_step f) (seq (length done_) (length todo)) ((rewritten <$> done_) ++ todo, c) =
        Ok ((rewritten <$> done_) ++ (rewritten <$> todo), c').
Proof.
  revert done_ c. induction todo as [|i todo IH]; intros done_ c Hc Hok; [by exists c|].
  cbn [length seq res_fold]. destruct (Hok i) as [r Hr]; [left|].
  assert (∃ c1, rewrite_step f ((rewritten <$> done_) ++ i :: todo, c) (length done_) =
                Ok ((rewritten <$> (done_ ++ [i])) ++ todo, c1)) as [c1 ->].
  { unfold rewrite_step. cbn [fst]. rewrite list_lookup_middle by (by rewrite length_fmap). rewrite Hr.
    cbn [mbind res_bind]. rewrite fmap_app, <-app_assoc. cbn [fmap list_fmap app].
    assert (rewritten i = default i r) as -> by (unfold rewritten; rewrite Hr; by destruct r).
    destruct r as [new|]; [|by exists c]. exists true.
    rewrite replace_middle; [done|]. intros j (k & -> & Hk)%list_elem_of_fmap.
    destruct (same_instr (rewritten k) i) eqn:E; [|done]. exfalso. unfold rewritten in E.
    destruct (f k) as [[k'|]|] eqn:Fk.
    - by rewrite (fresh _ _ _ _ Fk Hr) in E.
    - apply Hc in E as ->; [congruence|apply elem_of_app; by left|apply elem_of_app; right; left].
    - apply Hc in E as ->; [congruence|apply elem_of_app; by left|apply elem_of_app; right; left]. }
  cbn [mbind res_bind].
  destruct (IH (done_ ++ [i]) c1) as [c' Hc'].
  { by rewrite <-app_assoc. } { intros; apply Hok; by right. }
  exists c'. rewrite length_app in Hc'. cbn [length] in Hc'. rewrite Nat.add_1_r in Hc'. rewrite Hc'.
  by rewrite fmap_app, <-app_assoc.
Qed.

Lemma rewrite_all l c :
  consistent l → (∀ i, i ∈ l → ∃ r, f i = Ok r) →
  ∃ c', rewrite_block f (l, c) = Ok (rewritten <$> l, c').
Proof. intros Hc Hok. by apply (rewrite_from []). Qed.

(** One instruction's code computes at least what another's does. *)
Lemma rewrite_exec P l s o :
  (∀ i s o, i ∈ l → P i s → exec_instr i s = Some o → exec_instr (rewritten i) s = Some o) →
  along P l s → exec l s = Some o → exec (rewritten <$> l) s = Some o.
Proof.
  revert s. induction l as [|i l IH]; intros s Hi; [done|]. cbn [fmap list_fmap Llvm.exec along].
  intros [HP Hl]. destruct (exec_instr i s) as [o1|] eqn:E; [|done]. cbn [mbind option_bind].
  rewrite (Hi i s o1) by (try left; done). cbn [mbind option_bind].
  destruct o1; [|done]. apply IH; [|done]. intros; apply Hi; [by right|done..].
Qed.
End Rewriting.

(** * Constant folding *)

(** A constant the front end makes for integer code. *)
Definition i32_const (v : IRValue) : Prop :=
  is_constant v = true →
  match value_type v, v_value v with
  | (FLOAT64 | STRING), _ => False
  | INT1, (CBool _ | CNone) | INT32, CNone => True
  | INT32, CInt z => - 2 ^ 31 <= z < 2 ^ 31
  | _, _ => False
  end.
Definition i32_code (l : list IRInstruction) : Prop := Forall (λ i, Forall i32_const (operands i)) l.

(** No division of constants with a negative operand. *)
Definition division_safe (i : IRInstruction) : Prop :=
  (opcode i = DIV_I ∨ opcode i = MOD_I) →
  Forall (λ v, is_constant v = true → ∃ z, as_int (v_value v) = Ok z ∧ 0 <= z) (operands i).

Lemma int_text_ok z : Z.abs z < 10 ^ 100 → ∃ t, int_text z = Ok t.
Proof.
  intros Hz. unfold int_text.
  assert (10 ^ 100 <= 10 ^ max_str_digits) by (apply Z.pow_le_mono_r; unfold max_str_digits; lia).
  if_false. by eexists.
Qed.

Lemma float_of_nat_ok n : 0 <= n < 2 ^ 32 → ∃ f, float_of_nat n = Ok f.
Proof.
  intros Hn. unfold float_of_nat. destruct (n =? 0) eqn:E; [by eexists|].
  assert (Z.log2 n < 32) by (apply Z.log2_lt_pow2; lia). pose proof (Z.log2_nonneg n).
  pose proof (Z.log2_spec n ltac:(lia)) as [_ Hs]. if_true.
  assert (n * 2 ^ (52 - Z.log2 n) < 2 ^ 53).
  { replace (2 ^ 53) with (2 ^ Z.succ (Z.log2 n) * 2 ^ (52 - Z.log2 n)).
    - apply Z.mul_lt_mono_pos_r; [apply Z.pow_pos_nonneg; lia|done].
    - rewrite <-Z.pow_add_r by lia. f_equal. lia. }
  if_false. by eexists.
Qed.

Lemma float_of_int_ok z : - 2 ^ 31 <= z < 2 ^ 31 → ∃ f, float_of_int z = Ok f.
Proof.
  intros Hz. unfold float_of_int. case_match.
  - destruct (float_of_nat_ok (- z)) as [f ->]; [lia|]. by eexists.
  - apply float_of_nat_ok. lia.
Qed.

(** What a constant gives to the folder and to the generator. *)
Lemma i32_const_values v :
  i32_const v → is_constant v = true →
  ∃ z f t, as_int (v_value v) = Ok z ∧ as_float (v_value v) = Ok f ∧ const_text (v_value v) = Ok t ∧
    literal v = Some z ∧ - 2 ^ 31 <= z < 2 ^ 31.
Proof.
  intros Hv Hc. specialize (Hv Hc). unfold literal.
  destruct (v_value v) as [|b|z| |]; destruct (value_type v); try done.
  - by exists 0, 0, "None".
  - by exists 0, 0, "None".
  - destruct (float_of_int_ok (if b then 1 else 0)) as [f Hf]; [by destruct b|].
    exists (if b then 1 else 0), f, (if b then "True" else "False"). cbn. by destruct b.
  - destruct (float_of_int_ok z Hv) as [f Hf], (int_text_ok z) as [t Ht]; [lia|].
    exists z, f, t. cbn. rewrite Hf, Ht, wrap32_small by done. done.
Qed.

Lemma eval_op_exn o a b f g e : eval_op o a b f g = Err e → e = ValueError.
Proof.
  assert (∀ z, Some <$> create_constant_int z = Err e → e = ValueError) as H.
  { intros z. unfold create_constant_int, int_text. case_match; [by intros [= <-]|done]. }
  unfold eval_op. destruct o; try done; try apply H; case_match; try done; try apply H; by intros [= <-].
Qed.

Lemma or_none_ok {A} (m : res (option A)) :
  (∀ e, m = Err e → e = ValueError) → ∃ r, or_none m = Ok r ∧ (∀ a, r = Some a → m = Ok (Some a)).
Proof.
  intros H. destruct m as [r|e].
  - exists r. split; [done|]. by intros a ->.
  - rewrite (H e) by done. by exists None.
Qed.

(** An instruction the folder replaces. *)
Lemma fold_instr_cases i :
  Forall i32_const (operands i) →
  fold_instr i = Ok None ∨
  ∃ lhs rhs d a b f g v t,
    operands i = [lhs; rhs] ∧ dest i = Some d ∧ IROpcode.is_arithmetic (opcode i) = true ∧
    is_constant lhs = true ∧ is_constant rhs = true ∧
    as_int (v_value lhs) = Ok a ∧ as_int (v_value rhs) = Ok b ∧
    literal lhs = Some a ∧ literal rhs = Some b ∧
    eval_op (opcode i) a b f g = Ok (Some v) ∧
    fold_instr i = Ok (Some (mk_instr COPY (Some d) [v] None t)).
Proof.
  unfold fold_instr. destruct (operands i) as [|lhs [|rhs [|]]]; try (by left).
  intros [Hl [Hr _]%Forall_cons]%Forall_cons.
  destruct (IROpcode.is_arithmetic (opcode i)) eqn:Ha; [|by left].
  destruct (is_constant lhs) eqn:Cl; [|by left]. destruct (is_constant rhs) eqn:Cr; [|by left]. cbn [andb].
  destruct (i32_const_values lhs Hl Cl) as (a & f & ta & Ea & Ef & Ta & Va & _).
  destruct (i32_const_values rhs Hr Cr) as (b & g & tb & Eb & Eg & Tb & Vb & _).
  unfold eval_constant_op. rewrite Ea, Eb, Ef, Eg. cbn [mbind res_bind].
  destruct (or_none_ok (eval_op (opcode i) a b f g)) as (r & -> & Hv); [apply eval_op_exn|]. cbn [mbind res_bind].
  destruct r as [v|]; [|by left]. destruct (dest i) as [d|]; [|by left].
  rewrite Ta, Tb. cbn [mbind res_bind]. right.
  exists lhs, rhs, d, a, b, f, g, v. eexists. split_and!; try done. by apply Hv.
Qed.

Lemma create_int_value z v : Some <$> create_constant_int z = Ok (Some v) → is_constant v = true ∧ literal v = Some (wrap32 z).
Proof. unfold create_constant_int. destruct (int_text z) as [t|]; [|done]. by intros [= <-]. Qed.

(** The folded constant is the value the instruction computes. *)
Lemma fold_value o a b f g v w :
  IROpcode.is_arithmetic o = true → o ≠ NEG → eval_op o a b f g = Ok (Some v) → llvm_op o a b = Some w →
  ((o = DIV_I ∨ o = MOD_I) → 0 <= a ∧ 0 <= b) →
  - 2 ^ 31 <= a < 2 ^ 31 → - 2 ^ 31 <= b < 2 ^ 31 →
  is_constant v = true ∧ literal v = Some w.
Proof.
  intros Ha Hn Ev Hw Hd Ra Rb. destruct o; try (vm_compute in Ha; discriminate Ha); try discriminate Hw;
    try congruence; cbn in Ev, Hw.
  - apply create_int_value in Ev as [Hc ->]. injection Hw as <-. done.
  - apply create_int_value in Ev as [Hc ->]. injection Hw as <-. done.
  - apply create_int_value in Ev as [Hc ->]. injection Hw as <-. done.
  - destruct Hd; [by left|]. destruct (b =? 0) eqn:E; [done|]. apply create_int_value in Ev as [Hc ->].
    cbn in Hw. case_match; [done|]. injection Hw as <-. split; [done|]. cbn.
    rewrite Z.quot_div_nonneg, wrap32_small by lia. done.
  - destruct Hd; [by right|]. destruct (b =? 0) eqn:E; [done|]. apply create_int_value in Ev as [Hc ->].
    cbn in Hw. case_match; [done|]. injection Hw as <-. split; [done|]. cbn.
    rewrite Z.rem_mod_nonneg, wrap32_small by lia. done.
Qed.

(** The code of an instruction with two operands whose values are known. *)
Lemma exec_two i a b d x y s :
  IROpcode.is_arithmetic (opcode i) = true ∨ opcode i ∈ [SHL; SHR] →
  operands i = [a; b] → dest i = Some d → operand (env s) a = Some x → operand (env s) b = Some y →
  exec_instr i s =
    (if decide (opcode i = NEG) then Some (Running (assign (Some d) (wrap32 (- x)) s))
     else w ← llvm_op (opcode i) x y; Some (Running (assign (Some d) w s))).
Proof.
  intros Ho Hops Hd Ha Hb. unfold Llvm.exec_instr, run_instr, emitted.
  assert (opcode i ≠ CALL) by (intros E; rewrite E in Ho; destruct Ho as [Ho|Ho]; [done|set_solver]).
  rewrite arguments_of, Hops, Hd by done. rewrite (operand_values_2 _ _ _ x y) by done.
  cbn [mbind option_bind length]. rewrite (bool_decide_eq_true_2 (is_Some _)) by by eexists. unfold effect_of.
  destruct (opcode i) eqn:Eo; try (destruct Ho as [Ho|Ho]; [by vm_compute in Ho|clear -Ho; set_solver]);
    cbn; destruct s; done || (by destruct (llvm_op _ _ _)) || by repeat case_match.
Qed.

Lemma exec_copy i a d x s :
  opcode i = COPY → operands i = [a] → dest i = Some d → operand (env s) a = Some x →
  exec_instr i s = Some (Running (assign (Some d) x s)).
Proof.
  intros Ho Hops Hd Ha. unfold Llvm.exec_instr, emitted, run_instr. rewrite Ho, Hd, Hops. cbn [length].
  rewrite (bool_decide_eq_true_2 (is_Some _)) by by eexists. cbn [andb Nat.leb].
  rewrite arguments_of, Hops by (by rewrite Ho). rewrite (operand_values_1 _ _ x) by done.
  unfold effect_of. rewrite Ho. cbn. by destruct s.
Qed.

Lemma fold_exec i s o :
  Forall i32_const (operands i) → division_safe i →
  exec_instr i s = Some o → exec_instr (rewritten fold_instr i) s = Some o.
Proof.
  intros Hi Hd. unfold rewritten.
  destruct (fold_instr_cases i Hi) as [-> |(lhs & rhs & d & a & b & f & g & v & t & Eo & Ed & Ha & Cl & Cr & Ia & Ib & Va & Vb & Ev & ->)]; [done|].
  destruct (i32_const_values lhs) as (a' & _ & _ & Ia' & _ & _ & _ & Ra); [by rewrite Eo in Hi; apply Forall_cons in Hi as [? _]|done|].
  destruct (i32_const_values rhs) as (b' & _ & _ & Ib' & _ & _ & _ & Rb); [by rewrite Eo in Hi; apply Forall_cons in Hi as [_ [? _]%Forall_cons]|done|].
  assert (a' = a) as -> by congruence. assert (b' = b) as -> by congruence.
  assert (operand (env s) lhs = Some a ∧ operand (env s) rhs = Some b) as [Oa Ob]
    by (unfold operand; by rewrite Cl, Cr).
  assert (∀ w, literal v = Some w → is_constant v = true →
    exec_instr (mk_instr COPY (Some d) [v] None t) s = Some (Running (assign (Some d) w s))) as Hcopy.
  { intros w Hv Hc. apply (exec_copy _ v d); try done. unfold operand. by rewrite Hc. }
  rewrite (exec_two i lhs rhs d a b) by (done || by left). case_decide as En.
  - rewrite En in Ev. cbn in Ev. apply create_int_value in Ev as [Hc Hv].
    by rewrite (Hcopy (wrap32 (- a))).
  - destruct (llvm_op (opcode i) a b) as [w|] eqn:Ew; [|done]. cbn [mbind option_bind].
    destruct (fold_value _ _ _ _ _ _ _ Ha En Ev Ew) as [Hc Hv]; try done.
    { intros Hdiv. specialize (Hd Hdiv). rewrite Eo in Hd. apply Forall_cons in Hd as [H1 [H2 _]%Forall_cons].
      destruct (H1 Cl) as (? & ? & ?), (H2 Cr) as (? & ? & ?). split; congruence. }
    by rewrite (Hcopy w).
Qed.

Lemma fold_instr_some i j :
  fold_instr i = Ok (Some j) → IROpcode.is_arithmetic (opcode i) = true ∧ opcode j = COPY.
Proof.
  unfold fold_instr. destruct (operands i) as [|lhs [|rhs [|]]]; try done.
  destruct (IROpcode.is_arithmetic (opcode i)); [|done]. destruct (is_constant lhs && is_constant rhs) eqn:E.
  - apply andb_true_iff in E as [-> ->]. cbn [andb].
    intros ([v|] & _ & H)%bind_Ok; [|done]. destruct (dest i); [|done].
    by apply bind_Ok in H as (? & _ & (? & _ & [= <-])%bind_Ok).
  - cbn [andb]. by rewrite E.
Qed.

Lemma fold_fresh i j k r :
  fold_instr i = Ok (Some j) → fold_instr k = Ok (Some r) → same_instr j k = false.
Proof.
  intros [_ Hj]%fold_instr_some [Hk _]%fold_instr_some. destruct (same_instr j k) eqn:E; [|done].
  apply same_instr_opcode in E. rewrite <-E, Hj in Hk. by vm_compute in Hk.
Qed.


(** * Dead code elimination *)

Definition agree (used : list string) (s s' : state) : Prop :=
  memory s = memory s' ∧ ∀ x, x ∈ used → env s !! x = env s' !! x.
Definition agree_outcome (used : list string) (o o' : outcome) : Prop :=
  match o, o' with
  | Running s, Running s' => agree used s s'
  | _, _ => o = o'
  end.

Lemma agree_assign used d v s s' : agree used s s' → agree used (assign d v s) (assign d v s').
Proof.
  intros [Hm He]. destruct d as [d|]; [|done]. split; [done|]. intros x Hx. cbn.
  destruct (decide (register (v_name d) = x)) as [->|]; [by rewrite !lookup_insert_eq|].
  by rewrite !lookup_insert_ne, He.
Qed.

(** The code of an instruction reads the environment at its operands only. *)
Lemma exec_instr_agree used i s s' o :
  agree used s s' → (∀ v, v ∈ arguments i → operand (env s) v = operand (env s') v) →
  exec_instr i s = Some o → ∃ o', exec_instr i s' = Some o' ∧ agree_outcome used o o'.
Proof.
  intros [Hm He] Hop. unfold Llvm.exec_instr. destruct (emitted i); [|by intros [= <-]; eexists].
  unfold run_instr, operand_values. rewrite <-Hm.
  rewrite (Forall_mapM_ext (operand (env s')) (operand (env s))); cycle 1.
  { apply Forall_forall. intros v Hv. symmetry. by apply Hop. }
  destruct (mapM _ _) as [vs|]; [|done]. cbn [mbind option_bind].
  destruct (effect_of slot call i vs (memory s)) as [e|]; [|done]. cbn [mbind option_bind]. intros [= <-].
  eexists. split; [done|]. destruct e; cbn; [by apply agree_assign|done|done].
Qed.

(** An instruction that is not important only assigns its destination. *)
Lemma unimportant_effect i vs m e :
  important i = false → effect_of slot call i vs m = Some e → (∃ v, e = Assign v m) ∨ e = Keep m.
Proof.
  unfold important, effect_of. intros Hi.
  destruct (opcode i); try (by vm_compute in Hi); destruct vs as [|a [|b vs]]; try done;
    try (intros [= <-]; eauto; fail);
    try (destruct (llvm_op _ a b); [|done]; intros [= <-]; eauto; fail);
    try (destruct (dest i); [|done]; intros [= <-]; eauto; fail);
    try (destruct (m !! a); [|done]; intros [= <-]; eauto; fail).
Qed.

(** Equal instructions are removed together. *)
Lemma removable_same used i j : same_instr i j = true → removable used i = removable used j.
Proof.
  intros E. unfold removable, important. rewrite (same_instr_opcode _ _ E).
  pose proof (same_instr_dest _ _ E) as Hd. destruct (dest i), (dest j); try done.
  cbn in Hd. injection Hd as ->. done.
Qed.

Lemma remove_middle l1 i l2 :
  (∀ j, j ∈ l1 → same_instr j i = false) → BasicBlock.remove i (l1 ++ i :: l2) = l1 ++ l2.
Proof.
  intros H. unfold BasicBlock.remove, BasicBlock.index.
  assert (list_find (λ j, same_instr j i = true) (l1 ++ i :: l2) = Some (length l1, i)) as ->.
  { apply list_find_Some. split_and!; [by apply list_lookup_middle|apply same_instr_refl|].
    intros k y Hk Hlt. rewrite lookup_app_l in Hk by done. apply list_elem_of_lookup_2 in Hk.
    by rewrite (H y Hk). }
  cbn. by rewrite delete_middle.
Qed.

Definition kept (used : list string) (l : list IRInstruction) : list IRInstruction :=
  filter (λ i, removable used i = false) l.

Lemma dce_block_kept used l c : (dce_block used (l, c)).1 = kept used l.
Proof.
  unfold dce_block. cbn [fst]. change (l, c) with ([] ++ l, c).
  assert (∀ l1 l2 c, Forall (λ i, removable used i = false) l1 →
    (foldl (λ (s : pass_state) i, (BasicBlock.remove i s.1, true)) (l1 ++ l2, c)
       (filter (λ i, removable used i = true) l2)).1 = l1 ++ kept used l2) as H; [|by apply H].
  clear l c. intros l1 l2. revert l1. induction l2 as [|i l2 IH]; intros l1 c H1; [done|].
  unfold kept. destruct (removable used i) eqn:E.
  - rewrite filter_cons_True, filter_cons_False by congruence. cbn [foldl fst].
    rewrite remove_middle; [by apply IH|]. intros j Hj. rewrite Forall_forall in H1.
    destruct (same_instr j i) eqn:Es; [|done]. apply (removable_same used) in Es. rewrite H1 in Es; congruence.
  - rewrite filter_cons_False, filter_cons_True by congruence.
    specialize (IH (l1 ++ [i]) c). rewrite <-!app_assoc in IH. apply IH. apply Forall_app. by split; [|constructor].
Qed.

(** The destinations, and the arguments that are not constants, are named as the front end
    names variables, by the sign [%] first: the pass counts the uses of these names. The
    function a call names is no argument. *)
Definition temporaries (l : list IRInstruction) : Prop :=
  Forall (λ i, Forall (λ v, is_constant v = false → is_temp (v_name v) = true) (arguments i) ∧
               ∀ d, dest i = Some d → is_temp (v_name d) = true) l.

Lemma register_temp n : is_temp n = true → register n = n.
Proof. unfold is_temp, register. by intros ->. Qed.

Lemma arguments_operands i v : v ∈ arguments i → v ∈ operands i.
Proof. unfold arguments. case_match; [|done]. destruct (operands i); [done|by right]. Qed.

Lemma dce_exec used l s s' o :
  temporaries l → (∀ i n, i ∈ l → n ∈ used_in i → n ∈ used) → agree used s s' →
  exec l s = Some o → ∃ o', exec (kept used l) s' = Some o' ∧ agree_outcome used o o'.
Proof.
  intros Ht. revert s s'. induction Ht as [|i l [Hi Hdi] _ IH]; intros s s' Hu Ha.
  { intros [= <-]. by exists (Running s'). }
  cbn [Llvm.exec]. destruct (exec_instr i s) as [o1|] eqn:E1; [|done]. cbn [mbind option_bind].
  assert (∀ i n, i ∈ l → n ∈ used_in i → n ∈ used) as Hu' by (intros; eapply Hu; [by right|done]).
  unfold kept. destruct (removable used i) eqn:Er.
  - rewrite filter_cons_False by congruence. unfold removable in Er.
    apply andb_true_iff in Er as [Hn Er]. apply negb_true_iff in Hn.
    destruct (dest i) as [d|] eqn:Ed; [|done]. apply andb_true_iff in Er as [Hd%bool_decide_eq_true _].
    unfold Llvm.exec_instr in E1. destruct (emitted i); [|by injection E1 as <-; eapply (IH _ _ Hu' Ha)].
    unfold run_instr in E1. destruct (operand_values _ _) as [vs|]; [|done]. cbn [mbind option_bind] in E1.
    destruct (effect_of slot call i vs (memory s)) as [e|] eqn:Ee; [|done]. cbn [mbind option_bind] in E1.
    injection E1 as <-. destruct Ha as [Hm He].
    apply unimportant_effect in Ee as [[v ->]| ->]; [| |done]; refine (IH _ s' Hu' _); [|done].
    rewrite Ed. split; [done|]. intros x Hx. cbn.
    rewrite lookup_insert_ne; [by apply He|]. rewrite register_temp by auto. by intros <-.
  - rewrite filter_cons_True by done. cbn [Llvm.exec].
    destruct (exec_instr_agree used i s s' o1 Ha) as (o2 & -> & Ho); [|done|].
    { intros v Hv. unfold operand. destruct (is_constant v) eqn:Ec; [done|]. destruct Ha as [_ He].
      assert (v ∈ operands i) as Hv' by by apply arguments_operands.
      rewrite Forall_forall in Hi. rewrite register_temp by auto. apply He. apply (Hu i); [left|]. unfold used_in.
      apply list_elem_of_filter. split; [by apply Hi|]. by apply list_elem_of_fmap_2. }
    cbn [mbind option_bind]. destruct o1, o2; try done; [by refine (IH _ _ Hu' _)|].
    intros [= <-]. injection Ho as -> ->. eexists. by split.
Qed.

(** C12: dead code elimination is correct. Take a block whose variables have names that begin
    with [%], as the builder of the IR names them (its destinations and the operands that are
    not constants, but not the function that a call names), and a run of it that comes to an
    end. Removing from it the assignments to variables that no instruction of the function
    uses changes neither what the block returns, nor the memory, nor the value of any used
    variable at its end. *)
Theorem dead_code_sound f b c s o :
  b ∈ blocks f → temporaries (instructions b) →
  exec (instructions b) s = Some o →
  ∃ o', exec (dce_block (used_vars f) (instructions b, c)).1 s = Some o' ∧
        agree_outcome (used_vars f) o o'.
Proof.
  intros Hb Ht. rewrite dce_block_kept. apply dce_exec; [done| |done].
  intros i n Hi Hn. unfold used_vars. apply list_elem_of_In, in_concat.
  exists (concat (used_in <$> instructions b)). split.
  - apply list_elem_of_In. apply list_elem_of_fmap. by exists b.
  - apply in_concat. exists (used_in i). split; apply list_elem_of_In; [|done]. apply list_elem_of_fmap. by exists i.
Qed.

(** * Strength reduction *)

Lemma is_power_spec z : is_power z = true → z = 2 ^ Z.log2 z.
Proof.
  unfold is_power. intros [Hz Hl]%andb_true_iff. apply Z.eqb_eq in Hl. apply Z.ltb_lt in Hz.
  pose proof (Z.log2_spec z Hz) as [Hlo Hhi]. destruct (Z.eq_dec z (2 ^ Z.log2 z)) as [|Hne]; [done|].
  assert (Z.log2 (z - 1) = Z.log2 z) as E by (apply Z.log2_unique; [apply Z.log2_nonneg|lia]).
  assert (0 < z - 1) by (pose proof (Z.pow_pos_nonneg 2 (Z.log2 z)); pose proof (Z.log2_nonneg z); lia).
  assert (Z.testbit (Z.land z (z - 1)) (Z.log2 z) = true) as Hb.
  { rewrite Z.land_spec, Z.bit_log2 by done. rewrite <-E at 1. by rewrite Z.bit_log2. }
  rewrite Hl, Z.bits_0 in Hb. done.
Qed.

(** What a reduced instruction looks like. *)
Lemma strength_instr_cases i :
  Forall i32_const (operands i) →
  strength_instr i = Ok None ∨
  ∃ lhs rhs d c j,
    operands i = [lhs; rhs] ∧ dest i = Some d ∧ is_constant rhs = true ∧
    literal rhs = Some c ∧ strength_instr i = Ok (Some j) ∧ dest j = Some d ∧
    ((opcode i = MUL_I ∧
       ((c = 0 ∧ opcode j = COPY ∧ ∃ z, operands j = [z] ∧ is_constant z = true ∧ literal z = Some 0) ∨
        (c = 1 ∧ opcode j = COPY ∧ operands j = [lhs]) ∨
        (∃ n z, 0 < n < 31 ∧ c = 2 ^ n ∧ opcode j = SHL ∧ operands j = [lhs; z] ∧ is_constant z = true ∧ literal z = Some n))) ∨
     (opcode i = DIV_I ∧
       ((c = 1 ∧ opcode j = COPY ∧ operands j = [lhs]) ∨
        (∃ n z, 0 < n < 31 ∧ c = 2 ^ n ∧ opcode j = SHR ∧ operands j = [lhs; z] ∧ is_constant z = true ∧ literal z = Some n)))).
Proof.
  unfold strength_instr. destruct (operands i) as [|lhs [|rhs [|]]]; try (by left).
  intros [_ [Hr _]%Forall_cons]%Forall_cons. destruct (is_constant rhs) eqn:Cr; [|by left].
  destruct (i32_const_values rhs Hr Cr) as (c & _ & _ & Ec & _ & _ & Vc & Rc). rewrite Ec. cbn [mbind res_bind].
  assert (∀ o d n t, 0 <= n < 31 → ∃ z, shift_by o d lhs n t = Ok (Some (mk_instr o (Some d) [lhs; z] None t)) ∧
    is_constant z = true ∧ literal z = Some n) as Hshift.
  { intros o d n t Hn. unfold shift_by, create_constant_int. destruct (int_text_ok n) as [x ->]; [lia|].
    eexists. split_and!; [done|done|]. unfold literal. cbn. by rewrite wrap32_small by lia. }
  assert (is_power c = true → (0 <? log_of c) = true → 0 < log_of c < 31 ∧ c = 2 ^ log_of c) as Hpow.
  { intros Hp%is_power_spec Hl. unfold log_of in *. split; [|done]. split; [lia|].
    apply Z.log2_lt_pow2; [|lia]. rewrite Hp. apply Z.pow_pos_nonneg; [lia|apply Z.log2_nonneg]. }
  destruct (int_text_ok c) as [tc Htc]; [lia|].
  repeat case_bool_decide; [| |by left].
  - unfold strength_mul. destruct (dest i) as [d|] eqn:Ed; [|by left]. destruct (c =? 2) eqn:E2.
    { destruct (Hshift SHL d 1 "strength reduction: *2 -> <<1") as (z & -> & Cz & Vz); [lia|]. right.
      exists lhs, rhs, d, c. eexists. split_and!; try done. left. split; [done|]. right. right.
      exists 1, z. split_and!; try done; lia. }
    destruct (c =? 0) eqn:E0.
    { unfold create_constant_int. cbn [int_text]. right. exists lhs, rhs, d, c.
      destruct (int_text_ok 0) as [t0 Ht0]; [lia|]. rewrite Ht0. eexists. split_and!; try done.
      left. split; [done|]. left. split_and!; [lia|done|]. by eexists. }
    destruct (c =? 1) eqn:E1.
    { right. exists lhs, rhs, d, c. eexists. split_and!; try done. left. split; [done|]. right. left.
      split_and!; [lia|done|done]. }
    destruct (is_power c) eqn:Ep; [|by left]. destruct (0 <? log_of c) eqn:El; [|by left].
    destruct (Hpow eq_refl eq_refl) as [Hn Hc]. destruct (int_text_ok (log_of c)) as [tl Htl]; [lia|].
    rewrite Htc, Htl. cbn [mbind res_bind].
    edestruct (Hshift SHL d (log_of c)) as (z & -> & Cz & Vz); [lia|]. right.
    exists lhs, rhs, d, c. eexists. split_and!; try done. left. split; [done|]. right. right. by exists (log_of c), z.
  - unfold strength_div. destruct (dest i) as [d|] eqn:Ed; [|by left]. destruct (c =? 1) eqn:E1.
    { right. exists lhs, rhs, d, c. eexists. split_and!; try done. right. split; [done|]. left.
      split_and!; [lia|done|done]. }
    destruct (is_power c) eqn:Ep; [|by left]. destruct (0 <? log_of c) eqn:El; [|by left].
    destruct (Hpow eq_refl eq_refl) as [Hn Hc]. destruct (int_text_ok (log_of c)) as [tl Htl]; [lia|].
    rewrite Htc, Htl. cbn [mbind res_bind].
    edestruct (Hshift SHR d (log_of c)) as (z & -> & Cz & Vz); [lia|]. right.
    exists lhs, rhs, d, c. eexists. split_and!; try done. right. split; [done|]. right. by exists (log_of c), z.
Qed.

Lemma shift_by_opcode o d v n t j : shift_by o d v n t = Ok (Some j) → opcode j = o.
Proof. unfold shift_by. by intros (c & _ & [= <-])%bind_Ok. Qed.

Lemma strength_mul_some d lhs c j : strength_mul d lhs c = Ok (Some j) → opcode j ∈ [SHL; COPY].
Proof.
  unfold strength_mul. intros Hj. repeat (case_match; try done).
  - rewrite (shift_by_opcode _ _ _ _ _ _ Hj). set_solver.
  - apply bind_Ok in Hj as (? & _ & [= <-]). set_solver.
  - injection Hj as <-. set_solver.
  - apply bind_Ok in Hj as (? & _ & Hj). apply bind_Ok in Hj as (? & _ & Hj).
    rewrite (shift_by_opcode _ _ _ _ _ _ Hj). set_solver.
Qed.

Lemma strength_div_some d lhs c j : strength_div d lhs c = Ok (Some j) → opcode j ∈ [SHR; COPY].
Proof.
  unfold strength_div. intros Hj. repeat (case_match; try done).
  - injection Hj as <-. set_solver.
  - apply bind_Ok in Hj as (? & _ & Hj). apply bind_Ok in Hj as (? & _ & Hj).
    rewrite (shift_by_opcode _ _ _ _ _ _ Hj). set_solver.
Qed.

Lemma strength_instr_some i j :
  strength_instr i = Ok (Some j) → opcode i ∈ [MUL_I; DIV_I] ∧ opcode j ∈ [SHL; SHR; COPY].
Proof.
  unfold strength_instr. intros Hj. destruct (operands i) as [|lhs [|rhs [|]]]; try done.
  destruct (is_constant rhs); [|done]. repeat case_bool_decide; [| |done];
    apply bind_Ok in Hj as (c & _ & Hj).
  - apply strength_mul_some in Hj. set_solver.
  - apply strength_div_some in Hj. set_solver.
Qed.

Lemma strength_fresh i j k r :
  strength_instr i = Ok (Some j) → strength_instr k = Ok (Some r) → same_instr j k = false.
Proof.
  intros [_ Hj]%strength_instr_some [Hk _]%strength_instr_some. destruct (same_instr j k) eqn:E; [|done].
  apply same_instr_opcode in E. rewrite E in Hj. set_unfold. naive_solver congruence.
Qed.

(** The first operand is a 32-bit integer, and the dividend of a division is not
    negative. *)
Definition reducible (i : IRInstruction) (s : state) : Prop :=
  ∀ v x, head (operands i) = Some v → operand (env s) v = Some x →
  - 2 ^ 31 <= x < 2 ^ 31 ∧ (opcode i = DIV_I → 0 <= x).

(** The code of a reduced instruction. *)
Lemma exec_reduced i a b d x y s :
  opcode i ∈ [MUL_I; DIV_I; SHL; SHR] → operands i = [a; b] → dest i = Some d →
  operand (env s) a = Some x → operand (env s) b = Some y →
  exec_instr i s = (w ← llvm_op (opcode i) x y; Some (Running (assign (Some d) w s))).
Proof.
  intros Ho Hops Hd Ha Hb. rewrite (exec_two i a b d x y); try done.
  - case_decide as En; [|done]. rewrite En in Ho. set_solver.
  - assert (opcode i = MUL_I ∨ opcode i = DIV_I ∨ opcode i ∈ [SHL; SHR]) as [E|[E|E]] by set_solver;
      [left; by rewrite E..|by right].
Qed.

Lemma exec_two_inv i a b d s o :
  opcode i ∈ [MUL_I; DIV_I] → operands i = [a; b] → dest i = Some d → exec_instr i s = Some o →
  ∃ x y w, operand (env s) a = Some x ∧ operand (env s) b = Some y ∧ llvm_op (opcode i) x y = Some w ∧
    o = Running (assign (Some d) w s).
Proof.
  intros Ho Hops Hd E.
  assert (∃ x y, operand (env s) a = Some x ∧ operand (env s) b = Some y) as (x & y & Ha & Hb).
  { unfold Llvm.exec_instr, emitted, run_instr in E.
    rewrite arguments_of, Hops, Hd, (bool_decide_eq_true_2 (is_Some _)) in E
      by (by eexists || (intros Ec; rewrite Ec in Ho; set_solver)).
    unfold operand_values in E. simpl in E.
    destruct (operand (env s) a) as [x|], (operand (env s) b) as [y|]; [by exists x, y|exfalso..];
      (assert (opcode i = MUL_I ∨ opcode i = DIV_I) as [E1|E1] by set_solver); by rewrite E1 in E. }
  rewrite (exec_reduced i a b d x y) in E by (done || set_solver).
  destruct (llvm_op (opcode i) x y) as [w|] eqn:Ew; [|done]. injection E as <-. by exists x, y, w.
Qed.

Lemma strength_exec i s o :
  Forall i32_const (operands i) → reducible i s →
  exec_instr i s = Some o → exec_instr (rewritten strength_instr i) s = Some o.
Proof.
  intros Hi Hr E. unfold rewritten.
  destruct (strength_instr_cases i Hi) as [-> |(lhs & rhs & d & c & j & Eo & Ed & Cr & Vr & -> & Dj & Hcases)]; [done|].
  assert (opcode i ∈ [MUL_I; DIV_I]) as Hop by (destruct Hcases as [[-> _]|[-> _]]; set_solver).
  destruct (exec_two_inv _ _ _ _ _ _ Hop Eo Ed E) as (x & y & w & Ox & Oy & Hw & ->).
  assert (y = c) as -> by (unfold operand in Oy; rewrite Cr in Oy; congruence).
  destruct (Hr lhs x) as [Rx Dx]; [by rewrite Eo|done|].
  assert (∀ z n, is_constant z = true → literal z = Some n → operand (env s) z = Some n) as Hz.
  { intros z n Cz Vz. unfold operand. by rewrite Cz. }
  destruct Hcases as [[Em [(-> & Ej & z & Oj & Cz & Vz)|[(-> & Ej & Oj)|(n & z & Hn & -> & Ej & Oj & Cz & Vz)]]]
    |[Em [(-> & Ej & Oj)|(n & z & Hn & -> & Ej & Oj & Cz & Vz)]]]; rewrite Em in Hw; cbn in Hw.
  - injection Hw as <-. rewrite Z.mul_0_r. apply (exec_copy _ z); try done. by apply Hz.
  - injection Hw as <-. rewrite Z.mul_1_r, wrap32_small by done. by apply (exec_copy _ lhs).
  - injection Hw as <-. rewrite (exec_reduced _ lhs z d x n) by (done || (by apply Hz) || (rewrite Ej; set_solver)).
    rewrite Ej. cbn. by if_true.
  - rewrite Z.quot_1_r in Hw. rewrite andb_false_r in Hw. injection Hw as <-. by apply (exec_copy _ lhs).
  - rewrite (exec_reduced _ lhs z d x n) by (done || (by apply Hz) || (rewrite Ej; set_solver)).
    rewrite Ej. cbn. if_true. assert (0 < 2 ^ n) by (apply Z.pow_pos_nonneg; lia).
    case_match; [done|]. injection Hw as <-. by rewrite Z.quot_div_nonneg by auto.
Qed.

(** Strength reduction is correct for divisions of numbers that are not negative:
    on a block whose constants are 32-bit integers it succeeds, and the code for the
    result computes what the code for the original computes in every run in which
    no dividend is negative. *)
Theorem strength_reduction_sound l c :
  consistent l → i32_code l →
  ∃ l' c', strength_block (l, c) = Ok (l', c') ∧
  ∀ s o, along reducible l s → exec l s = Some o → exec l' s = Some o.
Proof.
  intros Hc Hi. unfold i32_code in Hi. rewrite Forall_forall in Hi.
  destruct (rewrite_all strength_instr strength_fresh l c Hc) as [c' Hf].
  { intros i Hin. destruct (strength_instr_cases i (Hi i Hin)) as [->|(?&?&?&?&?&?&?&?&?&->&_)]; by eexists. }
  exists (rewritten strength_instr <$> l), c'. split; [done|]. intros s o.
  apply rewrite_exec. intros. apply strength_exec; auto.
Qed.
End WithFloats.

(** * Examples *)

Instance no_floats : Floats := {
  fadd _ _ := 0;
  fsub _ _ := 0;
  fmul _ _ := 0;
  fdiv _ _ := 0;
  float_text _ := "0.0";
  float_parse _ := None;
}.

Definition int_const (n : string) (z : Z) : IRValue := mk_value n INT32 (CInt z) true.
Definition var (n : string) : IRValue := mk_value n INT32 CNone false.
Definition op2 (o : IROpcode) (d : string) (a b : IRValue) : IRInstruction := mk_instr o (Some (var d)) [a; b] None "".
Definition ret_of (v : IRValue) : IRInstruction := mk_instr RET None [v] None "".
Definition no_call (f : string) (l : list Z) (m : gmap Z Z) : option (Z * gmap Z Z) := None.
Definition no_slot (n : string) : Z := 0.
Definition run (l : list IRInstruction) (e : gmap string Z) : option outcome :=
  Llvm.exec no_slot no_call l (mk_state e ∅).

(** [return 6 * 7 * 8], with a variable that is not used. *)
Definition sample : list IRInstruction :=
  [op2 MUL_I "%t0" (int_const "6" 6) (int_const "7" 7); op2 MUL_I "%t1" (var "%t0") (int_const "8" 8);
   op2 ADD_I "%t2" (var "%t1") (var "%t0"); ret_of (var "%t1")].
Definition sample_function : IRFunction := mk_function "main" INT32 [] [mk_block "entry" sample].

Lemma sample_consistent : consistent sample.
Proof.
  intros a b Ha Hb. unfold sample in Ha, Hb. rewrite !elem_of_cons in Ha, Hb.
  destruct Ha as [->|[->|[->|[->|Ha]]]]; try (by set_solver +Ha);
    destruct Hb as [->|[->|[->|[->|Hb]]]]; try (by set_solver +Hb); done.
Qed.

Lemma sample_i32 : i32_code sample.
Proof. unfold i32_code, sample. repeat constructor; cbn; try done; lia. Qed.


(** [return twice(6 * 7)], again with a variable that is not used. *)
Definition sample_call : list IRInstruction :=
  [op2 MUL_I "%t0" (int_const "6" 6) (int_const "7" 7);
   mk_instr CALL (Some (var "%t1")) [mk_value "twice" FUNCTION CNone false; var "%t0"] None "";
   op2 ADD_I "%t2" (var "%t1") (var "%t0"); ret_of (var "%t1")].
Definition sample_call_function : IRFunction := mk_function "main" INT32 [] [mk_block "entry" sample_call].
Definition twice_call (f : string) (l : list Z) (m : gmap Z Z) : option (Z * gmap Z Z) :=
  match l with [z] => Some (wrap32 (2 * z), m) | _ => None end.

Lemma dead_code_sound_witness :
  (∃ o', Llvm.exec no_slot no_call (dce_block (used_vars sample_function) (sample, false)).1 (mk_state ∅ ∅) = Some o' ∧
    agree_outcome (used_vars sample_function) (Returned (Some 336) ∅) o') ∧
  (∃ o', Llvm.exec no_slot twice_call (dce_block (used_vars sample_call_function) (sample_call, false)).1 (mk_state ∅ ∅) = Some o' ∧
    agree_outcome (used_vars sample_call_function) (Returned (Some 84) ∅) o').
Proof.
  split.
  - apply (dead_code_sound no_slot no_call sample_function (mk_block "entry" sample)); [left| |reflexivity].
    cbn. unfold sample. repeat constructor; cbn; try done; by intros d [= <-].
  - apply (dead_code_sound no_slot twice_call sample_call_function (mk_block "entry" sample_call)); [left| |reflexivity].
    cbn. unfold sample_call. repeat constructor; cbn; try done; by intros d [= <-].
Defined.

Lemma strength_reduction_sound_witness :
  ∃ l' c', strength_block (sample, false) = Ok (l', c') ∧
  ∀ s o, along no_slot no_call reducible sample s →
    Llvm.exec no_slot no_call sample s = Some o → Llvm.exec no_slot no_call l' s = Some o.
Proof. apply (strength_reduction_sound no_slot no_call); [exact sample_consistent|exact sample_i32]. Defined.

(** The folder divides as Python does, [//] and [%], the code with [sdiv] and [srem]. *)
Example folding_floors :
  let l := [op2 DIV_I "%t0" (int_const "-7" (-7)) (int_const "2" 2); ret_of (var "%t0")] in
  run l ∅ = Some (Returned (Some (-3)) ∅) ∧
  (s ← fold_block (l, false); Ok (run s.1 ∅)) = Ok (Some (Returned (Some (-4)) ∅)).
Proof. by vm_compute. Qed.

(** So does the shift that replaces a division by a power of two. *)
Example strength_floors :
  let l := [op2 DIV_I "%t0" (var "%a") (int_const "4" 4); ret_of (var "%t0")] in
  run l {["%a" := -7]} = Some (Returned (Some (-1)) ∅) ∧
  (s ← strength_block (l, false); Ok (run s.1 {["%a" := -7]})) = Ok (Some (Returned (Some (-2)) ∅)).
Proof. by vm_compute. Qed.

(** An assignment between two equal expressions is overlooked. *)
Example cse_reassigned :
  let l := [op2 ADD_I "%t0" (var "%a") (int_const "1" 1); mk_instr COPY (Some (var "%a")) [int_const "9" 9] None "";
            op2 ADD_I "%t1" (var "%a") (int_const "1" 1); ret_of (var "%t1")] in
  run l {["%a" := 1]} = Some (Returned (Some 10) ∅) ∧
  (s ← cse_block (l, false); Ok (run s.1 {["%a" := 1]})) = Ok (Some (Returned (Some 2) ∅)).
Proof. by vm_compute. Qed.
