(* ===== verification/Ast.v ===== *)
(** The syntax tree of the compiler: compiler/src/frontend/token.py, [TokenType], and
    compiler/src/frontend/ast.py, the nodes.

    A node keeps what the later phases look at: the lines, columns and tokens that only messages
    show are left out, and an operator is the type of its token. *)

From Stdlib Require Import String.
From S2P Require Import Prelude Ir.

Open Scope string_scope.
Open Scope list_scope.
Open Scope Z_scope.

Module TokenType.
Inductive t :=
  | LET | CONST | FN | RETURN | IF | ELSE | WHILE | FOR | BREAK | CONTINUE | CLASS | IMPORT | FROM
  | EXPORT | TRUE | FALSE | NULL | VOID | INT | FLOAT | BOOL | STRING | ARRAY | RECORD | TENSOR
  | PUBLIC | PRIVATE | MATCH | LAMBDA | TYPE | MUT | STATIC | EXTERN | AS | IN | ASSERT | YIELD
  | DEFER
  | INTEGER | FLOAT_LITERAL | STRING_LITERAL | CHAR_LITERAL | IDENTIFIER
  | PLUS | MINUS | STAR | SLASH | PERCENT | EQUAL | EQUAL_EQUAL | NOT_EQUAL | LESS | GREATER
  | LESS_EQUAL | GREATER_EQUAL | AND | OR | NOT | BIT_AND | BIT_OR | BIT_XOR | BIT_NOT
  | LEFT_SHIFT | RIGHT_SHIFT | PLUS_EQUAL | MINUS_EQUAL | STAR_EQUAL | SLASH_EQUAL
  | PERCENT_EQUAL | AND_EQUAL | OR_EQUAL | XOR_EQUAL | LEFT_SHIFT_EQUAL | RIGHT_SHIFT_EQUAL
  | PLUS_PLUS | MINUS_MINUS | ARROW | FAT_ARROW | DOT | DOT_DOT | COMMA | COLON | SEMICOLON
  | COLON_COLON | QUESTION | AT | HASH | DOLLAR | UNDERSCORE | PIPE
  | LPAREN | RPAREN | LBRACKET | RBRACKET | LBRACE | RBRACE
  | EOF | INDENT | DEDENT | NEWLINE | COMMENT | TYPE_ANNOT | PIPE_PATTERN | WILDCARD.

#[export] Instance t_eq_dec : EqDecision t.
Proof. solve_decision. Defined.

Definition keywords : list (string * t) :=
  [("let", LET); ("const", CONST); ("fn", FN); ("return", RETURN); ("if", IF); ("else", ELSE);
   ("while", WHILE); ("for", FOR); ("break", BREAK); ("continue", CONTINUE); ("class", CLASS);
   ("import", IMPORT); ("from", FROM); ("export", EXPORT); ("true", TRUE); ("false", FALSE);
   ("null", NULL); ("void", VOID); ("int", INT); ("float", FLOAT); ("bool", BOOL);
   ("string", STRING); ("array", ARRAY); ("record", RECORD); ("tensor", TENSOR);
   ("public", PUBLIC); ("private", PRIVATE); ("match", MATCH); ("lambda", LAMBDA);
   ("type", TYPE); ("mut", MUT); ("static", STATIC); ("extern", EXTERN); ("as", AS); ("in", IN);
   ("assert", ASSERT); ("yield", YIELD); ("defer", DEFER)].
Definition is_keyword (identifier : string) : bool := bool_decide (identifier ∈ keywords.*1).

Definition binary_operators : list t :=
  [PLUS; MINUS; STAR; SLASH; PERCENT; EQUAL_EQUAL; NOT_EQUAL; LESS; GREATER; LESS_EQUAL;
   GREATER_EQUAL; AND; OR; BIT_AND; BIT_OR; BIT_XOR; LEFT_SHIFT; RIGHT_SHIFT; DOT; DOT_DOT; PIPE].
Definition assignment_operators : list t :=
  [EQUAL; PLUS_EQUAL; MINUS_EQUAL; STAR_EQUAL; SLASH_EQUAL; PERCENT_EQUAL; AND_EQUAL; OR_EQUAL;
   XOR_EQUAL; LEFT_SHIFT_EQUAL; RIGHT_SHIFT_EQUAL].

Definition precedence (token_type : t) : Z :=
  match token_type with
  | OR => 1 | AND => 2 | BIT_OR => 3 | BIT_XOR => 4 | BIT_AND => 5
  | EQUAL_EQUAL | NOT_EQUAL => 6
  | LESS | GREATER | LESS_EQUAL | GREATER_EQUAL => 7
  | LEFT_SHIFT | RIGHT_SHIFT => 8
  | PLUS | MINUS => 9
  | STAR | SLASH | PERCENT => 10
  | PIPE => 11
  | DOT | DOT_DOT => 12
  | _ => 0
  end.
End TokenType.
#[export] Existing Instance TokenType.t_eq_dec.

(** The classes whose objects other classes hold by name. *)
Record parameter (N : Type) := mk_parameter {
  p_name : string;
  p_type : option N;
  p_default : option N;
  p_mutable : bool;
}.
Arguments mk_parameter {N}.
Arguments p_name {N}.
Arguments p_type {N}.
Arguments p_default {N}.
Arguments p_mutable {N}.

Record source_module (N : Type) := mk_module {
  m_name : string;
  declarations : list N;
}.
Arguments mk_module {N}.
Arguments m_name {N}.
Arguments declarations {N}.

(** A float is its binary64 pattern. *)
Inductive ASTNode :=
  | IntegerLiteral (value : Z)
  | FloatLiteral (value : Z)
  | StringLiteral (value : string)
  | BooleanLiteral (value : bool)
  | NullLiteral
  | Identifier (name : string)
  | BinaryOp (left : ASTNode) (op : TokenType.t) (right : ASTNode)
  | UnaryOp (op : TokenType.t) (operand : ASTNode) (prefix : bool)
  | Assignment (target : ASTNode) (op : TokenType.t) (value : ASTNode)
  | Call (callee : ASTNode) (args : list ASTNode)
  | Access (obj key : ASTNode) (is_index : bool)
  | ArrayLiteral (elements : list ASTNode)
  | RecordLiteral (entries : list (ASTNode * ASTNode))
  | LambdaExpr (params : list (parameter ASTNode)) (body : ASTNode) (return_type : option ASTNode)
  | TernaryExpr (condition then_expr else_expr : ASTNode)
  | CastExpr (expr target_type : ASTNode)
  | TypeAnnotation (name : string) (type_params : list ASTNode)
  | ArrayType (element_type : ASTNode) (size : option ASTNode)
  | TensorType (element_type : ASTNode) (shape : list ASTNode)
  | FunctionType (param_types : list ASTNode) (return_type : ASTNode)
  | ParameterNode (p : parameter ASTNode)
  | VariableDecl (name : string) (type_annotation initializer : option ASTNode) (mutable is_exported : bool)
  | Block (statements : list ASTNode)
  | IfStmt (condition then_body : ASTNode) (else_body : option ASTNode)
  | WhileStmt (condition body : ASTNode)
  | ForStmt (init condition update : option ASTNode) (body : ASTNode)
  | ForInStmt (target iterable body : ASTNode)
  | BreakStmt
  | ContinueStmt
  | ReturnStmt (value : option ASTNode)
  | AssertStmt (condition : ASTNode) (message : option ASTNode)
  | DeferStmt (call : ASTNode)
  | MatchStmt (target : ASTNode) (arms : list (ASTNode * ASTNode))
  | ExpressionStmt (expression : ASTNode)
  | FunctionDecl (name : string) (params : list (parameter ASTNode)) (return_type : option ASTNode)
      (body : ASTNode) (is_exported is_extern : bool) (decorators : list ASTNode)
  | ClassDecl (name : string) (base_class : option ASTNode) (body : list ASTNode) (is_exported : bool)
      (decorators : list ASTNode)
  | ImportDecl (module : string) (names : list (string * option string)) (source : string)
  | ExportDecl (declaration : ASTNode)
  | TypeDecl (name : string) (type_expr : ASTNode)
  | ModuleNode (m : source_module ASTNode)
  | ProgramNode (modules : list (source_module ASTNode)) (entry_module : option string)
  | MatchPattern (pattern_type : string) (value : const) (sub_patterns : list ASTNode) (guard : option ASTNode).

(** [children]. *)
Definition if_any {N} (o : option N) : list N := match o with Some n => [n] | None => [] end.

Definition children (n : ASTNode) : list ASTNode :=
  match n with
  | BinaryOp l _ r => [l; r]
  | UnaryOp _ operand _ => [operand]
  | Assignment target _ value => [target; value]
  | Call callee args => callee :: args
  | Access obj key _ => [obj; key]
  | ArrayLiteral elements => elements
  | RecordLiteral entries => concat ((λ '(key, val), [key; val]) <$> entries)
  | LambdaExpr params body _ => (ParameterNode <$> params) ++ [body]
  | TernaryExpr c a b => [c; a; b]
  | CastExpr e t => [e; t]
  | TypeAnnotation _ type_params => type_params
  | ArrayType element_type size => element_type :: if_any size
  | TensorType element_type shape => element_type :: shape
  | FunctionType param_types return_type => param_types ++ [return_type]
  | ParameterNode p => if_any (p_type p) ++ if_any (p_default p)
  | VariableDecl _ type_annotation initializer _ _ => if_any type_annotation ++ if_any initializer
  | Block statements => statements
  | IfStmt c a b => [c; a] ++ if_any b
  | WhileStmt c body => [c; body]
  | ForStmt init c update body => if_any init ++ if_any c ++ if_any update ++ [body]
  | ForInStmt target iterable body => [target; iterable; body]
  | ReturnStmt value => if_any value
  | AssertStmt c message => c :: if_any message
  | DeferStmt call => [call]
  | MatchStmt target arms => target :: concat ((λ '(pattern, body), [pattern; body]) <$> arms)
  | ExpressionStmt e => [e]
  | FunctionDecl _ params return_type body _ _ decorators =>
      (ParameterNode <$> params) ++ if_any return_type ++ [body] ++ decorators
  | ClassDecl _ base_class body _ decorators => if_any base_class ++ body ++ decorators
  | ExportDecl d => [d]
  | TypeDecl _ t => [t]
  | ModuleNode m => declarations m
  | ProgramNode modules _ => ModuleNode <$> modules
  | _ => []
  end.
