(* ===== verification/IrBuilder.v ===== *)
(** Building the intermediate representation: compiler/src/middle/ir.py, [IRModule] and
    [IRBuilder].

    The current function of a builder is the one it made last, which the module holds under
    its name, and the current block is one of its blocks: [current] is the name and the position.
    The edges between blocks, which the compiler never sets, are left out. *)

From Stdlib Require Import String.
From stdpp Require Import pretty.
From S2P Require Import Prelude Ir PyDict Optimizer.

Open Scope string_scope.
Open Scope list_scope.
Open Scope Z_scope.

Record IRGlobal := mk_global {
  g_name : string;
  g_type : IRValueType;
  g_initializer : const;
  g_constant : bool;
}.

Module IRModule.
Record t := mk {
  name : string;
  functions : list (string * IRFunction);
  globals : list (string * IRGlobal);
  struct_types : list (string * list (string * IRValueType));
}.

Definition init (n : string) : t := mk n [] [] [].
Definition with_name (n : string) (m : t) : t := mk n (functions m) (globals m) (struct_types m).
Definition with_functions (fs : list (string * IRFunction)) (m : t) : t :=
  mk (name m) fs (globals m) (struct_types m).

Definition add_function (f : IRFunction) (m : t) : t := with_functions (dict_set (functions m) (f_name f) f) m.
Definition get_function (n : string) (m : t) : option IRFunction := dict_get (functions m) n.
Definition add_global (g : IRGlobal) (m : t) : t :=
  mk (name m) (functions m) (dict_set (globals m) (g_name g) g) (struct_types m).
Definition get_global (n : string) (m : t) : option IRGlobal := dict_get (globals m) n.
Definition add_struct_type (n : string) (fields : list (string * IRValueType)) (m : t) : t :=
  mk (name m) (functions m) (globals m) (dict_set (struct_types m) n fields).
End IRModule.

(** [IRFunction.new_block]: a block without a name is called after its number. *)
Definition block_name (n : string) (f : IRFunction) : string :=
  if decide (n = "") then "bb" +:+ pretty (length (blocks f)) else n.
Definition add_block (b : BasicBlock) (f : IRFunction) : IRFunction := with_blocks (blocks f ++ [b]) f.
Definition new_block (n : string) (f : IRFunction) : IRFunction := add_block (mk_block (block_name n f) []) f.

Module IRBuilder.
Record t := mk {
  module : IRModule.t;
  current : option (string * nat);
  temp_counter : nat;
  label_counter : nat;
}.

Definition init (m : IRModule.t) : t := mk m None 0 0.

Definition with_module (m : IRModule.t) (b : t) : t := mk m (current b) (temp_counter b) (label_counter b).
Definition with_current (c : option (string * nat)) (b : t) : t :=
  mk (module b) c (temp_counter b) (label_counter b).

(** The value under a key, changed in place. *)
Definition dict_alter {A} (k : string) (f : A → A) (d : list (string * A)) : list (string * A) :=
  (λ x, (x.1, if decide (x.1 = k) then f x.2 else x.2)) <$> d.

Definition on_function (n : string) (f : IRFunction → IRFunction) (b : t) : t :=
  with_module (IRModule.with_functions (dict_alter n f (IRModule.functions (module b))) (module b)) b.

Definition new_temp (ty : IRValueType) : method t IRValue :=
  λ b, (mk (module b) (current b) (S (temp_counter b)) (label_counter b),
        Ok (mk_value ("%t" +:+ pretty (temp_counter b)) ty CNone false)).
Definition new_label (prefix : string) : method t string :=
  λ b, (mk (module b) (current b) (temp_counter b) (S (label_counter b)),
        Ok (prefix +:+ pretty (label_counter b))).

Definition new_function (n : string) (ty : IRValueType) (ps : list IRValue) : method t () :=
  λ b, let f := new_block ("entry_" +:+ n) (mk_function n ty ps []) in
       (with_current (Some (n, O)) (with_module (IRModule.add_function f (module b)) b), Ok ()).

(** [IRBuilder.new_block]. *)
Definition start_block (n : string) : method t () :=
  let! b := m_get in
  match current b with
  | None => m_raise RuntimeError
  | Some (f, _) =>
      match IRModule.get_function f (module b) with
      | Some fn => m_put (with_current (Some (f, length (blocks fn))) (on_function f (new_block n) b))
      | None => m_raise RuntimeError
      end
  end.

(** [self.current_block.add_instruction]. *)
Definition append (f : string) (i : nat) (l : list IRInstruction) : t → t :=
  on_function f (λ fn, with_blocks
    (alter (λ bb, BasicBlock.with_instructions (instructions bb ++ l) bb) i (blocks fn)) fn).

Definition emit (o : IROpcode) (d : option IRValue) (ops : list IRValue) (l : option string) (c : string)
    : method t IRInstruction :=
  let! b := m_get in
  match current b with
  | None => m_raise RuntimeError
  | Some (f, i) =>
      let instr := mk_instr o d ops l c in
      let! _ := m_put (append f i [instr] b) in m_ret instr
  end.

Definition emit_label (l c : string) : method t IRInstruction := emit LABEL None [] (Some l) c.
Definition emit_goto (l c : string) : method t IRInstruction := emit GOTO None [] (Some l) c.
Definition emit_if_goto (cond : IRValue) (l c : string) : method t IRInstruction :=
  emit IF_GOTO None [cond] (Some l) c.
Definition emit_return (v : option IRValue) (c : string) : method t IRInstruction :=
  emit RETURN None (match v with Some v => [v] | None => [] end) None c.
(** The call has an argument that [emit_ret] does not take. *)
Definition emit_ret (v : option IRValue) (c : string) : method t IRInstruction := m_raise TypeError.

(** [if dest is None: dest = self.new_temp(..)]. *)
Definition or_temp (d : option IRValue) (ty : IRValueType) : method t IRValue :=
  match d with Some d => m_ret d | None => new_temp ty end.

(** An instruction with a destination, which is what is returned. *)
Definition emit_to (d : option IRValue) (ty : IRValueType) (o : IROpcode) (ops : list IRValue) (c : string)
    : method t IRValue :=
  let! d := or_temp d ty in
  let! _ := emit o (Some d) ops None c in
  m_ret d.

Definition emit_alloc (ty : IRValueType) (d : option IRValue) (c : string) : method t IRValue :=
  emit_to d POINTER ALLOCA [] c.
Definition emit_store (ptr v : IRValue) (c : string) : method t IRInstruction :=
  emit STORE None [ptr; v] None c.
Definition emit_load (ptr : IRValue) (ty : IRValueType) (d : option IRValue) (c : string) : method t IRValue :=
  emit_to d ty LOAD [ptr] c.

Definition is_float (v : IRValue) : bool := bool_decide (value_type v = FLOAT64).
Definition emit_add (lhs rhs : IRValue) (d : option IRValue) (c : string) : method t IRValue :=
  emit_to d (value_type lhs) (if is_float lhs then ADD_F else ADD_I) [lhs; rhs] c.
Definition emit_sub (lhs rhs : IRValue) (d : option IRValue) (c : string) : method t IRValue :=
  emit_to d (value_type lhs) (if is_float lhs then SUB_F else SUB_I) [lhs; rhs] c.
Definition emit_mul (lhs rhs : IRValue) (d : option IRValue) (c : string) : method t IRValue :=
  emit_to d (value_type lhs) (if is_float lhs then MUL_F else MUL_I) [lhs; rhs] c.

Definition emit_call (f : string) (args : list IRValue) (ty : IRValueType) (d : option IRValue) (c : string)
    : method t (option IRValue) :=
  let! d := (match d with
             | Some d => m_ret (Some d)
             | None => if decide (ty = VOID) then m_ret None else let! d := new_temp ty in m_ret (Some d)
             end) in
  let! _ := emit CALL d (mk_value f FUNCTION CNone false :: args) None c in
  m_ret d.

(** The labels of the incoming values are not kept. *)
Definition emit_phi (incoming : list (IRValue * string)) (ty : IRValueType) (d : option IRValue) (c : string)
    : method t IRValue :=
  emit_to d ty PHI incoming.*1 c.
Definition emit_comment (text : string) : method t IRInstruction := emit COMMENT None [] None text.
Definition emit_nop : method t IRInstruction := emit NOP None [] None "".
Definition emit_copy (src : IRValue) (d : option IRValue) (c : string) : method t IRValue :=
  emit_to d (value_type src) COPY [src] c.

Definition icmp_opcode (condition : string) : IROpcode :=
  default EQ_I (dict_get [("eq", EQ_I); ("ne", NE_I); ("lt", LT_I); ("gt", GT_I); ("le", LE_I); ("ge", GE_I)]
                  condition).
Definition emit_icmp (condition : string) (lhs rhs : IRValue) (d : option IRValue) (c : string)
    : method t IRValue :=
  emit_to d INT1 (icmp_opcode condition) [lhs; rhs] c.
Definition fcmp_opcode (condition : string) : IROpcode :=
  default EQ_F (dict_get [("eq", EQ_F); ("ne", NE_F); ("lt", LT_F); ("gt", GT_F); ("le", LE_F); ("ge", GE_F)]
                  condition).
Definition emit_fcmp (condition : string) (lhs rhs : IRValue) (d : option IRValue) (c : string)
    : method t IRValue :=
  emit_to d INT1 (fcmp_opcode condition) [lhs; rhs] c.

Definition emit_tensor_init (shape : list IRValue) (d : option IRValue) (c : string) : method t IRValue :=
  emit_to d TENSOR TENSOR_INIT shape c.
Definition emit_matmul (a b : IRValue) (d : option IRValue) (c : string) : method t IRValue :=
  emit_to d TENSOR MATMUL [a; b] c.
Definition emit_conv2d (input kernel : IRValue) (d : option IRValue) (c : string) : method t IRValue :=
  emit_to d TENSOR CONV2D [input; kernel] c.
Definition emit_relu (input : IRValue) (d : option IRValue) (c : string) : method t IRValue :=
  emit_to d TENSOR RELU [input] c.
End IRBuilder.

(** [create_constant_string]. *)
Definition quote : string := String (Ascii.ascii_of_nat 34) "".
Definition create_constant_string (s : string) : IRValue :=
  mk_value (quote +:+ s +:+ quote) STRING (CStr s) true.
