(* ===== verification/Transform.v ===== *)
(** From the syntax tree to the intermediate representation: compiler/src/middle/transform.py,
    [ASTToIRConverter], and the checks of [IRTransform].

    Each method of the visitor that visits other nodes takes [visit] as a parameter; the knot is
    tied in [visit]. A node's visit returns a value or nothing, [None], which is also what an
    expression without code returns. *)

From Stdlib Require Import String.
From S2P Require Import Prelude Ir Optimizer IrBuilder Ast.

Open Scope string_scope.
Open Scope list_scope.
Open Scope Z_scope.

Definition type_name_map : list (string * IRValueType) :=
  [("int", INT32); ("float", FLOAT64); ("bool", INT1); ("string", STRING); ("void", VOID);
   ("array", ARRAY); ("tensor", TENSOR)].
Definition ast_type_to_ir_type (type_node : option ASTNode) : IRValueType :=
  match type_node with
  | Some (TypeAnnotation n _) => default INT32 (PyDict.dict_get type_name_map n)
  | Some (ArrayType _ _) => ARRAY
  | Some (TensorType _ _) => TENSOR
  | _ => INT32
  end.

Module ASTToIRConverter.
Record t := mk {
  builder : IRBuilder.t;
  var_map : gmap string IRValue;
  in_loop : bool;
  loop_continue_labels : list string;
  loop_break_labels : list string;
}.

Definition init (m : IRModule.t) : t := mk (IRBuilder.init m) ∅ false [] [].

Definition with_builder (b : IRBuilder.t) (s : t) : t :=
  mk b (var_map s) (in_loop s) (loop_continue_labels s) (loop_break_labels s).
Definition with_vars (vm : gmap string IRValue) (s : t) : t :=
  mk (builder s) vm (in_loop s) (loop_continue_labels s) (loop_break_labels s).
Definition with_in_loop (f : bool) (s : t) : t :=
  mk (builder s) (var_map s) f (loop_continue_labels s) (loop_break_labels s).
Definition with_labels (cs bs : list string) (s : t) : t := mk (builder s) (var_map s) (in_loop s) cs bs.

#[export] Instance builder_part : Part t IRBuilder.t.
Proof. by refine {| part := builder; set_part := with_builder |}; intros; destruct w. Defined.

Definition update (f : t → t) : method t () := λ s, (f s, Ok ()).
(** [self._var_map[name] = value]. *)
Definition set_var (n : string) (v : IRValue) : method t () := update (λ s, with_vars (<[n := v]> (var_map s)) s).

(** [self.builder.f(..)]. *)
Definition build {A} (m : method IRBuilder.t A) : method t A := on_part m.
(** A call whose result is not used. *)
Definition build_ {A} (m : method IRBuilder.t A) : method t () := let! _ := on_part m in m_ret ().

Definition nothing : method t (option IRValue) := m_ret None.

Section WithFloats.
Context `{FL : Floats}.

(** A computed value, without comment. *)
Definition compute (o : IROpcode) (ty : IRValueType) (ops : list IRValue) : method t (option IRValue) :=
  let! d := build (IRBuilder.new_temp ty) in
  let! _ := build (IRBuilder.emit o (Some d) ops None "") in
  m_ret (Some d).
Definition built (m : method IRBuilder.t IRValue) : method t (option IRValue) :=
  let! v := build m in m_ret (Some v).

Definition binary_op (op : TokenType.t) (l r : IRValue) : method t (option IRValue) :=
  match op with
  | TokenType.PLUS => built (IRBuilder.emit_add l r None "")
  | TokenType.MINUS => built (IRBuilder.emit_sub l r None "")
  | TokenType.STAR => built (IRBuilder.emit_mul l r None "")
  | TokenType.SLASH => compute (if IRBuilder.is_float l then DIV_F else DIV_I) (value_type l) [l; r]
  | TokenType.PERCENT => compute MOD_I INT32 [l; r]
  | TokenType.EQUAL_EQUAL => built (IRBuilder.emit_icmp "eq" l r None "")
  | TokenType.NOT_EQUAL => built (IRBuilder.emit_icmp "ne" l r None "")
  | TokenType.LESS => built (IRBuilder.emit_icmp "lt" l r None "")
  | TokenType.GREATER => built (IRBuilder.emit_icmp "gt" l r None "")
  | TokenType.LESS_EQUAL => built (IRBuilder.emit_icmp "le" l r None "")
  | TokenType.GREATER_EQUAL => built (IRBuilder.emit_icmp "ge" l r None "")
  | TokenType.AND => compute AND_I INT1 [l; r]
  | TokenType.OR => compute OR_I INT1 [l; r]
  | TokenType.BIT_AND => compute AND_I INT32 [l; r]
  | TokenType.BIT_OR => compute OR_I INT32 [l; r]
  | TokenType.BIT_XOR => compute XOR_I INT32 [l; r]
  | TokenType.LEFT_SHIFT => compute SHL INT32 [l; r]
  | TokenType.RIGHT_SHIFT => compute SHR INT32 [l; r]
  | _ => nothing
  end.
Definition unary_op (op : TokenType.t) (v : IRValue) : method t (option IRValue) :=
  match op with
  | TokenType.MINUS => compute NEG (value_type v) [v]
  | TokenType.NOT => compute NOT_I INT1 [v]
  | TokenType.BIT_NOT => compute NOT_I INT32 [v]
  | _ => nothing
  end.

Definition visit_Identifier (n : string) : method t (option IRValue) :=
  let! s := m_get in
  match var_map s !! n with
  | Some v => m_ret (Some v)
  | None =>
      if decide (n = "true") then m_ret (Some (create_constant_bool true))
      else if decide (n = "false") then m_ret (Some (create_constant_bool false))
      else if decide (n = "null") then let! v := m_lift (create_constant_int 0) in m_ret (Some v)
      else nothing
  end.
Definition visit_IntegerLiteral (z : Z) : method t (option IRValue) :=
  let! v := m_lift (create_constant_int z) in m_ret (Some v).
Definition visit_FloatLiteral (f : Z) : method t (option IRValue) := m_ret (Some (create_constant_float f)).
Definition visit_StringLiteral (s : string) : method t (option IRValue) := m_ret (Some (create_constant_string s)).
Definition visit_BooleanLiteral (b : bool) : method t (option IRValue) := m_ret (Some (create_constant_bool b)).
Definition visit_NullLiteral : method t (option IRValue) := visit_IntegerLiteral 0.
Definition visit_RecordLiteral : method t (option IRValue) := visit_IntegerLiteral 0.

Definition visit_BreakStmt : method t (option IRValue) :=
  let! s := m_get in
  match last (loop_break_labels s) with
  | Some l => let! _ := build_ (IRBuilder.emit_goto l "break") in nothing
  | None => nothing
  end.
Definition visit_ContinueStmt : method t (option IRValue) :=
  let! s := m_get in
  match last (loop_continue_labels s) with
  | Some l => let! _ := build_ (IRBuilder.emit_goto l "continue") in nothing
  | None => nothing
  end.

Section Visitor.
Variable visit : ASTNode → method t (option IRValue).

(** A visit whose result is not used. *)
Definition visit_ (n : ASTNode) : method t () := let! _ := visit n in m_ret ().
Definition visit_opt (o : option ASTNode) : method t () :=
  match o with Some n => visit_ n | None => m_ret () end.

Definition visit_Block (statements : list ASTNode) : method t (option IRValue) :=
  let! _ := for_each visit_ statements in nothing.

Definition visit_BinaryOp (l : ASTNode) (op : TokenType.t) (r : ASTNode) : method t (option IRValue) :=
  let! l := visit l in
  let! r := visit r in
  match l, r with Some l, Some r => binary_op op l r | _, _ => nothing end.
Definition visit_UnaryOp (op : TokenType.t) (operand : ASTNode) : method t (option IRValue) :=
  let! v := visit operand in
  match v with Some v => unary_op op v | None => nothing end.

Definition visit_Assignment (target value : ASTNode) : method t (option IRValue) :=
  let! v := visit value in
  match v with
  | None => nothing
  | Some v =>
      match target with
      | Identifier n =>
          let! s := m_get in
          match var_map s !! n with
          | Some ptr =>
              let! _ := build (IRBuilder.emit_store ptr v ("assign " +:+ n)) in
              let! _ := set_var n v in
              m_ret (Some v)
          | None => m_ret (Some v)
          end
      | _ => m_ret (Some v)
      end
  end.

(** The values of the arguments that have one. *)
Fixpoint visit_args (args : list ASTNode) : method t (list IRValue) :=
  match args with
  | [] => m_ret []
  | a :: args' =>
      let! v := visit a in
      let! vs := visit_args args' in
      m_ret (match v with Some v => v :: vs | None => vs end)
  end.
Definition visit_Call (callee : ASTNode) (args : list ASTNode) : method t (option IRValue) :=
  let! vs := visit_args args in
  match callee with
  | Identifier f => build (IRBuilder.emit_call f vs INT32 None "")
  | _ => nothing
  end.

Definition visit_ArrayLiteral (elements : list ASTNode) : method t (option IRValue) :=
  let! _ := for_each visit_ elements in visit_IntegerLiteral 0.
Definition visit_Access (obj key : ASTNode) : method t (option IRValue) :=
  let! v := visit obj in
  let! _ := visit key in
  m_ret v.
Definition visit_TernaryExpr (condition then_expr else_expr : ASTNode) : method t (option IRValue) :=
  let! cond := visit condition in
  let! else_label := build (IRBuilder.new_label "ternary_else") in
  let! end_label := build (IRBuilder.new_label "ternary_end") in
  let! _ := (match cond with
             | Some c => build_ (IRBuilder.emit_if_goto c else_label "")
             | None => m_ret ()
             end) in
  let! then_val := visit then_expr in
  let! _ := build (IRBuilder.emit_goto end_label "") in
  let! _ := build (IRBuilder.emit_label else_label "") in
  let! else_val := visit else_expr in
  let! _ := build (IRBuilder.emit_goto end_label "") in
  let! _ := build (IRBuilder.emit_label end_label "") in
  m_ret (match then_val with Some v => Some v | None => else_val end).

Definition visit_VariableDecl (n : string) (ty : option ASTNode) (initializer : option ASTNode)
    : method t (option IRValue) :=
  let var_type := ast_type_to_ir_type ty in
  let unknown := mk_value ("%" +:+ n) var_type CNone false in
  let! ptr := build (IRBuilder.emit_alloc var_type None ("alloc " +:+ n)) in
  match initializer with
  | None => let! _ := set_var n unknown in nothing
  | Some e =>
      let! v := visit e in
      match v with
      | Some v =>
          let! _ := build (IRBuilder.emit_store ptr v ("init " +:+ n)) in
          let! _ := set_var n v in
          nothing
      | None => let! _ := set_var n unknown in nothing
      end
  end.

Definition visit_IfStmt (condition then_body : ASTNode) (else_body : option ASTNode) : method t (option IRValue) :=
  let! cond := visit condition in
  match cond with
  | None => nothing
  | Some c =>
      let! else_label := build (IRBuilder.new_label "else") in
      let! end_label := build (IRBuilder.new_label "if_end") in
      let! _ := build (IRBuilder.emit_if_goto c else_label "if condition false -> else") in
      let! _ := visit_ then_body in
      let! _ := build (IRBuilder.emit_goto end_label "jump to if_end") in
      let! _ := build (IRBuilder.emit_label else_label "") in
      let! _ := visit_opt else_body in
      let! _ := build (IRBuilder.emit_goto end_label "jump to if_end") in
      let! _ := build (IRBuilder.emit_label end_label "") in
      nothing
  end.

Definition push_loop (c b : string) : method t () :=
  update (λ s, with_labels (loop_continue_labels s ++ [c]) (loop_break_labels s ++ [b]) s).
Definition pop_loop : method t () :=
  let! s := m_get in
  let! c := m_lift (py_pop (loop_continue_labels s)) in
  let! _ := update (λ s, with_labels c.2 (loop_break_labels s) s) in
  let! b := m_lift (py_pop (loop_break_labels s)) in
  update (λ s, with_labels (loop_continue_labels s) b.2 s).

Definition visit_WhileStmt (condition body : ASTNode) : method t (option IRValue) :=
  let! loop_start := build (IRBuilder.new_label "loop_start") in
  let! loop_end := build (IRBuilder.new_label "loop_end") in
  let! _ := push_loop loop_start loop_end in
  let! _ := build (IRBuilder.emit_label loop_start "") in
  let! cond := visit condition in
  let! _ := (match cond with
             | Some c => build_ (IRBuilder.emit_if_goto c loop_end "while condition false -> end")
             | None => m_ret ()
             end) in
  let! _ := update (with_in_loop true) in
  let! _ := visit_ body in
  let! _ := build (IRBuilder.emit_goto loop_start "loop back") in
  let! _ := build (IRBuilder.emit_label loop_end "") in
  let! _ := pop_loop in
  let! _ := update (with_in_loop false) in
  nothing.

Definition visit_ForStmt (init_ condition step : option ASTNode) (body : ASTNode) : method t (option IRValue) :=
  let! loop_start := build (IRBuilder.new_label "for_start") in
  let! loop_body := build (IRBuilder.new_label "for_body") in
  let! loop_end := build (IRBuilder.new_label "for_end") in
  let! _ := push_loop loop_start loop_end in
  let! _ := visit_opt init_ in
  let! _ := build (IRBuilder.emit_goto loop_start "for loop start") in
  let! _ := build (IRBuilder.emit_label loop_start "") in
  let! _ := (match condition with
             | Some condition =>
                 let! cond := visit condition in
                 match cond with
                 | Some c => build_ (IRBuilder.emit_if_goto c loop_end "for condition false -> end")
                 | None => m_ret ()
                 end
             | None => m_ret ()
             end) in
  let! _ := build (IRBuilder.emit_goto loop_body "jump to body") in
  let! _ := build (IRBuilder.emit_label loop_body "") in
  let! _ := update (with_in_loop true) in
  let! _ := visit_ body in
  let! _ := update (with_in_loop false) in
  let! _ := visit_opt step in
  let! _ := build (IRBuilder.emit_goto loop_start "loop back") in
  let! _ := build (IRBuilder.emit_label loop_end "") in
  let! _ := pop_loop in
  nothing.

Definition visit_ReturnStmt (value : option ASTNode) : method t (option IRValue) :=
  match value with
  | Some e =>
      let! v := visit e in
      match v with
      | Some v => let! _ := build (IRBuilder.emit_return (Some v) "return") in nothing
      | None => nothing
      end
  | None => let! _ := build (IRBuilder.emit_return None "return") in nothing
  end.

Definition visit_MatchStmt (target : ASTNode) (arms : list (ASTNode * ASTNode)) : method t (option IRValue) :=
  let! _ := visit_ target in
  let! end_label := build (IRBuilder.new_label "match_end") in
  let! _ := for_each (λ '(_, body),
              let! _ := visit_ body in build_ (IRBuilder.emit_goto end_label "")) arms in
  let! _ := build (IRBuilder.emit_label end_label "") in
  nothing.

Definition visit_ForInStmt (target iterable body : ASTNode) : method t (option IRValue) :=
  let! _ := visit_ target in
  let! _ := visit_ iterable in
  let! _ := visit_ body in
  nothing.

(** The value of a parameter; its slot, which nothing reads. *)
Definition ir_param (p : parameter ASTNode) : IRValue :=
  mk_value ("%" +:+ p_name p) (ast_type_to_ir_type (p_type p)) CNone false.
Definition declare_param (p : parameter ASTNode) : method t () :=
  let! ptr := build (IRBuilder.emit_alloc (value_type (ir_param p)) None ("param " +:+ p_name p)) in
  let! _ := build (IRBuilder.emit_store ptr (ir_param p) ("store " +:+ p_name p)) in
  set_var (p_name p) (ir_param p).

(** The function made for the declaration ends: the last instruction of its first block jumps or
    returns. It is looked up by its name, which is the same unless the body declares another
    function of that name. *)
Definition ends (n : string) (s : t) : bool :=
  match IRModule.get_function n (IRBuilder.module (builder s)) with
  | Some f =>
      match blocks f with
      | b :: _ => bool_decide (is_Some (BasicBlock.terminator b))
      | [] => false
      end
  | None => false
  end.

Definition visit_FunctionDecl (n : string) (params : list (parameter ASTNode)) (return_type : option ASTNode)
    (body : ASTNode) : method t (option IRValue) :=
  let! _ := build (IRBuilder.new_function n (ast_type_to_ir_type return_type) (ir_param <$> params)) in
  let! _ := for_each declare_param params in
  let! _ := visit_ body in
  let! s := m_get in
  let! _ := (if ends n s then m_ret () else build_ (IRBuilder.emit_return None "implicit return")) in
  nothing.
End Visitor.

Fixpoint visit (node : ASTNode) : method t (option IRValue) :=
  match node with
  | IntegerLiteral z => visit_IntegerLiteral z
  | FloatLiteral f => visit_FloatLiteral f
  | StringLiteral s => visit_StringLiteral s
  | BooleanLiteral b => visit_BooleanLiteral b
  | NullLiteral => visit_NullLiteral
  | Identifier n => visit_Identifier n
  | BinaryOp l op r => visit_BinaryOp visit l op r
  | UnaryOp op e _ => visit_UnaryOp visit op e
  | Assignment target _ value => visit_Assignment visit target value
  | Call callee args => visit_Call visit callee args
  | Access obj key _ => visit_Access visit obj key
  | ArrayLiteral elements => visit_ArrayLiteral visit elements
  | RecordLiteral _ => visit_RecordLiteral
  | LambdaExpr _ _ _ => nothing
  | TernaryExpr c a b => visit_TernaryExpr visit c a b
  | CastExpr e _ => visit e
  | TypeAnnotation _ _ | ArrayType _ _ | TensorType _ _ | FunctionType _ _ | ParameterNode _
  | ImportDecl _ _ _ | TypeDecl _ _ | MatchPattern _ _ _ _ => nothing
  | VariableDecl n ty e _ _ => visit_VariableDecl visit n ty e
  | Block l => visit_Block visit l
  | IfStmt c a b => visit_IfStmt visit c a b
  | WhileStmt c body => visit_WhileStmt visit c body
  | ForStmt i c u body => visit_ForStmt visit i c u body
  | ForInStmt target iterable body => visit_ForInStmt visit target iterable body
  | BreakStmt => visit_BreakStmt
  | ContinueStmt => visit_ContinueStmt
  | ReturnStmt value => visit_ReturnStmt visit value
  | AssertStmt c _ => let! _ := visit c in nothing
  | DeferStmt call => let! _ := visit call in nothing
  | MatchStmt target arms => visit_MatchStmt visit target arms
  | ExpressionStmt e => let! _ := visit e in nothing
  | FunctionDecl n params ty body _ _ _ => visit_FunctionDecl visit n params ty body
  | ClassDecl _ _ _ _ _ => m_raise NotImplementedError
  | ExportDecl d => let! _ := visit d in nothing
  | ModuleNode m => let! _ := for_each (visit_ visit) (declarations m) in nothing
  | ProgramNode ms _ => let! _ := for_each (λ m, for_each (visit_ visit) (declarations m)) ms in nothing
  end.

(** [convert]: the modules of a program become one, with the name of the last. *)
Definition set_module_name (n : string) : method t () :=
  update (λ s, with_builder (IRBuilder.with_module (IRModule.with_name n (IRBuilder.module (builder s))) (builder s)) s).
Definition convert (modules : list (source_module ASTNode)) : method t IRModule.t :=
  let! _ := for_each (λ m, let! _ := set_module_name (m_name m) in
                           for_each (visit_ visit) (declarations m)) modules in
  let! s := m_get in
  m_ret (IRBuilder.module (builder s)).
End WithFloats.
End ASTToIRConverter.

(** * Checks and block merging: [IRTransform] *)

Module IRTransform.
(** What [verify_ir] reports. *)
Inductive error :=
  | NoBlocks (f : string)
  | MissingTerminator (b f : string)
  | TerminatorInside (b f : string).

Definition verify_block (f : string) (b : BasicBlock) : list error :=
  match last (instructions b) with
  | None => []
  | Some i =>
      (if IROpcode.is_terminator (opcode i) then [] else [MissingTerminator (b_name b) f]) ++
      ((λ _, TerminatorInside (b_name b) f) <$>
         filter (λ i, IROpcode.is_terminator (opcode i) = true) (removelast (instructions b)))
  end.
Definition verify_function (x : string * IRFunction) : list error :=
  match blocks x.2 with
  | [] => [NoBlocks x.1]
  | bs => concat (verify_block x.1 <$> bs)
  end.
Definition verify_ir (m : IRModule.t) : list error := concat (verify_function <$> IRModule.functions m).

(** The block ends with a jump to the next one. *)
Definition goes_to (b next : BasicBlock) : bool :=
  match last (instructions b) with
  | Some i => bool_decide (opcode i = GOTO) && bool_decide (label i = Some (b_name next))
  | None => false
  end.
(** [current] is merged with the blocks after it as long as it jumps to the next one. *)
Fixpoint merge_from (current : BasicBlock) (rest : list BasicBlock) : list BasicBlock :=
  match rest with
  | [] => [current]
  | next :: rest' =>
      if goes_to current next
      then merge_from (BasicBlock.with_instructions (removelast (instructions current) ++ instructions next) current) rest'
      else current :: merge_from next rest'
  end.
Definition merge_function (f : IRFunction) : IRFunction :=
  match blocks f with [] => f | b :: rest => with_blocks (merge_from b rest) f end.
Definition merge_blocks (m : IRModule.t) : IRModule.t :=
  IRModule.with_functions ((λ x, (x.1, merge_function x.2)) <$> IRModule.functions m) m.

(** Without edges between the blocks, the first block is the one that is reached. *)
Definition reachable_function (f : IRFunction) : IRFunction :=
  match blocks f with
  | [] => f
  | entry :: _ => with_blocks (filter (λ b, b_name b = b_name entry) (blocks f)) f
  end.
Definition remove_unreachable_blocks (m : IRModule.t) : IRModule.t :=
  IRModule.with_functions ((λ x, (x.1, reachable_function x.2)) <$> IRModule.functions m) m.
Definition simplify_cfg (m : IRModule.t) : IRModule.t := merge_blocks (remove_unreachable_blocks m).

(** The names it collects are not used. *)
Definition convert_to_ssa (m : IRModule.t) : IRModule.t := m.
End IRTransform.
