(* ===== verification/IrMachine.v ===== *)
(** Running the instructions of a function that jumps: the labels of middle/ir.py over the
    instructions of Llvm.

    The converter puts a whole function into one block, with LABEL instructions as the targets of
    GOTO and IF_GOTO; here a label is the place of its instruction. (The generators leave LABEL
    out of their text, so its jumps have no target there: this is the meaning that the instructions
    are given by the converter, not by the generators.) What IF_GOTO means is a parameter:
    backend/x86_gen.py jumps when the condition, a register, is zero, as the converter and
    backend/codegen.py mean it; backend/llvm_gen.py and the optimiser jump when it is not zero, and
    so does x86_gen on a constant. *)

From Stdlib Require Import String.
From stdpp Require Import relations.
From S2P Require Import Prelude Ir Llvm.

Open Scope string_scope.
Open Scope list_scope.
Open Scope Z_scope.

(** The two readings of IF_GOTO. *)
Definition jump_on_nonzero (c : Z) : bool := negb (c =? 0).
Definition jump_on_zero (c : Z) : bool := c =? 0.

(** The label an instruction sets. *)
Definition label_of (i : IRInstruction) : option string :=
  if bool_decide (opcode i = LABEL) then label i else None.
Definition labels (l : list IRInstruction) : list string := omap label_of l.

Definition find_label (n : string) (l : list IRInstruction) : option nat :=
  fst <$> list_find (λ i, label_of i = Some n) l.

Definition is_jump (i : IRInstruction) : bool := bool_decide (opcode i = GOTO) || bool_decide (opcode i = IF_GOTO).

Inductive config :=
  | At (pc : nat) (s : state)
  | Done (v : option Z) (m : gmap Z Z).

Section Machine.
Variable slot : string → Z.
Variable call : string → list Z → gmap Z Z → option (Z * gmap Z Z).
Variable taken : Z → bool.

Definition goto (c : list IRInstruction) (i : IRInstruction) (s : state) : option config :=
  l ← label i; n ← find_label l c; Some (At n s).

Definition step (c : list IRInstruction) (k : config) : option config :=
  match k with
  | Done _ _ => None
  | At pc s =>
      i ← c !! pc;
      match opcode i with
      | GOTO => goto c i s
      | IF_GOTO =>
          v ← head (operands i);
          x ← operand (env s) v;
          if taken x then goto c i s else Some (At (S pc) s)
      | _ =>
          o ← exec_instr slot call i s;
          Some match o with
               | Running s' => At (S pc) s'
               | Returned v m => Done v m
               end
      end
  end.

Fixpoint run_code (fuel : nat) (c : list IRInstruction) (k : config) : option config :=
  match fuel, k with
  | _, Done _ _ => Some k
  | O, _ => None
  | S n, _ => k' ← step c k; run_code n c k'
  end.

Definition steps (c : list IRInstruction) : relation config := rtc (λ k k', step c k = Some k').

#[export] Instance steps_transitive c : Transitive (steps c).
Proof. unfold steps. apply _. Qed.

(** What a piece of code does wherever it is put: it falls through, jumps to a label, or returns. *)
Inductive exit := Fall | Jump (l : string) | Ret (v : option Z).

Definition leads (code : list IRInstruction) (s : state) (x : exit) (s' : state) : Prop :=
  ∀ c before after, c = before ++ code ++ after → NoDup (labels c) →
  match x with
  | Fall => steps c (At (length before) s) (At (length before + length code) s')
  | Jump l => ∀ n, find_label l c = Some n → steps c (At (length before) s) (At n s')
  | Ret v => steps c (At (length before) s) (Done v (memory s'))
  end.

(** * Lemmas *)

Lemma steps_run c k k' : steps c k k' → ∀ v m, k' = Done v m → ∃ n, run_code n c k = Some k'.
Proof.
  induction 1 as [k|k k1 k' Hs _ IH]; intros v m ->; [by exists O|].
  destruct (IH v m eq_refl) as [n Hn]. exists (S n). cbn. destruct k; [|done]. by rewrite Hs.
Qed.

Lemma run_steps n c k k' : run_code n c k = Some k' → steps c k k'.
Proof.
  revert k. induction n as [|n IH]; intros [pc s|v m]; cbn [run_code]; try done; try (intros [= <-]; constructor).
  destruct (step c (At pc s)) as [k1|] eqn:E; [|done]. intros H. eapply rtc_l; [exact E|by apply IH].
Qed.

Lemma lookup_here {A} (l1 l2 : list A) a : (l1 ++ a :: l2) !! length l1 = Some a.
Proof. rewrite lookup_app_r by lia. by rewrite Nat.sub_diag. Qed.

Lemma labels_app l k : labels (l ++ k) = labels l ++ labels k.
Proof. apply omap_app. Qed.

Lemma find_label_here n before i after :
  label_of i = Some n → NoDup (labels (before ++ i :: after)) →
  find_label n (before ++ i :: after) = Some (length before).
Proof.
  intros Hi. induction before as [|j before IH]; intros Hd.
  - unfold find_label. cbn. by rewrite decide_True.
  - unfold find_label in *. cbn [app list_find] in *. destruct (decide _) as [Hj|Hj].
    + exfalso. cbn [app labels omap list_omap] in Hd. rewrite Hj in Hd. apply NoDup_cons in Hd as [Hd _]. apply Hd.
      fold (labels (before ++ i :: after)). rewrite labels_app. apply elem_of_app. right.
      unfold labels. cbn. rewrite Hi. left.
    + assert (NoDup (labels (before ++ i :: after))) as Hd'.
      { cbn [app labels omap list_omap] in Hd. destruct (label_of j); [by apply NoDup_cons in Hd as [_ Hd]|done]. }
      specialize (IH Hd'). destruct (list_find _ (before ++ i :: after)) as [[k x]|]; [|done].
      cbn in IH |- *. congruence.
Qed.

Lemma leads_nil s : leads [] s Fall s.
Proof. intros c before after -> _. rewrite Nat.add_0_r. constructor. Qed.

(** Falling through the first of two pieces of code, and then the second one. *)
Lemma leads_app k1 k2 s s1 x s' : leads k1 s Fall s1 → leads k2 s1 x s' → leads (k1 ++ k2) s x s'.
Proof.
  intros H1 H2 c before after Hc Hd.
  specialize (H1 c before (k2 ++ after)). specialize (H2 c (before ++ k1) after).
  rewrite <-!app_assoc, length_app in *. specialize (H1 Hc Hd). specialize (H2 Hc Hd).
  destruct x.
  - rewrite Nat.add_assoc. etransitivity; [exact H1|exact H2].
  - intros n Hn. etransitivity; [exact H1|by apply H2].
  - etransitivity; [exact H1|exact H2].
Qed.

(** Leaving from the first piece of code. *)
Lemma leads_left k1 k2 s x s' : x ≠ Fall → leads k1 s x s' → leads (k1 ++ k2) s x s'.
Proof.
  intros Hx H c before after Hc Hd. specialize (H c before (k2 ++ after)).
  rewrite <-!app_assoc in *. specialize (H Hc Hd). by destruct x.
Qed.

Lemma leads_cons i k s s1 x s' : leads [i] s Fall s1 → leads k s1 x s' → leads (i :: k) s x s'.
Proof. apply (leads_app [i]). Qed.

(** One step at the place of an instruction. *)
Lemma step_at (c before after : list IRInstruction) i :
  c = before ++ i :: after → c !! length before = Some i.
Proof. intros ->. apply lookup_here. Qed.

Lemma leads_instr i s s' :
  is_jump i = false → exec_instr slot call i s = Some (Running s') → leads [i] s Fall s'.
Proof.
  unfold is_jump. intros [H1%bool_decide_eq_false H2%bool_decide_eq_false]%orb_false_iff E c before after Hc _.
  apply rtc_once. cbn [length]. rewrite Nat.add_1_r. cbn [step].
  rewrite (step_at c before after i Hc). cbn [mbind option_bind].
  rewrite E. destruct (opcode i); done.
Qed.

Lemma leads_return i s v m :
  is_jump i = false → exec_instr slot call i s = Some (Returned v m) → leads [i] s (Ret v) (mk_state (env s) m).
Proof.
  unfold is_jump. intros [H1%bool_decide_eq_false H2%bool_decide_eq_false]%orb_false_iff E c before after Hc _.
  apply rtc_once. cbn [step].
  rewrite (step_at c before after i Hc). cbn [mbind option_bind].
  rewrite E. destruct (opcode i); done.
Qed.

Lemma leads_goto i l s : opcode i = GOTO → label i = Some l → leads [i] s (Jump l) s.
Proof.
  intros Ho Hl c before after Hc _ n Hn. apply rtc_once. cbn [step].
  rewrite (step_at c before after i Hc). cbn [mbind option_bind]. rewrite Ho.
  unfold goto. rewrite Hl. cbn. by rewrite Hn.
Qed.

Lemma leads_if i l v x s :
  opcode i = IF_GOTO → label i = Some l → operands i = [v] → operand (env s) v = Some x →
  leads [i] s (if taken x then Jump l else Fall) s.
Proof.
  intros Ho Hl Hv Hx c before after Hc _.
  assert (step c (At (length before) s) = if taken x then goto c i s else Some (At (S (length before)) s)) as Hs.
  { cbn [step]. rewrite (step_at c before after i Hc). cbn [mbind option_bind]. rewrite Ho, Hv. cbn.
    by rewrite Hx. }
  destruct (taken x).
  - intros n Hn. apply rtc_once. rewrite Hs. unfold goto. rewrite Hl. cbn. by rewrite Hn.
  - cbn [length]. rewrite Nat.add_1_r. by apply rtc_once.
Qed.

Lemma leads_label i s : opcode i = LABEL → leads [i] s Fall s.
Proof.
  intros Ho. apply leads_instr; [by unfold is_jump; rewrite Ho|]. unfold exec_instr, emitted. by rewrite Ho.
Qed.

(** A jump to a label further down the same code, which goes on from there. *)
Lemma leads_forward k1 i k2 l s s1 x s' :
  label_of i = Some l → leads k1 s (Jump l) s1 → leads (i :: k2) s1 x s' → leads (k1 ++ i :: k2) s x s'.
Proof.
  intros Hi H1 H2 c before after Hc Hd.
  assert (c = before ++ k1 ++ (i :: k2) ++ after) as Hc' by (by rewrite Hc, <-app_assoc).
  assert (find_label l c = Some (length (before ++ k1))) as Hf.
  { rewrite Hc', (app_assoc before). cbn [app]. apply find_label_here; [done|].
    rewrite <-app_assoc. by rewrite Hc' in Hd. }
  specialize (H1 c before _ Hc' Hd _ Hf). rewrite app_assoc in Hc'. specialize (H2 c _ after Hc' Hd).
  rewrite length_app in *.
  destruct x.
  - rewrite Nat.add_assoc. etransitivity; [exact H1|exact H2].
  - intros n Hn. etransitivity; [exact H1|by apply H2].
  - etransitivity; [exact H1|exact H2].
Qed.

(** Code that jumps back to its first label and then runs again. *)
Lemma leads_again i k l s s1 x s' :
  label_of i = Some l → leads (i :: k) s (Jump l) s1 → leads (i :: k) s1 x s' → leads (i :: k) s x s'.
Proof.
  intros Hi H1 H2 c before after Hc Hd.
  assert (find_label l c = Some (length before)) as Hf.
  { rewrite Hc. apply find_label_here; [done|]. by rewrite Hc in Hd. }
  specialize (H1 c before after Hc Hd _ Hf). specialize (H2 c before after Hc Hd).
  destruct x; [etransitivity; [exact H1|exact H2]| |etransitivity; [exact H1|exact H2]].
  intros n Hn. etransitivity; [exact H1|by apply H2].
Qed.

(** Code that is a whole function. *)
Lemma leads_whole code s x s' :
  NoDup (labels code) → leads code s x s' →
  match x with
  | Fall => steps code (At 0 s) (At (length code) s')
  | Jump l => ∀ n, find_label l code = Some n → steps code (At 0 s) (At n s')
  | Ret v => steps code (At 0 s) (Done v (memory s'))
  end.
Proof. intros Hd H. apply (H code [] []); [by rewrite app_nil_r|done]. Qed.
End Machine.
