(* ===== verification/SourceSemantics.v ===== *)
(** The meaning of programs on integers: a reference interpreter of the syntax tree of Ast, for the
    statements the converter of Transform compiles as they are written, and the check that a
    function is one of these.

    Integers have 32 bits, division truncates, and what has no meaning has no result. Both sides of
    [&&] and [||] are evaluated, so they have a meaning here only when evaluating the right side in
    vain changes nothing. The called functions are a parameter: they act on a memory that
    the function's own variables are not a part of. *)

From Stdlib Require Import String.
From stdpp Require Import pretty.
From S2P Require Import Prelude Ir Llvm Ast Transform.

Open Scope string_scope.
Open Scope list_scope.
Open Scope Z_scope.

Definition truth (b : bool) : Z := if b then 1 else 0.
Definition is_truth (z : Z) : bool := (z =? 0) || (z =? 1).
Definition division_defined (a b : Z) : bool := negb ((b =? 0) || ((a =? - 2 ^ 31) && (b =? -1))).
Definition shift_defined (b : Z) : bool := (0 <=? b) && (b <? 32).

Definition source_op (op : TokenType.t) (a b : Z) : option Z :=
  match op with
  | TokenType.PLUS => Some (wrap32 (a + b))
  | TokenType.MINUS => Some (wrap32 (a - b))
  | TokenType.STAR => Some (wrap32 (a * b))
  | TokenType.SLASH => if division_defined a b then Some (Z.quot a b) else None
  | TokenType.PERCENT => if division_defined a b then Some (Z.rem a b) else None
  | TokenType.EQUAL_EQUAL => Some (truth (a =? b))
  | TokenType.NOT_EQUAL => Some (truth (negb (a =? b)))
  | TokenType.LESS => Some (truth (a <? b))
  | TokenType.GREATER => Some (truth (b <? a))
  | TokenType.LESS_EQUAL => Some (truth (a <=? b))
  | TokenType.GREATER_EQUAL => Some (truth (b <=? a))
  | TokenType.AND => if is_truth a && is_truth b then Some (truth ((a =? 1) && (b =? 1))) else None
  | TokenType.OR => if is_truth a && is_truth b then Some (truth ((a =? 1) || (b =? 1))) else None
  | TokenType.BIT_AND => Some (Z.land a b)
  | TokenType.BIT_OR => Some (Z.lor a b)
  | TokenType.BIT_XOR => Some (Z.lxor a b)
  | TokenType.LEFT_SHIFT => if shift_defined b then Some (wrap32 (a * 2 ^ b)) else None
  | TokenType.RIGHT_SHIFT => if shift_defined b then Some (a / 2 ^ b) else None
  | _ => None
  end.
Definition source_unary (op : TokenType.t) (a : Z) : option Z :=
  match op with
  | TokenType.MINUS => Some (wrap32 (- a))
  | TokenType.BIT_NOT => Some (- a - 1)
  | _ => None
  end.

(** The right side of [&&] and [||] matters, or evaluating it changed nothing. *)
Definition right_side (op : TokenType.t) (a : Z) (m m' : gmap Z Z) : bool :=
  match op with
  | TokenType.AND => (a =? 1) || bool_decide (m = m')
  | TokenType.OR => (a =? 0) || bool_decide (m = m')
  | _ => true
  end.

Definition vars : Type := gmap string Z.

(** How a statement ends. *)
Inductive ending :=
  | Next (r : vars) (m : gmap Z Z)
  | Broken (m : gmap Z Z)
  | Continued (m : gmap Z Z)
  | Returns (v : option Z) (m : gmap Z Z).

(** The variables declared inside are gone. *)
Definition scoped (r : vars) (e : ending) : ending := match e with Next _ m => Next r m | _ => e end.

Section Semantics.
Variable call : string → list Z → gmap Z Z → option (Z * gmap Z Z).
(** Whether a condition with this value holds. *)
Variable holds : Z → bool.

Section Args.
Variable eval : ASTNode → gmap Z Z → option (Z * gmap Z Z).
Fixpoint eval_args (l : list ASTNode) (m : gmap Z Z) : option (list Z * gmap Z Z) :=
  match l with
  | [] => Some ([], m)
  | e :: l' => x ← eval e m; y ← eval_args l' x.2; Some (x.1 :: y.1, y.2)
  end.
End Args.

Fixpoint eval (r : vars) (e : ASTNode) (m : gmap Z Z) : option (Z * gmap Z Z) :=
  match e with
  | IntegerLiteral z => Some (z, m)
  | BooleanLiteral b => Some (truth b, m)
  | NullLiteral => Some (0, m)
  | Identifier x => v ← r !! x; Some (v, m)
  | BinaryOp lhs op rhs =>
      a ← eval r lhs m;
      b ← eval r rhs a.2;
      v ← source_op op a.1 b.1;
      if right_side op a.1 a.2 b.2 then Some (v, b.2) else None
  | UnaryOp op e _ => a ← eval r e m; v ← source_unary op a.1; Some (v, a.2)
  | Call (Identifier f) args => x ← eval_args (eval r) args m; call f x.1 x.2
  | _ => None
  end.

Section Statements.
Variable run : ASTNode → vars → gmap Z Z → option ending.
Fixpoint run_list (l : list ASTNode) (r : vars) (m : gmap Z Z) : option ending :=
  match l with
  | [] => Some (Next r m)
  | s :: l' =>
      e ← run s r m;
      match e with Next r' m' => run_list l' r' m' | _ => Some e end
  end.
End Statements.

Section Loop.
Variable condition : gmap Z Z → option (Z * gmap Z Z).
Variable body : gmap Z Z → option ending.
Fixpoint run_while (fuel : nat) (r : vars) (m : gmap Z Z) : option ending :=
  match fuel with
  | O => None
  | S n =>
      c ← condition m;
      if holds c.1 then
        e ← body c.2;
        match e with
        | Next _ m' | Continued m' => run_while n r m'
        | Broken m' => Some (Next r m')
        | Returns _ _ => Some e
        end
      else Some (Next r c.2)
  end.
End Loop.

(** The fuel bounds the turns of each loop. *)
Fixpoint run (fuel : nat) (s : ASTNode) (r : vars) (m : gmap Z Z) : option ending :=
  match s with
  | ExpressionStmt e => x ← eval r e m; Some (Next r x.2)
  | VariableDecl n _ (Some e) _ _ => x ← eval r e m; Some (Next (<[n := x.1]> r) x.2)
  | Block l => e ← run_list (run fuel) l r m; Some (scoped r e)
  | IfStmt c a b =>
      x ← eval r c m;
      if holds x.1 then e ← run fuel a r x.2; Some (scoped r e)
      else match b with
           | Some b => e ← run fuel b r x.2; Some (scoped r e)
           | None => Some (Next r x.2)
           end
  | WhileStmt c body => run_while (eval r c) (run fuel body r) fuel r m
  | BreakStmt => Some (Broken m)
  | ContinueStmt => Some (Continued m)
  | ReturnStmt (Some e) => x ← eval r e m; Some (Returns (Some x.1) x.2)
  | ReturnStmt None => Some (Returns None m)
  | _ => None
  end.

(** What a call of the function returns, and the memory it leaves. *)
Definition result_of (e : ending) : option (option Z * gmap Z Z) :=
  match e with
  | Next _ m => Some (None, m)
  | Returns v m => Some (v, m)
  | _ => None
  end.
Definition run_function (fuel : nat) (names : list string) (body : ASTNode) (args : list Z) (m : gmap Z Z)
    : option (option Z * gmap Z Z) :=
  e ← run fuel body (list_to_map (zip names args)) m; result_of e.
End Semantics.

(** * The fragment *)

Definition i32 (z : Z) : bool := (- 2 ^ 31 <=? z) && (z <? 2 ^ 31).

(** The operators that the converter compiles as they are meant. *)
Definition good_op (op : TokenType.t) : bool :=
  bool_decide (op ∈ [TokenType.PLUS; TokenType.MINUS; TokenType.STAR; TokenType.SLASH; TokenType.PERCENT;
    TokenType.EQUAL_EQUAL; TokenType.NOT_EQUAL; TokenType.LESS; TokenType.GREATER; TokenType.LESS_EQUAL;
    TokenType.GREATER_EQUAL; TokenType.AND; TokenType.OR; TokenType.BIT_AND; TokenType.BIT_OR;
    TokenType.BIT_XOR; TokenType.LEFT_SHIFT; TokenType.RIGHT_SHIFT]).

Fixpoint expr_ok (scope : list string) (e : ASTNode) : bool :=
  match e with
  | IntegerLiteral z => i32 z
  | BooleanLiteral _ | NullLiteral => true
  | Identifier x => bool_decide (x ∈ scope)
  | BinaryOp lhs op rhs => good_op op && expr_ok scope lhs && expr_ok scope rhs
  | UnaryOp (TokenType.MINUS | TokenType.BIT_NOT) e _ => expr_ok scope e
  | Call (Identifier _) args => forallb (expr_ok scope) args
  | _ => false
  end.

Section Check.
Variable check : list string → ASTNode → option (list string).
Fixpoint check_list (scope : list string) (l : list ASTNode) : option (list string) :=
  match l with
  | [] => Some scope
  | s :: l' => scope' ← check scope s; check_list scope' l'
  end.
End Check.

(** The variables in scope after a statement of the fragment. A variable is declared with its
    value, and not twice. *)
Fixpoint stmt_ok (loop : bool) (scope : list string) (s : ASTNode) : option (list string) :=
  match s with
  | ExpressionStmt e => if expr_ok scope e then Some scope else None
  | VariableDecl n _ (Some e) _ _ =>
      if expr_ok scope e && bool_decide (n ∉ scope) then Some (n :: scope) else None
  | Block l => _ ← check_list (stmt_ok loop) scope l; Some scope
  | IfStmt c a b =>
      if expr_ok scope c then
        _ ← stmt_ok loop scope a;
        match b with Some b => _ ← stmt_ok loop scope b; Some scope | None => Some scope end
      else None
  | WhileStmt c body => if expr_ok scope c then _ ← stmt_ok true scope body; Some scope else None
  | BreakStmt | ContinueStmt => if loop then Some scope else None
  | ReturnStmt (Some e) => if expr_ok scope e then Some scope else None
  | ReturnStmt None => Some scope
  | _ => None
  end.

(** Integer or boolean parameters with names of their own. *)
Definition param_ok (p : parameter ASTNode) : bool :=
  bool_decide (ast_type_to_ir_type (p_type p) ∈ [INT32; INT1]).
Definition function_ok (params : list (parameter ASTNode)) (body : ASTNode) : bool :=
  forallb param_ok params && bool_decide (NoDup (p_name <$> params)) &&
  bool_decide (is_Some (stmt_ok false (p_name <$> params) body)).

(** A parameter with the name of a temporary would be overwritten. *)
Definition not_temporary (p : parameter ASTNode) : Prop := ∀ k : nat, p_name p ≠ "t" +:+ pretty k.
