(* ===== verification/TransformExpr.v ===== *)
(** The code of expressions: what ASTToIRConverter emits for an expression of the fragment of
    SourceSemantics computes its value, and the bookkeeping of the builder that the statements need
    too. *)

From Stdlib Require Import String.
From stdpp Require Import pretty relations.
From S2P Require Import Prelude PyDict Ir Llvm Optimizer IrBuilder Ast Transform IrMachine SourceSemantics.
Import ASTToIRConverter.

Open Scope string_scope.
Open Scope list_scope.
Open Scope nat_scope.

(** * What the converter has emitted *)

Abbreviation cur s := (IRBuilder.current (builder s)).
Abbreviation tmp s := (IRBuilder.temp_counter (builder s)).
Abbreviation lab s := (IRBuilder.label_counter (builder s)).
Abbreviation md s := (IRBuilder.module (builder s)).

(** The module after an [append]. *)
Definition grown (f : string) (i : nat) (l : list IRInstruction) (m : IRModule.t) : IRModule.t :=
  IRModule.with_functions
    (IRBuilder.dict_alter f (λ fn, with_blocks
       (alter (λ bb, BasicBlock.with_instructions (instructions bb ++ l) bb) i (blocks fn)) fn)
       (IRModule.functions m)) m.

Record extends (s : t) (code : list IRInstruction) (s' : t) : Prop := {
  em_current : cur s' = cur s;
  em_module : ∀ f i, cur s = Some (f, i) → md s' = grown f i code (md s);
  em_temp : tmp s ≤ tmp s';
  em_label : lab s ≤ lab s';
  em_continue : loop_continue_labels s' = loop_continue_labels s;
  em_break : loop_break_labels s' = loop_break_labels s;
}.

Lemma dict_alter_alter {A} k (f g : A → A) d :
  IRBuilder.dict_alter k f (IRBuilder.dict_alter k g d) = IRBuilder.dict_alter k (f ∘ g) d.
Proof.
  unfold IRBuilder.dict_alter. rewrite <-list_fmap_compose. apply list_fmap_ext. intros i [k' a] _. cbn.
  by case_decide.
Qed.

Lemma dict_alter_ext {A} k (f g : A → A) d :
  (∀ a, f a = g a) → IRBuilder.dict_alter k f d = IRBuilder.dict_alter k g d.
Proof. intros H. apply list_fmap_ext. intros i [k' a] _. cbn. by rewrite H. Qed.

Lemma grown_grown f i c1 c2 m : grown f i c2 (grown f i c1 m) = grown f i (c1 ++ c2) m.
Proof.
  unfold grown, IRModule.with_functions. cbn [IRModule.functions IRModule.name IRModule.globals IRModule.struct_types].
  f_equal. rewrite dict_alter_alter. apply dict_alter_ext.
  intros fn. unfold with_blocks. cbn. f_equal. rewrite list_alter_alter_eq. apply list_alter_ext; [|done].
  intros bb _. unfold BasicBlock.with_instructions. cbn. by rewrite <-app_assoc.
Qed.

Lemma grown_nil f i m : grown f i [] m = m.
Proof.
  destruct m as [n fs gs st]. unfold grown, IRModule.with_functions. cbn. f_equal.
  unfold IRBuilder.dict_alter. rewrite <-(list_fmap_id fs) at 2. apply list_fmap_ext. intros j [k fn] _. cbn.
  case_decide; [|done]. f_equal. destruct fn as [n' ty ps bs]. unfold with_blocks. cbn. f_equal.
  apply list_alter_id. intros [bn ins]. unfold BasicBlock.with_instructions. cbn. by rewrite app_nil_r.
Qed.

Lemma extends_trans s c1 s1 c2 s2 : extends s c1 s1 → extends s1 c2 s2 → extends s (c1 ++ c2) s2.
Proof.
  intros [] []. split; try (by etransitivity); try congruence; try lia.
  intros f i H. rewrite <-grown_grown. rewrite <-(em_module0 f i H). apply em_module1. congruence.
Qed.

(** A method that succeeds and emits code. *)
Definition visits {A} (m : method t A) (s : t) (code : list IRInstruction) (s' : t) (a : A) : Prop :=
  m s = (s', Ok a) ∧ extends s code s'.

Lemma visits_bind {A B} (m : method t A) (k : A → method t B) s c1 s1 a c2 s2 b :
  visits m s c1 s1 a → visits (k a) s1 c2 s2 b → visits (m_bind m k) s (c1 ++ c2) s2 b.
Proof. intros [H1 E1] [H2 E2]. split; [by rewrite (m_bind_ok _ _ _ _ _ H1)|by eapply extends_trans]. Qed.

Lemma visits_ret {A} (a : A) s : visits (m_ret a) s [] s a.
Proof. split; [done|]. split; try done. intros f i _. by rewrite grown_nil. Qed.

(** A method that emits nothing. *)
Lemma visits_quiet {A} (m : method t A) s s' a :
  m s = (s', Ok a) → cur s' = cur s → md s' = md s → tmp s ≤ tmp s' → lab s ≤ lab s' →
  loop_continue_labels s' = loop_continue_labels s → loop_break_labels s' = loop_break_labels s →
  visits m s [] s' a.
Proof. intros H ? Hm ????. split; [done|]. split; try done. intros f i _. by rewrite grown_nil. Qed.

Lemma visits_code {A} (m : method t A) s c c' s' a : visits m s c s' a → c = c' → visits m s c' s' a.
Proof. by intros H <-. Qed.

Lemma visits_drop {A} (m : method t A) s c s' a : visits m s c s' a → visits (let! _ := m in m_ret ()) s c s' ().
Proof. intros H. eapply visits_code; [eapply visits_bind; [exact H|apply visits_ret]|]. apply app_nil_r. Qed.

(** ** The builder *)

Definition put (code : list IRInstruction) (s : t) : t :=
  match cur s with
  | Some (f, i) => with_builder (IRBuilder.append f i code (builder s)) s
  | None => s
  end.
Definition bump_temp (s : t) : t :=
  with_builder (IRBuilder.mk (md s) (cur s) (S (tmp s)) (lab s)) s.
Definition bump_label (s : t) : t :=
  with_builder (IRBuilder.mk (md s) (cur s) (tmp s) (S (lab s))) s.

Lemma put_cur c s : cur (put c s) = cur s.
Proof. unfold put. by destruct (cur s) as [[]|] eqn:E. Qed.
Lemma put_tmp c s : tmp (put c s) = tmp s.
Proof. unfold put. by destruct (cur s) as [[]|]. Qed.
Lemma put_lab c s : lab (put c s) = lab s.
Proof. unfold put. by destruct (cur s) as [[]|]. Qed.
Lemma put_vars c s : var_map (put c s) = var_map s.
Proof. unfold put. by destruct (cur s) as [[]|]. Qed.
Lemma put_continue c s : loop_continue_labels (put c s) = loop_continue_labels s.
Proof. unfold put. by destruct (cur s) as [[]|]. Qed.
Lemma put_break c s : loop_break_labels (put c s) = loop_break_labels s.
Proof. unfold put. by destruct (cur s) as [[]|]. Qed.

Create Rewrite HintDb converter.
#[export] Hint Rewrite put_cur put_tmp put_lab put_vars put_continue put_break : converter.

Ltac converter := autorewrite with converter in *; cbn [bump_temp bump_label with_builder with_vars with_in_loop
  with_labels builder var_map in_loop loop_continue_labels loop_break_labels IRBuilder.module IRBuilder.current
  IRBuilder.temp_counter IRBuilder.label_counter] in *; autorewrite with converter in *.

Lemma visits_emit o d ops l c s :
  is_Some (cur s) →
  visits (build (IRBuilder.emit o d ops l c)) s [mk_instr o d ops l c] (put [mk_instr o d ops l c] s)
    (mk_instr o d ops l c).
Proof.
  intros [[f i] Hc]. split.
  - unfold build, on_part, IRBuilder.emit, m_bind, m_get. cbn. rewrite Hc. unfold put. by rewrite Hc.
  - split; rewrite ?put_cur, ?put_tmp, ?put_lab, ?put_continue, ?put_break; try done.
    intros f' i' H. unfold put. rewrite Hc in *. injection H as <- <-. done.
Qed.

(** Its result is not used. *)
Lemma visits_emit_ o d ops l c s :
  is_Some (cur s) →
  visits (build_ (IRBuilder.emit o d ops l c)) s [mk_instr o d ops l c] (put [mk_instr o d ops l c] s) ().
Proof. intros H. eapply (visits_drop (build _)), visits_emit. done. Qed.

(** The registers of the temporaries. *)
Definition reg (k : nat) : string := "%t" +:+ pretty k.
Definition temp (ty : IRValueType) (k : nat) : IRValue := mk_value (reg k) ty CNone false.

Lemma visits_temp ty s : visits (build (IRBuilder.new_temp ty)) s [] (bump_temp s) (temp ty (tmp s)).
Proof. apply visits_quiet; cbn; try done. lia. Qed.

Lemma visits_label p s : visits (build (IRBuilder.new_label p)) s [] (bump_label s) (p +:+ pretty (lab s)).
Proof. apply visits_quiet; cbn; try done. lia. Qed.

Lemma build_bind {A B} (m : method IRBuilder.t A) (k : A → method IRBuilder.t B) s :
  build (m_bind m k) s = m_bind (build m) (λ a, build (k a)) s.
Proof.
  unfold build, on_part, m_bind. destruct (m (part s)) as [b [a|e]]; [|done]. cbn.
  by destruct (k a b).
Qed.

Lemma visits_build_bind {A B} (m : method IRBuilder.t A) (k : A → method IRBuilder.t B) s c s' b :
  visits (m_bind (build m) (λ a, build (k a))) s c s' b → visits (build (m_bind m k)) s c s' b.
Proof. unfold visits. by rewrite build_bind. Qed.

Lemma visits_build_ret {A} (a : A) s : visits (build (m_ret a)) s [] s a.
Proof. split; [|apply (visits_ret a)]. unfold build, on_part, m_ret. cbn. by destruct s. Qed.

(** An instruction that computes a new temporary. *)
Definition computing (o : IROpcode) (ty : IRValueType) (ops : list IRValue) (c : string) (s : t) : IRInstruction :=
  mk_instr o (Some (temp ty (tmp s))) ops None c.

Lemma visits_emit_to ty o ops c s :
  is_Some (cur s) →
  visits (build (IRBuilder.emit_to None ty o ops c)) s [computing o ty ops c s]
    (put [computing o ty ops c s] (bump_temp s)) (temp ty (tmp s)).
Proof.
  intros Hc. apply visits_build_bind. eapply (visits_bind _ _ _ []); [apply visits_temp|].
  apply visits_build_bind. eapply visits_code; [eapply visits_bind; [by apply visits_emit|apply visits_build_ret]|done].
Qed.

Lemma visits_built ty o ops c s :
  is_Some (cur s) →
  visits (built (IRBuilder.emit_to None ty o ops c)) s [computing o ty ops c s]
    (put [computing o ty ops c s] (bump_temp s)) (Some (temp ty (tmp s))).
Proof.
  intros Hc. eapply visits_code; [eapply visits_bind; [by apply visits_emit_to|apply visits_ret]|done].
Qed.

Lemma visits_compute o ty ops s :
  is_Some (cur s) →
  visits (compute o ty ops) s [computing o ty ops "" s] (put [computing o ty ops "" s] (bump_temp s))
    (Some (temp ty (tmp s))).
Proof.
  intros Hc. eapply (visits_bind _ _ _ []); [apply visits_temp|].
  eapply visits_code; [eapply visits_bind; [by apply visits_emit|apply visits_ret]|done].
Qed.

(** * What the code of an expression does *)

Lemma reg_register k : register (reg k) = reg k.
Proof. done. Qed.

Lemma reg_inj j k : reg j = reg k → j = k.
Proof. intros H%(inj (String.append _)). by apply (inj pretty). Qed.

(** Only temporaries from the [n]th on have changed. *)
Definition upd (n : nat) (e e' : gmap string Z) : Prop :=
  ∀ x, (∀ k, n ≤ k → x ≠ reg k) → e' !! x = e !! x.

Lemma upd_refl n e : upd n e e.
Proof. done. Qed.
Lemma upd_trans n e e1 e2 : upd n e e1 → upd n e1 e2 → upd n e e2.
Proof. intros H1 H2 x Hx. by rewrite H2, H1. Qed.
Lemma upd_weaken n n' e e' : n ≤ n' → upd n' e e' → upd n e e'.
Proof. intros Hn H x Hx. apply H. intros k Hk. apply Hx. lia. Qed.
Lemma upd_insert n k z e : n ≤ k → upd n e (<[reg k := z]> e).
Proof. intros Hk x Hx. apply lookup_insert_ne. intros <-. by eapply Hx. Qed.

(** A value of an integer or boolean type that the temporaries from the [n]th on are not a part of. *)
Record good (n : nat) (v : IRValue) : Prop := {
  good_stable : is_constant v = true ∨ ∀ k, n ≤ k → register (v_name v) ≠ reg k;
  good_type : value_type v ∈ [INT32; INT1];
}.

Lemma good_later n n' v : n ≤ n' → good n v → good n' v.
Proof. intros Hn [[?|H] ?]; split; auto. right. intros k Hk. apply H. lia. Qed.

Lemma good_operand n v e e' : good n v → upd n e e' → operand e' v = operand e v.
Proof. intros [[Hc|Hs] _] H; unfold operand; [by rewrite Hc|]. destruct (is_constant v); [done|]. by apply H. Qed.

Lemma good_temp ty k n : k < n → ty ∈ [INT32; INT1] → good n (temp ty k).
Proof. intros Hk Hty. split; [|done]. right. intros j Hj E%reg_inj. lia. Qed.

Lemma good_not_float n v : good n v → IRBuilder.is_float v = false.
Proof. intros [_ H]. unfold IRBuilder.is_float. apply bool_decide_eq_false. intros E. rewrite E in H. by apply elem_of_cons in H as [?|?%list_elem_of_singleton]. Qed.

(** The variables in scope have good values. *)
Definition vars_ok (n : nat) (vm : gmap string IRValue) (scope : list string) : Prop :=
  ∀ x, x ∈ scope → ∃ v, vm !! x = Some v ∧ good n v.

Lemma vars_ok_weaken n n' vm scope : n ≤ n' → vars_ok n vm scope → vars_ok n' vm scope.
Proof. intros Hn H x Hx. destruct (H x Hx) as (v & ? & ?). exists v. split; [done|by eapply good_later]. Qed.

(** The registers hold the values of the variables. *)
Definition env_ok (r : vars) (scope : list string) (vm : gmap string IRValue) (e : gmap string Z) : Prop :=
  ∀ x z, r !! x = Some z → x ∈ scope ∧ ∃ v, vm !! x = Some v ∧ operand e v = Some z.

Lemma env_ok_upd n r scope vm e e' : vars_ok n vm scope → env_ok r scope vm e → upd n e e' → env_ok r scope vm e'.
Proof.
  intros Hv He Hu x z Hx. destruct (He x z Hx) as (Hs & v & Hvm & Ho). split; [done|]. exists v. split; [done|].
  destruct (Hv x Hs) as (v' & Hvm' & Hg). assert (v' = v) as -> by congruence.
  by rewrite (good_operand n v e e').
Qed.

(** The operation of each operator. *)
Definition operation (op : TokenType.t) (ty : IRValueType) : option (IROpcode * IRValueType) :=
  match op with
  | TokenType.PLUS => Some (ADD_I, ty)
  | TokenType.MINUS => Some (SUB_I, ty)
  | TokenType.STAR => Some (MUL_I, ty)
  | TokenType.SLASH => Some (DIV_I, ty)
  | TokenType.PERCENT => Some (MOD_I, INT32)
  | TokenType.EQUAL_EQUAL => Some (EQ_I, INT1)
  | TokenType.NOT_EQUAL => Some (NE_I, INT1)
  | TokenType.LESS => Some (LT_I, INT1)
  | TokenType.GREATER => Some (GT_I, INT1)
  | TokenType.LESS_EQUAL => Some (LE_I, INT1)
  | TokenType.GREATER_EQUAL => Some (GE_I, INT1)
  | TokenType.AND => Some (AND_I, INT1)
  | TokenType.OR => Some (OR_I, INT1)
  | TokenType.BIT_AND => Some (AND_I, INT32)
  | TokenType.BIT_OR => Some (OR_I, INT32)
  | TokenType.BIT_XOR => Some (XOR_I, INT32)
  | TokenType.LEFT_SHIFT => Some (SHL, INT32)
  | TokenType.RIGHT_SHIFT => Some (SHR, INT32)
  | _ => None
  end.

Lemma good_operation op ty : good_op op = true → ty ∈ [INT32; INT1] →
  ∃ o ty', operation op ty = Some (o, ty') ∧ ty' ∈ [INT32; INT1].
Proof.
  assert (INT32 ∈ [INT32; INT1] ∧ INT1 ∈ [INT32; INT1]) as [? ?] by set_solver.
  intros Ho Hty. unfold good_op in Ho. apply bool_decide_eq_true in Ho.
  repeat (apply elem_of_cons in Ho as [->|Ho]; [by do 2 eexists|]). by apply not_elem_of_nil in Ho.
Qed.

Lemma is_truth_cases z : is_truth z = true → z = 0%Z ∨ z = 1%Z.
Proof. unfold is_truth. lia. Qed.

Lemma operation_value op ty o ty' a b z :
  operation op ty = Some (o, ty') → source_op op a b = Some z → llvm_op o a b = Some z.
Proof.
  intros Ho. destruct op; try done; injection Ho as <- <-; cbn; unfold bool32, truth, division_defined,
    shift_defined; try done.
  - by destruct (_ || _).
  - by destruct (_ || _).
  - intros H. destruct (is_truth a && is_truth b) eqn:E; [|done]. apply andb_true_iff in E as [Ha Hb].
    injection H as <-. apply is_truth_cases in Ha as [->| ->], Hb as [->| ->]; done.
  - intros H. destruct (is_truth a && is_truth b) eqn:E; [|done]. apply andb_true_iff in E as [Ha Hb].
    injection H as <-. apply is_truth_cases in Ha as [->| ->], Hb as [->| ->]; done.
Qed.

Section Calls.
Context `{FL : Floats}.
Variable slot : string → Z.
Variable call : string → list Z → gmap Z Z → option (Z * gmap Z Z).
Variable taken : Z → bool.

Abbreviation leads := (IrMachine.leads slot call taken).

Lemma visits_binary op l r s o ty :
  is_Some (cur s) → IRBuilder.is_float l = false → operation op (value_type l) = Some (o, ty) →
  visits (binary_op op l r) s [computing o ty [l; r] "" s] (put [computing o ty [l; r] "" s] (bump_temp s))
    (Some (temp ty (tmp s))).
Proof.
  intros Hc Hf Ho. destruct op; try done; injection Ho as <- <-; cbn [binary_op];
    unfold IRBuilder.emit_add, IRBuilder.emit_sub, IRBuilder.emit_mul, IRBuilder.emit_icmp; rewrite ?Hf;
    solve [by apply visits_built | by apply visits_compute].
Qed.

(** An instruction with two operands. *)
Lemma exec_binary o ty l r c s a b z st :
  operand (env st) l = Some a → operand (env st) r = Some b → llvm_op o a b = Some z →
  leads [computing o ty [l; r] c s] st Fall (mk_state (<[reg (tmp s) := z]> (env st)) (memory st)).
Proof.
  intros Ha Hb Hz. apply leads_instr; [by destruct o|].
  unfold exec_instr, run_instr. rewrite arguments_of by (intros E; cbn in E; by subst). cbn [computing operands].
  rewrite (operand_values_2 _ _ _ a b) by done. cbn [mbind option_bind].
  replace (emitted (computing o ty [l; r] c s)) with true by (by destruct o).
  unfold effect_of. cbn [computing opcode]. destruct o; try done; rewrite Hz; done.
Qed.

Lemma exec_unary o ty v c s a z st :
  operand (env st) v = Some a → (o, z) ∈ [(NEG, wrap32 (- a)); (NOT_I, Z.lxor a (-1))] →
  leads [computing o ty [v] c s] st Fall (mk_state (<[reg (tmp s) := z]> (env st)) (memory st)).
Proof.
  intros Ha [[= -> ->]|[= -> ->]%list_elem_of_singleton]%elem_of_cons; (apply leads_instr; [done|]);
    unfold exec_instr, run_instr; rewrite arguments_of by done; cbn [computing operands];
    by rewrite (operand_values_1 _ _ a).
Qed.

(** Memories that differ in the slots of variables only. *)
Definition agree (m m' : gmap Z Z) : Prop := ∀ a, (∀ x, slot x ≠ a) → m !! a = m' !! a.

Lemma agree_refl m : agree m m.
Proof. done. Qed.

Lemma agree_store m m' x z : agree m m' → agree m (<[slot x := z]> m').
Proof. intros H a Ha. rewrite lookup_insert_ne by done. by apply H. Qed.

(** The called functions do not see the slots of their caller. *)
Hypothesis call_frame : ∀ f vs m1 m2 v m1', agree m1 m2 → call f vs m1 = Some (v, m1') →
  ∃ m2', call f vs m2 = Some (v, m2') ∧ agree m1' m2'.

(** Code without labels that does not end. *)
Record plain (s s' : t) (code : list IRInstruction) : Prop := {
  plain_vars : var_map s' = var_map s;
  plain_lab : lab s' = lab s;
  plain_code : Forall (λ i, label_of i = None ∧ IROpcode.is_terminator (opcode i) = false) code;
}.

Lemma plain_trans s s1 s' c1 c2 : plain s s1 c1 → plain s1 s' c2 → plain s s' (c1 ++ c2).
Proof. intros [] []. split; [congruence..|by apply Forall_app]. Qed.

Definition computes (s : t) (scope : list string) (e : ASTNode) (code : list IRInstruction) (v : IRValue) : Prop :=
  ∀ r st m z m', env_ok r scope (var_map s) (env st) → agree m (memory st) → eval call r e m = Some (z, m') →
  ∃ st', leads code st Fall st' ∧ upd (tmp s) (env st) (env st') ∧ agree m' (memory st') ∧
         operand (env st') v = Some z.

Definition expr_spec (scope : list string) (e : ASTNode) : Prop :=
  ∀ s, is_Some (cur s) → vars_ok (tmp s) (var_map s) scope →
  ∃ s' code v, visits (visit e) s code s' (Some v) ∧ plain s s' code ∧ good (tmp s') v ∧ computes s scope e code v.

(** A constant needs no code. *)
Lemma spec_constant scope e v c :
  (∀ s, visit e s = (s, Ok (Some v))) → good 0 v → is_constant v = true → literal v = Some c →
  (∀ r m, eval call r e m = Some (c, m)) → expr_spec scope e.
Proof.
  intros Hv Hg Hc Hl He s Hs Hvars. exists s, [], v. split_and!.
  - by apply visits_quiet.
  - by split.
  - eapply good_later; [|done]. lia.
  - intros r st m z m' _ Hm Hz. rewrite He in Hz. injection Hz as <- <-. exists st.
    split_and!; [apply leads_nil|done..|]. unfold operand. by rewrite Hc.
Qed.

Lemma spec_integer scope z : i32 z = true → expr_spec scope (IntegerLiteral z).
Proof.
  unfold i32. intros Hz. apply (spec_constant _ _ (mk_value (pretty z) INT32 (CInt z) true) z); try done.
  - intros s. cbn [visit]. unfold visit_IntegerLiteral, m_bind, m_lift, create_constant_int, int_text.
    assert (10 ^ 10 <= 10 ^ PyNum.max_str_digits)%Z by (apply Z.pow_le_mono_r; unfold PyNum.max_str_digits; lia).
    by if_false.
  - split; [by left|set_solver].
  - cbn. by rewrite wrap32_small by lia.
Qed.

Lemma spec_identifier scope x : x ∈ scope → expr_spec scope (Identifier x).
Proof.
  intros Hx s Hs Hvars. destruct (Hvars x Hx) as (v & Hv & Hg). exists s, [], v. split_and!; [|by split|done|].
  - apply visits_quiet; try done. cbn [visit]. unfold visit_Identifier, m_bind, m_get. by rewrite Hv.
  - intros r st m z m' He Hm Hz. cbn [eval] in Hz. destruct (r !! x) as [z'|] eqn:Er; [|done].
    injection Hz as <- <-. destruct (He x z' Er) as (_ & v' & Hv' & Ho).
    exists st. split_and!; [apply leads_nil|done..|congruence].
Qed.

Lemma extends_cur {s c s'} : extends s c s' → is_Some (cur s) → is_Some (cur s').
Proof. intros [H _ _ _ _ _] ?. by rewrite H. Qed.

(** A computed temporary. *)
Lemma plain_computing s o ty ops c :
  IROpcode.is_terminator o = false → o ≠ LABEL →
  plain s (put [computing o ty ops c s] (bump_temp s)) [computing o ty ops c s].
Proof.
  intros Ho Hl. split; [by converter..|]. constructor; [|constructor]. split; [|done].
  unfold label_of. by rewrite bool_decide_eq_false_2.
Qed.

Lemma operation_opcode op ty o ty' : operation op ty = Some (o, ty') → IROpcode.is_terminator o = false ∧ o ≠ LABEL.
Proof. intros H. destruct op; try done; by injection H as <- <-. Qed.

Lemma spec_binary scope op l r :
  good_op op = true → expr_spec scope l → expr_spec scope r → expr_spec scope (BinaryOp l op r).
Proof.
  intros Hop Hl Hr s Hs Hvars.
  destruct (Hl s Hs Hvars) as (s1 & c1 & v1 & V1 & P1 & G1 & C1). pose proof (extends_cur (proj2 V1) Hs) as Hs1.
  destruct (Hr s1 Hs1) as (s2 & c2 & v2 & V2 & P2 & G2 & C2).
  { rewrite (plain_vars _ _ _ P1). eapply vars_ok_weaken; [|done]. apply V1. }
  pose proof (extends_cur (proj2 V2) Hs1) as Hs2. pose proof (em_temp _ _ _ (proj2 V1)). pose proof (em_temp _ _ _ (proj2 V2)).
  destruct (good_operation op (value_type v1) Hop (good_type _ _ G1)) as (o & ty & Ho & Hty).
  destruct (operation_opcode _ _ _ _ Ho).
  eexists _, (c1 ++ c2 ++ [computing o ty [v1; v2] "" s2]), _. split_and!.
  - cbn [visit]. unfold visit_BinaryOp. eapply visits_bind; [exact V1|]. eapply visits_bind; [exact V2|].
    apply visits_binary; [done| |done]. by eapply good_not_float.
  - eapply plain_trans; [done|]. eapply plain_trans; [done|]. by apply plain_computing.
  - apply good_temp; [|done]. converter. lia.
  - intros ρ st m z m' He Hm Hz. cbn [eval] in Hz.
    destruct (eval call ρ l m) as [[a m1]|] eqn:Ea; [|done]. cbn [mbind option_bind fst snd] in Hz.
    destruct (eval call ρ r m1) as [[b m2]|] eqn:Eb; [|done]. cbn [mbind option_bind fst snd] in Hz.
    destruct (source_op op a b) as [w|] eqn:Ew; [|done]. cbn [mbind option_bind] in Hz.
    destruct (right_side op a m1 m2); [|done]. injection Hz as -> ->.
    destruct (C1 ρ st m a m1 He Hm Ea) as (st1 & L1 & U1 & A1 & O1).
    destruct (C2 ρ st1 m1 b m' ) as (st2 & L2 & U2 & A2 & O2); [|done..|].
    { rewrite (plain_vars _ _ _ P1). by eapply env_ok_upd. }
    exists (mk_state (<[reg (tmp s2) := z]> (env st2)) (memory st2)). split_and!.
    + eapply leads_app; [done|]. eapply leads_app; [done|]. eapply exec_binary; [|done|].
      * rewrite <-O1. by eapply good_operand.
      * by eapply operation_value.
    + eapply upd_trans; [done|]. eapply upd_trans; [by eapply upd_weaken|]. apply upd_insert. lia.
    + done.
    + unfold operand. cbn. by rewrite lookup_insert_eq.
Qed.

Lemma spec_unary scope op e p :
  op = TokenType.MINUS ∨ op = TokenType.BIT_NOT → expr_spec scope e → expr_spec scope (UnaryOp op e p).
Proof.
  intros Hop He s Hs Hvars.
  destruct (He s Hs Hvars) as (s1 & c1 & v1 & V1 & P1 & G1 & C1). pose proof (extends_cur (proj2 V1) Hs) as Hs1.
  pose proof (em_temp _ _ _ (proj2 V1)).
  assert (∃ o ty, unary_op op v1 = compute o ty [v1] ∧ ty ∈ [INT32; INT1] ∧ IROpcode.is_terminator o = false ∧
    o ≠ LABEL ∧ ∀ a z, source_unary op a = Some z → (o, z) ∈ [(NEG, wrap32 (- a)); (NOT_I, Z.lxor a (-1))])
    as (o & ty & Eo & Hty & Ho & Hl & Hv).
  { destruct Hop as [-> | ->]; do 2 eexists; (split; [done|]); (split; [apply G1 || set_solver|]);
      (split; [done|]); (split; [done|]); intros a z [= <-].
    - left.
    - right. apply list_elem_of_singleton. f_equal. rewrite Z.lxor_m1_r. unfold Z.lnot. lia. }
  eexists _, (c1 ++ [computing o ty [v1] "" s1]), _. split_and!.
  - cbn [visit]. unfold visit_UnaryOp. eapply visits_bind; [exact V1|]. cbn beta iota. rewrite Eo. by apply visits_compute.
  - eapply plain_trans; [done|]. by apply plain_computing.
  - apply good_temp; [|done]. converter. lia.
  - intros ρ st m z m' Hr Hm Hz. cbn [eval] in Hz.
    destruct (eval call ρ e m) as [[a m1]|] eqn:Ea; [|done]. cbn [mbind option_bind fst snd] in Hz.
    destruct (source_unary op a) as [w|] eqn:Ew; [|done]. injection Hz as -> ->.
    destruct (C1 ρ st m a m' Hr Hm Ea) as (st1 & L1 & U1 & A1 & O1).
    exists (mk_state (<[reg (tmp s1) := z]> (env st1)) (memory st1)). split_and!.
    + eapply leads_app; [done|]. by eapply exec_unary; [|apply Hv].
    + eapply upd_trans; [done|]. apply upd_insert. lia.
    + done.
    + unfold operand. cbn. by rewrite lookup_insert_eq.
Qed.

(** The arguments of a call. *)
Lemma spec_args scope args :
  Forall (expr_spec scope) args →
  ∀ s, is_Some (cur s) → vars_ok (tmp s) (var_map s) scope →
  ∃ s' code vs, visits (visit_args visit args) s code s' vs ∧ plain s s' code ∧ Forall (good (tmp s')) vs ∧
    ∀ r st m zs m', env_ok r scope (var_map s) (env st) → agree m (memory st) →
      eval_args (eval call r) args m = Some (zs, m') →
      ∃ st', leads code st Fall st' ∧ upd (tmp s) (env st) (env st') ∧ agree m' (memory st') ∧
             operand_values (env st') vs = Some zs.
Proof.
  induction 1 as [|e args He _ IH]; intros s Hs Hvars.
  { exists s, [], []. split_and!; [apply visits_ret|by split|constructor|].
    intros r st m zs m' _ Hm [= <- <-]. exists st. split_and!; [apply leads_nil|done..]. }
  destruct (He s Hs Hvars) as (s1 & c1 & v1 & V1 & P1 & G1 & C1). pose proof (extends_cur (proj2 V1) Hs) as Hs1.
  pose proof (em_temp _ _ _ (proj2 V1)).
  destruct (IH s1 Hs1) as (s2 & c2 & vs & V2 & P2 & G2 & C2).
  { rewrite (plain_vars _ _ _ P1). by eapply vars_ok_weaken. }
  pose proof (em_temp _ _ _ (proj2 V2)).
  exists s2, (c1 ++ c2), (v1 :: vs). split_and!.
  - cbn [visit_args]. eapply visits_bind; [exact V1|].
    eapply visits_code; [eapply visits_bind; [exact V2|apply visits_ret]|by rewrite app_nil_r].
  - by eapply plain_trans.
  - constructor; [by eapply good_later|done].
  - intros r st m zs m' Hr Hm Hz. cbn [eval_args] in Hz.
    destruct (eval call r e m) as [[a m1]|] eqn:Ea; [|done]. cbn [mbind option_bind fst snd] in Hz.
    destruct (eval_args (eval call r) args m1) as [[zs' m2]|] eqn:Eb; [|done]. injection Hz as <- <-.
    destruct (C1 r st m a m1 Hr Hm Ea) as (st1 & L1 & U1 & A1 & O1).
    destruct (C2 r st1 m1 zs' m2) as (st2 & L2 & U2 & A2 & O2); [|done..|].
    { rewrite (plain_vars _ _ _ P1). by eapply env_ok_upd. }
    exists st2. split_and!; [by eapply leads_app| |done|].
    + eapply upd_trans; [done|]. by eapply upd_weaken.
    + unfold operand_values in *. cbn. rewrite (good_operand _ _ _ _ G1 U2), O1. cbn. by rewrite O2.
Qed.

Lemma spec_call scope f args : Forall (expr_spec scope) args → expr_spec scope (Call (Identifier f) args).
Proof.
  intros Hargs s Hs Hvars.
  destruct (spec_args scope args Hargs s Hs Hvars) as (s1 & c1 & vs & V1 & P1 & G1 & C1).
  pose proof (extends_cur (proj2 V1) Hs) as Hs1. pose proof (em_temp _ _ _ (proj2 V1)).
  pose (i := computing CALL INT32 (mk_value f FUNCTION CNone false :: vs) "" s1).
  exists (put [i] (bump_temp s1)), (c1 ++ [i]), (temp INT32 (tmp s1)). split_and!.
  - cbn [visit]. unfold visit_Call. eapply visits_bind; [exact V1|]. cbn beta iota.
    apply visits_build_bind. eapply (visits_bind _ _ _ []).
    { cbn [IRBuilder.emit_call]. rewrite decide_False by done.
      apply visits_build_bind. eapply (visits_bind _ _ _ []); [apply visits_temp|apply visits_build_ret]. }
    apply visits_build_bind. eapply visits_code; [eapply visits_bind; [by apply visits_emit|apply visits_build_ret]|done].
  - eapply plain_trans; [done|]. by apply plain_computing.
  - apply good_temp; [converter; lia|set_solver].
  - intros r st m z m' Hr Hm Hz. cbn [eval] in Hz.
    destruct (eval_args (eval call r) args m) as [[zs m1]|] eqn:Ea; [|done]. cbn [mbind option_bind fst snd] in Hz.
    destruct (C1 r st m zs m1 Hr Hm Ea) as (st1 & L1 & U1 & A1 & O1).
    destruct (call_frame _ _ _ _ _ _ A1 Hz) as (m2 & Hcall & A2).
    exists (mk_state (<[reg (tmp s1) := z]> (env st1)) m2). split_and!.
    + eapply leads_app; [done|]. apply leads_instr; [done|].
      unfold exec_instr, run_instr. replace (arguments i) with vs by done. rewrite O1.
      cbn. by rewrite Hcall.
    + eapply upd_trans; [done|]. apply upd_insert. lia.
    + done.
    + unfold operand. cbn. by rewrite lookup_insert_eq.
Qed.

(** Every expression of the fragment is compiled to code that computes it. *)
Lemma visit_expr scope : ∀ e, expr_ok scope e = true → expr_spec scope e.
Proof.
  fix IH 1. intros node He. destruct node as [| | | | | | | | |callee args| | | | | | | | | | | | | | | | | | | | | | | | | | | | | | | |]; try discriminate He.
  - by apply spec_integer.
  - apply (spec_constant _ _ (create_constant_bool value) (truth value)); try done.
    split; [by left|set_solver].
  - apply (spec_constant _ _ (mk_value "0" INT32 (CInt 0) true) 0%Z); try done. split; [by left|set_solver].
  - apply spec_identifier. by apply bool_decide_eq_true in He.
  - cbn in He. apply andb_true_iff in He as [[? ?]%andb_true_iff ?]. apply spec_binary; [done|by apply IH..].
  - apply spec_unary; [|apply IH]; cbn in He; destruct op; try discriminate He; auto.
  - destruct callee; try discriminate He. apply spec_call. cbn in He.
    induction args as [|a args IHargs]; [constructor|]. cbn in He. apply andb_true_iff in He as [Ha Hargs].
    constructor; [by apply IH|by apply IHargs].
Qed.
End Calls.
