(* ===== verification/TransformCorrect.v ===== *)
(** The code of statements and functions: what ASTToIRConverter emits for a function of the fragment
    of SourceSemantics computes what the function means. *)

From Stdlib Require Import String.
From stdpp Require Import pretty relations.
From S2P Require Import Prelude PyDict Ir Llvm Optimizer IrBuilder Ast Transform IrMachine SourceSemantics TransformExpr.
Import ASTToIRConverter.

Open Scope string_scope.
Open Scope list_scope.
Open Scope nat_scope.

(** * Labels *)

Definition prefixes : list string := ["else"; "if_end"; "loop_start"; "loop_end"].
Definition label_text (x : string * nat) : string := x.1 +:+ pretty x.2.

(** Labels with numbers of their own, from [lo] to [hi]. *)
Definition numbered (lo hi : nat) (ls : list string) : Prop :=
  ∃ ks, ls = label_text <$> ks ∧ NoDup ks.*2 ∧ Forall (λ x, x.1 ∈ prefixes ∧ lo ≤ x.2 < hi) ks.

Lemma label_text_inj p q j k : p ∈ prefixes → q ∈ prefixes → label_text (p, j) = label_text (q, k) → j = k.
Proof.
  unfold prefixes, label_text. cbn [fst snd]. intros Hp Hq.
  repeat (apply elem_of_cons in Hp as [->|Hp]; [|try by apply not_elem_of_nil in Hp]);
    repeat (apply elem_of_cons in Hq as [->|Hq]; [|try by apply not_elem_of_nil in Hq]);
    intros H; first [discriminate H|apply (inj pretty); cbn in H; by simplify_eq].
Qed.

Lemma numbered_NoDup lo hi ls : numbered lo hi ls → NoDup ls.
Proof.
  intros (ks & -> & Hd & Hk). induction ks as [|[p k] ks IH]; cbn; [constructor|].
  cbn in Hd. apply NoDup_cons in Hd as [Hn Hd]. apply Forall_cons in Hk as [[Hp _] Hk]. constructor; [|by apply IH].
  intros ([q j] & E & Hin)%list_elem_of_fmap. apply Hn. rewrite Forall_forall in Hk. destruct (Hk _ Hin) as [Hq _].
  apply (label_text_inj p q k j) in E as ->; [|done..]. apply list_elem_of_fmap. by exists (q, j).
Qed.

Lemma numbered_nil n m : numbered n m [].
Proof. exists []. split_and!; [done|constructor..]. Qed.

Lemma numbered_cons p lo hi ls :
  p ∈ prefixes → lo < hi → numbered (S lo) hi ls → numbered lo hi ((p +:+ pretty lo) :: ls).
Proof.
  intros Hp Hlo (ks & -> & Hd & Hk). exists ((p, lo) :: ks). split_and!; [done| |].
  - cbn. constructor; [|done]. intros ([q j] & E & Hin)%list_elem_of_fmap. cbn in E. subst.
    rewrite Forall_forall in Hk. apply Hk in Hin as [_ ?]. cbn in *. lia.
  - constructor; [cbn; split; [done|lia]|]. eapply Forall_impl; [done|]. intros x []. split; [done|lia].
Qed.

Lemma numbered_app a b c l1 l2 : a ≤ b → b ≤ c → numbered a b l1 → numbered b c l2 → numbered a c (l1 ++ l2).
Proof.
  intros Hab Hbc (k1 & -> & D1 & F1) (k2 & -> & D2 & F2). exists (k1 ++ k2). split_and!.
  - by rewrite fmap_app.
  - rewrite fmap_app. apply NoDup_app. split_and!; [done| |done].
    intros x ([p i] & -> & H1)%list_elem_of_fmap ([q j] & E & H2)%list_elem_of_fmap. cbn in E. subst.
    rewrite Forall_forall in F1, F2. apply F1 in H1 as [_ ?]. apply F2 in H2 as [_ ?]. cbn in *. lia.
  - apply Forall_app. split; eapply Forall_impl; try done; intros x []; split; try done; lia.
Qed.

Lemma numbered_perm a b l1 l2 : l1 ≡ₚ l2 → numbered a b l1 → numbered a b l2.
Proof.
  intros Hp (ks & -> & Hd & Hk). symmetry in Hp.
  apply Permutation_map_inv in Hp as (ks' & -> & Hp). exists ks'. split_and!; [done| |].
  - by rewrite <-Hp.
  - by rewrite <-Hp.
Qed.

Lemma plain_labels s s' code : plain s s' code → labels code = [].
Proof.
  intros [_ _ H]. induction H as [|i code [Hi _] _ IH]; [done|]. unfold labels. cbn. by rewrite Hi.
Qed.

(** Code that does not end with a terminator. *)
Definition falls (code : list IRInstruction) : Prop :=
  ∀ i, last code = Some i → IROpcode.is_terminator (opcode i) = false.

Lemma falls_nil : falls [].
Proof. done. Qed.
Lemma falls_snoc k i : IROpcode.is_terminator (opcode i) = false → falls (k ++ [i]).
Proof. intros H j. rewrite last_snoc. by intros [= <-]. Qed.
Lemma falls_app k1 k2 : falls k1 → falls k2 → falls (k1 ++ k2).
Proof. intros H1 H2 i. rewrite last_app. destruct (last k2) eqn:E; [intros [= <-]; by apply H2|apply H1]. Qed.
Lemma plain_falls s s' code : plain s s' code → falls code.
Proof.
  intros [_ _ H] i Hi. rewrite Forall_forall in H. apply (H i). by apply last_Some_elem_of.
Qed.

(** The statements that hold others. *)
Definition compound (n : ASTNode) : bool :=
  match n with Block _ | IfStmt _ _ _ | WhileStmt _ _ => true | _ => false end.

Lemma stmt_ind (P : ASTNode → Prop) :
  (∀ l, Forall P l → P (Block l)) →
  (∀ c a b, P a → (∀ b', b = Some b' → P b') → P (IfStmt c a b)) →
  (∀ c body, P body → P (WhileStmt c body)) →
  (∀ n, compound n = false → P n) → ∀ n, P n.
Proof.
  intros HB HI HW HL. fix IH 1. intros node.
  destruct (compound node) eqn:E; [|by apply HL]. destruct node; try discriminate E.
  - apply HB. induction statements as [|s l IHl]; [constructor|]. constructor; [apply IH|by apply IHl].
  - apply HI; [apply IH|]. intros b' Hb. destruct else_body as [b|]; [|discriminate Hb].
    injection Hb as <-. apply IH.
  - apply HW. apply IH.
Qed.

Lemma list_grows check l scope scope' :
  Forall (λ s, ∀ sc sc', check sc s = Some sc' → sc ⊆ sc') l →
  check_list check scope l = Some scope' → scope ⊆ scope'.
Proof.
  intros H. revert scope. induction H as [|s l Hs _ IH]; intros scope; cbn; [by intros [= ->]|].
  destruct (check scope s) as [sc|] eqn:E; [|done]. cbn. intros Hl. etransitivity; [by eapply Hs|by apply IH].
Qed.

Lemma stmt_ok_grows loop s scope scope' : stmt_ok loop scope s = Some scope' → scope ⊆ scope'.
Proof.
  destruct s; cbn; intros H; repeat case_match; simplify_eq/=; try done;
    repeat match goal with
    | H : _ ≫= _ = Some _ |- _ => apply bind_Some in H as (? & ? & ?)
    | H : _ |- _ => progress simplify_eq/=
    end; try set_solver.
Qed.

Section Statements.
Context `{FL : Floats}.
Variable slot : string → Z.
Variable call : string → list Z → gmap Z Z → option (Z * gmap Z Z).
Variable taken : Z → bool.
Hypothesis call_frame : ∀ f vs m1 m2 v m1', agree slot m1 m2 → call f vs m1 = Some (v, m1') →
  ∃ m2', call f vs m2 = Some (v, m2') ∧ agree slot m1' m2'.

(** A condition holds when the code does not jump. *)
Definition holds (c : Z) : bool := negb (taken c).

Abbreviation leads := (IrMachine.leads slot call taken).
Abbreviation agree := (TransformExpr.agree slot).
Abbreviation expr_spec := (TransformExpr.expr_spec slot call taken).

Definition memory_of (e : ending) : gmap Z Z :=
  match e with Next _ m | Broken m | Continued m | Returns _ m => m end.

(** The code that a statement emitted between [s] and [s'] leaves as the statement ends. *)
Definition lands (s s' : t) (scope' : list string) (st : state) (e : ending) (x : exit) (st' : state) : Prop :=
  agree (memory_of e) (memory st') ∧
  match e with
  | Next r' _ => x = Fall ∧ upd (tmp s) (env st) (env st') ∧ env_ok r' scope' (var_map s') (env st')
  | Broken _ => upd (tmp s) (env st) (env st') ∧ ∃ l, last (loop_break_labels s) = Some l ∧ x = Jump l
  | Continued _ => upd (tmp s) (env st) (env st') ∧ ∃ l, last (loop_continue_labels s) = Some l ∧ x = Jump l
  | Returns v _ => x = Ret v
  end.

Definition is_next (e : ending) : bool := match e with Next _ _ => true | _ => false end.

(** What is known of emitted code without running it. *)
Record compiled (scope scope' : list string) (s s' : t) (code : list IRInstruction) : Prop := {
  c_labels : numbered (lab s) (lab s') (labels code);
  c_keep : ∀ x, x ∈ scope → var_map s' !! x = var_map s !! x;
  c_vars : vars_ok (tmp s') (var_map s') scope';
}.

Definition loop_ok (loop : bool) (s : t) : Prop :=
  loop = true → is_Some (last (loop_break_labels s)) ∧ is_Some (last (loop_continue_labels s)).

(** The code that something emitted between two states runs as [sem] says. *)
Definition runs (scope scope' : list string) (s s' : t) (code : list IRInstruction)
    (sem : nat → vars → gmap Z Z → option ending) : Prop :=
  ∀ fuel r st mem e, env_ok r scope (var_map s) (env st) → agree mem (memory st) → sem fuel r mem = Some e →
  ∃ x st', leads code st x st' ∧ lands s s' scope' st e x st' ∧ (is_next e = true → falls code).

(** Something emits code that runs as [sem] says. *)
Definition emits {A} (loop : bool) (scope scope' : list string) (m : method t A)
    (sem : nat → vars → gmap Z Z → option ending) : Prop :=
  ∀ s, is_Some (cur s) → vars_ok (tmp s) (var_map s) scope → loop_ok loop s →
  ∃ s' code a, visits m s code s' a ∧ compiled scope scope' s s' code ∧ runs scope scope' s s' code sem.

Definition stmt_spec (loop : bool) (scope scope' : list string) (n : ASTNode) : Prop :=
  emits loop scope scope' (visit n) (λ fuel, run call holds fuel n).

(** ** Composing *)

Lemma vars_ok_subset n vm sc sc' : sc ⊆ sc' → vars_ok n vm sc' → vars_ok n vm sc.
Proof. intros Hs H x Hx. by apply H, Hs. Qed.

Lemma vars_ok_keep n vm vm' sc : (∀ x, x ∈ sc → vm' !! x = vm !! x) → vars_ok n vm sc → vars_ok n vm' sc.
Proof. intros Hk H x Hx. rewrite Hk by done. by apply H. Qed.

Lemma env_ok_keep r vm vm' sc e : (∀ x, x ∈ sc → vm' !! x = vm !! x) → env_ok r sc vm e → env_ok r sc vm' e.
Proof. intros Hk H x z Hx. destruct (H x z Hx) as (? & v & ? & ?). split; [done|]. exists v. by rewrite Hk. Qed.

Lemma loop_ok_extends loop s c s' : extends s c s' → loop_ok loop s → loop_ok loop s'.
Proof. intros H Hl Hlp. rewrite (em_break _ _ _ H), (em_continue _ _ _ H). by apply Hl. Qed.

(** The rest of a statement lands where the statement does. *)
Lemma lands_after s c s1 s2 scope' st st1 e x st' :
  extends s c s1 → upd (tmp s) (env st) (env st1) → lands s1 s2 scope' st1 e x st' → lands s s2 scope' st e x st'.
Proof.
  intros H Hu [Ha He]. split; [done|]. pose proof (em_temp _ _ _ H).
  rewrite <-(em_break _ _ _ H), <-(em_continue _ _ _ H).
  destruct e; [destruct He as (-> & ? & ?)|destruct He..|done]; split_and!; try done;
    (eapply upd_trans; [done|]; by eapply upd_weaken).
Qed.

(** The scope of a block ends. *)
Lemma lands_scoped s s' scope scope' r st e x st' :
  env_ok r scope (var_map s) (env st) → vars_ok (tmp s) (var_map s) scope →
  (∀ y, y ∈ scope → var_map s' !! y = var_map s !! y) →
  lands s s' scope' st e x st' → lands s s' scope st (scoped r e) x st'.
Proof.
  intros Hr Hv Hk [Ha He]. destruct e; try done. destruct He as (-> & Hu & _). split; [done|]. split_and!; try done.
  eapply env_ok_keep; [done|]. by eapply env_ok_upd.
Qed.

(** Only the variables matter, and the registers that came before. *)
Lemma lands_vars s s' s'' scope' st e x st' :
  var_map s'' = var_map s' → lands s s' scope' st e x st' → lands s s'' scope' st e x st'.
Proof. intros Hv [Ha He]. split; [done|]. destruct e; try done. by rewrite Hv. Qed.

(** What is emitted for an expression is emitted for a statement. *)
Lemma plain_compiled scope s s' code :
  vars_ok (tmp s) (var_map s) scope → tmp s ≤ tmp s' → plain s s' code → compiled scope scope s s' code.
Proof.
  intros Hv Ht Hp. split.
  - rewrite (plain_labels _ _ _ Hp). apply numbered_nil.
  - intros x _. by rewrite (plain_vars _ _ _ Hp).
  - rewrite (plain_vars _ _ _ Hp). by eapply vars_ok_weaken.
Qed.

Lemma compiled_trans sc sc1 sc2 s s1 s2 c1 c2 :
  extends s c1 s1 → extends s1 c2 s2 → sc ⊆ sc1 →
  compiled sc sc1 s s1 c1 → compiled sc1 sc2 s1 s2 c2 → compiled sc sc2 s s2 (c1 ++ c2).
Proof.
  intros E1 E2 Hs [L1 K1 V1] [L2 K2 V2]. split; [|intros x Hx; rewrite K2, K1; auto|done].
  rewrite labels_app. eapply numbered_app; [apply E1|apply E2|done..].
Qed.

Lemma compiled_snoc scope scope' s s' code i :
  label_of i = None → compiled scope scope' s s' code → compiled scope scope' s (put [i] s') (code ++ [i]).
Proof.
  intros Hi [L K V]. split; converter; try done. rewrite labels_app. unfold labels at 2. cbn. rewrite Hi.
  by rewrite app_nil_r.
Qed.

Lemma expr_of scope e : expr_ok scope e = true → expr_spec scope e.
Proof. by apply visit_expr. Qed.

Lemma visits_nothing s : visits nothing s [] s None.
Proof. apply visits_ret. Qed.

Lemma visits_then_nothing {A} (m : method t A) s c s' a : visits m s c s' a → visits (let! _ := m in nothing) s c s' None.
Proof. intros H. eapply visits_code; [eapply visits_bind; [exact H|apply visits_nothing]|apply app_nil_r]. Qed.

Lemma leads_return_value v z c st :
  operand (env st) v = Some z → leads [mk_instr RETURN None [v] None c] st (Ret (Some z)) st.
Proof.
  intros Ho. destruct st as [e m]. apply (leads_return slot call taken _ (mk_state e m)); [done|].
  unfold exec_instr, run_instr. rewrite arguments_of by done. cbn [operands]. by rewrite (operand_values_1 _ _ z).
Qed.

Lemma leads_return_none c st : leads [mk_instr RETURN None [] None c] st (Ret None) st.
Proof. destruct st as [e m]. by apply (leads_return slot call taken _ (mk_state e m)). Qed.

Lemma spec_expression loop scope e : expr_ok scope e = true → stmt_spec loop scope scope (ExpressionStmt e).
Proof.
  intros He s Hs Hv _. destruct (expr_of scope e He s Hs Hv) as (s' & code & v & V & P & G & C).
  exists s', code, None. split_and!.
  - by eapply visits_then_nothing.
  - apply plain_compiled; [done| |done]. apply V.
  - intros fuel r st m en Hr Hm Hrun. cbn [run] in Hrun.
    destruct (eval call r e m) as [[z m']|] eqn:E; [|done]. injection Hrun as <-.
    destruct (C r st m z m' Hr Hm E) as (st' & L & U & A & O). exists Fall, st'.
    split_and!; [done| |intros; by eapply plain_falls].
    split; [done|]. split_and!; try done. rewrite (plain_vars _ _ _ P). by eapply env_ok_upd.
Qed.

Lemma spec_return_value loop scope e : expr_ok scope e = true → stmt_spec loop scope scope (ReturnStmt (Some e)).
Proof.
  intros He s Hs Hv _. destruct (expr_of scope e He s Hs Hv) as (s' & code & v & V & P & G & C).
  pose proof (extends_cur (proj2 V) Hs) as Hs'. pose (i := mk_instr RETURN None [v] None "return").
  exists (put [i] s'), (code ++ [i]), None. split_and!.
  - cbn [visit]. unfold visit_ReturnStmt. eapply visits_bind; [exact V|].
    apply (visits_then_nothing _ _ _ _ i), (visits_emit RETURN None [v] None "return"). exact Hs'.
  - apply compiled_snoc; [done|]. apply plain_compiled; [done|apply V|done].
  - intros fuel r st m en Hr Hm Hrun. cbn [run] in Hrun.
    destruct (eval call r e m) as [[z m']|] eqn:E; [|done]. injection Hrun as <-.
    destruct (C r st m z m' Hr Hm E) as (st' & L & U & A & O). exists (Ret (Some z)), st'.
    split_and!; [|done|done]. eapply leads_app; [done|]. by apply leads_return_value.
Qed.

Lemma spec_return loop scope : stmt_spec loop scope scope (ReturnStmt None).
Proof.
  intros s Hs Hv _. pose (i := mk_instr RETURN None [] None "return").
  exists (put [i] s), [i], None. split_and!.
  - apply (visits_then_nothing _ _ _ _ i), (visits_emit RETURN None [] None "return"). exact Hs.
  - split; [apply numbered_nil|by converter|by converter].
  - intros fuel r st m en Hr Hm Hrun. exists (Ret None), st. injection Hrun as <-.
    split_and!; [|done|done]. apply leads_return_none.
Qed.

Lemma spec_jump_out loop scope (brk : bool) :
  loop = true → stmt_spec loop scope scope (if brk then BreakStmt else ContinueStmt).
Proof.
  intros -> s Hs Hv Hl. destruct (Hl eq_refl) as [[lb Hb] [lc Hc]].
  pose (l := if brk then lb else lc). pose (i := mk_instr GOTO None [] (Some l) (if brk then "break" else "continue")).
  exists (put [i] s), [i], None. split_and!.
  - assert (visits (let! _ := build_ (IRBuilder.emit GOTO None [] (Some l) (if brk then "break" else "continue")) in nothing)
      s [i] (put [i] s) None) as H by (by eapply visits_then_nothing, visits_emit_).
    destruct brk; cbn [visit]; unfold visit_BreakStmt, visit_ContinueStmt, visits, m_bind, m_get in *;
      by rewrite ?Hb, ?Hc.
  - split; [apply numbered_nil|by converter|by converter].
  - intros fuel r st m en Hr Hm Hrun. exists (Jump l), st. split_and!; [by apply leads_goto| |].
    + destruct brk; injection Hrun as <-; split; try done; (split; [done|]); by eexists.
    + destruct brk; by injection Hrun as <-.
Qed.

(** ** Declarations *)

Definition alloca_code (c : string) (s : t) : IRInstruction := computing ALLOCA POINTER [] c s.
Definition store_code (k : nat) (v : IRValue) (c : string) : IRInstruction :=
  mk_instr STORE None [temp POINTER k; v] None c.

Lemma leads_alloca c s st :
  leads [alloca_code c s] st Fall (mk_state (<[reg (tmp s) := slot (reg (tmp s))]> (env st)) (memory st)).
Proof. by apply leads_instr. Qed.

Lemma leads_store k v c z a st :
  env st !! reg k = Some a → operand (env st) v = Some z →
  leads [store_code k v c] st Fall (mk_state (env st) (<[a := z]> (memory st))).
Proof.
  intros Ha Hz. apply leads_instr; [done|]. unfold exec_instr, run_instr. rewrite arguments_of by done.
  cbn [store_code operands]. by rewrite (operand_values_2 _ _ _ a z).
Qed.

Lemma visits_set_var n v s : visits (set_var n v) s [] (with_vars (<[n := v]> (var_map s)) s) ().
Proof. by apply visits_quiet. Qed.

Lemma spec_declaration loop scope n ty e mut ex :
  expr_ok scope e = true → n ∉ scope → stmt_spec loop scope (n :: scope) (VariableDecl n ty (Some e) mut ex).
Proof.
  intros He Hn s Hs Hv _.
  pose (ia := alloca_code ("alloc " +:+ n) s). pose (s1 := put [ia] (bump_temp s)).
  assert (is_Some (cur s1)) as Hs1 by (unfold s1; by converter).
  assert (tmp s1 = S (tmp s)) as Ht1 by (unfold s1; by converter).
  assert (var_map s1 = var_map s) as Hvm1 by (unfold s1; by converter).
  destruct (expr_of scope e He s1 Hs1) as (s2 & code & v & V & P & G & C).
  { rewrite Hvm1. eapply vars_ok_weaken; [|done]. lia. }
  pose proof (extends_cur (proj2 V) Hs1) as Hs2. pose proof (em_temp _ _ _ (proj2 V)) as Ht2.
  pose (i := store_code (tmp s) v ("init " +:+ n)). pose (s3 := with_vars (<[n := v]> (var_map (put [i] s2))) (put [i] s2)).
  exists s3, ([ia] ++ code ++ [i]), None. split_and!.
  - cbn [visit]. unfold visit_VariableDecl. eapply visits_bind; [by apply visits_emit_to|].
    eapply visits_bind; [exact V|]. cbn beta iota.
    apply (visits_bind _ _ _ [i] (put [i] s2) i []); [by apply (visits_emit STORE None [temp POINTER (tmp s); v])|].
    apply (visits_then_nothing _ _ _ _ ()), visits_set_var.
  - assert (compiled scope scope s s2 ([ia] ++ code)) as [L K V'].
    { apply plain_compiled; [done|lia|]. eapply plain_trans; [by apply plain_computing|done]. }
    destruct (compiled_snoc scope scope s s2 ([ia] ++ code) i) as [L3 K3 V3]; [done..|].
    split; unfold s3; cbn [with_vars builder var_map].
    + by rewrite app_assoc.
    + intros x Hx. rewrite lookup_insert_ne by (intros ->; done). by apply K3.
    + intros x [->|Hx]%elem_of_cons.
      * exists v. rewrite lookup_insert_eq. split; [done|]. by rewrite put_tmp.
      * rewrite lookup_insert_ne by (intros ->; done). by apply V3.
  - intros fuel r st m en Hr Hm Hrun. cbn [run] in Hrun.
    destruct (eval call r e m) as [[z m']|] eqn:E; [|done]. injection Hrun as <-.
    pose (st1 := mk_state (<[reg (tmp s) := slot (reg (tmp s))]> (env st)) (memory st)).
    assert (upd (tmp s) (env st) (env st1)) as U1 by by apply upd_insert.
    destruct (C r st1 m z m') as (st2 & L2 & U2 & A2 & O2); [|done..|].
    { rewrite Hvm1. by eapply env_ok_upd. }
    assert (upd (tmp s) (env st) (env st2)) as U by (eapply upd_trans; [done|]; eapply upd_weaken; [|done]; lia).
    exists Fall, (mk_state (env st2) (<[slot (reg (tmp s)) := z]> (memory st2))). split_and!.
    + eapply leads_app; [apply leads_alloca|]. eapply leads_app; [done|]. apply leads_store; [|done].
      rewrite U2; [by apply lookup_insert_eq|]. intros k Hk E'%reg_inj. lia.
    + split; [by apply agree_store|]. split_and!; [done..|]. unfold s3. cbn [with_vars var_map]. rewrite put_vars.
      intros x w [[<- <-]|[Hne Hx]]%lookup_insert_Some.
      * split; [left|]. exists v. by rewrite lookup_insert_eq.
      * rewrite lookup_insert_ne, (plain_vars _ _ _ P), Hvm1 by done.
        destruct (env_ok_upd _ _ _ _ _ _ Hv Hr U x w Hx) as (? & u & ? & ?). split; [by right|]. by exists u.
    + intros _. rewrite app_assoc. by apply falls_snoc.
Qed.

(** ** Sequences and blocks *)

Lemma spec_list loop l : ∀ scope scope',
  Forall (λ n, ∀ sc sc', stmt_ok loop sc n = Some sc' → stmt_spec loop sc sc' n) l →
  check_list (stmt_ok loop) scope l = Some scope' →
  emits loop scope scope' (for_each (visit_ visit) l) (λ fuel, run_list (run call holds fuel) l).
Proof.
  induction l as [|n l IH]; intros scope scope' HF Hok s Hs Hv Hl.
  { injection Hok as <-. exists s, [], (). split_and!; [apply visits_ret|split; try done; apply numbered_nil|].
    intros fuel r st m e Hr Hm [= <-]. exists Fall, st. split_and!; [apply leads_nil|done|done]. }
  cbn in Hok. destruct (stmt_ok loop scope n) as [sc|] eqn:En; [|done]. cbn in Hok.
  apply Forall_cons in HF as [Hn HF].
  destruct (Hn scope sc En s Hs Hv Hl) as (s1 & c1 & a & V1 & P1 & D1).
  pose proof (extends_cur (proj2 V1) Hs) as Hs1.
  destruct (IH sc scope' HF Hok s1 Hs1 (c_vars _ _ _ _ _ P1)) as (s2 & c2 & u & V2 & P2 & D2).
  { eapply loop_ok_extends; [apply V1|done]. }
  exists s2, (c1 ++ c2), u. split_and!.
  - cbn [for_each]. eapply visits_bind; [eapply visits_drop; exact V1|exact V2].
  - eapply compiled_trans; [apply V1|apply V2| |done|done]. by eapply stmt_ok_grows.
  - intros fuel r st m e Hr Hm Hrun. cbn [run_list] in Hrun.
    destruct (run call holds fuel n r m) as [e1|] eqn:E1; [|done]. cbn [mbind option_bind] in Hrun.
    destruct (D1 fuel r st m e1 Hr Hm E1) as (x1 & st1 & L1 & W1 & F1).
    destruct (is_next e1) eqn:Ex.
    + destruct e1 as [r1 m1| | |]; try done. destruct W1 as (A1 & -> & U1 & R1).
      destruct (D2 fuel r1 st1 m1 e R1 A1 Hrun) as (x & st2 & L2 & W2 & F2). exists x, st2. split_and!.
      * by eapply leads_app.
      * eapply lands_after; [apply V1|done|done].
      * intros Hx. apply falls_app; auto.
    + assert (e = e1) as -> by (destruct e1; by simplify_eq). exists x1, st1. split_and!; [|by destruct e1|by rewrite Ex].
      apply leads_left; [|done]. destruct W1 as [_ W1].
      destruct e1; try done; [destruct W1 as (_ & ? & _ & ->)..|subst]; done.
Qed.

Lemma spec_block loop scope scope' l :
  Forall (λ n, ∀ sc sc', stmt_ok loop sc n = Some sc' → stmt_spec loop sc sc' n) l →
  check_list (stmt_ok loop) scope l = Some scope' → stmt_spec loop scope scope (Block l).
Proof.
  intros HF Hok s Hs Hv Hl. destruct (spec_list loop l scope scope' HF Hok s Hs Hv Hl) as (s' & c & u & V & P & D).
  exists s', c, None. split_and!.
  - by eapply visits_then_nothing.
  - destruct P as [L K V']. split; [done..|]. eapply vars_ok_keep; [done|]. eapply vars_ok_weaken; [|done]. apply V.
  - intros fuel r st m e Hr Hm Hrun. cbn [run] in Hrun.
    destruct (run_list (run call holds fuel) l r m) as [e1|] eqn:E; [|done]. injection Hrun as <-.
    destruct (D fuel r st m e1 Hr Hm E) as (x & st' & L & W & F). exists x, st'. split_and!; [done| |by destruct e1].
    eapply lands_scoped; [done..| |done]. apply P.
Qed.

(** ** Branches *)

Definition goto_code (l c : string) : IRInstruction := mk_instr GOTO None [] (Some l) c.
Definition label_code (l : string) : IRInstruction := mk_instr LABEL None [] (Some l) "".
Definition if_code (v : IRValue) (l c : string) : IRInstruction := mk_instr IF_GOTO None [v] (Some l) c.

(** A body of its own scope. *)
Lemma spec_scoped loop scope scope' n :
  stmt_spec loop scope scope' n →
  emits loop scope scope (visit_ visit n) (λ fuel r m, e ← run call holds fuel n r m; Some (scoped r e)).
Proof.
  intros Hn s Hs Hv Hl. destruct (Hn s Hs Hv Hl) as (s' & c & u & V & P & D). exists s', c, (). split_and!.
  - by eapply visits_drop.
  - destruct P as [L K V']. split; [done..|]. eapply vars_ok_keep; [done|]. eapply vars_ok_weaken; [|done]. apply V.
  - intros fuel r st m e Hr Hm Hrun. destruct (run call holds fuel n r m) as [e1|] eqn:E; [|done]. injection Hrun as <-.
    destruct (D fuel r st m e1 Hr Hm E) as (x & st' & L & W & F). exists x, st'. split_and!; [done| |by destruct e1].
    eapply lands_scoped; [done..| |done]. apply P.
Qed.

Definition else_sem (b : option ASTNode) (fuel : nat) (r : vars) (m : gmap Z Z) : option ending :=
  match b with Some b => e ← run call holds fuel b r m; Some (scoped r e) | None => Some (Next r m) end.

Lemma spec_else loop scope b :
  (∀ n, b = Some n → ∃ scope', stmt_spec loop scope scope' n) →
  emits loop scope scope (visit_opt visit b) (else_sem b).
Proof.
  destruct b as [n|]; intros H.
  - destruct (H n eq_refl) as [scope' Hn]. by eapply spec_scoped.
  - intros s Hs Hv _. exists s, [], (). split_and!; [apply visits_ret|split; try done; apply numbered_nil|].
    intros fuel r st m e Hr Hm [= <-]. exists Fall, st. split_and!; [apply leads_nil|done|done].
Qed.

(** Code that ends, or else goes to the label behind. *)
Lemma leads_over k mid l c st x st' :
  leads k st x st' → leads (k ++ goto_code l c :: mid ++ [label_code l]) st x st'.
Proof.
  intros H. assert (x = Fall ∨ x ≠ Fall) as [->|Hx] by (destruct x; auto); [|by apply leads_left].
  eapply leads_app; [exact H|]. apply (leads_forward slot call taken (goto_code l c :: mid) _ [] l _ st'); [done| |].
  - apply (leads_left slot call taken [_]); [done|]. by apply leads_goto.
  - by apply leads_label.
Qed.

Lemma holds_exit c : holds c = true ↔ taken c = false.
Proof. unfold holds. by destruct (taken c). Qed.

(** The code of an [if], after its condition. *)
Definition if_body (v : IRValue) (le ld : string) (ca cb : list IRInstruction) : list IRInstruction :=
  if_code v le "if condition false -> else" :: ca ++
  goto_code ld "jump to if_end" :: (label_code le :: cb ++ [goto_code ld "jump to if_end"]) ++ [label_code ld].

Lemma if_body_runs v le ld ca cb c st x st' :
  operand (env st) v = Some c → (if holds c then leads ca st x st' else leads cb st x st') →
  leads (if_body v le ld ca cb) st x st'.
Proof.
  intros Hc H.
  pose proof (leads_if slot call taken (if_code v le "if condition false -> else") le v c st eq_refl eq_refl eq_refl Hc) as Hif.
  unfold holds in H. destruct (taken c); cbn [negb] in H.
  - replace (if_body v le ld ca cb) with
      ((if_code v le "if condition false -> else" :: ca ++ [goto_code ld "jump to if_end"]) ++
       label_code le :: cb ++ goto_code ld "jump to if_end" :: [] ++ [label_code ld])
      by (unfold if_body; cbn [app]; by rewrite <-!app_assoc).
    eapply leads_forward; [done| |].
    + apply (leads_left slot call taken [_]); [done|exact Hif].
    + eapply leads_cons; [by apply leads_label|]. by apply leads_over.
  - eapply leads_cons; [exact Hif|]. by apply leads_over.
Qed.

Lemma falls_if_body v le ld ca cb : falls (if_body v le ld ca cb).
Proof.
  replace (if_body v le ld ca cb) with
    ((if_code v le "if condition false -> else" :: ca ++ goto_code ld "jump to if_end" ::
      label_code le :: cb ++ [goto_code ld "jump to if_end"]) ++ [label_code ld]); [by apply falls_snoc|].
  unfold if_body. cbn [app]. rewrite <-!app_assoc. cbn [app]. by rewrite <-!app_assoc.
Qed.

Lemma visits_goto l c s : is_Some (cur s) → visits (build (IRBuilder.emit_goto l c)) s [goto_code l c] (put [goto_code l c] s) (goto_code l c).
Proof. apply (visits_emit GOTO None []). Qed.
Lemma visits_put_label l s : is_Some (cur s) → visits (build (IRBuilder.emit_label l "")) s [label_code l] (put [label_code l] s) (label_code l).
Proof. apply (visits_emit LABEL None []). Qed.
Lemma visits_if v l c s : is_Some (cur s) → visits (build (IRBuilder.emit_if_goto v l c)) s [if_code v l c] (put [if_code v l c] s) (if_code v l c).
Proof. apply (visits_emit IF_GOTO None [v]). Qed.

Lemma loop_ok_put loop code s : loop_ok loop s → loop_ok loop (put code s).
Proof. unfold loop_ok. by rewrite put_break, put_continue. Qed.

Lemma labels_goto l c k : labels (goto_code l c :: k) = labels k.
Proof. done. Qed.
Lemma labels_label l k : labels (label_code l :: k) = l :: labels k.
Proof. done. Qed.
Lemma labels_if v l c k : labels (if_code v l c :: k) = labels k.
Proof. done. Qed.

Lemma labels_if_body v le ld ca cb : labels (if_body v le ld ca cb) = labels ca ++ le :: labels cb ++ [ld].
Proof.
  unfold if_body. rewrite labels_if, labels_app, labels_goto, labels_app. cbn [app].
  by rewrite labels_label, labels_app, labels_goto, app_nil_r.
Qed.

(** The states of the converter along an [if] whose condition it has visited in [s1]. *)
Definition else_label (s1 : t) : string := "else" +:+ pretty (lab s1).
Definition end_label (s1 : t) : string := "if_end" +:+ pretty (S (lab s1)).
Definition then_state (v : IRValue) (s1 : t) : t :=
  put [if_code v (else_label s1) "if condition false -> else"] (bump_label (bump_label s1)).
Definition else_state (s1 s3 : t) : t :=
  put [label_code (else_label s1)] (put [goto_code (end_label s1) "jump to if_end"] s3).
Definition joined_state (s1 s5 : t) : t :=
  put [label_code (end_label s1)] (put [goto_code (end_label s1) "jump to if_end"] s5).

Lemma if_visits c a b s cc s1 v ca s3 cb s5 :
  is_Some (cur s) → visits (visit c) s cc s1 (Some v) → visits (visit_ visit a) (then_state v s1) ca s3 () →
  visits (visit_opt visit b) (else_state s1 s3) cb s5 () →
  visits (visit (IfStmt c a b)) s (cc ++ if_body v (else_label s1) (end_label s1) ca cb) (joined_state s1 s5) None.
Proof.
  intros Hs V1 V3 V5. pose proof (extends_cur (proj2 V1) Hs) as Hs1.
  assert (is_Some (cur (then_state v s1))) as Hs2 by (unfold then_state; by converter).
  pose proof (extends_cur (proj2 V3) Hs2) as Hs3.
  assert (is_Some (cur (else_state s1 s3))) as Hs4 by (unfold else_state; by converter).
  pose proof (extends_cur (proj2 V5) Hs4) as Hs5.
  cbn [visit]. unfold visit_IfStmt. eapply visits_bind; [exact V1|]. cbn beta iota.
  eapply (visits_bind _ _ _ []); [apply visits_label|]. eapply (visits_bind _ _ _ []); [apply visits_label|].
  eapply (visits_bind _ _ _ [_]); [by apply visits_if|].
  eapply (visits_bind _ _ _ ca); [exact V3|].
  eapply (visits_bind _ _ _ [_]); [by apply visits_goto|].
  eapply visits_code.
  { eapply (visits_bind _ _ _ [_]); [apply visits_put_label; by converter|].
    eapply (visits_bind _ _ _ cb); [exact V5|].
    eapply (visits_bind _ _ _ [_]); [by apply visits_goto|].
    apply (visits_then_nothing _ _ _ _ (label_code (end_label s1))), visits_put_label. by converter. }
  cbn [app]. by rewrite <-app_assoc.
Qed.

Lemma if_compiled scope s cc s1 v ca s3 cb s5 :
  vars_ok (tmp s) (var_map s) scope → tmp s ≤ tmp s1 → plain s s1 cc →
  extends (then_state v s1) ca s3 → extends (else_state s1 s3) cb s5 →
  compiled scope scope (then_state v s1) s3 ca → compiled scope scope (else_state s1 s3) s5 cb →
  compiled scope scope s (joined_state s1 s5) (cc ++ if_body v (else_label s1) (end_label s1) ca cb).
Proof.
  intros Hv Ht P1 E3 E5 [L3 K3 V3] [L5 K5 V5].
  pose proof (em_label _ _ _ E3) as H3. pose proof (em_label _ _ _ E5) as H5.
  unfold then_state, else_state, joined_state in *. converter. rewrite (plain_lab _ _ _ P1), (plain_vars _ _ _ P1) in *.
  split; converter; [|intros x Hx; rewrite K5, K3; auto|done].
  rewrite labels_app, (plain_labels _ _ _ P1). cbn [app].
  eapply (numbered_perm _ _ (else_label s1 :: end_label s1 :: labels ca ++ labels cb)).
  - rewrite labels_if_body, <-Permutation_middle. apply Permutation_skip.
    by rewrite app_assoc, <-Permutation_cons_append.
  - unfold else_label, end_label. rewrite (plain_lab _ _ _ P1).
    apply numbered_cons; [set_solver|lia|]. apply numbered_cons; [set_solver|lia|].
    eapply numbered_app; [| |exact L3|exact L5]; lia.
Qed.

Lemma then_state_same v s1 :
  cur (then_state v s1) = cur s1 ∧ tmp (then_state v s1) = tmp s1 ∧ var_map (then_state v s1) = var_map s1 ∧
  loop_break_labels (then_state v s1) = loop_break_labels s1 ∧
  loop_continue_labels (then_state v s1) = loop_continue_labels s1.
Proof. unfold then_state. by converter. Qed.
Lemma else_state_same s1 s3 :
  cur (else_state s1 s3) = cur s3 ∧ tmp (else_state s1 s3) = tmp s3 ∧ var_map (else_state s1 s3) = var_map s3 ∧
  loop_break_labels (else_state s1 s3) = loop_break_labels s3 ∧
  loop_continue_labels (else_state s1 s3) = loop_continue_labels s3.
Proof. unfold else_state. by converter. Qed.

(** Where a statement lands is a matter of its registers, loops and variables. *)
Lemma lands_from s0 s s' s'' scope st e x st' :
  tmp s0 ≤ tmp s → loop_break_labels s0 = loop_break_labels s → loop_continue_labels s0 = loop_continue_labels s →
  (∀ y, y ∈ scope → var_map s'' !! y = var_map s' !! y) →
  lands s s' scope st e x st' → lands s0 s'' scope st e x st'.
Proof.
  intros Ht Hb Hc Hk [Ha He]. split; [done|]. rewrite Hb, Hc.
  destruct e; [destruct He as (-> & ? & ?)|destruct He..|done]; split_and!; try done; try (by eapply upd_weaken).
  by eapply env_ok_keep.
Qed.

(** The three parts of an [if], and the states in which they are visited. *)
Lemma if_parts loop scope c a b s :
  expr_ok scope c = true → (∃ scope', stmt_spec loop scope scope' a) →
  (∀ n, b = Some n → ∃ scope', stmt_spec loop scope scope' n) →
  is_Some (cur s) → vars_ok (tmp s) (var_map s) scope → loop_ok loop s →
  ∃ s1 cc v s3 ca s5 cb,
    (visits (visit c) s cc s1 (Some v) ∧ plain s s1 cc ∧ computes slot call taken s scope c cc v) ∧
    (visits (visit_ visit a) (then_state v s1) ca s3 () ∧ compiled scope scope (then_state v s1) s3 ca ∧
     runs scope scope (then_state v s1) s3 ca (λ fuel r m, e ← run call holds fuel a r m; Some (scoped r e))) ∧
    (visits (visit_opt visit b) (else_state s1 s3) cb s5 () ∧ compiled scope scope (else_state s1 s3) s5 cb ∧
     runs scope scope (else_state s1 s3) s5 cb (else_sem b)) ∧
    loop_break_labels s3 = loop_break_labels s ∧ loop_continue_labels s3 = loop_continue_labels s.
Proof.
  intros Hc [sa Ha] Hb Hs Hv Hl.
  destruct (expr_of scope c Hc s Hs Hv) as (s1 & cc & v & V1 & P1 & G1 & C1).
  pose proof (extends_cur (proj2 V1) Hs) as Hs1. pose proof (em_temp _ _ _ (proj2 V1)) as Ht1.
  destruct (then_state_same v s1) as (T1 & T2 & T3 & T4 & T5).
  destruct (spec_scoped loop scope sa a Ha (then_state v s1)) as (s3 & ca & [] & V3 & P3 & D3).
  { by rewrite T1. }
  { rewrite T2, T3, (plain_vars _ _ _ P1). by eapply vars_ok_weaken. }
  { unfold loop_ok. rewrite T4, T5. eapply loop_ok_extends; [apply V1|done]. }
  destruct (else_state_same s1 s3) as (S1 & S2 & S3 & S4 & S5).
  assert (loop_break_labels s3 = loop_break_labels s) as Hb3.
  { rewrite (em_break _ _ _ (proj2 V3)), T4. apply V1. }
  assert (loop_continue_labels s3 = loop_continue_labels s) as Hc3.
  { rewrite (em_continue _ _ _ (proj2 V3)), T5. apply V1. }
  destruct (spec_else loop scope b Hb (else_state s1 s3)) as (s5 & cb & [] & V5 & P5 & D5).
  { rewrite S1. eapply (extends_cur (proj2 V3)). by rewrite T1. }
  { rewrite S2, S3. apply P3. }
  { unfold loop_ok. by rewrite S4, S5, Hb3, Hc3. }
  by exists s1, cc, v, s3, ca, s5, cb.
Qed.

Lemma spec_if loop scope c a b :
  expr_ok scope c = true → (∃ scope', stmt_spec loop scope scope' a) →
  (∀ n, b = Some n → ∃ scope', stmt_spec loop scope scope' n) → stmt_spec loop scope scope (IfStmt c a b).
Proof.
  intros Hc Ha Hb s Hs Hv Hl.
  destruct (if_parts loop scope c a b s Hc Ha Hb Hs Hv Hl) as
    (s1 & cc & v & s3 & ca & s5 & cb & (V1 & P1 & C1) & (V3 & P3 & D3) & (V5 & P5 & D5) & Hb3 & Hc3).
  destruct (then_state_same v s1) as (_ & T2 & T3 & T4 & T5). destruct (else_state_same s1 s3) as (_ & S2 & S3 & S4 & S5).
  pose proof (em_temp _ _ _ (proj2 V1)) as Ht1. pose proof (em_temp _ _ _ (proj2 V3)) as Ht3.
  pose proof (em_break _ _ _ (proj2 V1)). pose proof (em_continue _ _ _ (proj2 V1)).
  pose (code := cc ++ if_body v (else_label s1) (end_label s1) ca cb). exists (joined_state s1 s5), code, None. split_and!.
  - by apply (if_visits c a b s cc s1 v ca s3).
  - apply (if_compiled scope s cc s1 v ca s3); try done; [apply V3|apply V5].
  - intros fuel r st m e Hr Hm Hrun. cbn [run] in Hrun.
    destruct (eval call r c m) as [[z m1]|] eqn:E; [|done]. cbn [mbind option_bind fst snd] in Hrun.
    destruct (C1 r st m z m1 Hr Hm E) as (st1 & L1 & U1 & A1 & O1).
    assert (env_ok r scope (var_map s) (env st1)) as Hr1 by by eapply env_ok_upd.
    assert (∃ x st', (if holds z then leads ca st1 x st' else leads cb st1 x st') ∧
      lands s (joined_state s1 s5) scope st1 e x st') as (x & st' & L & W).
    { assert (var_map (joined_state s1 s5) = var_map s5) as Hj by (unfold joined_state; by converter).
      destruct (holds z).
      - destruct (D3 fuel r st1 m1 e) as (x & st' & L & W & _); [by rewrite T3, (plain_vars _ _ _ P1)|done..|].
        exists x, st'. split; [done|]. eapply lands_from; [| | | |done]; [lia|congruence..|].
        intros y Hy. by rewrite Hj, (c_keep _ _ _ _ _ P5), S3.
      - destruct (D5 fuel r st1 m1 e) as (x & st' & L & W & _); [|done|by destruct b|].
        { eapply env_ok_keep; [|exact Hr1]. intros y Hy.
          by rewrite S3, (c_keep _ _ _ _ _ P3), T3, (plain_vars _ _ _ P1). }
        exists x, st'. split; [done|]. eapply lands_from; [| | | |done]; [lia|congruence..|]. intros y Hy. by rewrite Hj. }
    exists x, st'. split_and!.
    + eapply leads_app; [exact L1|]. by eapply if_body_runs.
    + eapply (lands_after s [] s); [apply (visits_ret () s)|done|done].
    + intros _. apply falls_app; [by eapply plain_falls|apply falls_if_body].
Qed.

(** ** Loops *)

(** Inside a loop the labels of the loops are not those before and after it. *)
Definition unlooped (s : t) : t := with_labels [] [] s.
Definition grows {A} (m : method t A) (s : t) (code : list IRInstruction) (s' : t) (a : A) : Prop :=
  m s = (s', Ok a) ∧ extends (unlooped s) code (unlooped s').

Lemma grows_bind {A B} (m : method t A) (k : A → method t B) s c1 s1 a c2 s2 b :
  grows m s c1 s1 a → grows (k a) s1 c2 s2 b → grows (m_bind m k) s (c1 ++ c2) s2 b.
Proof. intros [H1 E1] [H2 E2]. split; [by rewrite (m_bind_ok _ _ _ _ _ H1)|by eapply extends_trans]. Qed.

Lemma visits_grows {A} (m : method t A) s c s' a : visits m s c s' a → grows m s c s' a.
Proof. intros [H []]. by split. Qed.

Lemma grows_visits {A} (m : method t A) s c s' a :
  loop_continue_labels s' = loop_continue_labels s → loop_break_labels s' = loop_break_labels s →
  grows m s c s' a → visits m s c s' a.
Proof. intros Hc Hb [H []]. by split. Qed.

Lemma grows_code {A} (m : method t A) s c c' s' a : grows m s c s' a → c = c' → grows m s c' s' a.
Proof. by intros H <-. Qed.

Lemma grows_push c b s :
  grows (push_loop c b) s [] (with_labels (loop_continue_labels s ++ [c]) (loop_break_labels s ++ [b]) s) ().
Proof. split; [done|]. apply (visits_ret () (unlooped s)). Qed.

Lemma grows_pop c b cs bs s :
  loop_continue_labels s = cs ++ [c] → loop_break_labels s = bs ++ [b] →
  grows pop_loop s [] (with_labels cs bs s) ().
Proof.
  intros Hc Hb. split; [|apply (visits_ret () (unlooped s))].
  unfold pop_loop, m_bind, m_get, m_lift, update. rewrite Hc, py_pop_snoc. cbn. by rewrite Hb, py_pop_snoc.
Qed.

Lemma visits_in_loop b s : visits (update (with_in_loop b)) s [] (with_in_loop b s) ().
Proof. by apply visits_quiet. Qed.

Lemma visits_if_ v l c s : is_Some (cur s) → visits (build_ (IRBuilder.emit_if_goto v l c)) s [if_code v l c] (put [if_code v l c] s) ().
Proof. apply (visits_emit_ IF_GOTO None [v]). Qed.

Definition start_label (s : t) : string := "loop_start" +:+ pretty (lab s).
Definition exit_label (s : t) : string := "loop_end" +:+ pretty (S (lab s)).
(** The states in which the condition and the body are visited, and the one after the loop. *)
Definition condition_state (s : t) : t :=
  put [label_code (start_label s)]
    (with_labels (loop_continue_labels s ++ [start_label s]) (loop_break_labels s ++ [exit_label s])
       (bump_label (bump_label s))).
Definition body_state (v : IRValue) (s s1 : t) : t :=
  with_in_loop true (put [if_code v (exit_label s) "while condition false -> end"] s1).
Definition looped_state (s s3 : t) : t :=
  with_in_loop false (with_labels (loop_continue_labels s) (loop_break_labels s)
    (put [label_code (exit_label s)] (put [goto_code (start_label s) "loop back"] s3))).

(** The code of a loop. *)
Definition loop_code (v : IRValue) (ls ld : string) (cc cb : list IRInstruction) : list IRInstruction :=
  label_code ls :: cc ++ if_code v ld "while condition false -> end" :: cb ++
  goto_code ls "loop back" :: [label_code ld].

Lemma condition_state_same s :
  cur (condition_state s) = cur s ∧ tmp (condition_state s) = tmp s ∧ lab (condition_state s) = S (S (lab s)) ∧
  var_map (condition_state s) = var_map s ∧
  loop_break_labels (condition_state s) = loop_break_labels s ++ [exit_label s] ∧
  loop_continue_labels (condition_state s) = loop_continue_labels s ++ [start_label s].
Proof. unfold condition_state. by converter. Qed.
Lemma body_state_same v s s1 :
  cur (body_state v s s1) = cur s1 ∧ tmp (body_state v s s1) = tmp s1 ∧ lab (body_state v s s1) = lab s1 ∧
  var_map (body_state v s s1) = var_map s1 ∧
  loop_break_labels (body_state v s s1) = loop_break_labels s1 ∧
  loop_continue_labels (body_state v s s1) = loop_continue_labels s1.
Proof. unfold body_state. by converter. Qed.

Lemma while_visits c body s cc s1 v cb s3 :
  is_Some (cur s) → visits (visit c) (condition_state s) cc s1 (Some v) →
  visits (visit_ visit body) (body_state v s s1) cb s3 () →
  visits (visit (WhileStmt c body)) s (loop_code v (start_label s) (exit_label s) cc cb) (looped_state s s3) None.
Proof.
  intros Hs V1 V3. destruct (condition_state_same s) as (C1 & _ & _ & _ & C5 & C6).
  assert (is_Some (cur s1)) as Hs1 by (eapply (extends_cur (proj2 V1)); by rewrite C1).
  destruct (body_state_same v s s1) as (B1 & _ & _ & _ & B5 & B6).
  assert (is_Some (cur s3)) as Hs3 by (eapply (extends_cur (proj2 V3)); by rewrite B1).
  apply grows_visits; [done..|]. cbn [visit]. unfold visit_WhileStmt.
  eapply (grows_bind _ _ _ []); [apply visits_grows, visits_label|].
  eapply (grows_bind _ _ _ []); [apply visits_grows, visits_label|].
  eapply (grows_bind _ _ _ []); [apply grows_push|].
  eapply (grows_bind _ _ _ [_]); [apply visits_grows, visits_put_label; by converter|].
  eapply (grows_bind _ _ _ cc); [apply visits_grows; exact V1|].
  eapply (grows_bind _ _ _ [_]); [by apply visits_grows, visits_if_|].
  eapply (grows_bind _ _ _ []); [apply visits_grows, visits_in_loop|].
  eapply (grows_bind _ _ _ cb); [apply visits_grows; exact V3|].
  eapply (grows_bind _ _ _ [_]); [by apply visits_grows, visits_goto|].
  eapply grows_code.
  { eapply (grows_bind _ _ _ [_]); [apply visits_grows, visits_put_label; by converter|].
    eapply (grows_bind _ _ _ []).
    { apply (grows_pop (start_label s) (exit_label s) (loop_continue_labels s) (loop_break_labels s)).
      - converter. rewrite (em_continue _ _ _ (proj2 V3)), B6, (em_continue _ _ _ (proj2 V1)). exact C6.
      - converter. rewrite (em_break _ _ _ (proj2 V3)), B5, (em_break _ _ _ (proj2 V1)). exact C5. }
    eapply (grows_bind _ _ _ []); apply visits_grows; [apply visits_in_loop|apply visits_nothing]. }
  done.
Qed.

Lemma loop_code_split v ls ld cc cb :
  loop_code v ls ld cc cb =
  ((label_code ls :: cc) ++ if_code v ld "while condition false -> end" :: cb ++ [goto_code ls "loop back"]) ++
  label_code ld :: [].
Proof. unfold loop_code. cbn [app]. by rewrite <-!app_assoc, <-app_comm_cons, <-app_assoc. Qed.

(** One turn of a loop, whose condition is in [v]. *)
Lemma loop_exits v ls ld cc cb z st st1 :
  leads cc st Fall st1 → operand (env st1) v = Some z → holds z = false →
  leads (loop_code v ls ld cc cb) st Fall st1.
Proof.
  intros Hc Hv Hz. rewrite loop_code_split. eapply leads_forward; [done| |by apply leads_label].
  eapply leads_app; [eapply leads_cons; [by apply leads_label|exact Hc]|].
  apply (leads_left slot call taken [_]); [done|].
  pose proof (leads_if slot call taken (if_code v ld "while condition false -> end") ld v z st1 eq_refl eq_refl eq_refl Hv) as H.
  unfold holds in Hz. by destruct (taken z).
Qed.

Lemma loop_enters v ls ld cc cb z st st1 x st2 :
  leads cc st Fall st1 → operand (env st1) v = Some z → holds z = true → x ≠ Fall →
  leads (cb ++ [goto_code ls "loop back"]) st1 x st2 →
  leads ((label_code ls :: cc) ++ if_code v ld "while condition false -> end" :: cb ++ [goto_code ls "loop back"]) st x st2.
Proof.
  intros Hc Hv Hz Hx Hb. eapply leads_app; [eapply leads_cons; [by apply leads_label|exact Hc]|].
  eapply leads_cons; [|exact Hb].
  pose proof (leads_if slot call taken (if_code v ld "while condition false -> end") ld v z st1 eq_refl eq_refl eq_refl Hv) as H.
  unfold holds in Hz. by destruct (taken z).
Qed.

Lemma loop_turns v ls ld cc cb z st st1 st2 x st' :
  leads cc st Fall st1 → operand (env st1) v = Some z → holds z = true →
  (leads cb st1 Fall st2 ∨ leads cb st1 (Jump ls) st2) →
  leads (loop_code v ls ld cc cb) st2 x st' → leads (loop_code v ls ld cc cb) st x st'.
Proof.
  intros Hc Hv Hz Hb Hr. eapply leads_again; [done| |exact Hr].
  change (label_code ls :: cc ++ ?k) with (loop_code v ls ld cc cb). rewrite loop_code_split.
  apply leads_left; [done|]. eapply loop_enters; [done..|].
  destruct Hb as [Hb|Hb]; [|by apply leads_left]. eapply leads_app; [done|]. by apply leads_goto.
Qed.

Lemma loop_breaks v ls ld cc cb z st st1 st2 :
  leads cc st Fall st1 → operand (env st1) v = Some z → holds z = true → leads cb st1 (Jump ld) st2 →
  leads (loop_code v ls ld cc cb) st Fall st2.
Proof.
  intros Hc Hv Hz Hb. rewrite loop_code_split. eapply leads_forward; [done| |by apply leads_label].
  eapply loop_enters; [done..|]. by apply leads_left.
Qed.

Lemma loop_returns v ls ld cc cb z st st1 st2 w :
  leads cc st Fall st1 → operand (env st1) v = Some z → holds z = true → leads cb st1 (Ret w) st2 →
  leads (loop_code v ls ld cc cb) st (Ret w) st2.
Proof.
  intros Hc Hv Hz Hb. rewrite loop_code_split. apply leads_left; [done|]. eapply loop_enters; [done..|].
  by apply leads_left.
Qed.

Lemma loop_runs scope sc' c body s s1 cc v s3 cb fuel r :
  vars_ok (tmp s) (var_map s) scope → tmp s ≤ tmp s1 → var_map s1 = var_map s →
  loop_break_labels s1 = loop_break_labels s ++ [exit_label s] →
  loop_continue_labels s1 = loop_continue_labels s ++ [start_label s] →
  (∀ y, y ∈ scope → var_map (looped_state s s3) !! y = var_map s !! y) →
  computes slot call taken (condition_state s) scope c cc v →
  runs scope sc' (body_state v s s1) s3 cb (λ fuel, run call holds fuel body) →
  ∀ n st m e, env_ok r scope (var_map s) (env st) → agree m (memory st) →
  run_while holds (eval call r c) (run call holds fuel body r) n r m = Some e →
  ∃ x st', leads (loop_code v (start_label s) (exit_label s) cc cb) st x st' ∧
    lands s (looped_state s s3) scope st e x st'.
Proof.
  intros Hv Ht Hvm Hb Hc Hk C D. destruct (condition_state_same s) as (_ & C2 & _ & C4 & _).
  destruct (body_state_same v s s1) as (_ & B2 & _ & B4 & B5 & B6).
  induction n as [|n IH]; intros st m e Hr Hm Hrun; [done|]. cbn [run_while] in Hrun.
  destruct (eval call r c m) as [[z m1]|] eqn:E; [|done]. cbn [mbind option_bind fst snd] in Hrun.
  destruct (C r st m z m1) as (st1 & L1 & U1 & A1 & O1); [by rewrite C4|done..|]. rewrite C2 in U1.
  assert (env_ok r scope (var_map s) (env st1)) as Hr1 by by eapply env_ok_upd.
  assert (∀ st2, upd (tmp s1) (env st1) (env st2) → upd (tmp s) (env st) (env st2)) as Hu.
  { intros st2 H. eapply upd_trans; [done|]. by eapply upd_weaken. }
  destruct (holds z) eqn:Hz.
  - destruct (run call holds fuel body r m1) as [e1|] eqn:E1; [|done]. cbn [mbind option_bind] in Hrun.
    destruct (D fuel r st1 m1 e1) as (x1 & st2 & L2 & [A2 W2] & _); [by rewrite B4, Hvm|done..|].
    rewrite B2, B5, B6, Hb, Hc, !last_snoc in W2.
    assert (∀ m', e1 = Continued m' ∨ (∃ r', e1 = Next r' m') → run_while holds (eval call r c) (run call holds fuel body r) n r m' = Some e →
      ∃ x st', leads (loop_code v (start_label s) (exit_label s) cc cb) st x st' ∧
        lands s (looped_state s s3) scope st e x st') as Hagain.
    { intros m' He1 Hn. assert (upd (tmp s1) (env st1) (env st2)) as U2 by (destruct He1 as [->|[r' ->]]; apply W2).
      destruct (IH st2 m' e) as (x & st' & L & W); [| |done|].
      - by eapply env_ok_upd; [|exact Hr|auto].
      - by destruct He1 as [->|[r' ->]].
      - exists x, st'. split; [|eapply (lands_after s [] s); [apply (visits_ret () s)|by apply Hu|done]].
        eapply loop_turns; [done..| |done]. destruct He1 as [->|[r' ->]]; [|left; by destruct W2 as (-> & _)].
        right. by destruct W2 as (_ & l & [= <-] & ->). }
    destruct e1 as [r' m'|m'|m'|w m']; [by eapply Hagain; eauto| |by eapply Hagain; eauto|].
    + injection Hrun as <-. destruct W2 as (U2 & l & [= <-] & ->). exists Fall, st2.
      split; [by eapply loop_breaks|]. split; [done|]. split_and!; [done|by apply Hu|].
      eapply env_ok_keep; [done|]. by eapply env_ok_upd; [|exact Hr|auto].
    + injection Hrun as <-. subst x1. exists (Ret w), st2. split; [by eapply loop_returns|done].
  - injection Hrun as <-. exists Fall, st1. split; [by eapply loop_exits|]. split; [done|].
    split_and!; [done..|]. by eapply env_ok_keep.
Qed.

Lemma falls_loop_code v ls ld cc cb : falls (loop_code v ls ld cc cb).
Proof. rewrite loop_code_split. by apply falls_snoc. Qed.

Lemma labels_loop_code v ls ld cc cb : labels cc = [] → labels (loop_code v ls ld cc cb) = ls :: labels cb ++ [ld].
Proof. intros Hc. unfold loop_code. by rewrite labels_label, labels_app, Hc, labels_if, labels_app. Qed.

Lemma while_compiled scope sc' s cc s1 v cb s3 :
  plain (condition_state s) s1 cc → extends (body_state v s s1) cb s3 → tmp s ≤ tmp s1 →
  vars_ok (tmp s) (var_map s) scope → compiled scope sc' (body_state v s s1) s3 cb →
  compiled scope scope s (looped_state s s3) (loop_code v (start_label s) (exit_label s) cc cb).
Proof.
  intros P1 E3 Ht Hv [L3 K3 V3]. destruct (condition_state_same s) as (_ & _ & C3 & C4 & _).
  destruct (body_state_same v s s1) as (_ & B2 & B3 & B4 & _).
  pose proof (em_label _ _ _ E3) as H3. pose proof (em_temp _ _ _ E3) as T3.
  rewrite B3, (plain_lab _ _ _ P1), C3 in *. rewrite B4, (plain_vars _ _ _ P1), C4, B2 in *.
  unfold looped_state. split; converter; [|done|].
  - rewrite labels_loop_code by by eapply plain_labels.
    eapply (numbered_perm _ _ (start_label s :: exit_label s :: labels cb)).
    { apply Permutation_skip. by rewrite <-Permutation_cons_append. }
    apply numbered_cons; [set_solver|lia|]. apply numbered_cons; [set_solver|lia|done].
  - eapply vars_ok_keep; [done|]. eapply vars_ok_weaken; [|done]. lia.
Qed.

Lemma spec_while loop scope sc' c body :
  expr_ok scope c = true → stmt_spec true scope sc' body → stmt_spec loop scope scope (WhileStmt c body).
Proof.
  intros Hc Hbody s Hs Hv Hl. destruct (condition_state_same s) as (C1 & C2 & C3 & C4 & C5 & C6).
  destruct (expr_of scope c Hc (condition_state s)) as (s1 & cc & v & V1 & P1 & G1 & D1).
  { by rewrite C1. }
  { by rewrite C2, C4. }
  pose proof (em_temp _ _ _ (proj2 V1)) as Ht1. rewrite C2 in Ht1.
  pose proof (em_break _ _ _ (proj2 V1)) as Hb1. pose proof (em_continue _ _ _ (proj2 V1)) as Hc1.
  assert (var_map s1 = var_map s) as Hv1 by by rewrite (plain_vars _ _ _ P1).
  destruct (body_state_same v s s1) as (B1 & B2 & B3 & B4 & B5 & B6).
  destruct (Hbody (body_state v s s1)) as (s3 & cb & u & V3 & P3 & D3).
  { rewrite B1. eapply (extends_cur (proj2 V1)). by rewrite C1. }
  { rewrite B2, B4, Hv1. by eapply vars_ok_weaken. }
  { intros _. rewrite B5, B6, Hb1, Hc1, C5, C6, !last_snoc. split; by eexists. }
  assert (visits (visit_ visit body) (body_state v s s1) cb s3 ()) as V3' by by eapply visits_drop.
  pose proof (while_compiled scope sc' s cc s1 v cb s3 P1 (proj2 V3) Ht1 Hv P3) as P.
  exists (looped_state s s3), (loop_code v (start_label s) (exit_label s) cc cb), None. split_and!.
  - by eapply while_visits.
  - done.
  - intros fuel r st m e Hr Hm Hrun. cbn [run] in Hrun.
    destruct (loop_runs scope sc' c body s s1 cc v s3 cb fuel r Hv Ht1 Hv1) with (n := fuel) (st := st) (m := m) (e := e)
      as (x & st' & L & W); try done; [congruence..|apply P|].
    exists x, st'. split_and!; [done..|]. intros _. apply falls_loop_code.
Qed.

(** Every statement of the fragment. *)
Lemma visit_stmt n : ∀ loop scope scope', stmt_ok loop scope n = Some scope' → stmt_spec loop scope scope' n.
Proof.
  induction n as [l IH|c a b IHa IHb|c body IH|n Hn] using stmt_ind; intros loop scope scope' Hok.
  - cbn in Hok. apply bind_Some in Hok as (sc & Hl & [= <-]). eapply spec_block; [|done].
    eapply Forall_impl; [done|]. cbn. intros s Hs sc1 sc2. apply Hs.
  - cbn in Hok. destruct (expr_ok scope c) eqn:Hc; [|done]. apply bind_Some in Hok as (sa & Ha & Hb).
    assert (scope' = scope) as -> by (destruct b; [apply bind_Some in Hb as (? & ? & ?)|]; congruence).
    apply spec_if; [done|by eexists; apply IHa|].
    intros n ->. apply bind_Some in Hb as (sb & Hb & _). exists sb. by apply IHb.
  - cbn in Hok. destruct (expr_ok scope c) eqn:Hc; [|done]. apply bind_Some in Hok as (sc & Hb & [= <-]).
    eapply spec_while; [done|by apply IH].
  - destruct n; try done; cbn in Hok; repeat case_match; simplify_eq/=.
    + apply andb_true_iff in H0 as [? ?%bool_decide_eq_true]. by apply spec_declaration.
    + by apply (spec_jump_out true scope' true).
    + by apply (spec_jump_out true scope' false).
    + by apply spec_return_value.
    + apply spec_return.
    + by apply spec_expression.
Qed.

(** ** Functions *)

Definition param_register (p : parameter ASTNode) : string := "%" +:+ p_name p.

Lemma param_register_inj p q : param_register p = param_register q → p_name p = p_name q.
Proof. apply (inj (String.append "%")). Qed.

Lemma register_percent x : register ("%" +:+ x) = "%" +:+ x.
Proof. by destruct x. Qed.

Lemma good_param p n : param_ok p = true → not_temporary p → good n (ir_param p).
Proof.
  intros Hp%bool_decide_eq_true Hn. split; [|done]. right. intros k _ H. cbn [ir_param v_name] in H.
  rewrite register_percent in H. apply (Hn k). by apply (inj (String.append "%")).
Qed.

(** The code of a parameter, and of all of them. *)
Lemma visits_param p s : is_Some (cur s) →
  ∃ s', visits (declare_param p) s
    [alloca_code ("param " +:+ p_name p) s; store_code (tmp s) (ir_param p) ("store " +:+ p_name p)] s' () ∧
  tmp s' = S (tmp s) ∧ lab s' = lab s ∧ var_map s' = <[p_name p := ir_param p]> (var_map s).
Proof.
  intros Hs. pose (s1 := put [alloca_code ("param " +:+ p_name p) s] (bump_temp s)).
  pose (i := store_code (tmp s) (ir_param p) ("store " +:+ p_name p)). pose (s2 := put [i] s1).
  exists (with_vars (<[p_name p := ir_param p]> (var_map s2)) s2). split.
  - unfold declare_param. eapply (visits_bind _ _ _ [_]); [by apply visits_emit_to|].
    apply (visits_bind _ _ _ [i] s2 i []); [|apply visits_set_var].
    apply (visits_emit STORE None [temp POINTER (tmp s); ir_param p]). by converter.
  - unfold s2, s1. by converter.
Qed.

Lemma leads_param p s z st m :
  (∀ k, param_register p ≠ reg k) → env st !! param_register p = Some z → agree m (memory st) →
  ∃ st', leads [alloca_code ("param " +:+ p_name p) s; store_code (tmp s) (ir_param p) ("store " +:+ p_name p)] st Fall st' ∧
    upd (tmp s) (env st) (env st') ∧ agree m (memory st').
Proof.
  intros Hp Hz Hm. eexists. split_and!.
  - eapply leads_cons; [apply leads_alloca|]. eapply (leads_store _ _ _ z); cbn; [apply lookup_insert_eq|].
    unfold operand. cbn [ir_param is_constant v_name env]. rewrite register_percent.
    rewrite lookup_insert_ne by (intros H; by apply (Hp (tmp s))). exact Hz.
  - by apply upd_insert.
  - by apply agree_store.
Qed.

Lemma not_temporary_register p : not_temporary p → ∀ k, param_register p ≠ reg k.
Proof. intros Hn k H. apply (Hn k). by apply (inj (String.append "%")). Qed.

Lemma spec_params params : Forall not_temporary params → ∀ s, is_Some (cur s) → NoDup (p_name <$> params) →
  ∃ s' code, visits (for_each declare_param params) s code s' () ∧ lab s' = lab s ∧
    Forall (λ i, label_of i = None ∧ IROpcode.is_terminator (opcode i) = false) code ∧
    (∀ x, x ∉ (p_name <$> params) → var_map s' !! x = var_map s !! x) ∧
    (∀ p, p ∈ params → var_map s' !! p_name p = Some (ir_param p)) ∧
    ∀ st m, agree m (memory st) → (∀ p, p ∈ params → is_Some (env st !! param_register p)) →
      ∃ st', leads code st Fall st' ∧ upd (tmp s) (env st) (env st') ∧ agree m (memory st').
Proof.
  induction 1 as [|p params Hp HF IH]; intros s Hs Hd.
  { exists s, []. split_and!; [apply visits_ret|done|constructor|done|by intros p ?%not_elem_of_nil|].
    intros st m Hm _. exists st. split_and!; [apply leads_nil|done..]. }
  cbn in Hd. apply NoDup_cons in Hd as [Hn Hd].
  destruct (visits_param p s Hs) as (s1 & V1 & T1 & L1 & M1). pose proof (extends_cur (proj2 V1) Hs) as Hs1.
  destruct (IH s1 Hs1 Hd) as (s2 & code & V2 & L2 & P2 & K2 & M2 & D2).
  eexists s2, (_ ++ code). split_and!.
  - cbn [for_each]. eapply visits_bind; [exact V1|exact V2].
  - congruence.
  - apply Forall_app. split; [by repeat constructor|done].
  - cbn. intros x [Hx1 Hx2]%not_elem_of_cons. rewrite K2, M1 by done. by rewrite lookup_insert_ne.
  - intros q [->|Hq]%elem_of_cons; [|by apply M2]. rewrite K2, M1 by done. by rewrite lookup_insert_eq.
  - intros st m Hm He. destruct (He p) as [z Hz]; [left|].
    destruct (leads_param p s z st m (not_temporary_register p Hp) Hz Hm) as (st1 & X1 & U1 & A1).
    destruct (D2 st1 m A1) as (st2 & X2 & U2 & A2).
    { intros q Hq. rewrite Forall_forall in HF. rewrite U1; [apply He; by right|].
      intros k _. by apply not_temporary_register, HF. }
    exists st2. split_and!; [by eapply leads_app| |done]. eapply upd_trans; [done|]. eapply upd_weaken; [|done]. lia.
Qed.

Lemma dict_get_alter {A} k (f : A → A) d : dict_get (IRBuilder.dict_alter k f d) k = f <$> dict_get d k.
Proof.
  unfold IRBuilder.dict_alter. induction d as [|[k' a] d IH]; [done|]. cbn. by case_decide.
Qed.

(** The registers on entry. *)
Definition entry_env (params : list (parameter ASTNode)) (args : list Z) : gmap string Z :=
  list_to_map (zip (param_register <$> params) args).

Lemma zip_fmap_l {A B C} (f : A → B) (l : list A) (k : list C) : zip (f <$> l) k = prod_map f id <$> zip l k.
Proof. revert k. induction l as [|a l IH]; intros [|c k]; [done..|]. cbn. f_equal. apply IH. Qed.

Lemma zip_complete {A B} (l : list A) (k : list B) a : a ∈ l → length k = length l → ∃ b, (a, b) ∈ zip l k.
Proof.
  intros Ha. revert k. induction Ha as [a l|a a' l Ha IH]; intros [|b k] Hk; try done; cbn.
  - exists b. left.
  - destruct (IH k) as [b' Hb]; [cbn in Hk; lia|]. exists b'. by right.
Qed.

Lemma entry_lookup params args p z :
  NoDup (p_name <$> params) → length args = length params → (p, z) ∈ zip params args →
  entry_env params args !! param_register p = Some z.
Proof.
  intros Hd Hl Hin. apply elem_of_list_to_map_1.
  - rewrite fst_zip by (rewrite length_fmap; lia). clear -Hd. induction params as [|q params IH]; [constructor|].
    cbn in *. apply NoDup_cons in Hd as [Hn Hd]. constructor; [|by apply IH].
    intros (q' & E%param_register_inj & Hq)%list_elem_of_fmap. apply Hn. rewrite E. by apply list_elem_of_fmap_2.
  - rewrite zip_fmap_l. apply list_elem_of_fmap. by exists (p, z).
Qed.

Lemma entry_ok params args vm :
  NoDup (p_name <$> params) → length args = length params →
  (∀ p, p ∈ params → vm !! p_name p = Some (ir_param p)) →
  env_ok (list_to_map (zip (p_name <$> params) args)) (p_name <$> params) vm (entry_env params args).
Proof.
  intros Hd Hl Hvm x z Hx. apply elem_of_list_to_map_2 in Hx. rewrite zip_fmap_l in Hx.
  apply list_elem_of_fmap in Hx as ([p w] & [= -> ->] & Hin). pose proof (elem_of_zip_l _ _ _ _ Hin) as Hp.
  split; [by apply list_elem_of_fmap_2|]. exists (ir_param p). split; [by apply Hvm|].
  unfold operand. cbn [ir_param is_constant v_name]. rewrite register_percent. by apply entry_lookup.
Qed.

(** The function that the converter has made, and its only block. *)
Definition has_code (n : string) (ty : option ASTNode) (params : list (parameter ASTNode)) (code : list IRInstruction)
    (s : t) : Prop :=
  IRModule.get_function n (md s) =
    Some (mk_function n (ast_type_to_ir_type ty) (ir_param <$> params) [mk_block ("entry_" +:+ n) code]).

Lemma has_code_extends n ty params k code s s' :
  cur s = Some (n, 0) → has_code n ty params k s → extends s code s' → has_code n ty params (k ++ code) s'.
Proof.
  unfold has_code, IRModule.get_function. intros Hc Hk [_ Hm _ _ _ _]. rewrite (Hm _ _ Hc). unfold grown.
  cbn [IRModule.with_functions IRModule.functions]. rewrite dict_get_alter, Hk. done.
Qed.

Lemma visits_function n ty ps s :
  ∃ s', build (IRBuilder.new_function n ty (ir_param <$> ps)) s = (s', Ok ()) ∧ cur s' = Some (n, 0) ∧
  IRModule.get_function n (md s') = Some (mk_function n ty (ir_param <$> ps) [mk_block ("entry_" +:+ n) []]).
Proof.
  eexists. split; [reflexivity|]. cbn. split; [done|].
  unfold IRModule.get_function, IRModule.add_function. cbn. by rewrite dict_get_set, decide_True.
Qed.

Lemma ends_code n ty params code s : has_code n ty params code s → falls code → ends n s = false.
Proof.
  unfold has_code, ends. intros -> H. cbn. unfold BasicBlock.terminator. cbn [instructions].
  destruct (last code) as [i|] eqn:E; [|done]. by rewrite (H i E).
Qed.

(** The parts of a function of the fragment. *)
Lemma function_parts n params ty body s :
  function_ok params body = true → Forall not_temporary params →
  ∃ s1 sp cp sb cb sc,
    (build (IRBuilder.new_function n (ast_type_to_ir_type ty) (ir_param <$> params)) s = (s1, Ok ()) ∧
     visits (for_each declare_param params) s1 cp sp () ∧ visits (visit_ visit body) sp cb sb ()) ∧
    (cur sb = Some (n, 0) ∧ has_code n ty params (cp ++ cb) sb ∧ NoDup (labels (cp ++ cb)) ∧ falls cp) ∧
    (∀ args m, length args = length params →
     ∃ st, leads cp (mk_state (entry_env params args) m) Fall st ∧ agree m (memory st) ∧
       env_ok (list_to_map (zip (p_name <$> params) args)) (p_name <$> params) (var_map sp) (env st)) ∧
    runs (p_name <$> params) sc sp sb cb (λ fuel, run call holds fuel body).
Proof.
  intros Hok Hnt. unfold function_ok in Hok. apply andb_true_iff in Hok as [[Hp Hd%bool_decide_eq_true]%andb_true_iff [sc Hb]%bool_decide_eq_true].
  destruct (visits_function n (ast_type_to_ir_type ty) params s) as (s1 & N1 & Hc1 & F1).
  destruct (spec_params params Hnt s1) as (sp & cp & Vp & Lp & Pp & _ & Mp & Dp); [by eexists|done|].
  pose proof (em_current _ _ _ (proj2 Vp)) as Hcp. rewrite Hc1 in Hcp.
  assert (∀ k, vars_ok k (var_map sp) (p_name <$> params)) as Hvars.
  { intros k x (p & -> & Hin)%list_elem_of_fmap. exists (ir_param p). split; [by apply Mp|].
    rewrite forallb_forall in Hp. rewrite Forall_forall in Hnt.
    apply good_param; [by apply Hp, list_elem_of_In|by apply Hnt]. }
  destruct (visit_stmt body false _ sc Hb sp) as (sb & cb & u & Vb & Pb & Db); [by eexists|apply Hvars|done|].
  assert (labels cp = []) as Hl.
  { clear -Pp. induction Pp as [|i k [Hi _] _ IH]; [done|]. unfold labels. cbn. by rewrite Hi. }
  exists s1, sp, cp, sb, cb, sc. split_and!; try done.
  - by eapply visits_drop.
  - by rewrite (em_current _ _ _ (proj2 Vb)).
  - eapply (has_code_extends _ _ _ cp); [done| |apply Vb]. by eapply (has_code_extends _ _ _ [] cp s1 sp); [..|apply Vp].
  - rewrite labels_app, Hl. eapply numbered_NoDup, Pb.
  - intros i Hi. rewrite Forall_forall in Pp. by apply Pp, last_Some_elem_of.
  - intros args m Hlen.
    destruct (Dp (mk_state (entry_env params args) m) m) as (st & L & U & A); [done| |].
    { intros p Hin. destruct (zip_complete params args p Hin Hlen) as [z Hz]. exists z. by apply entry_lookup. }
    exists st. split_and!; [done..|]. eapply env_ok_upd; [apply (Hvars (tmp s1))| |done]. by apply entry_ok.
Qed.

(** What the converter makes of a function of the fragment computes the function. *)
Lemma function_compiled n params ty body ex xt dec s :
  function_ok params body = true → Forall not_temporary params →
  ∃ s' code, visit (FunctionDecl n params ty body ex xt dec) s = (s', Ok None) ∧ has_code n ty params code s' ∧
    ∀ fuel args m v m', length args = length params →
    run_function call holds fuel (p_name <$> params) body args m = Some (v, m') →
    ∃ mm, steps slot call taken code (At 0 (mk_state (entry_env params args) m)) (Done v mm) ∧ agree m' mm.
Proof.
  intros Hok Hnt.
  destruct (function_parts n params ty body s Hok Hnt) as
    (s1 & sp & cp & sb & cb & sc & (N1 & Vp & Vb) & (Hc & Hcode & Hd & Hfp) & Hentry & Hruns).
  pose (i := mk_instr RETURN None [] None "implicit return").
  assert (∃ s' code, visit (FunctionDecl n params ty body ex xt dec) s = (s', Ok None) ∧ has_code n ty params code s' ∧
    code = (cp ++ cb) ++ (if ends n sb then [] else [i])) as (s' & code & Hvisit & Hcode' & Hcd).
  { assert (visit (FunctionDecl n params ty body ex xt dec) s =
      (let! _ := (if ends n sb then m_ret () else build_ (IRBuilder.emit_return None "implicit return")) in nothing) sb) as ->.
    { cbn [visit]. unfold visit_FunctionDecl. rewrite (m_bind_ok _ _ _ _ _ N1), (m_bind_ok _ _ _ _ _ (proj1 Vp)).
      by rewrite (m_bind_ok _ _ _ _ _ (proj1 Vb)). }
    destruct (ends n sb).
    - exists sb, (cp ++ cb). by rewrite app_nil_r.
    - destruct (visits_emit_ RETURN None [] None "implicit return" sb) as [Hv He]; [by eexists|].
      exists (put [i] sb), ((cp ++ cb) ++ [i]). split_and!; [exact (m_bind_ok _ (λ _, nothing) sb _ _ Hv)| |done].
      by eapply has_code_extends. }
  exists s', code. split_and!; [done..|]. intros fuel args m v m' Hlen Hrun. unfold run_function in Hrun.
  apply bind_Some in Hrun as (e & Hrun & Hres).
  destruct (Hentry args m Hlen) as (st & Lp & Ap & Rp). destruct (Hruns fuel _ st m e Rp Ap Hrun) as (x & st' & Lb & [A W] & F).
  assert (leads (cp ++ cb) (mk_state (entry_env params args) m) x st') as L by by eapply leads_app.
  assert (NoDup (labels code)) as Hdc.
  { rewrite Hcd, labels_app. destruct (ends n sb); cbn; by rewrite app_nil_r. }
  destruct e as [r' m1| | |w m1]; try done; injection Hres as <- <-; exists (memory st'); (split; [|exact A]);
    apply (leads_whole slot call taken code _ (Ret _) st' Hdc); rewrite Hcd.
  - destruct W as (-> & _). eapply leads_app; [exact L|].
    rewrite (ends_code n ty params (cp ++ cb)); [|done|by apply falls_app; [|apply F]]. apply leads_return_none.
  - subst x. by apply leads_left.
Qed.
End Statements.
