(* ===== verification/TransformProps.v ===== *)
(** What the compiler's translation of functions means: the theorems on ASTToIRConverter, and programs
    on which it does something else than what the source says. *)

From Stdlib Require Import String.
From stdpp Require Import pretty.
From S2P Require Import Prelude Ir Llvm Optimizer IrBuilder Ast Transform IrMachine SourceSemantics TransformExpr TransformCorrect.
From S2P Require OptimizerCorrect.
Import ASTToIRConverter.

Open Scope string_scope.
Open Scope list_scope.
Open Scope Z_scope.

(** The called functions neither see nor change the slots of the variables. *)
Definition framed (slot : string → Z) (call : string → list Z → gmap Z Z → option (Z * gmap Z Z)) : Prop :=
  ∀ f vs m1 m2 v m1', agree slot m1 m2 → call f vs m1 = Some (v, m1') →
  ∃ m2', call f vs m2 = Some (v, m2') ∧ agree slot m1' m2'.

(** A condition holds when it is not zero; the reading of IF_GOTO in llvm_gen makes it the
    opposite. *)
Definition nonzero (c : Z) : bool := negb (c =? 0).
Definition zero (c : Z) : bool := c =? 0.

(** * The reading of conditions matters only through its values *)

Section Extensional.
Variable call : string → list Z → gmap Z Z → option (Z * gmap Z Z).
Variables h h' : Z → bool.
Hypothesis same : ∀ c, h c = h' c.

Lemma run_while_ext f g g' fuel r m :
  (∀ m, g m = g' m) → run_while h f g fuel r m = run_while h' f g' fuel r m.
Proof.
  intros Hg. revert m. induction fuel as [|n IH]; intros m; [done|]. cbn.
  destruct (f m) as [c|]; [|done]. cbn. rewrite same. destruct (h' c.1); [|done]. rewrite Hg.
  by destruct (g' c.2) as [[]|]; cbn.
Qed.

Lemma run_list_ext g g' l r m :
  Forall (λ s, ∀ r m, g s r m = g' s r m) l → run_list g l r m = run_list g' l r m.
Proof.
  intros H. revert r m. induction H as [|s l Hs _ IH]; intros r m; [done|]. cbn.
  rewrite Hs. destruct (g' s r m) as [[]|]; cbn; auto.
Qed.

Lemma run_ext fuel s r m : run call h fuel s r m = run call h' fuel s r m.
Proof.
  revert r m. induction s as [l IH|c a b IHa IHb|c body IH|n Hn] using stmt_ind; intros r m.
  - cbn. by rewrite (run_list_ext _ (run call h' fuel) l).
  - cbn. destruct (eval call r c m) as [x|]; [|done]. cbn. rewrite same, IHa.
    destruct (h' x.1); [done|]. destruct b as [b|]; [|done]. by rewrite (IHb b eq_refl).
  - by apply run_while_ext.
  - by destruct n.
Qed.

Lemma run_function_ext fuel names body args m :
  run_function call h fuel names body args m = run_function call h' fuel names body args m.
Proof. unfold run_function. by rewrite run_ext. Qed.
End Extensional.

(** The steps that [function_compiled] gives, as a run. *)
Lemma function_runs `{FL : Floats} slot call taken h n params ty body ex xt dec s :
  framed slot call → (∀ c, h c = negb (taken c)) → function_ok params body = true → Forall not_temporary params →
  ∃ s' code, visit (FunctionDecl n params ty body ex xt dec) s = (s', Ok None) ∧ has_code n ty params code s' ∧
    ∀ fuel args m v m', length args = length params →
    run_function call h fuel (p_name <$> params) body args m = Some (v, m') →
    ∃ k mm, run_code slot call taken k code (At 0 (mk_state (entry_env params args) m)) = Some (Done v mm) ∧
      agree slot m' mm.
Proof.
  intros Hf Hh Hok Hnt.
  destruct (function_compiled slot call taken Hf n params ty body ex xt dec s Hok Hnt) as (s' & code & Hv & Hc & Hr).
  exists s', code. split_and!; [done..|]. intros fuel args m v m' Hl Hrun.
  rewrite (run_function_ext call h (holds taken) Hh) in Hrun.
  destruct (Hr _ _ _ _ _ Hl Hrun) as (mm & Hs & Ha). destruct (steps_run _ _ _ _ _ _ Hs _ _ eq_refl) as [k Hk].
  by exists k, mm.
Qed.

(** * The function of the examples *)

Abbreviation ident := Identifier.
Definition int_param (n : string) : parameter ASTNode := mk_parameter n (Some (TypeAnnotation "int" [])) None false.
Definition plus (a b : ASTNode) : ASTNode := BinaryOp a TokenType.PLUS b.

(** The functions outside: [count] returns a counter, [step] adds to it, [again] tells whether it is
    below ten. *)
Definition cell (m : gmap Z Z) : Z := default 0 (m !! 100).
Definition counter (f : string) (args : list Z) (m : gmap Z Z) : option (Z * gmap Z Z) :=
  if decide (f = "count") then Some (cell m, m)
  else if decide (f = "step") then Some (0, <[100 := cell m + default 0 (head args)]> m)
  else if decide (f = "again") then Some (truth (cell m <? 10), m)
  else None.
Definition slot_zero (x : string) : Z := 0.

(** [fn f(a, b) { let d = a * b; while (again()) { step(d); if (count() == 8) { break; } }
    return count() + b; }]. *)
Definition sample_params : list (parameter ASTNode) := [int_param "a"; int_param "b"].
Definition sample_body : ASTNode :=
  Block [VariableDecl "d" None (Some (BinaryOp (ident "a") TokenType.STAR (ident "b"))) false false;
         WhileStmt (Call (ident "again") [])
           (Block [ExpressionStmt (Call (ident "step") [ident "d"]);
                   IfStmt (BinaryOp (Call (ident "count") []) TokenType.EQUAL_EQUAL (IntegerLiteral 8))
                     (Block [BreakStmt]) None]);
         ReturnStmt (Some (plus (Call (ident "count") []) (ident "b")))].

Definition new_converter : t := init (IRModule.init "main").

Lemma counter_framed : framed slot_zero counter.
Proof.
  intros f vs m1 m2 v m1' Ha. assert (cell m1 = cell m2) as Hc.
  { unfold cell. by rewrite (Ha 100). }
  unfold counter. rewrite Hc. repeat case_decide; intros [= <- <-]; eexists; (split; [done|]); try done.
  intros a Hs. destruct (decide (a = 100)) as [->|]; [by rewrite !lookup_insert_eq|].
  rewrite !lookup_insert_ne by done. by apply Ha.
Qed.

Lemma sample_not_temporary : Forall not_temporary sample_params.
Proof. repeat constructor; intros k; discriminate. Qed.

(** * The theorems *)

(** C3: The converter translates functions of this fragment correctly, with IF_GOTO jumping on
    zero, as x86_gen reads it for a register. The fragment: parameters annotated as integers or
    booleans, with distinct names, none of the form t0, t1, ...; statements that are
    expressions, declarations (each with its value, of a name that is not in scope there: no
    shadowing), blocks, conditionals, while loops with break and continue inside them, and
    returns; expressions from 32-bit integer, boolean and null literals, variables in scope,
    unary - and ~, the binary operators + - * / % == != < > <= >= && || & | ^ << >>, and calls of
    functions by name (so no !, assignment, ternary expression or for loop); called functions
    that neither read nor change the slots of the caller's variables. The converter visits such
    a function without an error and makes it a function of one block. Whenever the source
    program, given one argument per parameter, comes to an end (its integers wrap to 32 bits,
    the operands of && and || are 0 or 1, and evaluating their right side in vain changes
    nothing), running the instructions of that block from the entry returns the same result in
    finitely many steps, with the same effects on all the memory that is not a variable's
    slot. *)
Theorem transform_correct `{FL : Floats} slot call n params ty body ex xt dec s :
  framed slot call → function_ok params body = true → Forall not_temporary params →
  ∃ s' code, visit (FunctionDecl n params ty body ex xt dec) s = (s', Ok None) ∧ has_code n ty params code s' ∧
    ∀ fuel args m v m', length args = length params →
    run_function call nonzero fuel (p_name <$> params) body args m = Some (v, m') →
    ∃ k mm, run_code slot call jump_on_zero k code (At 0 (mk_state (entry_env params args) m)) = Some (Done v mm) ∧
      agree slot m' mm.
Proof. intros Hf Hok Hnt. by apply function_runs. Qed.

Lemma transform_correct_witness :
  run_function counter nonzero 10 ["a"; "b"] sample_body [2; 1] ∅ = Some (Some 9, {[100 := 8]}) ∧
  ∃ s' code, visit (FL := OptimizerCorrect.no_floats) (FunctionDecl "f" sample_params None sample_body false false [])
    new_converter = (s', Ok None) ∧ has_code "f" None sample_params code s' ∧
    ∀ fuel args m v m', length args = length sample_params →
    run_function counter nonzero fuel (p_name <$> sample_params) sample_body args m = Some (v, m') →
    ∃ k mm, run_code slot_zero counter jump_on_zero k code (At 0 (mk_state (entry_env sample_params args) m)) =
      Some (Done v mm) ∧ agree slot_zero m' mm.
Proof.
  split; [vm_compute; reflexivity|].
  apply transform_correct; [exact counter_framed|vm_compute; reflexivity|exact sample_not_temporary].
Defined.

(** C4: On exactly the fragment of the property before, under its conditions, but with IF_GOTO
    jumping on a value that is not zero, as llvm_gen and the optimiser read it, the instructions
    compute the source program with every condition of an if or a while negated. The fragment:
    integer or boolean parameters with distinct names, none of the form t0, t1, ...; expression
    statements, declarations with a value and without shadowing, blocks, conditionals, while
    loops with break and continue, returns; expressions from 32-bit, boolean and null literals,
    variables in scope, unary - and ~, the binary operators (not !, assignment or the ternary
    expression), and calls by name of functions that neither read nor change the slots of the
    caller's variables. Whenever the program so read, given one argument per parameter, comes to
    an end (the operands of && and || being 0 or 1 and their right side, evaluated in vain,
    changing nothing), the instructions return its result in finitely many steps, with its
    effects on all the memory that is not a variable's slot. *)
Theorem transform_inverts `{FL : Floats} slot call n params ty body ex xt dec s :
  framed slot call → function_ok params body = true → Forall not_temporary params →
  ∃ s' code, visit (FunctionDecl n params ty body ex xt dec) s = (s', Ok None) ∧ has_code n ty params code s' ∧
    ∀ fuel args m v m', length args = length params →
    run_function call zero fuel (p_name <$> params) body args m = Some (v, m') →
    ∃ k mm, run_code slot call jump_on_nonzero k code (At 0 (mk_state (entry_env params args) m)) = Some (Done v mm) ∧
      agree slot m' mm.
Proof. intros Hf Hok Hnt. apply function_runs; [done| |done..]. intros c. unfold jump_on_nonzero, zero. by destruct (c =? 0). Qed.

Lemma transform_inverts_witness :
  run_function counter zero 10 ["a"; "b"] sample_body [2; 1] ∅ = Some (Some 1, ∅) ∧
  ∃ s' code, visit (FL := OptimizerCorrect.no_floats) (FunctionDecl "f" sample_params None sample_body false false [])
    new_converter = (s', Ok None) ∧ has_code "f" None sample_params code s' ∧
    ∀ fuel args m v m', length args = length sample_params →
    run_function counter zero fuel (p_name <$> sample_params) sample_body args m = Some (v, m') →
    ∃ k mm, run_code slot_zero counter jump_on_nonzero k code (At 0 (mk_state (entry_env sample_params args) m)) =
      Some (Done v mm) ∧ agree slot_zero m' mm.
Proof.
  split; [vm_compute; reflexivity|].
  apply transform_inverts; [exact counter_framed|vm_compute; reflexivity|exact sample_not_temporary].
Defined.

(** * What the translation does differently

    The programs below are outside the fragment; each is compiled and run. *)

Section Examples.
Local Existing Instance OptimizerCorrect.no_floats.

Definition after (ns : list ASTNode) : t := fst (for_each (visit_ visit) ns new_converter).
Definition function_named (n : string) (s : t) : option IRFunction :=
  IRModule.get_function n (IRBuilder.module (builder s)).
Definition code_of (n : string) (s : t) : list IRInstruction :=
  match function_named n s with Some f => concat (instructions <$> blocks f) | None => [] end.
Definition fn (n : string) (ps : list string) (l : list ASTNode) : ASTNode :=
  FunctionDecl n (int_param <$> ps) None (Block l) false false [].

(** The result of the compiled function on arguments, with jumps on zero. *)
Definition result (ps : list string) (l : list ASTNode) (args : list Z) : option (option Z) :=
  match run_code slot_zero counter jump_on_zero 100 (code_of "f" (after [fn "f" ps l]))
          (At 0 (mk_state (entry_env (int_param <$> ps) args) ∅)) with
  | Some (Done v _) => Some v
  | _ => None
  end.
Definition return_ (e : ASTNode) : ASTNode := ReturnStmt (Some e).
Definition when (c : ASTNode) (l : list ASTNode) : ASTNode := IfStmt c (Block l) None.
Definition int (z : Z) : ASTNode := IntegerLiteral z.
Definition expr (e : ASTNode) : ASTNode := ExpressionStmt e.
Definition set_to (x : string) (e : ASTNode) : ASTNode := Assignment (ident x) TokenType.EQUAL e.

(** [!a] complements the bits: it holds for [a = 1]. *)
Lemma not_is_complement : result ["a"] [return_ (UnaryOp TokenType.NOT (ident "a") true)] [1] = Some (Some (-2)).
Proof. vm_compute. reflexivity. Qed.

(** [a && b] is the bitwise operation: two values that are not zero may give zero. *)
Lemma and_is_bitwise :
  result ["a"; "b"] [return_ (BinaryOp (ident "a") TokenType.AND (ident "b"))] [1; 2] = Some (Some 0).
Proof. vm_compute. reflexivity. Qed.

(** Both sides of [&&] are evaluated: the call is made although [a] is zero. *)
Lemma and_evaluates_both :
  result ["a"] [expr (BinaryOp (ident "a") TokenType.AND (Call (ident "step") [int 1]));
                return_ (Call (ident "count") [])] [0] = Some (Some 1).
Proof. vm_compute. reflexivity. Qed.

(** An assignment stores to the address that is the old value of the variable. *)
Lemma assignment_overwrites :
  result [] [VariableDecl "x" None (Some (int 100)) true false; expr (set_to "x" (int 5));
             return_ (Call (ident "count") [])] [] = Some (Some 5).
Proof. vm_compute. reflexivity. Qed.

(** An assignment in a branch that is not taken takes effect after it. *)
Lemma assignment_in_branch :
  result ["a"] [VariableDecl "x" None (Some (int 1)) true false; when (ident "a") [expr (set_to "x" (int 2))];
                return_ (ident "x")] [0] = Some (Some 2).
Proof. vm_compute. reflexivity. Qed.

(** A variable of an inner block replaces the outer one of its name. *)
Lemma shadowing_leaks :
  result [] [VariableDecl "x" None (Some (int 1)) false false;
             Block [VariableDecl "x" None (Some (int 2)) false false]; return_ (ident "x")] [] = Some (Some 2).
Proof. vm_compute. reflexivity. Qed.

(** A conditional expression has the value of its first branch. *)
Lemma ternary_is_then : result ["a"] [return_ (TernaryExpr (ident "a") (int 1) (int 2))] [0] = Some (Some 1).
Proof. vm_compute. reflexivity. Qed.

(** [continue] in a for loop goes back to the condition, without the update. *)
Lemma continue_skips_update :
  result [] [ForStmt None (Some (Call (ident "again") [])) (Some (Call (ident "step") [int 1]))
               (Block [when (int 1) [ContinueStmt]])] [] = None.
Proof. vm_compute. reflexivity. Qed.

(** A parameter with the name of a temporary is overwritten by the address of its slot. *)
Lemma parameter_overwritten : result ["t0"] [return_ (ident "t0")] [7] = Some (Some 0).
Proof. vm_compute. reflexivity. Qed.

(** An argument without a value is left out of the call. *)
Lemma unknown_argument_dropped :
  (length ∘ operands <$> code_of "f" (after [fn "f" [] [expr (Call (ident "g") [ident "y"; int 1])]])) = [2; 0]%nat.
Proof. vm_compute. reflexivity. Qed.

(** The parameters of a function are known in the next ones. *)
Lemma variables_leak :
  head (code_of "g" (after [fn "f" ["a"] []; fn "g" [] [return_ (ident "a")]])) =
  Some (mk_instr RETURN None [ir_param (int_param "a")] None "return").
Proof. vm_compute. reflexivity. Qed.

(** A global variable before any function stops the translation; after one it is code behind the
    function's return. *)
Definition global_variable : ASTNode := VariableDecl "x" None (Some (int 1)) false false.
Lemma global_first_fails : snd (visit global_variable new_converter) = Err RuntimeError.
Proof. vm_compute. reflexivity. Qed.
Lemma global_after_return :
  opcode <$> code_of "f" (after [fn "f" [] [return_ (int 0)]; global_variable]) = [RETURN; ALLOCA; STORE].
Proof. vm_compute. reflexivity. Qed.

(** Every function with a conditional is reported by [verify_ir]. *)
Lemma verify_rejects_if :
  IRTransform.verify_ir (IRBuilder.module (builder (after [fn "f" ["a"] [when (ident "a") []]]))) =
  [IRTransform.TerminatorInside "entry_f" "f"; IRTransform.TerminatorInside "entry_f" "f";
   IRTransform.TerminatorInside "entry_f" "f"].
Proof. vm_compute. reflexivity. Qed.
End Examples.
