(* ===== verification/SqlLexer.v ===== *)
(** The SQL lexer: database/src/sql/parser.py, tokens and [SQLLexer].

    The source text is ASCII. The lexer keeps the rest of the text instead of the text
    and a position: the code never looks back, except to cut out the text of a token. *)

From Stdlib Require Import String.
From S2P Require Import Prelude Bytes Utf8 Str PyNum.

Open Scope string_scope.
Open Scope list_scope.
Open Scope Z_scope.

Inductive TokenType := KEYWORD | IDENTIFIER | NUMBER | STRING | OPERATOR | PUNCTUATION | EOF.

#[export] Instance TokenType_eq_dec : EqDecision TokenType.
Proof. solve_decision. Defined.

Module Keyword.
Inductive t :=
  | SELECT | FROM | WHERE | INSERT | INTO | VALUES | UPDATE | SET | DELETE | CREATE | TABLE |
    DATABASE | DROP | ALTER | ADD | COLUMN | PRIMARY | KEY | NOT | NULL | DEFAULT | UNIQUE |
    INDEX | AND | OR | IN | LIKE | BETWEEN | IS | TRUE | FALSE | AS | ON | JOIN | LEFT |
    RIGHT | INNER | OUTER | CROSS | FULL | ORDER | BY | ASC | DESC | LIMIT | OFFSET | GROUP |
    HAVING | DISTINCT | COUNT | SUM | AVG | MIN | MAX | EXISTS | CASE | WHEN | THEN | ELSE |
    END | USE | SHOW | EXPLAIN | BEGIN | COMMIT | ROLLBACK | TRANSACTION | VECTOR | DOCUMENT.

Definition members : list t :=
  [SELECT; FROM; WHERE; INSERT; INTO; VALUES; UPDATE; SET; DELETE; CREATE; TABLE; DATABASE;
   DROP; ALTER; ADD; COLUMN; PRIMARY; KEY; NOT; NULL; DEFAULT; UNIQUE; INDEX; AND; OR; IN;
   LIKE; BETWEEN; IS; TRUE; FALSE; AS; ON; JOIN; LEFT; RIGHT; INNER; OUTER; CROSS; FULL;
   ORDER; BY; ASC; DESC; LIMIT; OFFSET; GROUP; HAVING; DISTINCT; COUNT; SUM; AVG; MIN; MAX;
   EXISTS; CASE; WHEN; THEN; ELSE; END; USE; SHOW; EXPLAIN; BEGIN; COMMIT; ROLLBACK;
   TRANSACTION; VECTOR; DOCUMENT].

Definition value (k : t) : string :=
  match k with
  | SELECT => "SELECT" | FROM => "FROM" | WHERE => "WHERE" | INSERT => "INSERT"
  | INTO => "INTO" | VALUES => "VALUES" | UPDATE => "UPDATE" | SET => "SET"
  | DELETE => "DELETE" | CREATE => "CREATE" | TABLE => "TABLE" | DATABASE => "DATABASE"
  | DROP => "DROP" | ALTER => "ALTER" | ADD => "ADD" | COLUMN => "COLUMN"
  | PRIMARY => "PRIMARY" | KEY => "KEY" | NOT => "NOT" | NULL => "NULL" | DEFAULT => "DEFAULT"
  | UNIQUE => "UNIQUE" | INDEX => "INDEX" | AND => "AND" | OR => "OR" | IN => "IN"
  | LIKE => "LIKE" | BETWEEN => "BETWEEN" | IS => "IS" | TRUE => "TRUE" | FALSE => "FALSE"
  | AS => "AS" | ON => "ON" | JOIN => "JOIN" | LEFT => "LEFT" | RIGHT => "RIGHT"
  | INNER => "INNER" | OUTER => "OUTER" | CROSS => "CROSS" | FULL => "FULL" | ORDER => "ORDER"
  | BY => "BY" | ASC => "ASC" | DESC => "DESC" | LIMIT => "LIMIT" | OFFSET => "OFFSET"
  | GROUP => "GROUP" | HAVING => "HAVING" | DISTINCT => "DISTINCT" | COUNT => "COUNT"
  | SUM => "SUM" | AVG => "AVG" | MIN => "MIN" | MAX => "MAX" | EXISTS => "EXISTS"
  | CASE => "CASE" | WHEN => "WHEN" | THEN => "THEN" | ELSE => "ELSE" | END => "END"
  | USE => "USE" | SHOW => "SHOW" | EXPLAIN => "EXPLAIN" | BEGIN => "BEGIN"
  | COMMIT => "COMMIT" | ROLLBACK => "ROLLBACK" | TRANSACTION => "TRANSACTION"
  | VECTOR => "VECTOR" | DOCUMENT => "DOCUMENT"
  end.

(** The position of a member. *)
Definition index (k : t) : nat :=
  match k with
  | SELECT => 0 | FROM => 1 | WHERE => 2 | INSERT => 3 | INTO => 4 | VALUES => 5 | UPDATE => 6
  | SET => 7 | DELETE => 8 | CREATE => 9 | TABLE => 10 | DATABASE => 11 | DROP => 12
  | ALTER => 13 | ADD => 14 | COLUMN => 15 | PRIMARY => 16 | KEY => 17 | NOT => 18
  | NULL => 19 | DEFAULT => 20 | UNIQUE => 21 | INDEX => 22 | AND => 23 | OR => 24 | IN => 25
  | LIKE => 26 | BETWEEN => 27 | IS => 28 | TRUE => 29 | FALSE => 30 | AS => 31 | ON => 32
  | JOIN => 33 | LEFT => 34 | RIGHT => 35 | INNER => 36 | OUTER => 37 | CROSS => 38
  | FULL => 39 | ORDER => 40 | BY => 41 | ASC => 42 | DESC => 43 | LIMIT => 44 | OFFSET => 45
  | GROUP => 46 | HAVING => 47 | DISTINCT => 48 | COUNT => 49 | SUM => 50 | AVG => 51
  | MIN => 52 | MAX => 53 | EXISTS => 54 | CASE => 55 | WHEN => 56 | THEN => 57 | ELSE => 58
  | END => 59 | USE => 60 | SHOW => 61 | EXPLAIN => 62 | BEGIN => 63 | COMMIT => 64
  | ROLLBACK => 65 | TRANSACTION => 66 | VECTOR => 67 | DOCUMENT => 68
  end%nat.

Lemma members_index k : members !! index k = Some k.
Proof. by destruct k. Qed.

#[export] Instance keyword_eq_dec : EqDecision t.
Proof.
  refine (λ a b, cast_if (decide (index a = index b)));
    [abstract (pose proof (members_index a); pose proof (members_index b); congruence)|congruence].
Defined.
End Keyword.
#[export] Existing Instance Keyword.keyword_eq_dec.

(** [_KEYWORD_MAP.get(s)]. *)
Definition keyword_of (s : pystr) : option Keyword.t :=
  snd <$> list_find (λ k, str (Keyword.value k) = s) Keyword.members.

Record Token := mk_token {
  token_type : TokenType;
  value : pystr;
  keyword : option Keyword.t;
  line : Z;
  column : Z;
}.

Definition ascii_alpha (c : Z) : bool := ((65 <=? c) && (c <=? 90)) || ((97 <=? c) && (c <=? 122)).
Definition ascii_alnum (c : Z) : bool := ascii_alpha c || is_digit c.
Definition word_char (c : Z) : bool := ascii_alnum c || (c =? underscore).

Definition quote : Z := 39.
Definition double_quote : Z := 34.
Definition backslash : Z := 92.
Definition newline : Z := 10.
Definition slash : Z := 47.
Definition star : Z := 42.

Module SQLLexer.
Definition SINGLE_CHAR_TOKENS : list Z := str "+-*/=<>(),;.".

Record t := mk {
  source : pystr;
  line : Z;
  column : Z;
}.
Definition init (source : pystr) : t := mk source 1 1.

(** [_advance(count)]; slices beyond the end are empty. *)
Definition advance (count : nat) (s : t) : t :=
  mk (drop count (source s)) (line s) (column s + Z.of_nat count).
(** [_peek(ahead)], the empty string at the end. *)
Definition peek (ahead : nat) (s : t) : option Z := source s !! ahead.

Definition make_token (ty : TokenType) (v : pystr) (s : t) : Token :=
  let col := column s - len v + 1 in
  match ty, keyword_of (upper v) with
  | IDENTIFIER, Some k => mk_token KEYWORD v (Some k) (line s) col
  | _, _ => mk_token ty v None (line s) col
  end.

(** The number of characters a loop of the lexer passes. *)
Fixpoint prefix_length (p : Z → bool) (s : pystr) : nat :=
  match s with
  | c :: s' => if p c then S (prefix_length p s') else 0
  | [] => 0
  end.
Definition skip_line (s : t) : t := advance (prefix_length (λ c, negb (c =? newline)) (source s)) s.

(** The loop of [_skip_block_comment], after the opening of the comment. *)
Fixpoint skip_comment (rest : pystr) (l c : Z) : t :=
  match rest with
  | [] => mk [] l c
  | a :: rest' =>
      if (a =? star) && bool_decide (head rest' = Some slash) then mk (tail rest') l (c + 2)
      else if a =? newline then skip_comment rest' (l + 1) (1 + 1)
      else skip_comment rest' l (c + 1)
  end.
Definition skip_block_comment (s : t) : t :=
  let s := advance 2 s in skip_comment (source s) (line s) (column s).

Fixpoint number_length (is_float : bool) (s : pystr) : nat :=
  match s with
  | c :: s' =>
      if c =? dot then if is_float then 0 else S (number_length true s')
      else if is_digit c then S (number_length is_float s')
      else 0
  | [] => 0
  end.
Definition plain (ty : TokenType) (v : pystr) (k : option Keyword.t) : Token := mk_token ty v k 0 0.
Definition read_number (s : t) : t * Token :=
  let n := number_length false (source s) in (advance n s, plain NUMBER (take n (source s)) None).

(** The loop of [_read_string]; an escape at the end passes the end. *)
Fixpoint string_length (q : Z) (s : pystr) : nat :=
  match s with
  | [] => 0
  | c :: s' =>
      if c =? q then 0
      else if c =? backslash then
        match s' with _ :: s'' => S (S (string_length q s'')) | [] => 2 end
      else S (string_length q s')
  end.
Definition read_string (q : Z) (s : t) : t * Token :=
  let s := advance 1 s in
  let n := string_length q (source s) in
  (advance 1 (advance n s), plain STRING (take n (source s)) None).

Definition read_identifier (s : t) : t * Token :=
  let n := prefix_length word_char (source s) in
  let v := take n (source s) in
  (advance n s,
   match keyword_of (upper v) with
   | Some k => plain KEYWORD v (Some k)
   | None => plain IDENTIFIER v None
   end).

(** The two-character operators; [!=] is tested where [!] cannot be. *)
Definition read_operator (char : Z) (s : t) : t * Token :=
  let next c := bool_decide (peek 1 s = Some c) in
  if (char =? 60) && next 61 then (advance 2 s, make_token OPERATOR (str "<=") s)
  else if (char =? 62) && next 61 then (advance 2 s, make_token OPERATOR (str ">=") s)
  else if (char =? 33) && next 61 then (advance 2 s, make_token OPERATOR (str "!=") s)
  else (advance 1 s, make_token OPERATOR [char] s).

(** One turn of the loop of [tokenize]. *)
Definition scan (char : Z) (s : t) : res (t * option Token) :=
  let next c := bool_decide (peek 1 s = Some c) in
  let next_digit := match peek 1 s with Some c => is_digit c | None => false end in
  let token r := Ok (fst r, Some (snd r)) in
  if bool_decide (char ∈ [32; 9; 13]) then Ok (advance 1 s, None)
  else if char =? newline then Ok (mk (drop 1 (source s)) (line s + 1) 1, None)
  else if (char =? hyphen) && next hyphen then Ok (skip_line s, None)
  else if (char =? slash) && next star then Ok (skip_block_comment s, None)
  else if bool_decide (char ∈ SINGLE_CHAR_TOKENS) then token (read_operator char s)
  else if is_digit char || ((char =? dot) && next_digit) then token (read_number s)
  else if (char =? quote) || (char =? double_quote) then token (read_string char s)
  else if ascii_alpha char || (char =? underscore) then token (read_identifier s)
  else Err SyntaxError.

Fixpoint tokenize_loop (fuel : nat) (s : t) : option (res (list Token)) :=
  match fuel with
  | O => None
  | S fuel' =>
      match source s with
      | [] => Some (Ok [mk_token EOF [] None (line s) (column s)])
      | char :: _ =>
          match scan char s with
          | Err e => Some (Err e)
          | Ok (s', tok) =>
              match tokenize_loop fuel' s' with
              | Some (Ok toks) => Some (Ok (match tok with Some x => x :: toks | None => toks end))
              | r => r
              end
          end
      end
  end.

Definition tokenize (source : pystr) : option (res (list Token)) :=
  tokenize_loop (S (length source)) (init source).
End SQLLexer.

(** * Lemmas *)

Module SQLLexerFacts.
Import SQLLexer.

Lemma length_source_advance k s : length (source (advance k s)) = (length (source s) - k)%nat.
Proof. unfold advance. cbn. by rewrite length_drop. Qed.

Lemma length_skip_comment rest l c : (length (source (skip_comment rest l c)) <= length rest)%nat.
Proof.
  revert l c. induction rest as [|a rest IH]; intros l c; cbn [skip_comment length]; [done|].
  case_match; [cbn; destruct rest; cbn; lia|]. case_match; (etrans; [apply IH|lia]).
Qed.

Lemma read_operator_shape char s :
  ∃ k v, (0 < k)%nat ∧ read_operator char s = (advance k s, make_token OPERATOR v s).
Proof. unfold read_operator. repeat case_match; by eauto using Nat.lt_0_succ. Qed.

(** Every turn of the lexer passes a character. *)
Lemma scan_progress char rest s s' tok :
  source s = char :: rest → scan char s = Ok (s', tok) → (length (source s') < length (source s))%nat.
Proof.
  intros Hs. unfold scan. case_match.
  { intros [= <- <-]. rewrite length_source_advance, Hs. cbn. lia. }
  case_match; [intros [= <- <-]; cbn [source]; rewrite length_drop, Hs; cbn [length]; lia|].
  case_match eqn:Ed.
  { intros [= <- <-]. unfold skip_line. rewrite length_source_advance, Hs. cbn [prefix_length length].
    if_true. lia. }
  case_match.
  { intros [= <- <-]. unfold skip_block_comment. eapply Nat.le_lt_trans; [apply length_skip_comment|].
    rewrite length_source_advance, Hs. cbn. lia. }
  case_match.
  { destruct (read_operator_shape char s) as (k & v & Hk & ->). intros [= <- <-]. cbn [fst].
    rewrite length_source_advance, Hs. cbn [length]. lia. }
  case_match eqn:En.
  { unfold read_number. intros [= <- <-]. cbn [fst]. rewrite length_source_advance, Hs. cbn [number_length length].
    destruct (char =? dot); [lia|]. rewrite orb_false_r in En. rewrite En. lia. }
  destruct ((char =? quote) || _); [intros [= <- _]; unfold read_string; cbn [fst]; rewrite !length_source_advance, Hs; cbn [length]; lia|].
  destruct (ascii_alpha char || _) eqn:Ei; [|done]. intros [= <- _]. unfold read_identifier. cbn [fst].
  rewrite length_source_advance, Hs. cbn [prefix_length length].
  assert (word_char char = true) as -> by (unfold word_char, ascii_alnum; lia). lia.
Qed.

Lemma tokenize_loop_total fuel s : (length (source s) < fuel)%nat → is_Some (tokenize_loop fuel s).
Proof.
  revert s. induction fuel as [|fuel IH]; intros s Hf; [lia|]. cbn [tokenize_loop].
  destruct (source s) as [|char rest] eqn:Hs; [by eexists|].
  destruct (scan char s) as [[s' tok]|e] eqn:E; [|by eexists].
  destruct (IH s') as [r Hr]; [apply (scan_progress _ _ _ _ _ Hs) in E; rewrite Hs in E; cbn [length] in *; lia|].
  rewrite Hr. destruct r as [toks|e]; by eexists.
Qed.

Lemma tokenize_total source : is_Some (tokenize source).
Proof. apply tokenize_loop_total. cbn. lia. Qed.

(** What the lexer makes: never a PUNCTUATION token. *)
Lemma scan_type char s s' t : scan char s = Ok (s', Some t) → token_type t ∈ [KEYWORD; IDENTIFIER; NUMBER; STRING; OPERATOR].
Proof.
  unfold scan. do 4 (case_match; [done|]).
  destruct (bool_decide (char ∈ SINGLE_CHAR_TOKENS)).
  { destruct (read_operator_shape char s) as (k & v & _ & ->). intros [= _ <-]. cbn. set_solver. }
  destruct (is_digit char || _); [intros [= _ <-]; unfold read_number; cbn; set_solver|].
  destruct ((char =? quote) || _); [intros [= _ <-]; unfold read_string; cbn; set_solver|].
  destruct (ascii_alpha char || _); [|done]. intros [= _ <-]. unfold read_identifier. cbn [snd].
  case_match; cbn [token_type plain]; set_solver.
Qed.

Lemma tokenize_loop_types fuel s ts :
  tokenize_loop fuel s = Some (Ok ts) → Forall (λ t, token_type t ≠ PUNCTUATION) ts.
Proof.
  revert s ts. induction fuel as [|fuel IH]; intros s ts; [done|]. cbn [tokenize_loop].
  destruct (source s) as [|char rest]; [intros [= <-]; by repeat constructor|].
  destruct (scan char s) as [[s' tok]|e] eqn:E; [|done].
  destruct (tokenize_loop fuel s') as [[toks|e]|] eqn:El; [|done..]. intros [= <-].
  destruct tok as [t|]; [|by eapply IH]. constructor; [|by eapply IH].
  apply scan_type in E. intros Ht. rewrite Ht in E. set_solver.
Qed.

(** ** The text of tokens *)

(** Tokens without their positions. *)
Definition erase (t : Token) : Token := mk_token (token_type t) (value t) (keyword t) 0 0.
Definition erased (t : Token) : Prop := erase t = t.

Definition word (v : pystr) : Prop :=
  Forall (λ c, word_char c = true) v ∧ ∃ c, head v = Some c ∧ (ascii_alpha c || (c =? underscore)) = true.

(** The tokens that have a text. *)
Definition lexeme (t : Token) : Prop :=
  match token_type t with
  | IDENTIFIER => word (value t) ∧ keyword_of (upper (value t)) = None ∧ keyword t = None
  | KEYWORD => word (value t) ∧ is_Some (keyword t) ∧ keyword_of (upper (value t)) = keyword t
  | NUMBER =>
      keyword t = None ∧
      ∃ c a, is_digit c = true ∧ Forall (λ c, is_digit c = true) a ∧
        (value t = c :: a ∨ ∃ b, Forall (λ c, is_digit c = true) b ∧ value t = c :: a ++ dot :: b)
  | STRING => keyword t = None ∧ quote ∉ value t ∧ backslash ∉ value t
  | OPERATOR => keyword t = None ∧ ((∃ c, c ∈ SINGLE_CHAR_TOKENS ∧ value t = [c]) ∨ value t ∈ [str "<="; str ">="])
  | _ => False
  end.

Definition spelling (t : Token) : pystr :=
  match token_type t with STRING => quote :: value t ++ [quote] | _ => value t end.

(** The texts with a space after each. *)
Definition render (ts : list Token) : pystr := concat ((λ t, spelling t ++ [32]) <$> ts).

Lemma word_char_cases c : word_char c = true →
  c ∉ SINGLE_CHAR_TOKENS ∧ c ∉ [32; 9; 13] ∧ c ≠ newline ∧ c ≠ quote ∧ c ≠ double_quote ∧ c ≠ hyphen ∧ c ≠ slash ∧ c ≠ dot.
Proof.
  unfold word_char, ascii_alnum, ascii_alpha, is_digit, underscore, newline, quote, double_quote, hyphen, slash, dot.
  intros H. split_and!; try lia; intros Hin; unfold SINGLE_CHAR_TOKENS in Hin; vm_compute in Hin;
    repeat (apply elem_of_cons in Hin as [->|Hin]; [vm_compute in H; discriminate H|]); by apply not_elem_of_nil in Hin.
Qed.

Lemma prefix_length_app p v c rest :
  Forall (λ c, p c = true) v → p c = false → prefix_length p (v ++ c :: rest) = length v.
Proof. intros Hv Hc. induction Hv as [|a v Ha _ IH]; cbn; [by rewrite Hc|]. by rewrite Ha, IH. Qed.

Lemma number_length_digits b a rest :
  Forall (λ c, is_digit c = true) a →
  number_length b (a ++ rest) = (length a + number_length b rest)%nat.
Proof.
  induction 1 as [|c a Hc _ IH]; [done|]. cbn [app number_length length].
  assert (c =? dot = false) as -> by (unfold is_digit, dot in *; lia). by rewrite Hc, IH.
Qed.

Lemma string_length_plain v rest :
  quote ∉ v → backslash ∉ v → string_length quote (v ++ quote :: rest) = length v.
Proof.
  induction v as [|c v IH]; intros Hq Hb; [done|]. apply not_elem_of_cons in Hq as [? ?], Hb as [? ?].
  cbn [app string_length length]. replace (c =? quote) with false by lia. replace (c =? backslash) with false by lia.
  by rewrite IH.
Qed.

(** A text and the space after it. *)
Lemma scan_word v a s rest :
  word v → head v = Some a → source s = v ++ 32 :: rest →
  scan a s = Ok (advance (length v) s, Some match keyword_of (upper v) with
                                            | Some k => plain KEYWORD v (Some k)
                                            | None => plain IDENTIFIER v None
                                            end).
Proof.
  intros [Hv (b & Hb & Hi)] Ha Hs. rewrite Ha in Hb. injection Hb as <-.
  assert (word_char a = true) as Hw.
  { destruct v as [|a' v]; [done|]. injection Ha as ->. by apply Forall_cons in Hv as [? _]. }
  destruct (word_char_cases a Hw) as (H1 & H2 & H3 & H4 & H5 & H6 & H7 & H8).
  unfold scan. rewrite (bool_decide_eq_false_2 (a ∈ [32; 9; 13])) by done.
  replace (a =? newline) with false by lia. replace (a =? hyphen) with false by lia.
  replace (a =? slash) with false by lia. cbn [andb].
  rewrite (bool_decide_eq_false_2 (a ∈ SINGLE_CHAR_TOKENS)) by done.
  replace (a =? quote) with false by lia. replace (a =? double_quote) with false by lia.
  replace (a =? dot) with false by lia. cbn [andb orb]. rewrite orb_false_r.
  replace (is_digit a) with false by (unfold ascii_alpha, is_digit, underscore in *; lia).
  rewrite Hi. unfold read_identifier. rewrite Hs, prefix_length_app by done. by rewrite take_app_length.
Qed.

Lemma scan_number v c a s rest :
  is_digit c = true → Forall (λ c, is_digit c = true) a →
  (v = c :: a ∨ ∃ b, Forall (λ c, is_digit c = true) b ∧ v = c :: a ++ dot :: b) →
  source s = v ++ 32 :: rest → scan c s = Ok (advance (length v) s, Some (plain NUMBER v None)).
Proof.
  intros Hc Ha Hv Hs.
  assert (number_length false (v ++ 32 :: rest) = length v) as Hn.
  { assert (Forall (λ c, is_digit c = true) (c :: a)) as Hca by by constructor.
    destruct Hv as [->|(b & Hb & ->)].
    - rewrite number_length_digits by done. cbn [number_length]. change (32 =? dot) with false. cbn. lia.
    - change (c :: a ++ dot :: b) with ((c :: a) ++ dot :: b). rewrite <-app_assoc, number_length_digits by done.
      cbn [app number_length]. change (dot =? dot) with true. cbn iota.
      rewrite number_length_digits by done. cbn [number_length]. change (32 =? dot) with false.
      cbn [length]. rewrite length_app. change (is_digit 32) with false. cbn [length]. lia. }
  assert (word_char c = true) as Hw by (unfold word_char, ascii_alnum; rewrite Hc; by rewrite orb_true_r).
  destruct (word_char_cases c Hw) as (H1 & H2 & H3 & H4 & H5 & H6 & H7 & H8).
  unfold scan. rewrite (bool_decide_eq_false_2 (c ∈ [32; 9; 13])) by done.
  replace (c =? newline) with false by lia. replace (c =? hyphen) with false by lia.
  replace (c =? slash) with false by lia. cbn [andb].
  rewrite (bool_decide_eq_false_2 (c ∈ SINGLE_CHAR_TOKENS)) by done.
  rewrite Hc. cbn [orb]. unfold read_number. by rewrite Hs, Hn, take_app_length.
Qed.

Lemma scan_string v s rest :
  quote ∉ v → backslash ∉ v → source s = quote :: v ++ quote :: 32 :: rest →
  scan quote s = Ok (advance 1 (advance (length v) (advance 1 s)), Some (plain STRING v None)).
Proof.
  intros Hq Hb Hs. change (scan quote s) with (Ok ((read_string quote s).1, Some (read_string quote s).2)).
  unfold read_string. change (source (advance 1 s)) with (drop 1 (source s)). rewrite Hs. cbn [drop]. rewrite !drop_0.
  rewrite string_length_plain by done. by rewrite take_app_length.
Qed.

Lemma scan_operator v a s rest :
  (∃ c, c ∈ SINGLE_CHAR_TOKENS ∧ v = [c]) ∨ v ∈ [str "<="; str ">="] →
  head v = Some a → source s = v ++ 32 :: rest →
  ∃ t, scan a s = Ok (advance (length v) s, Some t) ∧ erase t = plain OPERATOR v None.
Proof.
  intros Hv Ha Hs.
  assert (∀ w, erase (make_token OPERATOR w s) = plain OPERATOR w None) as He by done.
  assert (∀ c, a ∈ SINGLE_CHAR_TOKENS → a ∉ [32; 9; 13] → a ≠ newline → peek 1 s = Some c → c ≠ hyphen → c ≠ star →
    scan a s = Ok ((read_operator a s).1, Some (read_operator a s).2)) as Hscan.
  { intros c H1 H2 H3 Hc H4 H5. unfold scan. rewrite (bool_decide_eq_false_2 (a ∈ [32; 9; 13])) by done.
    replace (a =? newline) with false by lia. rewrite Hc.
    rewrite !(bool_decide_eq_false_2 (Some c = Some _)) by congruence. rewrite !andb_false_r.
    by rewrite (bool_decide_eq_true_2 (a ∈ SINGLE_CHAR_TOKENS)). }
  destruct Hv as [(c & Hc & ->)|Hv].
  - injection Ha as ->. assert (peek 1 s = Some 32) as Hp by (unfold peek; by rewrite Hs).
    assert (a ∉ [32; 9; 13] ∧ a ≠ newline) as [H2 H3].
    { assert (bool_decide (a ∉ [32; 9; 13] ∧ a ≠ newline) = true) as Hb; [|by apply bool_decide_eq_true in Hb].
      revert a Hc Hs Hscan. assert (forallb (λ a, bool_decide (a ∉ [32; 9; 13] ∧ a ≠ newline)) SINGLE_CHAR_TOKENS = true)
        as Hf by (by vm_compute). intros a Hc _ _. rewrite forallb_forall in Hf. apply Hf. by apply list_elem_of_In. }
    rewrite (Hscan 32) by done. unfold read_operator. rewrite Hp.
    rewrite !(bool_decide_eq_false_2 (Some 32 = Some 61)) by done. rewrite !andb_false_r. eexists. split; [done|apply He].
  - assert (v = str "<=" ∨ v = str ">=") as [->| ->] by set_solver; injection Ha as <-;
      assert (peek 1 s = Some 61) as Hp by (unfold peek; by rewrite Hs);
      rewrite (Hscan 61) by (done || set_solver); unfold read_operator; rewrite Hp;
      (eexists; split; [done|apply He]).
Qed.

Lemma scan_lexeme t s rest :
  lexeme t → source s = spelling t ++ 32 :: rest →
  ∃ char s' t', head (spelling t) = Some char ∧ scan char s = Ok (s', Some t') ∧
    source s' = 32 :: rest ∧ erase t' = erase t.
Proof.
  destruct t as [ty v k l c]. unfold lexeme, spelling. cbn [token_type value keyword]. intros Hl Hs.
  assert (source s = v ++ 32 :: rest → drop (length v) (source s) = 32 :: rest) as Hcut.
  { intros ->. by rewrite drop_app_length. }
  destruct ty; try done.
  - destruct Hl as (Hv & [k' ->] & Hk). pose proof Hv as [_ (a & Ha & _)].
    exists a. eexists _, _. split_and!; [done|by apply (scan_word v a s rest)|by apply Hcut|by rewrite Hk].
  - destruct Hl as (Hv & Hk & ->). pose proof Hv as [_ (a & Ha & _)].
    exists a. eexists _, _. split_and!; [done|by apply (scan_word v a s rest)|by apply Hcut|by rewrite Hk].
  - destruct Hl as (-> & a & d & Ha & Hd & Hv).
    exists a. eexists _, _. split_and!; [by destruct Hv as [->|(b & _ & ->)]|by apply (scan_number v a d s rest)|by apply Hcut|done].
  - destruct Hl as (-> & Hq & Hb). exists quote. eexists _, _.
    split_and!; [done|apply (scan_string v s rest); [done..|by rewrite Hs; cbn; rewrite <-app_assoc]| |done].
    change (drop 1 (drop (length v) (drop 1 (source s))) = 32 :: rest). rewrite Hs. cbn [app drop].
    by rewrite drop_0, <-app_assoc, drop_app_length.
  - destruct Hl as (-> & Hv).
    assert (is_Some (head v)) as [a Ha] by (destruct Hv as [(a & _ & ->)|Hv]; [by eexists|set_unfold in Hv; destruct Hv as [->|[->|?]]; [by eexists..|done]]).
    destruct (scan_operator v a s rest) as (t' & E & He); [done..|].
    exists a. eexists _, _. split_and!; [done|done|by apply Hcut|done].
Qed.
Lemma render_cons t ts : render (t :: ts) = spelling t ++ 32 :: render ts.
Proof. unfold render. cbn. by rewrite <-app_assoc. Qed.

Lemma tokenize_loop_render fuel ts s :
  Forall lexeme ts → source s = render ts → (length (source s) < fuel)%nat →
  ∃ ts' l c, tokenize_loop fuel s = Some (Ok (ts' ++ [mk_token EOF [] None l c])) ∧ erase <$> ts' = erase <$> ts.
Proof.
  revert fuel s. induction ts as [|t ts IH]; intros fuel s Hts Hs Hf; (destruct fuel as [|fuel]; [lia|]).
  { exists [], (line s), (column s). cbn [tokenize_loop]. by rewrite Hs. }
  apply Forall_cons in Hts as [Ht Hts]. rewrite render_cons in Hs.
  destruct (scan_lexeme t s (render ts) Ht Hs) as (char & s1 & t' & Hh & Hscan & Hs1 & He).
  assert (source s = char :: tail (source s)) as Hc by (rewrite Hs; destruct (spelling t); [done|by injection Hh as ->]).
  pose proof (scan_progress _ _ _ _ _ Hc Hscan) as Hp. destruct fuel as [|fuel]; [lia|].
  assert (source (advance 1 s1) = render ts) as Hs2 by (cbn; by rewrite Hs1).
  destruct (IH fuel (advance 1 s1) Hts Hs2) as (ts' & l & c & E & Hts').
  { rewrite Hs2. rewrite Hs1 in Hp. cbn [length] in Hp. lia. }
  exists (t' :: ts'), l, c. split; [|cbn; by rewrite He, Hts'].
  remember (S fuel) as fuel1 eqn:Hfuel. cbn [tokenize_loop]. rewrite Hc, Hscan. subst fuel1. cbn [tokenize_loop].
  rewrite Hs1. change (scan 32 s1) with (Ok (advance 1 s1, @None Token)). cbv iota. by rewrite E.
Qed.

(** The lexer reads back what is written: on the texts of any tokens, each followed
    by a space, it ends with these tokens and an EOF token. *)
Theorem sql_tokenize_render ts :
  Forall lexeme ts →
  ∃ ts' l c, tokenize (render ts) = Some (Ok (ts' ++ [mk_token EOF [] None l c])) ∧ erase <$> ts' = erase <$> ts.
Proof. intros Hts. apply tokenize_loop_render; [done..|]. cbn. lia. Qed.

Lemma sql_tokenize_render_witness :
  let ts := [plain KEYWORD (str "Select") (Some Keyword.SELECT); plain IDENTIFIER (str "a_1") None;
             plain OPERATOR (str "<=") None; plain NUMBER (str "1.5") None; plain STRING (str "x y") None] in
  Forall lexeme ts ∧
  ∃ ts' l c, tokenize (render ts) = Some (Ok (ts' ++ [mk_token EOF [] None l c])) ∧ erase <$> ts' = erase <$> ts.
Proof.
  intros ts. assert (Forall lexeme ts) as Hts.
  { unfold ts. repeat apply Forall_cons_2; [..|by apply Forall_nil]; unfold lexeme; cbn [token_type plain].
    - split_and!; [split; [by repeat constructor|by exists 83]|by eexists|by vm_compute].
    - split_and!; [split; [by repeat constructor|by exists 97]|by vm_compute|done].
    - split; [done|right; left].
    - split; [done|]. exists 49, []. split_and!; [done|by constructor|right]. exists [53]. by split; [repeat constructor|].
    - split_and!; [done|apply (bool_decide_unpack _); by vm_compute..]. }
  split; [exact Hts|]. apply sql_tokenize_render. exact Hts.
Defined.
End SQLLexerFacts.
