(* ===== verification/SqlParser.v ===== *)
(** The SQL parser: database/src/sql/parser.py, the syntax tree and [Parser].

    A parser takes the tokens that are left; the code's position only moves forward.
    Recursion and loops carry fuel: [None] is a parser that has not ended. The
    methods that call one another through [_parse_expression] and [_parse_select] take
    these two as parameters; the knot is tied in [parse_expression].

    The recursion limit of Python is not modelled. *)

From Stdlib Require Import String.
From S2P Require Import Prelude Bytes Utf8 Str PyNum SqlLexer.

Open Scope string_scope.
Open Scope list_scope.
Open Scope Z_scope.

(** * The syntax tree *)

Inductive literal := LNone | LBool (b : bool) | LInt (z : Z) | LFloat (bits : Z) | LStr (s : pystr).

Inductive Direction := ASC | DESC.

Inductive Expression :=
  | LiteralExpression (value : literal)
  | ColumnExpression (name : pystr) (table_name : option pystr)
  | BinaryExpression (operator : pystr) (lhs rhs : Expression)
  | UnaryExpression (operator : pystr) (operand : Expression)
  | FunctionCall (name : pystr) (args : list Expression) (distinct : bool)
  | BetweenExpression (expr low high : Expression)
  | InExpression (expr : Expression) (values : list Expression)
  | LikeExpression (expr pattern : Expression)
  | CaseExpression (conditions results : list Expression) (else_result : option Expression)
  | StarExpression (table_name : option pystr)
  | SubqueryExpression (statement : SelectStatement)
with SelectStatement :=
  | Select (columns : list Expression) (from_table from_alias : option pystr) (joins : list JoinClause)
      (where_clause : option Expression) (group_by : list Expression) (having : option Expression)
      (order_by : list OrderByItem) (limit offset : option Z) (distinct : bool)
with JoinClause :=
  | Join (join_type : pystr) (table_name : pystr) (table_alias : option pystr) (on_condition : option Expression)
with OrderByItem :=
  | OrderBy (expression : Expression) (direction : Direction).

Record ColumnDef := mk_column_def {
  name : pystr;
  data_type : pystr;
  nullable : bool;
  primary_key : bool;
  unique : bool;
  default_value : option literal;
}.

Inductive ObjectType := TABLE | DATABASE | INDEX.

Inductive Statement :=
  | SelectStmt (s : SelectStatement)
  | InsertStatement (table_name : pystr) (columns : list pystr) (values : list (list Expression))
  | CreateStatement (object_type : ObjectType) (name : pystr) (columns : list ColumnDef) (if_not_exists : bool)
  | DropStatement (object_type : ObjectType) (name : pystr) (if_exists : bool)
  | DeleteStatement (table_name : pystr) (where_clause : option Expression)
  | UpdateStatement (table_name : pystr) (set_clauses : list (pystr * Expression)) (where_clause : option Expression)
  | AddColumn (table_name : pystr) (column : ColumnDef)
  | DropColumn (table_name : pystr) (column_name : pystr)
  | UseStatement (database_name : pystr)
  | ShowStatement (object_type : pystr)
  | TransactionStatement (action : pystr)
  | ExplainStatement (statement : Statement).

(** * Parsers *)

Definition P (A : Type) : Type := list Token → option (res (A * list Token)).

Definition p_ret {A} (a : A) : P A := λ ts, Some (Ok (a, ts)).
Definition p_raise {A} (e : exn) : P A := λ _, Some (Err e).
Definition p_bind {A B} (p : P A) (q : A → P B) : P B := λ ts,
  match p ts with
  | None => None
  | Some (Err e) => Some (Err e)
  | Some (Ok (a, ts')) => q a ts'
  end.
(** A parser that has run out of fuel. *)
Definition p_out {A} : P A := λ _, None.

Declare Scope parser_scope.
Delimit Scope parser_scope with parser.
Notation "'let%' x := p 'in' q" := (p_bind p (λ x, q))
  (at level 10, x pattern, p at level 100, q at level 200) : parser_scope.
Open Scope parser_scope.

(** [_peek()]; past the end it is an EOF token. *)
Definition eof_token : Token := mk_token EOF [] None 0 0.
Definition peek (ts : list Token) : Token := match ts with t :: _ => t | [] => eof_token end.
Definition p_peek : P Token := λ ts, Some (Ok (peek ts, ts)).

(** [_advance()]; past the end it raises [IndexError]. *)
Definition p_advance : P Token := λ ts,
  match ts with
  | t :: ts' => Some (Ok (t, ts'))
  | [] => Some (Err IndexError)
  end.

(** [self._peek().token_type == ty and self._peek().value == v]. *)
Definition is_token (ty : TokenType) (v : string) (t : Token) : bool :=
  bool_decide (token_type t = ty) && bool_decide (value t = str v).
Definition is_keyword (k : Keyword.t) (t : Token) : bool :=
  bool_decide (token_type t = KEYWORD) && bool_decide (keyword t = Some k).
Definition among_keywords (ks : list Keyword.t) (t : Token) : bool := existsb (λ k, is_keyword k t) ks.

Definition expect (ty : TokenType) : P Token :=
  let% t := p_peek in
  if bool_decide (token_type t = ty) then p_advance else p_raise SyntaxError.
Definition expect_value (ty : TokenType) (v : string) : P Token :=
  let% t := p_peek in
  if bool_decide (token_type t = ty) && bool_decide (upper (value t) = upper (str v)) then p_advance
  else p_raise SyntaxError.
Definition expect_keyword (k : Keyword.t) : P Token :=
  let% t := p_peek in if is_keyword k t then p_advance else p_raise SyntaxError.
Definition maybe_keyword (k : Keyword.t) : P bool :=
  let% t := p_peek in if is_keyword k t then let% _ := p_advance in p_ret true else p_ret false.
(** [self._expect(TokenType.IDENTIFIER).value]. *)
Definition expect_name : P pystr := let% t := expect IDENTIFIER in p_ret (value t).

Definition comma : Token → bool := is_token PUNCTUATION ",".
Definition lparen : Token → bool := is_token PUNCTUATION "(".
Definition rparen : Token → bool := is_token PUNCTUATION ")".

(** [while cond(self._peek()): a = body(a)]. *)
Fixpoint p_while {A} (n : nat) (cond : Token → bool) (body : A → P A) (a : A) : P A :=
  match n with
  | O => p_out
  | S n' =>
      let% t := p_peek in
      if cond t then let% a := body a in p_while n' cond body a else p_ret a
  end.

(** [while True: a = body(a); if the next token is a comma: advance, else: break]. *)
Fixpoint p_items {A} (n : nat) (body : A → P A) (a : A) : P A :=
  match n with
  | O => p_out
  | S n' =>
      let% a := body a in
      let% t := p_peek in
      if comma t then let% _ := p_advance in p_items n' body a else p_ret a
  end.

(** An item, and then the items after commas. *)
Definition p_list {A} (n : nat) (item : P A) : P (list A) :=
  let% x := item in
  p_while n comma (λ l, let% _ := p_advance in let% x := item in p_ret (l ++ [x])) [x].

(** A clause that begins with a keyword. *)
Definition clause {A} (k : Keyword.t) (p : P A) : P (option A) :=
  let% b := maybe_keyword k in
  if b : bool then let% x := p in p_ret (Some x) else p_ret None.

(** [int(text)]. *)
Definition p_int (s : pystr) : P Z :=
  match py_int s with Some z => p_ret z | None => p_raise ValueError end.

(** A NUMBER token is what the lexer makes: digits, with one point at most. *)
Definition parse_literal : P literal :=
  let% t := p_peek in
  match token_type t with
  | NUMBER =>
      let% _ := p_advance in
      if bool_decide (dot ∈ value t) then p_ret (LFloat (float_of_decimal (value t)))
      else let% z := p_int (value t) in p_ret (LInt z)
  | STRING => let% _ := p_advance in p_ret (LStr (value t))
  | KEYWORD =>
      match keyword t with
      | Some Keyword.TRUE => let% _ := p_advance in p_ret (LBool true)
      | Some Keyword.FALSE => let% _ := p_advance in p_ret (LBool false)
      | Some Keyword.NULL => let% _ := p_advance in p_ret LNone
      | _ => p_raise SyntaxError
      end
  | _ => p_raise SyntaxError
  end.

(** * Expressions *)

Section Expressions.
(** The fuel of the loops, and the two methods everything is built from. *)
Variable n : nat.
Variable expression : P Expression.
Variable select : P SelectStatement.

Definition parse_function_call (name : option pystr) : P Expression :=
  let% name := match name with
               | Some s => p_ret s
               | None => let% t := p_advance in p_ret (upper (value t))
               end in
  let% _ := expect_value PUNCTUATION "(" in
  let% distinct := maybe_keyword Keyword.DISTINCT in
  let% t := p_peek in
  let% args := (if rparen t then p_ret [] else p_list n expression) in
  let% _ := expect_value PUNCTUATION ")" in
  p_ret (FunctionCall name args distinct).

Definition parse_case : P Expression :=
  let% _ := p_advance in
  let% (conditions, results) :=
    p_while n (is_keyword Keyword.WHEN)
      (λ acc, let% _ := p_advance in
              let% c := expression in
              let% _ := expect_keyword Keyword.THEN in
              let% r := expression in
              p_ret (fst acc ++ [c], snd acc ++ [r])) ([], []) in
  let% else_result := clause Keyword.ELSE expression in
  let% _ := expect_keyword Keyword.END in
  p_ret (CaseExpression conditions results else_result).

Definition parse_exists : P Expression :=
  let% _ := p_advance in
  let% _ := expect_value PUNCTUATION "(" in
  let% stmt := select in
  let% _ := expect_value PUNCTUATION ")" in
  p_ret (SubqueryExpression stmt).

(** A name: a call, a column of a table, or a column. *)
Definition parse_name : P Expression :=
  let% t := p_advance in
  let% u := p_peek in
  if lparen u then parse_function_call (Some (value t))
  else if is_token PUNCTUATION "." u then
    let% _ := p_advance in
    let% v := p_peek in
    if is_token OPERATOR "*" v then let% _ := p_advance in p_ret (StarExpression (Some (value t)))
    else let% col := expect_name in p_ret (ColumnExpression col (Some (value t)))
  else p_ret (ColumnExpression (value t) None).

Definition parse_primary : P Expression :=
  let% t := p_peek in
  let literal := let% v := parse_literal in p_ret (LiteralExpression v) in
  if bool_decide (token_type t ∈ [NUMBER; STRING]) then literal
  else if among_keywords [Keyword.TRUE; Keyword.FALSE; Keyword.NULL] t then literal
  else if among_keywords [Keyword.COUNT; Keyword.SUM; Keyword.AVG; Keyword.MIN; Keyword.MAX] t
  then parse_function_call None
  else if is_keyword Keyword.CASE t then parse_case
  else if is_keyword Keyword.EXISTS t then parse_exists
  else if bool_decide (token_type t = IDENTIFIER) then parse_name
  else if is_token OPERATOR "*" t then let% _ := p_advance in p_ret (StarExpression None)
  else if lparen t then
    let% _ := p_advance in
    let% e := expression in
    let% _ := expect_value PUNCTUATION ")" in
    p_ret e
  else if is_keyword Keyword.SELECT t then let% s := select in p_ret (SubqueryExpression s)
  else p_raise SyntaxError.

Fixpoint parse_unary (n : nat) : P Expression :=
  match n with
  | O => p_out
  | S n' =>
      let% t := p_peek in
      if is_token OPERATOR "-" t then
        let% _ := p_advance in
        let% operand := parse_unary n' in
        p_ret (UnaryExpression (str "-") operand)
      else parse_primary
  end.

Definition is_operator (ops : list string) (t : Token) : bool := existsb (λ o, is_token OPERATOR o t) ops.

(** A chain of operators that associate to the left. *)
Definition parse_chain (ops : list string) (operand : P Expression) : P Expression :=
  let% lhs := operand in
  p_while n (is_operator ops)
    (λ lhs, let% op := p_advance in
             let% rhs := operand in
             p_ret (BinaryExpression (value op) lhs rhs)) lhs.

Definition parse_multiplication : P Expression := parse_chain ["*"; "/"] (parse_unary n).
Definition parse_addition : P Expression := parse_chain ["+"; "-"] parse_multiplication.

Definition comparison_operators : list string := ["="; "!="; "<"; ">"; "<="; ">="].

(** The rest of [IS]; a word other than [NULL] is left where it is. *)
Definition parse_is (left : Expression) : P Expression :=
  let% b := maybe_keyword Keyword.NOT in
  let% c := maybe_keyword Keyword.NULL in
  p_ret (if c : bool
         then BinaryExpression (str (if b : bool then "IS NOT" else "IS")) left (LiteralExpression LNone)
         else left).

Definition parse_comparison : P Expression :=
  let% lhs := parse_addition in
  let% t := p_peek in
  if is_operator comparison_operators t then
    let% op := p_advance in
    let% rhs := parse_addition in
    p_ret (BinaryExpression (value op) lhs rhs)
  else
    let% b := maybe_keyword Keyword.IN in
    if b : bool then
      let% _ := expect_value PUNCTUATION "(" in
      let% values := p_list n expression in
      let% _ := expect_value PUNCTUATION ")" in
      p_ret (InExpression lhs values)
    else
    let% b := maybe_keyword Keyword.LIKE in
    if b : bool then
      let% pattern := parse_addition in
      p_ret (LikeExpression lhs pattern)
    else
    let% b := maybe_keyword Keyword.BETWEEN in
    if b : bool then
      let% low := parse_addition in
      let% _ := expect_keyword Keyword.AND in
      let% high := parse_addition in
      p_ret (BetweenExpression lhs low high)
    else
    let% b := maybe_keyword Keyword.IS in
    if b : bool then parse_is lhs else p_ret lhs.

Fixpoint parse_not (n : nat) : P Expression :=
  match n with
  | O => p_out
  | S n' =>
      let% b := maybe_keyword Keyword.NOT in
      if b : bool then
        let% operand := parse_not n' in
        p_ret (UnaryExpression (str "NOT") operand)
      else parse_comparison
  end.

(** A chain of a keyword that associates to the left. *)
Definition parse_keyword_chain (k : Keyword.t) (operand : P Expression) : P Expression :=
  let% lhs := operand in
  p_while n (is_keyword k)
    (λ lhs, let% _ := p_advance in
             let% rhs := operand in
             p_ret (BinaryExpression (str (Keyword.value k)) lhs rhs)) lhs.

Definition parse_and : P Expression := parse_keyword_chain Keyword.AND (parse_not n).
Definition parse_or : P Expression := parse_keyword_chain Keyword.OR parse_and.

(** * SELECT *)

Definition parse_select_columns : P (list Expression) :=
  p_items n (λ columns,
    let% t := p_peek in
    if is_token OPERATOR "*" t then
      let% _ := p_advance in
      p_ret (columns ++ [StarExpression None])
    else
      let% e := expression in
      let% _ := clause Keyword.AS (expect IDENTIFIER) in
      p_ret (columns ++ [e])) [].

(** The words after a table name that are no alias; keywords never get here. *)
Definition no_alias : list string :=
  ["WHERE"; "JOIN"; "LEFT"; "RIGHT"; "INNER"; "OUTER"; "CROSS"; "FULL"; "ORDER"; "GROUP"; "LIMIT"; "HAVING"; "ON"].

Definition parse_from : P (option pystr * option pystr) :=
  let% b := maybe_keyword Keyword.FROM in
  if b : bool then
    let% table := expect_name in
    let% b := maybe_keyword Keyword.AS in
    if b : bool then let% alias := expect_name in p_ret (Some table, Some alias)
    else
      let% t := p_peek in
      if bool_decide (token_type t = IDENTIFIER) && negb (bool_decide (upper (value t) ∈ (str <$> no_alias)))
      then let% t := p_advance in p_ret (Some table, Some (value t))
      else p_ret (Some table, None)
  else p_ret (None, None).

Definition join_keywords : list Keyword.t :=
  [Keyword.JOIN; Keyword.LEFT; Keyword.RIGHT; Keyword.INNER; Keyword.OUTER; Keyword.CROSS; Keyword.FULL].

Definition has_keyword (ks : list Keyword.t) (t : Token) : bool :=
  existsb (λ k, bool_decide (keyword t = Some k)) ks.

Definition parse_join_type : P pystr :=
  let% t := p_peek in
  if has_keyword [Keyword.LEFT; Keyword.RIGHT; Keyword.FULL; Keyword.CROSS] t then
    let% t := p_advance in
    let% b := maybe_keyword Keyword.OUTER in
    if b : bool then p_ret (upper (value t))
    else let% _ := maybe_keyword Keyword.INNER in p_ret (upper (value t))
  else p_ret (str "INNER").

Definition parse_join : P JoinClause :=
  let% join_type := parse_join_type in
  let% _ := maybe_keyword Keyword.JOIN in
  let% table_name := expect_name in
  let% table_alias := clause Keyword.AS expect_name in
  let% on_condition := clause Keyword.ON expression in
  p_ret (Join join_type table_name table_alias on_condition).

Definition parse_order_by : P (list OrderByItem) :=
  p_items n (λ items,
    let% e := expression in
    let% b := maybe_keyword Keyword.DESC in
    if b : bool then p_ret (items ++ [OrderBy e DESC])
    else let% _ := maybe_keyword Keyword.ASC in p_ret (items ++ [OrderBy e ASC])) [].

(** [LIMIT] and [OFFSET]. *)
Definition parse_count (k : Keyword.t) : P (option Z) :=
  clause k (let% t := expect NUMBER in p_int (value t)).

(** [GROUP BY] and [ORDER BY]. *)
Definition by_clause {A} (k : Keyword.t) (p : P (list A)) : P (list A) :=
  let% l := clause k (let% _ := expect_keyword Keyword.BY in p) in p_ret (default [] l).

Definition parse_select : P SelectStatement :=
  let% _ := p_advance in
  let% distinct := maybe_keyword Keyword.DISTINCT in
  let% columns := parse_select_columns in
  let% (from_table, from_alias) := parse_from in
  let% joins := p_while n (among_keywords join_keywords)
                  (λ l, let% j := parse_join in p_ret (l ++ [j])) [] in
  let% where_clause := clause Keyword.WHERE expression in
  let% group_by := by_clause Keyword.GROUP (p_list n expression) in
  let% having := clause Keyword.HAVING expression in
  let% order_by := by_clause Keyword.ORDER parse_order_by in
  let% limit := parse_count Keyword.LIMIT in
  let% offset := parse_count Keyword.OFFSET in
  p_ret (Select columns from_table from_alias joins where_clause group_by having order_by limit offset distinct).
End Expressions.

Fixpoint parse_expression (n : nat) : P Expression :=
  match n with
  | O => p_out
  | S n' => let e := parse_expression n' in parse_or n e (parse_select n e)
  end.

(** * Statements *)

Section Statements.
Variable n : nat.
Variable expression : P Expression.
Variable select : P SelectStatement.

(** The names after commas, in parentheses. *)
Definition parse_names : P (list pystr) :=
  let% _ := p_advance in
  let% l := p_list n expect_name in
  let% _ := expect_value PUNCTUATION ")" in
  p_ret l.

Definition parse_insert : P Statement :=
  let% _ := p_advance in
  let% _ := expect_keyword Keyword.INTO in
  let% table_name := expect_name in
  let% t := p_peek in
  let% columns := (if lparen t then parse_names else p_ret []) in
  let% _ := expect_keyword Keyword.VALUES in
  let% values :=
    p_items n (λ values,
      let% _ := expect_value PUNCTUATION "(" in
      let% row := p_list n expression in
      let% _ := expect_value PUNCTUATION ")" in
      p_ret (values ++ [row])) [] in
  p_ret (InsertStatement table_name columns values).

(** [self._maybe_keyword(k1) and self._maybe_keyword(k2)]. *)
Definition both_keywords (k1 k2 : Keyword.t) : P bool :=
  let% b := maybe_keyword k1 in if b : bool then maybe_keyword k2 else p_ret false.

(** The properties of a column so far: nullable, primary key, unique, default. *)
Definition attributes : Type := bool * bool * bool * option literal.

(** The loop over the properties of a column, up to a comma or a parenthesis. *)
Fixpoint parse_attributes (n : nat) (a : attributes) : P attributes :=
  match n with
  | O => p_out
  | S n' =>
      let '(nullable, primary, unique, default) := a in
      let% t := p_peek in
      if rparen t || comma t then p_ret a
      else if bool_decide (token_type t = EOF) then p_ret a
      else
        let% b := maybe_keyword Keyword.NOT in
        if b : bool then
          let% c := maybe_keyword Keyword.NULL in
          if c : bool then parse_attributes n' (false, primary, unique, default)
          else let% _ := maybe_keyword Keyword.EXISTS in parse_attributes n' a
        else
        let% b := maybe_keyword Keyword.PRIMARY in
        if b : bool then
          let% _ := expect_keyword Keyword.KEY in
          parse_attributes n' (nullable, true, unique, default)
        else
        let% b := maybe_keyword Keyword.UNIQUE in
        if b : bool then parse_attributes n' (nullable, primary, true, default)
        else
        let% b := maybe_keyword Keyword.DEFAULT in
        if b : bool then
          let% v := parse_literal in
          parse_attributes n' (nullable, primary, unique, Some v)
        else
        let% b := maybe_keyword Keyword.NULL in
        if b : bool then parse_attributes n' (true, primary, unique, default)
        else p_ret a
  end.

(** A column; the type [X] may be written [NOT X]. *)
Definition parse_column_def : P ColumnDef :=
  let% name := expect_name in
  let% t := p_advance in
  let% t := (if is_keyword Keyword.NOT t then p_advance else p_ret t) in
  let% u := p_peek in
  let% data_type :=
    (if lparen u then
       let% _ := p_advance in
       let% param := expect NUMBER in
       let% _ := expect_value PUNCTUATION ")" in
       p_ret (upper (value t) ++ str "(" ++ value param ++ str ")")
     else p_ret (upper (value t))) in
  let% (nullable, primary, unique, default) := parse_attributes n (true, false, false, None) in
  p_ret (mk_column_def name data_type nullable primary unique default).

(** A keyword first is compared with [Keyword.FOREIGN], which does not exist: table
    constraints are never parsed. *)
Definition parse_column_defs : P (list ColumnDef) :=
  p_items n (λ columns,
    let% t := p_peek in
    if bool_decide (token_type t = KEYWORD) then p_raise AttributeError
    else let% c := parse_column_def in p_ret (columns ++ [c])) [].

Definition parse_create : P Statement :=
  let% _ := p_advance in
  let% b := maybe_keyword Keyword.TABLE in
  if b : bool then
    let% if_not_exists := both_keywords Keyword.NOT Keyword.EXISTS in
    let% name := expect_name in
    let% t := p_peek in
    let% columns :=
      (if lparen t then
         let% _ := p_advance in
         let% cs := parse_column_defs in
         let% _ := expect_value PUNCTUATION ")" in
         p_ret cs
       else p_ret []) in
    p_ret (CreateStatement TABLE name columns if_not_exists)
  else
  let% b := maybe_keyword Keyword.DATABASE in
  if b : bool then
    let% if_not_exists := both_keywords Keyword.NOT Keyword.EXISTS in
    let% name := expect_name in
    p_ret (CreateStatement DATABASE name [] if_not_exists)
  else
  let% b := maybe_keyword Keyword.INDEX in
  if b : bool then
    let% name := expect_name in
    let% _ := expect_keyword Keyword.ON in
    let% _ := expect_name in
    let% _ := expect_value PUNCTUATION "(" in
    let% _ := p_list n expect_name in
    let% _ := expect_value PUNCTUATION ")" in
    p_ret (CreateStatement INDEX name [] false)
  else p_raise SyntaxError.

(** [Keyword.IF] does not exist: after [TABLE] or [DATABASE] nothing is parsed. *)
Definition parse_drop : P Statement :=
  let% _ := p_advance in
  let% b := maybe_keyword Keyword.TABLE in
  if b : bool then p_raise AttributeError
  else
  let% b := maybe_keyword Keyword.DATABASE in
  if b : bool then p_raise AttributeError else p_raise SyntaxError.

Definition parse_delete : P Statement :=
  let% _ := p_advance in
  let% _ := expect_keyword Keyword.FROM in
  let% table_name := expect_name in
  let% where_clause := clause Keyword.WHERE expression in
  p_ret (DeleteStatement table_name where_clause).

Definition parse_update : P Statement :=
  let% _ := p_advance in
  let% table_name := expect_name in
  let% _ := expect_keyword Keyword.SET in
  let% set_clauses :=
    p_items n (λ l,
      let% col_name := expect_name in
      let% _ := expect_value OPERATOR "=" in
      let% value := expression in
      p_ret (l ++ [(col_name, value)])) [] in
  let% where_clause := clause Keyword.WHERE expression in
  p_ret (UpdateStatement table_name set_clauses where_clause).

Definition parse_alter : P Statement :=
  let% _ := p_advance in
  let% _ := expect_keyword Keyword.TABLE in
  let% table_name := expect_name in
  let% b := maybe_keyword Keyword.ADD in
  if b : bool then
    let% _ := maybe_keyword Keyword.COLUMN in
    let% cols := parse_column_defs in
    match cols with
    | col :: _ => p_ret (AddColumn table_name col)
    | [] => p_raise IndexError
    end
  else
  let% b := maybe_keyword Keyword.DROP in
  if b : bool then
    let% _ := maybe_keyword Keyword.COLUMN in
    let% col_name := expect_name in
    p_ret (DropColumn table_name col_name)
  else p_raise SyntaxError.

Definition parse_use : P Statement :=
  let% _ := p_advance in
  let% db_name := expect_name in
  p_ret (UseStatement db_name).

(** [Keyword.DATABASES] does not exist. *)
Definition parse_show : P Statement := let% _ := p_advance in p_raise AttributeError.

Definition parse_transaction : P Statement :=
  let% t := p_advance in
  let% _ := maybe_keyword Keyword.TRANSACTION in
  p_ret (TransactionStatement (upper (value t))).

(** [parse], given itself for [EXPLAIN]. *)
Definition parse_statement (self : P Statement) : P Statement :=
  let% t := p_peek in
  if bool_decide (token_type t = KEYWORD) then
    match keyword t with
    | Some Keyword.SELECT => let% s := select in p_ret (SelectStmt s)
    | Some Keyword.INSERT => parse_insert
    | Some Keyword.CREATE => parse_create
    | Some Keyword.DROP => parse_drop
    | Some Keyword.DELETE => parse_delete
    | Some Keyword.UPDATE => parse_update
    | Some Keyword.ALTER => parse_alter
    | Some Keyword.USE => parse_use
    | Some Keyword.SHOW => parse_show
    | Some (Keyword.BEGIN | Keyword.COMMIT | Keyword.ROLLBACK) => parse_transaction
    | Some Keyword.EXPLAIN => let% _ := p_advance in let% s := self in p_ret (ExplainStatement s)
    | Some _ => p_raise SyntaxError
    | None => p_raise AttributeError
    end
  else p_raise SyntaxError.
End Statements.

Fixpoint parse_fuel (n : nat) : P Statement :=
  match n with
  | O => p_out
  | S n' => parse_statement n (parse_expression n) (parse_select n (parse_expression n)) (parse_fuel n')
  end.

(** [Parser(tokens).parse()]: the tokens after the statement are not looked at. *)
Definition parse (ts : list Token) : option (res (Statement * list Token)) :=
  parse_fuel (S (length ts)) ts.

Definition parse_sql (sql : pystr) : option (res Statement) :=
  match SQLLexer.tokenize sql with
  | None => None
  | Some (Err e) => Some (Err e)
  | Some (Ok ts) =>
      match parse ts with
      | None => None
      | Some (Err e) => Some (Err e)
      | Some (Ok (s, _)) => Some (Ok s)
      end
  end.

Example parse_where :
  parse_sql (str "SELECT name FROM people WHERE age >= 18 AND NOT city = 'Roma'") =
  Some (Ok (SelectStmt (Select [ColumnExpression (str "name") None] (Some (str "people")) None []
    (Some (BinaryExpression (str "AND")
       (BinaryExpression (str ">=") (ColumnExpression (str "age") None) (LiteralExpression (LInt 18)))
       (UnaryExpression (str "NOT")
          (BinaryExpression (str "=") (ColumnExpression (str "city") None) (LiteralExpression (LStr (str "Roma")))))))
    [] None [] None None false))).
Proof. vm_compute. reflexivity. Qed.

(** A comma is no punctuation for the lexer: the second column and the table are lost. *)
Example parse_columns :
  parse_sql (str "SELECT a, b FROM t") =
  Some (Ok (SelectStmt (Select [ColumnExpression (str "a") None] None None [] None [] None [] None None false))).
Proof. vm_compute. reflexivity. Qed.
Example parse_insert_text : parse_sql (str "INSERT INTO t VALUES (1)") = Some (Err SyntaxError).
Proof. vm_compute. reflexivity. Qed.
Example parse_not_equal : parse_sql (str "SELECT a FROM t WHERE a != 1") = Some (Err SyntaxError).
Proof. vm_compute. reflexivity. Qed.
