(* ===== verification/SqlParserTotal.v ===== *)
(** The SQL parser ends on every list of tokens: a bound on its fuel, and that more fuel
    gives the same result. *)

From Stdlib Require Import String.
From S2P Require Import Prelude Bytes Utf8 Str PyNum SqlLexer SqlParser.

Open Scope string_scope.
Open Scope list_scope.
Open Scope nat_scope.

(** [p] and [p'] are a parser with some fuel and with more. What [p] gives [p'] gives;
    [p] ends on fewer than [n - d] tokens; it takes at least [c] tokens off the front. *)
Definition good {A} (n d c : nat) (p p' : P A) : Prop := ∀ ts,
  (∀ r, p ts = Some r → p' ts = Some r) ∧
  (length ts + d ≤ n → is_Some (p ts)) ∧
  (∀ a ts', p ts = Some (Ok (a, ts')) → ∃ l, ts = l ++ ts' ∧ c ≤ length l).

Lemma good_weaken {A} n d d' c c' (p p' : P A) :
  good n d c p p' → d ≤ d' → c' ≤ c → good n d' c' p p'.
Proof.
  intros H Hd Hc ts. destruct (H ts) as (H1 & H2 & H3). split_and!; [done| |].
  - intros. apply H2. lia.
  - intros a ts' E. destruct (H3 a ts' E) as (l & -> & ?). exists l. split; [done|lia].
Qed.

Lemma good_out {A} n d c (p : P A) : n < d → good n d c p_out p.
Proof. intros Hn ts. split_and!; [done|lia|done]. Qed.

Lemma good_ret {A} n d (a : A) : good n d 0 (p_ret a) (p_ret a).
Proof. intros ts. split_and!; [done|by eexists|]. intros ? ? [= <- <-]. by exists []. Qed.

Lemma good_raise {A} n d c e : good (A:=A) n d c (p_raise e) (p_raise e).
Proof. intros ts. split_and!; [done|by eexists|done]. Qed.

Lemma good_peek n d : good n d 0 p_peek p_peek.
Proof. intros ts. split_and!; [done|by eexists|]. intros ? ? [= <- <-]. by exists []. Qed.

Lemma good_advance n d : good n d 1 p_advance p_advance.
Proof. intros [|t ts]; (split_and!; [done|by eexists|]); [done|]. intros ? ? [= <- <-]. by exists [t]. Qed.

(** After [p] has consumed [c] tokens its successor may need that many more. *)
Lemma good_bind {A B} n d c c' (p p' : P A) (q q' : A → P B) :
  good n d c p p' → (∀ a, good n (d + c) c' (q a) (q' a)) → good n d (c + c') (p_bind p q) (p_bind p' q').
Proof.
  intros Hp Hq ts. destruct (Hp ts) as (H1 & H2 & H3). unfold p_bind. split_and!.
  - intros r. destruct (p ts) as [[[a ts']|e]|]; [| |done]; rewrite (H1 _ eq_refl); [|done]. apply Hq.
  - intros Hn. destruct (H2 Hn) as [[[a ts']|e] E]; rewrite E in *; [|by eexists].
    destruct (Hq a ts') as (_ & H4 & _). apply H4. destruct (H3 _ _ eq_refl) as (l & -> & ?).
    rewrite length_app in Hn. lia.
  - intros b ts2. destruct (p ts) as [[[a ts']|e]|]; [|done..]. intros E.
    destruct (H3 _ _ eq_refl) as (l & -> & ?). destruct (Hq a ts') as (_ & _ & H4).
    destruct (H4 _ _ E) as (l' & -> & ?). exists (l ++ l'). rewrite <-app_assoc, length_app. split; [done|lia].
Qed.

Lemma good_bind_0 {A B} n d c (p p' : P A) (q q' : A → P B) :
  good n d 0 p p' → (∀ a, good n d c (q a) (q' a)) → good n d c (p_bind p q) (p_bind p' q').
Proof. intros Hp Hq. apply (good_bind n d 0 c); [done|]. intros a. by rewrite Nat.add_0_r. Qed.

Lemma good_bind_1 {A B} n d (p p' : P A) (q q' : A → P B) :
  good n d 1 p p' → (∀ a, good n (S d) 0 (q a) (q' a)) → good n d 1 (p_bind p q) (p_bind p' q').
Proof. intros Hp Hq. apply (good_bind n d 1 0); [done|]. intros a. by rewrite Nat.add_1_r. Qed.

Lemma good_bind_1_0 {A B} n d (p p' : P A) (q q' : A → P B) :
  good n d 1 p p' → (∀ a, good n (S d) 0 (q a) (q' a)) → good n d 0 (p_bind p q) (p_bind p' q').
Proof. intros Hp Hq. eapply good_weaken; [by apply good_bind_1|lia..]. Qed.

(** A keyword that is there is consumed. *)
Lemma maybe_keyword_cases k ts :
  (∃ t ts', ts = t :: ts' ∧ is_keyword k t = true ∧ maybe_keyword k ts = Some (Ok (true, ts'))) ∨
  (is_keyword k (peek ts) = false ∧ maybe_keyword k ts = Some (Ok (false, ts))).
Proof.
  unfold maybe_keyword, p_bind, p_peek. destruct (is_keyword k (peek ts)) eqn:E; [left|by right].
  destruct ts as [|t ts]; [done|]. by exists t, ts.
Qed.

Lemma good_maybe {A} n d c k (p p' q q' : P A) :
  c ≤ 1 → good n (S d) 0 p p' → good n d c q q' →
  good n d c (p_bind (maybe_keyword k) (λ b, if b then p else q)) (p_bind (maybe_keyword k) (λ b, if b then p' else q')).
Proof.
  intros Hc Hp Hq ts. unfold p_bind.
  destruct (maybe_keyword_cases k ts) as [(t & ts1 & -> & _ & ->)|[_ ->]]; [|apply Hq].
  destruct (Hp ts1) as (H1 & H2 & H3). cbn [length]. split_and!; [done| |].
  - intros. apply H2. lia.
  - intros a ts' Ha. destruct (H3 _ _ Ha) as (l & -> & ?). exists (t :: l). cbn. split; [done|lia].
Qed.

Lemma good_maybe_keyword n d k : good n d 0 (maybe_keyword k) (maybe_keyword k).
Proof.
  intros ts. destruct (maybe_keyword_cases k ts) as [(t & ts1 & -> & _ & ->)|[_ ->]];
    (split_and!; [done|by eexists|]); intros ? ? [= <- <-]; [by exists [t]; split; [|cbn; lia]|by exists []].
Qed.

Create HintDb parser.
#[export] Hint Resolve good_ret good_raise good_peek good_advance good_maybe_keyword : parser.
#[export] Hint Extern 1 (_ ≤ _) => lia : parser.

(** The steps of a parser that is made of binds and tests. *)
Ltac good_base :=
  first [solve [eauto 3 with parser nocore]
        |eapply good_weaken; [eassumption|lia..]
        |lazymatch goal with
         | |- good ?n ?d 0 _ _ => apply (good_weaken n d d 1 0); [solve [eauto 3 with parser nocore]|lia..]
         end].
Ltac good_step :=
  lazymatch goal with
  | |- ∀ _, good _ _ _ _ _ => intros ?
  | |- good _ _ _ (p_bind (maybe_keyword _) (λ b, if b then _ else _)) _ => apply good_maybe; [lia| |]
  | |- good _ _ _ (if ?b then _ else _) _ => destruct b
  | |- good _ _ _ (let (_, _) := ?x in _) _ => destruct x
  | |- good _ _ 1 (p_bind _ _) _ =>
      first [good_base | apply good_bind_1; [solve [repeat good_step]|] | apply good_bind_0; [solve [repeat good_step]|]]
  | |- good _ _ 0 (p_bind _ _) _ =>
      first [good_base | apply good_bind_1_0; [solve [repeat good_step]|] | apply good_bind_0; [solve [repeat good_step]|]]
  | |- good _ _ _ (match ?x with _ => _ end) _ => destruct x
  | |- good _ _ _ _ _ => good_base
  end.
Ltac good_tac := repeat good_step.

Lemma good_expect n d ty : good n d 1 (expect ty) (expect ty).
Proof. unfold expect. good_tac. Qed.
Lemma good_expect_value n d ty v : good n d 1 (expect_value ty v) (expect_value ty v).
Proof. unfold expect_value. good_tac. Qed.
Lemma good_expect_keyword n d k : good n d 1 (expect_keyword k) (expect_keyword k).
Proof. unfold expect_keyword. good_tac. Qed.
#[export] Hint Resolve good_expect good_expect_value good_expect_keyword : parser.
Lemma good_expect_name n d : good n d 1 expect_name expect_name.
Proof. unfold expect_name. good_tac. Qed.
Lemma good_int n d s : good n d 0 (p_int s) (p_int s).
Proof. unfold p_int. good_tac. Qed.
#[export] Hint Resolve good_expect_name good_int : parser.
Lemma good_literal n d : good n d 1 parse_literal parse_literal.
Proof. unfold parse_literal. good_tac. Qed.
#[export] Hint Resolve good_literal : parser.

(** * Loops *)

Lemma good_while_from {A} n d k m cond (body body' : A → P A) a :
  m + k = n → 1 ≤ d → (∀ a, good n d 1 (body a) (body' a)) →
  good n (d + k) 0 (p_while m cond body a) (p_while (S m) cond body' a).
Proof.
  intros Hm Hd Hb. revert k a Hm. induction m as [|m IH]; intros k a Hm.
  { cbn [p_while]. apply good_out. lia. }
  change (p_while (S (S m)) cond body' a) with
    (let% t := p_peek in if cond t then let% a := body' a in p_while (S m) cond body' a else p_ret a).
  cbn [p_while]. apply good_bind_0; [auto with parser|]. intros t. destruct (cond t); [|auto with parser].
  apply good_bind_1_0; [eapply good_weaken; [apply Hb|lia..]|]. intros b.
  eapply good_weaken; [apply (IH (S k)); lia|lia..].
Qed.

Lemma good_while {A} n d cond (body body' : A → P A) a :
  1 ≤ d → (∀ a, good n d 1 (body a) (body' a)) →
  good n d 0 (p_while n cond body a) (p_while (S n) cond body' a).
Proof. intros Hd Hb. eapply good_weaken; [apply (good_while_from n d 0); [lia|done..]|lia..]. Qed.

Lemma good_items_from {A} n d k m (body body' : A → P A) a :
  m + k = n → 1 ≤ d → (∀ a, good n d 1 (body a) (body' a)) →
  good n (d + k) 1 (p_items m body a) (p_items (S m) body' a).
Proof.
  intros Hm Hd Hb. revert k a Hm. induction m as [|m IH]; intros k a Hm.
  { cbn [p_items]. apply good_out. lia. }
  change (p_items (S (S m)) body' a) with
    (let% a := body' a in let% t := p_peek in
     if comma t then let% _ := p_advance in p_items (S m) body' a else p_ret a).
  cbn [p_items]. apply good_bind_1; [eapply good_weaken; [apply Hb|lia..]|]. intros b.
  apply good_bind_0; [auto with parser|]. intros t. destruct (comma t); [|auto with parser].
  apply good_bind_1_0; [auto with parser|]. intros _. eapply good_weaken; [apply (IH (S k)); lia|lia..].
Qed.

Lemma good_items {A} n d (body body' : A → P A) a :
  1 ≤ d → (∀ a, good n d 1 (body a) (body' a)) →
  good n d 1 (p_items n body a) (p_items (S n) body' a).
Proof. intros Hd Hb. eapply good_weaken; [apply (good_items_from n d 0); [lia|done..]|lia..]. Qed.

Lemma good_list {A} n d (item item' : P A) :
  1 ≤ d → good n d 1 item item' → good n d 1 (p_list n item) (p_list (S n) item').
Proof.
  intros Hd Hi. unfold p_list. apply good_bind_1; [done|]. intros x. apply good_while; [lia|]. intros l.
  good_tac.
Qed.

Lemma good_clause {A} n d k (p p' : P A) :
  good n (S d) 0 p p' → good n d 0 (clause k p) (clause k p').
Proof. intros Hp. unfold clause. good_tac. Qed.

(** * Expressions *)

Section Expressions.
Variable n : nat.
Variables e e' : P Expression.
Variables s s' : P SelectStatement.
(** A nested expression or query comes after a token. *)
Hypothesis He : good n 2 1 e e'.
Hypothesis Hs : good n 1 1 s s'.

Lemma good_e d : 2 ≤ d → good n d 1 e e'.
Proof. intros Hd. eapply good_weaken; [apply He|lia..]. Qed.
Lemma good_s d : 1 ≤ d → good n d 1 s s'.
Proof. intros Hd. eapply good_weaken; [apply Hs|lia..]. Qed.
Hint Resolve good_e good_s : parser.

Lemma good_list_e d : 2 ≤ d → good n d 1 (p_list n e) (p_list (S n) e').
Proof. intros Hd. apply good_list; [lia|auto with parser]. Qed.
Hint Resolve good_list_e : parser.

Lemma good_function_call d name :
  1 ≤ d → good n d 1 (parse_function_call n e name) (parse_function_call (S n) e' name).
Proof.
  intros Hd. unfold parse_function_call. apply good_bind_0; [destruct name; good_tac|]. intros f.
  good_tac.
Qed.
Hint Resolve good_function_call : parser.

Lemma good_case d : 1 ≤ d → good n d 1 (parse_case n e) (parse_case (S n) e').
Proof.
  intros Hd. unfold parse_case. apply good_bind_1; [auto with parser|]. intros _.
  apply good_bind_0.
  - apply good_while; [lia|]. intros acc. good_tac.
  - intros [cs rs]. apply good_bind_0; [apply good_clause; good_tac|]. intros el. good_tac.
Qed.
Hint Resolve good_case : parser.

Lemma good_primary d : 1 ≤ d → good n d 1 (parse_primary n e s) (parse_primary (S n) e' s').
Proof.
  intros Hd. unfold parse_primary, parse_exists, parse_name. apply good_bind_0; [auto with parser|]. intros t.
  good_tac.
Qed.
Hint Resolve good_primary : parser.

Lemma good_unary_from d k m :
  m + k = n → 1 ≤ d → good n (d + k) 1 (parse_unary n e s m) (parse_unary (S n) e' s' (S m)).
Proof.
  revert k. induction m as [|m IH]; intros k Hm Hd; [apply good_out; lia|].
  change (parse_unary (S n) e' s' (S (S m))) with
    (let% t := p_peek in
     if is_token OPERATOR "-" t then
       let% _ := p_advance in
       let% operand := parse_unary (S n) e' s' (S m) in
       p_ret (UnaryExpression (str "-") operand)
     else parse_primary (S n) e' s').
  cbn [parse_unary]. specialize (IH (S k) ltac:(lia) Hd). rewrite Nat.add_succ_r in IH.
  apply good_bind_0; [auto with parser|]. intros t. destruct (is_token OPERATOR "-" t); good_tac.
Qed.

Lemma good_unary d : 1 ≤ d → good n d 1 (parse_unary n e s n) (parse_unary (S n) e' s' (S n)).
Proof. intros Hd. pose proof (good_unary_from d 0 n). rewrite !Nat.add_0_r in *. auto. Qed.
Hint Resolve good_unary : parser.

Lemma good_chain d ops (p p' : P Expression) :
  1 ≤ d → good n d 1 p p' → good n d 1 (parse_chain n ops p) (parse_chain (S n) ops p').
Proof.
  intros Hd Hp. unfold parse_chain. apply good_bind_1; [done|]. intros x. apply good_while; [lia|]. intros l.
  good_tac.
Qed.

Lemma good_addition d : 1 ≤ d → good n d 1 (parse_addition n e s) (parse_addition (S n) e' s').
Proof. intros Hd. apply good_chain; [done|]. apply good_chain; [done|]. auto with parser. Qed.
Hint Resolve good_addition : parser.

Lemma good_comparison d : 1 ≤ d → good n d 1 (parse_comparison n e s) (parse_comparison (S n) e' s').
Proof.
  intros Hd. unfold parse_comparison, parse_is. apply good_bind_1; [auto with parser|]. intros x. good_tac.
Qed.
Hint Resolve good_comparison : parser.

Lemma good_not_from d k m :
  m + k = n → 1 ≤ d → good n (d + k) 1 (parse_not n e s m) (parse_not (S n) e' s' (S m)).
Proof.
  revert k. induction m as [|m IH]; intros k Hm Hd; [apply good_out; lia|].
  change (parse_not (S n) e' s' (S (S m))) with
    (let% b := maybe_keyword Keyword.NOT in
     if b : bool then
       let% operand := parse_not (S n) e' s' (S m) in
       p_ret (UnaryExpression (str "NOT") operand)
     else parse_comparison (S n) e' s').
  cbn [parse_not]. specialize (IH (S k) ltac:(lia) Hd). rewrite Nat.add_succ_r in IH. good_tac.
Qed.

Lemma good_not d : 1 ≤ d → good n d 1 (parse_not n e s n) (parse_not (S n) e' s' (S n)).
Proof. intros Hd. pose proof (good_not_from d 0 n). rewrite !Nat.add_0_r in *. auto. Qed.
Hint Resolve good_not : parser.

Lemma good_keyword_chain d k (p p' : P Expression) :
  1 ≤ d → good n d 1 p p' → good n d 1 (parse_keyword_chain n k p) (parse_keyword_chain (S n) k p').
Proof.
  intros Hd Hp. unfold parse_keyword_chain. apply good_bind_1; [done|]. intros x. apply good_while; [lia|]. intros l.
  good_tac.
Qed.

Lemma good_or d : 1 ≤ d → good n d 1 (parse_or n e s) (parse_or (S n) e' s').
Proof. intros Hd. apply good_keyword_chain; [done|]. apply good_keyword_chain; [done|]. auto with parser. Qed.

Lemma good_select d : 1 ≤ d → good n d 1 (parse_select n e) (parse_select (S n) e').
Proof.
  intros Hd. unfold parse_select. apply good_bind_1; [auto with parser|]. intros _.
  apply good_bind_0; [auto with parser|]. intros distinct.
  apply good_bind_0; [apply (good_weaken n (S d) (S d) 1 0); [|lia..]; apply good_items; [lia|]; intros l; unfold clause; good_tac|].
  intros columns. apply good_bind_0; [unfold parse_from; good_tac|]. intros [ft fa].
  apply good_bind_0; [apply good_while; [lia|]; intros l; unfold parse_join, parse_join_type, clause; good_tac|].
  intros joins. apply good_bind_0; [apply good_clause; good_tac|]. intros wh.
  apply good_bind_0; [unfold by_clause, clause; good_tac|]. intros gb.
  apply good_bind_0; [apply good_clause; good_tac|]. intros hv.
  apply good_bind_0.
  { unfold by_clause, clause, parse_order_by. apply good_bind_0; [|auto with parser]. apply good_maybe; [lia| |good_tac].
    apply good_bind_1_0; [|good_tac]. apply good_bind_1; [auto with parser|]. intros _.
    apply (good_weaken n (S (S (S d))) (S (S (S d))) 1 0); [|lia..]. apply good_items; [lia|]. intros l. good_tac. }
  intros ob. unfold parse_count, clause. good_tac.
Qed.
End Expressions.

Lemma good_expression n : good n 1 1 (parse_expression n) (parse_expression (S n)).
Proof.
  induction n as [|n IH]; [apply good_out; lia|].
  assert (good (S n) 2 1 (parse_expression n) (parse_expression (S n))) as He.
  { intros ts. destruct (IH ts) as (H1 & H2 & H3). split_and!; [done| |done]. intros. apply H2. lia. }
  change (parse_expression (S (S n))) with
    (parse_or (S (S n)) (parse_expression (S n)) (parse_select (S (S n)) (parse_expression (S n)))).
  change (parse_expression (S n)) with (parse_or (S n) (parse_expression n) (parse_select (S n) (parse_expression n))) at 1.
  apply good_or; [done| |lia]. by apply good_select.
Qed.

Lemma good_expression_S n d : 2 ≤ d → good (S n) d 1 (parse_expression n) (parse_expression (S n)).
Proof.
  intros Hd ts. destruct (good_expression n ts) as (H1 & H2 & H3). split_and!; [done| |done].
  intros. apply H2. lia.
Qed.

(** * Statements *)

Section Statements.
Variable n : nat.
Variables e e' : P Expression.
Variables s s' : P SelectStatement.
Hypothesis He : good n 1 1 e e'.
Hypothesis Hs : good n 1 1 s s'.

Lemma good_st_e d : 1 ≤ d → good n d 1 e e'.
Proof. intros Hd. eapply good_weaken; [apply He|lia..]. Qed.
Lemma good_st_s d : 1 ≤ d → good n d 1 s s'.
Proof. intros Hd. eapply good_weaken; [apply Hs|lia..]. Qed.
Hint Resolve good_st_e good_st_s : parser.

Lemma good_names d : 1 ≤ d → good n d 1 (parse_names n) (parse_names (S n)).
Proof.
  intros Hd. unfold parse_names. apply good_bind_1; [auto with parser|]. intros _.
  apply good_bind_0; [apply (good_weaken n (S d) (S d) 1 0); [apply good_list; [lia|auto with parser]|lia..]|].
  intros l. good_tac.
Qed.
Hint Resolve good_names : parser.

Lemma good_list_st d : 1 ≤ d → good n d 1 (p_list n e) (p_list (S n) e').
Proof. intros Hd. apply good_list; [lia|auto with parser]. Qed.
Lemma good_list_name d : 1 ≤ d → good n d 1 (p_list n expect_name) (p_list (S n) expect_name).
Proof. intros Hd. apply good_list; [lia|auto with parser]. Qed.
Hint Resolve good_list_st good_list_name : parser.

Lemma good_both d k1 k2 : good n d 0 (both_keywords k1 k2) (both_keywords k1 k2).
Proof. unfold both_keywords. good_tac. Qed.
Hint Resolve good_both : parser.

Lemma good_attributes_from d k m a :
  m + k = n → 1 ≤ d → good n (d + k) 0 (parse_attributes m a) (parse_attributes (S m) a).
Proof.
  revert k a. induction m as [|m IH]; intros k a Hm Hd; [apply good_out; lia|].
  assert (∀ a, good n (S (d + k)) 0 (parse_attributes m a) (parse_attributes (S m) a)) as IH'.
  { intros b. specialize (IH (S k) b ltac:(lia) Hd). by rewrite Nat.add_succ_r in IH. }
  clear IH. change (parse_attributes (S (S m)) a) with
    (let '(nullable, primary, unique, default) := a in
     let% t := p_peek in
     if rparen t || comma t then p_ret a
     else if bool_decide (token_type t = EOF) then p_ret a
     else
       let% b := maybe_keyword Keyword.NOT in
       if b : bool then
         let% c := maybe_keyword Keyword.NULL in
         if c : bool then parse_attributes (S m) (false, primary, unique, default)
         else let% _ := maybe_keyword Keyword.EXISTS in parse_attributes (S m) a
       else
       let% b := maybe_keyword Keyword.PRIMARY in
       if b : bool then
         let% _ := expect_keyword Keyword.KEY in
         parse_attributes (S m) (nullable, true, unique, default)
       else
       let% b := maybe_keyword Keyword.UNIQUE in
       if b : bool then parse_attributes (S m) (nullable, primary, true, default)
       else
       let% b := maybe_keyword Keyword.DEFAULT in
       if b : bool then
         let% v := parse_literal in
         parse_attributes (S m) (nullable, primary, unique, Some v)
       else
       let% b := maybe_keyword Keyword.NULL in
       if b : bool then parse_attributes (S m) (true, primary, unique, default)
       else p_ret a).
  cbn [parse_attributes]. destruct a as [[[nl pr] un] df]. revert IH'. generalize (d + k) as d0. intros d0 IH'.
  assert (∀ d1 a, S d0 ≤ d1 → good n d1 0 (parse_attributes m a) (parse_attributes (S m) a)) as IH.
  { intros d1 a Hd1. eapply good_weaken; [apply IH'|lia..]. }
  clear IH'. apply good_bind_0; [auto with parser|]. intros t. good_tac; apply IH; lia.
Qed.

Lemma good_attributes d a : 1 ≤ d → good n d 0 (parse_attributes n a) (parse_attributes (S n) a).
Proof. intros Hd. pose proof (good_attributes_from d 0 n a). rewrite !Nat.add_0_r in *. auto. Qed.
Hint Resolve good_attributes : parser.

Lemma good_column_def d : 1 ≤ d → good n d 1 (parse_column_def n) (parse_column_def (S n)).
Proof. intros Hd. unfold parse_column_def. good_tac. Qed.
Hint Resolve good_column_def : parser.

Lemma good_column_defs d : 1 ≤ d → good n d 1 (parse_column_defs n) (parse_column_defs (S n)).
Proof. intros Hd. apply good_items; [lia|]. intros l. good_tac. Qed.
Hint Resolve good_column_defs : parser.

Lemma good_values d : 1 ≤ d → ∀ l,
  good n d 1
    (let% _ := expect_value PUNCTUATION "(" in let% row := p_list n e in
     let% _ := expect_value PUNCTUATION ")" in p_ret (l ++ [row]))
    (let% _ := expect_value PUNCTUATION "(" in let% row := p_list (S n) e' in
     let% _ := expect_value PUNCTUATION ")" in p_ret (l ++ [row])).
Proof. intros Hd l. good_tac. Qed.

Lemma good_sets d : 1 ≤ d → ∀ l : list (pystr * Expression),
  good n d 1
    (let% col_name := expect_name in let% _ := expect_value OPERATOR "=" in
     let% value := e in p_ret (l ++ [(col_name, value)]))
    (let% col_name := expect_name in let% _ := expect_value OPERATOR "=" in
     let% value := e' in p_ret (l ++ [(col_name, value)])).
Proof. intros Hd l. good_tac. Qed.

Lemma good_insert d : 1 ≤ d → good n d 1 (parse_insert n e) (parse_insert (S n) e').
Proof.
  intros Hd. unfold parse_insert. good_tac.
  apply good_bind_0; [|good_tac]. apply (good_weaken n (S (S (S (S d)))) (S (S (S (S d)))) 1 0); [|lia..].
  apply good_items; [lia|]. apply good_values. lia.
Qed.

Lemma good_update d : 1 ≤ d → good n d 1 (parse_update n e) (parse_update (S n) e').
Proof.
  intros Hd. unfold parse_update, clause. good_tac.
  apply good_bind_0; [|good_tac]. apply (good_weaken n (S (S (S d))) (S (S (S d))) 1 0); [|lia..].
  apply good_items; [lia|]. apply good_sets. lia.
Qed.
Hint Resolve good_insert good_update : parser.

Lemma good_statement d self self' :
  1 ≤ d → good n (S d) 0 self self' → good n d 1 (parse_statement n e s self) (parse_statement (S n) e' s' self').
Proof.
  intros Hd Hself.
  unfold parse_statement, parse_create, parse_drop, parse_delete, parse_alter, parse_use, parse_show, parse_transaction, clause.
  good_tac.
Qed.
End Statements.

Lemma good_parse n : good n 1 1 (parse_fuel n) (parse_fuel (S n)).
Proof.
  induction n as [|n IH]; [apply good_out; lia|].
  change (parse_fuel (S (S n))) with
    (parse_statement (S (S n)) (parse_expression (S (S n))) (parse_select (S (S n)) (parse_expression (S (S n))))
       (parse_fuel (S n))).
  change (parse_fuel (S n)) with
    (parse_statement (S n) (parse_expression (S n)) (parse_select (S n) (parse_expression (S n))) (parse_fuel n)) at 1.
  apply good_statement; [apply good_expression| |lia|].
  - apply good_select; [|lia]. eapply good_weaken; [apply good_expression|lia..].
  - intros ts. destruct (IH ts) as (H1 & H2 & H3). split_and!; [done| |].
    + intros. apply H2. lia.
    + intros a ts' E. destruct (H3 a ts' E) as (l & -> & ?). exists l. split; [done|lia].
Qed.

Lemma parse_fuel_mono n m ts r : n ≤ m → parse_fuel n ts = Some r → parse_fuel m ts = Some r.
Proof. induction 1; [done|]. intros. apply good_parse. auto. Qed.

Lemma parse_expression_mono n m ts r : n ≤ m → parse_expression n ts = Some r → parse_expression m ts = Some r.
Proof. induction 1; [done|]. intros. apply good_expression. auto. Qed.

(** C40: the parser ends on every list of tokens. The fuel it runs with, one more than the
    number of tokens, always gives a result, more fuel gives the same one, and what is
    left after a statement is the end of the list, without its first token. *)
Theorem sql_parse_total ts :
  ∃ r, parse ts = Some r ∧ (∀ n, length ts < n → parse_fuel n ts = Some r) ∧
  ∀ s rest, r = Ok (s, rest) → ∃ l, ts = l ++ rest ∧ l ≠ [].
Proof.
  destruct (good_parse (S (length ts)) ts) as (_ & [r Hr] & H3); [lia|].
  exists r. split_and!; [done| |].
  - intros n Hn. eapply parse_fuel_mono; [|done]. lia.
  - intros s rest ->. destruct (H3 _ _ Hr) as (l & -> & Hl). exists l. split; [done|]. by intros ->; inversion Hl.
Qed.
