(* ===== verification/SqlExpression.v ===== *)
(** The SQL parser reads expressions back: a printer with the fewest parentheses, and the
    parser against it. *)

From Stdlib Require Import String.
From S2P Require Import Prelude Bytes Utf8 Str PyNum SqlLexer SqlParser SqlParserTotal.

Open Scope string_scope.
Open Scope list_scope.
Open Scope nat_scope.

(** * The printer *)

(** The levels of the grammar, from OR to the primary expressions. *)
Definition operator_level (op : pystr) : nat :=
  if decide (op = str "OR") then 0
  else if decide (op = str "AND") then 1
  else if decide (op ∈ str <$> ["*"; "/"]) then 5
  else if decide (op ∈ str <$> ["+"; "-"]) then 4
  else 3.

Definition level (e : Expression) : nat :=
  match e with
  | BinaryExpression op _ _ => operator_level op
  | UnaryExpression op _ => if decide (op = str "NOT") then 2 else 6
  | BetweenExpression _ _ _ | InExpression _ _ | LikeExpression _ _ => 3
  | _ => 7
  end.

Definition keyword_token (k : Keyword.t) : Token := mk_token KEYWORD (str (Keyword.value k)) (Some k) 0 0.
Definition name_token (s : pystr) : Token := mk_token IDENTIFIER s None 0 0.
Definition punctuation (s : string) : Token := mk_token PUNCTUATION (str s) None 0 0.
Definition operator_token (s : pystr) : Token := mk_token OPERATOR s None 0 0.
Definition number_token (s : pystr) : Token := mk_token NUMBER s None 0 0.

Definition parens (ts : list Token) : list Token := punctuation "(" :: ts ++ [punctuation ")"].
Fixpoint commas (l : list (list Token)) : list Token :=
  match l with
  | [] => []
  | [ts] => ts
  | ts :: l' => ts ++ punctuation "," :: commas l'
  end.

(** WHEN and THEN for each condition and its result. *)
Fixpoint branches (cs rs : list (list Token)) : list Token :=
  match cs, rs with
  | c :: cs', r :: rs' => keyword_token Keyword.WHEN :: c ++ keyword_token Keyword.THEN :: r ++ branches cs' rs'
  | _, _ => []
  end.

Definition show_literal (v : literal) : list Token :=
  match v with
  | LNone => [keyword_token Keyword.NULL]
  | LBool b => [keyword_token (if b then Keyword.TRUE else Keyword.FALSE)]
  | LInt z => [number_token (dec z)]
  | LFloat _ => []
  | LStr s => [mk_token STRING s None 0 0]
  end.

Definition show_operator (op : pystr) : list Token :=
  if decide (op = str "OR") then [keyword_token Keyword.OR]
  else if decide (op = str "AND") then [keyword_token Keyword.AND]
  else if decide (op = str "IS") then [keyword_token Keyword.IS]
  else if decide (op = str "IS NOT") then [keyword_token Keyword.IS; keyword_token Keyword.NOT]
  else [operator_token op].

(** The levels of the operands of a binary operator: it associates to the left. *)
Definition operand_levels (op : pystr) : nat * nat :=
  let k := operator_level op in if decide (k = 3) then (4, 4) else (k, S k).

Definition prefix_tokens (op : pystr) : list Token * nat :=
  if decide (op = str "NOT") then ([keyword_token Keyword.NOT], 2) else ([operator_token op], 6).

(** The name of a call: those of the aggregates are keywords. *)
Definition aggregate_keywords : list Keyword.t := [Keyword.COUNT; Keyword.SUM; Keyword.AVG; Keyword.MIN; Keyword.MAX].
Definition call_token (name : pystr) : Token :=
  match keyword_of name with
  | Some k => if decide (k ∈ aggregate_keywords) then keyword_token k else name_token name
  | None => name_token name
  end.

(** The tokens of an expression where the grammar has one of level [k]. *)
Fixpoint show (k : nat) (e : Expression) {struct e} : list Token :=
  let ts :=
    match e with
    | LiteralExpression v => show_literal v
    | ColumnExpression name table =>
        match table with
        | Some t => [name_token t; punctuation "."; name_token name]
        | None => [name_token name]
        end
    | BinaryExpression op l r =>
        show (operand_levels op).1 l ++ show_operator op ++ show (operand_levels op).2 r
    | UnaryExpression op x => (prefix_tokens op).1 ++ show (prefix_tokens op).2 x
    | FunctionCall name args distinct =>
        call_token name :: parens ((if distinct then [keyword_token Keyword.DISTINCT] else []) ++
                                   commas (map (show 0) args))
    | BetweenExpression x l h =>
        show 4 x ++ keyword_token Keyword.BETWEEN :: show 4 l ++ keyword_token Keyword.AND :: show 4 h
    | InExpression x vs => show 4 x ++ keyword_token Keyword.IN :: parens (commas (map (show 0) vs))
    | LikeExpression x p => show 4 x ++ keyword_token Keyword.LIKE :: show 4 p
    | CaseExpression cs rs el =>
        keyword_token Keyword.CASE ::
        branches (map (show 0) cs) (map (show 0) rs) ++
        match el with Some x => keyword_token Keyword.ELSE :: show 0 x | None => [] end ++
        [keyword_token Keyword.END]
    | StarExpression None => [operator_token (str "*")]
    | StarExpression (Some t) => [name_token t; punctuation "."; operator_token (str "*")]
    | SubqueryExpression _ => []
    end in
  if k <=? level e then ts else parens ts.

(** The expressions the printer covers: not the subqueries and the fractional numbers;
    the operators are those of the grammar. *)
Definition operators : list pystr := str <$> ["OR"; "AND"; "="; "!="; "<"; ">"; "<="; ">="; "+"; "-"; "*"; "/"].

Fixpoint printable (e : Expression) {struct e} : Prop :=
  match e with
  | LiteralExpression v =>
      match v with LInt z => (0 <= z < 10 ^ max_str_digits)%Z | LFloat _ => False | _ => True end
  | ColumnExpression _ _ | StarExpression _ => True
  | BinaryExpression op l r =>
      printable l ∧ ((op ∈ operators ∧ printable r) ∨ (op ∈ str <$> ["IS"; "IS NOT"] ∧ r = LiteralExpression LNone))
  | UnaryExpression op x => op ∈ str <$> ["NOT"; "-"] ∧ printable x
  | FunctionCall _ args _ => (fix all l := match l with [] => True | x :: l' => printable x ∧ all l' end) args
  | BetweenExpression x l h => printable x ∧ printable l ∧ printable h
  | InExpression x vs =>
      printable x ∧ vs ≠ [] ∧ (fix all l := match l with [] => True | x :: l' => printable x ∧ all l' end) vs
  | LikeExpression x p => printable x ∧ printable p
  | CaseExpression cs rs el =>
      length cs = length rs ∧
      (fix all l := match l with [] => True | x :: l' => printable x ∧ all l' end) cs ∧
      (fix all l := match l with [] => True | x :: l' => printable x ∧ all l' end) rs ∧
      match el with Some x => printable x | None => True end
  | SubqueryExpression _ => False
  end.

(** * Induction on expressions *)

Section Induction.
Variable Q : Expression → Prop.
Hypothesis Qliteral : ∀ v, Q (LiteralExpression v).
Hypothesis Qcolumn : ∀ name table, Q (ColumnExpression name table).
Hypothesis Qbinary : ∀ op l r, Q l → Q r → Q (BinaryExpression op l r).
Hypothesis Qunary : ∀ op x, Q x → Q (UnaryExpression op x).
Hypothesis Qcall : ∀ name args d, Forall Q args → Q (FunctionCall name args d).
Hypothesis Qbetween : ∀ x l h, Q x → Q l → Q h → Q (BetweenExpression x l h).
Hypothesis Qin : ∀ x vs, Q x → Forall Q vs → Q (InExpression x vs).
Hypothesis Qlike : ∀ x p, Q x → Q p → Q (LikeExpression x p).
Hypothesis Qcase : ∀ cs rs el, Forall Q cs → Forall Q rs → (∀ x, el = Some x → Q x) → Q (CaseExpression cs rs el).
Hypothesis Qstar : ∀ t, Q (StarExpression t).
Hypothesis Qsub : ∀ s, Q (SubqueryExpression s).

Fixpoint expression_rect (e : Expression) : Q e :=
  let fix all (l : list Expression) : Forall Q l :=
    match l with
    | [] => Forall_nil_2 Q
    | x :: l' => Forall_cons_2 Q x l' (expression_rect x) (all l')
    end in
  match e with
  | LiteralExpression v => Qliteral v
  | ColumnExpression name table => Qcolumn name table
  | BinaryExpression op l r => Qbinary op l r (expression_rect l) (expression_rect r)
  | UnaryExpression op x => Qunary op x (expression_rect x)
  | FunctionCall name args d => Qcall name args d (all args)
  | BetweenExpression x l h => Qbetween x l h (expression_rect x) (expression_rect l) (expression_rect h)
  | InExpression x vs => Qin x vs (expression_rect x) (all vs)
  | LikeExpression x p => Qlike x p (expression_rect x) (expression_rect p)
  | CaseExpression cs rs el =>
      Qcase cs rs el (all cs) (all rs)
        (λ x (H : el = Some x),
           match el return el = Some x → Q x with
           | Some y => λ H, match H in _ = o return match o with Some z => Q z | None => True end with
                            | eq_refl => expression_rect y
                            end
           | None => λ H, match H in _ = o return match o with Some z => Q z | None => True end with eq_refl => I end
           end H)
  | StarExpression t => Qstar t
  | SubqueryExpression s => Qsub s
  end.
End Induction.

(** A list whose elements are printable. *)
Lemma printable_all l :
  (fix all l := match l with [] => True | x :: l' => printable x ∧ all l' end) l ↔ Forall printable l.
Proof. induction l as [|x l IH]; [by split|]. rewrite Forall_cons. by rewrite <-IH. Qed.

(** * The levels of the parser *)

(** The parser of a level; [m] is the fuel of its own loop, [n] that of the rest. *)
Definition keyword_step (k : Keyword.t) (p : P Expression) (lhs : Expression) : P Expression :=
  let% _ := p_advance in let% rhs := p in p_ret (BinaryExpression (str (Keyword.value k)) lhs rhs).
Definition operator_step (p : P Expression) (lhs : Expression) : P Expression :=
  let% op := p_advance in let% rhs := p in p_ret (BinaryExpression (value op) lhs rhs).

(** The loop of a level that is a chain, with [p] for its operands. *)
Definition loop (k m : nat) (p : P Expression) : Expression → P Expression :=
  match k with
  | 0 => p_while m (is_keyword Keyword.OR) (keyword_step Keyword.OR p)
  | 1 => p_while m (is_keyword Keyword.AND) (keyword_step Keyword.AND p)
  | 4 => p_while m (is_operator ["+"; "-"]) (operator_step p)
  | _ => p_while m (is_operator ["*"; "/"]) (operator_step p)
  end.

Definition at_level (k m n : nat) : P Expression :=
  let e := parse_expression (pred n) in
  let s := parse_select n e in
  match k with
  | 0 => p_bind (parse_and n e s) (loop 0 m (parse_and n e s))
  | 1 => p_bind (parse_not n e s n) (loop 1 m (parse_not n e s n))
  | 2 => parse_not n e s m
  | 3 => parse_comparison n e s
  | 4 => p_bind (parse_multiplication n e s) (loop 4 m (parse_multiplication n e s))
  | 5 => p_bind (parse_unary n e s n) (loop 5 m (parse_unary n e s n))
  | 6 => parse_unary n e s m
  | _ => parse_primary n e s
  end.

Definition chain (k : nat) : Prop := k = 0 ∨ k = 1 ∨ k = 4 ∨ k = 5.

Lemma at_level_chain k m n : chain k → at_level k m n = p_bind (at_level (S k) n n) (loop k m (at_level (S k) n n)).
Proof. by intros [->|[->|[->| ->]]]. Qed.

Lemma parse_expression_level n : parse_expression (S n) = at_level 0 (S n) (S n).
Proof. done. Qed.

(** The tokens that go on with an expression of a level. *)
Definition cont (k : nat) (t : Token) : bool :=
  match k with
  | 0 => is_keyword Keyword.OR t
  | 1 => is_keyword Keyword.AND t
  | 2 | 6 => false
  | 3 => is_operator comparison_operators t || among_keywords [Keyword.IN; Keyword.LIKE; Keyword.BETWEEN; Keyword.IS] t
  | 4 => is_operator ["+"; "-"] t
  | 5 => is_operator ["*"; "/"] t
  | _ => lparen t || is_token PUNCTUATION "." t
  end.

Definition stops (k : nat) (ts : list Token) : Prop := ∀ j, k ≤ j ≤ 7 → cont j (peek ts) = false.

Lemma stops_weaken j k ts : stops j ts → j ≤ k → stops k ts.
Proof. intros H Hk i Hi. apply H. lia. Qed.

Definition stop_token (k : nat) (t : Token) : bool :=
  forallb (λ j, implb (k <=? j) (negb (cont j t))) [0; 1; 2; 3; 4; 5; 6; 7].
Lemma stops_token k ts : stop_token k (peek ts) = true → stops k ts.
Proof.
  unfold stop_token. rewrite forallb_forall. intros H j Hj. specialize (H j). rewrite (proj2 (Nat.leb_le k j)) in H by lia.
  apply negb_true_iff, H. do 8 (destruct j as [|j]; [cbn; tauto|]). lia.
Qed.

(** * Running parsers *)

Lemma bind_ok {A B} (p : P A) (q : A → P B) ts ts' a : p ts = Some (Ok (a, ts')) → p_bind p q ts = q a ts'.
Proof. unfold p_bind. by intros ->. Qed.

Lemma maybe_no {A} k (q : bool → P A) ts :
  is_keyword k (peek ts) = false → p_bind (maybe_keyword k) q ts = q false ts.
Proof.
  intros H. destruct (maybe_keyword_cases k ts) as [(t & ts' & -> & Ht & _)|[_ E]]; [cbn in H; congruence|].
  by apply bind_ok.
Qed.

Lemma while_stop {A} m cond (f : A → P A) a ts :
  cond (peek ts) = false → p_while (S m) cond f a ts = Some (Ok (a, ts)).
Proof. intros H. cbn [p_while]. unfold p_bind, p_peek. by rewrite H. Qed.

Lemma while_step {A} m cond (f : A → P A) a b ts ts' :
  cond (peek ts) = true → f a ts = Some (Ok (b, ts')) → p_while (S m) cond f a ts = p_while m cond f b ts'.
Proof. intros H Hf. cbn [p_while]. unfold p_bind at 1, p_peek. rewrite H. by apply bind_ok. Qed.

Lemma loop_stop k m p a ts : chain k → cont k (peek ts) = false → loop k (S m) p a ts = Some (Ok (a, ts)).
Proof. intros [->|[->|[->| ->]]] Hc; by apply while_stop. Qed.

(** A binary operator of the grammar. *)
Lemma operators_cases op : op ∈ operators → operator_level op = 3 ∨ chain (operator_level op).
Proof.
  unfold operators, chain. intros H. rewrite list_elem_of_fmap in H. destruct H as (s & -> & H).
  set_unfold in H. repeat destruct H as [->|H]; try done; vm_compute; tauto.
Qed.

(** One turn of a chain. *)
Lemma loop_step k m p op l r ts ts' :
  op ∈ operators → operator_level op = k → chain k → p ts = Some (Ok (r, ts')) →
  loop k (S m) p l (show_operator op ++ ts) = loop k m p (BinaryExpression op l r) ts'.
Proof.
  unfold operators. intros Hop Hk Hc Hp. rewrite list_elem_of_fmap in Hop. destruct Hop as (s & -> & H).
  set_unfold in H. unfold loop.
  repeat destruct H as [->|H]; try done; vm_compute in Hk; subst k;
    try (exfalso; unfold chain in Hc; lia);
    (apply while_step; [done|]); unfold keyword_step, operator_step; cbn [app show_operator];
    (eapply eq_trans; [by apply bind_ok|]); by erewrite bind_ok by done.
Qed.

(** * The levels read what is shown *)

Definition reads (k : nat) (e : Expression) : Prop := ∀ rest, stops k rest →
  ∃ n0, ∀ m n, n0 ≤ m → n0 ≤ n → at_level k m n (show k e ++ rest) = Some (Ok (e, rest)).

(** A chain is read up to its last operator. *)
Definition chained (k : nat) (e : Expression) : Prop := ∀ rest, stops (S k) rest →
  ∃ n0 d, ∀ m n, n0 ≤ n →
  p_bind (at_level (S k) n n) (loop k (d + m) (at_level (S k) n n)) (show k e ++ rest) =
  loop k m (at_level (S k) n n) e rest.

Lemma show_eq k e : show k e = if k <=? level e then show 0 e else parens (show 0 e).
Proof. by destruct e. Qed.

Lemma show_next k e : level e ≠ k → show k e = show (S k) e.
Proof.
  intros H. rewrite (show_eq k), (show_eq (S k)). destruct (k <=? level e) eqn:E1, (S k <=? level e) eqn:E2; try done; lia.
Qed.

Lemma reads_chained k e : level e ≠ k → reads (S k) e → chained k e.
Proof.
  intros Hl Hr rest Hs. destruct (Hr rest Hs) as [n0 H]. exists n0, 0. intros m n Hn.
  rewrite show_next by done. cbn [Nat.add]. by apply bind_ok, H.
Qed.

Lemma chained_reads k e : chain k → chained k e → reads k e.
Proof.
  intros Hk Hc rest Hs. destruct (Hc rest) as (n0 & d & H); [eapply stops_weaken; [done|lia]|].
  exists (n0 + S d). intros m n Hm Hn. rewrite at_level_chain by done.
  replace m with (d + S (m - d - 1)) by lia. rewrite H by lia. apply loop_stop; [done|].
  apply Hs. destruct Hk as [->|[->|[->| ->]]]; lia.
Qed.

(** The keyword NOT and the sign begin no primary expression. *)
Lemma primary_not n e s ts :
  is_keyword Keyword.NOT (peek ts) = true → parse_primary n e s ts = Some (Err SyntaxError).
Proof.
  unfold is_keyword. rewrite andb_true_iff, !bool_decide_eq_true. intros [H1 H2].
  destruct ts as [|[ty v kw l c] ts]; [done|]. cbn [peek token_type keyword] in *. by subst.
Qed.

Lemma primary_sign n e s ts :
  is_token OPERATOR "-" (peek ts) = true → parse_primary n e s ts = Some (Err SyntaxError).
Proof.
  unfold is_token. rewrite andb_true_iff, !bool_decide_eq_true. intros [H1 H2].
  destruct ts as [|[ty v kw l c] ts]; [done|]. cbn [peek token_type value] in *. by subst.
Qed.

Lemma comparison_error n e s ts :
  0 < n → is_token OPERATOR "-" (peek ts) = false → parse_primary n e s ts = Some (Err SyntaxError) →
  parse_comparison n e s ts = Some (Err SyntaxError).
Proof.
  intros Hn Hs H. destruct n as [|n]; [lia|].
  assert (parse_unary (S n) e s (S n) ts = Some (Err SyntaxError)) as E.
  { cbn [parse_unary]. unfold p_bind at 1, p_peek. by rewrite Hs. }
  unfold parse_comparison, parse_addition, parse_multiplication, parse_chain. unfold p_bind at 1 2 3. by rewrite E.
Qed.

Lemma comparison_not n e s ts :
  0 < n → is_keyword Keyword.NOT (peek ts) = true → parse_comparison n e s ts = Some (Err SyntaxError).
Proof.
  intros Hn H. apply comparison_error; [done| |by apply primary_not].
  unfold is_keyword in H. apply andb_true_iff in H as [H _]. apply bool_decide_eq_true in H.
  unfold is_token. by rewrite H.
Qed.

(** No expression begins with a closing parenthesis or with DISTINCT. *)
Lemma expression_error n ts :
  0 < n → rparen (peek ts) = true ∨ is_keyword Keyword.DISTINCT (peek ts) = true →
  parse_expression n ts = Some (Err SyntaxError).
Proof.
  intros Hn H. destruct n as [|n]; [lia|]. cbn [parse_expression]. cbv zeta.
  set (e := parse_expression n). set (s := parse_select (S n) e).
  assert (is_keyword Keyword.NOT (peek ts) = false ∧ is_token OPERATOR "-" (peek ts) = false ∧
    parse_primary (S n) e s ts = Some (Err SyntaxError)) as (H1 & H2 & H3).
  { destruct ts as [|[ty v kw l c] ts]; [by destruct H|]. cbn [peek] in *.
    unfold rparen, is_token, is_keyword in H. cbn [token_type value keyword] in H.
    rewrite !andb_true_iff, !bool_decide_eq_true in H. by destruct H as [[-> ->]|[-> ->]]. }
  assert (parse_not (S n) e s (S n) ts = Some (Err SyntaxError)) as E.
  { cbn [parse_not]. rewrite maybe_no by done. by apply comparison_error; [lia|..]. }
  unfold parse_or, parse_and, parse_keyword_chain. unfold p_bind at 1 2. by rewrite E.
Qed.

Lemma cont_3 ts :
  cont 3 (peek ts) = false →
  is_operator comparison_operators (peek ts) = false ∧
  ∀ k, k ∈ [Keyword.IN; Keyword.LIKE; Keyword.BETWEEN; Keyword.IS] → is_keyword k (peek ts) = false.
Proof.
  cbn [cont]. intros [H1 H2]%orb_false_iff. split; [done|]. intros k Hk.
  destruct (is_keyword k (peek ts)) eqn:E; [|done]. exfalso. revert H2. apply not_false_iff_true.
  apply existsb_exists. exists k. split; [by apply list_elem_of_In|done].
Qed.

Lemma reads_next k e : k < 7 → level e ≠ k → reads (S k) e → reads k e.
Proof.
  intros Hk Hl Hr. assert (chain k ∨ k = 2 ∨ k = 3 ∨ k = 6) as [Hc|Hc] by (unfold chain; lia).
  { by apply chained_reads, reads_chained. }
  intros rest Hs. destruct (Hr rest) as [n0 H]; [eapply stops_weaken; [done|lia]|].
  rewrite show_next by done. exists (S n0). intros m n Hm Hn.
  pose proof (H n n ltac:(lia) ltac:(lia)) as H4. destruct m as [|m]; [lia|]. specialize (H m n ltac:(lia) ltac:(lia)).
  destruct Hc as [->|[->| ->]].
  - cbn [at_level parse_not] in *. rewrite maybe_no; [done|].
    destruct (is_keyword _ _) eqn:E; [|done]. rewrite comparison_not in H by (done || lia). done.
  - cbn [at_level]. unfold parse_comparison. erewrite bind_ok by exact H4. unfold p_bind at 1, p_peek.
    destruct (cont_3 rest) as [Ho Hw]; [apply Hs; lia|]. rewrite Ho. rewrite !maybe_no by (apply Hw; set_solver). done.
  - cbn [at_level parse_unary] in *. unfold p_bind at 1, p_peek.
    destruct (is_token _ _ _) eqn:E; [|done]. by rewrite primary_sign in H.
Qed.

Lemma reads_down j k e : reads k e → j ≤ k → k ≤ 7 → (∀ i, j ≤ i < k → level e ≠ i) → reads j e.
Proof.
  intros Hr Hj Hk. induction Hj as [|k Hj IH]; [done|]. intros Hi. apply IH; [|lia|intros i ?; apply Hi; lia].
  apply reads_next; [lia|apply Hi; lia|done].
Qed.

Lemma primary_paren n e s ts :
  parse_primary n e s (punctuation "(" :: ts) =
  p_bind e (λ x, p_bind (expect_value PUNCTUATION ")") (λ _, p_ret x)) ts.
Proof. done. Qed.

Lemma reads_parens e : level e < 7 → reads 0 e → reads 7 e.
Proof.
  intros Hl Hr rest _. destruct (Hr (punctuation ")" :: rest)) as [n0 H]; [by apply stops_token|].
  exists (n0 + 2). intros m n Hm Hn. rewrite show_eq, (proj2 (Nat.leb_gt 7 (level e))) by done.
  unfold parens. cbn [app at_level]. rewrite primary_paren, <-app_assoc. cbn [app].
  destruct n as [|[|n]]; [lia|lia|]. cbn [pred]. rewrite parse_expression_level.
  erewrite bind_ok by (apply H; lia). done.
Qed.

(** An expression that is read at its own level is read at all levels. *)
Lemma reads_all e : level e ≤ 7 → reads (level e) e → ∀ k, k ≤ 7 → reads k e.
Proof.
  intros Hl Hr.
  assert (∀ k, k ≤ level e → reads k e) as Hlow by (intros k Hk; apply (reads_down k (level e)); [done..|lia]).
  intros k Hk. destruct (decide (k ≤ level e)) as [|Hgt]; [by apply Hlow|].
  apply (reads_down k 7); [|done|done|lia]. apply reads_parens; [lia|]. apply Hlow. lia.
Qed.

(** What holds of every printable expression. *)
Definition readable (e : Expression) : Prop :=
  (∀ k, k ≤ 7 → reads k e) ∧ (∀ k, chain k → chained k e).

Lemma good_of_reads e : level e ≤ 7 → ¬ chain (level e) → reads (level e) e → readable e.
Proof.
  intros Hl Hc Hr. pose proof (reads_all e Hl Hr) as Ha. split; [done|].
  intros k Hk. apply reads_chained; [intros E; apply Hc; by rewrite E|]. apply Ha. destruct Hk as [->|[->|[->| ->]]]; lia.
Qed.

Lemma operator_stops op ts k :
  op ∈ operators → operator_level op = k → stops (S k) (show_operator op ++ ts).
Proof.
  unfold operators. intros Hop Hk. rewrite list_elem_of_fmap in Hop. destruct Hop as (s & -> & H).
  set_unfold in H. subst k. repeat destruct H as [->|H]; try done; by apply stops_token.
Qed.

Lemma show_binary op l r :
  show 0 (BinaryExpression op l r) =
  show (operand_levels op).1 l ++ show_operator op ++ show (operand_levels op).2 r.
Proof. done. Qed.

Lemma good_chain_binary op l r :
  op ∈ operators → chain (operator_level op) → readable l → readable r →
  readable (BinaryExpression op l r).
Proof.
  intros Hop Hc [Hl Hlc] [Hr _]. set (k := operator_level op).
  assert (k ≤ 5) as Hk by (destruct Hc as [H|[H|[H|H]]]; unfold k; lia).
  assert (chained k (BinaryExpression op l r)) as Hch.
  { intros rest Hs. destruct (Hr (S k) ltac:(lia) rest Hs) as [n1 H1].
    destruct (Hlc k Hc (show_operator op ++ show (S k) r ++ rest)) as (n0 & d & H0); [by apply operator_stops|].
    exists (n0 + n1), (S d). intros m n Hn. replace (S d + m) with (d + S m) by lia.
    rewrite show_eq. cbn [level]. fold k. rewrite Nat.leb_refl, show_binary.
    assert (operand_levels op = (k, S k)) as ->.
    { unfold operand_levels. fold k. rewrite decide_False; [done|]. destruct Hc as [H|[H|[H|H]]]; unfold k; lia. }
    cbn [fst snd]. rewrite <-!app_assoc, H0 by lia. apply loop_step; [done..|]. apply H1; lia. }
  split.
  - apply reads_all; [cbn; lia|]. by apply chained_reads.
  - intros j Hj. destruct (decide (j = k)) as [->|Hne]; [done|].
    apply reads_chained; [cbn; fold k; lia|]. apply reads_all; [cbn; fold k; lia|by apply chained_reads|].
    destruct Hj as [->|[->|[->| ->]]]; lia.
Qed.

(** Two fuels at once. *)
Lemma reads_at k e rest :
  readable e → k ≤ 7 → stops k rest →
  ∃ n0, ∀ n, n0 ≤ n → at_level k n n (show k e ++ rest) = Some (Ok (e, rest)).
Proof. intros [Hr _] Hk Hs. destruct (Hr k Hk rest Hs) as [n0 H]. exists n0. auto. Qed.

Lemma reads_expression e rest :
  readable e → stops 0 rest →
  ∃ n0, ∀ n, n0 ≤ n → parse_expression n (show 0 e ++ rest) = Some (Ok (e, rest)).
Proof.
  intros He Hs. destruct (reads_at 0 e rest He) as [n0 H]; [lia|done|]. exists (S n0).
  intros [|n] Hn; [lia|]. rewrite parse_expression_level. apply H. lia.
Qed.

(** * Comparisons *)

Ltac peek_step := unfold p_bind at 1, p_peek; cbn [peek].
Ltac use_levels n0 := exists n0; intros m n Hm Hn.

(** A comparison begins with its first operand. *)
Lemma comparison_bind n ts l ts' :
  at_level 4 n n ts = Some (Ok (l, ts')) →
  at_level 3 n n ts =
  (let e := parse_expression (pred n) in
   let s := parse_select n e in
   (let% t := p_peek in
    if is_operator comparison_operators t then
      let% op := p_advance in let% rhs := parse_addition n e s in p_ret (BinaryExpression (value op) l rhs)
    else
      let% b := maybe_keyword Keyword.IN in
      if b : bool then
        let% _ := expect_value PUNCTUATION "(" in
        let% values := p_list n e in
        let% _ := expect_value PUNCTUATION ")" in
        p_ret (InExpression l values)
      else
      let% b := maybe_keyword Keyword.LIKE in
      if b : bool then let% pattern := parse_addition n e s in p_ret (LikeExpression l pattern)
      else
      let% b := maybe_keyword Keyword.BETWEEN in
      if b : bool then
        let% low := parse_addition n e s in
        let% _ := expect_keyword Keyword.AND in
        let% high := parse_addition n e s in
        p_ret (BetweenExpression l low high)
      else
      let% b := maybe_keyword Keyword.IS in
      if b : bool then parse_is l else p_ret l) ts').
Proof. intros H. cbn [at_level]. unfold parse_comparison at 1. by erewrite bind_ok by exact H. Qed.

Lemma readable_comparison op l r :
  op ∈ operators → operator_level op = 3 → readable l → readable r → readable (BinaryExpression op l r).
Proof.
  intros Hop Hk Hl Hr. apply good_of_reads; [cbn; lia|cbn; rewrite Hk; unfold chain; lia|]. cbn [level]. rewrite Hk.
  intros rest Hs. destruct (reads_at 4 r rest Hr) as [n1 H1]; [lia|by eapply stops_weaken; [done|lia]|].
  destruct (reads_at 4 l (show_operator op ++ show 4 r ++ rest) Hl) as [n0 H0]; [lia|by apply operator_stops|].
  use_levels (n0 + n1). rewrite show_eq. cbn [level]. rewrite Hk, Nat.leb_refl, show_binary.
  assert (operand_levels op = (4, 4)) as -> by (unfold operand_levels; by rewrite Hk). cbn [fst snd]. rewrite <-!app_assoc.
  change (at_level 3 m n) with (at_level 3 n n). rewrite (comparison_bind n _ l _ (H0 n ltac:(lia))).
  cbv zeta. specialize (H1 n ltac:(lia)). clear H0.
  assert (show_operator op = [operator_token op] ∧ is_operator comparison_operators (operator_token op) = true) as [-> Hc].
  { unfold operators in Hop. rewrite list_elem_of_fmap in Hop. destruct Hop as (s & -> & H). set_unfold in H.
    repeat destruct H as [->|H]; try done; vm_compute in Hk; discriminate Hk. }
  cbn [app]. peek_step. rewrite Hc. erewrite bind_ok by done. by erewrite bind_ok by exact H1.
Qed.

Lemma readable_is op l :
  op ∈ str <$> ["IS"; "IS NOT"] → readable l → readable (BinaryExpression op l (LiteralExpression LNone)).
Proof.
  intros Hop Hl. assert (operator_level op = 3 ∧ operand_levels op = (4, 4) ∧
    stop_token 4 (peek (show_operator op)) = true ∧ show_operator op ≠ []) as (Hk & Ho & Hst & Hne).
  { rewrite list_elem_of_fmap in Hop. destruct Hop as (s & -> & H). set_unfold in H.
    repeat destruct H as [->|H]; done. }
  apply good_of_reads; [cbn; lia|cbn; rewrite Hk; unfold chain; lia|]. cbn [level]. rewrite Hk.
  intros rest Hs.
  destruct (reads_at 4 l (show_operator op ++ keyword_token Keyword.NULL :: rest) Hl) as [n0 H0];
    [lia|apply stops_token; by destruct (show_operator op)|].
  use_levels n0. rewrite show_eq. cbn [level]. rewrite Hk, Nat.leb_refl, show_binary, Ho. cbn [fst snd].
  rewrite <-!app_assoc. change (at_level 3 m n) with (at_level 3 n n).
  change (show 4 (LiteralExpression LNone) ++ rest) with (keyword_token Keyword.NULL :: rest).
  rewrite (comparison_bind n _ l _ (H0 n ltac:(lia))). cbv zeta.
  rewrite list_elem_of_fmap in Hop. destruct Hop as (s & -> & H). set_unfold in H.
  repeat destruct H as [->|H]; done.
Qed.

(** * Lists of expressions *)

Definition after_commas (l : list (list Token)) : list Token := concat (map (cons (punctuation ",")) l).

Lemma commas_cons ts l : commas (ts :: l) = ts ++ after_commas l.
Proof.
  revert ts. induction l as [|ts' l IH]; intros ts; [by rewrite app_nil_r|].
  change (commas (ts :: ts' :: l)) with (ts ++ punctuation "," :: commas (ts' :: l)). by rewrite IH.
Qed.

(** What may follow a list. *)
Definition ends (rest : list Token) : Prop := stops 0 rest ∧ comma (peek rest) = false.

Lemma while_commas l acc rest :
  Forall readable l → ends rest →
  ∃ n0, ∀ m n, n0 ≤ m → n0 ≤ n →
  p_while m comma (λ l, let% _ := p_advance in let% x := parse_expression n in p_ret (l ++ [x])) acc
    (after_commas (map (show 0) l) ++ rest) = Some (Ok (acc ++ l, rest)).
Proof.
  intros Hl [Hs Hc]. revert acc. induction Hl as [|x l Hx _ IH]; intros acc.
  { exists 1. intros [|m] n Hm Hn; [lia|]. rewrite app_nil_r. by apply while_stop. }
  destruct (IH (acc ++ [x])) as [n0 H0].
  destruct (reads_expression x (after_commas (map (show 0) l) ++ rest) Hx) as [n1 H1].
  { destruct l; [done|]. by apply stops_token. }
  exists (S (n0 + n1)). intros [|m] n Hm Hn; [lia|]. unfold after_commas. cbn [map concat app].
  erewrite while_step; [| |erewrite bind_ok by done; rewrite <-app_assoc; by erewrite bind_ok by (apply H1; lia)]; [|done].
  rewrite H0 by lia. by rewrite <-app_assoc.
Qed.

Lemma list_reads x l rest :
  readable x → Forall readable l → ends rest →
  ∃ n0, ∀ n, n0 ≤ n →
  p_list n (parse_expression (pred n)) (commas (map (show 0) (x :: l)) ++ rest) = Some (Ok (x :: l, rest)).
Proof.
  intros Hx Hl He. destruct (while_commas l [x] rest Hl He) as [n0 H0].
  destruct (reads_expression x (after_commas (map (show 0) l) ++ rest) Hx) as [n1 H1].
  { destruct l; [by destruct He|]. by apply stops_token. }
  exists (S (n0 + n1)). intros n Hn. cbn [map]. rewrite commas_cons, <-app_assoc. unfold p_list.
  erewrite bind_ok by (apply H1; lia). by rewrite H0 by lia.
Qed.

Lemma readable_in x vs : vs ≠ [] → readable x → Forall readable vs → readable (InExpression x vs).
Proof.
  intros Hne Hx Hvs. destruct vs as [|v vs]; [done|]. apply Forall_cons in Hvs as [Hv Hvs].
  apply good_of_reads; [cbn; lia|cbn; unfold chain; lia|]. intros rest Hs.
  destruct (list_reads v vs (punctuation ")" :: rest) Hv Hvs) as [n1 H1]; [split; [by apply stops_token|done]|].
  destruct (reads_at 4 x (keyword_token Keyword.IN :: parens (commas (map (show 0) (v :: vs))) ++ rest) Hx) as [n0 H0];
    [lia|by apply stops_token|].
  use_levels (n0 + n1). change (at_level (level _) m n) with (at_level 3 n n).
  change (show _ (InExpression x (v :: vs))) with
    (show 4 x ++ keyword_token Keyword.IN :: parens (commas (map (show 0) (v :: vs)))).
  rewrite <-(app_assoc (show 4 x)). cbn [app]. rewrite (comparison_bind n _ x _ (H0 n ltac:(lia))). cbv zeta. clear H0.
  unfold parens. cbn [app]. rewrite <-app_assoc. cbn [app]. specialize (H1 n ltac:(lia)). revert H1.
  generalize (commas (map (show 0) (v :: vs)) ++ punctuation ")" :: rest). intros ts H1.
  change (p_bind (p_list n (parse_expression (pred n)))
    (λ values, let% _ := expect_value PUNCTUATION ")" in p_ret (InExpression x values)) ts =
    Some (Ok (InExpression x (v :: vs), rest))).
  by erewrite bind_ok by exact H1.
Qed.

Lemma readable_like x p : readable x → readable p → readable (LikeExpression x p).
Proof.
  intros Hx Hp. apply good_of_reads; [cbn; lia|cbn; unfold chain; lia|]. intros rest Hs.
  destruct (reads_at 4 p rest Hp) as [n1 H1]; [lia|by eapply stops_weaken; [done|cbn; lia]|].
  destruct (reads_at 4 x (keyword_token Keyword.LIKE :: show 4 p ++ rest) Hx) as [n0 H0]; [lia|by apply stops_token|].
  use_levels (n0 + n1). change (at_level (level _) m n) with (at_level 3 n n).
  change (show _ (LikeExpression x p)) with (show 4 x ++ keyword_token Keyword.LIKE :: show 4 p).
  rewrite <-(app_assoc (show 4 x)). cbn [app]. rewrite (comparison_bind n _ x _ (H0 n ltac:(lia))). cbv zeta. clear H0.
  change (p_bind (at_level 4 n n) (λ pattern, p_ret (LikeExpression x pattern)) (show 4 p ++ rest) =
    Some (Ok (LikeExpression x p, rest))).
  by erewrite bind_ok by (apply H1; lia).
Qed.

Lemma readable_between x l h : readable x → readable l → readable h → readable (BetweenExpression x l h).
Proof.
  intros Hx Hl Hh. apply good_of_reads; [cbn; lia|cbn; unfold chain; lia|]. intros rest Hs.
  destruct (reads_at 4 h rest Hh) as [n2 H2]; [lia|by eapply stops_weaken; [done|cbn; lia]|].
  destruct (reads_at 4 l (keyword_token Keyword.AND :: show 4 h ++ rest) Hl) as [n1 H1]; [lia|by apply stops_token|].
  destruct (reads_at 4 x (keyword_token Keyword.BETWEEN :: show 4 l ++ keyword_token Keyword.AND :: show 4 h ++ rest) Hx)
    as [n0 H0]; [lia|by apply stops_token|].
  use_levels (n0 + n1 + n2). change (at_level (level _) m n) with (at_level 3 n n).
  change (show _ (BetweenExpression x l h)) with
    (show 4 x ++ keyword_token Keyword.BETWEEN :: show 4 l ++ keyword_token Keyword.AND :: show 4 h).
  rewrite <-!app_assoc. cbn [app]. rewrite <-app_assoc. cbn [app].
  rewrite (comparison_bind n _ x _ (H0 n ltac:(lia))). cbv zeta. clear H0.
  change (p_bind (at_level 4 n n)
    (λ low, let% _ := expect_keyword Keyword.AND in let% high := at_level 4 n n in p_ret (BetweenExpression x low high))
    (show 4 l ++ keyword_token Keyword.AND :: show 4 h ++ rest) = Some (Ok (BetweenExpression x l h, rest))).
  erewrite bind_ok by (apply H1; lia). erewrite bind_ok by done. by erewrite bind_ok by (apply H2; lia).
Qed.

(** * Prefix operators *)

Lemma readable_not x : readable x → readable (UnaryExpression (str "NOT") x).
Proof.
  intros Hx. assert (level (UnaryExpression (str "NOT") x) = 2) as Hl by done.
  apply good_of_reads; rewrite Hl; [lia|unfold chain; lia|]. intros rest Hs.
  destruct (proj1 Hx 2 ltac:(lia) rest Hs) as [n0 H0]. use_levels (S n0). destruct m as [|m]; [lia|].
  specialize (H0 m n ltac:(lia) ltac:(lia)). unfold at_level in *.
  change (show 2 (UnaryExpression (str "NOT") x) ++ rest) with (keyword_token Keyword.NOT :: show 2 x ++ rest).
  change (p_bind (parse_not n (parse_expression (pred n)) (parse_select n (parse_expression (pred n))) m)
    (λ operand, p_ret (UnaryExpression (str "NOT") operand)) (show 2 x ++ rest) =
    Some (Ok (UnaryExpression (str "NOT") x, rest))).
  by erewrite bind_ok by exact H0.
Qed.

Lemma readable_sign x : readable x → readable (UnaryExpression (str "-") x).
Proof.
  intros Hx. assert (level (UnaryExpression (str "-") x) = 6) as Hl by done.
  apply good_of_reads; rewrite Hl; [lia|unfold chain; lia|]. intros rest Hs.
  destruct (proj1 Hx 6 ltac:(lia) rest Hs) as [n0 H0]. use_levels (S n0). destruct m as [|m]; [lia|].
  specialize (H0 m n ltac:(lia) ltac:(lia)). unfold at_level in *.
  change (p_bind (parse_unary n (parse_expression (pred n)) (parse_select n (parse_expression (pred n))) m)
    (λ operand, p_ret (UnaryExpression (str "-") operand)) (show 6 x ++ rest) =
    Some (Ok (UnaryExpression (str "-") x, rest))).
  by erewrite bind_ok by exact H0.
Qed.

(** * Primary expressions *)

Lemma readable_primary e :
  level e = 7 →
  (∀ rest, stops 7 rest →
   ∃ n0, ∀ n, n0 ≤ n →
   parse_primary n (parse_expression (pred n)) (parse_select n (parse_expression (pred n))) (show 0 e ++ rest) =
   Some (Ok (e, rest))) →
  readable e.
Proof.
  intros Hl H. apply good_of_reads; [lia|rewrite Hl; unfold chain; lia|]. rewrite Hl. intros rest Hs.
  destruct (H rest Hs) as [n0 H0]. use_levels n0. rewrite show_eq, Hl. cbn [Nat.leb]. by apply H0.
Qed.

Lemma py_int_dec z : (0 <= z < 10 ^ max_str_digits)%Z → py_int (dec z) = Some z.
Proof.
  intros Hz. apply py_int_str. unfold str_of_int. rewrite (proj2 (Z.leb_gt _ _)) by lia.
  by rewrite (proj2 (Z.ltb_ge z 0)) by lia.
Qed.

Lemma readable_literal v : printable (LiteralExpression v) → readable (LiteralExpression v).
Proof.
  intros Hv. apply readable_primary; [done|]. intros rest _. exists 0. intros n _.
  destruct v as [|[]|z|f|s]; try done. cbn [printable] in Hv.
  change (show 0 (LiteralExpression (LInt z)) ++ rest) with (number_token (dec z) :: rest).
  change (p_bind parse_literal (λ v, p_ret (LiteralExpression v)) (number_token (dec z) :: rest) =
    Some (Ok (LiteralExpression (LInt z), rest))).
  erewrite (bind_ok parse_literal); [done|]. unfold parse_literal. peek_step. cbn [number_token token_type]. erewrite bind_ok by done.
  cbn [value]. rewrite bool_decide_eq_false_2.
  - unfold p_int. cbn [value number_token]. by rewrite py_int_dec.
  - cbn [value number_token]. intros H. pose proof (dec_digit z ltac:(lia)) as Hd. rewrite Forall_forall in Hd. by apply Hd in H.
Qed.

Lemma stops_7 rest : stops 7 rest → lparen (peek rest) = false ∧ is_token PUNCTUATION "." (peek rest) = false.
Proof. intros H. apply orb_false_iff. apply (H 7). lia. Qed.

Lemma readable_column name table : readable (ColumnExpression name table).
Proof.
  apply readable_primary; [done|]. intros rest Hs. exists 0. intros n _. destruct table as [t|]; [done|].
  change (parse_name n (parse_expression (pred n)) (name_token name :: rest) = Some (Ok (ColumnExpression name None, rest))).
  unfold parse_name. erewrite bind_ok by done. peek_step. destruct (stops_7 rest Hs) as [-> ->]. done.
Qed.

Lemma readable_star t : readable (StarExpression t).
Proof. apply readable_primary; [done|]. intros rest _. exists 0. intros n _. by destruct t. Qed.

Lemma list_head x l rest m n :
  0 < n → p_list m (parse_expression n) (commas (map (show 0) (x :: l)) ++ rest) = Some (Ok (x :: l, rest)) →
  let t := peek (commas (map (show 0) (x :: l)) ++ rest) in
  rparen t = false ∧ is_keyword Keyword.DISTINCT t = false.
Proof.
  intros Hn H. cbv zeta. unfold p_list in H.
  pose proof (expression_error n (commas (map (show 0) (x :: l)) ++ rest) Hn) as He.
  destruct (rparen _); [unfold p_bind at 1 in H; by rewrite He in H by by left|].
  destruct (is_keyword _ _); [unfold p_bind at 1 in H; by rewrite He in H by by right|done].
Qed.

Lemma keyword_of_value name k : keyword_of name = Some k → name = str (Keyword.value k).
Proof.
  unfold keyword_of. destruct (list_find _ _) as [[i k']|] eqn:E; [|done]. intros [= <-].
  by apply list_find_Some in E as (_ & -> & _).
Qed.

Lemma call_token_cases name :
  call_token name = name_token name ∨
  ∃ k, k ∈ aggregate_keywords ∧ name = str (Keyword.value k) ∧ call_token name = keyword_token k.
Proof.
  unfold call_token. destruct (keyword_of name) as [k|] eqn:E; [|by left].
  case_decide; [right|by left]. exists k. split_and!; [done| |done]. by apply keyword_of_value.
Qed.

(** A call, by a name or by a keyword. *)
Lemma primary_call n e s name ts :
  parse_primary n e s (call_token name :: punctuation "(" :: ts) =
  parse_function_call n e (Some name) (punctuation "(" :: ts).
Proof.
  destruct (call_token_cases name) as [->|(k & Hk & -> & ->)]; [done|].
  unfold aggregate_keywords in Hk. set_unfold in Hk. repeat destruct Hk as [->|Hk]; done.
Qed.

Lemma readable_call name args d : Forall readable args → readable (FunctionCall name args d).
Proof.
  intros Hargs. apply readable_primary; [done|]. intros rest _.
  set (q := λ n, p_bind p_peek (λ t,
    let% args := (if rparen t then p_ret [] else p_list n (parse_expression (pred n))) in
    let% _ := expect_value PUNCTUATION ")" in p_ret (FunctionCall name args d))).
  set (ts := commas (map (show 0) args) ++ punctuation ")" :: rest).
  assert (∃ n0, ∀ n, n0 ≤ n → q n ts = Some (Ok (FunctionCall name args d, rest)) ∧
    is_keyword Keyword.DISTINCT (peek ts) = false) as [n0 H0].
  { unfold ts, q. destruct args as [|a args]; [by exists 0|]. apply Forall_cons in Hargs as [Ha Hargs].
    destruct (list_reads a args (punctuation ")" :: rest) Ha Hargs) as [n0 H0]; [split; [by apply stops_token|done]|].
    exists (S (S n0)). intros n Hn. specialize (H0 n ltac:(lia)).
    destruct (list_head a args (punctuation ")" :: rest) n (pred n)) as [E1 E2]; [lia|done|].
    cbv zeta in E1, E2. split; [|done]. peek_step. rewrite E1. by erewrite bind_ok by exact H0. }
  exists n0. intros n Hn. destruct (H0 n Hn) as [Hq Hd].
  change (show 0 (FunctionCall name args d) ++ rest) with
    (call_token name :: punctuation "(" :: (((if d then [keyword_token Keyword.DISTINCT] else []) ++
       commas (map (show 0) args)) ++ [punctuation ")"]) ++ rest).
  rewrite primary_call.
  change (p_bind (maybe_keyword Keyword.DISTINCT) (λ d, p_bind p_peek (λ t,
    let% args := (if rparen t then p_ret [] else p_list n (parse_expression (pred n))) in
    let% _ := expect_value PUNCTUATION ")" in p_ret (FunctionCall name args d)))
    ((((if d then [keyword_token Keyword.DISTINCT] else []) ++
       commas (map (show 0) args)) ++ [punctuation ")"]) ++ rest) = Some (Ok (FunctionCall name args d, rest))).
  rewrite <-!app_assoc. cbn [app]. fold ts. destruct d; cbn [app].
  - by erewrite bind_ok by done.
  - by rewrite maybe_no.
Qed.

(** The branches of CASE. *)
Lemma while_branches cs rs acc rest :
  length cs = length rs → Forall readable cs → Forall readable rs →
  is_keyword Keyword.WHEN (peek rest) = false → stops 0 rest →
  ∃ n0, ∀ m n, n0 ≤ m → n0 ≤ n →
  p_while m (is_keyword Keyword.WHEN)
    (λ acc, let% _ := p_advance in
            let% c := parse_expression n in
            let% _ := expect_keyword Keyword.THEN in
            let% r := parse_expression n in
            p_ret (fst acc ++ [c], snd acc ++ [r])) acc
    (branches (map (show 0) cs) (map (show 0) rs) ++ rest) = Some (Ok ((fst acc ++ cs, snd acc ++ rs), rest)).
Proof.
  intros Hlen Hcs. revert rs acc Hlen. induction Hcs as [|c cs Hc _ IH]; intros [|r rs] acc Hlen Hrs Hw Hs; try done.
  { exists 1. intros [|m] n Hm Hn; [lia|]. rewrite !app_nil_r. destruct acc. by apply while_stop. }
  apply Forall_cons in Hrs as [Hr Hrs]. injection Hlen as Hlen.
  destruct (IH rs (fst acc ++ [c], snd acc ++ [r]) Hlen Hrs Hw Hs) as [n0 H0].
  destruct (reads_expression r (branches (map (show 0) cs) (map (show 0) rs) ++ rest) Hr) as [n1 H1].
  { destruct cs, rs; try done. by apply stops_token. }
  destruct (reads_expression c (keyword_token Keyword.THEN :: show 0 r ++ branches (map (show 0) cs) (map (show 0) rs) ++ rest) Hc)
    as [n2 H2]; [by apply stops_token|].
  exists (S (n0 + n1 + n2)). intros [|m] n Hm Hn; [lia|]. cbn [map branches app]. rewrite <-app_assoc. cbn [app].
  rewrite <-app_assoc. erewrite while_step; [|done|].
  - rewrite H0 by lia. cbn [fst snd]. by rewrite <-!app_assoc.
  - erewrite bind_ok by done. erewrite bind_ok by (apply H2; lia). erewrite bind_ok by done.
    by erewrite bind_ok by (apply H1; lia).
Qed.

Lemma readable_case cs rs el :
  length cs = length rs → Forall readable cs → Forall readable rs → (∀ x, el = Some x → readable x) →
  readable (CaseExpression cs rs el).
Proof.
  intros Hlen Hcs Hrs Hel. apply readable_primary; [done|]. intros rest _.
  set (tl := (match el with Some x => keyword_token Keyword.ELSE :: show 0 x | None => [] end ++
              [keyword_token Keyword.END]) ++ rest).
  assert (∃ n0, ∀ n, n0 ≤ n → clause Keyword.ELSE (parse_expression n) tl =
    Some (Ok (el, keyword_token Keyword.END :: rest))) as [n1 H1].
  { unfold tl, clause. destruct el as [x|]; [|by exists 0].
    destruct (reads_expression x (keyword_token Keyword.END :: rest) (Hel x eq_refl)) as [n1 H1]; [by apply stops_token|].
    exists n1. intros n Hn. cbn [app]. rewrite <-app_assoc. cbn [app]. erewrite bind_ok by done.
    cbv iota. by erewrite bind_ok by (by apply H1). }
  destruct (while_branches cs rs ([], []) tl Hlen Hcs Hrs) as [n0 H0].
  { unfold tl. by destruct el. } { unfold tl. destruct el; by apply stops_token. }
  exists (S (n0 + n1)). intros n Hn.
  change (show 0 (CaseExpression cs rs el) ++ rest) with
    (keyword_token Keyword.CASE :: (branches (map (show 0) cs) (map (show 0) rs) ++
       match el with Some x => keyword_token Keyword.ELSE :: show 0 x | None => [] end ++ [keyword_token Keyword.END]) ++ rest).
  rewrite <-(app_assoc (branches _ _)). fold tl.
  change (parse_case n (parse_expression (pred n))
    (keyword_token Keyword.CASE :: branches (map (show 0) cs) (map (show 0) rs) ++ tl) =
    Some (Ok (CaseExpression cs rs el, rest))).
  unfold parse_case. erewrite bind_ok by done. erewrite bind_ok by (apply H0; lia). cbn [fst snd app].
  erewrite bind_ok by (apply H1; lia). done.
Qed.

Lemma printable_readable e : printable e → readable e.
Proof.
  induction e as [v|name table|op l r IHl IHr|op x IHx|name args d IH|x l h IHx IHl IHh|x vs IHx IH|x p IHx IHp
    |cs rs el IHc IHr IHe|t|s] using expression_rect; intros Hp.
  - by apply readable_literal.
  - apply readable_column.
  - destruct Hp as [Hl [[Hop Hr]|[Hop ->]]]; [|by apply readable_is; [|apply IHl]].
    destruct (operators_cases op Hop) as [Hk|Hk].
    + apply readable_comparison; auto.
    + apply good_chain_binary; auto.
  - destruct Hp as [Hop Hx]. rewrite list_elem_of_fmap in Hop. destruct Hop as (s & -> & H). set_unfold in H.
    repeat destruct H as [->|H]; try done; [apply readable_not|apply readable_sign]; auto.
  - apply readable_call. apply printable_all in Hp. clear -IH Hp. induction IH; [constructor|].
    apply Forall_cons in Hp as [? ?]. constructor; auto.
  - destruct Hp as (? & ? & ?). apply readable_between; auto.
  - destruct Hp as (Hx & Hne & Hp). apply printable_all in Hp. apply readable_in; [done|auto|].
    clear -IH Hp. induction IH; [constructor|]. apply Forall_cons in Hp as [? ?]. constructor; auto.
  - destruct Hp as (? & ?). apply readable_like; auto.
  - destruct Hp as (Hlen & Hc & Hr & He). apply printable_all in Hc, Hr. apply readable_case; [done|..].
    + clear -IHc Hc. induction IHc; [constructor|]. apply Forall_cons in Hc as [? ?]. constructor; auto.
    + clear -IHr Hr. induction IHr; [constructor|]. apply Forall_cons in Hr as [? ?]. constructor; auto.
    + intros x ->. by apply IHe.
  - apply readable_star.
  - done.
Qed.

Lemma show_reads e rest n :
  printable e → stops 0 rest → length (show 0 e ++ rest) < n →
  parse_expression n (show 0 e ++ rest) = Some (Ok (e, rest)).
Proof.
  intros Hp Hs Hn. destruct (reads_expression e rest (printable_readable e Hp) Hs) as [n0 H].
  set (ts := show 0 e ++ rest) in *.
  destruct (SqlParserTotal.good_expression n ts) as (_ & [r Hr] & _); [lia|].
  rewrite Hr, <-(H (n `max` n0)) by lia. symmetry. apply (parse_expression_mono n); [lia|done].
Qed.

(** C35: The parser reads back every expression without subqueries, EXISTS and fractional
    numbers, and stops where the expression ends. An expression is written as tokens, with the
    fewest parentheses that the precedences of the grammar and its association to the left
    allow, and the names of COUNT, SUM, AVG, MIN and MAX as the keywords they are. It is built
    from NULL, truth values, strings, whole numbers from 0 of at most 4300 digits, columns,
    stars, the operators OR, AND, =, !=, <, >, <=, >=, +, -, *, / with two operands, NOT and -
    with one, IS NULL and IS NOT NULL, calls, BETWEEN, LIKE, IN with a list that is not empty,
    and CASE with a result for each condition; and what follows must not be a token that
    continues an expression. *)
Theorem sql_expression_roundtrip e rest :
  printable e → stops 0 rest →
  parse_expression (S (length (show 0 e ++ rest))) (show 0 e ++ rest) = Some (Ok (e, rest)).
Proof. intros Hp Hs. apply show_reads; [done..|lia]. Qed.

(** [NOT (a - (b - 1) < f(2, 'x') OR c IN (-d, NULL)) AND CASE WHEN a THEN COUNT(DISTINCT a) ELSE t.b END IS NOT NULL]. *)
Definition sample : Expression :=
  let col s := ColumnExpression (str s) None in
  let int z := LiteralExpression (LInt z) in
  BinaryExpression (str "AND")
    (UnaryExpression (str "NOT")
       (BinaryExpression (str "OR")
          (BinaryExpression (str "<")
             (BinaryExpression (str "-") (col "a") (BinaryExpression (str "-") (col "b") (int 1%Z)))
             (FunctionCall (str "f") [int 2%Z; LiteralExpression (LStr (str "x"))] false))
          (InExpression (col "c") [UnaryExpression (str "-") (col "d"); LiteralExpression LNone])))
    (BinaryExpression (str "IS NOT")
       (CaseExpression [col "a"] [FunctionCall (str "COUNT") [col "a"] true] (Some (ColumnExpression (str "b") (Some (str "t")))))
       (LiteralExpression LNone)).

Lemma sample_printable : printable sample.
Proof.
  cbn [printable sample].
  repeat match goal with
         | |- _ ∧ _ => split
         | |- True => exact I
         | |- (0 <= _)%Z => lia
         | |- (_ < 10 ^ max_str_digits)%Z => unfold max_str_digits; vm_compute; reflexivity
         | |- _ ∨ _ => first [left; split; [apply (bool_decide_unpack _); vm_compute; exact I|]
                             |right; split; [apply (bool_decide_unpack _); vm_compute; exact I|reflexivity]]
         | |- _ ∈ _ => apply (bool_decide_unpack _); vm_compute; exact I
         | |- _ ≠ _ => discriminate
         | |- length _ = length _ => reflexivity
         end.
Qed.

Lemma sql_expression_roundtrip_witness :
  parse_expression (S (length (show 0 sample ++ [eof_token]))) (show 0 sample ++ [eof_token]) =
  Some (Ok (sample, [eof_token])).
Proof.
  apply (sql_expression_roundtrip sample [eof_token]); [exact sample_printable|].
  apply stops_token. vm_compute. reflexivity.
Defined.
