(* ===== verification/SqlText.v ===== *)
(** SQL from its text: the positions of tokens do not matter to the parser, a query is read
    back from its text, and what no text can say because the lexer makes no
    punctuation. *)

From Stdlib Require Import String.
From S2P Require Import Prelude Bytes Utf8 Str PyNum SqlLexer SqlParser SqlParserTotal SqlExpression.
Import SQLLexerFacts.

Open Scope string_scope.
Open Scope list_scope.
Open Scope nat_scope.

(** * The positions of tokens *)

Definition erase_rest {A} (r : option (res (A * list Token))) : option (res (A * list Token)) :=
  match r with
  | Some (Ok (a, ts)) => Some (Ok (a, erase <$> ts))
  | _ => r
  end.

(** A parser that does not look at positions. *)
Definition blind {A} (p : P A) : Prop := ∀ ts, p (erase <$> ts) = erase_rest (p ts).
Definition blind_token (p : P Token) : Prop := ∀ ts,
  p (erase <$> ts) = match p ts with
                     | Some (Ok (t, ts')) => Some (Ok (erase t, erase <$> ts'))
                     | r => r
                     end.

Lemma blind_out {A} : blind (A:=A) p_out.
Proof. done. Qed.
Lemma blind_ret {A} (a : A) : blind (p_ret a).
Proof. done. Qed.
Lemma blind_raise {A} e : blind (A:=A) (p_raise e).
Proof. done. Qed.
Lemma blind_peek : blind_token p_peek.
Proof. by intros [|t ts]. Qed.
Lemma blind_advance : blind_token p_advance.
Proof. by intros [|t ts]. Qed.

Lemma blind_bind {A B} (p : P A) (q : A → P B) : blind p → (∀ a, blind (q a)) → blind (p_bind p q).
Proof.
  intros Hp Hq ts. unfold p_bind. rewrite Hp. destruct (p ts) as [[[a ts']|e]|]; [|done..]. apply Hq.
Qed.

Lemma blind_bind_token {A} (p : P Token) (q : Token → P A) :
  blind_token p → (∀ t, q (erase t) = q t) → (∀ t, blind (q t)) → blind (p_bind p q).
Proof.
  intros Hp He Hq ts. unfold p_bind. rewrite Hp. destruct (p ts) as [[[a ts']|e]|]; [|done..].
  rewrite He. apply Hq.
Qed.

Create HintDb blind.
#[export] Hint Resolve blind_out blind_ret blind_raise blind_peek blind_advance : blind.

Ltac blind_step :=
  lazymatch goal with
  | |- ∀ _, blind _ => intros ?
  | |- blind (if ?b then _ else _) => destruct b
  | |- blind (let (_, _) := ?x in _) => destruct x
  | |- blind (p_bind _ _) =>
      first [solve [auto 2 with blind nocore]
            |apply blind_bind_token; [solve [auto 2 with blind nocore]|reflexivity|]
            |apply blind_bind; [solve [repeat blind_step]|]]
  | |- blind (match ?x with _ => _ end) => destruct x
  | |- blind _ => auto 3 with blind nocore
  end.
Ltac blind_tac := repeat blind_step.

Lemma blind_expect ty : blind_token (expect ty).
Proof. intros [|t ts]; unfold expect, p_bind, p_peek; cbn; by case_bool_decide. Qed.
Lemma blind_expect_value ty v : blind_token (expect_value ty v).
Proof. intros [|t ts]; unfold expect_value, p_bind, p_peek; cbn; repeat case_bool_decide; done. Qed.
Lemma blind_expect_keyword k : blind_token (expect_keyword k).
Proof.
  intros [|t ts]; [done|]. unfold expect_keyword, p_bind, p_peek. cbn [fmap list_fmap peek].
  change (is_keyword k (erase t)) with (is_keyword k t). by destruct (is_keyword k t).
Qed.
#[export] Hint Resolve blind_expect blind_expect_value blind_expect_keyword : blind.

Lemma blind_maybe k : blind (maybe_keyword k).
Proof. unfold maybe_keyword. blind_tac. Qed.
Lemma blind_name : blind expect_name.
Proof. unfold expect_name. blind_tac. Qed.
Lemma blind_int s : blind (p_int s).
Proof. unfold p_int. blind_tac. Qed.
#[export] Hint Resolve blind_maybe blind_name blind_int : blind.
Lemma blind_literal : blind parse_literal.
Proof. unfold parse_literal. blind_tac. Qed.
#[export] Hint Resolve blind_literal : blind.

Lemma blind_while {A} m cond (f : A → P A) a :
  (∀ t, cond (erase t) = cond t) → (∀ a, blind (f a)) → blind (p_while m cond f a).
Proof.
  intros Hc Hf. revert a. induction m as [|m IH]; intros a; [done|]. cbn [p_while].
  apply blind_bind_token; [apply blind_peek| |].
  - intros t. by rewrite Hc.
  - intros t. destruct (cond t); [|done]. by apply blind_bind.
Qed.

Lemma blind_items {A} m (f : A → P A) a : (∀ a, blind (f a)) → blind (p_items m f a).
Proof.
  intros Hf. revert a. induction m as [|m IH]; intros a; [done|]. cbn [p_items].
  apply blind_bind; [done|]. intros b. blind_tac.
Qed.

Lemma blind_list {A} m (item : P A) : blind item → blind (p_list m item).
Proof. intros Hi. unfold p_list. apply blind_bind; [done|]. intros x. apply blind_while; [done|]. blind_tac. Qed.
Lemma blind_clause {A} k (p : P A) : blind p → blind (clause k p).
Proof. intros Hp. unfold clause. blind_tac. Qed.
Lemma blind_clause_token k p : blind_token p → ∀ {A} (q : P A), blind q → blind (let% _ := clause k p in q).
Proof.
  intros Hp A q Hq.
  assert (∀ ts, (let% _ := clause k p in q) ts = (let% b := maybe_keyword k in if b : bool then let% _ := p in q else q) ts) as E.
  { intros ts. unfold clause, p_bind. destruct (maybe_keyword k ts) as [[[[] ts']|]|]; try done.
    by destruct (p ts') as [[[t ts2]|]|]. }
  intros ts. rewrite !E. revert ts. change (blind (let% b := maybe_keyword k in if b : bool then let% _ := p in q else q)).
  blind_tac.
Qed.
#[export] Hint Extern 0 (blind (p_while _ _ _ _)) => apply blind_while; [done|]; blind_tac : blind.
#[export] Hint Extern 0 (blind (p_items _ _ _)) => apply blind_items; blind_tac : blind.
#[export] Hint Extern 0 (blind (p_list _ _)) => apply blind_list; blind_tac : blind.
#[export] Hint Extern 0 (blind (clause _ _)) => apply blind_clause; blind_tac : blind.

Section Blind.
Variable n : nat.
Variable e : P Expression.
Variable s : P SelectStatement.
Hypothesis He : blind e.
Hypothesis Hs : blind s.
Hint Resolve He Hs : blind.

Lemma blind_function_call name : blind (parse_function_call n e name).
Proof. unfold parse_function_call. destruct name; blind_tac. Qed.
Hint Resolve blind_function_call : blind.
Lemma blind_case : blind (parse_case n e).
Proof. unfold parse_case. blind_tac. Qed.
Hint Resolve blind_case : blind.
Lemma blind_primary : blind (parse_primary n e s).
Proof. unfold parse_primary, parse_exists, parse_name. blind_tac. Qed.
Hint Resolve blind_primary : blind.
Lemma blind_unary m : blind (parse_unary n e s m).
Proof. induction m as [|m IH]; [done|]. cbn [parse_unary]. blind_tac. Qed.
Hint Resolve blind_unary : blind.

Lemma blind_addition : blind (parse_addition n e s).
Proof. unfold parse_addition, parse_multiplication, parse_chain. blind_tac. Qed.
Hint Resolve blind_addition : blind.
Lemma blind_comparison : blind (parse_comparison n e s).
Proof. unfold parse_comparison, parse_is. blind_tac. Qed.
Hint Resolve blind_comparison : blind.
Lemma blind_not m : blind (parse_not n e s m).
Proof. induction m as [|m IH]; [done|]. cbn [parse_not]. blind_tac. Qed.
Hint Resolve blind_not : blind.
Lemma blind_or : blind (parse_or n e s).
Proof. unfold parse_or, parse_and, parse_keyword_chain. blind_tac. Qed.

Lemma blind_columns : blind (parse_select_columns n e).
Proof.
  unfold parse_select_columns. apply blind_items. intros l. blind_tac. apply blind_clause_token; auto with blind.
Qed.
Lemma blind_from : blind parse_from.
Proof. unfold parse_from. blind_tac. Qed.
Lemma blind_join : blind (parse_join e).
Proof. unfold parse_join, parse_join_type. blind_tac. Qed.
Hint Resolve blind_columns blind_from blind_join : blind.
Lemma blind_select : blind (parse_select n e).
Proof. unfold parse_select, by_clause, parse_order_by, parse_count. blind_tac. Qed.
End Blind.

Lemma blind_expression n : blind (parse_expression n).
Proof.
  induction n as [|n IH]; [done|]. cbn [parse_expression]. apply blind_or; [done|]. by apply blind_select.
Qed.

Section BlindStatements.
Variable n : nat.
Variable e : P Expression.
Variable s : P SelectStatement.
Hypothesis He : blind e.
Hypothesis Hs : blind s.
Hint Resolve He Hs : blind.

Lemma blind_names : blind (parse_names n).
Proof. unfold parse_names. blind_tac. Qed.
Hint Resolve blind_names : blind.
Lemma blind_attributes a : blind (parse_attributes n a).
Proof. revert a. induction n as [|m IH]; intros a; [done|]. cbn [parse_attributes]. blind_tac. Qed.
Hint Resolve blind_attributes : blind.
Lemma blind_type {A} (q : Token → P A) :
  (∀ t, q (erase t) = q t) → (∀ t, blind (q t)) →
  blind (let% t := p_advance in let% t := (if is_keyword Keyword.NOT t then p_advance else p_ret t) in q t).
Proof.
  intros Hq Hb [|t ts]; [done|]. unfold p_bind. cbn [fmap list_fmap p_advance].
  change (is_keyword Keyword.NOT (erase t)) with (is_keyword Keyword.NOT t).
  destruct (is_keyword Keyword.NOT t); [destruct ts as [|u ts]; [done|]|]; cbn [fmap list_fmap p_advance p_ret];
    rewrite Hq; apply Hb.
Qed.
Lemma blind_column_def : blind (parse_column_def n).
Proof. unfold parse_column_def. apply blind_bind; [auto with blind|]. intros x. apply blind_type; [done|]. blind_tac. Qed.
Hint Resolve blind_column_def : blind.
Lemma blind_column_defs : blind (parse_column_defs n).
Proof. unfold parse_column_defs. blind_tac. Qed.
Hint Resolve blind_column_defs : blind.

Lemma blind_statement self : blind self → blind (parse_statement n e s self).
Proof.
  intros H. unfold parse_statement, parse_insert, parse_create, parse_drop, parse_delete, parse_update, parse_alter,
    parse_use, parse_show, parse_transaction, both_keywords.
  blind_tac.
Qed.
End BlindStatements.

Lemma blind_parse n : blind (parse_fuel n).
Proof.
  induction n as [|n IH]; [done|]. cbn [parse_fuel].
  apply blind_statement; [apply blind_expression|apply blind_select, blind_expression|done].
Qed.

(** * Statements from their text *)

Definition show_clause {A} (k : Keyword.t) (f : A → list Token) (o : option A) : list Token :=
  match o with Some a => keyword_token k :: f a | None => [] end.

(** GROUP BY and ORDER BY, with one item: the lexer has no commas. *)
Definition show_by {A} (k : Keyword.t) (f : A → list Token) (l : list A) : list Token :=
  match l with [a] => keyword_token k :: keyword_token Keyword.BY :: f a | _ => [] end.

Definition show_name (s : pystr) : list Token := [name_token s].
Definition show_count (z : Z) : list Token := [number_token (dec z)].
Definition show_order (o : OrderByItem) : list Token :=
  match o with OrderBy e d => show 0 e ++ match d with DESC => [keyword_token Keyword.DESC] | ASC => [] end end.

Definition join_types : list Keyword.t := [Keyword.LEFT; Keyword.RIGHT; Keyword.FULL; Keyword.CROSS].
Definition show_join (j : JoinClause) : list Token :=
  match j with
  | Join ty table alias on =>
      match keyword_of ty with
      | Some k => if bool_decide (k ∈ join_types) then [keyword_token k] else []
      | None => []
      end ++ keyword_token Keyword.JOIN :: name_token table ::
      show_clause Keyword.AS show_name alias ++ show_clause Keyword.ON (show 0) on
  end.

Definition show_tail (joins : list JoinClause) (w : option Expression) (g : list Expression) (h : option Expression)
    (o : list OrderByItem) (limit offset : option Z) : list Token :=
  concat (show_join <$> joins) ++ show_clause Keyword.WHERE (show 0) w ++ show_by Keyword.GROUP (show 0) g ++
  show_clause Keyword.HAVING (show 0) h ++ show_by Keyword.ORDER show_order o ++
  show_clause Keyword.LIMIT show_count limit ++ show_clause Keyword.OFFSET show_count offset.

(** The tokens of a statement; a form with a list of several is not shown. *)
Fixpoint show_statement (s : Statement) : list Token :=
  match s with
  | SelectStmt (Select [c] (Some table) alias joins w g h o limit offset distinct) =>
      keyword_token Keyword.SELECT :: (if distinct then [keyword_token Keyword.DISTINCT] else []) ++
      show 0 c ++ keyword_token Keyword.FROM :: name_token table :: show_clause Keyword.AS show_name alias ++
      show_tail joins w g h o limit offset
  | DeleteStatement table w =>
      keyword_token Keyword.DELETE :: keyword_token Keyword.FROM :: name_token table ::
      show_clause Keyword.WHERE (show 0) w
  | UpdateStatement table [(col, e)] w =>
      keyword_token Keyword.UPDATE :: name_token table :: keyword_token Keyword.SET :: name_token col ::
      operator_token (str "=") :: show 0 e ++ show_clause Keyword.WHERE (show 0) w
  | DropColumn table col =>
      [keyword_token Keyword.ALTER; keyword_token Keyword.TABLE; name_token table;
       keyword_token Keyword.DROP; keyword_token Keyword.COLUMN; name_token col]
  | UseStatement db => [keyword_token Keyword.USE; name_token db]
  | TransactionStatement action =>
      match keyword_of action with Some k => [keyword_token k; keyword_token Keyword.TRANSACTION] | None => [] end
  | ExplainStatement s => keyword_token Keyword.EXPLAIN :: show_statement s
  | _ => []
  end.

(** The statements whose text is read back. *)
Definition some_printable (o : option Expression) : Prop := match o with Some e => printable e | None => True end.
Definition countable (o : option Z) : Prop := match o with Some z => (0 <= z < 10 ^ max_str_digits)%Z | None => True end.
Definition writable_join (j : JoinClause) : Prop :=
  match j with
  | Join ty _ _ on => ty ∈ str <$> ["INNER"; "LEFT"; "RIGHT"; "FULL"; "CROSS"] ∧ some_printable on
  end.
Definition is_star (e : Expression) : bool := match e with StarExpression None => true | _ => false end.

Fixpoint writable (s : Statement) : Prop :=
  match s with
  | SelectStmt (Select [c] (Some _) _ joins w g h o limit offset _) =>
      (printable c ∧ is_token OPERATOR "*" (peek (show 0 c)) = is_star c) ∧
      Forall writable_join joins ∧ some_printable w ∧ (length g ≤ 1 ∧ Forall printable g) ∧ some_printable h ∧
      (length o ≤ 1 ∧ Forall (λ i, match i with OrderBy e _ => printable e end) o) ∧
      countable limit ∧ countable offset
  | DeleteStatement _ w => some_printable w
  | UpdateStatement _ [(_, e)] w => printable e ∧ some_printable w
  | DropColumn _ _ | UseStatement _ => True
  | TransactionStatement action => action ∈ str <$> ["BEGIN"; "COMMIT"; "ROLLBACK"]
  | ExplainStatement s => writable s
  | _ => False
  end.

(** What comes next is the end or one of some keywords. *)
Definition follows (ks : list Keyword.t) (ts : list Token) : Prop :=
  peek ts ∈ eof_token :: (keyword_token <$> ks).

Lemma follows_test (f : Token → bool) ks ts :
  follows ks ts → forallb f (eof_token :: (keyword_token <$> ks)) = true → f (peek ts) = true.
Proof. intros Hf. rewrite forallb_forall. intros H. apply H. by apply list_elem_of_In. Qed.

Lemma follows_weaken ks ks' ts : follows ks ts → ks ⊆ ks' → follows ks' ts.
Proof. unfold follows. intros H Hk. set_solver. Qed.

Definition within (ks ks' : list Keyword.t) : bool := forallb (λ k, bool_decide (k ∈ ks')) ks.
Lemma within_subseteq ks ks' : within ks ks' = true → ks ⊆ ks'.
Proof.
  unfold within. rewrite forallb_forall. intros H k Hk. apply list_elem_of_In in Hk.
  apply (bool_decide_unpack _). rewrite (H k Hk). exact I.
Qed.

Lemma follows_clause {A} k (f : A → list Token) o ks rest :
  follows ks rest → follows (k :: ks) (show_clause k f o ++ rest).
Proof.
  intros H. destruct o as [a|]; [|by eapply follows_weaken; [exact H|set_solver]].
  unfold follows. cbn. set_solver.
Qed.
Lemma follows_by {A} k (f : A → list Token) l ks rest :
  follows ks rest → follows (k :: ks) (show_by k f l ++ rest).
Proof.
  intros H. destruct l as [|a [|b l]]; [|unfold follows; cbn; set_solver|];
    (eapply follows_weaken; [exact H|set_solver]).
Qed.

Lemma advance_ok {A} (q : Token → P A) t ts : p_bind p_advance q (t :: ts) = q t ts.
Proof. done. Qed.

Lemma maybe_yes {A} k (q : bool → P A) ts : p_bind (maybe_keyword k) q (keyword_token k :: ts) = q true ts.
Proof. apply bind_ok. unfold maybe_keyword, p_bind, p_peek, is_keyword. cbn. by rewrite !bool_decide_eq_true_2. Qed.

(** A keyword that is not among those that can follow is not there. *)
Lemma maybe_not {A} k ks (q : bool → P A) ts :
  follows ks ts → bool_decide (k ∈ ks) = false → p_bind (maybe_keyword k) q ts = q false ts.
Proof.
  intros Hf Hk. apply maybe_no. apply bool_decide_eq_false in Hk.
  unfold follows in Hf. apply elem_of_cons in Hf as [->|Hf]; [done|].
  apply list_elem_of_fmap in Hf as (k' & -> & Hk'). unfold is_keyword. cbn.
  rewrite (bool_decide_eq_false_2 (Some k' = Some k)); [by rewrite andb_false_r|]. by intros [= <-].
Qed.

Lemma clause_reads {A} k ks (p : P A) f o rest :
  (∀ a, o = Some a → p (f a ++ rest) = Some (Ok (a, rest))) →
  follows ks rest → bool_decide (k ∈ ks) = false →
  clause k p (show_clause k f o ++ rest) = Some (Ok (o, rest)).
Proof.
  intros Hp Hf Hk. unfold clause. destruct o as [a|]; cbn [show_clause app].
  - rewrite maybe_yes. by erewrite bind_ok by (by apply Hp).
  - by rewrite (maybe_not k ks).
Qed.

Lemma by_reads {A} k ks (p : P (list A)) f l rest :
  length l ≤ 1 → (∀ a, l = [a] → p (f a ++ rest) = Some (Ok ([a], rest))) →
  follows ks rest → bool_decide (k ∈ ks) = false →
  by_clause k p (show_by k f l ++ rest) = Some (Ok (l, rest)).
Proof.
  intros Hl Hp Hf Hk. unfold by_clause. destruct l as [|a [|b l]]; cbn [show_by app length] in *; [| |lia].
  - erewrite bind_ok by (by apply (clause_reads k ks _ (λ _, []) None)). done.
  - erewrite bind_ok; [|apply (clause_reads k ks _ (λ _, keyword_token Keyword.BY :: f a) (Some [a])); [|done..]]; [done|].
    intros l' [= <-]. cbn [app]. rewrite (bind_ok _ _ _ (f a ++ rest) (keyword_token Keyword.BY)) by done. by apply Hp.
Qed.

Lemma count_reads k ks o rest :
  countable o → follows ks rest → bool_decide (k ∈ ks) = false →
  parse_count k (show_clause k show_count o ++ rest) = Some (Ok (o, rest)).
Proof.
  intros Ho Hf Hk. unfold parse_count. apply (clause_reads k ks); [|done..]. intros z ->.
  rewrite (bind_ok _ _ _ rest (number_token (dec z))) by done. unfold p_int. cbn [value number_token].
  by rewrite py_int_dec.
Qed.

(** The keywords after the clauses of a statement. *)
Definition clause_keywords : list Keyword.t :=
  join_keywords ++ [Keyword.ON; Keyword.AS; Keyword.FROM; Keyword.WHERE; Keyword.GROUP; Keyword.HAVING; Keyword.ORDER; Keyword.LIMIT;
   Keyword.OFFSET; Keyword.DESC].

Lemma follows_stops ks ts : follows ks ts → within ks clause_keywords = true → stops 0 ts ∧ comma (peek ts) = false.
Proof.
  intros Hf Hk. pose proof (follows_weaken _ _ _ Hf (within_subseteq _ _ Hk)) as H. split.
  - apply stops_token. apply (follows_test _ _ _ H). by vm_compute.
  - apply negb_true_iff. apply (follows_test (λ t, negb (comma t)) _ _ H). by vm_compute.
Qed.

Lemma follows_reads e ks rest n :
  printable e → follows ks rest → within ks clause_keywords = true → length (show 0 e ++ rest) < n →
  parse_expression n (show 0 e ++ rest) = Some (Ok (e, rest)).
Proof. intros Hp Hf Hk Hn. apply show_reads; [done| |done]. by eapply follows_stops. Qed.

Lemma list_one {A} n (p : P A) a ts rest :
  0 < n → p ts = Some (Ok (a, rest)) → comma (peek rest) = false → p_list n p ts = Some (Ok ([a], rest)).
Proof.
  destruct n as [|n]; [lia|]. intros _ Hp Hc. unfold p_list. erewrite bind_ok by exact Hp. by apply while_stop.
Qed.

Lemma items_one {A} n (f : A → P A) a b ts rest :
  0 < n → f a ts = Some (Ok (b, rest)) → comma (peek rest) = false → p_items n f a ts = Some (Ok (b, rest)).
Proof.
  destruct n as [|n]; [lia|]. intros _ Hp Hc. cbn [p_items]. erewrite bind_ok by exact Hp. unfold p_bind, p_peek. by rewrite Hc.
Qed.

(** The name after AS is read, and no other is taken for one. *)
Lemma from_reads table alias ks rest :
  follows ks rest → within ks clause_keywords = true → bool_decide (Keyword.AS ∈ ks) = false →
  parse_from (keyword_token Keyword.FROM :: name_token table :: show_clause Keyword.AS show_name alias ++ rest) =
  Some (Ok ((Some table, alias), rest)).
Proof.
  intros Hf Hk Ha. unfold parse_from. rewrite maybe_yes. erewrite (bind_ok expect_name) by done.
  destruct alias as [a|]; cbn [show_clause show_name app].
  - rewrite maybe_yes. by erewrite bind_ok by done.
  - rewrite (maybe_not _ ks) by done. unfold p_bind, p_peek.
    rewrite (bool_decide_eq_false_2 (token_type (peek rest) = IDENTIFIER)); [done|].
    intros E. assert (match token_type (peek rest) with IDENTIFIER => false | _ => true end = true) as H; [|by rewrite E in H].
    apply (follows_test (λ t, match token_type t with IDENTIFIER => false | _ => true end) clause_keywords);
      [by eapply follows_weaken, within_subseteq|by vm_compute].
Qed.

Section Tail.
Variable n : nat.
#[local] Abbreviation e := (parse_expression n).

(** What can follow a join. *)
Definition after_joins : list Keyword.t :=
  join_keywords ++ [Keyword.WHERE; Keyword.GROUP; Keyword.HAVING; Keyword.ORDER; Keyword.LIMIT; Keyword.OFFSET].

Lemma join_type_reads ty rest :
  ty ∈ str <$> ["INNER"; "LEFT"; "RIGHT"; "FULL"; "CROSS"] →
  parse_join_type (match keyword_of ty with
                   | Some k => if bool_decide (k ∈ join_types) then [keyword_token k] else []
                   | None => []
                   end ++ keyword_token Keyword.JOIN :: rest) =
  Some (Ok (ty, keyword_token Keyword.JOIN :: rest)).
Proof.
  intros H. apply list_elem_of_fmap in H as (s & -> & H). set_unfold in H.
  repeat destruct H as [->|H]; [vm_compute; reflexivity..|done].
Qed.

Lemma join_reads j rest :
  writable_join j → follows after_joins rest → length (show_join j ++ rest) ≤ n →
  parse_join e (show_join j ++ rest) = Some (Ok (j, rest)).
Proof.
  destruct j as [ty table alias on]. intros [Hty Hon] Hf Hn. unfold show_join in *.
  rewrite <-app_assoc. rewrite <-app_assoc in Hn. cbn [app] in *. unfold parse_join.
  erewrite bind_ok by (by apply join_type_reads). rewrite maybe_yes. erewrite (bind_ok expect_name) by done.
  rewrite <-app_assoc. rewrite length_app in Hn. cbn [length] in Hn. rewrite !length_app in Hn.
  erewrite bind_ok.
  2:{ apply (clause_reads Keyword.AS (Keyword.ON :: after_joins)); [by intros a _|by apply follows_clause|done]. }
  erewrite bind_ok; [done|].
  apply (clause_reads Keyword.ON after_joins); [|done..]. intros x ->.
  apply (follows_reads x after_joins); [done|done|by vm_compute|]. cbn [show_clause length] in Hn.
  rewrite length_app. lia.
Qed.

Lemma join_begins j rest : ∃ k ts, k ∈ join_keywords ∧ show_join j ++ rest = keyword_token k :: ts.
Proof.
  destruct j as [ty table alias on]. unfold show_join. rewrite <-app_assoc.
  destruct (keyword_of ty) as [k|]; [case_bool_decide as Hk|].
  - exists k. eexists. split; [|done]. unfold join_types in Hk. unfold join_keywords. set_solver.
  - exists Keyword.JOIN. eexists. split; [by left|done].
  - exists Keyword.JOIN. eexists. split; [by left|done].
Qed.

Lemma follows_joins joins rest : follows after_joins rest → follows after_joins (concat (show_join <$> joins) ++ rest).
Proof.
  destruct joins as [|j joins]; [done|]. intros _. cbn [fmap list_fmap concat]. rewrite <-app_assoc.
  destruct (join_begins j (concat (show_join <$> joins) ++ rest)) as (k & ts & Hk & ->).
  unfold follows. cbn [peek]. right. apply list_elem_of_fmap. exists k. split; [done|]. apply elem_of_app. by left.
Qed.

Lemma joins_shorter joins : length joins ≤ length (concat (show_join <$> joins)).
Proof.
  induction joins as [|j joins IH]; [done|]. cbn [fmap list_fmap concat length]. rewrite length_app.
  destruct (join_begins j []) as (k & ts & _ & E). rewrite app_nil_r in E. rewrite E. cbn [length]. lia.
Qed.

Lemma joins_read m acc joins rest :
  Forall writable_join joins → follows after_joins rest → among_keywords join_keywords (peek rest) = false →
  length (concat (show_join <$> joins) ++ rest) ≤ n → length joins < m →
  p_while m (among_keywords join_keywords) (λ l, let% j := parse_join e in p_ret (l ++ [j])) acc
    (concat (show_join <$> joins) ++ rest) = Some (Ok (acc ++ joins, rest)).
Proof.
  intros Hj Hf Hr Hn. revert m acc Hn. induction Hj as [|j joins Hj _ IH]; intros m acc Hn Hm; (destruct m as [|m]; [cbn in Hm; lia|]).
  { rewrite app_nil_r. by apply while_stop. }
  cbn [fmap list_fmap concat length] in *. rewrite <-app_assoc in Hn |- *.
  assert (length (concat (show_join <$> joins) ++ rest) ≤ n) as Hn' by (rewrite length_app in Hn; lia).
  erewrite while_step.
  - rewrite (IH m (acc ++ [j])); [by rewrite <-app_assoc|done|lia].
  - destruct (join_begins j (concat (show_join <$> joins) ++ rest)) as (k & ts & Hk & ->).
    clear -Hk. unfold join_keywords in Hk. set_unfold in Hk. by repeat destruct Hk as [->|Hk].
  - erewrite bind_ok by (apply join_reads; [done|by apply follows_joins|done]). done.
Qed.

Lemma order_reads i ks rest :
  (match i with OrderBy x _ => printable x end) → follows ks rest → within (Keyword.DESC :: ks) clause_keywords = true →
  bool_decide (Keyword.DESC ∈ ks) = false → bool_decide (Keyword.ASC ∈ ks) = false →
  length (show_order i ++ rest) < n →
  parse_order_by n e (show_order i ++ rest) = Some (Ok ([i], rest)).
Proof.
  destruct i as [x d]. intros Hx Hf Hk Hd Ha Hn. unfold parse_order_by, show_order in *.
  pose proof (follows_stops ks rest Hf) as Hs. destruct Hs as [_ Hc].
  { unfold within in *. cbn [forallb] in Hk. by apply andb_true_iff in Hk as [_ ?]. }
  apply (items_one n _ [] [OrderBy x d]); [lia| |done]. rewrite <-app_assoc in Hn |- *.
  erewrite bind_ok.
  2:{ apply (follows_reads x (Keyword.DESC :: ks)); [done| |done|done].
      destruct d; [eapply follows_weaken; [exact Hf|set_solver]|unfold follows; cbn; set_solver]. }
  destruct d; cbn [app].
  - rewrite (maybe_not _ ks) by done. by rewrite (maybe_not _ ks) by done.
  - by rewrite maybe_yes.
Qed.
End Tail.

Lemma show_nonempty c : printable c → show 0 c ≠ [].
Proof.
  intros Hc E. assert (parse_expression 1 (show 0 c ++ []) = Some (Ok (c, []))) as H.
  { apply show_reads; [done|by apply stops_token|rewrite E; cbn; lia]. }
  rewrite E in H. done.
Qed.

Section Select.
Variable n : nat.
#[local] Abbreviation e := (parse_expression n).

Lemma columns_read c rest :
  printable c → is_token OPERATOR "*" (peek (show 0 c)) = is_star c → follows [Keyword.FROM] rest →
  length (show 0 c ++ rest) < n →
  parse_select_columns n e (show 0 c ++ rest) = Some (Ok ([c], rest)).
Proof.
  intros Hc Hstar Hf Hn. unfold parse_select_columns.
  apply (items_one n _ [] [c]); [lia| |by eapply follows_stops].
  destruct (is_star c) eqn:Es.
  { destruct c; try done. by destruct table_name. }
  assert (peek (show 0 c ++ rest) = peek (show 0 c)) as Hp.
  { by destruct (show 0 c) eqn:E; [apply show_nonempty in E|]. }
  unfold p_bind at 1. unfold p_peek. rewrite Hp, Hstar.
  erewrite bind_ok by (by apply (follows_reads c [Keyword.FROM])).
  erewrite bind_ok; [done|]. apply (clause_reads Keyword.AS [Keyword.FROM] _ (λ _, []) None); done.
Qed.

Lemma no_distinct c rest :
  printable c → follows [Keyword.FROM] rest → length (show 0 c ++ rest) < n →
  is_keyword Keyword.DISTINCT (peek (show 0 c ++ rest)) = false.
Proof.
  intros Hc Hf Hn. apply not_true_iff_false. intros H.
  pose proof (follows_reads c [Keyword.FROM] rest n Hc Hf ltac:(done) Hn) as E.
  rewrite (expression_error n) in E; [done|lia|by right].
Qed.

Lemma shorter {A} (l1 l2 : list A) : length (l1 ++ l2) < n → length l2 < n.
Proof. rewrite length_app. lia. Qed.

Lemma expression_clause_reads k ks o rest :
  some_printable o → follows ks rest → within ks clause_keywords = true → bool_decide (k ∈ ks) = false →
  length (show_clause k (show 0) o ++ rest) < n →
  clause k e (show_clause k (show 0) o ++ rest) = Some (Ok (o, rest)).
Proof.
  intros Ho Hf Hk Hb Hn. apply (clause_reads k ks); [|done..]. intros x ->.
  apply (follows_reads x ks); [done..|]. cbn in Hn |- *. lia.
Qed.

Lemma group_reads ks g rest :
  length g ≤ 1 → Forall printable g → follows ks rest → within ks clause_keywords = true →
  bool_decide (Keyword.GROUP ∈ ks) = false →
  length (show_by Keyword.GROUP (show 0) g ++ rest) < n →
  by_clause Keyword.GROUP (p_list n e) (show_by Keyword.GROUP (show 0) g ++ rest) = Some (Ok (g, rest)).
Proof.
  intros Hg Hp Hf Hk Hb Hn. apply (by_reads _ ks); [done| |done..]. intros x ->. apply Forall_cons in Hp as [Hp _].
  apply list_one; [lia| |by eapply follows_stops]. apply (follows_reads x ks); [done..|]. cbn in Hn |- *. lia.
Qed.

Lemma order_by_reads ks o rest :
  length o ≤ 1 → Forall (λ i, match i with OrderBy x _ => printable x end) o → follows ks rest →
  within (Keyword.DESC :: ks) clause_keywords = true → bool_decide (Keyword.ORDER ∈ ks) = false →
  bool_decide (Keyword.DESC ∈ ks) = false → bool_decide (Keyword.ASC ∈ ks) = false →
  length (show_by Keyword.ORDER show_order o ++ rest) < n →
  by_clause Keyword.ORDER (parse_order_by n e) (show_by Keyword.ORDER show_order o ++ rest) = Some (Ok (o, rest)).
Proof.
  intros Ho Hp Hf Hk Hb Hd Ha Hn. apply (by_reads _ ks); [done| |done..]. intros i ->. apply Forall_cons in Hp as [Hp _].
  apply (order_reads n i ks); [done..|]. cbn in Hn |- *. lia.
Qed.

Lemma select_reads c table alias joins w g h o limit offset distinct :
  let s := SelectStmt (Select [c] (Some table) alias joins w g h o limit offset distinct) in
  writable s → length (show_statement s ++ [eof_token]) ≤ n →
  parse_select n e (show_statement s ++ [eof_token]) =
  Some (Ok (Select [c] (Some table) alias joins w g h o limit offset distinct, [eof_token])).
Proof.
  intros s ((Hc & Hstar) & Hj & Hw & (Hg1 & Hg) & Hh & (Ho1 & Ho) & Hl & Hoff).
  subst s. cbn [show_statement]. unfold show_tail.
  repeat (rewrite <-app_assoc || rewrite <-app_comm_cons).
  assert (follows [] [eof_token]) as F7 by (by left).
  set (t7 := [eof_token]) in *.
  set (t6 := show_clause Keyword.OFFSET show_count offset ++ t7).
  set (t5 := show_clause Keyword.LIMIT show_count limit ++ t6).
  set (t4 := show_by Keyword.ORDER show_order o ++ t5).
  set (t3 := show_clause Keyword.HAVING (show 0) h ++ t4).
  set (t2 := show_by Keyword.GROUP (show 0) g ++ t3).
  set (t1 := show_clause Keyword.WHERE (show 0) w ++ t2).
  set (t0 := concat (show_join <$> joins) ++ t1).
  set (ts := show_clause Keyword.AS show_name alias ++ t0).
  pose proof (follows_clause Keyword.OFFSET show_count offset _ _ F7 : follows _ t6) as F6.
  pose proof (follows_clause Keyword.LIMIT show_count limit _ _ F6 : follows _ t5) as F5.
  pose proof (follows_by Keyword.ORDER show_order o _ _ F5 : follows _ t4) as F4.
  pose proof (follows_clause Keyword.HAVING (show 0) h _ _ F4 : follows _ t3) as F3.
  pose proof (follows_by Keyword.GROUP (show 0) g _ _ F3 : follows _ t2) as F2.
  pose proof (follows_clause Keyword.WHERE (show 0) w _ _ F2 : follows _ t1) as F1.
  assert (follows after_joins t0) as F0
    by (by apply follows_joins; eapply follows_weaken; [exact F1|by apply within_subseteq]).
  set (tf := keyword_token Keyword.FROM :: name_token table :: ts).
  assert (follows [Keyword.FROM] tf) as Ff by (right; left).
  intros Hn. cbn [length] in Hn. apply shorter in Hn as Nc.
  assert (length t0 < n) as N0 by (rewrite !length_app in Nc; unfold tf, ts in Nc; cbn [length] in Nc; rewrite length_app in Nc; lia).
  pose proof (shorter _ _ N0 : length t1 < n) as N1. pose proof (shorter _ _ N1 : length t2 < n) as N2.
  pose proof (shorter _ _ N2 : length t3 < n) as N3. pose proof (shorter _ _ N3 : length t4 < n) as N4.
  unfold parse_select. rewrite advance_ok.
  erewrite bind_ok.
  2:{ instantiate (1 := show 0 c ++ tf). instantiate (1 := distinct). destruct distinct; [done|].
      destruct (maybe_keyword_cases Keyword.DISTINCT (show 0 c ++ tf)) as [(t & ts' & E & Ht & _)|[_ E]]; [|exact E].
      pose proof (no_distinct c tf Hc Ff Nc) as Hd. rewrite E in Hd. cbn in Hd. congruence. }
  erewrite bind_ok by (by apply columns_read). unfold tf, ts.
  erewrite bind_ok by (by apply (from_reads table alias after_joins t0)). cbv beta iota.
  assert (length joins < n) as Nj.
  { pose proof (joins_shorter joins). unfold t0 in N0. rewrite length_app in N0. lia. }
  erewrite bind_ok.
  2:{ apply (joins_read n n [] joins t1); [done| | |by apply Nat.lt_le_incl|done].
      - eapply follows_weaken; [exact F1|by apply within_subseteq].
      - apply negb_true_iff. apply (follows_test (λ t, negb (among_keywords join_keywords t)) _ _ F1). by vm_compute. }
  cbn [app].
  erewrite bind_ok by (by eapply expression_clause_reads).
  erewrite bind_ok by (by eapply group_reads).
  erewrite bind_ok by (by eapply expression_clause_reads).
  erewrite bind_ok by (by eapply order_by_reads).
  erewrite bind_ok by (by eapply count_reads).
  by erewrite bind_ok by (by eapply count_reads).
Qed.
End Select.

(** * Statements *)

Lemma delete_reads n table w :
  some_printable w → length (show_clause Keyword.WHERE (show 0) w ++ [eof_token]) < n →
  parse_delete (parse_expression n) (show_statement (DeleteStatement table w) ++ [eof_token]) =
  Some (Ok (DeleteStatement table w, [eof_token])).
Proof.
  intros Hw Hn. unfold parse_delete. cbn [show_statement app]. rewrite advance_ok.
  erewrite bind_ok by done. erewrite bind_ok by done.
  erewrite bind_ok; [done|]. apply (expression_clause_reads n _ []); [done|by left|done..].
Qed.

Lemma update_reads n table col e w :
  printable e → some_printable w →
  length (show 0 e ++ show_clause Keyword.WHERE (show 0) w ++ [eof_token]) < n →
  parse_update n (parse_expression n) (show_statement (UpdateStatement table [(col, e)] w) ++ [eof_token]) =
  Some (Ok (UpdateStatement table [(col, e)] w, [eof_token])).
Proof.
  intros He Hw Hn. unfold parse_update. cbn [show_statement app]. rewrite advance_ok.
  erewrite bind_ok by done. erewrite bind_ok by done. rewrite <-app_assoc.
  assert (follows [Keyword.WHERE] (show_clause Keyword.WHERE (show 0) w ++ [eof_token])) as Hf
    by (apply follows_clause; by left).
  erewrite bind_ok.
  2:{ apply (items_one n _ [] [(col, e)]); [lia| |by eapply follows_stops].
      erewrite bind_ok by done. erewrite bind_ok by done.
      by erewrite bind_ok by (by apply (follows_reads e [Keyword.WHERE])). }
  erewrite bind_ok; [done|]. apply (expression_clause_reads n _ []); [done|by left|done..|].
  rewrite length_app in Hn. lia.
Qed.

Lemma statement_reads s n :
  writable s → length (show_statement s ++ [eof_token]) < n →
  parse_fuel n (show_statement s ++ [eof_token]) = Some (Ok (s, [eof_token])).
Proof.
  revert n. induction s as [s| | | | | | | | | | |s IH]; intros [|n] Hw Hn; try (by cbn in Hw); try lia.
  - destruct s as [[|c [|]] [table|] alias joins w g h o limit offset distinct]; try done.
    unshelve epose proof (select_reads (S n) c table alias joins w g h o limit offset distinct Hw _) as H; [lia|].
    change (p_bind (parse_select (S n) (parse_expression (S n))) (λ s, p_ret (SelectStmt s))
      (show_statement (SelectStmt (Select [c] (Some table) alias joins w g h o limit offset distinct)) ++ [eof_token]) =
      Some (Ok (SelectStmt (Select [c] (Some table) alias joins w g h o limit offset distinct), [eof_token]))).
    by erewrite bind_ok by exact H.
  - change (parse_delete (parse_expression (S n)) (show_statement (DeleteStatement table_name where_clause) ++ [eof_token]) =
      Some (Ok (DeleteStatement table_name where_clause, [eof_token]))).
    apply delete_reads; [done|]. cbn in Hn. lia.
  - destruct set_clauses as [|[col e] [|]]; try done. destruct Hw as [He Hw].
    change (parse_update (S n) (parse_expression (S n))
      (show_statement (UpdateStatement table_name [(col, e)] where_clause) ++ [eof_token]) =
      Some (Ok (UpdateStatement table_name [(col, e)] where_clause, [eof_token]))).
    apply update_reads; [done..|]. cbn in Hn. rewrite <-app_assoc in Hn. lia.
  - apply list_elem_of_fmap in Hw as (a & -> & Hw). set_unfold in Hw.
    assert (∀ k, keyword_of (str (Keyword.value k)) = Some k → upper (str (Keyword.value k)) = str (Keyword.value k) →
      parse_transaction [keyword_token k; keyword_token Keyword.TRANSACTION; eof_token] =
      Some (Ok (TransactionStatement (str (Keyword.value k)), [eof_token]))) as H.
    { intros k _ Hu. unfold parse_transaction. rewrite advance_ok, maybe_yes. cbn [keyword_token value]. by rewrite Hu. }
    repeat destruct Hw as [->|Hw]; [..|done].
    + by apply (H Keyword.BEGIN).
    + by apply (H Keyword.COMMIT).
    + by apply (H Keyword.ROLLBACK).
  - change (p_bind (parse_fuel n) (λ s, p_ret (ExplainStatement s)) (show_statement s ++ [eof_token]) =
      Some (Ok (ExplainStatement s, [eof_token]))).
    erewrite bind_ok by (apply IH; [done|cbn in Hn; lia]). done.
Qed.

(** C34: The statements that a text can say are read back from it: on the text of one of
    the forms below, each token followed by a space, the lexer and the parser give the
    statement. The forms are: SELECT of one column (DISTINCT or not) FROM a table, with an
    alias, joins (INNER, LEFT, RIGHT, FULL, CROSS), WHERE, GROUP BY and ORDER BY of one
    expression, HAVING, LIMIT and OFFSET of at most 4300 digits; DELETE and UPDATE of one
    assignment, with WHERE; ALTER TABLE DROP COLUMN; USE; BEGIN, COMMIT and ROLLBACK
    TRANSACTION; EXPLAIN of these. (Longer lists, INSERT and the columns of a table need
    punctuation, which the lexer does not make.) The expressions have no subqueries, no fractional
    numbers, none but the operators of the grammar and whole numbers from 0 of at most 4300
    digits; the column of a SELECT is the star alone or begins with none; and every token has a
    text: names are words that are not keywords, strings hold no quotes or backslashes, no
    operator is !=, and there are no parentheses, calls, commas or dots. *)
Theorem sql_text_roundtrip s :
  writable s → Forall lexeme (show_statement s) → parse_sql (render (show_statement s)) = Some (Ok s).
Proof.
  intros Hw Hl. destruct (tokenize_loop_render (S (length (render (show_statement s)))) (show_statement s)
    (SQLLexer.init (render (show_statement s))) Hl eq_refl) as (ts & l & c & E & He); [cbn; lia|].
  unfold parse_sql, SQLLexer.tokenize. rewrite E. unfold parse.
  set (ts' := ts ++ [mk_token EOF [] None l c]).
  assert (erase <$> ts' = erase <$> (show_statement s ++ [eof_token])) as Ht by (unfold ts'; by rewrite !fmap_app, He).
  set (n := S (length ts')). pose proof (blind_parse n ts') as Hb.
  rewrite Ht, (blind_parse n), statement_reads in Hb; [|done|].
  - destruct (parse_fuel n ts') as [[[s' r]|e]|]; [|done..]. by injection Hb as <- _.
  - unfold n. apply (f_equal length) in Ht. rewrite !length_fmap in Ht. lia.
Qed.

(** A test for the tokens that have a text. *)
Definition is_word (v : pystr) : bool :=
  forallb word_char v && match head v with Some c => ascii_alpha c || (c =? underscore)%Z | None => false end.
Definition is_lexeme (t : Token) : bool :=
  match token_type t with
  | IDENTIFIER =>
      is_word (value t) && bool_decide (keyword_of (upper (value t)) = None) && bool_decide (keyword t = None)
  | KEYWORD =>
      is_word (value t) && bool_decide (keyword t ≠ None) && bool_decide (keyword_of (upper (value t)) = keyword t)
  | NUMBER =>
      bool_decide (keyword t = None) && forallb is_digit (value t) && bool_decide (value t ≠ [])
  | STRING => bool_decide (keyword t = None ∧ quote ∉ value t ∧ backslash ∉ value t)
  | OPERATOR =>
      bool_decide (keyword t = None) &&
      (bool_decide (value t ∈ map (λ c, [c]) SQLLexer.SINGLE_CHAR_TOKENS) || bool_decide (value t ∈ [str "<="; str ">="]))
  | _ => false
  end.

Lemma is_word_spec v : is_word v = true → word v.
Proof.
  unfold is_word, word. rewrite andb_true_iff, forallb_forall. intros [H1 H2].
  split; [apply Forall_forall; intros c Hc; by apply H1, list_elem_of_In|]. destruct (head v) as [c|]; [by exists c|done].
Qed.

Lemma is_lexeme_spec t : is_lexeme t = true → lexeme t.
Proof.
  unfold is_lexeme, lexeme. destruct (token_type t); rewrite ?andb_true_iff, ?orb_true_iff, ?bool_decide_eq_true; [..|done|done].
  - intros [[H1 H2] H3]. split_and!; [by apply is_word_spec|by destruct (keyword t)|done].
  - intros [[H1 H2] H3]. split_and!; [by apply is_word_spec|done..].
  - intros [[H1 H2] H3]. split; [done|]. destruct (value t) as [|c a]; [done|]. cbn in H2. apply andb_true_iff in H2 as [Hc Ha].
    exists c, a. split_and!; [done| |by left]. rewrite forallb_forall in Ha. apply Forall_forall. intros x Hx.
    by apply Ha, list_elem_of_In.
  - done.
  - intros [H1 [H2|H2]]; (split; [done|]); [left|by right].
    change (value t ∈ (λ c, [c]) <$> SQLLexer.SINGLE_CHAR_TOKENS) in H2.
    apply list_elem_of_fmap in H2 as (c & -> & Hc). by exists c.
Qed.

Lemma all_lexemes ts : forallb is_lexeme ts = true → Forall lexeme ts.
Proof.
  rewrite forallb_forall. intros H. apply Forall_forall. intros t Ht. by apply is_lexeme_spec, H, list_elem_of_In.
Qed.

(** [EXPLAIN SELECT DISTINCT a FROM t AS u LEFT JOIN v ON a = b WHERE NOT a < 18 AND b IS NOT NULL
    ORDER BY a DESC LIMIT 10]. *)
Definition sample_query : Statement :=
  let col s := ColumnExpression (str s) None in
  ExplainStatement (SelectStmt (Select [col "a"] (Some (str "t")) (Some (str "u"))
    [Join (str "LEFT") (str "v") None (Some (BinaryExpression (str "=") (col "a") (col "b")))]
    (Some (BinaryExpression (str "AND")
       (UnaryExpression (str "NOT") (BinaryExpression (str "<") (col "a") (LiteralExpression (LInt 18%Z))))
       (BinaryExpression (str "IS NOT") (col "b") (LiteralExpression LNone))))
    [] None [OrderBy (col "a") DESC] (Some 10%Z) None true)).

Ltac printable_tac :=
  repeat match goal with
         | |- writable _ => cbn [writable]
         | |- printable _ => cbn [printable]
         | |- writable_join _ => cbn [writable_join]
         | |- some_printable _ => cbn [some_printable]
         | |- countable _ => cbn [countable]
         | |- _ ∧ _ => split
         | |- True => exact I
         | |- Forall _ _ => constructor
         | |- (0 <= _)%Z => lia
         | |- (_ < _)%Z => vm_compute; reflexivity
         | |- (_ ≤ _)%nat => cbn; lia
         | |- _ = _ => vm_compute; reflexivity
         | |- _ ∨ _ => first [left; split; [apply (bool_decide_unpack _); vm_compute; exact I|]
                             |right; split; [apply (bool_decide_unpack _); vm_compute; exact I|reflexivity]]
         | |- _ ∈ _ => apply (bool_decide_unpack _); vm_compute; exact I
         end.

Lemma sql_text_roundtrip_witness :
  let s := sample_query in
  render (show_statement s) =
    str "EXPLAIN SELECT DISTINCT a FROM t AS u LEFT JOIN v ON a = b WHERE NOT a < 18 AND b IS NOT NULL ORDER BY a DESC LIMIT 10 " ∧
  parse_sql (render (show_statement s)) = Some (Ok s).
Proof.
  intros s. split; [vm_compute; reflexivity|]. apply (sql_text_roundtrip s).
  - unfold s, sample_query. printable_tac.
  - apply all_lexemes. vm_compute. reflexivity.
Defined.
