(* ===== verification/SqlPunctuation.v ===== *)
(** What no SQL text can say: the lexer makes no PUNCTUATION tokens, so that every
    statement the parser gives for a text is flat: no lists, calls or parentheses. *)

From Stdlib Require Import String.
From S2P Require Import Prelude Bytes Utf8 Str PyNum SqlLexer SqlParser.
Import SQLLexerFacts.

Open Scope string_scope.
Open Scope list_scope.
Open Scope nat_scope.

(** * Flat statements *)

Definition each {A} (Q : A → Prop) (o : option A) : Prop := ∀ a, o = Some a → Q a.

(** No calls, no lists after IN, no columns of a named table. *)
Inductive flat : Expression → Prop :=
  | flat_literal v : flat (LiteralExpression v)
  | flat_column name : flat (ColumnExpression name None)
  | flat_star : flat (StarExpression None)
  | flat_binary op l r : flat l → flat r → flat (BinaryExpression op l r)
  | flat_unary op x : flat x → flat (UnaryExpression op x)
  | flat_between x l h : flat x → flat l → flat h → flat (BetweenExpression x l h)
  | flat_like x p : flat x → flat p → flat (LikeExpression x p)
  | flat_case cs rs el : Forall flat cs → Forall flat rs → each flat el → flat (CaseExpression cs rs el)
  | flat_subquery s : flat_select s → flat (SubqueryExpression s)
with flat_select : SelectStatement → Prop :=
  | flat_select_intro c t a joins w g h o limit offset d :
      flat c → Forall flat_join joins → each flat w → length g ≤ 1 → Forall flat g → each flat h →
      length o ≤ 1 → Forall flat_order o →
      flat_select (Select [c] t a joins w g h o limit offset d)
with flat_join : JoinClause → Prop :=
  | flat_join_intro ty t a on : each flat on → flat_join (Join ty t a on)
with flat_order : OrderByItem → Prop :=
  | flat_order_intro e d : flat e → flat_order (OrderBy e d).

(** No INSERT, DROP, SHOW or CREATE INDEX, no columns in CREATE TABLE, one assignment in UPDATE;
    the rest, ALTER TABLE ADD COLUMN among them, is read. *)
Fixpoint flat_statement (s : Statement) : Prop :=
  match s with
  | SelectStmt s => flat_select s
  | InsertStatement _ _ _ | DropStatement _ _ _ | ShowStatement _ => False
  | CreateStatement ty _ columns _ => ty ≠ INDEX ∧ columns = []
  | DeleteStatement _ w => each flat w
  | UpdateStatement _ sets w => (∃ x e, sets = [(x, e)] ∧ flat e) ∧ each flat w
  | ExplainStatement s => flat_statement s
  | _ => True
  end.

(** * What a parser gives without punctuation *)

Definition clean (t : Token) : Prop := token_type t ≠ PUNCTUATION.

Definition yields {A} (p : P A) (Q : A → Prop) : Prop := ∀ ts a ts',
  Forall clean ts → p ts = Some (Ok (a, ts')) → Q a ∧ Forall clean ts'.

Lemma yields_weaken {A} (p : P A) (Q R : A → Prop) : yields p Q → (∀ a, Q a → R a) → yields p R.
Proof. intros Hp HQ ts a ts' Hts E. destruct (Hp ts a ts' Hts E). auto. Qed.
Lemma yields_out {A} (Q : A → Prop) : yields p_out Q.
Proof. by intros ???. Qed.
Lemma yields_ret {A} (Q : A → Prop) a : Q a → yields (p_ret a) Q.
Proof. intros HQ ts ? ? Hts [= <- <-]. done. Qed.
Lemma yields_raise {A} (Q : A → Prop) e : yields (p_raise e) Q.
Proof. by intros ???. Qed.
Lemma yields_peek : yields p_peek clean.
Proof. intros ts ? ? Hts [= <- <-]. split; [|done]. by destruct Hts. Qed.
Lemma yields_advance : yields p_advance clean.
Proof. intros ts ? ? Hts. destruct Hts; [done|]. by intros [= <- <-]. Qed.
Lemma yields_bind {A B} (p : P A) (q : A → P B) Q R :
  yields p Q → (∀ a, Q a → yields (q a) R) → yields (p_bind p q) R.
Proof.
  intros Hp Hq ts b ts' Hts. unfold p_bind. destruct (p ts) as [[[a ts1]|]|] eqn:E; [|done..].
  destruct (Hp ts a ts1 Hts E) as [Ha Hts1]. by apply Hq.
Qed.

Lemma clean_token v t : clean t → is_token PUNCTUATION v t = false.
Proof. intros Ht. unfold is_token. by rewrite bool_decide_eq_false_2. Qed.

Create HintDb yields.
#[export] Hint Resolve yields_out yields_raise yields_peek yields_advance : yields.

Definition anything {A} (a : A) : Prop := True.
Definition never {A} (a : A) : Prop := False.

(** Binds and tests, with the results of the steps in the context. *)
Ltac yields_step :=
  lazymatch goal with
  | H : never _ |- _ => destruct H
  | |- ∀ _, _ → yields _ _ => intros ? ?
  | |- ∀ _, yields _ _ => intros ?
  | |- yields (p_ret _) _ => apply yields_ret
  | H : clean ?t |- context [lparen ?t] => change (lparen t) with (is_token PUNCTUATION "(" t); rewrite (clean_token "(" t H)
  | H : clean ?t |- context [rparen ?t] => change (rparen t) with (is_token PUNCTUATION ")" t); rewrite (clean_token ")" t H)
  | H : clean ?t |- context [comma ?t] => change (comma t) with (is_token PUNCTUATION "," t); rewrite (clean_token "," t H)
  | H : clean ?t |- context [is_token PUNCTUATION ?v ?t] => rewrite (clean_token v t H)
  | |- yields (if ?b then _ else _) _ => destruct b
  | |- yields (let (_, _) := ?x in _) _ => destruct x
  | |- yields (p_bind _ _) _ => eapply yields_bind; [solve [eauto 3 with yields nocore]|]
  | |- yields (match ?x with _ => _ end) _ => destruct x
  | |- yields _ _ => solve [eauto 3 with yields nocore | eapply yields_weaken; [solve [eauto 3 with yields nocore]|done]]
  end.
Ltac yields_tac := repeat yields_step.

Lemma yields_expect ty : ty ≠ PUNCTUATION → yields (expect ty) clean.
Proof. intros Hty. unfold expect. yields_tac. Qed.
Lemma yields_punctuation v : yields (expect_value PUNCTUATION v) never.
Proof.
  unfold expect_value. eapply yields_bind; [apply yields_peek|]. intros t Ht.
  rewrite (bool_decide_eq_false_2 (token_type t = PUNCTUATION)) by done. cbn [andb]. auto with yields.
Qed.
Lemma yields_expect_operator v : yields (expect_value OPERATOR v) clean.
Proof. unfold expect_value. yields_tac. Qed.
Lemma yields_keyword k : yields (expect_keyword k) clean.
Proof. unfold expect_keyword. yields_tac. Qed.
Lemma yields_maybe k : yields (maybe_keyword k) anything.
Proof. unfold maybe_keyword. yields_tac; done. Qed.
Lemma yields_int s : yields (p_int s) anything.
Proof. unfold p_int. yields_tac; done. Qed.
#[export] Hint Resolve yields_punctuation yields_expect_operator yields_keyword yields_maybe yields_int : yields.
#[export] Hint Extern 1 (yields (expect _) _) => apply yields_expect; discriminate : yields.
Lemma yields_name : yields expect_name anything.
Proof. unfold expect_name. yields_tac. done. Qed.
Lemma yields_literal : yields parse_literal anything.
Proof. unfold parse_literal. yields_tac; done. Qed.
#[export] Hint Resolve yields_name yields_literal : yields.

(** ** Loops: no comma is ever there *)

Lemma yields_while {A} n cond (body : A → P A) (Q : A → Prop) a :
  Q a → (∀ a, Q a → yields (body a) Q) → yields (p_while n cond body a) Q.
Proof.
  intros Ha Hb. revert a Ha. induction n as [|n IH]; intros a Ha; [apply yields_out|]. cbn [p_while].
  eapply yields_bind; [apply yields_peek|]. intros t _. destruct (cond t); [|by apply yields_ret].
  eapply yields_bind; [by apply Hb|]. done.
Qed.

Lemma yields_items {A} n (body : A → P A) (Q : A → Prop) a : yields (body a) Q → yields (p_items n body a) Q.
Proof.
  intros Hb. destruct n as [|n]; [apply yields_out|]. cbn [p_items].
  eapply yields_bind; [exact Hb|]. intros b Hb'. yields_tac. done.
Qed.

Definition only {A} (Q : A → Prop) (l : list A) : Prop := ∃ x, l = [x] ∧ Q x.

Lemma yields_list {A} n (item : P A) (Q : A → Prop) : yields item Q → yields (p_list n item) (only Q).
Proof.
  intros Hi. unfold p_list. eapply yields_bind; [exact Hi|]. intros x Hx.
  destruct n as [|n]; [apply yields_out|]. cbn [p_while]. yields_tac. by exists x.
Qed.

Lemma yields_clause {A} k (p : P A) (Q : A → Prop) : yields p Q → yields (clause k p) (each Q).
Proof.
  intros Hp. unfold clause. eapply yields_bind; [apply yields_maybe|]. intros [] _.
  - eapply yields_bind; [exact Hp|]. intros x Hx. apply yields_ret. by intros ? [= <-].
  - by apply yields_ret.
Qed.

(** A list of one at most. *)
Definition at_most {A} (Q : A → Prop) (l : list A) : Prop := length l ≤ 1 ∧ Forall Q l.

Lemma yields_by {A} k (p : P (list A)) (Q : A → Prop) : yields p (only Q) → yields (by_clause k p) (at_most Q).
Proof.
  intros Hp. unfold by_clause. eapply yields_bind.
  - apply yields_clause. eapply yields_bind; [apply yields_keyword|]. intros _ _. exact Hp.
  - intros [l|] Hl; apply yields_ret; [|by split; [cbn; lia|constructor]].
    destruct (Hl l eq_refl) as (x & -> & Hx). split; [done|by repeat constructor].
Qed.
#[export] Hint Resolve yields_list yields_clause yields_by : yields.

(** * Expressions *)

Section Expressions.
Variable n : nat.
Variable e : P Expression.
Variable s : P SelectStatement.
Hypothesis He : yields e flat.
Hypothesis Hs : yields s flat_select.
Hint Resolve He Hs : yields.
Hint Constructors flat flat_select flat_join flat_order : core.

Lemma yields_function_call name : yields (parse_function_call n e name) flat.
Proof.
  unfold parse_function_call. eapply (yields_bind _ _ anything).
  - destruct name; yields_tac; done.
  - intros x _. eapply yields_bind; [apply yields_punctuation|]. by intros ? [].
Qed.
Hint Resolve yields_function_call : yields.

Lemma yields_case : yields (parse_case n e) flat.
Proof.
  unfold parse_case. eapply yields_bind; [apply yields_advance|]. intros _ _.
  eapply (yields_bind _ _ (λ p, Forall flat p.1 ∧ Forall flat p.2)).
  - apply yields_while; [by split|]. intros [cs rs] [Hc Hr]. yields_tac.
    split; apply Forall_app; (split; [done|]); by apply Forall_singleton.
  - intros [cs rs] [Hc Hr]. yields_tac. by constructor.
Qed.

Lemma yields_exists : yields (parse_exists s) flat.
Proof.
  unfold parse_exists. eapply yields_bind; [apply yields_advance|]. intros _ _.
  eapply yields_bind; [apply yields_punctuation|]. by intros ? [].
Qed.

Lemma yields_name_expression : yields (parse_name n e) flat.
Proof. unfold parse_name. yields_tac. auto. Qed.
Hint Resolve yields_case yields_exists yields_name_expression : yields.

Lemma yields_primary : yields (parse_primary n e s) flat.
Proof. unfold parse_primary. yields_tac; auto. Qed.

Lemma yields_unary m : yields (parse_unary n e s m) flat.
Proof. pose proof yields_primary. induction m as [|m IH]; [apply yields_out|]. cbn [parse_unary]. yields_tac; auto. Qed.

Lemma yields_chain ops p : yields p flat → yields (parse_chain n ops p) flat.
Proof.
  intros Hp. unfold parse_chain. eapply yields_bind; [exact Hp|]. intros l Hl.
  apply yields_while; [done|]. intros a Ha. yields_tac. auto.
Qed.
Lemma yields_keyword_chain k p : yields p flat → yields (parse_keyword_chain n k p) flat.
Proof.
  intros Hp. unfold parse_keyword_chain. eapply yields_bind; [exact Hp|]. intros l Hl.
  apply yields_while; [done|]. intros a Ha. yields_tac. auto.
Qed.

Lemma yields_addition : yields (parse_addition n e s) flat.
Proof. unfold parse_addition, parse_multiplication. auto using yields_chain, yields_unary. Qed.
Hint Resolve yields_addition : yields.

Lemma yields_comparison : yields (parse_comparison n e s) flat.
Proof.
  unfold parse_comparison, parse_is. yields_tac; auto 6.
  case_match; auto.
Qed.

Lemma yields_not m : yields (parse_not n e s m) flat.
Proof. pose proof yields_comparison. induction m as [|m IH]; [apply yields_out|]. cbn [parse_not]. yields_tac; auto. Qed.

Lemma yields_or : yields (parse_or n e s) flat.
Proof. unfold parse_or, parse_and. auto using yields_keyword_chain, yields_not. Qed.

(** ** SELECT *)

Lemma yields_columns : yields (parse_select_columns n e) (only flat).
Proof.
  unfold parse_select_columns. apply yields_items. cbn [app]. yields_tac.
  - eexists. eauto.
  - by eexists.
Qed.

Lemma yields_from : yields parse_from anything.
Proof. unfold parse_from. yields_tac; done. Qed.

Lemma yields_join : yields (parse_join e) flat_join.
Proof.
  unfold parse_join. eapply (yields_bind _ _ anything); [unfold parse_join_type; yields_tac; done|].
  intros ty _. yields_tac. auto.
Qed.
Hint Resolve yields_columns yields_from yields_join : yields.

Lemma yields_order : yields (parse_order_by n e) (only flat_order).
Proof.
  unfold parse_order_by. apply yields_items. cbn [app]. yields_tac; eexists; auto.
Qed.

Lemma yields_count k : yields (parse_count k) anything.
Proof.
  unfold parse_count. eapply yields_weaken; [apply (yields_clause _ _ anything)|done]. yields_tac.
Qed.
Hint Resolve yields_order yields_count : yields.

Lemma yields_select : yields (parse_select n e) flat_select.
Proof.
  unfold parse_select. yields_step. intros _ _. yields_step. intros distinct _.
  eapply yields_bind; [apply yields_columns|]. intros c (c' & -> & Hc).
  eapply yields_bind; [apply yields_from|]. intros [t a] _.
  eapply (yields_bind _ _ (Forall flat_join)).
  { apply yields_while; [constructor|]. intros l Hl. yields_tac. apply Forall_app. by split; [|apply Forall_singleton]. }
  intros joins Hj. eapply yields_bind; [by apply yields_clause|]. intros w Hw.
  eapply yields_bind; [by apply yields_by, yields_list|]. intros g [Hg1 Hg].
  eapply yields_bind; [by apply yields_clause|]. intros h Hh.
  eapply yields_bind; [by apply yields_by, yields_order|]. intros o [Ho1 Ho].
  do 2 (eapply yields_bind; [apply yields_count|]; intros ? _). apply yields_ret. by constructor.
Qed.
End Expressions.

Lemma yields_expression n : yields (parse_expression n) flat.
Proof.
  induction n as [|n IH]; [apply yields_out|]. cbn [parse_expression]. apply yields_or; [done|]. by apply yields_select.
Qed.

(** * Statements *)

Section Statements.
Variable n : nat.
Variable e : P Expression.
Variable s : P SelectStatement.
Hypothesis He : yields e flat.
Hypothesis Hs : yields s flat_select.
Hint Resolve He Hs : yields.

Lemma yields_insert : yields (parse_insert n e) never.
Proof.
  unfold parse_insert. do 3 (yields_step; intros ? _). yields_step. intros t Ht. yields_step.
  eapply (yields_bind _ _ anything); [by apply yields_ret|]. intros cols _.
  yields_step. intros _ _. eapply (yields_bind _ _ never).
  - apply yields_items. eapply yields_bind; [apply yields_punctuation|]. by intros ? [].
  - by intros ? [].
Qed.

Lemma yields_both k1 k2 : yields (both_keywords k1 k2) anything.
Proof. unfold both_keywords. yields_tac; done. Qed.
Hint Resolve yields_both : yields.

Lemma yields_create : yields (parse_create n) flat_statement.
Proof.
  unfold parse_create. yields_step. intros _ _. yields_step. intros [] _.
  - yields_step; intros ? _. yields_step; intros ? _. yields_step; intros t Ht. yields_step.
    eapply (yields_bind _ _ (λ l, l = [])); [by apply yields_ret|]. intros ? ->. by apply yields_ret.
  - yields_tac. done.
Qed.

Lemma yields_delete : yields (parse_delete e) flat_statement.
Proof. unfold parse_delete. yields_tac. done. Qed.

Lemma yields_update : yields (parse_update n e) flat_statement.
Proof.
  unfold parse_update. do 3 (yields_step; intros ? _).
  eapply (yields_bind _ _ (λ l, ∃ x v, l = [(x, v)] ∧ flat v)).
  - apply yields_items. cbn [app]. yields_tac. eauto.
  - intros l Hl. yields_tac. done.
Qed.

Lemma yields_attributes m a : yields (parse_attributes m a) anything.
Proof.
  revert a. induction m as [|m IH]; intros a; [apply yields_out|]. cbn [parse_attributes]. yields_tac; done.
Qed.
Hint Resolve yields_attributes : yields.

Lemma yields_column_def : yields (parse_column_def n) anything.
Proof.
  unfold parse_column_def. yields_step; intros name _. yields_step; intros t Ht.
  eapply (yields_bind _ _ clean); [destruct (is_keyword Keyword.NOT t); [yields_tac|by apply yields_ret]|].
  intros t' _. yields_step; intros u Hu. yields_step. eapply (yields_bind _ _ anything); [by apply yields_ret|].
  intros ty _. yields_tac. done.
Qed.

Lemma yields_alter : yields (parse_alter n) flat_statement.
Proof.
  unfold parse_alter, parse_column_defs.
  assert (yields (p_items n (λ columns,
    let% t := p_peek in
    if bool_decide (token_type t = KEYWORD) then p_raise AttributeError
    else let% c := parse_column_def n in p_ret (columns ++ [c])) []) anything) as H.
  { apply yields_items. pose proof yields_column_def. yields_tac. done. }
  yields_tac; done.
Qed.

Lemma yields_statement self : yields self flat_statement → yields (parse_statement n e s self) flat_statement.
Proof.
  intros H. pose proof yields_insert as Hi. pose proof yields_create. pose proof yields_delete. pose proof yields_update.
  pose proof yields_alter.
  assert (yields (parse_insert n e) flat_statement) by (by eapply yields_weaken; [exact Hi|intros ? []]).
  unfold parse_statement, parse_drop, parse_use, parse_show, parse_transaction. yields_tac; done.
Qed.
End Statements.

Lemma yields_parse n : yields (parse_fuel n) flat_statement.
Proof.
  induction n as [|n IH]; [apply yields_out|]. cbn [parse_fuel].
  apply yields_statement; [apply yields_expression|apply yields_select, yields_expression|done].
Qed.

(** C36: Whatever the text, if it is parsed, the statement is flat. It is not an INSERT, a DROP,
    a SHOW or a CREATE INDEX, and a CREATE TABLE gives no columns (ALTER TABLE ADD COLUMN is
    read, and is not restricted). A SELECT has one column and at most one GROUP BY and ORDER BY
    expression, an UPDATE has one assignment, however many are written; and in the expressions
    of SELECT, DELETE and UPDATE no function is called, no list follows IN, and no column or
    star names its table. *)
Theorem sql_text_flat sql s : parse_sql sql = Some (Ok s) → flat_statement s.
Proof.
  unfold parse_sql, SQLLexer.tokenize. destruct (SQLLexer.tokenize_loop _ _) as [[ts|]|] eqn:E; [|done..].
  apply tokenize_loop_types in E. unfold parse. destruct (parse_fuel _ ts) as [[[s' r]|]|] eqn:Ep; [|done..].
  intros [= <-]. by apply (yields_parse _ _ _ _ E Ep).
Qed.

Lemma sql_text_flat_witness :
  let sql := str "UPDATE t SET a = 1, b = 2 WHERE c" in
  let s := UpdateStatement (str "t") [(str "a", LiteralExpression (LInt 1%Z))] None in
  parse_sql sql = Some (Ok s) ∧ flat_statement s.
Proof.
  intros sql s. assert (parse_sql sql = Some (Ok s)) as H by (vm_compute; reflexivity).
  split; [exact H|]. apply (sql_text_flat sql s). exact H.
Defined.
