(* ===== verification/PyFloat.v ===== *)
(** The arithmetic of Python's floats: binary64 patterns, as in PyNum, with the
    operations of the Standard Library's specification of IEEE 754. *)

From Stdlib Require Import SpecFloat.
From S2P Require Import Prelude Bytes Utf8 Str PyNum.

(** A pattern as a number, and back; there is one NaN. *)
Definition spec_of_float (f : Z) : spec_float :=
  let s := float_sign f in
  if float_exp f =? 2047 then if float_mant f =? 0 then S754_infinity s else S754_nan
  else
    let '(m, e) := if float_exp f =? 0 then (float_mant f, -1074) else (2 ^ 52 + float_mant f, float_exp f - 1075) in
    match m with
    | Zpos p => S754_finite s p e
    | _ => S754_zero s
    end.

Definition with_sign (s : bool) (bits : Z) : Z := if s then 2 ^ 63 + bits else bits.
Definition float_of_spec (x : spec_float) : Z :=
  match x with
  | S754_zero s => with_sign s 0
  | S754_infinity s => with_sign s (2047 * 2 ^ 52)
  | S754_nan => 2047 * 2 ^ 52 + 2 ^ 51
  | S754_finite s m e =>
      with_sign s (if 2 ^ 52 <=? Zpos m then (e + 1075) * 2 ^ 52 + (Zpos m - 2 ^ 52) else Zpos m)
  end.

Definition float_op (op : Z → Z → spec_float → spec_float → spec_float) (f g : Z) : Z :=
  float_of_spec (op 53 1024 (spec_of_float f) (spec_of_float g)).
Definition float_add : Z → Z → Z := float_op SFadd.
Definition float_sub : Z → Z → Z := float_op SFsub.
Definition float_mul : Z → Z → Z := float_op SFmul.
(** [f / g] where [g] is not zero, which raises. *)
Definition float_div : Z → Z → Z := float_op SFdiv.
Definition float_neg (f : Z) : Z := if float_sign f then f - 2 ^ 63 else f + 2 ^ 63.
Definition float_zero (f : Z) : bool := f mod 2 ^ 63 =? 0.

(** [a / b] of two integers: the nearest float. *)
Definition int_truediv (a b : Z) : res Z :=
  if b =? 0 then Err ZeroDivisionError
  else
    let f := float_of_ratio (Z.abs a) (Z.abs b) in
    if f =? 2047 * 2 ^ 52 then Err OverflowError else Ok (with_sign (xorb (a <? 0) (b <? 0)) f).

(** 0.1 + 0.2, 0.3 / 0.1, 1e308 * 10, 1.5 - 1.5, and 7 / -2. *)
Example add_tenths : float_add 0x3FB999999999999A 0x3FC999999999999A = 0x3FD3333333333334.
Proof. vm_compute. reflexivity. Qed.
Example div_tenths : float_div 0x3FD3333333333333 0x3FB999999999999A = 0x4007FFFFFFFFFFFF.
Proof. vm_compute. reflexivity. Qed.
Example mul_overflow : float_mul 0x7FE1CCF385EBC8A0 0x4024000000000000 = 0x7FF0000000000000.
Proof. vm_compute. reflexivity. Qed.
Example sub_equal : float_sub 0x3FF8000000000000 0x3FF8000000000000 = 0.
Proof. vm_compute. reflexivity. Qed.
Example int_div : int_truediv 7 (-2) = Ok 0xC00C000000000000.
Proof. vm_compute. reflexivity. Qed.
Example mul_subnormal : float_mul 0x0010000000000000 0x3FE0000000000000 = 0x0008000000000000.
Proof. vm_compute. reflexivity. Qed.
