(* ===== verification/SqlValue.v ===== *)
(** The values of SQL expressions: the Python objects that database/src/sql/executor.py
    and optimizer.py compute with, and the operators they apply to them.

    A value is a literal or, for a star, a whole row. Floats are binary64 patterns; two
    NaNs are different objects. [repr_float] is the text Python gives a float. *)

From Stdlib Require Import String.
From S2P Require Import Prelude Bytes Utf8 Str PyNum PyDict PyFloat SqlLexer SqlParser.

Open Scope string_scope.
Open Scope list_scope.
Open Scope Z_scope.

Inductive value :=
  | V (l : literal)
  | VRow (row : list (pystr * value)).

(** A row: the columns in the order they were set. *)
Definition row : Type := list (pystr * value).

Definition VNone : value := V LNone.
Definition VBool (b : bool) : value := V (LBool b).

(** * Scalars *)

(** The number a [bool] or an [int] stands for. *)
Definition integer (l : literal) : option Z :=
  match l with LBool b => Some (if b then 1 else 0) | LInt z => Some z | _ => None end.

(** Two operands of an arithmetic operator, converted as Python converts them. *)
Inductive operands := Ints (x y : Z) | Floats (f g : Z).
Definition numeric (a b : literal) : option (res operands) :=
  match a, b with
  | LFloat f, LFloat g => Some (Ok (Floats f g))
  | LFloat f, _ => (λ y, Floats f <$> float_of_int y) <$> integer b
  | _, LFloat g => (λ x, (λ f, Floats f g) <$> float_of_int x) <$> integer a
  | _, _ => match integer a, integer b with Some x, Some y => Some (Ok (Ints x y)) | _, _ => None end
  end.

Definition arithmetic (int : Z → Z → res literal) (float : Z → Z → res literal) (a b : literal) : res literal :=
  match numeric a b with
  | Some r => o ← r; match o with Ints x y => int x y | Floats f g => float f g end
  | None => Err TypeError
  end.

Definition literal_add (a b : literal) : res literal :=
  match a, b with
  | LStr s, LStr t => Ok (LStr (s ++ t))
  | _, _ => arithmetic (λ x y, Ok (LInt (x + y))) (λ f g, Ok (LFloat (float_add f g))) a b
  end.
Definition literal_sub : literal → literal → res literal :=
  arithmetic (λ x y, Ok (LInt (x - y))) (λ f g, Ok (LFloat (float_sub f g))).
Definition literal_mul (a b : literal) : res literal :=
  match a, b with
  | LStr s, _ => match integer b with Some n => Ok (LStr (concat (py_repeat n s))) | None => Err TypeError end
  | _, LStr s => match integer a with Some n => Ok (LStr (concat (py_repeat n s))) | None => Err TypeError end
  | _, _ => arithmetic (λ x y, Ok (LInt (x * y))) (λ f g, Ok (LFloat (float_mul f g))) a b
  end.
(** [a / b] where [b] is not zero. *)
Definition literal_div : literal → literal → res literal :=
  arithmetic (λ x y, LFloat <$> int_truediv x y) (λ f g, Ok (LFloat (float_div f g))).

(** An [int] and a [float] are compared exactly: the float's value is a dyadic fraction. *)
Definition compare_int_float (x f : Z) : option comparison :=
  match spec_of_float f with
  | SpecFloat.S754_nan => None
  | SpecFloat.S754_infinity s => Some (if s then Gt else Lt)
  | SpecFloat.S754_zero _ => Some (x ?= 0)
  | SpecFloat.S754_finite s m e =>
      let v := if s then - Zpos m else Zpos m in
      Some (x * 2 ^ Z.max 0 (- e) ?= v * 2 ^ Z.max 0 e)
  end.

Definition literal_eq (a b : literal) : bool :=
  match a, b with
  | LNone, LNone => true
  | LStr s, LStr t => bool_decide (s = t)
  | LFloat f, LFloat g => float_eq f g
  | LFloat f, _ => match integer b with Some y => bool_decide (compare_int_float y f = Some Eq) | None => false end
  | _, LFloat g => match integer a with Some x => bool_decide (compare_int_float x g = Some Eq) | None => false end
  | _, _ => match integer a, integer b with Some x, Some y => x =? y | _, _ => false end
  end.

(** [a < b] and [a <= b]. *)
Definition literal_lt (a b : literal) : res bool :=
  match a, b with
  | LStr s, LStr t => Ok (text_lt s t)
  | LFloat f, LFloat g => Ok (float_lt f g)
  | LFloat f, _ => match integer b with Some y => Ok (bool_decide (compare_int_float y f = Some Gt)) | None => Err TypeError end
  | _, LFloat g => match integer a with Some x => Ok (bool_decide (compare_int_float x g = Some Lt)) | None => Err TypeError end
  | _, _ => match integer a, integer b with Some x, Some y => Ok (x <? y) | _, _ => Err TypeError end
  end.
Definition literal_le (a b : literal) : res bool :=
  lt ← literal_lt a b; Ok (lt || literal_eq a b).

Definition literal_truth (l : literal) : bool :=
  match l with
  | LNone => false
  | LBool b => b
  | LInt z => negb (z =? 0)
  | LFloat f => negb (float_zero f)
  | LStr s => bool_decide (s ≠ [])
  end.

(** [-a]. *)
Definition literal_neg (l : literal) : res literal :=
  match l with
  | LFloat f => Ok (LFloat (float_neg f))
  | _ => match integer l with Some x => Ok (LInt (- x)) | None => Err TypeError end
  end.

(** * Values *)

(** [a == b]; rows are equal as dictionaries. *)
Fixpoint py_eq (a b : value) {struct a} : bool :=
  match a, b with
  | V l, V m => literal_eq l m
  | VRow r, VRow q =>
      bool_decide (length r = length q) &&
      (fix go (r : list (pystr * value)) : bool :=
         match r with
         | [] => true
         | (k, v) :: r' => match dict_get q k with Some w => py_eq v w | None => false end && go r'
         end) r
  | _, _ => false
  end.

(** An operator on scalars: rows have none. *)
Definition scalar {A} (op : literal → literal → res A) (a b : value) : res A :=
  match a, b with V l, V m => op l m | _, _ => Err TypeError end.
Definition py_lt : value → value → res bool := scalar literal_lt.
Definition py_le : value → value → res bool := scalar literal_le.
Definition is_none (a : value) : bool := match a with V LNone => true | _ => false end.
Definition truth (a : value) : bool :=
  match a with V l => literal_truth l | VRow r => bool_decide (r ≠ []) end.
Definition py_neg (a : value) : res value :=
  match a with V l => V <$> literal_neg l | VRow _ => Err TypeError end.

(** * The text of values and expressions *)

Section Text.
Variable repr_float : Z → pystr.

(** [str(v)] of a scalar. *)
Definition literal_str (l : literal) : res pystr :=
  match l with
  | LNone => Ok (str "None")
  | LBool b => Ok (str (if b then "True" else "False"))
  | LInt z => str_of_int z
  | LFloat f => Ok (repr_float f)
  | LStr s => Ok s
  end.

(** [repr(s)] of an ASCII text. *)
Definition hex_digit (d : Z) : Z := if d <? 10 then 48 + d else 87 + d.
Definition repr_char (q c : Z) : pystr :=
  if (c =? q) || (c =? backslash) then [backslash; c]
  else if c =? 9 then [backslash; 116]
  else if c =? 10 then [backslash; 110]
  else if c =? 13 then [backslash; 114]
  else if (c <? 32) || (c =? 127) then [backslash; 120; hex_digit (c / 16); hex_digit (c mod 16)]
  else [c].
Definition repr_str (s : pystr) : pystr :=
  let q := if bool_decide (quote ∈ s) && bool_decide (double_quote ∉ s) then double_quote else quote in
  q :: concat (repr_char q <$> s) ++ [q].
Definition literal_repr (l : literal) : res pystr :=
  match l with LStr s => Ok (repr_str s) | _ => literal_str l end.

(** The text of a list. *)
Fixpoint join_comma (l : list pystr) : pystr :=
  match l with
  | [] => []
  | [s] => s
  | s :: l' => s ++ str ", " ++ join_comma l'
  end.
Definition bracket (l : list pystr) : pystr := str "[" ++ join_comma l ++ str "]".
Definition table_text (t : option pystr) : pystr := match t with Some s => s | None => str "None" end.

(** [repr(v)] and [str(v)]. *)
Fixpoint value_repr (v : value) : res pystr :=
  match v with
  | V l => literal_repr l
  | VRow r =>
      l ← (fix items (r : list (pystr * value)) : res (list pystr) :=
        match r with
        | [] => Ok []
        | (k, v) :: r' => s ← value_repr v; ss ← items r'; Ok ((repr_str k ++ str ": " ++ s) :: ss)
        end) r;
      Ok (str "{" ++ join_comma l ++ str "}")
  end.
Definition value_str (v : value) : res pystr := match v with V l => literal_str l | VRow _ => value_repr v end.

(** The [__repr__] of the expressions; the empty table name is false. *)
Fixpoint repr (e : Expression) {struct e} : res pystr :=
  let reprs := fix reprs (l : list Expression) : res (list pystr) :=
    match l with [] => Ok [] | x :: l' => s ← repr x; ss ← reprs l'; Ok (s :: ss) end in
  match e with
  | LiteralExpression v => s ← literal_repr v; Ok (str "Literal(" ++ s ++ str ")")
  | ColumnExpression name (Some ((_ :: _) as t)) => Ok (str "Column(" ++ t ++ str "." ++ name ++ str ")")
  | ColumnExpression name _ => Ok (str "Column(" ++ name ++ str ")")
  | BinaryExpression op l r => a ← repr l; b ← repr r; Ok (str "Binary(" ++ a ++ str " " ++ op ++ str " " ++ b ++ str ")")
  | UnaryExpression op x => a ← repr x; Ok (str "Unary(" ++ op ++ str " " ++ a ++ str ")")
  | FunctionCall name args _ => l ← reprs args; Ok (str "Func(" ++ name ++ str "(" ++ bracket l ++ str "))")
  | BetweenExpression x l h =>
      a ← repr x; b ← repr l; c ← repr h; Ok (str "Between(" ++ a ++ str " BETWEEN " ++ b ++ str " AND " ++ c ++ str ")")
  | InExpression x vs => a ← repr x; l ← reprs vs; Ok (str "In(" ++ a ++ str " IN " ++ bracket l ++ str ")")
  | LikeExpression x p => a ← repr x; b ← repr p; Ok (str "Like(" ++ a ++ str " LIKE " ++ b ++ str ")")
  | CaseExpression cs _ el =>
      l ← reprs cs;
      s ← match el with Some x => repr x | None => Ok (str "None") end;
      Ok (str "CASE(" ++ bracket l ++ str "..." ++ s ++ str ")")
  | StarExpression (Some ((_ :: _) as t)) => Ok (str "Star(" ++ t ++ str ".*)")
  | StarExpression _ => Ok (str "Star(*)")
  | SubqueryExpression (Select columns table _ _ _ _ _ _ _ _ _) =>
      l ← (fix reprs (l : list Expression) : res (list pystr) :=
        match l with [] => Ok [] | x :: l' => s ← repr x; ss ← reprs l'; Ok (s :: ss) end) columns;
      Ok (str "Subquery(SELECT(" ++ bracket l ++ str " FROM " ++ table_text table ++ str "))")
  end.
End Text.

(** * LIKE *)

(** The regular expression of a pattern: each character is one of these. *)
Inductive like_token := AnyText | AnyChar | Char (c : Z).
Definition like_tokens (pattern : pystr) : list like_token :=
  (λ c, if c =? 37 then AnyText else if c =? 95 then AnyChar else Char c) <$> pattern.

(** [re.match]: a dot is any character but a newline; the end may be before a last newline. *)
Fixpoint like_match (p : list like_token) (s : pystr) {struct p} : bool :=
  match p with
  | [] => bool_decide (s = [] ∨ s = [newline])
  | Char c :: p' => match s with d :: s' => (d =? c) && like_match p' s' | [] => false end
  | AnyChar :: p' => match s with d :: s' => negb (d =? newline) && like_match p' s' | [] => false end
  | AnyText :: p' =>
      (fix skip (s : pystr) : bool :=
         like_match p' s ||
         match s with d :: s' => negb (d =? newline) && skip s' | [] => false end) s
  end.
Definition match_like (value pattern : pystr) : bool := like_match (like_tokens pattern) value.

Example like_prefix : match_like (str "Roma") (str "R%m_") = true.
Proof. vm_compute. reflexivity. Qed.
Example like_dot : match_like (str "axb") (str "a.b") = false.
Proof. vm_compute. reflexivity. Qed.
(** A pattern without wildcards also matches the text with a newline after it. *)
Example like_newline : match_like (str "a" ++ [newline]) (str "a") = true.
Proof. vm_compute. reflexivity. Qed.

(** What a pattern means: [Like p s]. *)
Inductive Like : list like_token → pystr → Prop :=
  | like_end : Like [] []
  | like_char c p s : Like p s → Like (Char c :: p) (c :: s)
  | like_any_char c p s : c ≠ newline → Like p s → Like (AnyChar :: p) (c :: s)
  | like_any_text t p s : newline ∉ t → Like p s → Like (AnyText :: p) (t ++ s).

Lemma like_skip p value :
  like_match (AnyText :: p) value = true ↔
  ∃ t s, value = t ++ s ∧ newline ∉ t ∧ like_match p s = true.
Proof.
  induction value as [|d value IH].
  - cbn [like_match]. rewrite orb_false_r. split.
    + intros H. exists [], []. split_and!; [done|apply not_elem_of_nil|done].
    + intros (t & s & E & _ & H). symmetry in E. by apply app_eq_nil in E as [-> ->].
  - transitivity (like_match p (d :: value) = true ∨ (d ≠ newline ∧ like_match (AnyText :: p) value = true)).
    { cbn [like_match]. rewrite orb_true_iff, andb_true_iff, negb_true_iff, Z.eqb_neq. done. }
    rewrite IH. split.
    + intros [H|(Hd & t & s & -> & Ht & H)]; [exists [], (d :: value)|exists (d :: t), s]; split_and!;
        [done|apply not_elem_of_nil|done..|by apply not_elem_of_cons|done].
    + intros ([|c t] & s & E & Ht & H); [left; by rewrite E|right]. injection E as -> ->.
      apply not_elem_of_cons in Ht as [? ?]. split; [congruence|]. by exists t, s.
Qed.

(** [_match_like] accepts the texts the pattern describes, and these texts with a
    newline after them. *)
Theorem match_like_spec value pattern :
  match_like value pattern = true ↔
  ∃ s, Like (like_tokens pattern) s ∧ (value = s ∨ value = s ++ [newline]).
Proof.
  unfold match_like. generalize (like_tokens pattern). intros p. revert value.
  induction p as [|[| |c] p IH]; intros value; [cbn [like_match]| |cbn [like_match]..].
  - rewrite bool_decide_eq_true. split.
    + intros [->| ->]; exists []; (split; [constructor|auto]).
    + intros (s & Hs & H). inversion Hs; subst. by destruct H as [->| ->]; [left|right].
  - rewrite like_skip. split.
    + intros (t & u & -> & Ht & H). apply IH in H as (s & Hs & H). exists (t ++ s).
      split; [by constructor|]. destruct H as [->| ->]; [by left|right; by rewrite app_assoc].
    + intros (s & Hs & H). inversion Hs as [| | |t q s' Ht Hs']; subst. destruct H as [->| ->].
      * exists t, s'. split_and!; [done..|]. apply IH. eauto.
      * exists t, (s' ++ [newline]). split_and!; [by rewrite app_assoc|done|]. apply IH. eauto.
  - split.
    + destruct value as [|d value]; [done|]. rewrite andb_true_iff, negb_true_iff. intros [Hd H].
      apply IH in H as (s & Hs & H). exists (d :: s). split; [constructor; [lia|done]|].
      destruct H as [->| ->]; auto.
    + intros (s & Hs & H). inversion Hs as [| |c q s' Hc Hs'|]; subst.
      assert (∃ u, value = c :: u ∧ (u = s' ∨ u = s' ++ [newline])) as (u & -> & Hu) by (destruct H as [->| ->]; eauto).
      rewrite andb_true_iff, negb_true_iff. split; [lia|]. apply IH. eauto.
  - split.
    + destruct value as [|d value]; [done|]. rewrite andb_true_iff. intros [Hd H].
      apply IH in H as (s & Hs & H). exists (c :: s). split; [by constructor|].
      assert (d = c) as -> by lia. destruct H as [->| ->]; auto.
    + intros (s & Hs & H). inversion Hs as [|c' q s' Hs'| |]; subst.
      assert (∃ u, value = c :: u ∧ (u = s' ∨ u = s' ++ [newline])) as (u & -> & Hu) by (destruct H as [->| ->]; eauto).
      rewrite andb_true_iff. split; [lia|]. apply IH. eauto.
Qed.
