(* ===== verification/SqlPlan.v ===== *)
(** Query plans: database/src/sql/planner.py and optimizer.py.

    A plan node carries the attributes its type has; the estimates of cost and
    cardinality and the output schemas, which only EXPLAIN shows, are left out. The
    optimizer changes nodes and expressions in place and the model builds new
    ones: an expression two nodes share is folded once or twice, which is the same. *)

From Stdlib Require Import String.
From S2P Require Import Prelude Bytes Utf8 Str PyNum PyDict PyFloat SqlLexer SqlParser SqlValue.

Open Scope string_scope.
Open Scope list_scope.
Open Scope Z_scope.

(** The nodes that produce rows. *)
Inductive PlanNode :=
  | SEQUENTIAL_SCAN (table_name table_alias : option pystr) (where_clause : option Expression)
  | FILTER (child : PlanNode) (where_clause : option Expression)
  | NESTED_LOOP_JOIN (child : PlanNode) (table_name : pystr) (join_type : pystr) (join_condition : option Expression)
  | AGGREGATE (child : PlanNode) (expressions group_by : list Expression) (having : option Expression)
  | SORT (child : PlanNode) (order_by : list OrderByItem)
  | DISTINCT (child : PlanNode)
  | PROJECTION (child : PlanNode) (expressions : list Expression)
  | LIMIT (child : PlanNode) (limit_count offset_count : option Z).

(** Whole plans: a query, or the single node of another statement. *)
Inductive Plan :=
  | QUERY (root : PlanNode)
  | INSERT (table_name : pystr) (columns : list pystr) (values : list (list Expression))
  | DELETE (table_name : pystr) (where_clause : option Expression)
  | UPDATE (table_name : pystr) (set_clauses : list (pystr * Expression)) (where_clause : option Expression)
  | ADD_COLUMN (table_name : pystr) (column : ColumnDef)
  | DROP_COLUMN (table_name column_name : pystr)
  | USE_DATABASE (database_name : pystr)
  | SHOW (object_type : pystr)
  | TRANSACTION (action : pystr)
  | EXPLAIN (child : Plan).

(** * The planner *)

Module Planner.
Definition aggregates : list pystr := str <$> ["COUNT"; "SUM"; "AVG"; "MIN"; "MAX"].

Fixpoint expr_has_aggregates (e : Expression) : bool :=
  match e with
  | FunctionCall name _ _ => bool_decide (upper name ∈ aggregates)
  | BinaryExpression _ l r => expr_has_aggregates l || expr_has_aggregates r
  | UnaryExpression _ x => expr_has_aggregates x
  | CaseExpression cs rs el =>
      existsb expr_has_aggregates cs || existsb expr_has_aggregates rs ||
      match el with Some x => expr_has_aggregates x | None => false end
  | _ => false
  end.
Definition has_aggregates (l : list Expression) : bool := existsb expr_has_aggregates l.

Definition plan_join (node : PlanNode) (j : JoinClause) : PlanNode :=
  match j with Join ty table _ on => NESTED_LOOP_JOIN node table ty on end.

Definition plan_select (s : SelectStatement) : PlanNode :=
  match s with
  | Select columns from_table from_alias joins where_clause group_by having order_by limit offset distinct =>
      let node := SEQUENTIAL_SCAN from_table from_alias None in
      let node := match where_clause with Some _ => FILTER node where_clause | None => node end in
      let node := foldl plan_join node joins in
      let node := if bool_decide (group_by ≠ []) || has_aggregates columns
                  then AGGREGATE node columns group_by having else node in
      let node := if bool_decide (order_by ≠ []) then SORT node order_by else node in
      let node := if distinct : bool then DISTINCT node else node in
      let node := if bool_decide (columns ≠ []) then PROJECTION node columns else node in
      if bool_decide (limit ≠ None) || bool_decide (offset ≠ None) then LIMIT node limit offset else node
  end.

(** [create_plan]. The nodes for CREATE and DROP are given an attribute [name] that
    [PlanNode] does not have: they raise. *)
Fixpoint create_plan (s : Statement) : res Plan :=
  match s with
  | SelectStmt s => Ok (QUERY (plan_select s))
  | InsertStatement table columns values => Ok (INSERT table columns values)
  | CreateStatement _ _ _ _ => Err TypeError
  | DeleteStatement table w => Ok (DELETE table w)
  | UpdateStatement table sets w => Ok (UPDATE table sets w)
  | DropStatement _ _ _ => Err TypeError
  | AddColumn table column => Ok (ADD_COLUMN table column)
  | DropColumn table column => Ok (DROP_COLUMN table column)
  | UseStatement db => Ok (USE_DATABASE db)
  | ShowStatement ty => Ok (SHOW ty)
  | TransactionStatement action => Ok (TRANSACTION action)
  | ExplainStatement s => EXPLAIN <$> create_plan s
  end.
End Planner.

(** * The operators of expressions *)

(** What the evaluator computes for two values; an unknown operator gives [None]. The
    identity of objects other than [None] and the booleans is a parameter. *)
Section Operators.
Variable same_object : value → value → bool.

Definition is_same (a b : value) : bool :=
  match a, b with
  | V LNone, V LNone => true
  | V (LBool x), V (LBool y) => eqb x y
  | V (LNone | LBool _), _ | _, V (LNone | LBool _) => false
  | _, _ => same_object a b
  end.

Definition unless_none {A} (a b : value) (none : A) (op : res A) : res A :=
  if is_none a || is_none b then Ok none else op.

Definition is_zero (b : value) : bool := py_eq b (V (LInt 0)).

Definition binary (op : pystr) (a b : value) : res value :=
  let is_op s := bool_decide (op = str s) in
  let test r := (VBool <$> r) : res value in
  if is_op "=" then Ok (VBool (py_eq a b))
  else if is_op "!=" then Ok (VBool (negb (py_eq a b)))
  else if is_op "<" then test (unless_none a b false (py_lt a b))
  else if is_op ">" then test (unless_none a b false (py_lt b a))
  else if is_op "<=" then test (unless_none a b false (py_le a b))
  else if is_op ">=" then test (unless_none a b false (py_le b a))
  else if is_op "+" then unless_none a b VNone (V <$> scalar literal_add a b)
  else if is_op "-" then unless_none a b VNone (V <$> scalar literal_sub a b)
  else if is_op "*" then unless_none a b VNone (V <$> scalar literal_mul a b)
  else if is_op "/" then if is_zero b then Ok VNone else unless_none a b VNone (V <$> scalar literal_div a b)
  else if is_op "AND" then Ok (VBool (truth a && truth b))
  else if is_op "OR" then Ok (VBool (truth a || truth b))
  else if is_op "IS" then Ok (VBool (is_same a b))
  else if is_op "IS NOT" then Ok (VBool (negb (is_same a b)))
  else Ok VNone.

Definition unary (op : pystr) (a : value) : res value :=
  if bool_decide (op = str "NOT") then Ok (VBool (negb (truth a)))
  else if bool_decide (op = str "-") then if is_none a then Ok VNone else py_neg a
  else Ok a.
End Operators.

(** * The optimizer *)

Module QueryOptimizer.
(** The operators [_fold_expression] folds on two literals, with what they raise. *)
Definition fold_binary (op : pystr) (a b : literal) : option (res literal) :=
  let is_op s := bool_decide (op = str s) in
  let test (r : res bool) := Some (LBool <$> r) in
  if is_op "+" then Some (literal_add a b)
  else if is_op "-" then Some (literal_sub a b)
  else if is_op "*" then Some (literal_mul a b)
  else if is_op "/" then if literal_eq b (LInt 0) then None else Some (literal_div a b)
  else if is_op "=" then test (Ok (literal_eq a b))
  else if is_op "!=" then test (Ok (negb (literal_eq a b)))
  else if is_op "<" then test (literal_lt a b)
  else if is_op ">" then test (literal_lt b a)
  else if is_op "<=" then test (literal_le a b)
  else if is_op ">=" then test (literal_le b a)
  else if is_op "AND" then test (Ok (literal_truth a && literal_truth b))
  else if is_op "OR" then test (Ok (literal_truth a || literal_truth b))
  else None.

Definition caught (e : exn) : bool := match e with TypeError | ValueError => true | _ => false end.

Fixpoint fold_expression (e : Expression) : res Expression :=
  match e with
  | BinaryExpression op l r =>
      l ← fold_expression l;
      r ← fold_expression r;
      match l, r with
      | LiteralExpression a, LiteralExpression b =>
          match fold_binary op a b with
          | Some (Ok v) => Ok (LiteralExpression v)
          | Some (Err e) => if caught e then Ok (BinaryExpression op l r) else Err e
          | None => Ok (BinaryExpression op l r)
          end
      | _, _ => Ok (BinaryExpression op l r)
      end
  | UnaryExpression op x =>
      x ← fold_expression x;
      match x with
      | LiteralExpression a =>
          if bool_decide (op = str "-") then LiteralExpression <$> literal_neg a
          else if bool_decide (op = str "NOT") then Ok (LiteralExpression (LBool (negb (literal_truth a))))
          else Ok (UnaryExpression op x)
      | _ => Ok (UnaryExpression op x)
      end
  | _ => Ok e
  end.

Definition fold_clause (w : option Expression) : res (option Expression) :=
  match w with Some e => Some <$> fold_expression e | None => Ok None end.

(** [_predicate_pushdown]; a scan's own condition is replaced. *)
Definition predicate_pushdown (node : PlanNode) : PlanNode :=
  match node with
  | FILTER (FILTER c (Some v)) (Some w) => FILTER c (Some (BinaryExpression (str "AND") w v))
  | FILTER (SEQUENTIAL_SCAN t a _) w => SEQUENTIAL_SCAN t a w
  | _ => node
  end.

Definition constant_folding (node : PlanNode) : res PlanNode :=
  match node with
  | SEQUENTIAL_SCAN t a w => w ← fold_clause w; Ok (SEQUENTIAL_SCAN t a w)
  | FILTER c w => w ← fold_clause w; Ok (FILTER c w)
  | AGGREGATE c es g h => es ← res_map fold_expression es; Ok (AGGREGATE c es g h)
  | PROJECTION c es => es ← res_map fold_expression es; Ok (PROJECTION c es)
  | _ => Ok node
  end.

Definition combine_filters (node : PlanNode) : PlanNode :=
  match node with
  | FILTER (FILTER c (Some v)) (Some w) => FILTER c (Some (BinaryExpression (str "AND") w v))
  | _ => node
  end.

Definition with_child (node child : PlanNode) : PlanNode :=
  match node with
  | SEQUENTIAL_SCAN _ _ _ => node
  | FILTER _ w => FILTER child w
  | NESTED_LOOP_JOIN _ t ty on => NESTED_LOOP_JOIN child t ty on
  | AGGREGATE _ es g h => AGGREGATE child es g h
  | SORT _ o => SORT child o
  | DISTINCT _ => DISTINCT child
  | PROJECTION _ es => PROJECTION child es
  | LIMIT _ l o => LIMIT child l o
  end.

Definition optimize_own (node : PlanNode) : res PlanNode :=
  combine_filters <$> constant_folding (predicate_pushdown node).

Fixpoint optimize_node (node : PlanNode) : res PlanNode :=
  match node with
  | SEQUENTIAL_SCAN _ _ _ => optimize_own node
  | FILTER c _ | NESTED_LOOP_JOIN c _ _ _ | AGGREGATE c _ _ _ | SORT c _ | DISTINCT c | PROJECTION c _ | LIMIT c _ _ =>
      c' ← optimize_node c; optimize_own (with_child node c')
  end.

(** [optimize]: the single nodes have their condition folded. *)
Fixpoint optimize (p : Plan) : res Plan :=
  match p with
  | QUERY node => QUERY <$> optimize_node node
  | DELETE t w => w ← fold_clause w; Ok (DELETE t w)
  | UPDATE t sets w => w ← fold_clause w; Ok (UPDATE t sets w)
  | EXPLAIN p => EXPLAIN <$> optimize p
  | _ => Ok p
  end.
End QueryOptimizer.
