(* ===== verification/SqlExec.v ===== *)
(** The query executor: database/src/sql/executor.py.

    A generator of rows is the list of the rows it gives and what it ends with: the code
    that consumes one may stop before the end, and then an exception further on is
    never raised. The store of the rows is the interface [DataStore], which the
    repository does not implement. The fuel of a subquery is the depth to which
    subqueries may be nested: Python's recursion limit.

    A sort orders rows whose keys [<] compares; keys that are NaN, which no order
    fits, are taken as an insertion sort takes them. The sum of floats is that of
    Python before 3.12, term by term. *)

From Stdlib Require Import String.
From S2P Require Import Prelude Bytes Sorting Utf8 Str PyNum PyDict PyFloat SqlLexer SqlParser SqlValue SqlPlan.
From S2P Require Serializer Txn Catalog SqlTypes.

Open Scope string_scope.
Open Scope list_scope.
Open Scope Z_scope.

(** * Rows from generators *)

Definition stream : Type := list row * option exn.

Definition to_list (s : stream) : res (list row) :=
  match s with (rows, None) => Ok rows | (_, Some e) => Err e end.
Definition from_list (r : res (list row)) : stream :=
  match r with Ok rows => (rows, None) | Err e => ([], Some e) end.

Definition yield (x : row) (s : stream) : stream := (x :: s.1, s.2).

(** [for row in rows: if test(row): yield row]. *)
Fixpoint filter_rows (test : row → res bool) (rows : list row) (e : option exn) : stream :=
  match rows with
  | [] => ([], e)
  | r :: rows' =>
      match test r with
      | Ok true => yield r (filter_rows test rows' e)
      | Ok false => filter_rows test rows' e
      | Err e' => ([], Some e')
      end
  end.

(** [for row in rows: yield f(row)]. *)
Fixpoint map_rows (f : row → res row) (rows : list row) (e : option exn) : stream :=
  match rows with
  | [] => ([], e)
  | r :: rows' => match f r with Ok x => yield x (map_rows f rows' e) | Err e' => ([], Some e') end
  end.

(** [_execute_limit]: one row after the last is asked for. *)
Fixpoint limit_rows (limit : option Z) (offset i : Z) (rows : list row) (e : option exn) : stream :=
  match rows with
  | [] => ([], e)
  | r :: rows' =>
      if i <? offset then limit_rows limit offset (i + 1) rows' e
      else if match limit with Some n => n <=? i - offset | None => false end then ([], None)
      else yield r (limit_rows limit offset (i + 1) rows' e)
  end.

(** A row with a row in it cannot be hashed. *)
Definition hashable (v : value) : bool := match v with V _ => true | VRow _ => false end.
Definition row_eq (r q : row) : bool := py_eq (VRow r) (VRow q).

(** [_execute_distinct]: the keys are equal when the rows are. *)
Fixpoint distinct_rows (seen rows : list row) (e : option exn) : stream :=
  match rows with
  | [] => ([], e)
  | r :: rows' =>
      if forallb (λ x, hashable x.2) r then
        if existsb (row_eq r) seen then distinct_rows seen rows' e
        else yield r (distinct_rows (seen ++ [r]) rows' e)
      else ([], Some TypeError)
  end.

(** ** Sorting *)

(** [keys < keys']: lists are compared at the first difference. *)
Fixpoint keys_lt (a b : list value) : res bool :=
  match a, b with
  | _, [] => Ok false
  | [], _ :: _ => Ok true
  | x :: a', y :: b' => if py_eq x y then keys_lt a' b' else py_lt x y
  end.

Definition lt_keys (a b : list value * row) : bool := match keys_lt a.1 b.1 with Ok b => b | Err _ => false end.

Fixpoint comparable (l : list (list value * row)) : bool :=
  match l with
  | [] => true
  | x :: l' => forallb (λ y, is_ok (keys_lt x.1 y.1)) l' && comparable l'
  end.

(** [rows.sort(key, reverse)], which keeps the order of equal keys in both directions. *)
Definition sort_rows (reverse : bool) (l : list (list value * row)) : res (list row) :=
  if comparable l then Ok (snd <$> sort_by (if reverse then flip lt_keys else lt_keys) l) else Err TypeError.

(** * Expressions *)

Section Evaluate.
Variable repr_float : Z → pystr.
Variable same_object : value → value → bool.
(** [_evaluate_expression] of a subquery. *)
Variable subquery : SelectStatement → res value.

(** A column: exactly, and when that is nothing without regard to case. *)
Definition column_value (name : pystr) (r : row) : value :=
  let exact := default VNone (dict_get r name) in
  if is_none exact then default VNone (snd <$> head (filter (λ x : pystr * value, upper x.1 = upper name) r))
  else exact.

(** [set.add]. *)
Definition set_add (v : value) (s : list value) : list value := if existsb (py_eq v) s then s else s ++ [v].

(** The values of the arguments on the rows, one argument after the other. *)
Definition argument_values (args : list (row → res value)) (rows : list row) : res (list value) :=
  vs ← res_map (λ arg, res_map arg rows) args; Ok (concat vs).

Definition add_value (acc v : value) : res value := V <$> scalar literal_add acc v.
Fixpoint fold_res {A B} (f : A → B → res A) (a : A) (l : list B) : res A :=
  match l with [] => Ok a | b :: l' => a ← f a b; fold_res f a l' end.
Definition py_sum (l : list value) : res value := fold_res add_value (V (LInt 0)) l.

(** [min] and [max]: the first of the best. *)
Definition better (lt : value → value → res bool) (best v : value) : res value :=
  b ← lt v best; Ok (if b : bool then v else best).
Definition py_best (lt : value → value → res bool) (l : list value) : res value :=
  match l with [] => Err ValueError | v :: l' => fold_res (better lt) v l' end.

(** [_evaluate_aggregate]; the arguments are functions of the row. *)
Definition aggregate (name : pystr) (distinct : bool) (args : list (row → res value)) (rows : list row) : res value :=
  let is_name s := bool_decide (upper name = str s) in
  if is_name "COUNT" then
    if distinct && bool_decide (args ≠ []) then
      vs ← argument_values args rows;
      if forallb hashable vs then Ok (V (LInt (len (foldl (λ s v, set_add v s) [] vs)))) else Err TypeError
    else Ok (V (LInt (len rows)))
  else
    vs ← argument_values args rows;
    let values := filter (λ v, is_none v = false) vs in
    if bool_decide (values = []) then Ok VNone
    else if is_name "SUM" then py_sum values
    else if is_name "AVG" then s ← py_sum values; V <$> scalar literal_div s (V (LInt (len values)))
    else if is_name "MIN" then py_best py_lt values
    else if is_name "MAX" then py_best (flip py_lt) values
    else Ok VNone.

Definition like_values (v pattern : value) : res value :=
  if is_none v || is_none pattern then Ok (VBool false)
  else
    s ← value_str repr_float v;
    p ← value_str repr_float pattern;
    Ok (VBool (match_like s p)).

(** [low <= v <= high]. *)
Definition between_values (v low high : value) : res value :=
  a ← py_le low v;
  if a : bool then VBool <$> py_le v high else Ok (VBool false).

Fixpoint evaluate (e : Expression) (r : row) {struct e} : res value :=
  match e with
  | LiteralExpression v => Ok (V v)
  | ColumnExpression name _ => Ok (column_value name r)
  | BinaryExpression op x y => a ← evaluate x r; b ← evaluate y r; binary same_object op a b
  | UnaryExpression op x => a ← evaluate x r; unary op a
  | FunctionCall name args distinct =>
      if bool_decide (upper name ∈ Planner.aggregates) then aggregate name distinct (map evaluate args) [r]
      else Ok VNone
  | BetweenExpression x low high =>
      v ← evaluate x r; a ← evaluate low r; b ← evaluate high r; between_values v a b
  | InExpression x values =>
      v ← evaluate x r;
      (fix any (l : list Expression) : res value :=
         match l with
         | [] => Ok (VBool false)
         | y :: l' => w ← evaluate y r; if py_eq w v then Ok (VBool true) else any l'
         end) values
  | LikeExpression x pattern => v ← evaluate x r; p ← evaluate pattern r; like_values v p
  | CaseExpression conditions results else_result =>
      (fix branch (cs : list Expression) (rs : list (row → res value)) : res value :=
         match cs with
         | [] => match else_result with Some y => evaluate y r | None => Ok VNone end
         | c :: cs' =>
             b ← evaluate c r;
             match rs with
             | y :: rs' => if truth b then y r else branch cs' rs'
             | [] => if truth b then Err IndexError else branch cs' []
             end
         end) conditions (map evaluate results)
  | StarExpression _ => Ok (VRow r)
  | SubqueryExpression s => subquery s
  end.

Definition holds (e : Expression) (r : row) : res bool := truth <$> evaluate e r.
Definition condition (w : option Expression) (r : row) : res bool :=
  match w with Some e => holds e r | None => Ok true end.

(** * Queries *)

(** [projected[name] = v] for one expression; the prefix of a table is not looked at. *)
Definition project_one (r projected : row) (e : Expression) : res row :=
  match e with
  | StarExpression _ => Ok (foldl (λ d x, dict_set d x.1 x.2) projected r)
  | ColumnExpression name (Some ((_ :: _) as prefix)) =>
      match filter (λ x : pystr * value, upper x.1 = upper (prefix ++ str "." ++ name) ∨ upper x.1 = upper name) r with
      | (k, v) :: _ => Ok (dict_set projected k v)
      | [] => Ok projected
      end
  | ColumnExpression name _ => Ok (dict_set projected name (default VNone (dict_get r name)))
  | FunctionCall name _ _ => v ← evaluate e r; Ok (dict_set projected name v)
  | LiteralExpression v => Ok (dict_set projected (str "literal") (V v))
  | _ => v ← evaluate e r; k ← repr repr_float e; Ok (dict_set projected k v)
  end.
Definition project (es : list Expression) (r : row) : res row := fold_res (project_one r) [] es.

(** [{**left, **right}]. *)
Definition merge_rows (l r : row) : row := foldl (λ d x, dict_set d x.1 x.2) [] (l ++ r).
Definition join_rows (on : option Expression) (lefts rights : list row) : stream :=
  filter_rows (condition on) (lefts ≫= λ l, merge_rows l <$> rights) None.

Definition sort_key (order_by : list OrderByItem) (r : row) : res (list value) :=
  res_map (λ i, match i with OrderBy e _ => v ← evaluate e r; Ok (if is_none v then V (LStr []) else v) end) order_by.
Definition is_desc (i : OrderByItem) : bool := match i with OrderBy _ DESC => true | _ => false end.
Definition sorted_rows (order_by : list OrderByItem) (rows : list row) : res (list row) :=
  if bool_decide (order_by = []) then Ok rows
  else
    keys ← res_map (λ r, k ← sort_key order_by r; Ok (k, r)) rows;
    sort_rows (existsb is_desc order_by) keys.

(** The groups in the order of their first rows. *)
Definition keys_eq (a b : list value) : bool :=
  bool_decide (length a = length b) && forallb (λ x, py_eq x.1 x.2) (zip a b).
Fixpoint add_to_group (k : list value) (r : row) (gs : list (list value * list row)) : list (list value * list row) :=
  match gs with
  | [] => [(k, [r])]
  | (k', rs) :: gs' => if keys_eq k' k then (k', rs ++ [r]) :: gs' else (k', rs) :: add_to_group k r gs'
  end.
Definition group_row (group_by : list Expression) (gs : list (list value * list row)) (r : row)
    : res (list (list value * list row)) :=
  k ← res_map (λ e, evaluate e r) group_by;
  if forallb hashable k then Ok (add_to_group k r gs) else Err TypeError.

(** The row of a group: the columns grouped by and the functions. *)
Definition set_key (d : row) (x : Expression * value) : row :=
  match x.1 with ColumnExpression name _ => dict_set d name x.2 | _ => d end.
Definition set_call (rows : list row) (d : row) (e : Expression) : res row :=
  match e with
  | FunctionCall name args distinct => v ← aggregate name distinct (map evaluate args) rows; Ok (dict_set d name v)
  | _ => Ok d
  end.
Definition group_result (es group_by : list Expression) (g : list value * list row) : res row :=
  fold_res (set_call g.2) (foldl set_key [] (zip group_by g.1)) es.

(** The single row without GROUP BY: columns are those of the first row. *)
Definition set_single (rows : list row) (d : row) (e : Expression) : res row :=
  match e with
  | ColumnExpression name _ =>
      match rows with r :: _ => Ok (dict_set d name (default VNone (dict_get r name))) | [] => Ok d end
  | _ => set_call rows d e
  end.

(** [for x in xs: result = f(x); if having is true: yield result]. *)
Fixpoint yield_groups {A} (f : A → res row) (having : option Expression) (l : list A) : stream :=
  match l with
  | [] => ([], None)
  | x :: l' =>
      match (r ← f x; b ← condition having r; Ok (r, b)) with
      | Ok (r, true) => yield r (yield_groups f having l')
      | Ok (r, false) => yield_groups f having l'
      | Err e => ([], Some e)
      end
  end.
Definition aggregate_rows (es group_by : list Expression) (having : option Expression) (rows : list row) : stream :=
  if bool_decide (rows = []) then ([], None)
  else if bool_decide (group_by ≠ []) then
    match fold_res (group_row group_by) [] rows with
    | Ok groups => yield_groups (group_result es group_by) having groups
    | Err e => ([], Some e)
    end
  else yield_groups (λ rows, fold_res (set_single rows) [] es) having [rows].

(** The rows of a table, as the catalog and the store give them. *)
Variable table_known : pystr → bool.
Variable table_data : pystr → res (list row).

(** [_execute_node] of the nodes that produce rows: the condition of a scan is not tested. *)
Fixpoint execute_node (n : PlanNode) : stream :=
  match n with
  | SEQUENTIAL_SCAN None _ _ => ([], None)
  | SEQUENTIAL_SCAN (Some t) _ _ => if table_known t then from_list (table_data t) else ([], Some ValueError)
  | FILTER c w => let '(rows, e) := execute_node c in filter_rows (condition w) rows e
  | NESTED_LOOP_JOIN c t _ on =>
      match to_list (execute_node c) with
      | Ok lefts =>
          match (if bool_decide (t ≠ []) then table_data t else Ok []) with
          | Ok rights => join_rows on lefts rights
          | Err e => ([], Some e)
          end
      | Err e => ([], Some e)
      end
  | AGGREGATE c es g h =>
      match to_list (execute_node c) with Ok rows => aggregate_rows es g h rows | Err e => ([], Some e) end
  | SORT c o => from_list (rows ← to_list (execute_node c); sorted_rows o rows)
  | DISTINCT c => let '(rows, e) := execute_node c in distinct_rows [] rows e
  | PROJECTION c es => let '(rows, e) := execute_node c in map_rows (project es) rows e
  | LIMIT c limit offset => let '(rows, e) := execute_node c in limit_rows limit (default 0 offset) 0 rows e
  end.
End Evaluate.

(** The value of a subquery: the first column of the first row. *)
Section Subquery.
Variable repr_float : Z → pystr.
Variable same_object : value → value → bool.
Variable table_known : pystr → bool.
Variable table_data : pystr → res (list row).

Fixpoint subquery (depth : nat) (s : SelectStatement) : res value :=
  match depth with
  | O => Err RecursionError
  | S depth' =>
      results ← to_list (execute_node repr_float same_object (subquery depth') table_known table_data (Planner.plan_select s));
      match results with
      | [] => Ok VNone
      | r :: _ => match r with (_, v) :: _ => Ok v | [] => Err IndexError end
      end
  end.

Definition run_query (depth : nat) (n : PlanNode) : res (list row) :=
  to_list (execute_node repr_float same_object (subquery depth) table_known table_data n).
End Subquery.

(** * The store of the rows, and whole plans *)

Class DataStore := {
  store : Type;
  get_table_data : pystr → store → res (list row);
  insert_row : pystr → row → method store ();
  delete_rows : pystr → (row → res bool) → method store Z;
  update_rows : pystr → list (pystr * Expression) → (row → res bool) → method store Z;
}.

Module Executor.
Import Txn.
Section Execute.
Context `{DS : DataStore} `{RT : Serializer.Runtime}.
(** The values of defaults in the catalog. *)
Context {J : Type} `{!EqDecision J}.
Variable json_value : J → value.
Variable repr_float : Z → pystr.
Variable same_object : value → value → bool.
(** How deep subqueries may nest, and the clock. *)
Variable depth : nat.
Variable now : Z.

(** [ExecutionContext]. *)
Record context := mk_context {
  catalog : Catalog.Catalog.t (J := J);
  transaction_manager : option TransactionManager.t;
  data_store : option store;
  current_transaction : option nat;
}.
Definition with_catalog (c : Catalog.Catalog.t) (x : context) : context :=
  mk_context c (transaction_manager x) (data_store x) (current_transaction x).
Definition with_manager (m : TransactionManager.t) (x : context) : context :=
  mk_context (catalog x) (Some m) (data_store x) (current_transaction x).
Definition with_store (d : store) (x : context) : context :=
  mk_context (catalog x) (transaction_manager x) (Some d) (current_transaction x).
Definition with_current (t : option nat) (x : context) : context :=
  mk_context (catalog x) (transaction_manager x) (data_store x) t.

(** A call of the catalog, of the store if there is one, of the manager. *)
Definition on_catalog {A} (m : method Catalog.Catalog.t A) : method context A := λ x,
  let '(c, r) := m (catalog x) in (with_catalog c x, r).
Definition on_store {A} (none : A) (m : method store A) : method context A := λ x,
  match data_store x with
  | Some d => let '(d', r) := m d in (with_store d' x, r)
  | None => (x, Ok none)
  end.
Definition on_manager {A} (m : TransactionManager.t) (f : method TransactionManager.t A) : method context A := λ x,
  let '(m', r) := f m in (with_manager m' x, r).

Definition known (x : context) (t : pystr) : bool := bool_decide (Catalog.Catalog.get_table t (catalog x) ≠ None).
Definition table_rows (x : context) (t : pystr) : res (list row) :=
  match data_store x with Some d => get_table_data t d | None => Ok [] end.

Definition sub (x : context) : SelectStatement → res value :=
  subquery repr_float same_object (known x) (table_rows x) depth.
Definition eval (x : context) : Expression → row → res value :=
  evaluate repr_float same_object (sub x).
Definition query (n : PlanNode) (x : context) : res (list row) :=
  to_list (execute_node repr_float same_object (sub x) (known x) (table_rows x) n).

(** A row to insert: named columns see the ones before them, then come the defaults. *)
Definition default_of (col : Catalog.ColumnInfo J) : value :=
  match Catalog.c_default col with Some j => json_value j | None => VNone end.
Definition set_named (x : context) (d : row) (ce : pystr * Expression) : res row :=
  v ← eval x ce.2 d; Ok (dict_set d ce.1 v).
Definition set_default (d : row) (col : Catalog.ColumnInfo J) : row :=
  match dict_get d (Catalog.c_name col) with
  | Some _ => d
  | None => dict_set d (Catalog.c_name col) (default_of col)
  end.
Fixpoint set_positional (x : context) (cols : list (Catalog.ColumnInfo J)) (vs : list Expression) (d : row) : res row :=
  match cols with
  | [] => Ok d
  | col :: cols' =>
      match vs with
      | e :: vs' => v ← eval x e d; set_positional x cols' vs' (dict_set d (Catalog.c_name col) v)
      | [] => set_positional x cols' [] (dict_set d (Catalog.c_name col) (default_of col))
      end
  end.
Definition new_row (x : context) (cols : list (Catalog.ColumnInfo J)) (names : list pystr) (vs : list Expression) : res row :=
  if bool_decide (names ≠ []) then
    d ← fold_res (set_named x) [] (zip names vs);
    Ok (foldl set_default d cols)
  else set_positional x cols vs [].

Definition insert_one (table : pystr) (cols : list (Catalog.ColumnInfo J)) (names : list pystr) (vs : list Expression)
    : method context () :=
  let! x := m_get in
  let! r := m_lift (new_row x cols names vs) in
  let! _ := on_store () (insert_row table r) in
  on_catalog (Catalog.Catalog.update_row_count table 1).

Definition text (s : pystr) : value := V (LStr s).
Definition count (z : Z) : value := V (LInt z).

Definition execute_insert (table : pystr) (names : list pystr) (rows : list (list Expression)) : method context (list row) :=
  let! x := m_get in
  match Catalog.Catalog.get_table table (catalog x) with
  | None => m_raise ValueError
  | Some info =>
      let! _ := for_each (insert_one table (Catalog.columns info) names) rows in
      m_ret [[(str "_inserted", count (len rows)); (str "table", text table)]]
  end.

Definition predicate (x : context) (w : option Expression) : row → res bool :=
  condition repr_float same_object (sub x) w.

Definition execute_delete (table : pystr) (w : option Expression) : method context (list row) :=
  let! x := m_get in
  if known x table then
    let! deleted := on_store 0 (delete_rows table (predicate x w)) in
    let! _ := on_catalog (Catalog.Catalog.update_row_count table (- deleted)) in
    m_ret [[(str "_deleted", count deleted); (str "table", text table)]]
  else m_raise ValueError.

(** The last of several assignments to a column counts. *)
Definition set_dict (sets : list (pystr * Expression)) : list (pystr * Expression) :=
  foldl (λ d x, dict_set d x.1 x.2) [] sets.
Definition execute_update (table : pystr) (sets : list (pystr * Expression)) (w : option Expression) : method context (list row) :=
  let! x := m_get in
  if known x table then
    let! updated := on_store 0 (update_rows table (set_dict sets) (predicate x w)) in
    m_ret [[(str "_updated", count updated); (str "table", text table)]]
  else m_raise ValueError.

Definition execute_use (db : pystr) : method context (list row) :=
  if bool_decide (db ≠ []) then
    let! _ := on_catalog (Catalog.Catalog.use_database db) in
    m_ret [[(str "_result", text (str "Using database " ++ db))]]
  else m_ret [].

Definition execute_show (ty : pystr) : method context (list row) :=
  let! x := m_get in
  if bool_decide (ty = str "DATABASES") then
    m_ret ((λ n, [(str "Database", text n)]) <$> Catalog.Catalog.list_databases (catalog x))
  else if bool_decide (ty = str "TABLES") then
    m_ret ((λ n, [(str "Table", text n)]) <$> Catalog.Catalog.list_tables (catalog x))
  else m_ret [].

(** COMMIT and ROLLBACK of the current transaction, if there is one. *)
Definition end_transaction (f : nat → method TransactionManager.t ()) : method context () :=
  let! x := m_get in
  match current_transaction x, transaction_manager x with
  | Some t, Some m =>
      let! _ := on_manager m (f t) in
      let! x := m_get in
      m_put (with_current None x)
  | _, _ => m_ret ()
  end.
Definition execute_transaction (action : pystr) : method context (list row) :=
  let result s := m_ret [[(str "_result", text (str s))]] in
  if bool_decide (action = str "BEGIN") then
    let! x := m_get in
    let! _ := match transaction_manager x with
              | Some m =>
                  let! t := on_manager m (TransactionManager.begin READ_COMMITTED now) in
                  let! x := m_get in
                  m_put (with_current (Some t) x)
              | None => m_ret ()
              end in
    result "BEGIN"
  else if bool_decide (action = str "COMMIT") then
    let! _ := end_transaction TransactionManager.commit in result "COMMIT"
  else if bool_decide (action = str "ROLLBACK") then
    let! _ := end_transaction TransactionManager.rollback in result "ROLLBACK"
  else m_ret [].

Definition execute_drop_column (table column : pystr) : method context (list row) :=
  if bool_decide (column ≠ []) then
    let! _ := on_catalog (Catalog.Catalog.drop_column table column) in
    m_ret [[(str "_altered", text (str "TABLE " ++ table ++ str ", DROP COLUMN " ++ column))]]
  else m_ret [].

(** [execute], but for what is not modelled: EXPLAIN, and ADD COLUMN with a default, which
    puts a syntax tree into the catalog. *)
Definition execute_add_column (table : pystr) (c : ColumnDef) : option (method context (list row)) :=
  match default_value c with
  | Some _ => None
  | None => Some (
      let! ty := m_lift (SqlTypes.DataType.parse_type_string (data_type c)) in
      let! _ := on_catalog (Catalog.Catalog.add_column table
                  (Catalog.mk_column (name c) ty (nullable c) None false false false)) in
      m_ret [[(str "_altered", text (str "TABLE " ++ table ++ str ", ADD COLUMN " ++ name c))]])
  end.

Definition execute (p : Plan) : option (method context (list row)) :=
  match p with
  | QUERY n => Some (λ x, (x, query n x))
  | INSERT table names rows => Some (execute_insert table names rows)
  | DELETE table w => Some (execute_delete table w)
  | UPDATE table sets w => Some (execute_update table sets w)
  | ADD_COLUMN table c => execute_add_column table c
  | DROP_COLUMN table column => Some (execute_drop_column table column)
  | USE_DATABASE db => Some (execute_use db)
  | SHOW ty => Some (execute_show ty)
  | TRANSACTION action => Some (execute_transaction action)
  | EXPLAIN _ => None
  end.

(** A text through the lexer, the parser, the planner and the executor. *)
Definition run (sql : pystr) : option (method context (list row)) :=
  match parse_sql sql with
  | Some (Ok s) => match Planner.create_plan s with Ok p => execute p | Err e => Some (m_raise e) end
  | Some (Err e) => Some (m_raise e)
  | None => None
  end.
End Execute.
End Executor.
