(* ===== verification/SqlFolding.v ===== *)
(** The SQL optimizer: constant folding computes what the executor computes, and an
    optimized query is the query without its WHERE. *)

From Stdlib Require Import String.
From S2P Require Import Prelude Bytes Utf8 Str PyNum PyDict PyFloat SqlLexer SqlParser SqlExpression SqlValue SqlPlan SqlExec.

Open Scope string_scope.
Open Scope list_scope.
Open Scope Z_scope.

(** * Constant folding *)

Section Folding.
Variable repr_float : Z → pystr.
Variable same_object : value → value → bool.
Variable subquery : SelectStatement → res value.
#[local] Abbreviation evaluate := (evaluate repr_float same_object subquery).

Lemma numeric_none a b : numeric LNone b = None ∧ numeric a LNone = None.
Proof. split; [by destruct b|by destruct a]. Qed.

(** None of the operators of the optimizer accepts [None] where the executor gives [None]. *)
Lemma none_raises op a b v :
  is_none (V a) || is_none (V b) = true →
  op ∈ [literal_add; literal_sub; literal_mul; literal_div] → op a b = Ok v → False.
Proof. intros H Hop. set_unfold in Hop. destruct a, b; try done; destruct_or! Hop; try done; by rewrite Hop. Qed.

Lemma none_compares a b : is_none (V a) || is_none (V b) = true → literal_lt a b = Err TypeError.
Proof. by destruct a, b. Qed.

Lemma unless_ok {A} a b (none : A) (r : res A) x :
  (is_none a || is_none b = true → r ≠ Ok x) → r = Ok x → unless_none a b none r = Ok x.
Proof. unfold unless_none. intros H Hr. destruct (_ || _); [by destruct H|done]. Qed.

Lemma arithmetic_ok op a b v :
  op ∈ [literal_add; literal_sub; literal_mul; literal_div] → op a b = Ok v →
  unless_none (V a) (V b) VNone (V <$> scalar op (V a) (V b)) = Ok (V v).
Proof.
  intros Hop H. apply unless_ok; [|cbn; by rewrite H]. intros Hn _. by eapply none_raises.
Qed.

Lemma comparison_ok (f : literal → literal → res bool) a b v :
  (is_none (V a) || is_none (V b) = true → f a b = Err TypeError) → LBool <$> f a b = Ok v →
  VBool <$> unless_none (V a) (V b) false (f a b) = Ok (V v).
Proof.
  intros Hn. unfold unless_none. destruct (_ || _); [by rewrite Hn|]. destruct (f a b); [|done]. by intros [= <-].
Qed.

Lemma le_none a b : is_none (V a) || is_none (V b) = true → literal_le a b = Err TypeError.
Proof. intros H. unfold literal_le. by rewrite none_compares. Qed.

Lemma swapped (f : literal → literal → res bool) a b :
  (∀ a b, is_none (V a) || is_none (V b) = true → f a b = Err TypeError) →
  is_none (V a) || is_none (V b) = true → f b a = Err TypeError.
Proof. intros H Hn. apply H. by rewrite orb_comm. Qed.

Lemma fold_binary_sound op a b v :
  QueryOptimizer.fold_binary op a b = Some (Ok v) → binary same_object op (V a) (V b) = Ok (V v).
Proof.
  unfold QueryOptimizer.fold_binary.
  case_bool_decide as E; [subst; intros [= H]; refine (arithmetic_ok literal_add a b v _ H); set_solver|clear E].
  case_bool_decide as E; [subst; intros [= H]; refine (arithmetic_ok literal_sub a b v _ H); set_solver|clear E].
  case_bool_decide as E; [subst; intros [= H]; refine (arithmetic_ok literal_mul a b v _ H); set_solver|clear E].
  case_bool_decide as E; [subst|clear E].
  { destruct (literal_eq b (LInt 0)) eqn:Hz; [done|]. intros [= H].
    change ((if literal_eq b (LInt 0) then Ok VNone
             else unless_none (V a) (V b) VNone (V <$> scalar literal_div (V a) (V b))) = Ok (V v)).
    rewrite Hz. apply arithmetic_ok; [set_solver|done]. }
  do 2 (case_bool_decide as E; [subst; by intros [= <-]|clear E]).
  case_bool_decide as E; [subst; intros [= H]; refine (comparison_ok literal_lt a b v _ H); apply none_compares|clear E].
  case_bool_decide as E; [subst; intros [= H]; refine (comparison_ok (flip literal_lt) a b v _ H);
    apply (swapped literal_lt), none_compares|clear E].
  case_bool_decide as E; [subst; intros [= H]; refine (comparison_ok literal_le a b v _ H); apply le_none|clear E].
  case_bool_decide as E; [subst; intros [= H]; refine (comparison_ok (flip literal_le) a b v _ H);
    apply (swapped literal_le), le_none|clear E].
  do 2 (case_bool_decide as E; [subst; by intros [= <-]|clear E]). done.
Qed.

Lemma fold_unary_sound op a v :
  (if bool_decide (op = str "-") then LiteralExpression <$> literal_neg a
   else if bool_decide (op = str "NOT") then Ok (LiteralExpression (LBool (negb (literal_truth a))))
   else Ok (UnaryExpression op (LiteralExpression a))) = Ok v →
  ∀ r, evaluate v r = unary op (V a).
Proof.
  intros H r. unfold unary. case_bool_decide as E.
  - subst. rewrite bool_decide_eq_false_2 by done. destruct a; try done; by injection H as <-.
  - case_bool_decide; [by injection H as <-|]. injection H as <-. cbn. unfold unary.
    by rewrite !bool_decide_eq_false_2.
Qed.

(** C38: an expression that is folded has the value of the original on every row, errors
    included. *)
Theorem sql_folding_sound e e' :
  QueryOptimizer.fold_expression e = Ok e' → ∀ r, evaluate e' r = evaluate e r.
Proof.
  revert e'. induction e as [v|name table|op l r IHl IHr|op x IHx|name args d IH|x l h IHx IHl IHh|x vs IHx IH|x p IHx IHp
    |cs rs el IHc IHr IHe|t|s] using expression_rect; intros e'; cbn [QueryOptimizer.fold_expression];
    try (by intros [= <-]).
  - intros (l' & Hl & (r' & Hr & H)%bind_Ok)%bind_Ok row.
    change (evaluate (BinaryExpression op l r) row) with
      (a ← evaluate l row; b ← evaluate r row; binary same_object op a b).
    rewrite <-(IHl l' Hl), <-(IHr r' Hr).
    change (a ← evaluate l' row; b ← evaluate r' row; binary same_object op a b) with
      (evaluate (BinaryExpression op l' r') row).
    destruct l' as [a| | | | | | | | | |], r' as [b| | | | | | | | | |]; try (by injection H as <-).
    destruct (QueryOptimizer.fold_binary op a b) as [[v|e]|] eqn:E.
    + injection H as <-. symmetry. by apply fold_binary_sound.
    + destruct (QueryOptimizer.caught e); by simplify_eq.
    + by injection H as <-.
  - intros (x' & Hx & H)%bind_Ok row.
    change (evaluate (UnaryExpression op x) row) with (a ← evaluate x row; unary op a).
    rewrite <-(IHx x' Hx). destruct x' as [a| | | | | | | | | |]; try (by injection H as <-).
    by apply fold_unary_sound.
Qed.
End Folding.

Lemma sql_folding_sound_witness :
  let e := BinaryExpression (str "<") (ColumnExpression (str "a") None)
             (BinaryExpression (str "+") (LiteralExpression (LInt 2)) (LiteralExpression (LInt 3))) in
  let e' := BinaryExpression (str "<") (ColumnExpression (str "a") None) (LiteralExpression (LInt 5)) in
  QueryOptimizer.fold_expression e = Ok e' ∧
  ∀ r, evaluate (λ _, []) (λ _ _, false) (λ _, Ok VNone) e' r = evaluate (λ _, []) (λ _ _, false) (λ _, Ok VNone) e r.
Proof.
  intros e e'. assert (QueryOptimizer.fold_expression e = Ok e') as H by (vm_compute; reflexivity).
  split; [exact H|]. exact (sql_folding_sound _ _ _ e e' H).
Defined.

(** A sign before NULL: the executor computes NULL, the optimizer raises. *)
Example fold_minus_null :
  QueryOptimizer.fold_expression (UnaryExpression (str "-") (LiteralExpression LNone)) = Err TypeError.
Proof. vm_compute. reflexivity. Qed.

(** Folding again changes nothing: a shared expression may be folded twice. *)
Lemma fold_idempotent e e' : QueryOptimizer.fold_expression e = Ok e' → QueryOptimizer.fold_expression e' = Ok e'.
Proof.
  revert e'. induction e as [v|name table|op l r IHl IHr|op x IHx|name args d IH|x l h IHx IHl IHh|x vs IHx IH|x p IHx IHp
    |cs rs el IHc IHr IHe|t|s] using expression_rect; intros e'; cbn [QueryOptimizer.fold_expression];
    try (by intros [= <-]).
  - intros (l' & Hl & (r' & Hr & H)%bind_Ok)%bind_Ok. apply IHl in Hl. apply IHr in Hr.
    assert ((∃ v, e' = LiteralExpression v) ∨ e' = BinaryExpression op l' r') as [[v ->]| ->]; [|done|].
    { destruct l' as [a| | | | | | | | | |], r' as [b| | | | | | | | | |]; try (injection H as <-; by right).
      destruct (QueryOptimizer.fold_binary op a b) as [[v|e]|].
      - injection H as <-. left. by eexists.
      - destruct (QueryOptimizer.caught e); [injection H as <-; by right|done].
      - injection H as <-. by right. }
    cbn [QueryOptimizer.fold_expression]. rewrite Hl. cbn [mbind res_bind]. rewrite Hr. exact H.
  - intros (x' & Hx & H)%bind_Ok. apply IHx in Hx.
    assert ((∃ v, e' = LiteralExpression v) ∨ e' = UnaryExpression op x') as [[v ->]| ->]; [|done|].
    { destruct x' as [a| | | | | | | | | |]; try (injection H as <-; by right).
      case_bool_decide; [|case_bool_decide]; [| |injection H as <-; by right].
      - destruct (literal_neg a); [injection H as <-; left; by eexists|done].
      - injection H as <-. left. by eexists. }
    cbn [QueryOptimizer.fold_expression]. rewrite Hx. exact H.
Qed.

(** * A query without its WHERE *)

Definition without_where (s : SelectStatement) : SelectStatement :=
  match s with
  | Select columns table alias joins _ g h o limit offset d => Select columns table alias joins None g h o limit offset d
  end.

(** A plan without the conditions of its scans, which the executor does not test. *)
Fixpoint strip (n : PlanNode) : PlanNode :=
  match n with
  | SEQUENTIAL_SCAN t a _ => SEQUENTIAL_SCAN t a None
  | FILTER c w => FILTER (strip c) w
  | NESTED_LOOP_JOIN c t ty on => NESTED_LOOP_JOIN (strip c) t ty on
  | AGGREGATE c es g h => AGGREGATE (strip c) es g h
  | SORT c o => SORT (strip c) o
  | DISTINCT c => DISTINCT (strip c)
  | PROJECTION c es => PROJECTION (strip c) es
  | LIMIT c l o => LIMIT (strip c) l o
  end.

Section Execution.
Variable repr_float : Z → pystr.
Variable same_object : value → value → bool.
Variable subquery : SelectStatement → res value.
Variable table_known : pystr → bool.
Variable table_data : pystr → res (list row).
#[local] Abbreviation execute := (execute_node repr_float same_object subquery table_known table_data).

Lemma execute_strip n : execute (strip n) = execute n.
Proof. induction n as [[]| | | | | | |]; cbn [strip execute_node]; by rewrite ?IHn. Qed.
End Execution.

(** Columns that folding leaves alone; a folded column changes its name. *)
Definition unfolded (es : list Expression) : Prop := res_map QueryOptimizer.fold_expression es = Ok es.

(** What is above the scan of a query without WHERE is not changed. *)
Lemma optimize_joins node joins :
  QueryOptimizer.optimize_node (foldl Planner.plan_join node joins) =
  (λ n, foldl Planner.plan_join n joins) <$> QueryOptimizer.optimize_node node.
Proof.
  revert node. induction joins as [|[ty t a on] joins IH]; intros node; [cbn [foldl]; by destruct (QueryOptimizer.optimize_node node)|].
  cbn [foldl Planner.plan_join]. rewrite IH. cbn [QueryOptimizer.optimize_node]. by destruct (QueryOptimizer.optimize_node node).
Qed.

(** The part of a query's plan above its joins. *)
Definition above_joins (s : SelectStatement) (node : PlanNode) : PlanNode :=
  match s with
  | Select columns _ _ _ _ group_by having order_by limit offset distinct =>
      let node := if bool_decide (group_by ≠ []) || Planner.has_aggregates columns
                  then AGGREGATE node columns group_by having else node in
      let node := if bool_decide (order_by ≠ []) then SORT node order_by else node in
      let node := if distinct : bool then DISTINCT node else node in
      let node := if bool_decide (columns ≠ []) then PROJECTION node columns else node in
      if bool_decide (limit ≠ None) || bool_decide (offset ≠ None) then LIMIT node limit offset else node
  end.
Definition scanned (s : SelectStatement) : PlanNode :=
  match s with Select _ t a _ _ _ _ _ _ _ _ => SEQUENTIAL_SCAN t a None end.
Definition joined (s : SelectStatement) (node : PlanNode) : PlanNode :=
  match s with Select _ _ _ joins _ _ _ _ _ _ _ => foldl Planner.plan_join node joins end.
Definition where_of (s : SelectStatement) : option Expression :=
  match s with Select _ _ _ _ w _ _ _ _ _ _ => w end.
Definition columns_of (s : SelectStatement) : list Expression :=
  match s with Select c _ _ _ _ _ _ _ _ _ _ => c end.

Lemma plan_select_eq s :
  Planner.plan_select s = above_joins s (joined s (match where_of s with
                                                   | Some w => FILTER (scanned s) (Some w)
                                                   | None => scanned s
                                                   end)).
Proof. by destruct s as [c t a j [w|] g h o l f d]. Qed.

Lemma optimize_if (b : bool) (K : PlanNode → PlanNode) n :
  (∀ n, QueryOptimizer.optimize_node (K n) = K <$> QueryOptimizer.optimize_node n) →
  QueryOptimizer.optimize_node (if b then K n else n) = (λ n, if b then K n else n) <$> QueryOptimizer.optimize_node n.
Proof. intros H. destruct b; [apply H|by destruct (QueryOptimizer.optimize_node n)]. Qed.

Lemma fmap_fmap {A B C} (f : B → C) (g : A → B) (r : res A) : f <$> (g <$> r) = (λ x, f (g x)) <$> r.
Proof. by destruct r. Qed.

Lemma optimize_above s node :
  unfolded (columns_of s) →
  QueryOptimizer.optimize_node (above_joins s node) = above_joins s <$> QueryOptimizer.optimize_node node.
Proof.
  destruct s as [c t a j w g h o l f d]. cbn [columns_of]. unfold unfolded. intros Hc.
  assert (∀ K : PlanNode → PlanNode, (∀ n, QueryOptimizer.optimize_node (K n) = n' ← QueryOptimizer.optimize_node n; Ok (K n')) →
    ∀ n, QueryOptimizer.optimize_node (K n) = K <$> QueryOptimizer.optimize_node n) as Hk.
  { intros K H n. rewrite H. by destruct (QueryOptimizer.optimize_node n). }
  unfold above_joins.
  rewrite (optimize_if _ (λ n, LIMIT n l f)) by (by apply Hk).
  rewrite (optimize_if _ (λ n, PROJECTION n c)).
  2:{ apply Hk. intros n. cbn [QueryOptimizer.optimize_node]. unfold QueryOptimizer.optimize_own. cbn. by rewrite Hc. }
  rewrite (optimize_if _ DISTINCT) by (by apply Hk).
  rewrite (optimize_if _ (λ n, SORT n o)) by (by apply Hk).
  rewrite (optimize_if _ (λ n, AGGREGATE n c g h)).
  2:{ apply Hk. intros n. cbn [QueryOptimizer.optimize_node]. unfold QueryOptimizer.optimize_own. cbn. by rewrite Hc. }
  by rewrite !fmap_fmap.
Qed.

Lemma strip_joins node node' joins :
  strip node = strip node' → strip (foldl Planner.plan_join node joins) = strip (foldl Planner.plan_join node' joins).
Proof.
  revert node node'. induction joins as [|[ty t a on] joins IH]; intros node node' H; [done|].
  cbn [foldl Planner.plan_join]. apply IH. cbn [strip]. by rewrite H.
Qed.

Lemma strip_above s node node' : strip node = strip node' → strip (above_joins s node) = strip (above_joins s node').
Proof. destruct s. cbn [above_joins]. intros H. by repeat case_match; cbn [strip]; rewrite H. Qed.

(** An optimized query runs as the query without its WHERE: the optimizer moves the
    condition into the scan, and the executor does not test a scan's condition. *)
Theorem sql_optimizer_drops_where repr_float same_object known data depth s n :
  unfolded (columns_of s) → QueryOptimizer.optimize_node (Planner.plan_select s) = Ok n →
  run_query repr_float same_object known data depth n =
  run_query repr_float same_object known data depth (Planner.plan_select (without_where s)).
Proof.
  intros Hc. unfold run_query. rewrite !plan_select_eq, optimize_above by done.
  destruct s as [c t a j w g h o l f d]. cbn [joined]. rewrite optimize_joins, fmap_fmap.
  cbn [where_of scanned without_where].
  assert (∀ base, QueryOptimizer.optimize_node match w with
                                          | Some w => FILTER (SEQUENTIAL_SCAN t a None) (Some w)
                                          | None => SEQUENTIAL_SCAN t a None
                                          end = Ok base → strip base = SEQUENTIAL_SCAN t a None) as Hs.
  { intros base. destruct w as [w|]; [|by intros [= <-]].
    change (QueryOptimizer.combine_filters <$> (w' ← QueryOptimizer.fold_clause (Some w); Ok (SEQUENTIAL_SCAN t a w')) = Ok base →
      strip base = SEQUENTIAL_SCAN t a None).
    destruct (QueryOptimizer.fold_clause (Some w)); [|done]. by intros [= <-]. }
  destruct (QueryOptimizer.optimize_node _) as [base|e]; [|done]. intros [= <-]. f_equal.
  rewrite <-execute_strip, <-(execute_strip _ _ _ _ _ (above_joins _ _)). f_equal.
  change (strip (above_joins (Select c t a j w g h o l f d) (foldl Planner.plan_join base j)) =
    strip (above_joins (Select c t a j w g h o l f d) (foldl Planner.plan_join (SEQUENTIAL_SCAN t a None) j))).
  apply strip_above, strip_joins. by rewrite (Hs base).
Qed.

Lemma sql_optimizer_drops_where_witness :
  let people := [[(str "name", V (LStr (str "Ada"))); (str "age", V (LInt 36))];
                 [(str "name", V (LStr (str "Bo"))); (str "age", V (LInt 17))]] in
  let run := run_query (λ _, []) (λ _ _, false) (λ _, true) (λ _, Ok people) 1 in
  let adult := BinaryExpression (str ">") (ColumnExpression (str "age") None) (LiteralExpression (LInt 18)) in
  let name := [ColumnExpression (str "name") None] in
  let s := Select name (Some (str "people")) None [] (Some adult) [] None [] None None false in
  let n := PROJECTION (SEQUENTIAL_SCAN (Some (str "people")) None (Some adult)) name in
  run (Planner.plan_select s) = Ok [[(str "name", V (LStr (str "Ada")))]] ∧
  QueryOptimizer.optimize_node (Planner.plan_select s) = Ok n ∧
  run n = run (Planner.plan_select (without_where s)) ∧
  run n = Ok [[(str "name", V (LStr (str "Ada")))]; [(str "name", V (LStr (str "Bo")))]].
Proof.
  intros people run adult name s n. split; [vm_compute; reflexivity|].
  assert (QueryOptimizer.optimize_node (Planner.plan_select s) = Ok n) as H by (vm_compute; reflexivity).
  split; [exact H|]. split; [|vm_compute; reflexivity].
  apply (sql_optimizer_drops_where _ _ _ _ _ s); [vm_compute; reflexivity|exact H].
Defined.
