(* ===== verification/SqlQuery.v ===== *)
(** The SQL executor against a reference: SELECT as an operation on lists, ORDER BY as a
    stable sort, COUNT, and what an INSERT hands to the store. *)

From Stdlib Require Import String.
From stdpp Require Import sorting.
From S2P Require Import Prelude Bytes Sorting Utf8 Str PyNum PyDict PyFloat SqlLexer SqlParser SqlValue SqlPlan SqlExec.
From S2P Require Serializer Txn Catalog SqlTypes.

Open Scope string_scope.
Open Scope list_scope.
Open Scope Z_scope.

(** * Generators that do not raise *)

Lemma filter_rows_total test (p : row → bool) rows :
  (∀ r, r ∈ rows → test r = Ok (p r)) → filter_rows test rows None = (filter p rows, None).
Proof.
  induction rows as [|r rows IH]; intros H; [done|]. cbn [filter_rows]. rewrite (H r) by left.
  rewrite filter_cons, IH by (intros q Hq; apply H; by right).
  destruct (decide (p r)) as [D|D]; by destruct (p r).
Qed.

Lemma map_rows_total g (f : row → row) rows :
  (∀ r, r ∈ rows → g r = Ok (f r)) → map_rows g rows None = (f <$> rows, None).
Proof.
  induction rows as [|r rows IH]; intros H; [done|]. cbn [map_rows]. rewrite (H r) by left.
  by rewrite IH by (intros q Hq; apply H; by right).
Qed.

(** The first of each class of equal rows. *)
Fixpoint dedup (seen rows : list row) : list row :=
  match rows with
  | [] => []
  | r :: rows' => if existsb (row_eq r) seen then dedup seen rows' else r :: dedup (seen ++ [r]) rows'
  end.

Definition hashable_row (r : row) : bool := forallb (λ x, hashable x.2) r.

Lemma distinct_rows_total seen rows :
  (∀ r, r ∈ rows → hashable_row r = true) → distinct_rows seen rows None = (dedup seen rows, None).
Proof.
  revert seen. induction rows as [|r rows IH]; intros seen H; [done|]. cbn [distinct_rows dedup].
  pose proof (H r ltac:(left)) as Hr. unfold hashable_row in Hr. rewrite Hr.
  assert (∀ q, q ∈ rows → hashable_row q = true) as H' by (intros q Hq; apply H; by right).
  destruct (existsb (row_eq r) seen); by rewrite IH.
Qed.

(** LIMIT and OFFSET. *)
Definition page {A} (limit offset : option Z) (l : list A) : list A :=
  let l := drop (Z.to_nat (default 0 offset)) l in
  match limit with Some n => take (Z.to_nat n) l | None => l end.

Lemma limit_rows_from limit offset i rows :
  0 <= offset → 0 <= i → default 0 limit >= 0 →
  limit_rows limit offset i rows None =
  (let l := drop (Z.to_nat (offset - i)) rows in
   match limit with Some n => take (Z.to_nat (n - Z.max 0 (i - offset))) l | None => l end, None).
Proof.
  revert i. induction rows as [|r rows IH]; intros i Ho Hi Hl.
  { cbn [limit_rows]. rewrite drop_nil. destruct limit; [by rewrite take_nil|done]. }
  cbn [limit_rows]. destruct (Z.ltb_spec i offset).
  - rewrite IH by lia. replace (Z.to_nat (offset - i)) with (S (Z.to_nat (offset - (i + 1)))) by lia. cbn [drop].
    destruct limit; [|done]. by replace (Z.max 0 (i + 1 - offset)) with (Z.max 0 (i - offset)) by lia.
  - replace (Z.to_nat (offset - i)) with 0%nat by lia. cbn [drop]. destruct limit as [n|]; cbn [default] in *.
    + destruct (Z.leb_spec n (i - offset)).
      * by replace (Z.to_nat (n - Z.max 0 (i - offset))) with 0%nat by lia.
      * replace (Z.to_nat (n - Z.max 0 (i - offset))) with (S (Z.to_nat (n - Z.max 0 (i + 1 - offset)))) by lia.
        rewrite IH by (cbn; lia). replace (Z.to_nat (offset - (i + 1))) with 0%nat by lia. cbn [drop].
        done.
    + rewrite IH by (cbn; lia). by replace (Z.to_nat (offset - (i + 1))) with 0%nat by lia.
Qed.

Lemma limit_rows_page limit offset rows :
  0 <= default 0 offset → 0 <= default 0 limit →
  limit_rows limit (default 0 offset) 0 rows None = (page limit offset rows, None).
Proof.
  intros Ho Hl. rewrite limit_rows_from by lia. unfold page. rewrite Z.sub_0_r.
  destruct limit as [n|]; [|done]. cbv zeta. by replace (n - Z.max 0 (0 - default 0 offset)) with n by lia.
Qed.

Lemma filter_all {A} (p : A → bool) (l : list A) : (∀ x, x ∈ l → p x = true) → filter p l = l.
Proof.
  induction l as [|x l IH]; intros H; [done|]. rewrite filter_cons, IH by (intros; apply H; by right).
  pose proof (H x ltac:(left)) as Hx. destruct (decide (p x)) as [|D]; [done|]. by rewrite Hx in D.
Qed.

Lemma res_map_total' {A B} (f : A → res B) (g : A → B) l :
  (∀ x, x ∈ l → f x = Ok (g x)) → res_map f l = Ok (g <$> l).
Proof.
  induction l as [|x l IH]; intros H; [done|]. cbn [res_map]. rewrite (H x) by left. cbn [mbind res_bind].
  rewrite IH by (intros; apply H; by right). done.
Qed.

(** * SELECT on one table *)

Section Select.
Variable repr_float : Z → pystr.
Variable same_object : value → value → bool.
Variable subquery : SelectStatement → res value.
Variable table_known : pystr → bool.
Variable table_data : pystr → res (list row).
#[local] Abbreviation condition := (condition repr_float same_object subquery).
#[local] Abbreviation sort_key := (sort_key repr_float same_object subquery).
#[local] Abbreviation project := (project repr_float same_object subquery).
#[local] Abbreviation execute := (execute_node repr_float same_object subquery table_known table_data).

(** What a query says, with its condition, keys and columns as functions: the order of two lists
    of keys is decided by the first difference, in the direction of that key; repeated
    rows are dropped from the rows of the result. *)
Fixpoint precedes (order_by : list OrderByItem) (a b : list value) : bool :=
  match order_by, a, b with
  | i :: order_by', x :: a', y :: b' =>
      let (x, y) := if is_desc i then (y, x) else (x, y) in
      if py_eq x y then precedes order_by' a' b'
      else match py_lt x y with Ok b => b | Err _ => false end
  | _, _, _ => false
  end.
Definition ordered (order_by : list OrderByItem) (k : row → list value) (rows : list row) : list row :=
  snd <$> sort_by (λ a b, precedes order_by a.1 b.1) ((λ r, (k r, r)) <$> rows).
Definition reference (p : row → bool) (k : row → list value) (f : row → row) (order_by : list OrderByItem)
    (limit offset : option Z) (distinct : bool) (rows : list row) : list row :=
  let out := f <$> ordered order_by k (filter p rows) in
  page limit offset (if distinct then dedup [] out else out).

(** One direction for all keys. *)
Definition uniform (order_by : list OrderByItem) : Prop :=
  ∀ i j, i ∈ order_by → j ∈ order_by → is_desc i = is_desc j.

Lemma precedes_uniform order_by a b :
  uniform order_by → length a = length order_by → length b = length order_by →
  precedes order_by a b = match (if existsb is_desc order_by then keys_lt b a else keys_lt a b) with Ok b => b | Err _ => false end.
Proof.
  intros Hu. assert (∃ d, (∀ i, i ∈ order_by → is_desc i = d) ∧ (order_by ≠ [] → existsb is_desc order_by = d)) as (d & Hd & He).
  { destruct order_by as [|i o]; [by exists false; split; [intros ? ?%elem_of_nil|]|]. exists (is_desc i).
    split; [intros j Hj; apply Hu; [done|left]|]. intros _. cbn [existsb]. destruct (is_desc i) eqn:E; [done|].
    apply existsb_none. intros j Hj. rewrite <-E. apply Hu; [by right|left]. }
  destruct (decide (order_by = [])) as [->|Hne].
  { by destruct a, b. }
  rewrite (He Hne). clear He Hne Hu. revert a b Hd. induction order_by as [|i o IH]; intros [|x a] [|y b] Hd Ha Hb; try done.
  { by destruct d. }
  cbn [precedes]. rewrite (Hd i) by left. specialize (IH a b ltac:(intros; apply Hd; by right) ltac:(by injection Ha) ltac:(by injection Hb)).
  destruct d; cbn [keys_lt]; destruct (py_eq _ _); done.
Qed.

Lemma sort_key_length order_by r ks : sort_key order_by r = Ok ks → length ks = length order_by.
Proof. apply res_map_length. Qed.

Lemma ordered_sort order_by k rows :
  uniform order_by → (∀ r, r ∈ rows → length (k r) = length order_by) →
  ordered order_by k rows =
  if bool_decide (order_by = []) then rows
  else snd <$> sort_by (if existsb is_desc order_by then flip lt_keys else lt_keys) ((λ r, (k r, r)) <$> rows).
Proof.
  intros Hu Hk. unfold ordered. case_bool_decide as E.
  - subst. rewrite sort_by_never by done. rewrite <-list_fmap_compose. by rewrite (list_fmap_ext _ id), list_fmap_id.
  - f_equal. apply sort_by_ext. intros x y (r & -> & Hr)%list_elem_of_fmap (q & -> & Hq)%list_elem_of_fmap. cbn [fst].
    rewrite precedes_uniform by auto. by destruct (existsb is_desc order_by).
Qed.

Lemma sort_node_total order_by k n rows :
  execute n = (rows, None) → uniform order_by →
  (∀ r, r ∈ rows → sort_key order_by r = Ok (k r)) → comparable ((λ r, (k r, r)) <$> rows) = true →
  execute (if bool_decide (order_by ≠ []) then SORT n order_by else n) = (ordered order_by k rows, None).
Proof.
  intros Hn Hu Hk Hc. rewrite ordered_sort; [|done|by intros r Hr; eapply sort_key_length, Hk].
  destruct order_by as [|i o].
  { rewrite (bool_decide_eq_false_2 ([] ≠ [])), bool_decide_eq_true_2 by auto. done. }
  rewrite (bool_decide_eq_true_2 (i :: o ≠ [])), (bool_decide_eq_false_2 (i :: o = [])) by done.
  cbn [execute_node]. rewrite Hn. cbn [to_list mbind res_bind].
  unfold sorted_rows. rewrite bool_decide_eq_false_2 by done.
  rewrite (res_map_total' _ (λ r, (k r, r))) by (intros r Hr; by rewrite Hk).
  cbn [mbind res_bind]. unfold sort_rows. by rewrite Hc.
Qed.

Lemma ordered_perm order_by k rows : ordered order_by k rows ≡ₚ rows.
Proof.
  unfold ordered. rewrite sort_by_perm. rewrite <-list_fmap_compose.
  by rewrite (list_fmap_ext _ id), list_fmap_id.
Qed.

(** Repetitions may be dropped before the columns are chosen, if these tell the rows apart. *)
Lemma dedup_fmap (f : row → row) seen rows :
  (∀ r q, r ∈ seen ++ rows → q ∈ seen ++ rows → row_eq (f r) (f q) = row_eq r q) →
  dedup (f <$> seen) (f <$> rows) = f <$> dedup seen rows.
Proof.
  revert seen. induction rows as [|r rows IH]; intros seen H; [done|]. cbn [fmap list_fmap dedup].
  assert (existsb (row_eq (f r)) (f <$> seen) = existsb (row_eq r) seen) as ->.
  { rewrite existsb_fmap. apply existsb_ext_in. intros q Hq. apply H; set_solver. }
  destruct (existsb _ _); [apply IH; set_solver|]. cbn [fmap list_fmap]. rewrite <-IH; [by rewrite fmap_app|].
  by rewrite <-app_assoc.
Qed.

Lemma dedup_elem seen rows r : r ∈ dedup seen rows → r ∈ rows.
Proof.
  revert seen. induction rows as [|q rows IH]; intros seen; [done|]. cbn [dedup].
  destruct (existsb (row_eq q) seen); [intros H; right; by eapply IH|].
  intros [->|H]%elem_of_cons; [left|right; by eapply IH].
Qed.

(** C37: A SELECT on one table, without joins, groups (so that a HAVING is not read) and
    aggregates, gives what it says: the rows
    that meet the condition, in the order of their keys (the first difference decides, in the
    direction of that key; rows of equal keys stay in the order of the table; NULL sorts as the
    empty string), reduced to the columns, with DISTINCT only the first of equal results, and of
    these those that OFFSET and LIMIT leave. The conditions: the table is known and read without
    an error; the condition, the keys and the columns are evaluated without an error on its
    rows, and the keys can be compared; all keys of ORDER BY have one direction (one DESC
    reverses them all); under DISTINCT the values are hashable, and two rows that meet the
    condition are equal exactly when their results are (repetitions are dropped before the
    columns are chosen); LIMIT and OFFSET are not negative. *)
Theorem sql_select_reference columns table alias w h order_by limit offset distinct rows p k f :
  table_known table = true → table_data table = Ok rows →
  columns ≠ [] → Planner.has_aggregates columns = false →
  (∀ r, r ∈ rows → condition w r = Ok (p r)) →
  (∀ r, r ∈ rows → sort_key order_by r = Ok (k r)) → comparable ((λ r, (k r, r)) <$> filter p rows) = true →
  uniform order_by →
  (∀ r, r ∈ rows → distinct = true → hashable_row r = true) →
  (∀ r, r ∈ rows → project columns r = Ok (f r)) →
  (distinct = true → ∀ r q, r ∈ filter p rows → q ∈ filter p rows → row_eq (f r) (f q) = row_eq r q) →
  0 <= default 0 limit → 0 <= default 0 offset →
  execute (Planner.plan_select (Select columns (Some table) alias [] w [] h order_by limit offset distinct)) =
  (reference p k f order_by limit offset distinct rows, None).
Proof.
  intros Ht Hd Hc Ha Hw Hk Hcmp Hu Hdist Hf Hsame Hl Hoff.
  set (kept := filter p rows). set (out := if distinct then dedup [] (ordered order_by k kept) else ordered order_by k kept).
  assert (∀ r, r ∈ kept → r ∈ rows) as Hkept by (unfold kept; intros r Hr; by apply list_elem_of_filter in Hr as [_ ?]).
  assert (∀ r, r ∈ ordered order_by k kept → r ∈ rows) as Hord.
  { intros r Hr. apply Hkept. by rewrite ordered_perm in Hr. }
  assert (∀ r, r ∈ out → r ∈ rows) as Hout.
  { unfold out. intros r. destruct distinct; [intros Hr%dedup_elem|]; auto. }
  unfold Planner.plan_select. cbn [foldl]. rewrite (bool_decide_eq_false_2 ([] ≠ [])) by auto. rewrite Ha. cbn [orb].
  set (scan := match w with Some _ => FILTER (SEQUENTIAL_SCAN (Some table) alias None) w
                          | None => SEQUENTIAL_SCAN (Some table) alias None end).
  assert (execute scan = (kept, None)) as E1.
  { assert (execute (SEQUENTIAL_SCAN (Some table) alias None) = (rows, None)) as E0
      by (cbn [execute_node]; by rewrite Ht, Hd).
    unfold scan, kept. destruct w as [w|].
    - change (execute (FILTER (SEQUENTIAL_SCAN (Some table) alias None) (Some w))) with
        (let '(rows, e) := execute (SEQUENTIAL_SCAN (Some table) alias None) in filter_rows (condition (Some w)) rows e).
      rewrite E0. by apply filter_rows_total.
    - rewrite E0. f_equal. symmetry. apply filter_all. intros r Hr. specialize (Hw r Hr). by injection Hw as <-. }
  pose proof (sort_node_total order_by k scan kept E1 Hu ltac:(auto) Hcmp) as E2.
  set (sort := if bool_decide (order_by ≠ []) then SORT scan order_by else scan) in *.
  assert (execute (if distinct then DISTINCT sort else sort) = (out, None)) as E3.
  { unfold out. destruct distinct; [|done]. cbn [execute_node]. rewrite E2. apply distinct_rows_total. auto. }
  set (dis := if distinct then DISTINCT sort else sort) in *.
  rewrite (bool_decide_eq_true_2 (columns ≠ [])) by done.
  assert (execute (PROJECTION dis columns) = (f <$> out, None)) as E4.
  { cbn [execute_node]. rewrite E3. apply map_rows_total. auto. }
  assert ((if distinct then dedup [] (f <$> ordered order_by k kept) else f <$> ordered order_by k kept) = f <$> out) as Eout.
  { unfold out. destruct distinct; [|done]. apply (dedup_fmap f []). cbn [app]. intros r q Hr Hq.
    rewrite ordered_perm in Hr, Hq. by apply Hsame. }
  unfold reference. fold kept. rewrite Eout. destruct (bool_decide (limit ≠ None) || bool_decide (offset ≠ None)) eqn:E.
  - cbn [execute_node]. cbn [execute_node] in E4. rewrite E4. by apply limit_rows_page.
  - apply orb_false_iff in E as [E5 E6]. rewrite bool_decide_eq_false in E5, E6.
    destruct limit; [by destruct E5|]. destruct offset; [by destruct E6|]. rewrite E4. done.
Qed.
End Select.

(** * ORDER BY *)

Lemma keys_lt_int x y : keys_lt [V (LInt x)] [V (LInt y)] = Ok (x <? y).
Proof. cbn. destruct (Z.eqb_spec x y); [|done]. f_equal. lia. Qed.
Lemma lt_keys_int (g : row → Z) a b : lt_keys ([V (LInt (g a))], a) ([V (LInt (g b))], b) = (g a <? g b).
Proof. unfold lt_keys. cbn [fst]. by rewrite keys_lt_int. Qed.
Lemma comparable_int (g : row → Z) rows : comparable ((λ r, ([V (LInt (g r))], r)) <$> rows) = true.
Proof.
  induction rows as [|r rows IH]; [done|]. cbn [fmap list_fmap comparable]. rewrite andb_true_iff. split; [|done].
  apply forallb_forall. intros x Hx. apply list_elem_of_In, list_elem_of_fmap in Hx as (q & -> & _). cbn [fst].
  by rewrite keys_lt_int.
Qed.

Section OrderBy.
Variable repr_float : Z → pystr.
Variable same_object : value → value → bool.
Variable subquery : SelectStatement → res value.

Definition in_order (d : Direction) (x y : Z) : Prop := match d with ASC => x <= y | DESC => y <= x end.

Lemma sorted_fmap {A B} (f : A → B) (R : B → B → Prop) (l : list A) :
  StronglySorted (λ x y, R (f x) (f y)) l → StronglySorted R (f <$> l).
Proof. induction 1 as [|x l _ IH Hx]; cbn; constructor; [done|]. by rewrite Forall_fmap. Qed.

Lemma sorted_impl {A} (R R' : A → A → Prop) (l : list A) :
  (∀ x y, R x y → R' x y) → StronglySorted R l → StronglySorted R' l.
Proof. intros H. induction 1 as [|x l _ IH Hx]; constructor; [done|]. eapply Forall_impl; [exact Hx|auto]. Qed.

(** ORDER BY an expression whose values are integers sorts: the result is a permutation
    of the rows, in the direction asked for, and rows with the same value keep their
    order in both directions. *)
Theorem sql_order_by_integer e d rows (g : row → Z) :
  (∀ r, r ∈ rows → evaluate repr_float same_object subquery e r = Ok (V (LInt (g r)))) →
  ∃ out, sorted_rows repr_float same_object subquery [OrderBy e d] rows = Ok out ∧
    out ≡ₚ rows ∧ StronglySorted (in_order d) (g <$> out) ∧
    ∀ z, filter (λ r, g r = z) out = filter (λ r, g r = z) rows.
Proof.
  intros He. set (k := λ r, [V (LInt (g r))]). set (f := λ r : row, (k r, r)).
  set (lt := if existsb is_desc [OrderBy e d] then flip lt_keys else lt_keys).
  assert (∀ a b, lt (f a) (f b) = match d with ASC => g a <? g b | DESC => g b <? g a end) as Hlt
    by (intros a b; destruct d; apply lt_keys_int).
  exists (sort_by (λ a b, lt (f a) (f b)) rows). split_and!.
  - unfold sorted_rows. rewrite bool_decide_eq_false_2 by done.
    rewrite (res_map_total' _ f).
    2:{ intros r Hr. unfold sort_key. cbn [res_map mbind res_bind]. by rewrite He. }
    change (sort_rows (existsb is_desc [OrderBy e d]) (f <$> rows) = Ok (sort_by (λ a b, lt (f a) (f b)) rows)).
    unfold sort_rows, f, k. rewrite comparable_int. fold k f lt.
    by rewrite sort_by_fmap, <-list_fmap_compose, list_fmap_id.
  - apply sort_by_perm.
  - apply sorted_fmap. eapply sorted_impl; [|apply sort_by_sorted].
    + intros x y. cbv beta. rewrite Hlt. unfold in_order. destruct d; lia.
    + intros x y. rewrite !Hlt. destruct d; lia.
    + intros x y z. rewrite !Hlt. destruct d; lia.
  - intros z. apply sort_by_stable. intros x y <- Hy. rewrite Hlt, Hy. destruct d; lia.
Qed.
End OrderBy.

(** [ORDER BY a DESC]. *)
Definition scores : list row :=
  (λ x : string * Z, [(str "n", V (LStr (str x.1))); (str "a", V (LInt x.2))]) <$> [("x", 2); ("y", 5); ("z", 2)].
Definition score (r : row) : Z := match dict_get r (str "a") with Some (V (LInt z)) => z | _ => 0 end.

Lemma sql_order_by_integer_witness :
  let ev := evaluate (λ _, []) (λ _ _, false) (λ _, Ok VNone) in
  let e := ColumnExpression (str "a") None in
  (∀ r, r ∈ scores → ev e r = Ok (V (LInt (score r)))) ∧
  ∃ out, sorted_rows (λ _, []) (λ _ _, false) (λ _, Ok VNone) [OrderBy e DESC] scores = Ok out ∧
    out ≡ₚ scores ∧ StronglySorted (in_order DESC) (score <$> out) ∧
    ∀ z, filter (λ r, score r = z) out = filter (λ r, score r = z) scores.
Proof.
  intros ev e. assert (∀ r, r ∈ scores → ev e r = Ok (V (LInt (score r)))) as H.
  { intros r Hr. unfold scores in Hr. cbn [fmap list_fmap] in Hr. set_unfold in Hr.
    repeat destruct Hr as [->|Hr]; [vm_compute; reflexivity..|destruct Hr]. }
  split; [exact H|]. apply (sql_order_by_integer _ _ _ e DESC scores score). exact H.
Defined.

(** * COUNT *)

Section Count.
Variable repr_float : Z → pystr.
Variable same_object : value → value → bool.
Variable subquery : SelectStatement → res value.
Variable table_known : pystr → bool.
Variable table_data : pystr → res (list row).
#[local] Abbreviation execute := (execute_node repr_float same_object subquery table_known table_data).

(** A query of COUNT alone never counts: whatever the tables, the joins and the condition,
    its result is a single 1, or nothing at all when there are no rows. The projection
    evaluates the function once more, on the row of the result. *)
Theorem sql_count_is_one name args table alias joins w out :
  upper name = str "COUNT" →
  to_list (execute (Planner.plan_select
    (Select [FunctionCall name args false] table alias joins w [] None [] None None false))) = Ok out →
  out = [] ∨ out = [[(name, V (LInt 1))]].
Proof.
  intros Hn. unfold Planner.plan_select.
  assert (Planner.has_aggregates [FunctionCall name args false] = true) as Ha.
  { cbn. rewrite Hn. reflexivity. }
  rewrite Ha, orb_true_r. set (node := foldl _ _ joins).
  change (to_list (let '(rows, e) := match to_list (execute node) with
      | Ok rows => aggregate_rows repr_float same_object subquery [FunctionCall name args false] [] None rows
      | Err e => ([], Some e)
      end in map_rows (project repr_float same_object subquery [FunctionCall name args false]) rows e) = Ok out →
    out = [] ∨ out = [[(name, V (LInt 1))]]).
  destruct (to_list (execute node)) as [rows|e]; [|done]. unfold aggregate_rows.
  case_bool_decide; [intros [= <-]; by left|]. rewrite bool_decide_eq_false_2 by auto. cbn [yield_groups].
  assert (∀ rs d, set_single repr_float same_object subquery rs d (FunctionCall name args false) =
    Ok (dict_set d name (V (LInt (len rs))))) as Hs.
  { intros rs d. unfold set_single, set_call, aggregate. rewrite bool_decide_eq_true_2 by done. done. }
  cbn [fold_res]. rewrite Hs. cbn [mbind res_bind condition]. unfold yield. cbn [fst snd map_rows].
  unfold project. cbn [fold_res project_one].
  assert (∀ r, evaluate repr_float same_object subquery (FunctionCall name args false) r = Ok (V (LInt 1))) as He.
  { intros r. cbn [evaluate]. rewrite bool_decide_eq_true_2 by (rewrite Hn; left). unfold aggregate.
    by rewrite bool_decide_eq_true_2 by done. }
  rewrite He. cbn. intros [= <-]. by right.
Qed.
End Count.

Lemma sql_count_is_one_witness :
  let s := Select [FunctionCall (str "COUNT") [StarExpression None] false] (Some (str "t")) None [] None [] None [] None None false in
  let run := execute_node (λ _, []) (λ _ _, false) (λ _, Ok VNone) (λ _, true) (λ _, Ok scores) in
  let out := [[(str "COUNT", V (LInt 1))]] in
  to_list (run (Planner.plan_select s)) = Ok out ∧ (out = [] ∨ out = [[(str "COUNT", V (LInt 1))]]).
Proof.
  intros s run out. assert (to_list (run (Planner.plan_select s)) = Ok out) as H by (vm_compute; reflexivity).
  split; [exact H|]. refine (sql_count_is_one _ _ _ _ _ (str "COUNT") [StarExpression None] (Some (str "t")) None [] None out _ H).
  vm_compute. reflexivity.
Defined.

(** * What INSERT keeps *)

Section Catalog.
Context {J : Type} `{!EqDecision J}.
Import Catalog.

(** The first table of a name, after an assignment to it. *)
Lemma find_assigned (ts : list (pystr * TableInfo J)) n (key : pystr) (tbl tbl' : TableInfo J) :
  snd <$> list_find (λ x : pystr * TableInfo J, upper x.1 = upper n) ts = Some (key, tbl) →
  snd <$> list_find (λ x : pystr * TableInfo J, upper x.1 = upper n) (dict_set ts key tbl') = Some (key, tbl').
Proof.
  induction ts as [|[k a] ts IH]; [done|]. cbn [list_find dict_set fst]. case_decide as E.
  - intros [= -> ->]. rewrite decide_True by done. cbn [list_find fst]. by rewrite decide_True.
  - destruct (list_find _ ts) as [[i [k' a']]|] eqn:Ef; [|done]. intros [= -> ->].
    assert (k ≠ key) as Hk. { intros ->. apply list_find_Some in Ef as (_ & H & _). done. }
    rewrite decide_False by done. cbn [list_find fst]. rewrite decide_False by done.
    specialize (IH eq_refl). destruct (list_find _ (dict_set ts key tbl')) as [[j x]|]; [|done].
    by injection IH as ->.
Qed.

Lemma update_row_count_table n z (s : Catalog.t (J := J)) (info : TableInfo J) :
  Catalog.get_table n s = Some info →
  ∃ s' info', Catalog.update_row_count n z s = (s', Ok ()) ∧
    Catalog.get_table n s' = Some info' ∧ columns info' = columns info ∧
    row_count info' = Z.max 0 (row_count info + z).
Proof.
  unfold Catalog.get_table, Catalog.update_row_count, m_bind, m_get, Catalog.find_table.
  destruct (Catalog.get_current_db s) as [db|] eqn:Hdb; [|done]. unfold DatabaseInfo.get_table.
  destruct (DatabaseInfo.find_table n db) as [[key tbl]|] eqn:Hf; [|done]. intros [= ->]. cbn [fmap option_fmap option_map].
  eexists _, _. split; [done|]. cbn [fst]. unfold Catalog.set_table.
  rewrite (Catalog.current_set_tables s db _ Hdb). unfold DatabaseInfo.find_table in *.
  cbn [DatabaseInfo.with_tables tables]. rewrite (find_assigned _ _ _ _ _ Hf). by split_and!.
Qed.
End Catalog.

Module ExecutorFacts.
Import Executor.
Section Facts.
Context `{DS : DataStore} `{RT : Serializer.Runtime}.
Context {J : Type} `{!EqDecision J}.
Variable json_value : J → value.
Variable repr_float : Z → pystr.
Variable same_object : value → value → bool.
Variable depth : nat.
#[local] Abbreviation insert_one := (insert_one json_value repr_float same_object depth).
#[local] Abbreviation execute_insert := (execute_insert json_value repr_float same_object depth).
#[local] Abbreviation query := (query repr_float same_object depth).

(** A row of literals under the names of the columns: the columns without a literal have their
    defaults, and the literals without a column are left out. *)
Definition literal_row (cols : list (Catalog.ColumnInfo J)) (vs : list literal) : row :=
  zip (Catalog.c_name <$> cols) ((V <$> vs) ++ (default_of json_value <$> drop (length vs) cols)).
Definition literal_rows (cols : list (Catalog.ColumnInfo J)) (vss : list (list literal)) : list row :=
  map (literal_row cols) vss.
Definition literals (vss : list (list literal)) : list (list Expression) := map (fmap LiteralExpression) vss.

Lemma set_positional_literals x cols vs d :
  NoDup (d.*1 ++ (Catalog.c_name <$> cols)) →
  set_positional json_value repr_float same_object depth x cols (LiteralExpression <$> vs) d =
  Ok (d ++ literal_row cols vs).
Proof.
  revert vs d. induction cols as [|col cols IH]; intros vs d Hn.
  { unfold literal_row. cbn. by rewrite app_nil_r. }
  assert (Catalog.c_name col ∉ d.*1) as Hc.
  { apply NoDup_app in Hn as (_ & Hn & _). intros Hin. apply (Hn _ Hin). left. }
  assert (∀ v, NoDup ((d ++ [(Catalog.c_name col, v)]).*1 ++ (Catalog.c_name <$> cols))) as Hn'
    by (intros v; by rewrite fmap_app, <-app_assoc).
  destruct vs as [|v vs]; cbn [fmap list_fmap set_positional]; [|cbn [eval evaluate mbind res_bind]];
    rewrite dict_set_new by done.
  - rewrite (IH [] _ (Hn' _)). unfold literal_row. cbn. rewrite drop_0. by rewrite <-app_assoc.
  - rewrite (IH vs _ (Hn' _)). unfold literal_row. cbn. by rewrite <-app_assoc.
Qed.

Lemma literal_row_nodup cols vs : NoDup (Catalog.c_name <$> cols) → NoDup (literal_row cols vs).*1.
Proof.
  intros Hn. unfold literal_row. rewrite fst_zip; [done|]. rewrite length_app, !length_fmap, length_drop. lia.
Qed.

(** What the store gets: the rows one after the other, until it raises; without a store, nothing. *)
Definition handed (t : pystr) (rows : list row) (o : option store) : option store * res () :=
  match o with
  | Some d => let '(d', r) := for_each (insert_row t) rows d in (Some d', r)
  | None => (None, Ok ())
  end.
(** What a table has for its readers. *)
Definition stored_rows (t : pystr) (o : option store) : res (list row) :=
  match o with Some d => get_table_data t d | None => Ok [] end.

(** The table in the catalog, with its columns and its number of rows. *)
Definition described (x : context (J := J)) (t : pystr) (cols : list (Catalog.ColumnInfo J)) (n : Z) : Prop :=
  ∃ info, Catalog.Catalog.get_table t (catalog x) = Some info ∧ Catalog.columns info = cols ∧ Catalog.row_count info = n.

Lemma insert_one_row x t cols n vs :
  described x t cols n → 0 <= n → NoDup (Catalog.c_name <$> cols) →
  let '(o, r) := handed t [literal_row cols vs] (data_store x) in
  ∃ x', insert_one t cols [] (LiteralExpression <$> vs) x = (x', r) ∧ data_store x' = o ∧
    described x' t cols (if is_ok r then n + 1 else n).
Proof.
  intros (info & Hi & Hcols & Hc) H0 Hn.
  assert (∀ y : context (J := J), catalog y = catalog x →
    ∃ x', on_catalog (Catalog.Catalog.update_row_count t 1) y = (x', Ok ()) ∧ data_store x' = data_store y ∧
      described x' t cols (n + 1)) as Hcount.
  { intros y Hy. destruct (update_row_count_table t 1 (catalog x) info Hi) as (c' & info' & Hu & Hi' & Hcols' & Hc').
    unfold on_catalog. rewrite Hy, Hu. eexists. split_and!; [done..|]. exists info'. rewrite Hcols', Hc'.
    split_and!; [done..|lia]. }
  unfold SqlExec.Executor.insert_one, m_bind, m_get, m_lift, new_row. rewrite bool_decide_eq_false_2 by auto.
  rewrite (set_positional_literals x cols vs []) by done. cbn [app]. unfold on_store, handed. cbn [for_each].
  destruct (data_store x) as [d|] eqn:Hd; [|rewrite <-Hd; by apply Hcount]. unfold m_bind, m_ret.
  destruct (insert_row t (literal_row cols vs) d) as [d' [[]|e]].
  - destruct (Hcount (with_store d' x) eq_refl) as (x' & E & Hx' & H). by exists x'.
  - eexists. split_and!; [done..|]. by exists info.
Qed.

Lemma handed_cons t r rows o :
  handed t (r :: rows) o =
  (let '(o', x) := handed t [r] o in match x with Ok _ => handed t rows o' | Err e => (o', Err e) end).
Proof.
  unfold handed. destruct o as [d|]; [|done]. cbn [for_each]. unfold m_bind, m_ret.
  by destruct (insert_row t r d) as [d' [[]|e]].
Qed.

Lemma insert_rows x t cols n (vss : list (list literal)) :
  described x t cols n → 0 <= n → NoDup (Catalog.c_name <$> cols) →
  let '(o, r) := handed t (literal_rows cols vss) (data_store x) in
  ∃ x', for_each (insert_one t cols []) (literals vss) x = (x', r) ∧ data_store x' = o ∧
    ∃ n', described x' t cols n' ∧ (r = Ok () → n' = n + len vss).
Proof.
  intros Hx H0 Hn. revert x n Hx H0. induction vss as [|vs vss IH]; intros x n Hx H0.
  { assert (handed t [] (data_store x) = (data_store x, Ok ())) as E by (unfold handed; by destruct (data_store x)).
    cbn [literal_rows map]. rewrite E. exists x. split_and!; [done..|]. exists n. split; [done|]. cbn. lia. }
  cbn [literal_rows literals map for_each]. rewrite handed_cons.
  pose proof (insert_one_row x t cols n vs Hx H0 Hn) as H1.
  destruct (handed t [literal_row cols vs] (data_store x)) as [o [[]|e]]; destruct H1 as (x1 & E1 & <- & D1); unfold m_bind; rewrite E1.
  - specialize (IH x1 (n + 1) D1 ltac:(lia)). unfold literal_rows in IH.
    destruct (handed t (map _ vss) (data_store x1)) as [o' r]. destruct IH as (x' & E & Hd & n' & D & Hr).
    exists x'. split_and!; [done..|]. exists n'. split; [done|]. intros ->. rewrite Hr by done. cbn [length]. lia.
  - exists x1. split_and!; [done..|]. by exists n.
Qed.

Definition select_all (t : pystr) : SelectStatement :=
  Select [StarExpression None] (Some t) None [] None [] None [] None None false.

Lemma update_all (r : row) : NoDup r.*1 → foldl (λ d x, dict_set d x.1 x.2) [] r = r.
Proof.
  intros Hr. change r with ([] ++ r) at 2. assert (NoDup (([] : row).*1 ++ r.*1)) as Hn by done. revert Hn.
  generalize ([] : row). clear Hr. induction r as [|[k v] r IH]; intros acc Hn; [by rewrite app_nil_r|].
  cbn [foldl fst snd fmap list_fmap] in *. rewrite dict_set_new.
  - rewrite IH; [by rewrite <-app_assoc|]. by rewrite fmap_app, <-app_assoc.
  - apply NoDup_app in Hn as (_ & Hn & _). intros Hin. apply (Hn _ Hin). left.
Qed.

(** SELECT * gives the rows of the table. *)
Lemma select_all_rows x t cols n rows :
  described x t cols n → stored_rows t (data_store x) = Ok rows → Forall (λ r : row, NoDup r.*1) rows →
  query (Planner.plan_select (select_all t)) x = Ok rows.
Proof.
  intros (info & Hi & _) Hr Hn. unfold SqlExec.Executor.query.
  assert (known x t = true) as Hk by (unfold known; by rewrite Hi, bool_decide_eq_true_2).
  assert (table_rows x t = Ok rows) as Ht by (unfold table_rows; by destruct (data_store x)).
  unfold Planner.plan_select, select_all. cbn [foldl].
  change (to_list (let '(rs, e) := if known x t then from_list (table_rows x t) else ([], Some ValueError) in
    map_rows (project repr_float same_object (sub repr_float same_object depth x) [StarExpression None]) rs e) = Ok rows).
  rewrite Hk, Ht. cbn [from_list]. rewrite (map_rows_total _ id); [by rewrite list_fmap_id|].
  intros r Hin. unfold project. cbn [fold_res project_one mbind res_bind]. rewrite Forall_forall in Hn.
  by rewrite update_all by auto.
Qed.

(** C39: What an INSERT of literals does, for any data store, and with none. For a known table with columns of
    distinct names and a row count that is not negative, the executor makes a row of each list of
    literals (in the order of the columns, a default for each column without a literal, no
    column for the literals left over) and hands these rows to the store, one after the
    other. The INSERT raises what the store raises, and its rows before that are kept; if
    nothing is raised it reports the number of rows, and the catalog counts that many more. The columns stay
    as they are, and SELECT * then gives what the store has for the table, if no row of that
    repeats a name. Without a store, the default, the INSERT reports its rows but nothing keeps
    them: SELECT * gives none. *)
Theorem sql_insert_spec x t cols n (vss : list (list literal)) :
  described x t cols n → 0 <= n → NoDup (Catalog.c_name <$> cols) →
  let '(o, r) := handed t (literal_rows cols vss) (data_store x) in
  ∃ x', execute_insert t [] (literals vss) x =
      (x', _ ← r; Ok [[(str "_inserted", V (LInt (len vss))); (str "table", V (LStr t))]]) ∧
    data_store x' = o ∧
    (∃ n', described x' t cols n' ∧ (r = Ok () → n' = n + len vss)) ∧
    ∀ rows, stored_rows t o = Ok rows → Forall (λ q : row, NoDup q.*1) rows →
      query (Planner.plan_select (select_all t)) x' = Ok rows.
Proof.
  intros Hx H0 Hn. pose proof (insert_rows x t cols n vss Hx H0 Hn) as H.
  destruct (handed t (literal_rows cols vss) (data_store x)) as [o r]. destruct H as (x' & E & Hd & n' & D & Hr).
  destruct Hx as (info & Hi & Hcols & _). exists x'. split_and!; [|done|by exists n'|].
  - unfold SqlExec.Executor.execute_insert, m_bind at 1, m_get. rewrite Hi, Hcols. unfold m_bind. rewrite E.
    unfold m_ret, literals. destruct r as [[]|e]; [|done]. by rewrite length_map.
  - intros rows Hrows Hnd. eapply select_all_rows; [exact D| |done]. by rewrite Hd.
Qed.
End Facts.

(** A store in memory. Its UPDATE knows literals only. *)
Definition matching (t : pystr) (p : row → res bool) (s : list (pystr * list row)) : res (list (row * bool)) :=
  res_map (λ r, b ← p r; Ok (r, b)) (default [] (dict_get s t)).
Definition memory_delete (t : pystr) (p : row → res bool) : method (list (pystr * list row)) Z := λ s,
  match matching t p s with
  | Ok l => (dict_set s t (filter (λ x : row * bool, x.2 = false) l).*1, Ok (len (filter (λ x : row * bool, x.2 = true) l)))
  | Err e => (s, Err e)
  end.
Definition assign (r : row) (x : pystr * Expression) : row :=
  match x.2 with LiteralExpression v => dict_set r x.1 (V v) | _ => r end.
Definition memory_update (t : pystr) (sets : list (pystr * Expression)) (p : row → res bool) :
    method (list (pystr * list row)) Z := λ s,
  match matching t p s with
  | Ok l => (dict_set s t ((λ x : row * bool, if x.2 then foldl assign x.1 sets else x.1) <$> l),
             Ok (len (filter (λ x : row * bool, x.2 = true) l)))
  | Err e => (s, Err e)
  end.
Definition memory : DataStore := {|
  store := list (pystr * list row);
  get_table_data := λ t s, Ok (default [] (dict_get s t));
  insert_row := λ t r s, (dict_set s t (default [] (dict_get s t) ++ [r]), Ok ());
  delete_rows := memory_delete; update_rows := memory_update |}.

#[local] Existing Instance memory.
#[local] Existing Instance Serializer.Serializer.plain_runtime.

Definition users_columns : list (Catalog.ColumnInfo Z) := [Catalog.Catalog.id_column; Catalog.Catalog.name_column].
Definition ann : row := [(str "Id", V (LInt 1)); (str "name", V (LStr (str "ann")))].
Definition shop_context (d : option store) : context (J := Z) := mk_context Catalog.Catalog.shop None d None.
Definition two_rows : list (list literal) := [[LInt 2; LStr (str "bob")]; [LInt 3]].

Lemma shop_described d : described (shop_context d) (str "users") users_columns 0.
Proof. eexists. split_and!; vm_compute; reflexivity. Qed.
Lemma users_distinct : NoDup (Catalog.c_name <$> users_columns).
Proof. apply (bool_decide_unpack _). vm_compute. exact I. Qed.

(** With a store the rows are found again, without one they are not. *)
Lemma sql_insert_spec_witness :
  let jv := λ z, V (LInt z) in
  let report := [[(str "_inserted", V (LInt 2)); (str "table", V (LStr (str "users")))]] in
  let all := query (λ _, []) (λ _ _, false) 0 (Planner.plan_select (select_all (str "users"))) in
  (∃ x', execute_insert jv (λ _, []) (λ _ _, false) 0 (str "users") [] (literals two_rows)
           (shop_context (Some [(str "users", [ann])])) = (x', Ok report) ∧
         all x' = Ok ([ann] ++ literal_rows jv users_columns two_rows)) ∧
  (∃ x', execute_insert jv (λ _, []) (λ _ _, false) 0 (str "users") [] (literals two_rows)
           (shop_context None) = (x', Ok report) ∧ all x' = Ok []).
Proof.
  intros jv report all. split.
  - destruct (sql_insert_spec jv (λ _, []) (λ _ _, false) 0 (shop_context (Some [(str "users", [ann])])) (str "users")
      users_columns 0 two_rows (shop_described _) ltac:(lia) users_distinct) as (x' & E & _ & _ & H).
    exists x'. split; [exact E|]. apply H; [reflexivity|].
    repeat constructor; apply (bool_decide_unpack _); vm_compute; exact I.
  - destruct (sql_insert_spec jv (λ _, []) (λ _ _, false) 0 (shop_context None) (str "users")
      users_columns 0 two_rows (shop_described _) ltac:(lia) users_distinct) as (x' & E & _ & _ & H).
    exists x'. split; [exact E|]. by apply H.
Defined.
End ExecutorFacts.

(** [SELECT DISTINCT n, a FROM t WHERE a > 1 ORDER BY a DESC LIMIT 2 OFFSET 1], on a table with
    every row twice. *)
Definition twice : list row := scores ++ scores.

Lemma sql_select_reference_witness :
  let col s := ColumnExpression (str s) None in
  let w := Some (BinaryExpression (str ">") (col "a") (LiteralExpression (LInt 1))) in
  let o := [OrderBy (col "a") DESC] in
  let run := execute_node (λ _, []) (λ _ _, false) (λ _, Ok VNone) (λ _, true) (λ _, Ok twice) in
  run (Planner.plan_select (Select [col "n"; col "a"] (Some (str "t")) None [] w [] None o (Some 2) (Some 1) true)) =
  (reference (λ r, 1 <? score r) (λ r, [V (LInt (score r))])
     (λ r, [(str "n", column_value (str "n") r); (str "a", column_value (str "a") r)]) o (Some 2) (Some 1) true twice, None).
Proof.
  intros col w o run.
  assert (∀ P : row → Prop, Forall P twice → ∀ r, r ∈ twice → P r) as H by (intros P; apply Forall_forall).
  refine (sql_select_reference _ _ _ _ _ [col "n"; col "a"] (str "t") None w None o (Some 2) (Some 1) true twice _ _ _
    eq_refl eq_refl _ eq_refl _ _ _ _ _ _ _ _ _).
  - done.
  - apply H. repeat constructor; vm_compute; reflexivity.
  - apply H. repeat constructor; vm_compute; reflexivity.
  - vm_compute. reflexivity.
  - intros i j Hi Hj. apply list_elem_of_singleton in Hi, Hj. by subst.
  - intros r Hr _. revert r Hr. apply H. repeat constructor; vm_compute; reflexivity.
  - apply H. repeat constructor; vm_compute; reflexivity.
  - intros _ r q [_ Hr]%list_elem_of_filter [_ Hq]%list_elem_of_filter. revert r Hr q Hq.
    apply (H (λ r, ∀ q, q ∈ twice → _)). repeat constructor; apply H; repeat constructor; vm_compute; reflexivity.
  - cbn. lia.
  - cbn. lia.
Defined.

(** One DESC reverses every key: [ORDER BY a DESC, n] has the names of equal values from z to x. *)
Example desc_reverses_all :
  (λ r, dict_get r (str "n")) <$> default [] (match sorted_rows (λ _, []) (λ _ _, false) (λ _, Ok VNone)
      [OrderBy (ColumnExpression (str "a") None) DESC; OrderBy (ColumnExpression (str "n") None) ASC] scores with
    Ok rows => Some rows | Err _ => None end) =
  [Some (V (LStr (str "y"))); Some (V (LStr (str "z"))); Some (V (LStr (str "x")))].
Proof. vm_compute. reflexivity. Qed.

(** DISTINCT comes before the columns are chosen: [SELECT DISTINCT a] gives 2 twice. *)
Example distinct_keeps_repeats :
  execute_node (λ _, []) (λ _ _, false) (λ _, Ok VNone) (λ _, true) (λ _, Ok scores)
    (Planner.plan_select (Select [ColumnExpression (str "a") None] (Some (str "t")) None [] None [] None [] None None true)) =
  ((λ z, [(str "a", V (LInt z))]) <$> [2; 5; 2], None).
Proof. vm_compute. reflexivity. Qed.
