(* ===== verification/BTree.v ===== *)
(** The B+ tree: database/src/storage/btree.py, [BTreeNode] and [BTree].

    A node is a Python object made from a page each time the page is fetched; the page
    objects live in the store of the buffer pool, so the state of a tree is its own
    fields, the pool and the number of the next page object. Loops and the recursion of
    a split carry fuel, and so does the sweep of the pool: [None] is a call that has not
    ended. A scan is taken as a whole: the list of what the generator yields. *)

From S2P Require Import Prelude Bytes Utf8 Str Page Buffer Serializer.
From S2P Require SqlParser SqlValue.
Import Serializer BufferPool.

(** * Keys *)

(** How datetimes, unpickled objects and arrays compare. *)
Class OtherKeys `{RT : Runtime} := {
  other_eq : value → value → res bool;
  other_lt : value → value → res bool;
  other_le : value → value → res bool;
  (** [pickle] of a page number, and the [page_num] of an unpickled object. *)
  page_object : PageId.t → object;
  page_num_of : object → res Z;
}.

Section Keys.
Context `{OK : OtherKeys}.

Definition literal_of (v : value) : option SqlParser.literal :=
  match v with
  | VNone => Some SqlParser.LNone
  | VBool b => Some (SqlParser.LBool b)
  | VInt z => Some (SqlParser.LInt z)
  | VFloat f => Some (SqlParser.LFloat f)
  | VStr s => Some (SqlParser.LStr s)
  | _ => None
  end.
Definition is_other (v : value) : bool :=
  match v with VDatetime _ | VObject _ | VArray _ => true | _ => false end.

(** A comparison: of scalars, of byte strings, of dates, of anything else. *)
Definition compare_with (lit : SqlParser.literal → SqlParser.literal → res bool) (by_bytes : bytes → bytes → bool)
    (by_days : Z → Z → bool) (mixed : res bool) (other : value → value → res bool) (a b : value) : res bool :=
  match literal_of a, literal_of b with
  | Some x, Some y => lit x y
  | _, _ =>
      match a, b with
      | VBytes x, VBytes y => Ok (by_bytes x y)
      | VDate x, VDate y => Ok (by_days x y)
      | _, _ => if is_other a || is_other b then other a b else mixed
      end
  end.
Definition key_eq : value → value → res bool :=
  compare_with (λ x y, Ok (SqlValue.literal_eq x y)) (λ x y, bool_decide (x = y)) Z.eqb (Ok false) other_eq.
Definition key_lt : value → value → res bool :=
  compare_with SqlValue.literal_lt text_lt Z.ltb (Err TypeError) other_lt.
Definition key_le : value → value → res bool :=
  compare_with SqlValue.literal_le (λ x y, negb (text_lt y x)) Z.leb (Err TypeError) other_le.

(** * Nodes *)

(** What the list of values holds: values in a leaf, pages in an internal node. *)
Inductive item := Val (v : value) | Child (id : PageId.t).

Record node := mk_node {
  n_page : ref;
  is_leaf : bool;
  keys : list value;
  values : list item;
  next_leaf : option PageId.t;
  prev_leaf : option PageId.t;
  parent : option PageId.t;
}.
Definition with_entries (ks : list value) (vs : list item) (n : node) : node :=
  mk_node (n_page n) (is_leaf n) ks vs (next_leaf n) (prev_leaf n) (parent n).
Definition with_keys (ks : list value) (n : node) : node := with_entries ks (values n) n.
Definition with_next (o : option PageId.t) (n : node) : node :=
  mk_node (n_page n) (is_leaf n) (keys n) (values n) o (prev_leaf n) (parent n).
Definition with_links (next prev : option PageId.t) (n : node) : node :=
  mk_node (n_page n) (is_leaf n) (keys n) (values n) next prev (parent n).
Definition with_parent (o : option PageId.t) (n : node) : node :=
  mk_node (n_page n) (is_leaf n) (keys n) (values n) (next_leaf n) (prev_leaf n) o.

(** The exceptions the decoding loops catch. *)
Definition caught (e : exn) : bool :=
  match e with StructError | ValueError | UnicodeError | IndexError => true | _ => false end.

(** [next_id], [prev_id]: a negative number is no page. *)
Definition read_link (d : bytes) (off : Z) : res (option PageId.t) :=
  z ← unpack_be_s_from 4 d off; Ok (if 0 <=? z then Some (PageId.mk z 0) else None).

(** The loops over the keys, the values and the children. *)
Fixpoint read_keys (n : nat) (d : bytes) (off : Z) : res (list value * Z) :=
  match n with
  | O => Ok ([], off)
  | S n' =>
      match decode d off with
      | Ok (k, off') => r ← read_keys n' d off'; Ok (k :: r.1, r.2)
      | Err e => if caught e then Ok ([], off) else Err e
      end
  end.
Fixpoint read_values (n : nat) (d : bytes) (off : Z) : res (list item) :=
  match n with
  | O => Ok []
  | S n' =>
      match decode d off with
      | Ok (v, off') => vs ← read_values n' d off'; Ok (Val v :: vs)
      | Err e => if caught e then vs ← read_values n' d off; Ok (Val VNone :: vs) else Err e
      end
  end.
Fixpoint read_children (n : nat) (d : bytes) (off : Z) : list item :=
  match n with
  | O => []
  | S n' =>
      match unpack_be_s_from 4 d off with
      | Ok z => Child (PageId.mk z 0) :: read_children n' d (off + 4)
      | Err _ => []
      end
  end.

(** [BTreeNode(page, order, is_leaf)]: the fields are those of the page, if it has room for any. *)
Definition deserialize (r : ref) (leaf : bool) (d : bytes) : res node :=
  let offset := Page.HEADER_SIZE in
  if len d <? offset + 5 then Ok (mk_node r leaf [] [] None None None)
  else
    b ← py_get d offset;
    num_keys ← unpack_be_from 4 d (offset + 1);
    next ← read_link d (offset + 5);
    prev ← read_link d (offset + 9);
    ks ← read_keys (Z.to_nat num_keys) d (offset + 13);
    vs ← (if negb (b =? 0) then read_values (length ks.1) d ks.2
          else Ok (read_children (S (length ks.1)) d ks.2));
    Ok (mk_node r (negb (b =? 0)) ks.1 vs next prev None).

(** [Serializer.encode(value)], and [struct.pack("!i", child.page_num)]. *)
Definition encode_item (i : item) : res bytes :=
  match i with Val v => encode v | Child id => encode (VObject (page_object id)) end.
Definition item_page_num (i : item) : res Z :=
  match i with
  | Child id => Ok (PageId.page_num id)
  | Val (VObject o) => page_num_of o
  | Val _ => Err AttributeError
  end.
Definition encode_child (i : item) : res bytes := z ← item_page_num i; pack_be_s 4 z.

Definition link_num (o : option PageId.t) : Z := match o with Some id => PageId.page_num id | None => -1 end.

Definition node_bytes (n : node) : res bytes :=
  k ← pack_be 4 (len (keys n));
  next ← pack_be_s 4 (link_num (next_leaf n));
  prev ← pack_be_s 4 (link_num (prev_leaf n));
  ks ← res_map encode (keys n);
  vs ← res_map (if is_leaf n then encode_item else encode_child) (values n);
  Ok ((if is_leaf n then 1 else 0) :: k ++ next ++ prev ++ concat ks ++ concat vs).

Definition is_full (order : Z) (n : node) : bool := 2 * order <=? len (keys n).
Definition is_underflow (order : Z) (n : node) : bool := len (keys n) <? order.
End Keys.

(** [l.insert(i, x)] and [l.pop(i)] for [i] from 0. *)
Definition insert_at {A} (i : Z) (x : A) (l : list A) : list A := take (Z.to_nat i) l ++ x :: drop (Z.to_nat i) l.
Definition pop_at {A} (i : Z) (l : list A) : res (list A) :=
  _ ← py_get l i; Ok (take (Z.to_nat i) l ++ drop (S (Z.to_nat i)) l).

(** [idx = 0; while idx < len(l) and test(l[idx]): idx += 1]. *)
Fixpoint count_while {A} (test : A → res bool) (l : list A) : res Z :=
  match l with
  | [] => Ok 0
  | x :: l' => b ← test x; if b : bool then n ← count_while test l'; Ok (n + 1) else Ok 0
  end.
(** The first index whose element passes the test. *)
Fixpoint find_first {A} (test : A → res bool) (l : list A) : res (option Z) :=
  match l with
  | [] => Ok None
  | x :: l' => b ← test x; if b : bool then Ok (Some 0) else i ← find_first test l'; Ok (option_map Z.succ i)
  end.

(** * The tree *)

Module BTree.
Record t := mk {
  order : Z;
  root_page_id : option PageId.t;
  page_count : Z;
  tree_size : Z;
  buffer_pool : BufferPool.t;
  next_ref : ref;
}.
Definition with_pool (p : BufferPool.t) (s : t) : t :=
  mk (order s) (root_page_id s) (page_count s) (tree_size s) p (next_ref s).
Definition with_root (o : option PageId.t) (s : t) : t :=
  mk (order s) o (page_count s) (tree_size s) (buffer_pool s) (next_ref s).
Definition with_count (n : Z) (s : t) : t :=
  mk (order s) (root_page_id s) n (tree_size s) (buffer_pool s) (next_ref s).
Definition with_size (n : Z) (s : t) : t :=
  mk (order s) (root_page_id s) (page_count s) n (buffer_pool s) (next_ref s).
Definition with_ref (r : ref) (s : t) : t :=
  mk (order s) (root_page_id s) (page_count s) (tree_size s) (buffer_pool s) r.

(** A method of the tree: [None] when the fuel does not suffice. *)
Definition run (A : Type) : Type := t → option (t * res A).
Definition r_ret {A} (a : A) : run A := λ s, Some (s, Ok a).
Definition r_raise {A} (e : exn) : run A := λ s, Some (s, Err e).
Definition r_get : run t := λ s, Some (s, Ok s).
Definition r_modify (f : t → t) : run () := λ s, Some (f s, Ok ()).
Definition r_lift {A} (x : res A) : run A := λ s, Some (s, x).
Definition out_of_fuel {A} : run A := λ _, None.
Definition r_bind {A B} (m : run A) (k : A → run B) : run B := λ s,
  match m s with
  | Some (s', Ok a) => k a s'
  | Some (s', Err e) => Some (s', Err e)
  | None => None
  end.
Notation "'let*' x := m 'in' k" := (r_bind m (λ x, k))
  (at level 10, x pattern, m at level 100, k at level 200,
   format "'let*'  x  :=  m  'in' '//' k").

Definition pool_call {A} (m : method BufferPool.t A) : run A := λ s,
  let '(p, x) := m (buffer_pool s) in Some (with_pool p s, x).
Definition on_page (r : ref) (f : Page.t → Page.t) : run () := pool_call (BufferPool.on_page r f).

Fixpoint run_each {A} (f : A → run ()) (l : list A) : run () :=
  match l with [] => r_ret () | x :: l' => let* _ := f x in run_each f l' end.

Section Tree.
Context `{OK : OtherKeys}.
(** The fuel of the loops, of the recursion and of the pool. *)
Variable fuel : nat.

(** [Page(page_id, page_type)]: a new object, of the default size. *)
Definition DEFAULT_PAGE_SIZE : Z := 8192.
Definition new_page (id : PageId.t) (ty : PageType) : run ref := λ s,
  match Page.init id ty DEFAULT_PAGE_SIZE with
  | Ok p =>
      let r := next_ref s in
      let pool := with_heap (buffer_pool s) (<[r := p]> (heap (buffer_pool s))) in
      Some (with_ref (Pos.succ r) (with_pool pool s), Ok r)
  | Err e => Some (s, Err e)
  end.
Definition insert_page (r : ref) : run () := λ s,
  match BufferPool.insert_page fuel r (buffer_pool s) with
  | Some (p, Ok _) => Some (with_pool p s, Ok ())
  | Some (p, Err e) => Some (with_pool p s, Err e)
  | None => None
  end.

Definition allocate_page_num : run Z :=
  let* _ := r_modify (λ s, with_count (page_count s + 1) s) in
  let* s := r_get in r_ret (page_count s).

(** [BTreeNode(page, order, is_leaf)] on a page object. *)
Definition node_of (r : ref) (leaf : bool) : run node :=
  let* s := r_get in r_lift (deserialize r leaf (Page.data (heap (buffer_pool s) r))).

(** [node.serialize()]: the page is cleared before anything can fail. *)
Definition serialize (n : node) : run () :=
  let* _ := on_page (n_page n) Page.clear in
  let* data := r_lift (node_bytes n) in
  let* _ := pool_call (page_call (n_page n) (Page.write_data Page.HEADER_SIZE data)) in
  on_page (n_page n) (Page.with_dirty true).

Definition get_node (id : PageId.t) : run node :=
  let* page := pool_call (fetch_page id) in
  match page with Some r => node_of r true | None => r_raise ValueError end.

Definition page_id_of (n : node) (s : t) : PageId.t := Page.page_id (heap (buffer_pool s) (n_page n)).
Definition release_node (n : node) : run () :=
  let* s := r_get in pool_call (unpin_page (page_id_of n s)).

(** A new page, put into the pool. *)
Definition pooled_page (ty : PageType) : run (PageId.t * ref) :=
  let* num := allocate_page_num in
  let* r := new_page (PageId.mk num 0) ty in
  let* _ := insert_page r in
  r_ret (PageId.mk num 0, r).
(** Its number and the node made of it. *)
Definition create_page (ty : PageType) (leaf : bool) : run (PageId.t * node) :=
  let* x := pooled_page ty in
  let* n := node_of x.2 leaf in
  r_ret (x.1, n).

Definition create_root : run () :=
  let* x := pooled_page BTREE_ROOT in
  let* _ := r_modify (with_root (Some x.1)) in
  let* n := node_of x.2 true in
  let* _ := serialize n in
  r_modify (with_size 0).

(** [BTree(buffer_pool, order, root_page_id)] over a pool. *)
Definition init (order : Z) (root : option PageId.t) (pool : BufferPool.t) (next : ref) : option (t * res ()) :=
  (match root with Some _ => r_ret () | None => create_root end) (mk order root 0 0 pool next).

(** [child_id = node.values[i]]: what is not a page is not in the pool. *)
Definition child_id (i : item) : res PageId.t := match i with Child id => Ok id | Val _ => Err ValueError end.

(** [while not node.is_leaf: ...], where [pick] is the index of the child. *)
Fixpoint descend (n : nat) (pick : node → res Z) (x : node) : run node :=
  if is_leaf x then r_ret x
  else
    match n with
    | O => out_of_fuel
    | S n' =>
        let* idx := r_lift (pick x) in
        let* child := r_lift (py_get (values x) idx) in
        let* _ := release_node x in
        let* id := r_lift (child_id child) in
        let* y := get_node id in
        descend n' pick y
    end.

Definition root_node : run node :=
  let* s := r_get in
  match root_page_id s with Some id => get_node id | None => r_raise ValueError end.

(** [key >= node.keys[idx]]. *)
Definition find_leaf (key : value) : run node :=
  let* n := root_node in
  descend fuel (λ x, count_while (λ k, key_le k key) (keys x)) n.

(** ** Splitting *)

Definition first_key (n : node) : res value := py_get (keys n) 0.

(** The new parent of a child is set on a node object that is dropped: it is not stored. *)
Definition adopt (p : PageId.t) (i : item) : run () :=
  let* id := r_lift (child_id i) in
  let* c := get_node id in
  let c := with_parent (Some p) c in
  let* _ := serialize c in
  release_node c.

Definition create_new_root (key : value) (left_child right_child : PageId.t) : run () :=
  let* c := create_page BTREE_ROOT false in
  let '(id, n) := c : PageId.t * node in
  let n := with_entries [key] [Child left_child; Child right_child] n in
  let* _ := serialize n in
  let* _ := run_each (adopt id) [Child left_child; Child right_child] in
  let* _ := r_modify (with_root (Some id)) in
  release_node n.

(** [_split_internal], given [_insert_internal]. *)
Definition split_internal (insert_internal : value → PageId.t → node → run ()) (n : node) : run () :=
  let* c := create_page BTREE_INTERNAL false in
  let '(id, m) := c : PageId.t * node in
  let split_idx := len (keys n) / 2 in
  let* promoted := r_lift (py_get (keys n) split_idx) in
  let m := with_entries (py_from (keys n) (split_idx + 1)) (py_from (values n) (split_idx + 1)) m in
  let n := with_entries (py_slice (keys n) 0 split_idx) (py_slice (values n) 0 (split_idx + 1)) n in
  let* _ := serialize n in
  let* _ := serialize m in
  let* _ := run_each (adopt id) (values m) in
  let* _ := release_node m in
  match parent n with
  | None => let* s := r_get in create_new_root promoted (page_id_of n s) id
  | Some _ => insert_internal promoted id n
  end.

Fixpoint insert_internal (n : nat) (key : value) (new_child : PageId.t) (left_node : node) : run () :=
  match parent left_node with
  | None => let* s := r_get in create_new_root key (page_id_of left_node s) new_child
  | Some p =>
      match n with
      | O => out_of_fuel
      | S n' =>
          let* x := get_node p in
          let* idx := r_lift (count_while (λ k, key_lt k key) (keys x)) in
          let x := with_entries (insert_at idx key (keys x)) (insert_at (idx + 1) (Child new_child) (values x)) x in
          let* _ := serialize x in
          let* _ := release_node x in
          let* s := r_get in
          if is_full (order s) x then split_internal (insert_internal n') x else r_ret ()
      end
  end.

Definition split_leaf (leaf : node) : run () :=
  let* c := create_page BTREE_LEAF true in
  let '(id, m) := c : PageId.t * node in
  let split_idx := len (keys leaf) / 2 in
  let* s := r_get in
  let m := with_links (next_leaf leaf) (Some (page_id_of leaf s))
             (with_entries (py_from (keys leaf) split_idx) (py_from (values leaf) split_idx) m) in
  let leaf := with_next (Some id)
                (with_entries (py_slice (keys leaf) 0 split_idx) (py_slice (values leaf) 0 split_idx) leaf) in
  let* _ := serialize leaf in
  let* _ := serialize m in
  let* _ := release_node m in
  let* split_key := r_lift (first_key m) in
  insert_internal fuel split_key id leaf.

(** ** Insertion and search *)

Definition same_key (key k : value) : res bool := key_eq k key.

(** The entry in a leaf: [true] when it is a new one. *)
Definition put_entry (key : value) (v : item) (leaf : node) : res (node * bool) :=
  idx ← count_while (λ k, key_lt k key) (keys leaf);
  same ← (if idx <? len (keys leaf) then k ← py_get (keys leaf) idx; key_eq key k else Ok false);
  if same : bool then vs ← py_set (values leaf) idx v; Ok (with_entries (keys leaf) vs leaf, false)
  else Ok (with_entries (insert_at idx key (keys leaf)) (insert_at idx v (values leaf)) leaf, true).

Definition insert (key v : value) : run () :=
  let* s := r_get in
  let* _ := match root_page_id s with None => create_root | Some _ => r_ret () end in
  let* leaf := find_leaf key in
  let* x := r_lift (put_entry key (Val v) leaf) in
  let '(leaf, fresh) := x : node * bool in
  let* _ := (if fresh then r_modify (λ s, with_size (tree_size s + 1) s) else r_ret ()) in
  let* _ := serialize leaf in
  let* _ := release_node leaf in
  let* s := r_get in
  if is_full (order s) leaf then split_leaf leaf else r_ret ().

(** [None] and a missing key look the same. *)
Definition item_value (i : item) : value := match i with Val v => v | Child id => VObject (page_object id) end.

Definition search (key : value) : run value :=
  let* s := r_get in
  match root_page_id s with
  | None => r_ret VNone
  | Some _ =>
      let* leaf := find_leaf key in
      let* i := r_lift (find_first (same_key key) (keys leaf)) in
      match i with
      | Some i =>
          let* v := r_lift (py_get (values leaf) i) in
          let* _ := release_node leaf in
          r_ret (item_value v)
      | None => let* _ := release_node leaf in r_ret VNone
      end
  end.

Definition contains (key : value) : run bool :=
  let* v := search key in r_ret (match v with VNone => false | _ => true end).

(** ** Deletion *)

Definition set_page_type (ty : PageType) (p : Page.t) : Page.t :=
  {| Page.page_id := Page.page_id p; Page.page_type := ty; Page.page_size := Page.page_size p;
     Page.data := Page.data p; Page.dirty := Page.dirty p; Page.pin_count := Page.pin_count p;
     Page.free_offset := Page.free_offset p; Page.flags := Page.flags p; Page.version := Page.version p |}.

(** [l.pop()] and [l.pop(0)]: the element and the rest. *)
Definition pop_first {A} (l : list A) : res (A * list A) :=
  match l with x :: l' => Ok (x, l') | [] => Err IndexError end.

(** One entry moves from the left node to the right one; [moved] is the child that changes parents. *)
Definition rotate_right (left right par : node) (idx : Z) : res (node * node * node * option item) :=
  k ← py_pop (keys left);
  v ← py_pop (values left);
  if is_leaf left then
    ks ← py_set (keys par) idx k.1;
    Ok (with_entries k.2 v.2 left, with_entries (k.1 :: keys right) (v.1 :: values right) right, with_keys ks par, None)
  else
    sep ← py_get (keys par) idx;
    ks ← py_set (keys par) idx k.1;
    Ok (with_entries k.2 v.2 left, with_entries (sep :: keys right) (v.1 :: values right) right, with_keys ks par, Some v.1).
Definition rotate_left (left right par : node) (idx : Z) : res (node * node * node * option item) :=
  k ← pop_first (keys right);
  v ← pop_first (values right);
  if is_leaf left then
    k0 ← py_get k.2 0;
    ks ← py_set (keys par) idx k0;
    Ok (with_entries (keys left ++ [k.1]) (values left ++ [v.1]) left, with_entries k.2 v.2 right, with_keys ks par, None)
  else
    sep ← py_get (keys par) idx;
    ks ← py_set (keys par) idx k.1;
    Ok (with_entries (keys left ++ [sep]) (values left ++ [v.1]) left, with_entries k.2 v.2 right, with_keys ks par, Some v.1).

Definition adopt_moved (p : node) (moved : option item) : run () :=
  match moved with
  | Some i => let* s := r_get in adopt (page_id_of p s) i
  | None => r_ret ()
  end.

Definition redistribute_right (left right par : node) (idx : Z) : run () :=
  let* x := r_lift (rotate_right left right par idx) in
  let '(l, r, p, moved) := x : node * node * node * option item in
  let* _ := adopt_moved r moved in
  let* _ := serialize l in
  let* _ := serialize r in
  serialize p.
Definition redistribute_left (left right par : node) (idx : Z) : run () :=
  let* x := r_lift (rotate_left left right par idx) in
  let '(l, r, p, moved) := x : node * node * node * option item in
  let* _ := adopt_moved l moved in
  let* _ := serialize l in
  let* _ := serialize r in
  serialize p.

Definition merge_entries (left right par : node) (idx : Z) : res node :=
  if is_leaf left then
    Ok (with_next (next_leaf right) (with_entries (keys left ++ keys right) (values left ++ values right) left))
  else
    sep ← py_get (keys par) idx;
    Ok (with_entries (keys left ++ sep :: keys right) (values left ++ values right) left).
Definition merge_nodes (left right par : node) (idx : Z) : run () :=
  let* l := r_lift (merge_entries left right par idx) in
  let* s := r_get in
  let* _ := (if is_leaf l then r_ret () else run_each (adopt (page_id_of l s)) (values right)) in
  let* ks := r_lift (pop_at idx (keys par)) in
  let* vs := r_lift (pop_at (idx + 1) (values par)) in
  let* _ := serialize l in
  let* _ := serialize (with_entries ks vs par) in
  let* s := r_get in
  let* _ := pool_call (remove_page (page_id_of right s)) in
  r_ret ().

(** The only child of an empty root becomes the root. *)
Definition shrink_root (n : node) : run () :=
  if negb (is_leaf n) && (len (keys n) =? 0) && (len (values n) =? 1) then
    let* child := r_lift (py_get (values n) 0) in
    let* id := r_lift (child_id child) in
    let* c := get_node id in
    let c := with_parent None c in
    let* _ := on_page (n_page c) (set_page_type BTREE_ROOT) in
    let* _ := serialize c in
    let* _ := r_modify (with_root (Some id)) in
    release_node c
  else r_ret ().

(** The place of a page among the children, 0 when it is not there. *)
Definition is_child (id : PageId.t) (i : item) : bool :=
  match i with Child j => bool_decide (j = id) | Val _ => false end.
Definition child_position (id : PageId.t) (l : list item) : Z :=
  match list_find (λ i, is_child id i = true) l with
  | Some (n, _) => Z.of_nat n
  | None => 0
  end.

(** Borrowing from a sibling that has more than enough; [true] when it is done. *)
Definition sibling (par : node) (i : Z) : run node :=
  let* child := r_lift (py_get (values par) i) in
  let* id := r_lift (child_id child) in
  get_node id.
Definition borrow (move : node → run ()) (par : node) (i : Z) : run bool :=
  let* x := sibling par i in
  let* s := r_get in
  if order s <? len (keys x) then
    let* _ := move x in
    let* _ := release_node x in
    let* _ := release_node par in
    r_ret true
  else let* _ := release_node x in r_ret false.

Definition handle_underflow (n : node) : run () :=
  let* s := r_get in
  if is_underflow (order s) n then
    match parent n with
    | None => shrink_root n
    | Some p =>
        let* par := get_node p in
        let* s := r_get in
        let pos := child_position (page_id_of n s) (values par) in
        let last := len (values par) - 1 in
        let* done := (if 0 <? pos then borrow (λ l, redistribute_right l n par (pos - 1)) par (pos - 1)
                      else r_ret false) in
        if done : bool then r_ret ()
        else
          let* done := (if pos <? last then borrow (λ r, redistribute_left n r par pos) par (pos + 1)
                        else r_ret false) in
          if done : bool then r_ret ()
          else
            let* _ := (if 0 <? pos then
                         let* l := sibling par (pos - 1) in
                         let* _ := merge_nodes l n par (pos - 1) in
                         release_node l
                       else if pos <? last then
                         let* r := sibling par (pos + 1) in
                         let* _ := merge_nodes n r par pos in
                         release_node r
                       else r_ret ()) in
            release_node par
    end
  else r_ret ().

Definition delete (key : value) : run bool :=
  let* s := r_get in
  match root_page_id s with
  | None => r_ret false
  | Some _ =>
      let* leaf := find_leaf key in
      let* i := r_lift (find_first (same_key key) (keys leaf)) in
      match i with
      | Some i =>
          let* ks := r_lift (pop_at i (keys leaf)) in
          let* vs := r_lift (pop_at i (values leaf)) in
          let leaf := with_entries ks vs leaf in
          let* _ := serialize leaf in
          let* _ := r_modify (λ s, with_size (tree_size s - 1) s) in
          let* _ := release_node leaf in
          let* _ := handle_underflow leaf in
          r_ret true
      | None => let* _ := release_node leaf in r_ret false
      end
  end.

(** ** Scans *)

(** The entries of a leaf for which [keep] says [Some true]; [None] ends the scan. *)
Fixpoint scan_leaf (keep : value → res (option bool)) (l : list (value * item)) : res (list (value * value) * bool) :=
  match l with
  | [] => Ok ([], false)
  | (k, v) :: l' =>
      b ← keep k;
      match b with
      | None => Ok ([], true)
      | Some b => r ← scan_leaf keep l'; Ok ((if b : bool then [(k, item_value v)] else []) ++ r.1, r.2)
      end
  end.
(** Entries whose value is missing end the loop with an error. *)
Definition entries (n : node) : res (list (value * item)) :=
  if len (values n) <? len (keys n) then Err IndexError else Ok (zip (keys n) (values n)).

(** The entries of one leaf, which is released. *)
Definition scan_own (keep : value → res (option bool)) (leaf : node) : run (list (value * value) * bool) :=
  let* es := r_lift (entries leaf) in
  let* x := r_lift (scan_leaf keep es) in
  let* _ := release_node leaf in
  r_ret x.

(** From leaf to leaf. *)
Fixpoint scan_leaves (n : nat) (keep : value → res (option bool)) (leaf : node) : run (list (value * value)) :=
  let* x := scan_own keep leaf in
  match x.2, next_leaf leaf with
  | false, Some id =>
      match n with
      | O => out_of_fuel
      | S n' => let* y := get_node id in let* rest := scan_leaves n' keep y in r_ret (x.1 ++ rest)
      end
  | _, _ => r_ret x.1
  end.

(** [start_key <= key] and, unless it is [None], [key < end_key]. *)
Definition in_range (start_key end_key k : value) : res (option bool) :=
  a ← key_le start_key k;
  if a : bool then
    match end_key with
    | VNone => Ok (Some true)
    | _ => b ← key_le end_key k; Ok (if b : bool then None else Some true)
    end
  else Ok (Some false).

Definition range_scan (start_key end_key : value) : run (list (value * value)) :=
  let* s := r_get in
  match root_page_id s with
  | None => r_ret []
  | Some _ => let* leaf := find_leaf start_key in scan_leaves fuel (in_range start_key end_key) leaf
  end.

(** The leftmost and the rightmost leaf. *)
Definition outer_leaf (i : Z) : run node := let* n := root_node in descend fuel (λ _, Ok i) n.

Definition scan_all : run (list (value * value)) :=
  let* s := r_get in
  match root_page_id s with
  | None => r_ret []
  | Some _ => let* leaf := outer_leaf 0 in scan_leaves fuel (λ _, Ok (Some true)) leaf
  end.

(** [node.keys[i] if node.keys else None] of the outer leaf. *)
Definition outer_key (i : Z) : run value :=
  let* s := r_get in
  match root_page_id s with
  | None => r_ret VNone
  | Some _ =>
      let* n := outer_leaf i in
      let* k := r_lift (if bool_decide (len (keys n) = 0) then Ok VNone else py_get (keys n) i) in
      let* _ := release_node n in
      r_ret k
  end.
Definition get_min_key : run value := outer_key 0.
Definition get_max_key : run value := outer_key (-1).
End Tree.
End BTree.

(** Keys of a plain runtime: datetimes are compared as numbers, a pickled page number is a list of one. *)
Definition datetimes (op : Z → Z → bool) (a b : @value plain_runtime) : res bool :=
  match a, b with @VDatetime _ x, @VDatetime _ y => Ok (op x y) | _, _ => Err TypeError end.
Definition plain_keys : @OtherKeys plain_runtime := {|
  other_eq := datetimes Z.eqb; other_lt := datetimes Z.ltb; other_le := datetimes Z.leb;
  page_object := λ id, [PageId.page_num id];
  page_num_of := λ o, match o with [z] => Ok z | _ => Err AttributeError end |}.
