(* ===== verification/BTreeNode.v ===== *)
(** The pages of the B+ tree: what a node writes to its page is what the next node made
    from the page reads. *)

From stdpp Require Import functions.
From S2P Require Import Prelude Bytes Utf8 Page Buffer Serializer BTree.
Import Serializer BufferPool BTree.

(** The page object [r]. *)
Abbreviation page s r := (heap (buffer_pool s) r).

Section Node.
Context `{OK : OtherKeys}.

(** A page number that can be written and is read as a page. *)
Definition page_ok (id : PageId.t) : Prop := 0 <= PageId.page_num id < 2 ^ 31 ∧ PageId.table_id id = 0.
Definition link_ok (o : option PageId.t) : Prop := match o with Some id => page_ok id | None => True end.

(** The nodes that survive the trip: one value for each key of a leaf, one child more than
    keys in an internal node. *)
Record node_ok (n : node) : Prop := {
  no_keys : Forall faithful (keys n);
  no_values : if is_leaf n then ∃ vs, values n = Val <$> vs ∧ Forall faithful vs ∧ length vs = length (keys n)
              else ∃ cs, values n = Child <$> cs ∧ Forall page_ok cs ∧ length cs = S (length (keys n));
  no_next : link_ok (next_leaf n);
  no_prev : link_ok (prev_leaf n);
}.

Lemma read_link_at d p o s x off :
  pack_be_s 4 (link_num o) = Ok x → d = p ++ x ++ s → off = len p → link_ok o → read_link d off = Ok o.
Proof.
  intros [H ->]%pack_s_inv -> -> Ho. unfold read_link.
  rewrite (unpack_be_s_from_at _ 4 p (link_num o) s) by done. cbn [mbind res_bind].
  destruct o as [[z tid]|]; cbn in *; [|done]. destruct Ho as [[? ?] Ht]. cbn in *. subst tid. by if_true.
Qed.

Lemma read_keys_at ks xs p s :
  Forall faithful ks → res_map encode ks = Ok xs →
  read_keys (length ks) (p ++ concat xs ++ s) (len p) = Ok (ks, len p + len (concat xs)).
Proof.
  intros Hk. revert p xs. induction Hk as [|k ks Hk _ IH]; intros p xs.
  { intros <-%Ok_inj. cbn. do 2 f_equal. lia. }
  cbn [res_map]. intros (x & Ex & (xs' & Exs & <-%Ok_inj)%bind_Ok)%bind_Ok.
  cbn [length read_keys concat]. rewrite <-app_assoc, (decode_encode p k) by done.
  specialize (IH (p ++ x) xs' Exs). rewrite <-app_assoc, length_app, Nat2Z.inj_add in IH.
  rewrite IH. cbn [mbind res_bind fst snd]. do 2 f_equal. rewrite length_app. lia.
Qed.

Lemma read_values_at vs xs p s :
  Forall faithful vs → res_map encode_item (Val <$> vs) = Ok xs →
  read_values (length vs) (p ++ concat xs ++ s) (len p) = Ok (Val <$> vs).
Proof.
  intros Hv. revert p xs. induction Hv as [|v vs Hv _ IH]; intros p xs; [done|].
  cbn [fmap list_fmap res_map encode_item]. intros (x & Ex & (xs' & Exs & <-%Ok_inj)%bind_Ok)%bind_Ok.
  cbn [length read_values concat]. rewrite <-app_assoc, (decode_encode p v) by done.
  specialize (IH (p ++ x) xs' Exs). rewrite <-app_assoc, length_app, Nat2Z.inj_add in IH.
  by rewrite IH.
Qed.

Lemma read_children_at cs xs p s :
  Forall page_ok cs → res_map encode_child (Child <$> cs) = Ok xs →
  read_children (length cs) (p ++ concat xs ++ s) (len p) = Child <$> cs.
Proof.
  intros Hc. revert p xs. induction Hc as [|[z tid] cs [? Ht] _ IH]; intros p xs; [done|].
  cbn [fmap list_fmap res_map]. intros (x & [Hz ->]%pack_s_inv & (xs' & Exs & <-%Ok_inj)%bind_Ok)%bind_Ok.
  cbn [length read_children concat] in *. rewrite <-app_assoc, (unpack_be_s_from_at _ 4 p z (concat xs' ++ s)) by done.
  cbn in Ht. subst tid. f_equal. specialize (IH (p ++ be_bytes 4 z) xs' Exs).
  rewrite <-app_assoc, length_app, length_be_bytes, Nat2Z.inj_add in IH. exact IH.
Qed.

Lemma deserialize_node_bytes n leaf h x rest :
  node_ok n → node_bytes n = Ok x → len h = Page.HEADER_SIZE →
  deserialize (n_page n) leaf (h ++ x ++ rest) = Ok (with_parent None n).
Proof.
  intros [Hk Hv Hnx Hpv] (k & [Hlk ->]%pack_u_inv & (nx & Enx & (pv & Epv & (ks & Eks & (vs & Evs & <-%Ok_inj)
    %bind_Ok)%bind_Ok)%bind_Ok)%bind_Ok)%bind_Ok Hh.
  assert (length nx = 4%nat) as Lnx by (apply pack_s_inv in Enx as [_ ->]; apply length_be_bytes).
  assert (length pv = 4%nat) as Lpv by (apply pack_s_inv in Epv as [_ ->]; apply length_be_bytes).
  unfold deserialize, Page.HEADER_SIZE in *. set (b := if is_leaf n then 1 else 0).
  set (d := h ++ _). assert ((len d <? 24 + 5) = false) as ->
    by (unfold d; rewrite !length_app; cbn [length app]; rewrite !length_app, length_be_bytes; lia).
  assert (py_get d 24 = Ok b) as -> by (rewrite <-Hh; apply py_get_app_mid). cbn [mbind res_bind].
  rewrite (unpack_be_from_at d 4 (h ++ [b]) (len (keys n)) (nx ++ pv ++ concat ks ++ concat vs ++ rest))
    by (unfold d; apps || done || lens). cbn [mbind res_bind].
  rewrite (read_link_at d (h ++ b :: be_bytes 4 (len (keys n))) _ (pv ++ concat ks ++ concat vs ++ rest) _ (24 + 5) Enx)
    by (unfold d; apps || done || lens). cbn [mbind res_bind].
  rewrite (read_link_at d (h ++ b :: be_bytes 4 (len (keys n)) ++ nx) _ (concat ks ++ concat vs ++ rest) _ (24 + 9) Epv)
    by (unfold d; apps || done || lens). cbn [mbind res_bind]. rewrite Nat2Z.id.
  set (p := h ++ b :: be_bytes 4 (len (keys n)) ++ nx ++ pv).
  replace d with (p ++ concat ks ++ concat vs ++ rest) by (unfold d, p; apps).
  replace (24 + 13) with (len p) by (unfold p; lens). rewrite (read_keys_at _ _ _ _ Hk Eks).
  cbn [mbind res_bind fst snd].
  replace (p ++ concat ks ++ concat vs ++ rest) with ((p ++ concat ks) ++ concat vs ++ rest) by apps.
  replace (len p + len (concat ks)) with (len (p ++ concat ks)) by lens.
  clearbody p. unfold b. clear b d. destruct n as [pg lf kk vv nl pl pr]. cbn [is_leaf keys values next_leaf prev_leaf n_page with_parent] in *.
  destruct lf; cbn [negb Z.eqb].
  - destruct Hv as (ws & -> & Hws & Hl). rewrite <-Hl. by rewrite (read_values_at _ _ _ _ Hws Evs).
  - destruct Hv as (cs & -> & Hcs & Hl). rewrite <-Hl. by rewrite (read_children_at _ _ _ _ Hcs Evs).
Qed.

Lemma node_bytes_length n x : node_bytes n = Ok x → 13 <= len x.
Proof.
  intros (k & [Hlk ->]%pack_u_inv & (nx & [_ ->]%pack_s_inv & (pv & [_ ->]%pack_s_inv & (ks & Eks & (vs & Evs & <-%Ok_inj)
    %bind_Ok)%bind_Ok)%bind_Ok)%bind_Ok)%bind_Ok. lens.
Qed.

(** * What the methods do to a page of the pool *)

(** The state after a call that changes at most the object [r]. *)
Record touched (r : ref) (s s' : BTree.t) : Prop := {
  to_order : order s' = order s;
  to_root : root_page_id s' = root_page_id s;
  to_count : page_count s' = page_count s;
  to_tree_size : tree_size s' = tree_size s;
  to_ref : next_ref s' = next_ref s;
  to_wf : wf (buffer_pool s) → wf (buffer_pool s');
  to_cached : ∀ id, cached (buffer_pool s') id = cached (buffer_pool s) id;
  to_slots : slots (buffer_pool s') = slots (buffer_pool s);
  to_ids : page_ids (buffer_pool s') = page_ids (buffer_pool s);
  to_capacity : capacity (buffer_pool s') = capacity (buffer_pool s);
  to_heap : ∀ r', r' ≠ r → page s' r' = page s r';
  to_id : Page.page_id (page s' r) = Page.page_id (page s r);
}.

Lemma touched_refl r s : touched r s s.
Proof. by split. Qed.
Lemma touched_trans r s1 s2 s3 : touched r s1 s2 → touched r s2 s3 → touched r s1 s3.
Proof.
  intros H1 H2. split.
  6: { intros H. by apply H2, H1. }
  6: { intros id. by rewrite (to_cached _ _ _ H2), (to_cached _ _ _ H1). }
  9: { intros r' Hr. by rewrite (to_heap _ _ _ H2), (to_heap _ _ _ H1). }
  all: etrans; [apply H2|apply H1].
Qed.

Lemma cached_kept (s s' : BufferPool.t) id :
  page_ids s' = page_ids s → slots s' = slots s → cached s' id = cached s id.
Proof.
  intros E1 E2. unfold cached, get_page, m_bind, m_get, get_slot. rewrite E1.
  destruct (page_ids s !! id); [|done]. cbn. by rewrite E2.
Qed.

Lemma heap_touched r p s :
  Page.page_id p = Page.page_id (page s r) →
  touched r s (with_pool (with_heap (buffer_pool s) (<[r := p]> (heap (buffer_pool s)))) s).
Proof.
  intros Hp. split; try done; cbn.
  - intros H. by apply heap_update_wf.
  - intros id. apply cached_heap.
  - intros r' Hr. by rewrite fn_lookup_insert_ne.
  - by rewrite fn_lookup_insert.
Qed.

Lemma on_page_touches r f s :
  (∀ p, Page.page_id (f p) = Page.page_id p) →
  ∃ s', on_page r f s = Some (s', Ok ()) ∧ touched r s s' ∧ page s' r = f (page s r).
Proof.
  intros Hf. eexists. split; [done|]. cbn. rewrite fn_lookup_insert. split; [|done]. by apply heap_touched.
Qed.

(** Reading and releasing: nothing that is stored changes. *)
Definition quiet (r : ref) (s s' : BTree.t) : Prop :=
  touched r s s' ∧ Page.data (page s' r) = Page.data (page s r) ∧ Page.page_size (page s' r) = Page.page_size (page s r).

Lemma cached_slot s id r :
  wf s → cached s id = Some r →
  ∃ i, page_ids s !! id = Some i ∧ get_slot i s = (s, Ok (Some r)) ∧ 0 <= i < capacity s ∧ Page.page_id (heap s r) = id.
Proof.
  intros H Hc. apply (cached_spec s id r H) in Hc as (i & Hi & Hid). exists i.
  split; [apply (wf_ids s H); eauto|]. split; [by apply occupied_get|]. split; [by eapply occupied_range|done].
Qed.

Lemma fetch_touches id r s :
  wf (buffer_pool s) → cached (buffer_pool s) id = Some r →
  ∃ s', pool_call (fetch_page id) s = Some (s', Ok (Some r)) ∧ quiet r s s'.
Proof.
  intros H Hc. destruct (cached_slot _ _ _ H Hc) as (i & Hi & Hs & Hr & Hid).
  unfold pool_call. pose proof (keeps_fetch_page id _ H) as Hk.
  unfold fetch_page, m_bind, m_get in *. rewrite Hi in Hk |- *. unfold set_ref in *. pose proof (wf_refs _ H).
  rewrite py_set_range in Hk |- * by lia. unfold get_slot in *. cbn [slots with_refs] in *. injection Hs as Hs.
  rewrite Hs in Hk |- *. cbn in Hk |- *. eexists. split; [done|]. split; [|by cbn; rewrite fn_lookup_insert].
  split; try done; cbn; [by intros; apply cached_kept|intros; by rewrite fn_lookup_insert_ne|by rewrite fn_lookup_insert].
Qed.

Lemma release_touches id n s :
  wf (buffer_pool s) → cached (buffer_pool s) id = Some (n_page n) →
  ∃ s', release_node n s = Some (s', Ok ()) ∧ quiet (n_page n) s s'.
Proof.
  intros H Hc. destruct (cached_slot _ _ _ H Hc) as (i & Hi & Hs & Hr & Hid).
  assert (∀ p, Page.page_id (Page.unpin p) = Page.page_id p) as Hu by (intros p; unfold Page.unpin; by case_match).
  destruct (on_page_touches (n_page n) Page.unpin s Hu) as (s' & E & Ht & Hp). exists s'. split.
  - rewrite <-E. unfold release_node, r_bind, r_get, page_id_of. rewrite Hid.
    unfold BTree.on_page, pool_call, unpin_page, m_bind, m_get. rewrite Hi, Hs. done.
  - split; [done|]. rewrite Hp. unfold Page.unpin. by case_match.
Qed.

(** ** Serialising *)

(** A page whose array has the size of the page. *)
Definition page_sized (p : Page.t) : Prop := len (Page.data p) = Page.page_size p ∧ Page.HEADER_SIZE <= Page.page_size p.

Lemma quiet_sized r s s' : quiet r s s' → page_sized (page s r) → page_sized (page s' r).
Proof. intros (_ & E1 & E2). unfold page_sized. by rewrite E1, E2. Qed.

(** What the page holds after [serialize]. *)
Definition written (x : bytes) (p : Page.t) : Prop :=
  ∃ h rest, Page.data p = h ++ x ++ rest ∧ len h = Page.HEADER_SIZE.

Lemma clear_data p : page_sized p → Page.data (Page.clear p) =
  take 24 (Page.data p) ++ py_repeat (Page.page_size p - Page.HEADER_SIZE) 0.
Proof.
  intros [Hl Hs]. unfold Page.clear, Page.HEADER_SIZE in *. cbn [Page.data Page.with_dirty Page.with_free Page.with_data].
  rewrite py_slice_set_range by lia. rewrite Nat2Z.id, drop_all, app_nil_r. done.
Qed.

Lemma clear_sized p : page_sized p → page_sized (Page.clear p).
Proof.
  intros H. destruct (H) as [Hl Hs]. unfold page_sized. rewrite clear_data by done. cbn [Page.page_size Page.clear Page.with_dirty Page.with_free Page.with_data].
  unfold Page.HEADER_SIZE in *. rewrite length_app, length_take. unfold py_repeat. rewrite length_replicate. lia.
Qed.

Lemma write_data_spec x p :
  page_sized p →
  if Page.page_size p <? Page.HEADER_SIZE + len x then Page.write_data Page.HEADER_SIZE x p = (p, Err ValueError)
  else ∃ p', Page.write_data Page.HEADER_SIZE x p = (p', Ok ()) ∧ Page.page_id p' = Page.page_id p ∧
         Page.page_size p' = Page.page_size p ∧ page_sized p' ∧ written x p'.
Proof.
  intros [Hl Hs]. unfold Page.write_data. unfold Page.HEADER_SIZE in *. case_ifs; [done|]. eexists. split; [done|].
  cbn [Page.page_id Page.page_size Page.data Page.with_dirty Page.with_data]. split_and!; try done.
  - unfold page_sized. cbn [Page.data Page.page_size Page.with_dirty Page.with_data].
    rewrite length_py_slice_set by lia. done.
  - eexists (take 24 (Page.data p)), _. cbn [Page.data Page.with_dirty Page.with_data].
    rewrite py_slice_set_range by lia. split; [done|]. unfold Page.HEADER_SIZE. rewrite length_take. lia.
Qed.

Lemma serialize_spec n s :
  page_sized (page s (n_page n)) →
  match node_bytes n with
  | Ok x =>
      if Page.page_size (page s (n_page n)) <? Page.HEADER_SIZE + len x
      then ∃ s', serialize n s = Some (s', Err ValueError) ∧ touched (n_page n) s s'
      else ∃ s', serialize n s = Some (s', Ok ()) ∧ touched (n_page n) s s' ∧ page_sized (page s' (n_page n)) ∧
             Page.page_size (page s' (n_page n)) = Page.page_size (page s (n_page n)) ∧ written x (page s' (n_page n))
  | Err e => ∃ s', serialize n s = Some (s', Err e) ∧ touched (n_page n) s s' ∧ page_sized (page s' (n_page n)) ∧
               Page.data (page s' (n_page n)) = Page.data (Page.clear (page s (n_page n)))
  end.
Proof.
  set (r := n_page n). intros Hs. unfold serialize, r_bind. fold r.
  destruct (on_page_touches r Page.clear s (λ p, eq_refl)) as (s1 & -> & T1 & P1).
  pose proof (clear_sized _ Hs) as Hs1. rewrite <-P1 in Hs1. unfold r_lift.
  destruct (node_bytes n) as [x|e]; [|by exists s1; rewrite P1 in Hs1 |- *].
  pose proof (write_data_spec x _ Hs1) as Hw.
  assert (Page.page_size (page s1 r) = Page.page_size (page s r)) as Es by (by rewrite P1).
  rewrite Es in Hw. unfold pool_call, page_call.
  destruct (Page.page_size (page s r) <? _).
  - rewrite Hw. eexists. split; [done|]. eapply touched_trans; [exact T1|by apply heap_touched].
  - destruct Hw as (p & -> & Hid & Hsz & Hsd & h & rest & Hd & Hh). cbv iota beta.
    set (s2 := with_pool _ s1). assert (touched r s1 s2) as T2.
    { by apply heap_touched. }
    assert (page s2 r = p) as P2 by (cbn; by rewrite fn_lookup_insert).
    destruct (on_page_touches r (Page.with_dirty true) s2 (λ p, eq_refl)) as (s3 & -> & T3 & P3).
    exists s3. split; [done|]. rewrite P3, P2. split; [by do 2 (eapply touched_trans; [done|])|].
    split; [done|]. split; [by cbn; congruence|]. by exists h, rest.
Qed.

(** C14: The page of a node is the node: when [serialize] has written a leaf or an internal node
    without raising, the next [BTreeNode] made from the page reads back its kind, keys, values or
    children, and links; only the parent is not stored. The node's keys and values are ones the
    serializer reads back as themselves (a date in the calendar's range; a float or an object as
    the runtime gives it back); its links and children are pages of table 0 with numbers from 0
    to 2^31 - 1, since only the number is stored; a leaf has one value for each key, an internal
    node one child more than keys; and the page has the size it says. *)
Theorem btree_node_roundtrip n leaf s s' :
  node_ok n → page_sized (page s (n_page n)) → serialize n s = Some (s', Ok ()) →
  node_of (n_page n) leaf s' = Some (s', Ok (with_parent None n)).
Proof.
  intros Hn Hs E. pose proof (serialize_spec n s Hs) as H. destruct (node_bytes n) as [x|e] eqn:Ex.
  - destruct (_ <? _); destruct H as (s1 & E1 & H); [congruence|].
    assert (s1 = s') as -> by congruence. destruct H as (_ & _ & _ & h & rest & Hd & Hh).
    unfold node_of, r_bind, r_get, r_lift. rewrite Hd. by rewrite deserialize_node_bytes.
  - destruct H as (s1 & E1 & _). congruence.
Qed.

Lemma get_node_touches id r n s :
  wf (buffer_pool s) → cached (buffer_pool s) id = Some r → deserialize r true (Page.data (page s r)) = Ok n →
  ∃ s', get_node id s = Some (s', Ok n) ∧ quiet r s s'.
Proof.
  intros H Hc Hd. destruct (fetch_touches id r s H Hc) as (s' & E & Hq). exists s'. split; [|done].
  unfold get_node, r_bind. rewrite E. unfold node_of, r_bind, r_get, r_lift. destruct Hq as (_ & -> & _). by rewrite Hd.
Qed.
End Node.

(** * Witness *)

#[local] Existing Instance plain_runtime.
#[local] Existing Instance plain_keys.

(** A pool of four frames with one page of 128 bytes, the root of a tree. *)
Definition root_id : PageId.t := PageId.mk 7 0.
Definition page_with (x : bytes) : Page.t :=
  {| Page.page_id := root_id; Page.page_type := BTREE_ROOT; Page.page_size := 128;
     Page.data := replicate 24 0 ++ x ++ replicate (104 - length x) 0; Page.dirty := false;
     Page.pin_count := 0; Page.free_offset := 24; Page.flags := 0; Page.version := 1 |}.
Definition pool_with (x : bytes) : BufferPool.t :=
  let p := init_pool 4 128 (λ _, page_with x) in
  match BufferPool.insert_page 1 1 p with Some (p', _) => p' | None => p end.
Definition tree_with (ord : Z) (x : bytes) : BTree.t := BTree.mk ord (Some root_id) 7 0 (pool_with x) 2.

Lemma pool_with_wf x : wf (pool_with x).
Proof.
  unfold pool_with. destruct (BufferPool.insert_page 1 1 _) as [[p r]|] eqn:E.
  - eapply insert_page_wf; [|exact E]. by apply init_pool_wf.
  - by apply init_pool_wf.
Qed.

(** An internal node with two keys. *)
Definition node_example : node :=
  mk_node 1 false [VInt 10; VStr [104; 105]] (Child <$> [PageId.mk 2 0; PageId.mk 3 0; PageId.mk 4 0]) None (Some (PageId.mk 1 0))
    (Some root_id).
Definition after_example : BTree.t :=
  match serialize node_example (tree_with 2 []) with Some (s, _) => s | None => tree_with 2 [] end.

Lemma btree_node_roundtrip_witness :
  serialize node_example (tree_with 2 []) = Some (after_example, Ok ()) ∧
  node_of 1 true after_example = Some (after_example, Ok (with_parent None node_example)).
Proof.
  assert (serialize node_example (tree_with 2 []) = Some (after_example, Ok ())) as E by (vm_compute; reflexivity).
  split; [exact E|]. apply (btree_node_roundtrip node_example true (tree_with 2 []) after_example); [|split; vm_compute; easy|exact E].
  split.
  - repeat constructor; vm_compute; easy.
  - exists [PageId.mk 2 0; PageId.mk 3 0; PageId.mk 4 0]. split; [reflexivity|]. split; [|reflexivity].
    repeat constructor; vm_compute; easy.
  - exact I.
  - split; vm_compute; easy.
Defined.
