(* ===== verification/BTreeLeaf.v ===== *)
(** The B+ tree as a dictionary: a tree whose root is a leaf, on a page of the pool, behaves
    as a finite map from integers as long as the leaf does not have to be split; the split
    fails and loses half of the entries, and a tree that was just made has no leaf at all. *)

From stdpp Require Import functions sorting.
From S2P Require Import Prelude Bytes Utf8 Page Buffer Serializer SortedMap BTree BTreeNode.
Import Serializer BufferPool BTree.

(** * Loops on lists *)

Lemma count_while_app {A} (test : A → res bool) l1 l2 :
  Forall (λ x, test x = Ok true) l1 → (match l2 with x :: _ => test x = Ok false | [] => True end) →
  count_while test (l1 ++ l2) = Ok (len l1).
Proof.
  intros H1 H2. induction H1 as [|x l1 Hx _ IH]; cbn [app].
  - destruct l2 as [|x l2]; [done|]. cbn. by rewrite H2.
  - cbn [count_while]. rewrite Hx. cbn [mbind res_bind]. rewrite IH. cbn. f_equal. lia.
Qed.

Lemma find_first_app {A} (test : A → res bool) l1 x l2 :
  Forall (λ x, test x = Ok false) l1 → test x = Ok true → find_first test (l1 ++ x :: l2) = Ok (Some (len l1)).
Proof.
  intros H1 Hx. induction H1 as [|y l1 Hy _ IH]; cbn [app find_first]; [by rewrite Hx|].
  rewrite Hy. cbn [mbind res_bind]. rewrite IH. cbn. do 2 f_equal. lia.
Qed.

Lemma find_first_none {A} (test : A → res bool) l :
  Forall (λ x, test x = Ok false) l → find_first test l = Ok None.
Proof. induction 1 as [|x l Hx _ IH]; [done|]. cbn. rewrite Hx. cbn. by rewrite IH. Qed.

Lemma insert_at_app {A} (x : A) l1 l2 : insert_at (len l1) x (l1 ++ l2) = l1 ++ x :: l2.
Proof. unfold insert_at. by rewrite Nat2Z.id, take_app_length, drop_app_length. Qed.

Lemma pop_at_app {A} (x : A) l1 l2 : pop_at (len l1) (l1 ++ x :: l2) = Ok (l1 ++ l2).
Proof.
  unfold pop_at. rewrite py_get_app_mid. cbn [mbind res_bind]. rewrite Nat2Z.id, take_app_length.
  do 2 f_equal. replace (l1 ++ x :: l2) with ((l1 ++ [x]) ++ l2) by apps.
  replace (S (length l1)) with (length (l1 ++ [x])) by (rewrite length_app; cbn; lia). apply drop_app_length.
Qed.

(** * The items of a dictionary around a key *)

Section Items.
Context {A : Type}.
Implicit Types (m : gmap Z A) (l lo hi : list (Z * A)).

Definition below (k : Z) l : list (Z * A) := filter (λ e, e.1 < k) l.
Definition above (k : Z) l : list (Z * A) := filter (λ e, k < e.1) l.
Definition at_key m (k : Z) : list (Z * A) := match m !! k with Some v => [(k, v)] | None => [] end.

Lemma increasing_around m k (mid : list (Z * A)) :
  (∀ e, e ∈ mid → e.1 = k) → increasing mid →
  increasing (below k (sorted_items m) ++ mid ++ above k (sorted_items m)).
Proof.
  intros Hmid Hs. apply StronglySorted_app_2.
  - intros a b Ha Hb. apply list_elem_of_filter in Ha as [Ha _]. apply elem_of_app in Hb as [Hb|Hb].
    + apply Hmid in Hb. lia.
    + apply list_elem_of_filter in Hb as [Hb _]. lia.
  - apply increasing_filter, sorted_items_increasing.
  - apply StronglySorted_app_2; [|done|apply increasing_filter, sorted_items_increasing].
    intros a b Ha Hb. apply Hmid in Ha. apply list_elem_of_filter in Hb as [Hb _]. lia.
Qed.

Lemma elem_around m k mid x y :
  (x, y) ∈ below k (sorted_items m) ++ mid ++ above k (sorted_items m) ↔ (x ≠ k ∧ m !! x = Some y) ∨ (x, y) ∈ mid.
Proof.
  unfold below, above. rewrite !elem_of_app, !list_elem_of_filter, !elem_of_sorted_items. cbn.
  destruct (Z.lt_trichotomy x k) as [|[|]]; intuition lia.
Qed.

Lemma items_around m k : sorted_items m = below k (sorted_items m) ++ at_key m k ++ above k (sorted_items m).
Proof.
  apply sorted_items_unique.
  - apply increasing_around; unfold at_key; destruct (m !! k); [|set_solver|repeat constructor|constructor].
    by intros e ->%list_elem_of_singleton.
  - intros x y. rewrite elem_around. unfold at_key. destruct (m !! k) as [v|] eqn:E.
    + rewrite list_elem_of_singleton. destruct (decide (x = k)) as [->|]; [rewrite E|]; naive_solver.
    + destruct (decide (x = k)) as [->|]; [rewrite E|]; set_solver.
Qed.

Lemma items_insert m k v :
  sorted_items (<[k := v]> m) = below k (sorted_items m) ++ (k, v) :: above k (sorted_items m).
Proof.
  apply (sorted_items_unique _ (below k (sorted_items m) ++ [(k, v)] ++ above k (sorted_items m))).
  - apply increasing_around; [by intros e ->%list_elem_of_singleton|repeat constructor].
  - intros x y. rewrite elem_around, list_elem_of_singleton, lookup_insert_Some. naive_solver.
Qed.

Lemma items_delete m k : sorted_items (base.delete k m) = below k (sorted_items m) ++ above k (sorted_items m).
Proof.
  apply (sorted_items_unique _ (below k (sorted_items m) ++ [] ++ above k (sorted_items m))).
  - apply increasing_around; [set_solver|constructor].
  - intros x y. rewrite elem_around, lookup_delete_Some. set_solver.
Qed.

Lemma length_items m : len (sorted_items m) = Z.of_nat (base.size m).
Proof. unfold sorted_items. by rewrite merge_sort_Permutation, length_map_to_list. Qed.
End Items.

Section Leaf.
Context `{OK : OtherKeys}.
Implicit Types (l : list (Z * value)) (m : gmap Z value) (s : BTree.t).

(** * A leaf with the entries of a list *)

Definition list_node (r : ref) (next : option PageId.t) l : node :=
  mk_node r true (VInt <$> l.*1) (Val <$> l.*2) next None None.

(** What can be written, and its size. *)
Definition entry_ok (e : Z * value) : Prop :=
  - 2 ^ 63 <= e.1 < 2 ^ 63 ∧ faithful e.2 ∧ is_ok (encode e.2) = true.
Definition entry_size (e : Z * value) : Z := 9 + match encode e.2 with Ok x => len x | Err _ => 0 end.
Definition total_size l : Z := foldr (λ e n, entry_size e + n) 0 l.
Definition fits (psz : Z) l : Prop :=
  Forall entry_ok l ∧ len l < 2 ^ 32 ∧ Page.HEADER_SIZE + 13 + total_size l <= psz.

Lemma total_size_app l1 l2 : total_size (l1 ++ l2) = total_size l1 + total_size l2.
Proof. unfold total_size. induction l1 as [|e l1 IH]; [done|]. cbn [app foldr]. lia. Qed.
Lemma total_size_nonneg l : 0 <= total_size l.
Proof.
  unfold total_size. induction l as [|e l IH]; cbn [foldr]; [done|]. unfold entry_size in *. destruct (encode e.2); lia.
Qed.

Lemma fits_remove psz l1 e l2 : fits psz (l1 ++ e ++ l2) → fits psz (l1 ++ l2).
Proof.
  intros (H1 & H2 & H3). rewrite !Forall_app in H1. rewrite !length_app in H2. rewrite !total_size_app in H3.
  pose proof (total_size_nonneg e). split_and!; [rewrite Forall_app; tauto|rewrite length_app; lia|].
  rewrite total_size_app. lia.
Qed.

Lemma encode_entries l :
  Forall entry_ok l → ∃ ks vs, res_map encode (VInt <$> l.*1) = Ok ks ∧ res_map encode_item (Val <$> l.*2) = Ok vs ∧
    len (concat ks) + len (concat vs) = total_size l.
Proof.
  induction 1 as [|[k v] l (Hk & _ & Hv) _ (ks & vs & Ek & Ev & L)]; [by exists [], []|].
  cbn [fst snd] in *. destruct (encode v) as [x|] eqn:Ex; [|done].
  cbn [fmap list_fmap res_map encode encode_item fst snd] in *. rewrite Ex, Ek, Ev.
  unfold pack_s. cbv zeta. change (width 8 / 2) with (2 ^ 63). assert ((- 2 ^ 63 <=? k) && (k <? 2 ^ 63) = true) as -> by lia.
  eexists _, _. split; [done|]. split; [done|]. cbn [concat]. unfold total_size in *. cbn [foldr].
  assert (entry_size (k, v) = 9 + len x) as -> by (unfold entry_size; cbn [snd]; by rewrite Ex).
  rewrite !length_app. cbn [length]. rewrite length_be_bytes. lia.
Qed.

Lemma pack_link o : link_ok o → pack_be_s 4 (link_num o) = Ok (be_bytes 4 (link_num o)).
Proof.
  destruct o as [[z tid]|]; unfold pack_s; cbv zeta; [|done]. intros [Hz _].
  change (width 4 / 2) with (2 ^ 31). cbn [link_num] in *. by if_true.
Qed.

Lemma node_bytes_entries r next l :
  Forall entry_ok l → len l < 2 ^ 32 → link_ok next →
  ∃ x, node_bytes (list_node r next l) = Ok x ∧ len x = 13 + total_size l.
Proof.
  intros H Hl Hn. destruct (encode_entries l H) as (ks & vs & Ek & Ev & L). unfold node_bytes, list_node.
  cbn [keys values is_leaf next_leaf prev_leaf]. change (width 4) with (2 ^ 32) in *.
  rewrite pack_u_ok by (rewrite !length_fmap; change (width 4) with (2 ^ 32); lia).
  cbn [mbind res_bind].
  rewrite (pack_link next Hn), (pack_link None I). cbn [mbind res_bind]. rewrite Ek. cbn [mbind res_bind]. rewrite Ev.
  cbn [mbind res_bind]. eexists. split; [done|]. lens.
Qed.

Lemma list_node_ok r next l : Forall entry_ok l → link_ok next → node_ok (list_node r next l).
Proof.
  intros H Hn. split; [| |done|done]; cbn.
  - apply Forall_fmap. by apply Forall_true.
  - exists l.*2. rewrite !length_fmap. split; [done|]. split; [|done]. apply Forall_fmap.
    eapply Forall_impl; [done|]. by intros [k v] (_ & ? & _).
Qed.

(** * The tree with one leaf *)

Definition at_leaf (psz : Z) (r : ref) (next : option PageId.t) s l : Prop :=
  ∃ id, root_page_id s = Some id ∧ wf (buffer_pool s) ∧ cached (buffer_pool s) id = Some r ∧
    page_sized (page s r) ∧ Page.page_size (page s r) = psz ∧
    deserialize r true (Page.data (page s r)) = Ok (list_node r next l).

Lemma quiet_at_leaf psz r next s s' l : quiet r s s' → at_leaf psz r next s l → at_leaf psz r next s' l.
Proof.
  intros Hq (id & H1 & H2 & H3 & H4 & H5 & H6). pose proof (quiet_sized _ _ _ Hq H4). destruct Hq as (T & E1 & E2).
  exists id. rewrite (to_root _ _ _ T), (to_cached _ _ _ T), E1, E2. split_and!; try done. by apply T.
Qed.

Lemma quiet_trans r s1 s2 s3 : quiet r s1 s2 → quiet r s2 s3 → quiet r s1 s3.
Proof. intros (T1 & ? & ?) (T2 & ? & ?). split; [by eapply touched_trans|]. split; congruence. Qed.

Variable fuel : nat.

Lemma root_node_touches psz r next s l :
  at_leaf psz r next s l → ∃ s', root_node s = Some (s', Ok (list_node r next l)) ∧ quiet r s s'.
Proof.
  intros (id & H1 & H2 & H3 & H4 & H5 & H6). destruct (get_node_touches id r _ s H2 H3 H6) as (s' & E & Hq).
  exists s'. split; [|done]. unfold root_node, r_bind, r_get. by rewrite H1.
Qed.

Lemma descend_leaf pick r next l s : descend fuel pick (list_node r next l) s = Some (s, Ok (list_node r next l)).
Proof. by destruct fuel. Qed.

Lemma find_leaf_touches key psz r next s l :
  at_leaf psz r next s l → ∃ s', find_leaf fuel key s = Some (s', Ok (list_node r next l)) ∧ quiet r s s'.
Proof.
  intros H. destruct (root_node_touches _ _ _ _ _ H) as (s' & E & Hq). exists s'. split; [|done].
  unfold find_leaf, r_bind. rewrite E. apply descend_leaf.
Qed.

Lemma outer_leaf_touches i psz r next s l :
  at_leaf psz r next s l → ∃ s', outer_leaf fuel i s = Some (s', Ok (list_node r next l)) ∧ quiet r s s'.
Proof.
  intros H. destruct (root_node_touches _ _ _ _ _ H) as (s' & E & Hq). exists s'. split; [|done].
  unfold outer_leaf, r_bind. rewrite E. apply descend_leaf.
Qed.

Lemma release_leaf n psz r next s l :
  at_leaf psz r next s l → n_page n = r → ∃ s', release_node n s = Some (s', Ok ()) ∧ quiet r s s'.
Proof. intros (id & _ & H2 & H3 & _) <-. by apply (release_touches id). Qed.

(** Writing other entries. *)
Lemma serialize_leaf psz r next next' s l l' :
  at_leaf psz r next s l → fits psz l' → link_ok next' →
  ∃ s', serialize (list_node r next' l') s = Some (s', Ok ()) ∧ touched r s s' ∧ at_leaf psz r next' s' l'.
Proof.
  intros (id & H1 & H2 & H3 & H4 & H5 & H6) (F1 & F2 & F3) Hn.
  destruct (node_bytes_entries r next' l' F1 F2 Hn) as (x & Ex & Lx).
  pose proof (serialize_spec (list_node r next' l') s H4) as Hs. rewrite Ex in Hs. cbn [n_page list_node] in Hs.
  rewrite H5 in Hs. assert ((psz <? Page.HEADER_SIZE + len x) = false) as E by lia. rewrite E in Hs.
  destruct Hs as (s' & Es & T & Hsz & Hps & h & rest & Hd & Hh). exists s'. split; [done|]. split; [done|].
  exists id. rewrite (to_root _ _ _ T), (to_cached _ _ _ T). split_and!; try done; [by apply T|].
  rewrite Hd. by apply (deserialize_node_bytes (list_node r next' l')); [by apply list_node_ok|..].
Qed.

(** ** Keys that are integers *)

Lemma key_lt_int a b : key_lt (VInt a) (VInt b) = Ok (a <? b).
Proof. done. Qed.
Lemma key_eq_int a b : key_eq (VInt a) (VInt b) = Ok (a =? b).
Proof. done. Qed.
Lemma key_le_int a b : key_le (VInt a) (VInt b) = Ok (a <=? b).
Proof. unfold key_le, compare_with. cbn. f_equal. lia. Qed.

#[local] Abbreviation vkeys l := (VInt <$> l.*1).
#[local] Abbreviation vals l := (Val <$> l.*2).

Lemma vkeys_app l1 l2 : vkeys (l1 ++ l2) = vkeys l1 ++ vkeys l2.
Proof. by rewrite !fmap_app. Qed.
Lemma vals_app l1 l2 : vals (l1 ++ l2) = vals l1 ++ vals l2.
Proof. by rewrite !fmap_app. Qed.
Lemma length_vkeys l : len (vkeys l) = len l.
Proof. by rewrite !length_fmap. Qed.
Lemma length_vkeys_nat l : length (vkeys l) = length l.
Proof. by rewrite !length_fmap. Qed.
Lemma length_vals l : len (vals l) = len l.
Proof. by rewrite !length_fmap. Qed.

Lemma Forall_vkeys (P : value → Prop) l : (∀ e, e ∈ l → P (VInt e.1)) → Forall P (vkeys l).
Proof.
  intros H. apply Forall_forall. intros x Hx.
  apply list_elem_of_fmap in Hx as (k & -> & Hk). apply list_elem_of_fmap in Hk as (e & -> & He). auto.
Qed.

Lemma put_entry_dict r next m k v :
  put_entry (VInt k) (Val v) (list_node r next (sorted_items m)) =
  Ok (list_node r next (sorted_items (<[k := v]> m)), bool_decide (m !! k = None)).
Proof.
  rewrite (items_around m k), items_insert. unfold at_key, put_entry, list_node.
  set (lo := below k _). set (hi := above k _). cbn [keys values].
  rewrite vkeys_app, vals_app, (count_while_app _ (vkeys lo)).
  - cbn [mbind res_bind]. rewrite length_vkeys. destruct (m !! k) as [v0|] eqn:E.
    + cbn [app fmap list_fmap fst snd]. rewrite length_app. cbn [length]. rewrite Nat2Z.inj_add, length_vkeys.
      if_true. rewrite <-(length_vkeys lo), py_get_app_mid. cbn [mbind res_bind]. rewrite key_eq_int, Z.eqb_refl.
      cbn [mbind res_bind]. rewrite length_vkeys, <-(length_vals lo).
      rewrite py_set_range by (rewrite length_app; cbn [length]; lia).
      rewrite Nat2Z.id, insert_app_r_alt, Nat.sub_diag by lia. cbn [list_insert mbind res_bind].
      rewrite bool_decide_eq_false_2 by done. unfold with_entries. cbn. by rewrite !fmap_app.
    + cbn [app]. rewrite bool_decide_eq_true_2 by done.
      assert ((if len lo <? len (vkeys lo ++ vkeys hi) then k0 ← py_get (vkeys lo ++ vkeys hi) (len lo); key_eq (VInt k) k0
               else Ok false) = Ok false) as ->.
      { destruct hi as [|[k1 v1] hi'] eqn:Ehi; [cbn [fmap list_fmap]; by rewrite app_nil_r, length_vkeys, Z.ltb_irrefl|].
        rewrite length_app, Nat2Z.inj_add, !length_vkeys. cbn [length]. if_true.
        rewrite <-(length_vkeys lo). cbn [fmap list_fmap fst]. rewrite py_get_app_mid. cbn [mbind res_bind].
        rewrite key_eq_int. f_equal. assert ((k1, v1) ∈ above k (sorted_items m)) as H by (unfold hi in Ehi; rewrite Ehi; left).
        apply list_elem_of_filter in H as [H _]. cbn in H. lia. }
      cbn [mbind res_bind]. unfold with_entries. cbn [n_page is_leaf next_leaf prev_leaf parent].
      rewrite <-(length_vkeys lo) at 1. rewrite insert_at_app. rewrite <-(length_vals lo), insert_at_app.
      cbn. by rewrite !fmap_app.
  - apply Forall_vkeys. intros e [He _]%list_elem_of_filter. rewrite key_lt_int. f_equal. lia.
  - destruct (m !! k) as [v0|]; [cbn; f_equal; lia|]. destruct hi as [|[k1 v1] hi'] eqn:Ehi; [done|]. cbn.
    assert ((k1, v1) ∈ above k (sorted_items m)) as H by (unfold hi in Ehi; rewrite Ehi; left).
    apply list_elem_of_filter in H as [H _]. cbn in H. f_equal. lia.
Qed.

(** Looking for a key. *)
Lemma find_key_dict m k :
  find_first (same_key (VInt k)) (vkeys (sorted_items m)) =
  Ok (match m !! k with Some _ => Some (len (below k (sorted_items m))) | None => None end).
Proof.
  assert (∀ e : Z * value, e.1 ≠ k → same_key (VInt k) (VInt e.1) = Ok false) as Hne.
  { intros e He. unfold same_key. rewrite key_eq_int. f_equal. lia. }
  rewrite (items_around m k) at 1. unfold at_key. destruct (m !! k) as [v0|] eqn:E.
  - rewrite vkeys_app. cbn [app fmap list_fmap fst]. rewrite find_first_app.
    + by rewrite length_vkeys.
    + apply Forall_vkeys. intros e [He _]%list_elem_of_filter. apply Hne. lia.
    + unfold same_key. by rewrite key_eq_int, Z.eqb_refl.
  - apply find_first_none, Forall_vkeys. intros e He. apply Hne. cbn [app] in He.
    apply elem_of_app in He as [He|He]; apply list_elem_of_filter in He as [He _]; lia.
Qed.

Lemma get_value_dict m k v : m !! k = Some v →
  py_get (vals (sorted_items m)) (len (below k (sorted_items m))) = Ok (Val v).
Proof.
  intros E. rewrite (items_around m k) at 1. unfold at_key. rewrite E, vals_app. cbn [app fmap list_fmap snd].
  rewrite <-(length_vals (below k (sorted_items m))). apply py_get_app_mid.
Qed.

Lemma pop_dict m k v : m !! k = Some v →
  let i := len (below k (sorted_items m)) in
  pop_at i (vkeys (sorted_items m)) = Ok (vkeys (sorted_items (base.delete k m))) ∧
  pop_at i (vals (sorted_items m)) = Ok (vals (sorted_items (base.delete k m))).
Proof.
  intros E i. rewrite items_delete. subst i. pose proof (items_around m k) as Hl.
  set (lo := below k _) in *. set (hi := above k _) in *. rewrite Hl.
  unfold at_key. rewrite E. rewrite !vkeys_app, !vals_app. cbn [app fmap list_fmap fst snd]. split.
  - rewrite <-(length_vkeys lo). apply pop_at_app.
  - rewrite <-(length_vals lo). apply pop_at_app.
Qed.

(** * The tree and the dictionary *)

Inductive op :=
  | Insert (k : Z) (v : value)
  | Delete (k : Z)
  | Search (k : Z)
  | ScanAll
  | RangeScan (a : Z) (b : option Z)
  | MinKey
  | MaxKey.
Inductive output := Done | Deleted (b : bool) | Found (v : value) | Scanned (l : list (value * value)).

Definition optional_key (b : option Z) : value := match b with Some z => VInt z | None => VNone end.
Definition r_map {A B} (f : A → B) (x : run A) : run B := let* a := x in r_ret (f a).
Definition run_op (o : op) : run output :=
  match o with
  | Insert k v => r_map (λ _, Done) (insert fuel (VInt k) v)
  | Delete k => r_map Deleted (delete fuel (VInt k))
  | Search k => r_map Found (search fuel (VInt k))
  | ScanAll => r_map Scanned (scan_all fuel)
  | RangeScan a b => r_map Scanned (range_scan fuel (VInt a) (optional_key b))
  | MinKey => r_map Found (get_min_key fuel)
  | MaxKey => r_map Found (get_max_key fuel)
  end.
Fixpoint run_ops (l : list op) : run (list output) :=
  match l with
  | [] => r_ret []
  | o :: l' => let* x := run_op o in let* xs := run_ops l' in r_ret (x :: xs)
  end.

Definition spec_map (o : op) m : gmap Z value :=
  match o with Insert k v => <[k := v]> m | Delete k => base.delete k m | _ => m end.
Definition items m : list (value * value) := (λ e, (VInt e.1, e.2)) <$> sorted_items m.
Definition between (a : Z) (b : option Z) (e : Z * value) : Prop :=
  a <= e.1 ∧ match b with Some z => e.1 < z | None => True end.
#[global] Instance between_dec a b e : Decision (between a b e).
Proof. unfold between. destruct b; apply _. Defined.
Definition outer (o : option (Z * value)) : value := match o with Some e => VInt e.1 | None => VNone end.
Definition spec_output (o : op) m : output :=
  match o with
  | Insert _ _ => Done
  | Delete k => Deleted (bool_decide (is_Some (m !! k)))
  | Search k => Found (default VNone (m !! k))
  | ScanAll => Scanned (items m)
  | RangeScan a b => Scanned (items (filter (between a b) m))
  | MinKey => Found (outer (head (sorted_items m)))
  | MaxKey => Found (outer (last (sorted_items m)))
  end.
Fixpoint spec_ops (l : list op) m : gmap Z value * list output :=
  match l with
  | [] => (m, [])
  | o :: l' => let '(m', xs) := spec_ops l' (spec_map o m) in (m', spec_output o m :: xs)
  end.

(** An insertion leaves the leaf with fewer than [2 * order] entries, which fit in the page. *)
Definition admissible (ord psz : Z) (o : op) m : Prop :=
  match o with
  | Insert k v => let m' := <[k := v]> m in len (sorted_items m') < 2 * ord ∧ fits psz (sorted_items m')
  | _ => True
  end.
Fixpoint all_admissible (ord psz : Z) (l : list op) m : Prop :=
  match l with
  | [] => True
  | o :: l' => admissible ord psz o m ∧ all_admissible ord psz l' (spec_map o m)
  end.

Definition holds (psz : Z) (r : ref) (next : option PageId.t) s m : Prop :=
  at_leaf psz r next s (sorted_items m) ∧ fits psz (sorted_items m) ∧ link_ok next.

(** One operation: its output, the new dictionary, and the rest of the tree. *)
Definition step_ok (psz : Z) (r : ref) (next : option PageId.t) s m (o : op) (s' : BTree.t) : Prop :=
  run_op o s = Some (s', Ok (spec_output o m)) ∧ holds psz r next s' (spec_map o m) ∧ order s' = order s ∧
  tree_size s' - tree_size s = len (sorted_items (spec_map o m)) - len (sorted_items m).

Lemma quiet_holds psz r next s s' m : quiet r s s' → holds psz r next s m → holds psz r next s' m.
Proof. intros Hq (H & ?). split; [by eapply quiet_at_leaf|done]. Qed.

Lemma quiet_step psz r next s s' m o : spec_map o m = m → holds psz r next s m → quiet r s s' →
  run_op o s = Some (s', Ok (spec_output o m)) → step_ok psz r next s m o s'.
Proof.
  intros Em Hh Hq E. split; [done|]. rewrite Em. split; [by eapply quiet_holds|]. destruct Hq as (T & _).
  rewrite (to_order _ _ _ T), (to_tree_size _ _ _ T). split; [done|lia].
Qed.

(** ** Reading *)

Lemma r_bind_ok {A B} (m : run A) (k : A → run B) s s' a : m s = Some (s', Ok a) → r_bind m k s = k a s'.
Proof. intros E. unfold r_bind. by rewrite E. Qed.

Lemma r_bind_modify {B} f (k : () → run B) s : r_bind (r_modify f) k s = k () (f s).
Proof. done. Qed.
Lemma r_bind_lift {A B} (a : A) (k : A → run B) s : r_bind (r_lift (Ok a)) k s = k a s.
Proof. done. Qed.
Lemma r_bind_get {B} (k : BTree.t → run B) s : r_bind r_get k s = k s s.
Proof. done. Qed.

Lemma r_map_ok {A B} (f : A → B) (m : run A) s s' a : m s = Some (s', Ok a) → r_map f m s = Some (s', Ok (f a)).
Proof. intros E. unfold r_map. by rewrite (r_bind_ok _ _ _ _ _ E). Qed.

Lemma search_step psz r next s m k : holds psz r next s m → ∃ s', step_ok psz r next s m (Search k) s'.
Proof.
  intros Hh. pose proof Hh as (Ha & _). destruct (find_leaf_touches (VInt k) _ _ _ _ _ Ha) as (s1 & E1 & Q1).
  pose proof (quiet_at_leaf _ _ _ _ _ _ Q1 Ha) as Ha1.
  destruct (release_leaf (list_node r next (sorted_items m)) _ _ _ _ _ Ha1 eq_refl) as (s2 & E2 & Q2).
  pose proof (quiet_trans _ _ _ _ Q1 Q2) as Q.
  exists s2. apply quiet_step; [done..|]. cbn [run_op spec_output]. apply r_map_ok.
  unfold search. rewrite r_bind_get. destruct Ha as (id & -> & _).
  rewrite (r_bind_ok _ _ _ _ _ E1). cbn [keys list_node]. rewrite (find_key_dict m k), r_bind_lift.
  destruct (m !! k) as [v|] eqn:E.
  - cbn [values list_node]. rewrite (get_value_dict m k v E), r_bind_lift.
    by rewrite (r_bind_ok _ _ _ _ _ E2).
  - by rewrite (r_bind_ok _ _ _ _ _ E2).
Qed.

Lemma entries_list_node r next l : entries (list_node r next l) = Ok (zip (vkeys l) (vals l)).
Proof. unfold entries, list_node. cbn [keys values]. by rewrite length_vkeys, length_vals, Z.ltb_irrefl. Qed.

Lemma scan_leaf_all l :
  scan_leaf (λ _, Ok (Some true)) (zip (vkeys l) (vals l)) = Ok ((λ e, (VInt e.1, e.2)) <$> l, false).
Proof. induction l as [|[k v] l IH]; [done|]. cbn in *. by rewrite IH. Qed.

Lemma in_range_int a b k :
  in_range (VInt a) (optional_key b) (VInt k) =
  Ok (if a <=? k then match b with Some z => if z <=? k then None else Some true | None => Some true end else Some false).
Proof.
  unfold in_range. rewrite key_le_int. cbn [mbind res_bind]. destruct (a <=? k); [|done].
  destruct b as [z|]; [|done]. cbn [optional_key]. rewrite key_le_int. by destruct (z <=? k).
Qed.

Lemma scan_leaf_range a b l : increasing l →
  ∃ stop, scan_leaf (in_range (VInt a) (optional_key b)) (zip (vkeys l) (vals l)) =
    Ok ((λ e, (VInt e.1, e.2)) <$> filter (between a b) l, stop).
Proof.
  induction 1 as [|[k v] l Hl IH Hk]; [by exists false|]. destruct IH as [stop IH].
  cbn [fmap list_fmap zip zip_with scan_leaf fst snd]. rewrite in_range_int. cbn [mbind res_bind].
  rewrite filter_cons. unfold between at 2. cbn [fst].
  destruct (Z.leb_spec a k); [destruct b as [z|]; [destruct (Z.leb_spec z k)|]|].
  - exists true. rewrite decide_False by lia.
    assert (filter (between a (Some z)) l = []) as ->; [|done].
    apply elem_of_nil_inv. intros e [[_ He] Hin]%list_elem_of_filter. rewrite Forall_forall in Hk.
    apply Hk in Hin. cbn in *. lia.
  - exists stop. rewrite IH. by rewrite decide_True by lia.
  - exists stop. rewrite IH. by rewrite decide_True by lia.
  - exists stop. rewrite IH. by rewrite decide_False by lia.
Qed.

(** A scan of the only leaf. *)
Lemma scan_step psz r s m o find keep (out : list (value * value)) stop :
  holds psz r None s m → spec_map o m = m → spec_output o m = Scanned out →
  (∀ s, at_leaf psz r None s (sorted_items m) →
     ∃ s', find s = Some (s', Ok (list_node r None (sorted_items m))) ∧ quiet r s s') →
  run_op o s = r_map Scanned (let* leaf := find in scan_leaves fuel keep leaf) s →
  scan_leaf keep (zip (vkeys (sorted_items m)) (vals (sorted_items m))) = Ok (out, stop) →
  ∃ s', step_ok psz r None s m o s'.
Proof.
  intros Hh Em Eo Hf Er Es. pose proof Hh as (Ha & _). destruct (Hf s Ha) as (s1 & E1 & Q1).
  pose proof (quiet_at_leaf _ _ _ _ _ _ Q1 Ha) as Ha1.
  destruct (release_leaf (list_node r None (sorted_items m)) _ _ _ _ _ Ha1 eq_refl) as (s2 & E2 & Q2).
  pose proof (quiet_trans _ _ _ _ Q1 Q2) as Q.
  exists s2. apply quiet_step; [done..|]. rewrite Er, Eo. apply r_map_ok.
  rewrite (r_bind_ok _ _ _ _ _ E1).
  assert (scan_own keep (list_node r None (sorted_items m)) s1 = Some (s2, Ok (out, stop))) as H.
  { unfold scan_own. rewrite entries_list_node, r_bind_lift, Es, r_bind_lift.
    by rewrite (r_bind_ok _ _ _ _ _ E2). }
  destruct fuel; cbn [scan_leaves]; rewrite (r_bind_ok _ _ _ _ _ H); by destruct stop.
Qed.

Lemma scan_all_step psz r s m : holds psz r None s m → ∃ s', step_ok psz r None s m ScanAll s'.
Proof.
  intros Hh. pose proof Hh as ((id & Hroot & _) & _).
  apply (scan_step psz r s m ScanAll (outer_leaf fuel 0) (λ _, Ok (Some true)) (items m) false); try done.
  - intros s0. apply outer_leaf_touches.
  - unfold run_op, r_map, scan_all, r_bind, r_get. by rewrite Hroot.
  - apply scan_leaf_all.
Qed.

Lemma range_scan_step psz r s m a b : holds psz r None s m → ∃ s', step_ok psz r None s m (RangeScan a b) s'.
Proof.
  intros Hh. pose proof Hh as ((id & Hroot & _) & _).
  destruct (scan_leaf_range a b (sorted_items m) (sorted_items_increasing m)) as [stop Es].
  apply (scan_step psz r s m (RangeScan a b) (find_leaf fuel (VInt a)) (in_range (VInt a) (optional_key b))
           (items (filter (between a b) m)) stop); try done.
  - intros s0. apply find_leaf_touches.
  - unfold run_op, r_map, range_scan, r_bind, r_get. by rewrite Hroot.
  - rewrite Es. unfold items. by rewrite sorted_items_filter.
Qed.

Lemma outer_key_step psz r next s m (i : Z) (o : option (Z * value)) :
  holds psz r next s m →
  (if bool_decide (len (vkeys (sorted_items m)) = 0) then Ok VNone else py_get (vkeys (sorted_items m)) i) = Ok (outer o) →
  ∃ s', outer_key fuel i s = Some (s', Ok (outer o)) ∧ quiet r s s'.
Proof.
  intros Hh Ek. pose proof Hh as (Ha & _). destruct (outer_leaf_touches i _ _ _ _ _ Ha) as (s1 & E1 & Q1).
  pose proof (quiet_at_leaf _ _ _ _ _ _ Q1 Ha) as Ha1.
  destruct (release_leaf (list_node r next (sorted_items m)) _ _ _ _ _ Ha1 eq_refl) as (s2 & E2 & Q2).
  exists s2. split; [|by eapply quiet_trans]. destruct Ha as (id & Hroot & _).
  unfold outer_key. rewrite r_bind_get. rewrite Hroot, (r_bind_ok _ _ _ _ _ E1).
  cbn [keys list_node]. rewrite Ek, r_bind_lift. by rewrite (r_bind_ok _ _ _ _ _ E2).
Qed.

Lemma min_key_step psz r next s m : holds psz r next s m → ∃ s', step_ok psz r next s m MinKey s'.
Proof.
  intros Hh. destruct (outer_key_step psz r next s m 0 (head (sorted_items m)) Hh) as (s' & E & Q).
  - by destruct (sorted_items m) as [|[k v] l].
  - exists s'. apply quiet_step; try done. cbn [run_op spec_output]. by apply r_map_ok.
Qed.

Lemma max_key_step psz r next s m : holds psz r next s m → ∃ s', step_ok psz r next s m MaxKey s'.
Proof.
  intros Hh. destruct (outer_key_step psz r next s m (-1) (last (sorted_items m)) Hh) as (s' & E & Q).
  - destruct (sorted_items m) as [|e l _] using rev_ind; [done|]. rewrite last_snoc. cbn [outer].
    rewrite length_vkeys, length_app. cbn [length]. rewrite bool_decide_eq_false_2 by lia.
    unfold py_get, py_index. rewrite vkeys_app. cbn [fmap list_fmap]. rewrite length_app, length_vkeys_nat.
    change (-1 <? 0) with true. cbv iota. cbn [length]. rewrite (proj2 (Z.ltb_ge _ 0)) by lia.
    replace (Z.to_nat _) with (length (vkeys l)) by (rewrite length_vkeys_nat; lia).
    by rewrite lookup_app_r, Nat.sub_diag by lia.
  - exists s'. apply quiet_step; try done. cbn [run_op spec_output]. by apply r_map_ok.
Qed.

(** ** Writing *)

Lemma delete_step psz r next s m k : holds psz r next s m → ∃ s', step_ok psz r next s m (Delete k) s'.
Proof.
  intros Hh. pose proof Hh as (Ha & Hfits & Hn). destruct (find_leaf_touches (VInt k) _ _ _ _ _ Ha) as (s1 & E1 & Q1).
  pose proof (quiet_at_leaf _ _ _ _ _ _ Q1 Ha) as Ha1. pose proof (find_key_dict m k) as Ef.
  destruct (m !! k) as [v|] eqn:E.
  - destruct (pop_dict m k v E) as [Ek Ev]. set (m' := base.delete k m) in *.
    assert (fits psz (sorted_items m')) as Hf'.
    { unfold m'. rewrite items_delete. apply (fits_remove _ _ (at_key m k)). by rewrite <-items_around. }
    destruct (serialize_leaf psz r next next s1 _ (sorted_items m') Ha1 Hf' Hn) as (s2 & E2 & T2 & Ha2).
    set (s3 := with_size (tree_size s2 - 1) s2). assert (at_leaf psz r next s3 (sorted_items m')) as Ha3 by exact Ha2.
    destruct (release_leaf (list_node r next (sorted_items m')) _ _ _ _ _ Ha3 eq_refl) as (s4 & E4 & Q4).
    exists s4. split; [|split; [split; [by eapply quiet_at_leaf|done]|]].
    + cbn [run_op spec_output]. rewrite E, bool_decide_eq_true_2 by eauto. apply r_map_ok.
      unfold delete. rewrite r_bind_get. destruct Ha as (id & -> & _).
      rewrite (r_bind_ok _ _ _ _ _ E1). cbn [keys list_node values]. rewrite Ef, r_bind_lift.
      rewrite Ek, r_bind_lift, Ev, r_bind_lift.
      change (with_entries _ _ _) with (list_node r next (sorted_items m')).
      rewrite (r_bind_ok _ _ _ _ _ E2), r_bind_modify. fold s3.
      rewrite (r_bind_ok _ _ _ _ _ E4).
      unfold handle_underflow, r_bind, r_get, r_ret, shrink_root. cbn [parent list_node is_leaf negb andb].
      by destruct (is_underflow _ _).
    + destruct Q1 as (T1 & _), Q4 as (T4 & _). rewrite (to_order _ _ _ T4), (to_tree_size _ _ _ T4). cbn [s3 with_size order tree_size].
      rewrite (to_order _ _ _ T2), (to_order _ _ _ T1), (to_tree_size _ _ _ T2), (to_tree_size _ _ _ T1). split; [done|].
      cbn [spec_map]. fold m'. rewrite !length_items. unfold m'. rewrite map_size_delete_Some by eauto.
      assert (base.size m ≠ 0%nat) by (intros H0%map_size_empty_inv; by subst m). lia.
  - destruct (release_leaf (list_node r next (sorted_items m)) _ _ _ _ _ Ha1 eq_refl) as (s2 & E2 & Q2).
    exists s2. apply quiet_step; [by apply delete_id|done|by eapply quiet_trans|]. cbn [run_op spec_output].
    rewrite E, bool_decide_eq_false_2 by (intros [? ?]; done). apply r_map_ok.
    unfold delete. rewrite r_bind_get. destruct Ha as (id & -> & _).
    rewrite (r_bind_ok _ _ _ _ _ E1). cbn [keys list_node values]. rewrite Ef, r_bind_lift.
    by rewrite (r_bind_ok _ _ _ _ _ E2).
Qed.

Lemma touched_size n r s s' : touched r s s' → touched r (with_size n s) (with_size n s').
Proof. intros []. by split. Qed.

(** An insertion up to the split. *)
Lemma insert_writes psz r next s m k v :
  let m' := <[k := v]> m in
  at_leaf psz r next s (sorted_items m) → fits psz (sorted_items m') → link_ok next →
  ∃ s', insert fuel (VInt k) v s =
      (if 2 * order s <=? len (sorted_items m') then split_leaf fuel (list_node r next (sorted_items m')) s' else Some (s', Ok ())) ∧
    at_leaf psz r next s' (sorted_items m') ∧
    touched r (with_size (tree_size s + (if bool_decide (m !! k = None) then 1 else 0)) s) s'.
Proof.
  intros m' Ha Hf Hn. destruct (find_leaf_touches (VInt k) _ _ _ _ _ Ha) as (s1 & E1 & Q1).
  pose proof (quiet_at_leaf _ _ _ _ _ _ Q1 Ha) as Ha1. destruct Q1 as (T1 & _).
  set (d := if bool_decide (m !! k = None) then 1 else 0).
  assert (∃ s2, (if bool_decide (m !! k = None) then r_modify (λ s, with_size (tree_size s + 1) s) else r_ret ()) s1 = Some (s2, Ok ()) ∧
    at_leaf psz r next s2 (sorted_items m) ∧ touched r (with_size (tree_size s + d) s) s2) as (s2 & E2 & Ha2 & T2).
  { exists (with_size (tree_size s + d) s1). split; [|split; [exact Ha1|by apply touched_size]].
    rewrite <-(to_tree_size _ _ _ T1). subst d. case_bool_decide; [done|]. rewrite Z.add_0_r. by destruct s1. }
  destruct (serialize_leaf psz r next next s2 _ (sorted_items m') Ha2 Hf Hn) as (s3 & E3 & T3 & Ha3).
  destruct (release_leaf (list_node r next (sorted_items m')) _ _ _ _ _ Ha3 eq_refl) as (s4 & E4 & Q4).
  exists s4. split; [|split; [by eapply quiet_at_leaf|]].
  - unfold insert. rewrite r_bind_get. destruct Ha as (id & -> & _). rewrite (r_bind_ok _ _ s s () eq_refl).
    rewrite (r_bind_ok _ _ _ _ _ E1), (put_entry_dict r next m k v), r_bind_lift. cbv iota beta.
    rewrite (r_bind_ok _ _ _ _ _ E2), (r_bind_ok _ _ _ _ _ E3), (r_bind_ok _ _ _ _ _ E4), r_bind_get.
    destruct Q4 as (T4 & _). rewrite (to_order _ _ _ T4), (to_order _ _ _ T3), (to_order _ _ _ T2).
    unfold is_full. cbn [keys list_node order with_size]. rewrite length_vkeys. fold m'. by destruct (_ <=? _).
  - eapply touched_trans; [exact T2|]. eapply touched_trans; [exact T3|]. by destruct Q4.
Qed.

Lemma insert_step psz r next s m k v :
  holds psz r next s m → admissible (order s) psz (Insert k v) m → ∃ s', step_ok psz r next s m (Insert k v) s'.
Proof.
  intros (Ha & _ & Hn) [Hl Hf]. destruct (insert_writes psz r next s m k v Ha Hf Hn) as (s' & E & Ha' & T).
  exists s'. split; [|split; [done|]].
  - cbn [run_op spec_output]. apply (r_map_ok (λ _, Done) _ _ _ ()). rewrite E. by rewrite (proj2 (Z.leb_gt _ _)) by lia.
  - rewrite (to_order _ _ _ T), (to_tree_size _ _ _ T). cbn [order with_size tree_size spec_map]. split; [done|].
    rewrite !length_items. case_bool_decide as E'.
    + rewrite map_size_insert_None by done. lia.
    + destruct (m !! k) eqn:Ek; [|done]. rewrite (map_size_insert_Some k) by eauto. lia.
Qed.

(** C13: A B+ tree opened on a root page that holds one leaf is a dictionary, as long as the
    leaf is not full. The constructor never writes such a page: the root it makes itself is read
    back as an internal node, so this speaks of trees opened by the number of a page written
    before. The page is in the buffer pool, has the size it says, and is decoded to a leaf
    without links, whose entries are those of a finite map. For every sequence of insertions,
    deletions, searches, scans and bounds that, after each insertion, leaves fewer than
    [2 * order] entries and no more than fit in the page, with integer keys of 64 bits and values
    that the serializer encodes and reads back as themselves, no operation raises, the
    operations give what they give on the map, the page is decoded to the entries of the new
    map, and the size of the tree changes as the size of the map. *)
Theorem btree_refines_map psz r ops s m :
  holds psz r None s m → all_admissible (order s) psz ops m →
  let '(m', out) := spec_ops ops m in
  ∃ s', run_ops ops s = Some (s', Ok out) ∧ holds psz r None s' m' ∧
    tree_size s' - tree_size s = len (sorted_items m') - len (sorted_items m).
Proof.
  revert s m. induction ops as [|o ops IH]; intros s m Hh Hadm; cbn [spec_ops].
  { exists s. split; [done|]. split; [done|lia]. }
  destruct Hadm as [Ho Hadm].
  assert (∃ s1, step_ok psz r None s m o s1) as (s1 & E1 & Hh1 & Eo & Es).
  { destruct o; [by apply insert_step|by apply delete_step|by apply search_step|by apply scan_all_step|
      by apply range_scan_step|by apply min_key_step|by apply max_key_step]. }
  rewrite <-Eo in Hadm. specialize (IH s1 _ Hh1 Hadm). destruct (spec_ops ops (spec_map o m)) as [m' out].
  destruct IH as (s' & E' & Hh' & Es'). exists s'. split; [|split; [done|lia]].
  cbn [run_ops]. rewrite (r_bind_ok _ _ _ _ _ E1). by rewrite (r_bind_ok _ _ _ _ _ E').
Qed.
End Leaf.

(** * Witness *)

#[local] Existing Instance plain_runtime.
#[local] Existing Instance plain_keys.

(** The tree whose root page holds a leaf with these entries. *)
Definition leaf_bytes (l : list (Z * value)) : bytes :=
  match node_bytes (list_node 1 None l) with Ok x => x | Err _ => [] end.
Definition leaf_tree (ord : Z) (l : list (Z * value)) : BTree.t := tree_with ord (leaf_bytes l).

(** Insertions out of order, a search, scans, a deletion and the bounds. *)
Definition ops_example : list op :=
  [Insert 5 (VStr [97]); Insert 3 (VInt 30); Insert 5 (VBool true); Insert 9 VNone; Search 5; Search 4; ScanAll;
   RangeScan 4 (Some 9); Delete 3; Delete 3; MinKey; MaxKey].

(** The conditions, decided for the entries of the example. *)
Definition plain_entry (e : Z * value) : bool :=
  (- 2 ^ 63 <=? e.1) && (e.1 <? 2 ^ 63) && is_ok (encode e.2) &&
  match e.2 with
  | VNone | VBool _ | VInt _ => true
  | VStr s => forallb (λ c, (0 <=? c) && (c <? 1114112)) s
  | _ => false
  end.
Definition fitsb (psz : Z) (l : list (Z * value)) : bool :=
  forallb plain_entry l && (len l <? 2 ^ 32) && (Page.HEADER_SIZE + 13 + total_size l <=? psz).
Fixpoint all_admissibleb (ord psz : Z) (l : list op) (m : gmap Z value) : bool :=
  match l with
  | [] => true
  | o :: l' =>
      match o with
      | Insert k v => let es := sorted_items (<[k := v]> m) in (len es <? 2 * ord) && fitsb psz es
      | _ => true
      end && all_admissibleb ord psz l' (spec_map o m)
  end.

Lemma plain_entry_ok e : plain_entry e = true → entry_ok e.
Proof.
  unfold plain_entry, entry_ok. rewrite !andb_true_iff. intros [[[? ?] ?] Hv]. split; [lia|]. split; [|done].
  destruct (e.2) as [| | | |s| | | | |]; try done. cbn [faithful]. apply Forall_forall. intros c Hc.
  rewrite forallb_forall in Hv. specialize (Hv c (proj1 (list_elem_of_In _ _) Hc)). lia.
Qed.
Lemma fitsb_ok psz l : fitsb psz l = true → fits psz l.
Proof.
  unfold fitsb, fits. rewrite !andb_true_iff. intros [[H ?] ?]. split; [|lia].
  apply Forall_forall. intros e He. apply plain_entry_ok. rewrite forallb_forall in H. by apply H, list_elem_of_In.
Qed.
Lemma all_admissibleb_ok ord psz l m : all_admissibleb ord psz l m = true → all_admissible ord psz l m.
Proof.
  revert m. induction l as [|o l IH]; intros m; [done|]. cbn [all_admissibleb all_admissible].
  rewrite andb_true_iff. intros [Ho Hl]. split; [|by apply IH]. destruct o; cbn [admissible]; try done.
  rewrite andb_true_iff in Ho. destruct Ho. split; [lia|by apply fitsb_ok].
Qed.

Lemma ops_example_admissible : all_admissible 2 128 ops_example ∅.
Proof. apply all_admissibleb_ok. vm_compute. reflexivity. Qed.

Lemma leaf_tree_holds : holds 128 1 None (leaf_tree 2 []) ∅.
Proof.
  split; [|split; [by apply fitsb_ok|exact I]]. exists root_id. split; [reflexivity|].
  split; [apply pool_with_wf|]. split; [vm_compute; reflexivity|]. split; [split; vm_compute; easy|].
  split; vm_compute; reflexivity.
Qed.

Lemma btree_refines_map_witness :
  let '(m', out) := spec_ops ops_example ∅ in
  ∃ s', run_ops 3 ops_example (leaf_tree 2 []) = Some (s', Ok out) ∧ holds 128 1 None s' m' ∧
    tree_size s' - tree_size (leaf_tree 2 []) = len (sorted_items m') - len (sorted_items (∅ : gmap Z value)).
Proof.
  apply (btree_refines_map 3 128 1 ops_example (leaf_tree 2 []) ∅); [exact leaf_tree_holds|exact ops_example_admissible].
Defined.

Example ops_example_outputs :
  (spec_ops ops_example ∅).2 =
  [Done; Done; Done; Done; Found (VBool true); Found VNone;
   Scanned [(VInt 3, VInt 30); (VInt 5, VBool true); (VInt 9, VNone)]; Scanned [(VInt 5, VBool true)];
   Deleted true; Deleted false; Found (VInt 5); Found (VInt 9)].
Proof. vm_compute. reflexivity. Qed.
