(* ===== verification/BTreeSplit.v ===== *)
(** Where the B+ tree stops being one: a page that was just made is read as an internal
    node, so the first split of a leaf fails half way and a new tree has no leaf. *)

From stdpp Require Import functions.
From S2P Require Import Prelude Bytes Utf8 Page Buffer Serializer SortedMap BTree BTreeNode BTreeLeaf.
Import Serializer BufferPool BTree.

Section Split.
Context `{OK : OtherKeys}.
Implicit Types (s : BTree.t) (m : gmap Z value).
Variable fuel : nat.

(** * New pages *)

(** The node that [BTreeNode] makes of a new page, whatever kind it is asked for. *)
Definition fresh_node (r : ref) : node :=
  mk_node r false [] [Child (PageId.mk 0 0)] (Some (PageId.mk 0 0)) (Some (PageId.mk 0 0)) None.

Lemma deserialize_zeros r leaf h k :
  len h = Page.HEADER_SIZE → 17 <= Z.of_nat k → deserialize r leaf (h ++ replicate k 0) = Ok (fresh_node r).
Proof.
  intros Hh Hk. unfold deserialize, Page.HEADER_SIZE in *.
  assert (replicate k 0 = 0 :: be_bytes 4 0 ++ be_bytes 4 0 ++ be_bytes 4 0 ++ be_bytes 4 0 ++ replicate (k - 17) 0) as ->.
  { replace k with (17 + (k - 17))%nat at 1 by lia. by rewrite replicate_add. }
  set (z := replicate _ 0). set (b := be_bytes 4 0). set (d := h ++ _). assert (length b = 4%nat) as Lb by done.
  assert ((len d <? 24 + 5) = false) as -> by (unfold d; rewrite length_app; cbn [length]; rewrite !length_app; lia).
  assert (py_get d 24 = Ok 0) as -> by (rewrite <-Hh; apply py_get_app_mid). cbn [mbind res_bind].
  rewrite (unpack_be_from_at d 4 (h ++ [0]) 0 (b ++ b ++ b ++ z)) by (unfold d; apps || done || lens). cbn [mbind res_bind].
  unfold read_link.
  rewrite (unpack_be_s_from_at d 4 (h ++ 0 :: b) 0 (b ++ b ++ z) (24 + 5)) by (unfold d; apps || done || lens).
  rewrite (unpack_be_s_from_at d 4 (h ++ 0 :: b ++ b) 0 (b ++ z) (24 + 9)) by (unfold d; apps || done || lens).
  change (Z.to_nat 0) with 0%nat. cbn [mbind res_bind read_keys fst snd length read_children].
  rewrite (unpack_be_s_from_at d 4 (h ++ 0 :: b ++ b ++ b) 0 z (24 + 13)) by (unfold d; apps || done || lens).
  done.
Qed.

(** A new page object is not one the pool has. *)
Lemma fresh_heap_wf p r q : wf p → (∀ i, ¬ occupied p i r) → wf (with_heap p (<[r := q]> (heap p))).
Proof.
  intros [h1 h2 h3 h4 h5 h6] Hr. split; try done. intros id i. cbn [page_ids heap with_heap]. rewrite h5.
  split; intros (r' & Ho & <-); exists r'.
  - split; [done|]. rewrite fn_lookup_insert_ne; [done|]. intros ->. by apply (Hr i).
  - split; [done|]. rewrite fn_lookup_insert_ne; [done|]. intros ->. by apply (Hr i).
Qed.

(** There is room for the next page, which is new. *)
Record room s : Prop := {
  rm_wf : wf (buffer_pool s);
  rm_size : BufferPool.size (buffer_pool s) < capacity (buffer_pool s);
  rm_count : -1 <= page_count s < 2 ^ 31 - 1;
  rm_id : page_ids (buffer_pool s) !! PageId.mk (page_count s + 1) 0 = None;
  rm_ref : ∀ i, ¬ occupied (buffer_pool s) i (next_ref s);
}.

Lemma init_page num ty : 0 <= num < 2 ^ 32 → ∃ p, Page.init (PageId.mk num 0) ty DEFAULT_PAGE_SIZE = Ok p ∧
  Page.page_id p = PageId.mk num 0 ∧ page_sized p ∧ Page.page_size p = DEFAULT_PAGE_SIZE ∧
  ∃ h k, Page.data p = h ++ replicate k 0 ∧ len h = Page.HEADER_SIZE ∧ 17 <= Z.of_nat k.
Proof.
  intros Hn. unfold Page.init, DEFAULT_PAGE_SIZE. cbn [Z.ltb Z.compare].
  set (p0 := {| Page.page_id := _ |}). assert (header_ok p0) as Hok
    by (split; cbn [p0 Page.page_id Page.free_offset Page.flags Page.version PageId.page_num PageId.table_id]; unfold Page.HEADER_SIZE; lia).
  assert (Page.data p0 = replicate 24 0 ++ replicate (Z.to_nat 8168) 0) as Ed
    by (rewrite <-replicate_add; cbn [p0 Page.data]; unfold py_repeat; f_equal; lia).
  assert (len (Page.data p0) = 8192) as Ld by (rewrite Ed, length_app, !length_replicate; lia).
  rewrite write_header_ok; [|exact Hok|lia]. cbn [mbind res_bind]. eexists. split; [done|]. cbn [Page.page_id Page.page_size Page.with_data].
  split; [done|]. assert (py_slice_set (Page.data p0) 0 20 (header_bytes p0) =
    (header_bytes p0 ++ replicate 4 0) ++ replicate (Z.to_nat 8168) 0) as E.
  { rewrite py_slice_set_range by lia. rewrite Ed, <-app_assoc. cbn [Z.to_nat take app]. f_equal. }
  split; [|split; [done|]].
  - split; cbn [Page.data Page.page_size Page.with_data]; [|done]. change (Page.page_size p0) with 8192.
    rewrite E, !length_app, length_header_bytes, !length_replicate. lia.
  - eexists _, _. cbn [Page.data Page.with_data]. split; [exact E|]. split; [|lia].
    by rewrite length_app, length_header_bytes, length_replicate.
Qed.

(** The state once a page is in the pool. *)
Record created (s s' : BTree.t) : Prop := {
  cr_order : order s' = order s;
  cr_root : root_page_id s' = root_page_id s;
  cr_count : page_count s' = page_count s + 1;
  cr_size : tree_size s' = tree_size s;
  cr_wf : wf (buffer_pool s');
  cr_cached : ∀ id, cached (buffer_pool s') id =
    if decide (id = PageId.mk (page_count s + 1) 0) then Some (next_ref s) else cached (buffer_pool s) id;
  cr_heap : ∀ r, r ≠ next_ref s → page s' r = page s r;
  cr_sized : page_sized (page s' (next_ref s));
  cr_psz : Page.page_size (page s' (next_ref s)) = DEFAULT_PAGE_SIZE;
  cr_node : ∀ leaf, deserialize (next_ref s) leaf (Page.data (page s' (next_ref s))) = Ok (fresh_node (next_ref s));
}.

Lemma pooled_page_spec s ty :
  room s → let id := PageId.mk (page_count s + 1) 0 in
  ∃ s', pooled_page fuel ty s = Some (s', Ok (id, next_ref s)) ∧ created s s'.
Proof.
  intros [Hwf Hsz Hc Hid Hr] id. destruct (init_page (page_count s + 1) ty) as (p & Ep & Eid & Hp & Hps & h & k & Hd & Hh & Hk); [lia|].
  set (pool := with_heap (buffer_pool s) (<[next_ref s := p]> (heap (buffer_pool s)))).
  assert (wf pool) as Hw by (by apply fresh_heap_wf).
  assert (Page.page_id (heap pool (next_ref s)) = id) as Hpid by (cbn; by rewrite fn_lookup_insert).
  destruct (place_page_spec pool (next_ref s) Hw Hsz) as (pool' & E & Hw' & Hheap & Hcached); [by rewrite Hpid|].
  set (s1 := with_ref (Pos.succ (next_ref s)) (with_pool pool (with_count (page_count s + 1) s))).
  exists (with_pool pool' s1). split.
  - unfold pooled_page, allocate_page_num, r_bind, r_modify, r_get, r_ret, new_page. cbn [page_count with_count]. rewrite Ep.
    change (with_ref _ (with_pool _ _)) with s1. unfold insert_page, BufferPool.insert_page. cbn [buffer_pool s1 with_ref with_pool].
    change (next_ref (with_count _ s)) with (next_ref s).
    rewrite Hpid. change (page_ids pool) with (page_ids (buffer_pool s)). fold id in Hid. rewrite Hid.
    rewrite (proj2 (Z.leb_gt _ _)) by exact Hsz. by rewrite E.
  - assert (heap pool' (next_ref s) = Page.pin p) as Hpin.
    { rewrite Hheap. unfold pinned_in. cbn. by rewrite !fn_lookup_insert. }
    split; [reflexivity|reflexivity|reflexivity|reflexivity|exact Hw'|..]; cbn [buffer_pool with_pool].
    + intros id'. rewrite Hcached, Hpid. unfold id. destruct (decide _); [reflexivity|apply cached_heap].
    + intros r Hr'. rewrite Hheap. unfold pinned_in. cbn. by rewrite !fn_lookup_insert_ne.
    + rewrite Hpin. exact Hp.
    + rewrite Hpin. exact Hps.
    + intros leaf. rewrite Hpin. cbn [Page.data Page.pin Page.with_pin]. rewrite Hd. by apply deserialize_zeros.
Qed.

Lemma create_page_spec s ty leaf :
  room s → ∃ s', create_page fuel ty leaf s = Some (s', Ok (PageId.mk (page_count s + 1) 0, fresh_node (next_ref s))) ∧ created s s'.
Proof.
  intros H. destruct (pooled_page_spec s ty H) as (s' & E & Hc). exists s'. split; [|done].
  unfold create_page. rewrite (r_bind_ok _ _ _ _ _ E). cbn [fst snd].
  unfold node_of, r_bind, r_get, r_lift. by rewrite (cr_node _ _ Hc).
Qed.

(** A page the pool does not have. *)
Lemma get_node_missing id s :
  page_ids (buffer_pool s) !! id = None → ∃ s', get_node id s = Some (s', Err ValueError) ∧ buffer_pool s' = (count add_miss (buffer_pool s)).1.
Proof.
  intros H. unfold get_node, pool_call, r_bind, fetch_page, m_bind, m_get. rewrite H. by eexists.
Qed.

(** * The split of a leaf *)

Lemma encode_child_val v : (∀ o, v ≠ VObject o) → encode_child (Val v) = Err AttributeError.
Proof. intros H. unfold encode_child, item_page_num. destruct v; try done. by destruct (H o). Qed.

(** The right half of a leaf on a page that says it is not a leaf. *)
Lemma right_half_bytes r next prev l :
  Forall entry_ok l → len l < 2 ^ 32 → l ≠ [] → (∀ e o, e ∈ l → e.2 ≠ VObject o) → link_ok next → link_ok prev →
  node_bytes (mk_node r false (VInt <$> l.*1) (Val <$> l.*2) next prev None) = Err AttributeError.
Proof.
  intros H Hl Hne Ho Hn Hp. destruct (encode_entries l H) as (ks & _ & Ek & _). unfold node_bytes.
  cbn [keys values is_leaf next_leaf prev_leaf]. rewrite pack_u_ok by (rewrite !length_fmap; change (width 4) with (2 ^ 32); lia).
  cbn [mbind res_bind]. rewrite !pack_link by done. cbn [mbind res_bind]. rewrite Ek. cbn [mbind res_bind].
  destruct l as [|e l]; [done|]. cbn [fmap list_fmap res_map]. rewrite encode_child_val; [done|]. intros o. apply Ho. left.
Qed.

Lemma touched_room r s s' : touched r s s' → room s → room s'.
Proof.
  intros T [Hwf Hsz Hc Hid Hr]. split.
  - by apply T.
  - unfold BufferPool.size in *. by rewrite (to_ids _ _ _ T), (to_capacity _ _ _ T).
  - by rewrite (to_count _ _ _ T).
  - by rewrite (to_ids _ _ _ T), (to_count _ _ _ T).
  - intros i. unfold occupied. rewrite (to_slots _ _ _ T), (to_ref _ _ _ T). apply Hr.
Qed.

(** The leaf stays where it is when another object changes. *)
Lemma at_leaf_other psz r r' next s s' l :
  r ≠ r' → touched r' s s' → at_leaf psz r next s l → at_leaf psz r next s' l.
Proof.
  intros Hr T (id & H1 & H2 & H3 & H4 & H5 & H6). exists id.
  rewrite (to_root _ _ _ T), (to_cached _ _ _ T), !(to_heap _ _ _ T) by done. split_and!; try done. by apply T.
Qed.

Lemma at_leaf_created psz r next s s' l :
  room s → created s s' → at_leaf psz r next s l → r ≠ next_ref s ∧ at_leaf psz r next s' l.
Proof.
  intros Hr Hc (id & H1 & H2 & H3 & H4 & H5 & H6).
  pose proof H3 as H3'. apply cached_spec in H3 as (i & Hi & Hid); [|done].
  assert (r ≠ next_ref s) as Hne by (intros ->; by apply (rm_ref _ Hr i)). split; [done|].
  exists id. rewrite (cr_root _ _ Hc), (cr_heap _ _ Hc), (cr_cached _ _ Hc) by done. split_and!; try done; [apply Hc|].
  rewrite decide_False; [done|]. intros ->. pose proof (rm_id _ Hr) as Hn.
  apply cached_None in Hn; [congruence|done].
Qed.

Lemma split_leaf_fails psz r s l :
  at_leaf psz r None s l → fits psz l → room s → (∀ id, root_page_id s = Some id → page_ok id) →
  2 <= len l → (∀ e o, e ∈ l → e.2 ≠ VObject o) →
  let id := PageId.mk (page_count s + 1) 0 in
  ∃ s', split_leaf fuel (list_node r None l) s = Some (s', Err AttributeError) ∧
    at_leaf psz r (Some id) s' (take (Z.to_nat (len l / 2)) l).
Proof.
  intros Ha Hf Hr Hpage Hl Ho id. destruct (create_page_spec s BTREE_LEAF true Hr) as (s1 & E1 & Hc).
  destruct (at_leaf_created _ _ _ _ _ _ Hr Hc Ha) as [Hne Ha1].
  set (h := Z.to_nat (len l / 2)). assert (fits psz (take h l ++ drop h l)) as Hf' by (by rewrite take_drop).
  assert (fits psz (take h l)) as Hf1.
  { rewrite <-(app_nil_r (take h l)). apply (fits_remove psz _ (drop h l)). by rewrite app_nil_r. }
  assert (page_ok id) as Hid by (pose proof (rm_count _ Hr); split; [cbn; lia|done]).
  destruct (serialize_leaf psz r None (Some id) s1 _ (take h l) Ha1 Hf1 Hid) as (s2 & E2 & T2 & Ha2).
  assert (page_ok (page_id_of (list_node r None l) s1)) as Hroot.
  { destruct Ha1 as (idr & H1 & H2 & H3 & _). unfold page_id_of. cbn [n_page list_node].
    apply cached_spec in H3 as (i & _ & Hi); [|done]. rewrite Hi. apply Hpage. by rewrite <-(cr_root _ _ Hc). }
  set (right := mk_node (next_ref s) false (VInt <$> (drop h l).*1) (Val <$> (drop h l).*2) None
                  (Some (page_id_of (list_node r None l) s1)) None).
  assert (node_bytes right = Err AttributeError) as Hright.
  { apply right_half_bytes; [| | | |exact I|exact Hroot].
    - destruct Hf as (Hf & _). by apply Forall_drop.
    - destruct Hf as (_ & Hf & _). rewrite length_drop. lia.
    - intros E. apply (f_equal length) in E. rewrite length_drop in E. unfold h in E. cbn in E. lia.
    - intros e o He. apply Ho. rewrite <-(take_drop h l). apply elem_of_app. by right. }
  assert (page_sized (page s2 (next_ref s))) as Hsz by (rewrite (to_heap _ _ _ T2) by done; apply Hc).
  pose proof (serialize_spec right s2 Hsz) as H3. rewrite Hright in H3. destruct H3 as (s3 & E3 & T3 & _).
  exists s3. split; [|by eapply at_leaf_other].
  unfold split_leaf. rewrite (r_bind_ok _ _ _ _ _ E1). cbv iota beta. rewrite r_bind_get. fold id.
  cbn [keys values list_node next_leaf]. rewrite length_vkeys.
  assert (with_next (Some id) (with_entries (py_slice (VInt <$> l.*1) 0 (len l / 2)) (py_slice (Val <$> l.*2) 0 (len l / 2))
    (list_node r None l)) = list_node r (Some id) (take h l)) as ->.
  { rewrite !py_slice_nonneg by lia. rewrite Z.sub_0_r. cbn [Z.to_nat drop]. unfold with_next, with_entries, list_node.
    cbn. by rewrite !fmap_take. }
  rewrite (r_bind_ok _ _ _ _ _ E2).
  assert (with_links None (Some (page_id_of (list_node r None l) s1))
    (with_entries (py_from (VInt <$> l.*1) (len l / 2)) (py_from (Val <$> l.*2) (len l / 2)) (fresh_node (next_ref s))) = right) as ->.
  { rewrite !py_from_nonneg by lia. unfold with_links, with_entries, right. cbn. by rewrite !fmap_drop. }
  unfold r_bind. by rewrite E3.
Qed.

(** Splitting a leaf loses half of it: when an insertion fills the only leaf of a tree (one opened
    on a page that holds a leaf), and the pool has room for the next page, which is not in it,
    the new page is taken for an internal node and cannot be written. The insertion raises
    AttributeError, after the leaf has been cut: from then on a search finds the smaller half
    of the entries and none of the others. *)
Theorem btree_split_loses psz r s m k v :
  let m' := <[k := v]> m in
  holds psz r None s m → room s → (∀ id, root_page_id s = Some id → page_ok id) →
  fits psz (sorted_items m') → 2 <= len (sorted_items m') → 2 * order s <= len (sorted_items m') →
  (∀ k' o, m' !! k' ≠ Some (VObject o)) →
  ∃ s' low, insert fuel (VInt k) v s = Some (s', Err AttributeError) ∧
    sorted_items low = take (Z.to_nat (len (sorted_items m') / 2)) (sorted_items m') ∧
    ∀ k', ∃ s'', search fuel (VInt k') s' = Some (s'', Ok (default VNone (low !! k'))).
Proof.
  intros m' (Ha & _ & Hn) Hr Hpage Hf Hl2 Hl Ho. destruct (insert_writes fuel psz r None s m k v Ha Hf Hn) as (s1 & E & Ha1 & T).
  fold m' in E, Ha1. rewrite (proj2 (Z.leb_le _ _)) in E by done.
  assert (room s1) as Hr1 by (apply (touched_room _ _ _ T); by destruct Hr; split).
  destruct (split_leaf_fails psz r s1 (sorted_items m') Ha1 Hf Hr1) as (s2 & E2 & Ha2); [|done| |].
  { rewrite (to_root _ _ _ T). exact Hpage. }
  { intros [k' v'] o He Ev. cbn in Ev. subst v'. by apply (Ho k' o), elem_of_sorted_items. }
  set (h := Z.to_nat _) in *. pose proof (sorted_items_increasing m') as Hs.
  set (low := list_to_map (take h (sorted_items m')) : gmap Z value).
  assert (sorted_items low = take h (sorted_items m')) as Elow
    by (apply sorted_items_list_to_map; by apply increasing_take).
  exists s2, low. split; [congruence|]. split; [done|]. intros k'.
  assert (holds psz r (Some (PageId.mk (page_count s1 + 1) 0)) s2 low) as Hh.
  { split; [by rewrite Elow|]. rewrite Elow. split.
    - rewrite <-(app_nil_r (take h _)). apply (fits_remove psz _ (drop h (sorted_items m'))). by rewrite app_nil_r, take_drop.
    - pose proof (rm_count _ Hr1). split; [cbn; lia|done]. }
  destruct (search_step fuel _ _ _ _ _ k' Hh) as (s3 & E3 & _). exists s3.
  cbn [run_op spec_output] in E3. unfold r_map, r_bind in E3.
  destruct (search fuel (VInt k') s2) as [[s4 [x|e]]|]; [|done|done]. by injection E3 as -> ->.
Qed.

(** * A new tree *)

Lemma fresh_node_ok r : node_ok (fresh_node r).
Proof.
  split; [constructor| |split; cbn; lia|split; cbn; lia].
  exists [PageId.mk 0 0]. split; [done|]. split; [|done]. repeat constructor; cbn; lia.
Qed.

(** A tree whose root is such a node, with no page 0. *)
Definition rootless s : Prop :=
  ∃ id r, root_page_id s = Some id ∧ wf (buffer_pool s) ∧ cached (buffer_pool s) id = Some r ∧
    deserialize r true (Page.data (page s r)) = Ok (fresh_node r) ∧ cached (buffer_pool s) (PageId.mk 0 0) = None.

Lemma root_descent_fails n pick i s :
  rootless s → (∀ r, pick (fresh_node r) = Ok i) → i = 0 ∨ i = -1 →
  ∃ s', (let* x := root_node in descend (S n) pick x) s = Some (s', Err ValueError).
Proof.
  intros (id & r & H1 & H2 & H3 & H4 & H5) Hp Hi. destruct (get_node_touches id r _ s H2 H3 H4) as (s1 & E1 & Q1 & _).
  destruct (release_touches id (fresh_node r) s1) as (s2 & E2 & Q2 & _); [by apply Q1|by rewrite (to_cached _ _ _ Q1)|].
  assert (page_ids (buffer_pool s2) !! PageId.mk 0 0 = None) as Hmiss.
  { apply cached_None; [by apply Q2, Q1|]. by rewrite (to_cached _ _ _ Q2), (to_cached _ _ _ Q1). }
  destruct (get_node_missing _ _ Hmiss) as (s3 & E3 & _). exists s3.
  assert (root_node s = Some (s1, Ok (fresh_node r))) as E0 by (unfold root_node; rewrite r_bind_get, H1; done).
  rewrite (r_bind_ok _ _ _ _ _ E0). cbn [descend is_leaf fresh_node].
  rewrite (Hp r), r_bind_lift. cbn [values fresh_node].
  assert (py_get [Child (PageId.mk 0 0)] i = Ok (Child (PageId.mk 0 0))) as -> by (by destruct Hi as [-> | ->]).
  rewrite r_bind_lift, (r_bind_ok _ _ _ _ _ E2). cbn [child_id]. rewrite r_bind_lift. unfold r_bind. by rewrite E3.
Qed.

Lemma r_bind_err {A B} (m : run A) (k : A → run B) s s' e : m s = Some (s', Err e) → r_bind m k s = Some (s', Err e).
Proof. intros E. unfold r_bind. by rewrite E. Qed.

(** C15: A new tree cannot be used. When the buffer pool is consistent and not full, holds neither page 0 nor
    page 1 of table 0, and the page object to come is a new one, [BTree(buffer_pool)] succeeds
    for every order, and then every insertion, deletion, search, range scan, full scan and
    bound of the new tree raises ValueError, for every integer key: the page of its root is
    read as an internal node, although a leaf was asked for, whose single child is page 0. *)
Theorem btree_new_unusable ord pool next :
  room (mk ord None 0 0 pool next) → page_ids pool !! PageId.mk 0 0 = None → (0 < fuel)%nat →
  ∃ s', init fuel ord None pool next = Some (s', Ok ()) ∧
    ∀ o, ∃ s'', run_op fuel o s' = Some (s'', Err ValueError).
Proof.
  set (s0 := mk ord None 0 0 pool next). intros Hr H0 Hfuel.
  destruct (pooled_page_spec s0 BTREE_ROOT Hr) as (s1 & E1 & Hc). cbn [page_count s0 next_ref] in *.
  set (s2 := with_root (Some (PageId.mk (0 + 1) 0)) s1).
  assert (page_sized (page s2 next)) as Hsz by exact (cr_sized _ _ Hc).
  pose proof (serialize_spec (fresh_node next) s2 Hsz) as Hs.
  assert (∃ x, node_bytes (fresh_node next) = Ok x ∧ len x = 17) as (x & Ex & Lx) by (eexists; split; reflexivity).
  rewrite Ex in Hs. cbn [n_page fresh_node] in Hs.
  assert (Page.page_size (page s2 next) = DEFAULT_PAGE_SIZE) as Hps by exact (cr_psz _ _ Hc).
  rewrite Hps, Lx in Hs. change (DEFAULT_PAGE_SIZE <? Page.HEADER_SIZE + 17) with false in Hs. cbv iota in Hs.
  destruct Hs as (s3 & E3 & T3 & Hsz3 & _ & h & rest & Hd & Hh).
  assert (rootless (with_size 0 s3)) as Hroot.
  { exists (PageId.mk (0 + 1) 0), next. cbn [root_page_id buffer_pool with_size].
    rewrite (to_root _ _ _ T3), !(to_cached _ _ _ T3). change (buffer_pool s2) with (buffer_pool s1).
    rewrite !(cr_cached _ _ Hc). cbn [page_count s0 next_ref buffer_pool].
    split; [done|]. split; [apply T3, (cr_wf _ _ Hc)|]. split; [by rewrite decide_True|].
    split; [rewrite Hd; by apply (deserialize_node_bytes (fresh_node next)); [apply fresh_node_ok|..]|].
    rewrite decide_False by done. by apply cached_None; [apply Hr|]. }
  exists (with_size 0 s3). split.
  - unfold init, create_root. fold s0. rewrite (r_bind_ok _ _ _ _ _ E1). cbn [fst snd]. rewrite r_bind_modify. fold s2.
    assert (node_of next true s2 = Some (s2, Ok (fresh_node next))) as E2
      by exact (f_equal (λ x, Some (s2, x)) (cr_node _ _ Hc true)).
    rewrite (r_bind_ok _ _ _ _ _ E2), (r_bind_ok _ _ _ _ _ E3). done.
  - set (s4 := with_size 0 s3) in *. intros o. destruct fuel as [|n]; [lia|]. pose proof Hroot as (id & _ & Hid & _).
    assert (∀ key, ∃ s', find_leaf (S n) key s4 = Some (s', Err ValueError)) as Hfind
      by (intros key; by apply (root_descent_fails n _ 0); auto).
    assert (∀ i, i = 0 ∨ i = -1 → ∃ s', outer_leaf (S n) i s4 = Some (s', Err ValueError)) as Houter
      by (intros i Hi; by apply (root_descent_fails n _ i)).
    destruct o as [k v|k|k| |a b| |]; cbn [run_op]; unfold r_map;
      [destruct (Hfind (VInt k)) as [s' E]|destruct (Hfind (VInt k)) as [s' E]|destruct (Hfind (VInt k)) as [s' E]|
       destruct (Houter 0) as [s' E]; [by left|]|destruct (Hfind (VInt a)) as [s' E]|
       destruct (Houter 0) as [s' E]; [by left|]|destruct (Houter (-1)) as [s' E]; [by right|]]; exists s'; apply r_bind_err;
      [unfold insert|unfold delete|unfold search|unfold scan_all|unfold range_scan|unfold get_min_key, outer_key|
       unfold get_max_key, outer_key]; rewrite r_bind_get, Hid; try (rewrite (r_bind_ok _ _ s4 s4 () eq_refl)); by apply r_bind_err.
Qed.
End Split.

(** * Witnesses *)

#[local] Existing Instance plain_runtime.
#[local] Existing Instance plain_keys.

(** A leaf with one entry in a tree of order 1, and the second insertion. *)
Definition one_entry : gmap Z value := {[1 := VInt 10]}.

Lemma pool_with_room ord x : room (tree_with ord x).
Proof.
  split.
  - apply pool_with_wf.
  - vm_compute. reflexivity.
  - cbn. lia.
  - vm_compute. reflexivity.
  - intros i [_ H]. change (slots (buffer_pool (tree_with ord x))) with [Some 1%positive; None; None; None] in H.
    apply list_elem_of_lookup_2 in H. set_unfold in H. naive_solver.
Qed.

Lemma one_entry_holds : holds 128 1 None (leaf_tree 1 [(1, VInt 10)]) one_entry.
Proof.
  assert (sorted_items one_entry = [(1, VInt 10)]) as E by (vm_compute; reflexivity).
  split; [rewrite E|split; [rewrite E|exact I]].
  - exists root_id. split; [reflexivity|]. split; [apply pool_with_wf|]. split; [vm_compute; reflexivity|].
    split; [split; vm_compute; easy|]. split; vm_compute; reflexivity.
  - apply fitsb_ok. vm_compute. reflexivity.
Qed.

Lemma btree_split_loses_witness :
  ∃ s' low, insert 3 (VInt 2) (VInt 20) (leaf_tree 1 [(1, VInt 10)]) = Some (s', Err AttributeError) ∧
    sorted_items low = take 1 (sorted_items (<[2 := VInt 20]> one_entry)) ∧
    ∀ k', ∃ s'', search 3 (VInt k') s' = Some (s'', Ok (default VNone (low !! k'))).
Proof.
  apply (btree_split_loses 3 128 1 (leaf_tree 1 [(1, VInt 10)]) one_entry 2 (VInt 20)).
  - exact one_entry_holds.
  - apply pool_with_room.
  - intros id [= <-]. split; [cbn; lia|reflexivity].
  - apply fitsb_ok. vm_compute. reflexivity.
  - vm_compute. easy.
  - vm_compute. easy.
  - intros k' o. unfold one_entry. rewrite lookup_insert_Some, lookup_singleton_Some. naive_solver.
Defined.

Lemma btree_new_unusable_witness :
  ∃ s', init 3 4 None (init_pool 4 8192 (λ _, page_with [])) 1 = Some (s', Ok ()) ∧
    ∀ o, ∃ s'', run_op 3 o s' = Some (s'', Err ValueError).
Proof.
  apply (btree_new_unusable 3 4 (init_pool 4 8192 (λ _, page_with [])) 1); [|reflexivity|lia].
  split; [by apply init_pool_wf|vm_compute; reflexivity|cbn; lia|reflexivity|].
  intros i [_ H]. change (slots _) with (replicate 4 (@None ref)) in H. apply lookup_replicate in H as [H _]. discriminate H.
Defined.
