(* ===== verification/Ipv6Text.v ===== *)
(** IPv6 addresses: what network/src/protocol/dns.py uses of the [ipaddress] module
    of the standard library, and the hexadecimal text of bytes.

    [IPv6Address(s).packed] parses a text into sixteen bytes, with one run of zero
    groups written as [::], a dotted quad at the end and a scope after a percent sign
    allowed; [str(IPv6Address(b))] prints sixteen bytes with the longest run of
    two or more zero groups compressed (as Python did before 3.13, which prints mapped
    IPv4 addresses as dotted quads). *)

From S2P Require Import Prelude Bytes Utf8 Str.
From S2P Require Ipv4Address.

Definition colon : Z := 58.
Definition percent : Z := 37.
Definition slash : Z := 47.

(** * Hexadecimal digits *)

Definition hex_digit (d : Z) : Z := if d <? 10 then 48 + d else 87 + d.

Definition hex_value (c : Z) : option Z :=
  if (48 <=? c) && (c <=? 57) then Some (c - 48)
  else if (97 <=? c) && (c <=? 102) then Some (c - 87)
  else if (65 <=? c) && (c <=? 70) then Some (c - 55)
  else None.

(** [b.hex()]. *)
Definition hex_text (b : bytes) : pystr := concat ((λ x, [hex_digit (x / 16); hex_digit (x mod 16)]) <$> b).

(** ["%x" % n] for a group of sixteen bits. *)
Definition group_text (n : Z) : pystr :=
  if n <? 16 then [hex_digit n]
  else if n <? 256 then [hex_digit (n / 16); hex_digit (n mod 16)]
  else if n <? 4096 then [hex_digit (n / 256); hex_digit (n / 16 mod 16); hex_digit (n mod 16)]
  else [hex_digit (n / 4096); hex_digit (n / 256 mod 16); hex_digit (n / 16 mod 16); hex_digit (n mod 16)].

(** [int(s, 16)] of a text of hexadecimal digits. *)
Fixpoint int_of_hex (acc : Z) (s : pystr) : option Z :=
  match s with
  | [] => Some acc
  | c :: s' => match hex_value c with Some d => int_of_hex (acc * 16 + d) s' | None => None end
  end.

(** [IPv6Address._parse_hextet]. *)
Definition parse_hextet (s : pystr) : res Z :=
  match s with
  | [] => Err ValueError
  | _ => match int_of_hex 0 s with
         | Some n => if 4 <? len s then Err ValueError else Ok n
         | None => Err ValueError
         end
  end.

(** * Parsing *)

(** The four bytes of a dotted quad. *)
Definition ipv4_of_text (s : pystr) : res bytes :=
  if forallb (λ c, (0 <=? c) && (c <? 128)) s then
    Ipv4Address.ip_packed (Ipv4Address.text_of ((λ c, Ascii.ascii_of_nat (Z.to_nat c)) <$> s))
  else Err ValueError.

(** The parts of the text, a dotted quad at the end turned into two groups. *)
Definition ipv6_parts (s : pystr) : res (list pystr) :=
  let parts := split_on colon s in
  _ ← guard_else (3 <=? len parts) ValueError;
  parts ← match last parts with
          | Some q =>
              if bool_decide (dot ∈ q) then
                b ← ipv4_of_text q;
                Ok (take (pred (length parts)) parts ++
                    [group_text (be_val (take 2 b)); group_text (be_val (drop 2 b))])
              else Ok parts
          | None => Ok parts
          end;
  _ ← guard_else (len parts <=? 9) ValueError;
  Ok parts.

(** The positions between the first and the last part that are empty. *)
Definition skip_indices (parts : list pystr) : list Z :=
  filter (λ i, parts !! Z.to_nat i = Some []) (seqZ 1 (len parts - 2)).

Definition nonempty (p : option pystr) : bool := match p with Some (_ :: _) => true | _ => false end.

(** The groups that the parts write: all eight of them, or those on the two sides of a
    gap of one group at least. An empty part at an end must be next to the gap. *)
Definition groups_of_parts (parts : list pystr) : res (list Z) :=
  match skip_indices parts with
  | [] =>
      _ ← guard_else ((len parts =? 8) && nonempty (head parts) && nonempty (last parts)) ValueError;
      res_map parse_hextet parts
  | [skip] =>
      let hi := if nonempty (head parts) then skip else skip - 1 in
      _ ← guard_else (nonempty (head parts) || (hi =? 0)) ValueError;
      let lo := if nonempty (last parts) then len parts - skip - 1 else len parts - skip - 2 in
      _ ← guard_else (nonempty (last parts) || (lo =? 0)) ValueError;
      _ ← guard_else (1 <=? 8 - (hi + lo)) ValueError;
      a ← res_map parse_hextet (take (Z.to_nat hi) parts);
      b ← res_map parse_hextet (drop (Z.to_nat (len parts - lo)) parts);
      Ok (a ++ py_repeat (8 - (hi + lo)) 0 ++ b)
  | _ => Err ValueError
  end.

(** [IPv6Address._ip_int_from_string], as its eight groups. *)
Definition ipv6_groups (s : pystr) : res (list Z) :=
  _ ← guard_else (negb (bool_decide (s = []))) ValueError;
  parts ← ipv6_parts s;
  groups_of_parts parts.

(** [IPv6Address(s).packed]: no slash, and a scope, if any, is dropped. *)
Definition ipv6_packed (s : pystr) : res bytes :=
  _ ← guard_else (negb (bool_decide (slash ∈ s))) ValueError;
  match split_on percent s with
  | [s] => gs ← ipv6_groups s; Ok (concat (be_bytes 2 <$> gs))
  | [s; scope] =>
      _ ← guard_else (negb (bool_decide (scope = []))) ValueError;
      gs ← ipv6_groups s; Ok (concat (be_bytes 2 <$> gs))
  | _ => Err ValueError
  end.

(** * Printing *)

(** The loop of [_compress_hextets]: the longest run of zero groups, the first of the
    longest, as its start and its length. *)
Fixpoint longest_run (i start run best_start best : Z) (gs : list Z) : Z * Z :=
  match gs with
  | [] => (best_start, best)
  | g :: gs' =>
      if g =? 0 then
        let run := run + 1 in
        let start := if start =? -1 then i else start in
        if best <? run then longest_run (i + 1) start run start run gs'
        else longest_run (i + 1) start run best_start best gs'
      else longest_run (i + 1) (-1) 0 best_start best gs'
  end.

(** [_compress_hextets]. *)
Definition compress_hextets (gs : list Z) : list pystr :=
  let hextets := group_text <$> gs in
  let '(start, n) := longest_run 0 (-1) 0 (-1) 0 gs in
  if 1 <? n then
    let stop := start + n in
    let hextets := if stop =? len hextets then hextets ++ [[]] else hextets in
    let hextets := py_slice_set hextets start stop [[]] in
    if start =? 0 then [] :: hextets else hextets
  else hextets.

(** [str(IPv6Address(b))]: the constructor wants sixteen bytes. *)
Definition ipv6_text (b : bytes) : res pystr :=
  if len b =? 16 then Ok (join_with colon (compress_hextets (be_vals 2 8 b))) else Err ValueError.

Example ipv6_ex1 : ipv6_text [32;1;13;184;0;0;0;0;0;0;0;0;0;0;0;1] = Ok (str "2001:db8::1").
Proof. reflexivity. Qed.
Example ipv6_ex2 : ipv6_packed (str "::ffff:1.2.3.4%eth0") = Ok [0;0;0;0;0;0;0;0;0;0;255;255;1;2;3;4].
Proof. reflexivity. Qed.
Example ipv6_ex3 : ipv6_text (replicate 16 0) = Ok (str "::").
Proof. reflexivity. Qed.
Example ipv6_ex4 : ipv6_packed (str "1::2::3") = Err ValueError.
Proof. reflexivity. Qed.
Example ipv6_ex5 : ipv6_packed (str "fe80::") = Ok (254 :: 128 :: replicate 14 0).
Proof. reflexivity. Qed.

(** * Lemmas *)

Definition group_ok (g : Z) : Prop := 0 <= g < 65536.

(** The characters of a group: none of them separates anything. *)
Definition hex_char (c : Z) : Prop := (48 <= c <= 57) ∨ (97 <= c <= 102).

Lemma hex_digit_char d : 0 <= d < 16 → hex_char (hex_digit d) ∧ hex_value (hex_digit d) = Some d.
Proof.
  intros Hd. unfold hex_char, hex_digit, hex_value. destruct (d <? 10) eqn:E.
  - split; [lia|]. if_true. f_equal. lia.
  - split; [lia|]. if_false. if_true. f_equal. lia.
Qed.

Lemma int_of_hex_digits ds acc :
  Forall (λ d, 0 <= d < 16) ds →
  int_of_hex acc (hex_digit <$> ds) = Some (fold_left (λ a d, a * 16 + d) ds acc).
Proof.
  intros H. revert acc. induction H as [|d ds Hd _ IH]; intros acc; [done|].
  cbn [fmap list_fmap int_of_hex fold_left]. by rewrite (proj2 (hex_digit_char d Hd)).
Qed.

(** The digits of a group. *)
Lemma group_text_digits g :
  group_ok g → ∃ ds, group_text g = hex_digit <$> ds ∧ Forall (λ d, 0 <= d < 16) ds ∧
    (1 <= length ds <= 4)%nat ∧ fold_left (λ a d, a * 16 + d) ds 0 = g.
Proof.
  unfold group_ok, group_text. intros Hg. case_ifs.
  - exists [g]. split_and!; [done|repeat constructor; lia|cbn; lia..].
  - exists [g / 16; g mod 16]. split_and!; [done|repeat constructor; lia|cbn; lia..].
  - exists [g / 256; g / 16 mod 16; g mod 16].
    split_and!; [done|repeat constructor; lia|cbn; lia..].
  - exists [g / 4096; g / 256 mod 16; g / 16 mod 16; g mod 16].
    split_and!; [done|repeat constructor; lia|cbn; lia..].
Qed.

Lemma group_text_parse g : group_ok g → parse_hextet (group_text g) = Ok g.
Proof.
  intros (ds & -> & Hds & Hl & E)%group_text_digits.
  assert (int_of_hex 0 (hex_digit <$> ds) = Some g) as Ei by (by rewrite int_of_hex_digits, E).
  unfold parse_hextet. rewrite Ei.
  destruct (hex_digit <$> ds) eqn:Em.
  { apply (f_equal length) in Em. rewrite length_fmap in Em. cbn in Em. lia. }
  rewrite <-Em, length_fmap. if_false. done.
Qed.

Lemma group_text_chars g : group_ok g → Forall hex_char (group_text g).
Proof.
  intros (ds & -> & Hds & _)%group_text_digits. apply Forall_fmap.
  eapply Forall_impl; [exact Hds|]. intros d Hd. by apply hex_digit_char.
Qed.

Lemma group_text_nonempty g : group_ok g → group_text g ≠ [].
Proof.
  intros (ds & -> & _ & Hl & _)%group_text_digits E. apply (f_equal length) in E.
  rewrite length_fmap in E. cbn in E. lia.
Qed.

Lemma hex_chars_no c p : Forall hex_char p → ¬ hex_char c → c ∉ p.
Proof. intros Hp Hc Hin. rewrite Forall_forall in Hp. by apply Hc, Hp. Qed.

Lemma parse_hextets gs : Forall group_ok gs → res_map parse_hextet (group_text <$> gs) = Ok gs.
Proof.
  induction 1 as [|g gs Hg _ IH]; [done|]. cbn [fmap list_fmap res_map].
  rewrite group_text_parse by done. cbn [mbind res_bind]. cbn [fmap list_fmap] in IH. by rewrite IH.
Qed.

(** The run that [longest_run] finds is a run of zero groups. *)
Lemma longest_run_spec gs : ∀ P start run best_start best s n,
  (start = -1 ∧ run = 0 ∨ ∃ P0, P = P0 ++ py_repeat run 0 ∧ start = len P0 ∧ 1 <= run) →
  (best = 0 ∨ ∃ A B, P = A ++ py_repeat best 0 ++ B ∧ best_start = len A ∧ 1 <= best) →
  longest_run (len P) start run best_start best gs = (s, n) →
  n = 0 ∨ ∃ A B, P ++ gs = A ++ py_repeat n 0 ++ B ∧ s = len A ∧ 1 <= n.
Proof.
  induction gs as [|g gs IH]; intros P start run bs best s n Hrun Hbest E.
  { cbn in E. injection E as <- <-. by rewrite app_nil_r. }
  cbn [longest_run] in E.
  replace (len P + 1) with (len (P ++ [g])) in E by lens.
  rewrite (cons_middle g), app_assoc.
  assert (Hbest' : best = 0 ∨ ∃ A B, P ++ [g] = A ++ py_repeat best 0 ++ B ∧ bs = len A ∧ 1 <= best).
  { destruct Hbest as [|(A & B & -> & ? & ?)]; [by left|right].
    exists A, (B ++ [g]). by rewrite <-!app_assoc. }
  destruct (g =? 0) eqn:Eg; [|by eapply IH in E; [|left|]].
  assert (g = 0) as -> by lia. clear Eg.
  set (st := if start =? -1 then len P else start) in E.
  assert (Hst : ∃ P0, P ++ [0] = P0 ++ py_repeat (run + 1) 0 ∧ st = len P0 ∧ 1 <= run + 1).
  { subst st. destruct Hrun as [(-> & ->)|(P0 & -> & -> & Hr)].
    - exists P. done.
    - if_false. exists P0. split_and!; [|done|lia]. unfold py_repeat.
      replace (Z.to_nat (run + 1)) with (Z.to_nat run + 1)%nat by lia.
      rewrite replicate_add. by rewrite app_assoc. }
  destruct (best <? run + 1).
  - eapply IH; [right; exact Hst| |exact E]. right.
    destruct Hst as (P0 & EP & Es & ?). exists P0, []. rewrite app_nil_r. done.
  - eapply IH; [right; exact Hst|exact Hbest'|exact E].
Qed.

(** The empty part that stands for an end of the text next to the double colon. *)
Definition edge (l : list Z) : list pystr := match l with [] => [[]] | _ => [] end.

Lemma compress_hextets_spec gs :
  compress_hextets gs = group_text <$> gs ∨
  ∃ A n B, gs = A ++ py_repeat n 0 ++ B ∧ 2 <= n ∧
    compress_hextets gs =
      (edge A ++ (group_text <$> A)) ++ [] :: (group_text <$> B) ++ edge B.
Proof.
  unfold compress_hextets. destruct (longest_run 0 (-1) 0 (-1) 0 gs) as [s n] eqn:E.
  destruct (1 <? n) eqn:Hn; [|by left]. right.
  apply (longest_run_spec gs []) in E as [->|(A & B & Egs & -> & _)]; [lia| |by left..].
  cbn [app] in Egs. exists A, n, B. split_and!; [done|lia|].
  assert (len (py_repeat n 0) = n) as Hlen by (unfold py_repeat; rewrite length_replicate; lia).
  assert (len gs = len A + n + len B) as HL by (rewrite Egs, !length_app; lia).
  rewrite length_fmap, HL.
  assert ((if len A + n =? len A + n + len B then (group_text <$> gs) ++ [[]] else group_text <$> gs)
    = (group_text <$> A) ++ (group_text <$> py_repeat n 0) ++ ((group_text <$> B) ++ edge B)) as ->.
  { rewrite Egs, !fmap_app. destruct B; cbn [length edge].
    - if_true. by rewrite !app_nil_r, <-app_assoc.
    - if_false. by rewrite app_nil_r. }
  rewrite py_slice_set_range; [|lia|rewrite !length_app, !length_fmap; lia].
  rewrite take_app_length' by (rewrite length_fmap; lia).
  rewrite (app_assoc (group_text <$> A) (group_text <$> py_repeat n 0)),
    drop_app_length' by (rewrite length_app, !length_fmap; lia).
  destruct A; [done|]. cbn [length edge app]. if_false. done.
Qed.

(** The parts of a compressed text: everything but the two ends and the gap is a
    group. *)
Lemma skip_indices_one (P Q : list pystr) :
  (1 <= length P)%nat → (1 <= length Q)%nat →
  (∀ i p, (0 < i)%nat → P !! i = Some p → p ≠ []) →
  (∀ i p, (i < pred (length Q))%nat → Q !! i = Some p → p ≠ []) →
  skip_indices (P ++ [] :: Q) = [len P].
Proof.
  intros HP HQ Hp Hq. unfold skip_indices. rewrite length_app. cbn [length].
  replace (Z.of_nat (length P + S (length Q)) - 2)
    with ((len P - 1) + (1 + (len Q - 1))) by lia.
  rewrite !seqZ_app by lia. rewrite !filter_app.
  assert (∀ (R : Z → Prop) (Rd : ∀ x, Decision (R x)) l, (∀ x, x ∈ l → ¬ R x) → filter R l = []) as Hnil.
  { intros R Rd l. induction l as [|x l IH]; intros Hl; [done|].
    rewrite filter_cons_False by (apply Hl; left). apply IH. intros y Hy. apply Hl. by right. }
  rewrite (Hnil _ _ (seqZ 1 _)), (Hnil _ _ (seqZ _ (len Q - 1))).
  - cbn [app]. rewrite app_nil_r. replace (1 + (len P - 1)) with (len P) by lia.
    change (seqZ (len P) 1) with [0 + len P]. rewrite Z.add_0_l, filter_cons_True; [done|].
    rewrite Nat2Z.id, lookup_app_r, Nat.sub_diag by lia. done.
  - intros x Hx%elem_of_seqZ. rewrite lookup_app_r by lia.
    destruct (Z.to_nat x - length P)%nat as [|k] eqn:Ek; [lia|]. cbn.
    intros E. eapply (Hq k); [lia|exact E|done].
  - intros x Hx%elem_of_seqZ. rewrite lookup_app_l by lia.
    intros E. eapply (Hp (Z.to_nat x)); [lia|exact E|done].
Qed.

(** A part of a printed address: empty or made of hexadecimal digits. *)
Definition part_ok (p : pystr) : Prop := Forall hex_char p.

Lemma ipv6_parts_ok parts :
  Forall part_ok parts → 3 <= len parts <= 9 → ipv6_parts (join_with colon parts) = Ok parts.
Proof.
  intros Hp Hl. unfold ipv6_parts. rewrite split_join.
  2:{ intros ->. cbn in Hl. lia. }
  2:{ eapply Forall_impl; [exact Hp|]. intros p Hc. apply (hex_chars_no _ _ Hc).
      unfold hex_char, colon. lia. }
  rewrite (proj2 (Z.leb_le 3 _)) by lia. cbn [guard_else mbind res_bind].
  destruct (last parts) as [q|] eqn:Eq.
  - rewrite bool_decide_false.
    + cbn [mbind res_bind]. by rewrite (proj2 (Z.leb_le _ 9)) by lia.
    + apply hex_chars_no; [|unfold hex_char, dot; lia].
      apply last_Some_elem_of in Eq. rewrite Forall_forall in Hp. by apply Hp.
  - cbn [mbind res_bind]. by rewrite (proj2 (Z.leb_le _ 9)) by lia.
Qed.

Lemma groups_parts gs : Forall group_ok gs → Forall part_ok (group_text <$> gs).
Proof. intros H. apply Forall_fmap. eapply Forall_impl; [exact H|]. apply group_text_chars. Qed.

Lemma groups_nonempty gs i p : Forall group_ok gs → (group_text <$> gs) !! i = Some p → p ≠ [].
Proof.
  intros H E. rewrite list_lookup_fmap in E. apply fmap_Some in E as (g & Eg & ->).
  apply group_text_nonempty. by eapply Forall_lookup_1 in H.
Qed.

Lemma nonempty_group g : group_ok g → nonempty (Some (group_text g)) = true.
Proof. intros H%group_text_nonempty. by destruct (group_text g). Qed.

Lemma skip_indices_none gs : Forall group_ok gs → skip_indices (group_text <$> gs) = [].
Proof.
  intros H. unfold skip_indices.
  assert (∀ l : list Z, filter (λ i, (group_text <$> gs) !! Z.to_nat i = Some []) l = []) as E; [|apply E].
  induction l as [|i l IH]; [done|]. rewrite filter_cons_False; [done|].
  intros E. by eapply groups_nonempty in E.
Qed.

Lemma nonempty_head gs : Forall group_ok gs → gs ≠ [] → nonempty (head (group_text <$> gs)) = true.
Proof. destruct 1; [done|]. intros _. by apply nonempty_group. Qed.

Lemma nonempty_last gs : Forall group_ok gs → gs ≠ [] → nonempty (last (group_text <$> gs)) = true.
Proof.
  intros Hgs Hne. destruct gs as [|g gs _] using rev_ind; [done|].
  rewrite fmap_last, last_snoc. apply nonempty_group. by apply Forall_app, proj2, Forall_inv in Hgs.
Qed.

Lemma groups_of_all gs :
  Forall group_ok gs → len gs = 8 → groups_of_parts (group_text <$> gs) = Ok gs.
Proof.
  intros Hgs Hl. unfold groups_of_parts.
  rewrite (skip_indices_none gs Hgs), length_fmap, Hl.
  assert (gs ≠ []) by (intros ->; done).
  rewrite nonempty_head, nonempty_last by done. cbn. by apply parse_hextets.
Qed.

Lemma groups_of_gap A n B :
  Forall group_ok A → Forall group_ok B → 1 <= n → len A + n + len B = 8 →
  groups_of_parts ((edge A ++ (group_text <$> A)) ++ [] :: (group_text <$> B) ++ edge B) =
  Ok (A ++ py_repeat n 0 ++ B).
Proof.
  intros HA HB Hn Hl. unfold groups_of_parts.
  set (P := edge A ++ _). set (Q := (group_text <$> B) ++ _).
  assert (len P = Z.max 1 (len A)) as HP.
  { subst P. destruct A; cbn [edge]; rewrite length_app, length_fmap; cbn [length]; lia. }
  assert (len Q = Z.max 1 (len B)) as HQ.
  { subst Q. destruct B; cbn [edge]; rewrite length_app, length_fmap; cbn [length]; lia. }
  rewrite (skip_indices_one P Q); [|lia|lia| |].
  2:{ intros i p Hi. subst P. destruct A as [|g A]; cbn [edge app].
      - destruct i; [lia|done].
      - by apply groups_nonempty. }
  2:{ intros i p Hi. subst Q. destruct B as [|g B]; cbn [edge app length] in *; [cbn in Hi; lia|].
      rewrite app_nil_r. by apply groups_nonempty. }
  assert ((if nonempty (head (P ++ [] :: Q)) then len P else len P - 1) = len A ∧
          (nonempty (head (P ++ [] :: Q)) || (len A =? 0)) = true ∧
          take (length A) (P ++ [] :: Q) = group_text <$> A) as (-> & -> & HtA).
  { subst P. destruct A as [|g A]; [done|]. cbn [edge app].
    assert (nonempty (head ((group_text <$> g :: A) ++ [] :: Q)) = true) as ->
      by (exact (nonempty_group g (Forall_inv HA))).
    split_and!; [by rewrite length_fmap|done|].
    apply take_app_length'. by rewrite length_fmap. }
  assert (len (P ++ [] :: Q) = len P + 1 + len Q) as HL by (rewrite length_app; cbn [length]; lia).
  assert ((if nonempty (last (P ++ [] :: Q)) then len (P ++ [] :: Q) - len P - 1
           else len (P ++ [] :: Q) - len P - 2) = len B ∧
          (nonempty (last (P ++ [] :: Q)) || (len B =? 0)) = true ∧
          drop (Z.to_nat (len (P ++ [] :: Q) - len B)) (P ++ [] :: Q) = group_text <$> B) as (-> & -> & HdB).
  { rewrite last_app_cons, HL, HQ. subst Q. destruct B as [|g B].
    - cbn [fmap list_fmap edge app length last nonempty] in *. split_and!; [lia|done|].
      apply drop_ge. rewrite length_app. cbn [length]. lia.
    - cbn [edge]. rewrite app_nil_r, last_cons.
      pose proof (nonempty_last (g :: B) HB ltac:(done)) as El.
      destruct (last (group_text <$> g :: B)) as [q|]; [|done]. rewrite El.
      split_and!; [cbn [length]; lia|done|]. rewrite cons_middle, app_assoc.
      apply drop_app_length'. rewrite length_app. cbn [length]. lia. }
  rewrite Nat2Z.id, HtA, HdB, !parse_hextets by done.
  replace (8 - (len A + len B)) with n by lia.
  rewrite (proj2 (Z.leb_le 1 n)) by lia. done.
Qed.

(** What printing produces: three to nine parts that hold no separator. *)
Lemma compress_parts gs :
  Forall group_ok gs → len gs = 8 →
  Forall part_ok (compress_hextets gs) ∧ 3 <= len (compress_hextets gs) <= 9 ∧
  groups_of_parts (compress_hextets gs) = Ok gs.
Proof.
  intros Hgs Hl. destruct (compress_hextets_spec gs) as [->|(A & n & B & -> & Hn & ->)].
  { split_and!; [by apply groups_parts|rewrite length_fmap; lia..|by apply groups_of_all]. }
  apply Forall_app in Hgs as (HA & (_ & HB)%Forall_app).
  rewrite !length_app in Hl. unfold py_repeat in Hl at 1. rewrite length_replicate in Hl.
  assert (∀ l, Forall part_ok (edge l)) as He by (intros []; repeat constructor).
  split_and!; [| | |apply groups_of_gap; [done..|lia|lia]].
  - repeat first [apply Forall_app; split|apply Forall_cons; split]; auto using groups_parts.
    constructor.
  - destruct A, B; cbn [edge]; rewrite !length_app, !length_fmap; cbn [length];
      rewrite ?length_app, ?length_fmap; cbn [length]; lia.
  - destruct A, B; cbn [edge]; rewrite !length_app, !length_fmap; cbn [length];
      rewrite ?length_app, ?length_fmap; cbn [length] in *; lia.
Qed.

(** Splitting bytes into fields and writing the fields again. *)
Lemma be_vals_inv n count b :
  bytes_ok b → length b = (count * n)%nat →
  Forall (λ v, 0 <= v < width n) (be_vals n count b) ∧ length (be_vals n count b) = count ∧
  concat (be_bytes n <$> be_vals n count b) = b.
Proof.
  revert b. induction count as [|c IH]; intros b Hb Hl; cbn [be_vals].
  { split_and!; [done..|]. by destruct b. }
  assert (length (take n b) = n) as Ht by (rewrite length_take; lia).
  destruct (IH (drop n b)) as (H1 & H2 & H3); [by apply Forall_drop|rewrite length_drop; lia|].
  assert (bytes_ok (take n b)) as Hbt by (by apply Forall_take).
  split_and!; [|cbn; lia|].
  - constructor; [|done]. pose proof (be_val_bound _ Hbt) as Hv. by rewrite Ht in Hv.
  - cbn [fmap list_fmap concat]. cbn [fmap list_fmap] in H3. rewrite H3.
    pose proof (be_bytes_be_val _ Hbt) as Hv. rewrite Ht in Hv. rewrite Hv. apply take_drop.
Qed.

(** An address that was printed is read back. *)
Lemma ipv6_packed_text b s : bytes_ok b → ipv6_text b = Ok s → ipv6_packed s = Ok b.
Proof.
  intros Hb. unfold ipv6_text. destruct (len b =? 16) eqn:Hl; [|done]. intros <-%Ok_inj.
  destruct (be_vals_inv 2 8 b Hb ltac:(lia)) as (Hgs & Hlg & Hc).
  revert Hgs Hlg Hc. generalize (be_vals 2 8 b) as gs. intros gs Hgs Hlg Hc.
  change (Forall group_ok gs) in Hgs.
  destruct (compress_parts gs Hgs ltac:(lia)) as (Hp & Hlen & Hg).
  assert (∀ c, ¬ hex_char c → c ≠ colon → c ∉ join_with colon (compress_hextets gs)) as Hno.
  { intros c Hc1 Hc2. apply join_no_char; [done|]. eapply Forall_impl; [exact Hp|].
    intros p Hpp. by apply hex_chars_no. }
  unfold ipv6_packed. rewrite bool_decide_false by (apply Hno; unfold hex_char, slash, colon; lia).
  rewrite split_on_single by (apply Hno; unfold hex_char, percent, colon; lia).
  unfold ipv6_groups. rewrite ipv6_parts_ok by done.
  rewrite bool_decide_false; [cbn [negb guard_else mbind res_bind]; by rewrite Hg; cbn; rewrite Hc|].
  intros E. apply (f_equal (split_on colon)) in E. rewrite split_join in E.
  - rewrite E in Hlen. cbn in Hlen. lia.
  - intros E'. rewrite E' in Hlen. cbn in Hlen. lia.
  - eapply Forall_impl; [exact Hp|]. intros p Hpp. apply (hex_chars_no _ _ Hpp).
    unfold hex_char, colon. lia.
Qed.
