(* ===== verification/DnsMessage.v ===== *)
(** DNS messages: network/src/protocol/dns.py, [DNSRecord], [DNSMessage] and the record
    data of each type.

    Questions and names are those of [Dns]. The loops that read names may not end, so
    everything that reads one carries their fuel and returns an option; [settles] is
    the result that all large enough fuels agree on. The clock is read once per message
    and is an argument. *)

From S2P Require Import Prelude Bytes Utf8 Str PyNum Ipv6Text Dns.

(** * Computations with fuel *)

Definition t_bind {A B} (m : option (res A)) (k : A → option (res B)) : option (res B) :=
  match m with
  | None => None
  | Some (Err e) => Some (Err e)
  | Some (Ok a) => k a
  end.

Declare Scope turns_scope.
Open Scope turns_scope.
Notation "'let?' x := m 'in' k" := (t_bind m (λ x, k))
  (at level 10, x pattern, m at level 100, k at level 200,
   format "'let?'  x  :=  m  'in' '//' k") : turns_scope.

(** The result of every large enough fuel. *)
Definition settles {A} (f : nat → option (res A)) (r : res A) : Prop :=
  ∃ n, ∀ k, (n <= k)%nat → f k = Some r.

(** * Text *)

(** [bytes.decode("utf-8", errors="ignore")]: a byte that cannot start a sequence is
    skipped, and so is the longest beginning of a sequence that is broken off. *)
Fixpoint utf8_decode_ignore (l : bytes) : pystr :=
  match l with
  | [] => []
  | b :: l1 =>
      if b <? 128 then b :: utf8_decode_ignore l1
      else if (194 <=? b) && (b <? 224) then
        match l1 with
        | c :: l2 =>
            if cont c then ((b - 192) * 64 + (c - 128)) :: utf8_decode_ignore l2
            else utf8_decode_ignore l1
        | [] => []
        end
      else if (224 <=? b) && (b <? 240) then
        match l1 with
        | c :: l2 =>
            if second_ok b c then
              match l2 with
              | d :: l3 =>
                  if cont d then
                    ((b - 224) * 4096 + (c - 128) * 64 + (d - 128)) :: utf8_decode_ignore l3
                  else utf8_decode_ignore l2
              | [] => []
              end
            else utf8_decode_ignore l1
        | [] => []
        end
      else if (240 <=? b) && (b <? 245) then
        match l1 with
        | c :: l2 =>
            if second_ok b c then
              match l2 with
              | d :: l3 =>
                  if cont d then
                    match l3 with
                    | e :: l4 =>
                        if cont e then
                          ((b - 240) * 262144 + (c - 128) * 4096 + (d - 128) * 64 + (e - 128))
                            :: utf8_decode_ignore l4
                        else utf8_decode_ignore l3
                    | [] => []
                    end
                  else utf8_decode_ignore l2
              | [] => []
              end
            else utf8_decode_ignore l1
        | [] => []
        end
      else utf8_decode_ignore l1
  end.

(** * Resource records *)

Record DNSRecord := {
  rname : text; rtype : Z; rdata : text; ttl : Z; rclass : Z; priority : Z; created_at : Z }.

Definition is_expired (now : Z) (r : DNSRecord) : bool := ttl r <? now - created_at r.
Definition time_to_live (now : Z) (r : DNSRecord) : Z := Z.max 0 (ttl r - (now - created_at r)).

Definition T_A : Z := 1.
Definition T_NS : Z := 2.
Definition T_CNAME : Z := 5.
Definition T_SOA : Z := 6.
Definition T_PTR : Z := 12.
Definition T_MX : Z := 15.
Definition T_TXT : Z := 16.
Definition T_AAAA : Z := 28.

(** [bytes([int(p)])] for one part of a dotted address. *)
Definition byte_of_text (p : text) : res Z :=
  match py_int p with
  | Some n => if (0 <=? n) && (n <? 256) then Ok n else Err ValueError
  | None => Err ValueError
  end.

(** [_encode_rdata]. *)
Definition encode_rdata (r : DNSRecord) : res bytes :=
  if rtype r =? T_A then res_map byte_of_text (split_on DOT (rdata r))
  else if rtype r =? T_AAAA then ipv6_packed (rdata r)
  else if rtype r =? T_CNAME then DNSQuestion.encode_name (rdata r)
  else if rtype r =? T_NS then DNSQuestion.encode_name (rdata r)
  else if rtype r =? T_MX then
    p ← pack_be 2 (priority r); n ← DNSQuestion.encode_name (rdata r); Ok (p ++ n)
  else if rtype r =? T_TXT then
    txt_bytes ← utf8_encode (rdata r);
    _ ← guard_else (len txt_bytes <? 256) ValueError;
    Ok (len txt_bytes :: txt_bytes)
  else if rtype r =? T_PTR then DNSQuestion.encode_name (rdata r)
  else if rtype r =? T_SOA then Ok [0]
  else Ok [].

(** [_decode_rdata]: the text of the data, with the priority of an MX record. *)
Definition decode_rdata (fuel : nat) (ty : Z) (rd : bytes) : option (res (option Z * text)) :=
  let name_data := let? (name, _) := DNSQuestion.decode_name fuel rd 0 in Some (Ok (None, name)) in
  if ty =? T_A then
    Some (Ok (None, if 4 <=? len rd then join_with DOT (dec <$> take 4 rd) else str "0.0.0.0"))
  else if ty =? T_AAAA then
    if 16 <=? len rd then Some (s ← ipv6_text (take 16 rd); Ok (None, s))
    else Some (Ok (None, str "::"))
  else if ty =? T_CNAME then name_data
  else if ty =? T_NS then name_data
  else if ty =? T_MX then
    let? p := Some (unpack_be 2 (py_slice rd 0 2)) in
    let? (name, _) := DNSQuestion.decode_name fuel rd 2 in
    Some (Ok (Some p, name))
  else if ty =? T_TXT then
    match rd with
    | length :: _ => Some (Ok (None, utf8_decode_ignore (py_slice rd 1 (1 + length))))
    | [] => Some (Ok (None, []))
    end
  else if ty =? T_PTR then name_data
  else Some (Ok (None, hex_text rd)).

(** * Messages *)

Module DNSMessage.
Record t := {
  id : Z; flags : Z; questions : list DNSQuestion.t; answers : list DNSRecord;
  authorities : list DNSRecord; additionals : list DNSRecord }.

Definition is_response (m : t) : bool := negb (Z.land (flags m) 0x8000 =? 0).
Definition rcode (m : t) : Z := Z.land (flags m) 0x000F.
Definition is_error (m : t) : bool := negb (rcode m =? 0).

(** [_encode_rr]. *)
Definition encode_rr (r : DNSRecord) : res bytes :=
  name ← DNSQuestion.encode_name (rname r);
  rd ← encode_rdata r;
  ty ← pack_be 2 (rtype r);
  cl ← pack_be 2 (rclass r);
  tl ← pack_be 4 (ttl r);
  rl ← pack_be 2 (len rd);
  Ok (name ++ (ty ++ cl ++ tl ++ rl) ++ rd).

(** [_decode_rr]. *)
Definition decode_rr (fuel : nat) (now : Z) (data : bytes) (offset : Z) : option (res (DNSRecord * Z)) :=
  let? (name, offset) := DNSQuestion.decode_name fuel data offset in
  let ten := py_slice data offset (offset + 10) in
  let? (ty, cl, tl, rdlength) := Some (
    _ ← guard_else (len ten =? 10) StructError;
    ty ← unpack_be 2 (py_slice ten 0 2);
    cl ← unpack_be 2 (py_slice ten 2 4);
    tl ← unpack_be 4 (py_slice ten 4 8);
    rl ← unpack_be 2 (py_slice ten 8 10);
    Ok (ty, cl, tl, rl)) in
  let offset := offset + 10 in
  let rd := py_slice data offset (offset + rdlength) in
  let offset := offset + rdlength in
  let? (p, d) := decode_rdata fuel ty rd in
  Some (
    _ ← guard_else (dns_type_ok ty) ValueError;
    _ ← guard_else (dns_class_ok cl) ValueError;
    Ok ({| rname := name; rtype := ty; rdata := d; ttl := tl; rclass := cl;
           priority := default 0 p; created_at := now |}, offset)).

(** [for _ in range(n): x, offset = f(data, offset); l.append(x)]. *)
Fixpoint read_many {A} (f : Z → option (res (A * Z))) (n : nat) (offset : Z)
    : option (res (list A * Z)) :=
  match n with
  | O => Some (Ok ([], offset))
  | S n' =>
      let? (x, offset) := f offset in
      let? (l, offset) := read_many f n' offset in
      Some (Ok (x :: l, offset))
  end.

(** The header counts all four sections; the body holds the first two. *)
Definition encode (m : t) : res bytes :=
  h1 ← pack_be 2 (id m); h2 ← pack_be 2 (flags m);
  h3 ← pack_be 2 (len (questions m)); h4 ← pack_be 2 (len (answers m));
  h5 ← pack_be 2 (len (authorities m)); h6 ← pack_be 2 (len (additionals m));
  qs ← res_map DNSQuestion.encode (questions m);
  rs ← res_map encode_rr (answers m);
  Ok ((h1 ++ h2 ++ h3 ++ h4 ++ h5 ++ h6) ++ concat qs ++ concat rs).

Definition decode (fuel : nat) (now : Z) (data : bytes) : option (res t) :=
  if len data <? 12 then Some (Err DNSResolverError)
  else
    let h := py_slice data 0 12 in
    let field i := unpack_be 2 (py_slice h i (i + 2)) in
    let? msg_id := Some (field 0) in
    let? flags := Some (field 2) in
    let? qdcount := Some (field 4) in
    let? ancount := Some (field 6) in
    let? nscount := Some (field 8) in
    let? arcount := Some (field 10) in
    let? (questions, offset) := read_many (DNSQuestion.decode fuel data) (Z.to_nat qdcount) 12 in
    let? (answers, offset) := read_many (decode_rr fuel now data) (Z.to_nat ancount) offset in
    let? (authorities, offset) := read_many (decode_rr fuel now data) (Z.to_nat nscount) offset in
    let? (additionals, offset) := read_many (decode_rr fuel now data) (Z.to_nat arcount) offset in
    Some (Ok {| id := msg_id; flags := flags; questions := questions; answers := answers;
                authorities := authorities; additionals := additionals |}).
End DNSMessage.

(** * Lemmas *)

(** What the strict decoder accepts, the lenient one reads the same. *)
Lemma utf8_decode_ignore_ok l s : utf8_decode l = Ok s → utf8_decode_ignore l = s.
Proof.
  remember (length l) as n eqn:Hn. assert (length l <= n)%nat as Hl by lia. clear Hn.
  revert l s Hl. induction n as [|n IH]; intros [|b l1] s Hl; cbn [length] in Hl; try lia;
    cbn [utf8_decode utf8_decode_ignore]; [by intros [= <-]..|].
  destruct (b <? 128); [|destruct ((194 <=? b) && (b <? 224)); [|destruct ((224 <=? b) && (b <? 240));
    [|destruct ((240 <=? b) && (b <? 245)); [|done]]]].
  - destruct (utf8_decode l1) eqn:E; intros; invert_res. f_equal. by apply IH; [lia|].
  - destruct l1 as [|c l2]; [done|]. destruct (cont c); [|done].
    destruct (utf8_decode l2) eqn:E; intros; invert_res. f_equal. apply IH; [cbn in Hl; lia|done].
  - destruct l1 as [|c [|d l3]]; [done..|].
    destruct (second_ok b c), (cont d); try done. cbn [andb].
    destruct (utf8_decode l3) eqn:E; intros; invert_res. f_equal. apply IH; [cbn in Hl; lia|done].
  - destruct l1 as [|c [|d [|e l4]]]; [done..|].
    destruct (second_ok b c), (cont d), (cont e); try done. cbn [andb].
    destruct (utf8_decode l4) eqn:E; intros; invert_res. f_equal. apply IH; [cbn in Hl; lia|done].
Qed.

(** ** Computations that settle *)

Section settles.
Context {A B : Type}.

Lemma settles_ret (r : res A) : settles (λ _, Some r) r.
Proof. by exists O. Qed.

Lemma settles_bind (f : nat → option (res A)) (g : nat → A → option (res B)) a r :
  settles f (Ok a) → settles (λ k, g k a) r → settles (λ k, t_bind (f k) (g k)) r.
Proof.
  intros (n & Hf) (m & Hg). exists (max n m). intros k Hk.
  rewrite Hf by lia. cbn. apply Hg. lia.
Qed.

Lemma settles_raise (f : nat → option (res A)) (g : nat → A → option (res B)) e :
  settles f (Err e) → settles (λ k, t_bind (f k) (g k)) (Err e).
Proof. intros (n & Hf). exists n. intros k Hk. by rewrite Hf. Qed.

Lemma settles_now (x : res A) (g : nat → A → option (res B)) a r :
  x = Ok a → settles (λ k, g k a) r → settles (λ k, t_bind (Some x) (g k)) r.
Proof. intros ->. done. Qed.

Lemma settles_ext (f g : nat → option (res A)) r : (∀ k, f k = g k) → settles g r → settles f r.
Proof. intros E (n & H). exists n. intros k Hk. rewrite E. auto. Qed.
End settles.

(** ** Names *)

Import DNSQuestion.

Definition wire_name (ls : list text) : bytes := concat (wire_label <$> ls) ++ [0].

(** The root's name and every name of well-formed labels. *)
Lemma encode_wire_name ls : Forall label_ok ls → encode_name (name_of ls) = Ok (wire_name ls).
Proof. intros H. destruct ls as [|l ls]; [done|]. by apply encode_name_ok. Qed.

Lemma decode_loop_mono f1 f2 data off ls jumped orig r :
  (f1 <= f2)%nat → decode_loop f1 data off ls jumped orig = Some r →
  decode_loop f2 data off ls jumped orig = Some r.
Proof.
  revert f2 off ls jumped orig. induction f1 as [|f1 IH]; intros [|f2] off ls jumped orig Hf; try done; [lia|].
  cbn [decode_loop]. repeat case_match; try done; apply IH; lia.
Qed.

Lemma decode_name_at ls data p s :
  Forall label_ok ls → data = p ++ wire_name ls ++ s →
  settles (λ fuel, decode_name fuel data (len p))
    (Ok (name_of ls, len p + len (wire_name ls))).
Proof.
  intros Hls ->. pose proof (name_at_encoded ls p s Hls) as Hat.
  destruct (decode_name_loop_complete _ _ _ _ Hat [] false (len p)) as [n Hn].
  exists n. intros k Hk. unfold decode_name.
  unfold wire_name. by rewrite (decode_loop_mono _ _ _ _ _ _ _ _ Hk Hn).
Qed.

(** ** Questions *)

Definition question_ok (q : DNSQuestion.t) : Prop :=
  (∃ ls, Forall label_ok ls ∧ DNSQuestion.qname q = name_of ls) ∧
  dns_type_ok (qtype q) = true ∧ dns_class_ok (qclass q) = true.

Lemma dns_type_bound n : dns_type_ok n = true → 0 <= n < 65536.
Proof.
  unfold dns_type_ok. intros H%bool_decide_eq_true.
  repeat (apply elem_of_cons in H as [->|H]; [lia|]). by apply elem_of_nil in H.
Qed.

Lemma dns_class_bound n : dns_class_ok n = true → 0 <= n < 65536.
Proof.
  unfold dns_class_ok. intros H%bool_decide_eq_true.
  repeat (apply elem_of_cons in H as [->|H]; [lia|]). by apply elem_of_nil in H.
Qed.

(** A slice of consecutive fields of a message. *)
Lemma slice_field {A} (data p x s : list A) a b :
  data = p ++ x ++ s → a = len p → b = len p + len x → py_slice data a b = x.
Proof. intros -> -> ->. apply py_slice_app_mid. Qed.

Lemma question_decodes q :
  question_ok q →
  ∃ b, DNSQuestion.encode q = Ok b ∧ ∀ data p s, data = p ++ b ++ s →
    settles (λ fuel, DNSQuestion.decode fuel data (len p)) (Ok (q, len p + len b)).
Proof.
  destruct q as [nm ty cl]. intros ((ls & Hls & E) & Hty & Hcl). cbn in E, Hty, Hcl. subst nm.
  pose proof (dns_type_bound _ Hty). pose proof (dns_class_bound _ Hcl).
  unfold DNSQuestion.encode. cbn [qname qtype qclass].
  rewrite encode_wire_name, !pack_u_ok by (done || unfold width; cbn; lia).
  cbn [mbind res_bind]. set (four := be_bytes 2 ty ++ be_bytes 2 cl).
  exists (wire_name ls ++ four). split; [done|]. intros data p s ->.
  assert (len four = 4) as H4 by (unfold four; lens).
  destruct (decode_name_at ls (p ++ (wire_name ls ++ four) ++ s) p (four ++ s) Hls) as (n & Hn);
    [by rewrite <-app_assoc|].
  exists n. intros k Hk. unfold DNSQuestion.decode. rewrite Hn by done. cbn [mbind option_bind res_bind].
  rewrite (slice_field (p ++ (wire_name ls ++ four) ++ s) (p ++ wire_name ls) four s) by first [apps|lens].
  rewrite H4. unfold four.
  rewrite (slice_field (be_bytes 2 ty ++ be_bytes 2 cl) [] (be_bytes 2 ty) (be_bytes 2 cl) 0) by first [apps|lens].
  rewrite (slice_field (be_bytes 2 ty ++ be_bytes 2 cl) (be_bytes 2 ty) (be_bytes 2 cl) [] 2)
    by first [by rewrite app_nil_r|lens].
  rewrite !unpack_be_be_bytes by (unfold width; cbn; lia).
  replace (len p + len (wire_name ls ++ be_bytes 2 ty ++ be_bytes 2 cl))
    with (len p + len (wire_name ls) + 4) by lens.
  cbn [mbind res_bind]. rewrite Hty, Hcl. done.
Qed.

(** ** Record data *)

(** The priority and the text that a record of the type can carry through a message. *)
Inductive data_ok : Z → Z → text → Prop :=
  | data_address b : bytes_ok b → length b = 4%nat → data_ok T_A 0 (join_with DOT (dec <$> b))
  | data_address6 b s : bytes_ok b → ipv6_text b = Ok s → data_ok T_AAAA 0 s
  | data_name ty ls : ty ∈ [T_CNAME; T_NS; T_PTR] → Forall label_ok ls → data_ok ty 0 (name_of ls)
  | data_exchange p ls : 0 <= p < 65536 → Forall label_ok ls → data_ok T_MX p (name_of ls)
  | data_text s x : Forall scalar s → utf8_encode s = Ok x → len x < 256 → data_ok T_TXT 0 s.

Lemma dec_byte b : byte_ok b → byte_of_text (dec b) = Ok b.
Proof.
  unfold byte_ok, byte_of_text. intros Hb.
  rewrite (py_int_str b (dec b)); [by if_true|].
  unfold str_of_int. rewrite (proj2 (Z.leb_gt _ _)).
  - if_false. done.
  - assert (10 ^ 3 <= 10 ^ max_str_digits) by (apply Z.pow_le_mono_r; unfold max_str_digits; lia). lia.
Qed.

Lemma dec_no_dot b : byte_ok b → DOT ∉ dec b.
Proof.
  intros Hb Hin. pose proof (dec_digit b (proj1 Hb)) as H. rewrite Forall_forall in H.
  by apply H in Hin.
Qed.

Lemma address_bytes b :
  bytes_ok b → length b = 4%nat → res_map byte_of_text (split_on DOT (join_with DOT (dec <$> b))) = Ok b.
Proof.
  intros Hb Hl. rewrite split_join.
  - clear Hl. induction Hb as [|x b Hx Hb IH]; [done|]. cbn [fmap list_fmap res_map].
    rewrite dec_byte by done. cbn [mbind res_bind]. cbn [fmap list_fmap] in IH. by rewrite IH.
  - by destruct b.
  - apply Forall_fmap. eapply Forall_impl; [exact Hb|]. apply dec_no_dot.
Qed.

(** Record data that was written is read back. *)
Lemma data_decodes nm ty pr d tl cl at_ :
  data_ok ty pr d →
  ∃ b, encode_rdata {| rname := nm; rtype := ty; rdata := d; ttl := tl; rclass := cl;
                       priority := pr; created_at := at_ |} = Ok b ∧
    settles (λ fuel, decode_rdata fuel ty b) (Ok (if ty =? T_MX then Some pr else None, d)).
Proof.
  unfold encode_rdata. cbn [rtype rdata priority].
  destruct 1 as [b Hb Hl|b s Hb Hs|ty ls Hty Hls|p ls Hp Hls|s x Hs Hx Hl].
  - exists b. split; [by apply address_bytes|]. unfold decode_rdata.
    change (T_A =? T_A) with true. cbv iota. if_true.
    rewrite take_ge by lia. apply settles_ret.
  - exists b. split; [by apply (ipv6_packed_text b s)|]. unfold decode_rdata. cbn.
    assert (len b = 16) as Hl.
    { unfold ipv6_text in Hs. destruct (len b =? 16) eqn:E; [lia|done]. }
    if_true. rewrite take_ge by lia. rewrite Hs. apply settles_ret.
  - exists (wire_name ls).
    pose proof (decode_name_at ls (wire_name ls) [] [] Hls ltac:(by rewrite app_nil_r)) as Hn.
    assert (settles (λ fuel, let? (name, _) := decode_name fuel (wire_name ls) 0 in
      Some (Ok (@None Z, name))) (Ok (None, name_of ls))) as Hd.
    { eapply settles_bind; [exact Hn|]. apply settles_ret. }
    rewrite !elem_of_cons, elem_of_nil in Hty.
    destruct Hty as [->|[->|[->|[]]]]; (split; [by apply encode_wire_name|exact Hd]).
  - exists (be_bytes 2 p ++ wire_name ls). cbn [T_MX T_A]. split.
    { cbn. rewrite encode_wire_name, pack_u_ok by (done || unfold width; cbn; lia). done. }
    unfold decode_rdata. cbn [T_MX T_A T_AAAA T_CNAME T_NS Z.eqb Pos.eqb].
    eapply settles_now.
    { rewrite (slice_field (be_bytes 2 p ++ wire_name ls) [] (be_bytes 2 p) (wire_name ls)) by first [done|lens].
      apply unpack_be_be_bytes. unfold width. cbn. lia. }
    replace 2 with (len (be_bytes 2 p)) by lens.
    eapply settles_bind; [apply (decode_name_at ls _ (be_bytes 2 p) []); [done|by rewrite app_nil_r]|].
    apply settles_ret.
  - exists (len x :: x). split.
    { cbn. rewrite Hx. cbn [mbind res_bind]. by rewrite (proj2 (Z.ltb_lt _ 256)). }
    unfold decode_rdata. cbn [T_TXT T_A T_AAAA T_CNAME T_NS T_MX Z.eqb Pos.eqb].
    rewrite (slice_field (len x :: x) [len x] x []) by first [by rewrite app_nil_r|lens].
    rewrite (utf8_decode_ignore_ok x s) by (by apply utf8_decode_encode). apply settles_ret.
Qed.

(** ** Records *)

Definition record_ok (r : DNSRecord) : Prop :=
  (∃ ls, Forall label_ok ls ∧ rname r = name_of ls) ∧
  data_ok (rtype r) (priority r) (rdata r) ∧ 0 <= ttl r < 2 ^ 32 ∧
  dns_class_ok (rclass r) = true ∧ (∀ b, encode_rdata r = Ok b → len b < 65536).

(** The record as it is when it has been read. *)
Definition stamped (now : Z) (r : DNSRecord) : DNSRecord :=
  {| rname := rname r; rtype := rtype r; rdata := rdata r; ttl := ttl r; rclass := rclass r;
     priority := priority r; created_at := now |}.

Lemma data_ok_type ty pr d : data_ok ty pr d → dns_type_ok ty = true ∧ (ty ≠ T_MX → pr = 0).
Proof.
  destruct 1 as [| |ty ls Hty| |]; (split; [|congruence]); [done|done| |done|done].
  rewrite !elem_of_cons, elem_of_nil in Hty. by destruct Hty as [->|[->|[->|[]]]].
Qed.

Lemma record_decodes now r :
  record_ok r →
  ∃ b, DNSMessage.encode_rr r = Ok b ∧ ∀ data p s, data = p ++ b ++ s →
    settles (λ fuel, DNSMessage.decode_rr fuel now data (len p)) (Ok (stamped now r, len p + len b)).
Proof.
  destruct r as [nm ty d tl cl pr at_]. intros ((ls & Hls & E) & Hd & Htl & Hcl & Hlen).
  cbn in E, Hd, Htl, Hcl. subst nm.
  destruct (data_ok_type _ _ _ Hd) as (Hty & Hpr).
  destruct (data_decodes (name_of ls) ty pr d tl cl at_ Hd) as (rd & Erd & Drd).
  pose proof (Hlen _ Erd) as Hrd. pose proof (dns_type_bound _ Hty). pose proof (dns_class_bound _ Hcl).
  set (ten := be_bytes 2 ty ++ be_bytes 2 cl ++ be_bytes 4 tl ++ be_bytes 2 (len rd)).
  exists (wire_name ls ++ ten ++ rd). split.
  { unfold DNSMessage.encode_rr. rewrite Erd. cbn [rname rtype rclass ttl].
    rewrite encode_wire_name by done. cbn [mbind res_bind].
    rewrite !pack_u_ok by (unfold width; cbn; lia). done. }
  intros data p s ->. unfold DNSMessage.decode_rr.
  assert (len ten = 10) as Hten by (unfold ten; lens).
  eapply settles_bind; [apply (decode_name_at ls _ p (ten ++ rd ++ s)); [done|apps]|]. cbv beta iota zeta.
  rewrite (slice_field (p ++ (wire_name ls ++ ten ++ rd) ++ s) (p ++ wire_name ls) ten (rd ++ s)) by first [apps|lens].
  eapply settles_now.
  { rewrite Hten. cbn [guard_else mbind res_bind].
    rewrite (slice_field ten [] (be_bytes 2 ty) (be_bytes 2 cl ++ be_bytes 4 tl ++ be_bytes 2 (len rd)) 0)
      by first [done|lens].
    rewrite (slice_field ten (be_bytes 2 ty) (be_bytes 2 cl) (be_bytes 4 tl ++ be_bytes 2 (len rd)) 2)
      by first [done|lens].
    rewrite (slice_field ten (be_bytes 2 ty ++ be_bytes 2 cl) (be_bytes 4 tl) (be_bytes 2 (len rd)) 4)
      by first [apps|lens].
    rewrite (slice_field ten (be_bytes 2 ty ++ be_bytes 2 cl ++ be_bytes 4 tl) (be_bytes 2 (len rd)) [] 8)
      by first [by rewrite app_nil_r; apps|lens].
    rewrite !unpack_be_be_bytes by (unfold width; cbn; lia). done. }
  cbv beta iota.
  rewrite (slice_field (p ++ (wire_name ls ++ ten ++ rd) ++ s) (p ++ wire_name ls ++ ten) rd s) by first [apps|lens].
  eapply settles_bind; [exact Drd|]. cbn beta iota. rewrite Hty, Hcl. cbn [guard_else mbind res_bind].
  exists O. intros _ _.
  replace (len p + len (wire_name ls ++ ten ++ rd)) with (len p + len (wire_name ls) + 10 + len rd) by lens.
  unfold stamped. cbn. do 5 f_equal. destruct (ty =? T_MX) eqn:E; [done|]. symmetry. apply Hpr. lia.
Qed.

(** ** Sections *)

(** Encoding every element of a list, with what each encoding reads as. *)
Lemma encode_all {A B} (enc : A → res bytes) (st : A → B) (Q : bytes → B → Prop) l :
  Forall (λ a, ∃ b, enc a = Ok b ∧ Q b (st a)) l →
  ∃ xs : list (bytes * B), res_map enc l = Ok xs.*1 ∧ xs.*2 = st <$> l ∧
    length xs = length l ∧ Forall (λ x, Q x.1 x.2) xs.
Proof.
  induction 1 as [|a l (b & Eb & HQ) _ (xs & E1 & E2 & E3 & E4)]; [by exists []|].
  exists ((b, st a) :: xs). cbn [res_map]. rewrite Eb, E1.
  split_and!; [done|cbn; by rewrite E2|cbn; by rewrite E3|by constructor].
Qed.

Lemma read_many_at {A} (f : nat → Z → option (res (A * Z))) data (xs : list (bytes * A)) p s :
  Forall (λ x, ∀ p' s', data = p' ++ x.1 ++ s' →
    settles (λ k, f k (len p')) (Ok (x.2, len p' + len x.1))) xs →
  data = p ++ concat xs.*1 ++ s →
  settles (λ k, DNSMessage.read_many (f k) (length xs) (len p)) (Ok (xs.*2, len p + len (concat xs.*1))).
Proof.
  intros H. revert p. induction H as [|[b a] xs Hx _ IH]; intros p E; cbn [length DNSMessage.read_many].
  { cbn. rewrite Z.add_0_r. apply settles_ret. }
  cbn [fmap list_fmap concat fst snd] in *.
  eapply settles_bind; [apply (Hx p (concat xs.*1 ++ s)); by rewrite E, <-app_assoc|]. cbv beta iota.
  specialize (IH (p ++ b)). rewrite length_app, Nat2Z.inj_add in IH.
  eapply settles_bind; [apply IH; by rewrite E, <-!app_assoc|]. cbv beta iota.
  rewrite length_app, Nat2Z.inj_add, Z.add_assoc. apply settles_ret.
Qed.

(** Nothing can be read at the end of the data. *)
Lemma read_past_end now data n off :
  len data <= off →
  settles (λ k, DNSMessage.read_many (DNSMessage.decode_rr k now data) (S n) off) (Err DNSResolverError).
Proof.
  intros Hoff. cbn [DNSMessage.read_many]. apply settles_raise. unfold DNSMessage.decode_rr.
  apply settles_raise. exists 1%nat. intros [|k] Hk; [lia|].
  unfold decode_name. cbn [decode_loop]. by if_true.
Qed.

(** A field of two bytes among others. *)
Lemma be_field (vs : list Z) i v h off :
  vs !! i = Some v → 0 <= v < 65536 → h = concat (be_bytes 2 <$> vs) → off = 2 * Z.of_nat i →
  unpack_be 2 (py_slice h off (off + 2)) = Ok v.
Proof.
  intros Hi Hv -> ->.
  assert (len (concat (be_bytes 2 <$> take i vs)) = 2 * Z.of_nat i) as Hl.
  { apply lookup_lt_Some in Hi. rewrite <-(length_take_le vs i) at 2 by lia.
    generalize (take i vs) as l. induction l as [|x l IH]; [done|].
    cbn [fmap list_fmap concat length]. cbn [fmap list_fmap] in IH. lens. }
  rewrite (slice_field _ (concat (be_bytes 2 <$> take i vs)) (be_bytes 2 v) (concat (be_bytes 2 <$> drop (S i) vs))).
  - apply unpack_be_be_bytes. unfold width. cbn. lia.
  - rewrite <-(take_drop_middle vs i v Hi) at 1. rewrite fmap_app, concat_app. done.
  - done.
  - lens.
Qed.

(** ** Messages *)

Definition message_ok (m : DNSMessage.t) : Prop :=
  0 <= DNSMessage.id m < 65536 ∧ 0 <= DNSMessage.flags m < 65536 ∧
  Forall question_ok (DNSMessage.questions m) ∧ Forall record_ok (DNSMessage.answers m) ∧
  len (DNSMessage.questions m) < 65536 ∧ len (DNSMessage.answers m) < 65536 ∧
  len (DNSMessage.authorities m) < 65536 ∧ len (DNSMessage.additionals m) < 65536.

(** Reading the header and the first two sections of an encoded message; [rest] is
    what the decoder still has to read, at the end of the data. *)
Lemma message_decodes now m :
  message_ok m →
  ∃ b, DNSMessage.encode m = Ok b ∧ ∀ r,
    settles (λ k,
      let? (authorities, offset) := DNSMessage.read_many (DNSMessage.decode_rr k now b)
        (length (DNSMessage.authorities m)) (len b) in
      let? (additionals, offset) := DNSMessage.read_many (DNSMessage.decode_rr k now b)
        (length (DNSMessage.additionals m)) offset in
      Some (Ok {| DNSMessage.id := DNSMessage.id m; DNSMessage.flags := DNSMessage.flags m;
        DNSMessage.questions := DNSMessage.questions m;
        DNSMessage.answers := stamped now <$> DNSMessage.answers m;
        DNSMessage.authorities := authorities; DNSMessage.additionals := additionals |})) r →
    settles (λ k, DNSMessage.decode k now b) r.
Proof.
  intros (Hid & Hfl & Hqs & Hrs & Lq & La & Ln & Lr).
  destruct (encode_all DNSQuestion.encode (λ q, q) (λ b q, ∀ data p s, data = p ++ b ++ s →
    settles (λ k, DNSQuestion.decode k data (len p)) (Ok (q, len p + len b)))
    (DNSMessage.questions m)) as (xs & Ex & Exm & Lx & Fx).
  { eapply Forall_impl; [exact Hqs|]. apply question_decodes. }
  destruct (encode_all DNSMessage.encode_rr (stamped now) (λ b r, ∀ data p s, data = p ++ b ++ s →
    settles (λ k, DNSMessage.decode_rr k now data (len p)) (Ok (r, len p + len b)))
    (DNSMessage.answers m)) as (ys & Ey & Eym & Ly & Fy).
  { eapply Forall_impl; [exact Hrs|]. apply record_decodes. }
  rewrite list_fmap_id in Exm.
  unfold DNSMessage.encode. rewrite !pack_u_ok by (unfold width; cbn; lia).
  cbn [mbind res_bind]. rewrite Ex, Ey. cbn [mbind res_bind].
  set (counts := [DNSMessage.id m; DNSMessage.flags m; len (DNSMessage.questions m);
    len (DNSMessage.answers m); len (DNSMessage.authorities m); len (DNSMessage.additionals m)]).
  eexists. split; [reflexivity|]. intros r Hr.
  match type of Hr with context [DNSMessage.decode_rr _ _ ?d] => set (data := d) in * end.
  set (h := be_bytes 2 (DNSMessage.id m) ++ _) in data.
  assert (h = concat (be_bytes 2 <$> counts)) as Hh by (unfold h, counts; cbn [fmap list_fmap concat]; by rewrite app_nil_r).
  assert (len h = 12) as Lh by (unfold h; lens).
  assert (len data = 12 + len (concat xs.*1) + len (concat ys.*1)) as Ld by (unfold data; lens).
  unfold DNSMessage.decode. rewrite (proj2 (Z.ltb_ge (len data) 12)) by lia.
  rewrite (slice_field data [] h (concat xs.*1 ++ concat ys.*1) 0) by first [done|lens].
  assert (∀ i v, counts !! i = Some v →
    unpack_be 2 (py_slice h (2 * Z.of_nat i) (2 * Z.of_nat i + 2)) = Ok v) as Hf.
  { assert (Forall (λ v, 0 <= v < 65536) counts) as Hc by (unfold counts; repeat constructor; lia).
    intros i v Ei. eapply be_field; [exact Ei|by eapply Forall_lookup_1 in Hc|exact Hh|done]. }
  eapply settles_now; [exact (Hf 0%nat _ eq_refl)|]. eapply settles_now; [exact (Hf 1%nat _ eq_refl)|].
  eapply settles_now; [exact (Hf 2%nat _ eq_refl)|]. eapply settles_now; [exact (Hf 3%nat _ eq_refl)|].
  eapply settles_now; [exact (Hf 4%nat _ eq_refl)|]. eapply settles_now; [exact (Hf 5%nat _ eq_refl)|].
  rewrite !Nat2Z.id, <-Lx, <-Ly, <-Lh.
  eapply settles_bind; [apply (read_many_at (λ k, DNSQuestion.decode k data) data xs h (concat ys.*1)); [|done]|].
  { eapply Forall_impl; [exact Fx|]. intros x Hx p' s' E. by eapply Hx. }
  cbv beta iota. rewrite <-Nat2Z.inj_add, <-length_app.
  eapply settles_bind; [apply (read_many_at (λ k, DNSMessage.decode_rr k now data) data ys (h ++ concat xs.*1) []);
    [|unfold data; rewrite app_nil_r; apps]|].
  { eapply Forall_impl; [exact Fy|]. intros x Hx p' s' E. by eapply Hx. }
  cbv beta iota. rewrite Exm, Eym.
  replace (len (h ++ concat xs.*1) + len (concat ys.*1)) with (len data) by (unfold data; lens).
  exact Hr.
Qed.

(** ** Names that end in a pointer *)

(** Reading one label leaves the reader behind it. *)
Lemma decode_loop_label fuel l data p s acc jumped orig :
  label_ok l → data = p ++ wire_label l ++ s →
  decode_loop (S fuel) data (len p) acc jumped orig =
  decode_loop fuel data (len (p ++ wire_label l)) (acc ++ [l]) jumped orig.
Proof.
  intros (Hl & Ha & _) E.
  assert (len data = len p + 1 + len l + len s) as Ld by (rewrite E; unfold wire_label; lens).
  cbn [decode_loop]. rewrite (proj2 (Z.leb_gt _ _)) by lia.
  rewrite E at 1. cbn [wire_label app]. rewrite py_get_app_mid.
  assert (Z.land (len l) 0xC0 = 0) as ->.
  { change 0xC0 with (Z.shiftl 3 6). apply Z.bits_inj'. intros i Hi.
    rewrite Z.land_spec, Z.bits_0. destruct (decide (i < 6)).
    - rewrite Z.shiftl_spec_low by lia. apply andb_false_r.
    - rewrite (testbit_above 6) by lia. done. }
  cbn [negb Z.eqb]. rewrite (proj2 (Z.eqb_neq (len l) 0)) by lia.
  rewrite (proj2 (Z.ltb_ge _ _)) by lia.
  rewrite (slice_field data (p ++ [len l]) l s) by first [rewrite E; apps|lens].
  rewrite ascii_only_ok by done. f_equal. unfold wire_label. lens.
Qed.

Lemma decode_loop_labels ls : ∀ fuel data p s acc jumped orig,
  Forall label_ok ls → data = p ++ concat (wire_label <$> ls) ++ s →
  decode_loop (length ls + fuel) data (len p) acc jumped orig =
  decode_loop fuel data (len (p ++ concat (wire_label <$> ls))) (acc ++ ls) jumped orig.
Proof.
  induction ls as [|l ls IH]; intros fuel data p s acc jumped orig Hls E.
  { cbn. by rewrite !app_nil_r. }
  apply Forall_cons in Hls as (Hl & Hls). cbn [fmap list_fmap concat length Nat.add] in *.
  rewrite (decode_loop_label _ l data p (concat (wire_label <$> ls) ++ s)) by first [done|rewrite E; apps].
  rewrite (IH fuel data _ s) by first [done|rewrite E; apps].
  by rewrite <-!app_assoc.
Qed.

(** Following a pointer out of the data. *)
Lemma decode_pointer_out ls p hi lo :
  Forall label_ok ls → 192 <= hi < 256 →
  len p + len (concat (wire_label <$> ls)) + 2 <= Z.lor (Z.shiftl (Z.land hi 0x3F) 8) lo →
  settles (λ fuel, decode_name fuel (p ++ concat (wire_label <$> ls) ++ [hi; lo]) (len p))
    (Err DNSResolverError).
Proof.
  intros Hls Hhi Hp. exists (length ls + 2)%nat. intros k Hk. unfold decode_name.
  replace k with (length ls + S (S (k - length ls - 2)))%nat by lia.
  set (data := p ++ _). rewrite (decode_loop_labels ls _ data p [hi; lo]) by done.
  assert (len data = len (p ++ concat (wire_label <$> ls)) + 2) as Ld by (unfold data; lens).
  rewrite length_app in Ld. set (k' := (k - _ - 2)%nat). cbn [decode_loop app].
  rewrite (proj2 (Z.leb_gt _ _)) by (rewrite length_app; lia).
  assert (data = (p ++ concat (wire_label <$> ls)) ++ hi :: [lo]) as Ed by (unfold data; apps).
  rewrite Ed at 1. rewrite py_get_app_mid.
  assert (Z.land hi 0xC0 ≠ 0) as Hc.
  { intros H. assert (Z.testbit (Z.land hi 0xC0) 7 = true) as Ht.
    { rewrite Z.land_spec. change (Z.testbit 0xC0 7) with true. rewrite andb_true_r.
      rewrite Z.testbit_true by lia. change (2 ^ 7) with 128. lia. }
    by rewrite H in Ht. }
  rewrite (proj2 (Z.eqb_neq _ _)) by done. cbn [negb].
  rewrite Ed at 1. rewrite (cons_middle hi _ [lo]), app_assoc.
  replace (len (p ++ concat (wire_label <$> ls)) + 1)
    with (len ((p ++ concat (wire_label <$> ls)) ++ [hi])) by lens.
  rewrite py_get_app_mid. by rewrite (proj2 (Z.leb_le (len data) _)) by lia.
Qed.

(** ** The exceptions of the decoder *)

(** [m] raises nothing but the exceptions of [L]. *)
Definition raises {A} (L : list exn) (m : option (res A)) : Prop := ∀ e, m = Some (Err e) → e ∈ L.

Section raises.
Context {A B : Type}.

Lemma raises_bind L (m : option (res A)) (k : A → option (res B)) :
  raises L m → (∀ a, raises L (k a)) → raises L (t_bind m k).
Proof.
  intros Hm Hk e. destruct m as [[a|e']|]; cbn; [apply Hk| |done]. intros [= ->]. by apply Hm.
Qed.

Lemma raises_ok L (a : A) : raises L (Some (Ok a)).
Proof. by intros e. Qed.

Lemma raises_res_bind L (m : res A) (k : A → res B) :
  raises L (Some m) → (∀ a, raises L (Some (k a))) → raises L (Some (m ≫= k)).
Proof. intros Hm Hk e. destruct m as [a|e']; cbn; [apply Hk|]. intros [= ->]. by apply Hm. Qed.

Lemma raises_weaken L L' (m : option (res A)) : raises L m → L ⊆ L' → raises L' m.
Proof. intros H HL e E. by apply HL, H. Qed.
End raises.

Lemma raises_read_many {A} L (f : Z → option (res (A * Z))) n off :
  (∀ o, raises L (f o)) → raises L (DNSMessage.read_many f n off).
Proof.
  intros Hf. revert off. induction n as [|n IH]; intros off; [apply raises_ok|].
  cbn [DNSMessage.read_many]. apply raises_bind; [apply Hf|]. intros [x o].
  apply raises_bind; [apply IH|]. intros [l o']. apply raises_ok.
Qed.

Lemma raises_unpack n l : raises [StructError] (Some (unpack_be n l)).
Proof. intros e. unfold unpack_be. case_match; [done|]. intros [= <-]. set_solver. Qed.

Lemma raises_name fuel data off : raises [DNSResolverError; IndexError] (decode_name fuel data off).
Proof.
  assert (∀ ls jumped orig, raises [DNSResolverError; IndexError] (decode_loop fuel data off ls jumped orig)) as H.
  { revert off. induction fuel as [|fuel IH]; intros off ls jumped orig; [done|].
    cbn [decode_loop].
    assert (∀ i e, py_get data i = Err e → e = IndexError) as Hget.
    { intros i e. unfold py_get. repeat case_match; intros; by invert_res. }
    repeat case_match; try apply IH; try (by intros e); intros e' [= <-];
      repeat match goal with H : py_get _ _ = Err _ |- _ => apply Hget in H as -> end; set_solver. }
  unfold decode_name. intros e. specialize (H [] false off).
  destruct (decode_loop _ _ _ _ _ _) as [[[ls o]|e']|]; cbn; try done. intros [= ->]. by apply H.
Qed.

(** What the decoder of messages can raise. *)
Definition decode_errors : list exn := [DNSResolverError; IndexError; StructError; ValueError].

Lemma raises_name' fuel data off : raises decode_errors (decode_name fuel data off).
Proof. eapply raises_weaken; [apply raises_name|]. unfold decode_errors. set_solver. Qed.

Lemma raises_unpack' n l : raises decode_errors (Some (unpack_be n l)).
Proof. eapply raises_weaken; [apply raises_unpack|]. unfold decode_errors. set_solver. Qed.

Lemma raises_rdata fuel ty rd : raises decode_errors (decode_rdata fuel ty rd).
Proof.
  unfold decode_rdata.
  assert (raises decode_errors (let? (name, _) := decode_name fuel rd 0 in Some (Ok (@None Z, name)))) as Hn.
  { apply raises_bind; [apply raises_name'|]. intros [? ?]. apply raises_ok. }
  repeat (case_match; [try exact Hn; try apply raises_ok|]); try apply raises_ok.
  - unfold ipv6_text. rewrite (proj2 (Z.eqb_eq _ 16)) by (rewrite length_take; lia). apply raises_ok.
  - apply raises_bind; [apply raises_unpack'|]. intros p.
    apply raises_bind; [apply raises_name'|]. intros [? ?]. apply raises_ok.
Qed.

Lemma raises_guard b e : e ∈ decode_errors → raises decode_errors (Some (guard_else b e)).
Proof. intros He e'. destruct b; cbn; [done|]. by intros [= <-]. Qed.

(** A pure step after the loops: guards and fields. *)
Ltac pure_raises :=
  repeat first [ apply raises_ok | apply raises_unpack'
               | apply raises_guard; unfold decode_errors; set_solver
               | apply raises_res_bind; [|intros ?] ].

Lemma raises_rr fuel now data off : raises decode_errors (DNSMessage.decode_rr fuel now data off).
Proof.
  unfold DNSMessage.decode_rr. apply raises_bind; [apply raises_name'|]. intros [name o].
  apply raises_bind; [pure_raises|]. intros [[[ty cl] tl] rl].
  apply raises_bind; [apply raises_rdata|]. intros [p d]. pure_raises.
Qed.

Lemma raises_question fuel data off : raises decode_errors (DNSQuestion.decode fuel data off).
Proof.
  unfold DNSQuestion.decode. pose proof (raises_name' fuel data off) as H.
  destruct (decode_name fuel data off) as [r|]; [|done]. cbn [mbind option_bind].
  apply raises_res_bind; [exact H|]. intros [nm o]. pure_raises.
Qed.

(** * Properties *)

Module Properties.

(** C19: A message with questions and answers only is read back from its encoding, with any large
    enough fuel for the names: identifier, flags, questions, and each answer with its name,
    type, class, time to live, data and priority, stamped with the time of reading. The message
    must be in the form that reading gives: every name absolute, that is, ending with a dot (a
    name without it would be read back with it), of labels of 1 to 63 ASCII characters without
    dots; identifier and flags of 16 bits, fewer than 65536 questions and answers, types and
    classes that the enumerations know, times to live below 2^32; answers of type A with the
    dotted decimal text of four bytes, AAAA with the text that the decoder writes for sixteen
    bytes, CNAME, NS or PTR with such a name, MX with one and a priority of 16 bits, or TXT with
    a text of less than 256 bytes of UTF-8; priority 0 for all types but MX; and encoded data
    of less than 65536 bytes. *)
Theorem dns_message_roundtrip now m :
  message_ok m → DNSMessage.authorities m = [] → DNSMessage.additionals m = [] →
  ∃ b, DNSMessage.encode m = Ok b ∧
    settles (λ fuel, DNSMessage.decode fuel now b)
      (Ok {| DNSMessage.id := DNSMessage.id m; DNSMessage.flags := DNSMessage.flags m;
             DNSMessage.questions := DNSMessage.questions m;
             DNSMessage.answers := stamped now <$> DNSMessage.answers m;
             DNSMessage.authorities := []; DNSMessage.additionals := [] |}).
Proof.
  intros Hm Hn Hr. destruct (message_decodes now m Hm) as (b & Eb & Hb). exists b. split; [done|].
  apply Hb. rewrite Hn, Hr. apply settles_ret.
Qed.

(** A response to a query for [a.], with an address, a mail exchange and a text. *)
Definition example_label : text := [97].
Definition example_message : DNSMessage.t := {|
  DNSMessage.id := 4660; DNSMessage.flags := 0x8180;
  DNSMessage.questions := [{| qname := name_of [example_label]; qtype := T_A; qclass := 1 |}];
  DNSMessage.answers := [
    {| rname := name_of [example_label]; rtype := T_A; rdata := join_with DOT (dec <$> [10; 0; 0; 255]);
       ttl := 300; rclass := 1; priority := 0; created_at := 0 |};
    {| rname := name_of [example_label]; rtype := T_MX; rdata := name_of [example_label; example_label];
       ttl := 60; rclass := 1; priority := 10; created_at := 0 |};
    {| rname := name_of []; rtype := T_TXT; rdata := str "hi"; ttl := 0; rclass := 1; priority := 0;
       created_at := 0 |}];
  DNSMessage.authorities := []; DNSMessage.additionals := [] |}.

Lemma example_labels n : Forall label_ok (replicate n example_label).
Proof.
  apply Forall_replicate. split_and!; [done|done|repeat constructor; lia|].
  intros [H|H]%elem_of_cons; [done|by apply elem_of_nil in H].
Qed.

Lemma example_ok : message_ok example_message.
Proof.
  unfold message_ok, example_message. cbn [DNSMessage.id DNSMessage.flags DNSMessage.questions
    DNSMessage.answers DNSMessage.authorities DNSMessage.additionals].
  split_and!; try (cbn; lia).
  - constructor; [|constructor]. split_and!; [|done|done]. exists [example_label].
    split; [apply (example_labels 1)|done].
  - repeat (apply Forall_cons; split); [..|constructor]; split_and!; try (cbn; lia); try done.
    + exists [example_label]. split; [apply (example_labels 1)|done].
    + apply data_address; [repeat constructor; unfold byte_ok; lia|done].
    + intros b E. vm_compute in E. apply Ok_inj in E as <-. cbn. lia.
    + exists [example_label]. split; [apply (example_labels 1)|done].
    + apply data_exchange; [cbn; lia|apply (example_labels 2)].
    + intros b E. vm_compute in E. apply Ok_inj in E as <-. cbn. lia.
    + exists []. split; [apply (example_labels 0)|done].
    + apply (data_text _ (str "hi")); [repeat constructor; unfold scalar; lia|done|done].
    + intros b E. vm_compute in E. apply Ok_inj in E as <-. cbn. lia.
Qed.

Lemma dns_message_roundtrip_witness :
  ∃ b, DNSMessage.encode example_message = Ok b ∧
    settles (λ fuel, DNSMessage.decode fuel 7 b)
      (Ok {| DNSMessage.id := 4660; DNSMessage.flags := 0x8180;
             DNSMessage.questions := DNSMessage.questions example_message;
             DNSMessage.answers := stamped 7 <$> DNSMessage.answers example_message;
             DNSMessage.authorities := []; DNSMessage.additionals := [] |}).
Proof. apply (dns_message_roundtrip 7 example_message example_ok); reflexivity. Defined.

(** The encoder counts the authority and additional records in the header and does not
    write them: the encoding of a message that has any cannot be read. *)
Theorem dns_sections_lost now m :
  message_ok m → DNSMessage.authorities m ++ DNSMessage.additionals m ≠ [] →
  ∃ b, DNSMessage.encode m = Ok b ∧
    settles (λ fuel, DNSMessage.decode fuel now b) (Err DNSResolverError).
Proof.
  intros Hm Hne. destruct (message_decodes now m Hm) as (b & Eb & Hb). exists b. split; [done|].
  apply Hb. destruct (DNSMessage.authorities m) as [|r rs].
  - cbn [length DNSMessage.read_many]. destruct (DNSMessage.additionals m) as [|r' rs']; [done|].
    cbn [t_bind]. apply settles_raise. by apply read_past_end.
  - apply settles_raise. by apply read_past_end.
Qed.

Lemma dns_sections_lost_witness :
  ∃ b, DNSMessage.encode {| DNSMessage.id := 1; DNSMessage.flags := 0; DNSMessage.questions := [];
         DNSMessage.answers := []; DNSMessage.authorities := [];
         DNSMessage.additionals := DNSMessage.answers example_message |} = Ok b ∧
    settles (λ fuel, DNSMessage.decode fuel 0 b) (Err DNSResolverError).
Proof.
  apply (dns_sections_lost 0 {| DNSMessage.id := 1; DNSMessage.flags := 0; DNSMessage.questions := [];
         DNSMessage.answers := []; DNSMessage.authorities := [];
         DNSMessage.additionals := DNSMessage.answers example_message |}); [|discriminate].
  unfold message_ok. cbn. split_and!; lia || constructor.
Defined.

(** Whatever bytes arrive, the decoder raises [DNSResolverError], [IndexError],
    [struct.error] or [ValueError] when it raises. *)
Theorem dns_decode_raises fuel now data e :
  DNSMessage.decode fuel now data = Some (Err e) → e ∈ decode_errors.
Proof.
  revert e. change (raises decode_errors (DNSMessage.decode fuel now data)).
  unfold DNSMessage.decode. case_match; [intros e [= <-]; unfold decode_errors; set_solver|]. cbv zeta.
  do 6 (apply raises_bind; [apply raises_unpack'|]; intros ?).
  apply raises_bind; [apply raises_read_many; intros; apply raises_question|]. intros [? ?].
  do 3 (apply raises_bind; [apply raises_read_many; intros; apply raises_rr|]; intros [? ?]).
  apply raises_ok.
Qed.

Lemma dns_decode_raises_witness : StructError ∈ decode_errors.
Proof.
  apply (dns_decode_raises 5 0 [0; 0; 0; 0; 0; 1; 0; 0; 0; 0; 0; 0; 0; 9]). reflexivity.
Defined.

(** The names in record data are decoded from the data alone, so a name that ends in
    a compression pointer past it, which is how servers write the second mention of a name, is
    refused. *)
Theorem dns_compressed_data_refused ty ls hi lo :
  ty ∈ [T_CNAME; T_NS; T_PTR] → Forall label_ok ls → 192 <= hi < 256 →
  len (concat (wire_label <$> ls)) + 2 <= Z.lor (Z.shiftl (Z.land hi 0x3F) 8) lo →
  settles (λ fuel, decode_rdata fuel ty (concat (wire_label <$> ls) ++ [hi; lo])) (Err DNSResolverError).
Proof.
  intros Hty Hls Hhi Hp.
  assert (settles (λ fuel, let? (name, _) := decode_name fuel (concat (wire_label <$> ls) ++ [hi; lo]) 0 in
    Some (Ok (@None Z, name))) (Err DNSResolverError)) as H.
  { apply settles_raise. by apply (decode_pointer_out ls [] hi lo). }
  rewrite !elem_of_cons, elem_of_nil in Hty. by destruct Hty as [->|[->|[->|[]]]].
Qed.

Lemma dns_compressed_data_refused_witness :
  settles (λ fuel, decode_rdata fuel T_CNAME [1; 97; 192; 12]) (Err DNSResolverError).
Proof.
  apply (dns_compressed_data_refused T_CNAME [example_label] 192 12);
    [left|apply (example_labels 1)|lia|vm_compute; discriminate].
Defined.
End Properties.
