(* ===== verification/DnsResolver.v ===== *)
(** The DNS resolver: network/src/protocol/dns.py, [DNSResolver], [DNSProtocol] and
    [DNSQuery].

    [resolve] is a coroutine: it runs up to its first [await] and again when what it
    waits for is there. A call is a task, either running a query, or waiting for the
    future of another call's query, or done; [step] is the relation between the states
    of the event loop, with the futures in a store that the tasks share. The replies of
    the network, the message numbers and the clock are an environment. The servers of a
    resolver are not replaced while one of its queries runs. *)

From S2P Require Import Prelude Bytes Utf8 Str PyNum Ipv6Text Dns DnsMessage.

(** * One query over UDP *)

(** What waiting for a datagram ends in. *)
Inductive wait :=
  | Received (b : bytes)
  | TimedOut
  | Failed (e : exn).

(** [DNSProtocol]: the future of the response, once the endpoint is connected. *)
Module DNSProtocol.
Inductive future := Unset | Waiting | Finished (w : wait).
Record t := { response : option bytes; fut : future }.

Definition init_protocol : t := {| response := None; fut := Unset |}.
Definition connection_made (p : t) : t := {| response := response p; fut := Waiting |}.
Definition datagram_received (data : bytes) (p : t) : t :=
  match fut p with
  | Waiting => {| response := Some data; fut := Finished (Received data) |}
  | _ => p
  end.
Definition error_received (e : exn) (p : t) : t :=
  match fut p with
  | Waiting => {| response := response p; fut := Finished (Failed e) |}
  | _ => p
  end.
Definition connection_lost (e : option exn) (p : t) : t :=
  match fut p with
  | Waiting => {| response := response p; fut := Finished (Failed (default CancelledError e)) |}
  | _ => p
  end.

(** [wait_response]: [None] is a call that is still waiting. *)
Definition wait_response (p : t) : option wait :=
  match fut p with
  | Unset => Some (Failed DNSResolverError)
  | Waiting => None
  | Finished w => Some w
  end.
End DNSProtocol.

(** [_send_udp_query]: the data of the query is not used. A [CancelledError] is not an
    [Exception]. *)
Definition send_udp_query (w : wait) (data : bytes) : res bytes :=
  match w with
  | Received b => Ok b
  | TimedOut | Failed TimeoutError => Err DNSTimeoutError
  | Failed DNSTimeoutError => Err DNSTimeoutError
  | Failed CancelledError => Err CancelledError
  | Failed _ => Err DNSResolverError
  end.

(** [_query_server]. *)
Definition query_server (fuel : nat) (now msg_id : Z) (w : wait) (hostname : text) (ty : Z)
    : option (res (list DNSRecord)) :=
  let question := {| DNSQuestion.qname := hostname; DNSQuestion.qtype := ty; DNSQuestion.qclass := 1 |} in
  let? query_data := Some (DNSMessage.encode
    {| DNSMessage.id := msg_id; DNSMessage.flags := 0x0100; DNSMessage.questions := [question];
       DNSMessage.answers := []; DNSMessage.authorities := []; DNSMessage.additionals := [] |}) in
  match send_udp_query w query_data with
  | Err CancelledError => Some (Err CancelledError)
  | Err _ => Some (Err DNSTimeoutError)
  | Ok response =>
      let? m := DNSMessage.decode fuel now response in
      if DNSMessage.is_error m then Some (Err DNSResolverError)
      else Some (Ok (DNSMessage.answers m))
  end.

(** [except (DNSTimeoutError, OSError)]. *)
Definition retryable (e : exn) : bool :=
  match e with
  | DNSTimeoutError | OSError | ConnectionError | TimeoutError => true
  | _ => false
  end.

(** * The resolver *)

Module DNSResolver.
Record stats := {
  queries : Z; cache_hits : Z; cache_misses : Z; errors : Z; timeouts : Z }.

Record t := {
  servers : list text; retries : Z; cache : LRUCache.t text (list DNSRecord); cache_ttl : Z;
  pending : gmap text nat; st : stats }.

Definition init_resolver : t := {|
  servers := [str "8.8.8.8"; str "8.8.4.4"; str "114.114.114.114"];
  retries := 3; cache := LRUCache.init_cache 1000; cache_ttl := 300; pending := ∅;
  st := {| queries := 0; cache_hits := 0; cache_misses := 0; errors := 0; timeouts := 0 |} |}.

Definition with_cache (c : LRUCache.t text (list DNSRecord)) (r : t) : t :=
  {| servers := servers r; retries := retries r; cache := c; cache_ttl := cache_ttl r;
     pending := pending r; st := st r |}.
Definition with_pending (p : gmap text nat) (r : t) : t :=
  {| servers := servers r; retries := retries r; cache := cache r; cache_ttl := cache_ttl r;
     pending := p; st := st r |}.
Definition with_stats (s : stats) (r : t) : t :=
  {| servers := servers r; retries := retries r; cache := cache r; cache_ttl := cache_ttl r;
     pending := pending r; st := s |}.

Definition count_query (s : stats) : stats :=
  {| queries := queries s + 1; cache_hits := cache_hits s; cache_misses := cache_misses s;
     errors := errors s; timeouts := timeouts s |}.
Definition count_hit (s : stats) : stats :=
  {| queries := queries s; cache_hits := cache_hits s + 1; cache_misses := cache_misses s;
     errors := errors s; timeouts := timeouts s |}.
Definition count_miss (s : stats) : stats :=
  {| queries := queries s; cache_hits := cache_hits s; cache_misses := cache_misses s + 1;
     errors := errors s; timeouts := timeouts s |}.
Definition count_error (s : stats) : stats :=
  {| queries := queries s; cache_hits := cache_hits s; cache_misses := cache_misses s;
     errors := errors s + 1; timeouts := timeouts s |}.

(** The setter of [servers]; [inet_aton] tells whether the C library reads an address. *)
Definition set_servers (inet_aton : text → bool) (l : list text) (r : t) : t * res () :=
  match l with
  | [] => (r, Err ValueError)
  | _ =>
      if forallb inet_aton l then
        ({| servers := l; retries := retries r; cache := cache r; cache_ttl := cache_ttl r;
            pending := pending r; st := st r |}, Ok ())
      else (r, Err ValueError)
  end.

(** [hostname.rstrip(".") + "."]. *)
Definition normal_name (hostname : text) : text := rstrip_dot hostname ++ [DOT].

(** [f"{hostname}:{record_type.value}"]. *)
Definition cache_key (hostname : text) (ty : Z) : text := hostname ++ colon :: dec ty.

(** ** Queries with retries *)

(** What the world answers: to the [n]-th datagram of a query, with the number of the
    message and the time when its answer is read, and the fuel for the names. *)
Record env := {
  e_receive : nat → text → wait; e_msg_id : nat → Z; e_now : nat → Z; e_fuel : nat }.

Definition ask (e : env) (hostname : text) (ty : Z) (n : nat) (server : text)
    : option (res (list DNSRecord)) :=
  query_server (e_fuel e) (e_now e n) (e_msg_id e n) (e_receive e n server) hostname ty.

(** The inner loop: [inl] is a result that leaves both loops, [inr] the number of the
    next datagram. *)
Fixpoint try_servers (e : env) (hostname : text) (ty : Z) (n : nat) (l : list text)
    : option (res (list DNSRecord) + nat) :=
  match l with
  | [] => Some (inr n)
  | server :: l' =>
      match ask e hostname ty n server with
      | None => None
      | Some (Ok records) => Some (inl (Ok records))
      | Some (Err x) =>
          if retryable x then try_servers e hostname ty (S n) l' else Some (inl (Err x))
      end
  end.

(** The outer loop. *)
Fixpoint try_attempts (e : env) (hostname : text) (ty : Z) (n attempts : nat) (l : list text)
    : option (res (list DNSRecord) + nat) :=
  match attempts with
  | O => Some (inr n)
  | S k =>
      match try_servers e hostname ty n l with
      | Some (inr n') => try_attempts e hostname ty n' k l
      | o => o
      end
  end.

(** [_query_with_retry]; [None] is a query that has not ended. *)
Definition query_with_retry (e : env) (hostname : text) (ty : Z) (r : t)
    : option (t * res (list DNSRecord)) :=
  match try_attempts e hostname ty 0 (Z.to_nat (retries r)) (servers r) with
  | None => None
  | Some (inl o) => Some (r, o)
  | Some (inr _) => Some (with_stats (count_error (st r)) r, Err DNSResolverError)
  end.

(** ** The cache *)

Definition clear_cache (r : t) : t := with_cache (LRUCache.clear (cache r)) r.

Definition remove_from_cache (hostname : text) (ty : Z) (r : t) : t * bool :=
  let '(c, b) := LRUCache.remove (cache_key hostname ty) (cache r) in (with_cache c r, b).

(** The records of a cache hit: [None] when there are none that are still valid. *)
Definition valid_records (now : Z) (cached : option (list DNSRecord)) : option (list DNSRecord) :=
  match cached with
  | Some l =>
      match filter (λ x, is_expired now x = false) l with
      | [] => None
      | valid => Some valid
      end
  | None => None
  end.

(** ** [resolve] as a task *)

Inductive future := FPending | FResult (l : list DNSRecord) | FException (e : exn) | FCancelled.

Record query := { q_host : text; q_type : Z; q_cache : bool; q_future : nat }.
Definition q_key (q : query) : text := cache_key (q_host q) (q_type q).

Inductive task :=
  | Querying (q : query)
  | Waiting (fid : nat)
  | Done (o : res (list DNSRecord)).

Record world := { resolver : t; futures : list future; tasks : list task }.

Definition init_world (r : t) : world := {| resolver := r; futures := []; tasks := [] |}.

(** [resolve] up to its first [await]. *)
Definition resolve_start (now : Z) (hostname : text) (ty : Z) (use_cache : bool) (w : world) : world :=
  let hostname := normal_name hostname in
  let key := cache_key hostname ty in
  let r := with_stats (count_query (st (resolver w))) (resolver w) in
  let '(c, cached) := if use_cache then LRUCache.get key (cache r) else (cache r, None) in
  let r := with_cache c r in
  match valid_records now cached with
  | Some valid =>
      {| resolver := with_stats (count_hit (st r)) r; futures := futures w;
         tasks := tasks w ++ [Done (Ok valid)] |}
  | None =>
      let r := with_stats (count_miss (st r)) r in
      match pending r !! key with
      | Some fid => {| resolver := r; futures := futures w; tasks := tasks w ++ [Waiting fid] |}
      | None =>
          let fid := length (futures w) in
          {| resolver := with_pending (<[key := fid]> (pending r)) r;
             futures := futures w ++ [FPending];
             tasks := tasks w ++ [Querying {| q_host := hostname; q_type := ty;
               q_cache := use_cache; q_future := fid |}] |}
      end
  end.

(** [future.set_result(x)] and [future.set_exception(x)]. *)
Definition set_future (fid : nat) (x : future) (fs : list future) : list future * res () :=
  match fs !! fid with
  | Some FPending => (<[fid := x]> fs, Ok ())
  | _ => (fs, Err InvalidStateError)
  end.

(** [except Exception as e: future.set_exception(e); raise]: what is raised. *)
Definition fail_future (fid : nat) (e : exn) (fs : list future) : list future * exn :=
  match set_future fid (FException e) fs with
  | (fs, Ok _) => (fs, e)
  | (fs, Err e') => (fs, e')
  end.

(** The rest of [resolve] when its query has ended with [o]; the [finally] clause
    forgets the query. *)
Definition resolve_finish (q : query) (o : res (list DNSRecord)) (r : t) (fs : list future)
    : t * list future * res (list DNSRecord) :=
  let fid := q_future q in
  let '(r, fs, o) :=
    match o with
    | Ok records =>
        let r := if q_cache q && negb (bool_decide (records = []))
                 then with_cache (LRUCache.put (q_key q) records (cache r)) r else r in
        match set_future fid (FResult records) fs with
        | (fs, Ok _) => (r, fs, Ok records)
        | (fs, Err e) => let '(fs, e) := fail_future fid e fs in (r, fs, Err e)
        end
    | Err e =>
        if decide (e = CancelledError) then (r, fs, Err e)
        else let '(fs, e) := fail_future fid e fs in (r, fs, Err e)
    end in
  (with_pending (delete (q_key q) (pending r)) r, fs, o).

(** What awaiting a future ends in. *)
Definition future_result (f : future) : option (res (list DNSRecord)) :=
  match f with
  | FPending => None
  | FResult l => Some (Ok l)
  | FException e => Some (Err e)
  | FCancelled => Some (Err CancelledError)
  end.

Definition set_task (i : nat) (x : task) (w : world) : world :=
  {| resolver := resolver w; futures := futures w; tasks := <[i := x]> (tasks w) |}.

(** A task that was running a query goes on with its outcome. *)
Definition finish_task (i : nat) (q : query) (r : t) (o : res (list DNSRecord)) (w : world) : world :=
  let '(r, fs, o) := resolve_finish q o r (futures w) in
  {| resolver := r; futures := fs; tasks := <[i := Done o]> (tasks w) |}.

(** The cancellation of a task that waits cancels the future it waits for. *)
Definition cancel_waiting (i fid : nat) (w : world) : world :=
  {| resolver := resolver w;
     futures := match futures w !! fid with
                | Some FPending => <[fid := FCancelled]> (futures w)
                | _ => futures w
                end;
     tasks := <[i := Done (Err CancelledError)]> (tasks w) |}.

(** ** The event loop *)

Inductive step : world → world → Prop :=
  | step_resolve now hostname ty use_cache w :
      dns_type_ok ty = true → step w (resolve_start now hostname ty use_cache w)
  | step_finish i q e r o w :
      tasks w !! i = Some (Querying q) →
      query_with_retry e (q_host q) (q_type q) (resolver w) = Some (r, o) →
      o ≠ Err CancelledError →
      step w (finish_task i q r o w)
  | step_wake i fid f o w :
      tasks w !! i = Some (Waiting fid) → futures w !! fid = Some f →
      future_result f = Some o → step w (set_task i (Done o) w)
  | step_clear w :
      step w {| resolver := clear_cache (resolver w); futures := futures w; tasks := tasks w |}
  | step_remove hostname ty w :
      step w {| resolver := (remove_from_cache hostname ty (resolver w)).1;
                futures := futures w; tasks := tasks w |}.

(** Cancellations of tasks by their owners. *)
Inductive cancel : world → world → Prop :=
  | cancel_query i q w :
      tasks w !! i = Some (Querying q) →
      cancel w (finish_task i q (resolver w) (Err CancelledError) w)
  | cancel_wait i fid w : tasks w !! i = Some (Waiting fid) → cancel w (cancel_waiting i fid w).

(** ** What the calls return *)

Definition of_type (ty : Z) (l : list DNSRecord) : list DNSRecord := filter (λ x, rtype x = ty) l.

Definition resolve_a (l : list DNSRecord) : list text := rdata <$> of_type T_A l.
Definition resolve_aaaa (l : list DNSRecord) : list text := rdata <$> of_type T_AAAA l.
Definition resolve_cname (l : list DNSRecord) : option text := rdata <$> head l.
Definition resolve_mx (l : list DNSRecord) : list (Z * text) := (λ x, (priority x, rdata x)) <$> of_type T_MX l.
Definition resolve_ns (l : list DNSRecord) : list text := rdata <$> of_type T_NS l.
Definition resolve_txt (l : list DNSRecord) : list text := rdata <$> of_type T_TXT l.

(** The name that [resolve_ptr] asks for. *)
Definition ptr_name (ip_address : text) : option text :=
  match split_on DOT ip_address with
  | [a; b; c; d] => Some (d ++ DOT :: c ++ DOT :: b ++ DOT :: a ++ str ".in-addr.arpa.")
  | _ => None
  end.

(** [DNSQuery.query]: the type that a name stands for. *)
Definition query_type (record_type : text) : res Z :=
  let s := upper record_type in
  if bool_decide (s = str "A") then Ok T_A
  else if bool_decide (s = str "AAAA") then Ok T_AAAA
  else if bool_decide (s = str "CNAME") then Ok T_CNAME
  else if bool_decide (s = str "MX") then Ok T_MX
  else if bool_decide (s = str "NS") then Ok T_NS
  else if bool_decide (s = str "TXT") then Ok T_TXT
  else if bool_decide (s = str "PTR") then Ok T_PTR
  else if bool_decide (s = str "SOA") then Ok T_SOA
  else Err ValueError.
End DNSResolver.

(** * Lemmas *)

Import DNSResolver.

(** ** Retries *)

(** A call that does not end the loops. *)
Definition times_out (o : option (res (list DNSRecord))) : Prop := ∃ x, o = Some (Err x) ∧ retryable x = true.

(** All the calls of a query, in order. *)
Definition calls (attempts : nat) (l : list text) : list text := concat (replicate attempts l).

Lemma try_servers_app e h ty l1 l2 n :
  (∀ i s, l1 !! i = Some s → times_out (ask e h ty (n + i) s)) →
  try_servers e h ty n (l1 ++ l2) = try_servers e h ty (n + length l1) l2.
Proof.
  revert n. induction l1 as [|s l1 IH]; intros n H; [by rewrite Nat.add_0_r|].
  cbn [app try_servers]. destruct (H 0%nat s eq_refl) as (x & E & Hx).
  rewrite Nat.add_0_r in E. rewrite E, Hx. rewrite IH.
  - cbn [length]. f_equal. lia.
  - intros i s' Hi. replace (S n + i)%nat with (n + S i)%nat by lia. by apply H.
Qed.

Lemma try_servers_decides e h ty n l i s o :
  l !! i = Some s → (∀ j s', (j < i)%nat → l !! j = Some s' → times_out (ask e h ty (n + j) s')) →
  ask e h ty (n + i) s = Some o → (∀ x, o = Err x → retryable x = false) →
  try_servers e h ty n l = Some (inl o).
Proof.
  intros Hi Hbefore Ha Hd. rewrite <-(take_drop_middle l i s Hi).
  assert (length (take i l) = i) as Hl.
  { apply lookup_lt_Some in Hi. rewrite length_take. lia. }
  rewrite try_servers_app.
  - rewrite Hl. cbn [try_servers]. rewrite Ha. destruct o as [rs|x]; [done|]. by rewrite (Hd x eq_refl).
  - intros j s' Hj. assert (j < i)%nat by (apply lookup_lt_Some in Hj; lia).
    rewrite lookup_take in Hj. case_decide; [|done]. by apply Hbefore.
Qed.

(** One loop over all the calls instead of two. *)
Lemma try_attempts_flat e h ty k l n :
  try_attempts e h ty n k l = try_servers e h ty n (calls k l).
Proof.
  revert n. induction k as [|k IH]; intros n; [done|]. cbn [try_attempts].
  unfold calls in *. cbn [replicate concat].
  assert (∀ l1 l2 n, try_servers e h ty n (l1 ++ l2) =
    match try_servers e h ty n l1 with Some (inr n') => try_servers e h ty n' l2 | o => o end) as Happ.
  { clear. induction l1 as [|s l1 IH]; intros l2 n; [done|]. cbn [app try_servers].
    destruct (ask _ _ _ _ _) as [[rs|x]|]; [done| |done]. destruct (retryable x); [apply IH|done]. }
  rewrite Happ. destruct (try_servers e h ty n l) as [[o|n']|]; [done|apply IH|done].
Qed.

Lemma query_outcome e h ty r r' o :
  query_with_retry e h ty r = Some (r', o) → ∀ x, o = Err x → retryable x = false.
Proof.
  unfold query_with_retry. rewrite try_attempts_flat.
  generalize (calls (Z.to_nat (retries r)) (servers r)) as l. generalize 0%nat as n.
  intros n l E x ->. revert n E. induction l as [|s l IH]; intros n; cbn [try_servers].
  { intros [= _ <-]. done. }
  destruct (ask e h ty n s) as [[rs|y]|]; [by intros [=]| |done].
  destruct (retryable y) eqn:Ey; [apply IH|]. by intros [= _ <-].
Qed.

Lemma query_state e h ty r r' o :
  query_with_retry e h ty r = Some (r', o) → r' = r ∨ r' = with_stats (count_error (st r)) r.
Proof. unfold query_with_retry. repeat case_match; intros; simplify_eq; auto. Qed.

(** ** Keys *)

Lemma cache_key_inj h1 t1 h2 t2 :
  0 <= t1 → 0 <= t2 → cache_key h1 t1 = cache_key h2 t2 → h1 = h2.
Proof.
  intros H1 H2 E. unfold cache_key in E.
  assert (∀ t, 0 <= t → colon ∉ dec t) as Hno.
  { intros t Ht Hin. pose proof (dec_digit t Ht) as Hd. rewrite Forall_forall in Hd. by apply Hd in Hin. }
  apply (f_equal reverse) in E. rewrite !reverse_app, !reverse_cons, <-!app_assoc in E.
  assert (∀ t, 0 <= t → colon ∉ reverse (dec t)) as Hr.
  { intros t Ht Hin. rewrite elem_of_reverse in Hin. by apply (Hno t Ht). }
  assert (∀ a1 a2 b1 b2 : text, colon ∉ a1 → colon ∉ a2 →
    a1 ++ [colon] ++ b1 = a2 ++ [colon] ++ b2 → b1 = b2) as Hsep.
  { clear. intros a1. induction a1 as [|x a1 IH]; intros [|y a2] b1 b2 Ha1 Ha2 E; cbn in E.
    - congruence.
    - injection E as <- _. exfalso. apply Ha2. left.
    - injection E as -> _. exfalso. apply Ha1. left.
    - injection E as -> E. eapply IH; [| |exact E]; intros ?; [apply Ha1|apply Ha2]; by right. }
  apply Hsep in E; [|by apply Hr..]. by apply (inj reverse).
Qed.

(** The key of a call of [resolve]. *)
Definition normal_key (k : text) : Prop := ∃ h ty, 0 <= ty ∧ k = cache_key (normal_name h) ty.

(** ** The cache holds answers of calls only *)

Definition entry_ok (x : text * list DNSRecord) : Prop := normal_key x.1 ∧ x.2 ≠ [].

Definition cache_wf (c : LRUCache.t text (list DNSRecord)) : Prop :=
  cache_ok c ∧ Forall entry_ok (LRUCache.cache c) ∧ 1 <= LRUCache.maxsize c.

Lemma drop_key_Forall {P : text * list DNSRecord → Prop} k l :
  Forall P l → Forall P (LRUCache.drop_key k l).
Proof.
  intros H. unfold LRUCache.drop_key. rewrite !Forall_forall in *.
  intros x (_ & Hx)%list_elem_of_filter. by apply H.
Qed.

Lemma find_Forall {P : text * list DNSRecord → Prop} k l v :
  Forall P l → LRUCache.find k l = Some v → P (k, v).
Proof.
  induction 1 as [|[k' v'] l Hx _ IH]; [done|]. cbn. case_decide as E; [|done]. intros [= ->]. by subst.
Qed.

Lemma cache_wf_get k c : cache_wf c → cache_wf (LRUCache.get k c).1.
Proof.
  intros (Hok & Hk & Hm). split; [by apply get_ok|]. unfold LRUCache.get.
  destruct (LRUCache.find k _) as [v|] eqn:E; [|done]. cbn. split; [|done].
  apply Forall_app. split; [by apply drop_key_Forall|]. constructor; [|done].
  by apply (find_Forall (P := entry_ok)) in E.
Qed.

Lemma cache_wf_put k v c : entry_ok (k, v) → cache_wf c → cache_wf (LRUCache.put k v c).
Proof.
  intros Hn (Hok & Hk & Hm). split; [by apply put_ok|]. unfold LRUCache.put. cbn. split; [|done].
  assert (Forall entry_ok (LRUCache.drop_key k (LRUCache.cache c) ++ [(k, v)])) as H.
  { apply Forall_app. split; [by apply drop_key_Forall|by constructor]. }
  case_match; [by apply Forall_drop|done].
Qed.

Lemma cache_wf_remove k c : cache_wf c → cache_wf (LRUCache.remove k c).1.
Proof.
  intros (Hok & Hk & Hm). split; [by apply remove_ok|]. unfold LRUCache.remove.
  destruct (LRUCache.find k _); [|done]. split; [by apply drop_key_Forall|done].
Qed.

(** ** The pieces of [resolve] *)

(** What the first part of [resolve] does: a hit, a wait for the running query of the
    same key, or a new query. *)
Inductive started (key : text) (q : query) (w w' : world) : Prop :=
  | started_hit valid :
      valid ≠ [] → tasks w' = tasks w ++ [Done (Ok valid)] → futures w' = futures w →
      pending (resolver w') = pending (resolver w) →
      st (resolver w') = count_hit (count_query (st (resolver w))) → started key q w w'
  | started_wait fid :
      pending (resolver w) !! key = Some fid →
      tasks w' = tasks w ++ [Waiting fid] → futures w' = futures w →
      pending (resolver w') = pending (resolver w) →
      st (resolver w') = count_miss (count_query (st (resolver w))) → started key q w w'
  | started_query :
      pending (resolver w) !! key = None →
      tasks w' = tasks w ++ [Querying q] → futures w' = futures w ++ [FPending] →
      pending (resolver w') = <[key := length (futures w)]> (pending (resolver w)) →
      st (resolver w') = count_miss (count_query (st (resolver w))) → started key q w w'.

Lemma resolve_start_cases now h ty uc w :
  let key := cache_key (normal_name h) ty in
  let q := {| q_host := normal_name h; q_type := ty; q_cache := uc; q_future := length (futures w) |} in
  let w' := resolve_start now h ty uc w in
  started key q w w' ∧
  cache (resolver w') = (if uc then (LRUCache.get key (cache (resolver w))).1 else cache (resolver w)).
Proof.
  cbv zeta. unfold resolve_start.
  assert ((if uc then LRUCache.get (cache_key (normal_name h) ty)
             (cache (with_stats (count_query (st (resolver w))) (resolver w)))
           else (cache (with_stats (count_query (st (resolver w))) (resolver w)), None)) =
          (if uc then (LRUCache.get (cache_key (normal_name h) ty) (cache (resolver w))).1 else cache (resolver w),
           if uc then (LRUCache.get (cache_key (normal_name h) ty) (cache (resolver w))).2 else None)) as ->.
  { destruct uc; [|done]. cbn. by destruct (LRUCache.get _ _). }
  set (cached := if uc then _.2 else None).
  destruct (valid_records now cached) as [valid|] eqn:Ev.
  { split; [|done]. eapply started_hit; try done.
    unfold valid_records in Ev. repeat case_match; congruence. }
  cbn. destruct (pending (resolver w) !! cache_key (normal_name h) ty) as [fid|] eqn:Ep.
  - split; [|done]. by eapply started_wait.
  - split; [|done]. by apply started_query.
Qed.

(** What the second part does. *)
Lemma resolve_finish_spec q o r fs r' fs' o' :
  resolve_finish q o r fs = (r', fs', o') →
  pending r' = delete (q_key q) (pending r) ∧ st r' = st r ∧
  (cache r' = cache r ∨ ∃ l, l ≠ [] ∧ cache r' = LRUCache.put (q_key q) l (cache r)) ∧
  length fs' = length fs ∧ (∀ i, i ≠ q_future q → fs' !! i = fs !! i) ∧
  (fs !! q_future q = Some FPending → o ≠ Err CancelledError →
   o' = o ∧ ∃ f, fs' !! q_future q = Some f ∧ future_result f = Some o) ∧
  (o = Err CancelledError → fs' = fs ∧ o' = o ∧ cache r' = cache r) ∧
  (∀ fid x, fs' !! fid = Some (FException x) →
     fs !! fid = Some (FException x) ∨ o = Err x ∨ x = InvalidStateError) ∧
  (∀ x, o' = Err x → o = Err x ∨ x = InvalidStateError) ∧
  (∀ l, o = Ok l → q_cache q = true → l ≠ [] → cache r' = LRUCache.put (q_key q) l (cache r)).
Proof.
  unfold resolve_finish, fail_future, set_future. intros E.
  assert (∀ x : future, length (<[q_future q := x]> fs) = length fs ∧
    ∀ i, i ≠ q_future q → <[q_future q := x]> fs !! i = fs !! i) as Hins.
  { intros x. split; [apply length_insert|]. intros i Hi. by apply list_lookup_insert_ne. }
  assert (∀ x, fs !! q_future q = Some FPending → <[q_future q := x]> fs !! q_future q = Some x) as Hnew.
  { intros x Hx. apply list_lookup_insert_eq. by eapply lookup_lt_Some. }
  destruct (fs !! q_future q) as [[| | |]|] eqn:Ef; destruct o as [rs|ex];
    repeat case_match; simplify_eq/=; split_and!;
    try done; try (by apply Hins); try (by left); try (by intros; congruence);
    try (intros _ _; split; [done|eexists; split; [by apply Hnew|done]]);
    try (intros ? ?; rewrite list_lookup_insert_Some; naive_solver);
    try (intros; simplify_eq; rewrite bool_decide_false in * by done; by destruct (q_cache q));
    try (by intros ? [= <-]; right);
    right; exists rs; (split; [|done]); destruct rs; by destruct (q_cache q).
Qed.

(** ** The invariant of the event loop *)

Definition runs (w : world) (i : nat) (q : query) : Prop := tasks w !! i = Some (Querying q).

(** Every call is counted once, as a hit or as a miss. *)
Definition counted (s : stats) (n : Z) : Prop :=
  queries s = cache_hits s + cache_misses s ∧ queries s = n.

Record inv (w : world) : Prop := {
  inv_pending k fid : pending (resolver w) !! k = Some fid →
    ∃ i q, runs w i q ∧ q_key q = k ∧ q_future q = fid;
  inv_running i q : runs w i q → pending (resolver w) !! q_key q = Some (q_future q);
  inv_unique i j qi qj : runs w i qi → runs w j qj →
    q_key qi = q_key qj ∨ q_future qi = q_future qj → i = j;
  inv_future i q : runs w i q →
    futures w !! q_future q = Some FPending ∨ futures w !! q_future q = Some FCancelled;
  inv_wait i fid : tasks w !! i = Some (Waiting fid) → (fid < length (futures w))%nat;
  inv_key i q : runs w i q → normal_key (q_key q);
  inv_counts : counted (st (resolver w)) (len (tasks w));
  inv_cache : cache_wf (cache (resolver w)) }.

Lemma runs_snoc w w' x i q :
  tasks w' = tasks w ++ [x] → runs w' i q → runs w i q ∨ (i = length (tasks w) ∧ x = Querying q).
Proof. unfold runs. intros ->. rewrite lookup_snoc_Some. naive_solver. Qed.

Lemma runs_old w w' x i q : tasks w' = tasks w ++ [x] → runs w i q → runs w' i q.
Proof. unfold runs. intros -> H. by apply lookup_app_l_Some. Qed.

Lemma wait_snoc w w' x i fid :
  tasks w' = tasks w ++ [x] → tasks w' !! i = Some (Waiting fid) →
  tasks w !! i = Some (Waiting fid) ∨ x = Waiting fid.
Proof. intros ->. rewrite lookup_snoc_Some. naive_solver. Qed.

(** A step that leaves the running queries alone. *)
Lemma inv_same w w' :
  inv w → (∀ i q, runs w' i q ↔ runs w i q) → pending (resolver w') = pending (resolver w) →
  (∀ fid f, futures w !! fid = Some f → ∃ f', futures w' !! fid = Some f' ∧
    (f' = f ∨ f = FPending ∧ f' = FCancelled)) →
  (∀ i fid, tasks w' !! i = Some (Waiting fid) → (fid < length (futures w))%nat) →
  counted (st (resolver w')) (len (tasks w')) → cache_wf (cache (resolver w')) → inv w'.
Proof.
  intros [Hp Hr Hu Hf Hw Hk Hc Hca] Hruns Ep Ef Hw' Hc' Hca'. split; try done.
  - intros k fid. rewrite Ep. intros (i & q & H & E)%Hp. exists i, q. by rewrite Hruns.
  - intros i q. rewrite Hruns, Ep. apply Hr.
  - intros i j qi qj. rewrite !Hruns. apply Hu.
  - intros i q. rewrite Hruns. intros [H|H]%Hf; destruct (Ef _ _ H) as (f' & -> & [->|[? ->]]); auto.
  - intros i fid [f H]%Hw'%lookup_lt_is_Some_2. destruct (Ef _ _ H) as (f' & H' & _).
    by eapply lookup_lt_Some.
  - intros i q. rewrite Hruns. apply Hk.
Qed.

Lemma counted_next s n : counted s n → counted (count_hit (count_query s)) (n + 1) ∧
  counted (count_miss (count_query s)) (n + 1).
Proof. unfold counted. cbn. lia. Qed.

Lemma inv_start now h ty uc w :
  dns_type_ok ty = true → inv w → inv (resolve_start now h ty uc w).
Proof.
  intros Hty Hinv. destruct (resolve_start_cases now h ty uc w) as (Hs & Ec).
  set (key := cache_key _ _) in *. set (q := Build_query _ _ _ _) in *.
  set (w' := resolve_start _ _ _ _ _) in *.
  pose proof Hinv as [Hp Hr Hu Hf Hw Hk Hc Hca].
  apply counted_next in Hc as (Hhit & Hmiss).
  assert (cache_wf (cache (resolver w'))) as Hca'.
  { rewrite Ec. destruct uc; [by apply cache_wf_get|done]. }
  assert (∀ x, tasks w' = tasks w ++ [x] → len (tasks w) + 1 = len (tasks w')) as Hlen
    by (intros x ->; lens).
  destruct Hs as [valid _ Et Ef Ep Es|fid Epk Et Ef Ep Es|Epk Et Ef Ep Es]; rewrite (Hlen _ Et) in *.
  - apply (inv_same w); rewrite ?Es, ?Ef; try done; [|by eauto|].
    + intros i q'. split; [|by apply (runs_old _ _ _ _ _ Et)].
      intros H. by apply (runs_snoc _ _ _ _ _ Et) in H as [H|[_ [=]]].
    + intros i f H. apply (wait_snoc _ _ _ _ _ Et) in H as [H|[=]]. by eauto.
  - apply (inv_same w); rewrite ?Es, ?Ef; try done; [|by eauto|].
    + intros i q'. split; [|by apply (runs_old _ _ _ _ _ Et)].
      intros H. by apply (runs_snoc _ _ _ _ _ Et) in H as [H|[_ [=]]].
    + intros i f H. apply (wait_snoc _ _ _ _ _ Et) in H as [H|[= <-]]; [by eauto|].
      destruct (Hp _ _ Epk) as (j & q' & Hq & _ & <-).
      destruct (Hf _ _ Hq) as [H'|H']; by eapply lookup_lt_Some.
  - assert (∀ i q', runs w i q' → q_key q' ≠ key ∧ (q_future q' < length (futures w))%nat) as Hfresh.
    { intros i q' H. split; [intros E; rewrite <-E, (Hr _ _ H) in Epk; done|].
      destruct (Hf _ _ H) as [H'|H']; by eapply lookup_lt_Some. }
    assert (∀ i q', runs w' i q' → runs w i q' ∨ i = length (tasks w) ∧ q' = q) as Hnew.
    { intros i q' H. apply (runs_snoc _ _ _ _ _ Et) in H as [H|[-> [= <-]]]; auto. }
    assert (runs w' (length (tasks w)) q) as Hq by (unfold runs; rewrite Et; by apply list_lookup_middle).
    split.
    + intros k fid. rewrite Ep, lookup_insert_Some. intros [(<- & <-)|(Hne & (i & q' & H & E)%Hp)].
      * by exists (length (tasks w)), q.
      * exists i, q'. split; [by apply (runs_old _ _ _ _ _ Et)|done].
    + intros i q' [H|[-> ->]]%Hnew; rewrite Ep; [|apply lookup_insert_eq].
      destruct (Hfresh _ _ H) as (Hne & _). rewrite lookup_insert_ne by done. by apply (Hr i).
    + intros i j qi qj [Hi|[-> ->]]%Hnew [Hj|[-> ->]]%Hnew; [by apply Hu|..|done].
      * destruct (Hfresh _ _ Hi). cbn. intros [E|E]; [done|lia].
      * destruct (Hfresh _ _ Hj). cbn. intros [E|E]; [done|lia].
    + intros i q' [H|[-> ->]]%Hnew; rewrite Ef.
      * destruct (Hf _ _ H) as [E|E]; [left|right]; by apply lookup_app_l_Some.
      * left. cbn. by apply list_lookup_middle.
    + intros i fid H. rewrite Ef, length_app. apply (wait_snoc _ _ _ _ _ Et) in H as [H|[=]].
      apply Hw in H. lia.
    + intros i q' [H|[-> ->]]%Hnew; [by eapply Hk|]. exists h, ty. split; [|done].
      apply dns_type_bound in Hty. lia.
    + by rewrite Es.
    + done.
Qed.

(** A query ends: its task is done and its key is free. *)
Lemma finish_task_spec i q r o w :
  runs w i q → pending r = pending (resolver w) → cache r = cache (resolver w) →
  let w' := finish_task i q r o w in
  (∀ j q', runs w' j q' ↔ j ≠ i ∧ runs w j q') ∧
  (∀ j fid, tasks w' !! j = Some (Waiting fid) ↔ tasks w !! j = Some (Waiting fid)) ∧
  length (tasks w') = length (tasks w) ∧
  pending (resolver w') = delete (q_key q) (pending (resolver w)) ∧ st (resolver w') = st r ∧
  (cache (resolver w') = cache (resolver w) ∨
   ∃ l, l ≠ [] ∧ cache (resolver w') = LRUCache.put (q_key q) l (cache (resolver w))) ∧
  length (futures w') = length (futures w) ∧
  (∀ fid, fid ≠ q_future q → futures w' !! fid = futures w !! fid) ∧
  (futures w !! q_future q = Some FPending → o ≠ Err CancelledError →
   ∃ f, futures w' !! q_future q = Some f ∧ future_result f = Some o ∧ tasks w' !! i = Some (Done o)) ∧
  (o = Err CancelledError → futures w' = futures w ∧ cache (resolver w') = cache (resolver w)).
Proof.
  intros Hi Ep Ec w'. subst w'. unfold finish_task.
  destruct (resolve_finish q o r (futures w)) as [[r' fs'] o'] eqn:E.
  destruct (resolve_finish_spec q o r (futures w) r' fs' o' E) as (H1 & H2 & H3 & H4 & H5 & H6 & H7 & _).
  cbn. rewrite Ep in H1. rewrite Ec in H3, H7.
  assert (i < length (tasks w))%nat as Hlt by (by eapply lookup_lt_Some).
  split_and!; try done.
  - intros j q'. unfold runs. cbn. rewrite list_lookup_insert_Some. naive_solver.
  - intros j fid. rewrite list_lookup_insert_Some. unfold runs in Hi. split; [naive_solver|].
    intros H. right. split; [intros ->; congruence|done].
  - by rewrite length_insert.
  - intros Hf Ho. destruct (H6 Hf Ho) as (-> & f & Hf' & Hr). exists f.
    split_and!; [done..|]. by apply list_lookup_insert_eq.
  - intros ->. by destruct (H7 eq_refl) as (-> & _ & ->).
Qed.

Lemma inv_finish i q r o w :
  inv w → runs w i q → pending r = pending (resolver w) → cache r = cache (resolver w) →
  counted (st r) (len (tasks w)) → inv (finish_task i q r o w).
Proof.
  intros [Hp Hr Hu Hf Hw Hk Hc Hca] Hi Ep Ec Hcr.
  destruct (finish_task_spec i q r o w Hi Ep Ec) as (Hruns & Hwait & Lt & Ep' & Es & Eca & Lf & Hfs & _).
  set (w' := finish_task _ _ _ _ _) in *. split.
  - intros k fid. rewrite Ep', lookup_delete_Some. intros (Hne & (j & q' & H & <- & E)%Hp).
    exists j, q'. split; [|done]. apply Hruns. split; [|done]. intros ->.
    unfold runs in *. congruence.
  - intros j q' (Hne & H)%Hruns. rewrite Ep', lookup_delete_ne; [by apply (Hr j)|].
    intros E. apply Hne. eapply Hu; [exact H|exact Hi|]. by left.
  - intros j k qj qk (_ & Hj)%Hruns (_ & Hk')%Hruns. by apply Hu.
  - intros j q' (Hne & H)%Hruns. rewrite Hfs; [by apply (Hf j)|].
    intros E. apply Hne. eapply Hu; [exact H|exact Hi|]. by right.
  - intros j fid H%Hwait. rewrite Lf. by eapply Hw.
  - intros j q' (_ & H)%Hruns. by eapply Hk.
  - by rewrite Es, Lt.
  - destruct Eca as [->|(l & Hl & ->)]; [done|]. apply cache_wf_put; [|done]. split; [by eapply Hk|done].
Qed.

(** Setting a task that waited. *)
Lemma runs_set i fid o w j q :
  tasks w !! i = Some (Waiting fid) → <[i := Done o]> (tasks w) !! j = Some (Querying q) ↔ runs w j q.
Proof.
  intros H. rewrite list_lookup_insert_Some. unfold runs. split; [naive_solver|].
  intros Hj. right. split; [intros ->; congruence|done].
Qed.

Lemma wait_set i o w j fid : <[i := Done o]> (tasks w) !! j = Some (Waiting fid) → tasks w !! j = Some (Waiting fid).
Proof. rewrite list_lookup_insert_Some. naive_solver. Qed.

Lemma inv_step w w' : inv w → step w w' → inv w'.
Proof.
  intros Hinv Hs. pose proof Hinv as [Hp Hr Hu Hf Hw Hk Hc Hca].
  destruct Hs as [now h ty uc w Hty|i q e r o w Hi Hq _|i fid f o w Hi Hfu Ho|w|h ty w].
  - by apply inv_start.
  - apply query_state in Hq as [->| ->]; by apply inv_finish.
  - apply (inv_same w); cbn; rewrite ?length_insert; try done; [|by eauto|].
    + intros j q. by apply (runs_set i fid).
    + intros j k H%wait_set. by eapply Hw.
  - apply (inv_same w); try done; [by eauto|]. destruct Hca as (_ & _ & Hm).
    split; [|by repeat constructor]. split; cbn; [constructor|lia].
  - assert (∀ c, pending (with_cache c (resolver w)) = pending (resolver w)) by done.
    unfold remove_from_cache. pose proof (cache_wf_remove (cache_key h ty) _ Hca) as Hcr.
    destruct (LRUCache.remove _ _) as [c b]. by apply (inv_same w); eauto.
Qed.

Lemma inv_cancel w w' : inv w → cancel w w' → inv w'.
Proof.
  intros Hinv Hs. pose proof Hinv as [Hp Hr Hu Hf Hw Hk Hc Hca].
  destruct Hs as [i q w Hi|i fid w Hi]; [by apply inv_finish|].
  apply (inv_same w); cbn; rewrite ?length_insert; try done.
  - intros j q. by apply (runs_set i fid).
  - intros k f Hkf. destruct (futures w !! fid) as [[| | |]|] eqn:E; eauto.
    destruct (decide (k = fid)) as [->|Hne].
    + exists FCancelled. rewrite list_lookup_insert_eq by (by eapply lookup_lt_Some).
      assert (f = FPending) as -> by congruence. auto.
    + exists f. rewrite list_lookup_insert_ne by done. auto.
  - intros j k H%wait_set. by eapply Hw.
Qed.

Lemma inv_init r : counted (st r) 0 → pending r = ∅ → cache_wf (cache r) → inv (init_world r).
Proof.
  intros Hc Hp Hca. split; cbn; try done.
  intros k fid. by rewrite Hp, lookup_empty.
Qed.

(** A call, a return or a cancellation. *)
Definition event (w w' : world) : Prop := step w w' ∨ cancel w w'.

Lemma inv_reachable w : rtc event (init_world init_resolver) w → inv w.
Proof.
  intros H. refine (rtc_ind_r (R := event) inv (init_world init_resolver) _ _ w H); [|intros y z _ [Hs|Hs] Hi].
  - apply inv_init; [done..|]. split; [split; [constructor|done]|]. split; [constructor|done].
  - by eapply inv_step.
  - by eapply inv_cancel.
Qed.

(** ** Waiting calls are served *)

(** Without cancellations, the future of a running query is pending and a pending
    future has a running query. *)
Definition served (w : world) : Prop :=
  (∀ i q, runs w i q → futures w !! q_future q = Some FPending) ∧
  (∀ i fid, tasks w !! i = Some (Waiting fid) → futures w !! fid = Some FPending →
     ∃ j q, runs w j q ∧ q_future q = fid).

Lemma served_start now h ty uc w : inv w → served w → served (resolve_start now h ty uc w).
Proof.
  intros [Hp Hr Hu Hf Hw Hk Hc Hca] (Hs1 & Hs2).
  destruct (resolve_start_cases now h ty uc w) as (Hs & _).
  set (w' := resolve_start _ _ _ _ _) in *. set (q0 := Build_query _ _ _ _) in *.
  destruct Hs as [valid _ Et Ef _ _|fid Epk Et Ef _ _|Epk Et Ef _ _].
  - split; rewrite Ef.
    + intros i q H. apply (runs_snoc _ _ _ _ _ Et) in H as [H|[_ [=]]]. by eapply Hs1.
    + intros i f H Hpf. apply (wait_snoc _ _ _ _ _ Et) in H as [H|[=]].
      destruct (Hs2 _ _ H Hpf) as (j & q & Hq & E). exists j, q. split; [by apply (runs_old _ _ _ _ _ Et)|done].
  - split; rewrite Ef.
    + intros i q H. apply (runs_snoc _ _ _ _ _ Et) in H as [H|[_ [=]]]. by eapply Hs1.
    + intros i f H Hpf. apply (wait_snoc _ _ _ _ _ Et) in H as [H|[= ->]].
      * destruct (Hs2 _ _ H Hpf) as (j & q & Hq & E). exists j, q. split; [by apply (runs_old _ _ _ _ _ Et)|done].
      * destruct (Hp _ _ Epk) as (j & q & Hq & _ & E). exists j, q. split; [by apply (runs_old _ _ _ _ _ Et)|done].
  - split; rewrite Ef.
    + intros i q H. apply (runs_snoc _ _ _ _ _ Et) in H as [H|[_ [= <-]]].
      * apply lookup_app_l_Some. by eapply Hs1.
      * cbn. by apply list_lookup_middle.
    + intros i f H Hpf. apply (wait_snoc _ _ _ _ _ Et) in H as [H|[=]].
      rewrite lookup_app_l in Hpf by (by eapply Hw).
      destruct (Hs2 _ _ H Hpf) as (j & q & Hq & E). exists j, q. split; [by apply (runs_old _ _ _ _ _ Et)|done].
Qed.

Lemma served_step w w' : inv w → served w → step w w' → served w'.
Proof.
  intros Hinv Hsv Hs. pose proof Hsv as (Hs1 & Hs2).
  destruct Hs as [now h ty uc w Hty|i q e r o w Hi Hq Ho|i fid f o w Hi Hfu Ho|w|h ty w]; [| | |done|done].
  - by apply served_start.
  - assert (pending r = pending (resolver w) ∧ cache r = cache (resolver w)) as (Ep & Ec)
      by (by apply query_state in Hq as [->| ->]).
    destruct (finish_task_spec i q r o w Hi Ep Ec) as (Hruns & Hwait & _ & _ & _ & _ & _ & Hfs & Hdone & _).
    destruct (Hdone (Hs1 _ _ Hi) Ho) as (f & Hf & Hfr & _).
    pose proof (inv_unique _ Hinv) as Hu. split.
    + intros j q' (Hne & H)%Hruns. rewrite Hfs; [by apply (Hs1 j)|].
      intros E. apply Hne. eapply Hu; [exact H|exact Hi|]. by right.
    + intros j k H%Hwait Hpf. destruct (decide (k = q_future q)) as [->|Hne].
      { rewrite Hf in Hpf. by injection Hpf as ->. }
      rewrite Hfs in Hpf by done. destruct (Hs2 _ _ H Hpf) as (x & q' & Hq' & E).
      exists x, q'. split; [|done]. apply Hruns. split; [|done]. intros ->.
      unfold runs in *. congruence.
  - split; cbn.
    + intros j q H. apply (runs_set i fid) in H; [|done]. by eapply Hs1.
    + intros j k H%wait_set Hpf. destruct (Hs2 _ _ H Hpf) as (x & q & Hq & E).
      exists x, q. split; [by apply (runs_set i fid)|done].
Qed.

Lemma served_reachable w : rtc step (init_world init_resolver) w → inv w ∧ served w.
Proof.
  intros H. refine (rtc_ind_r (R := step) (λ w, inv w ∧ served w) (init_world init_resolver) _ _ w H).
  - split; [apply inv_reachable, rtc_refl|]. by split.
  - intros y z _ Hs (Hi & Hsv). split; [by eapply inv_step|by eapply served_step].
Qed.

(** ** What a step cannot change *)

(** A future that is done keeps its result, a task that is done stays done, and a task
    that waits waits or is done with the result of its future. *)
Lemma step_keeps w w' :
  inv w → served w → step w w' →
  (∀ fid f o, futures w !! fid = Some f → future_result f = Some o → futures w' !! fid = Some f) ∧
  (∀ i o, tasks w !! i = Some (Done o) → tasks w' !! i = Some (Done o)) ∧
  (∀ i fid f o, tasks w !! i = Some (Waiting fid) → futures w !! fid = Some f → future_result f = Some o →
     tasks w' !! i = Some (Waiting fid) ∨ tasks w' !! i = Some (Done o)).
Proof.
  intros Hinv (Hs1 & _) Hs.
  destruct Hs as [now h ty uc w Hty|i q e r o w Hi Hq Ho|i fid f o w Hi Hfu Ho|w|h ty w].
  - destruct (resolve_start_cases now h ty uc w) as (Hs & _).
    destruct Hs as [valid _ -> -> _ _|fid _ -> -> _ _|_ -> -> _ _];
      split_and!; eauto using lookup_app_l_Some.
  - assert (pending r = pending (resolver w) ∧ cache r = cache (resolver w)) as (Ep & Ec)
      by (by apply query_state in Hq as [->| ->]).
    destruct (finish_task_spec i q r o w Hi Ep Ec) as (_ & Hwait & _ & _ & _ & _ & _ & Hfs & _).
    split_and!.
    + intros fid f o' Hf Ho'. rewrite Hfs; [done|]. intros ->.
      rewrite (Hs1 _ _ Hi) in Hf. by injection Hf as <-.
    + intros j o' Hj. unfold finish_task. destruct (resolve_finish _ _ _ _) as [[? ?] ?]. cbn.
      rewrite list_lookup_insert_ne; [done|]. intros ->. unfold runs in Hi. congruence.
    + intros j fid f o' Hj Hf Ho'. left. by apply Hwait.
  - cbn. split_and!; eauto.
    + intros j o' Hj. rewrite list_lookup_insert_ne; [done|]. intros ->. congruence.
    + intros j k f' o' Hj Hf' Ho'. destruct (decide (i = j)) as [->|Hne].
      * right. assert (k = fid) as -> by congruence. assert (f' = f) as -> by congruence.
        assert (o' = o) as -> by congruence. apply list_lookup_insert_eq. by eapply lookup_lt_Some.
      * left. by rewrite list_lookup_insert_ne.
  - eauto 10.
  - eauto 10.
Qed.

(** ** Abandoned futures *)

(** A pending future that no query will set, with a task that waits for it. *)
Definition abandoned (fid j : nat) (w : world) : Prop :=
  futures w !! fid = Some FPending ∧ (∀ i q, runs w i q → q_future q ≠ fid) ∧
  tasks w !! j = Some (Waiting fid).

Lemma abandoned_step fid j w w' : inv w → abandoned fid j w → step w w' → abandoned fid j w'.
Proof.
  intros Hinv (Hf & Hn & Hj) Hs.
  assert (fid < length (futures w))%nat as Hlt by (by eapply lookup_lt_Some).
  destruct Hs as [now h ty uc w Hty|i q e r o w Hi Hq Ho|i k f o w Hi Hfu Ho|w|h ty w]; [| | |done|done].
  - destruct (resolve_start_cases now h ty uc w) as (Hs & _). unfold abandoned.
    destruct Hs as [valid _ Et -> _ _|k _ Et -> _ _|_ Et -> _ _];
      (split_and!; [by try apply lookup_app_l_Some|..|rewrite Et; by apply lookup_app_l_Some]);
      intros i q H; apply (runs_snoc _ _ _ _ _ Et) in H as [H|[_ H]]; try discriminate H;
      try (by eapply Hn); injection H as <-; cbn; lia.
  - assert (pending r = pending (resolver w) ∧ cache r = cache (resolver w)) as (Ep & Ec)
      by (by apply query_state in Hq as [->| ->]).
    destruct (finish_task_spec i q r o w Hi Ep Ec) as (Hruns & Hwait & _ & _ & _ & _ & _ & Hfs & _).
    split_and!; [rewrite Hfs; [done|intros ->; by apply (Hn i q)]| |by apply Hwait].
    intros x q' (_ & H)%Hruns. by eapply Hn.
  - split_and!; cbn; [done| |].
    + intros x q H. apply (runs_set i k) in H; [|done]. by eapply Hn.
    + rewrite list_lookup_insert_ne; [done|]. intros ->.
      assert (k = fid) as -> by congruence. assert (f = FPending) as -> by congruence. done.
Qed.

(** ** Exceptions that reach a caller *)

Definition final_errors (w : world) : Prop :=
  (∀ i x, tasks w !! i = Some (Done (Err x)) → retryable x = false) ∧
  (∀ fid x, futures w !! fid = Some (FException x) → retryable x = false).

Lemma final_finish i q r o w :
  final_errors w → runs w i q → (∀ x, o = Err x → retryable x = false) → final_errors (finish_task i q r o w).
Proof.
  intros (Ht & Hf) Hi Ho. unfold finish_task.
  destruct (resolve_finish q o r (futures w)) as [[r' fs'] o'] eqn:E.
  destruct (resolve_finish_spec q o r (futures w) r' fs' o' E) as (_ & _ & _ & _ & _ & _ & _ & H1 & H2 & _).
  split; cbn.
  - intros j x. rewrite list_lookup_insert_Some. intros [(_ & Ex & _)|(_ & Hx)]; [|by eapply Ht].
    injection Ex as Ex. destruct (H2 _ Ex) as [E'| ->]; [by apply Ho|done].
  - intros fid x Hx. destruct (H1 _ _ Hx) as [H'|[H'| ->]]; [by eapply Hf|by apply Ho|done].
Qed.

Lemma final_event w w' : final_errors w → event w w' → final_errors w'.
Proof.
  intros Hw. pose proof Hw as (Ht & Hf). intros [Hs|Hs].
  - destruct Hs as [now h ty uc w Hty|i q e r o w Hi Hq Ho|i fid f o w Hi Hfu Ho|w|h ty w]; [| | |done|done].
    + destruct (resolve_start_cases now h ty uc w) as (Hs & _).
      destruct Hs as [valid _ Et Ef _ _|k _ Et Ef _ _|_ Et Ef _ _]; split; rewrite ?Et, ?Ef;
        intros i x; rewrite ?lookup_snoc_Some; naive_solver.
    + apply final_finish; [done..|]. by eapply query_outcome.
    + split; cbn; [|done]. intros j x. rewrite list_lookup_insert_Some.
      intros [(_ & Ex & _)|(_ & Hx)]; [|by eapply Ht]. injection Ex as ->.
      destruct f; cbn in Ho; simplify_eq; [by eapply Hf|done].
  - destruct Hs as [i q w Hi|i fid w Hi]; [apply final_finish; [done..|by intros x [= <-]]|].
    split; cbn.
    + intros j x. rewrite list_lookup_insert_Some. intros [(_ & Ex & _)|(_ & Hx)]; [|by eapply Ht].
      by injection Ex as <-.
    + intros k x. destruct (futures w !! fid) as [[| | |]|]; try apply Hf.
      rewrite list_lookup_insert_Some. naive_solver.
Qed.

Lemma rstrip_normal h : last h ≠ Some DOT → rstrip_dot h = h.
Proof.
  destruct h as [|c h _] using rev_ind; [done|]. rewrite last_snoc. intros Hc. unfold rstrip_dot.
  rewrite reverse_snoc. rewrite (proj2 (Z.eqb_neq _ _)) by congruence.
  by rewrite <-reverse_snoc, reverse_involutive.
Qed.

(** ** Replies *)

(** The reply is not matched with the query: what a server's answer becomes does not
    depend on the number of the message that was sent. *)
Lemma dns_reply_unmatched fuel now id1 id2 w h ty :
  0 <= id1 < 65536 → 0 <= id2 < 65536 →
  query_server fuel now id1 w h ty = query_server fuel now id2 w h ty.
Proof.
  intros H1 H2. unfold query_server, DNSMessage.encode.
  cbn [DNSMessage.id DNSMessage.flags DNSMessage.questions DNSMessage.answers
       DNSMessage.authorities DNSMessage.additionals].
  rewrite !(pack_u_ok be_bytes 2) by (unfold width; cbn; lia). cbn [mbind res_bind].
  by destruct (res_map DNSQuestion.encode _).
Qed.

(** * Properties *)

Module Properties.

(** The first server does not answer, the others answer with the address 10.0.0.1. *)
Definition example_env : env := {|
  e_receive := λ n _, match n with
    | O => TimedOut
    | S _ => Received [0;0; 129;128; 0;0; 0;1; 0;0; 0;0; 1;97;0; 0;1; 0;1; 0;0;1;44; 0;4; 10;0;0;1]
    end;
  e_msg_id := λ _, 7; e_now := λ _, 100; e_fuel := 10 |}.

Definition example_records : list DNSRecord :=
  [{| rname := str "a."; rtype := T_A; rdata := str "10.0.0.1"; ttl := 300; rclass := 1; priority := 0;
      created_at := 100 |}].

(** Two calls for the same name: the second waits for the query of the first. *)
Definition example_world : world :=
  resolve_start 0 (str "a") T_A true (resolve_start 0 (str "a.") T_A true (init_world init_resolver)).

Definition example_query : query := {| q_host := str "a."; q_type := T_A; q_cache := true; q_future := 0 |}.

Lemma example_steps : rtc step (init_world init_resolver) example_world.
Proof.
  apply (rtc_l _ _ (resolve_start 0 (str "a.") T_A true (init_world init_resolver)));
    [apply step_resolve; reflexivity|].
  apply rtc_once, step_resolve. reflexivity.
Qed.

Lemma example_events : rtc event (init_world init_resolver) example_world.
Proof. eapply rtc_subrel; [|apply example_steps]. intros x y H. by left. Qed.

Lemma example_runs : runs example_world 0 example_query.
Proof. vm_compute. reflexivity. Qed.

Lemma example_waits : tasks example_world !! 1%nat = Some (Waiting (q_future example_query)).
Proof. vm_compute. reflexivity. Qed.

Lemma example_outcome :
  query_with_retry example_env (q_host example_query) (q_type example_query) (resolver example_world) =
  Some (resolver example_world, Ok example_records).
Proof. vm_compute. reflexivity. Qed.

(** A query tries its servers in order, as often as it may, until one call does not
    time out: the outcome of the first such call is the outcome, whatever comes
    after; when every call times out the error is counted and [DNSResolverError] raised. *)
Theorem dns_retry_first_answer e h ty r :
  let l := calls (Z.to_nat (retries r)) (servers r) in
  (∀ n s o, l !! n = Some s →
     (∀ m s', (m < n)%nat → l !! m = Some s' → times_out (ask e h ty m s')) →
     ask e h ty n s = Some o → (∀ x, o = Err x → retryable x = false) →
     query_with_retry e h ty r = Some (r, o)) ∧
  ((∀ m s, l !! m = Some s → times_out (ask e h ty m s)) →
     query_with_retry e h ty r = Some (with_stats (count_error (st r)) r, Err DNSResolverError)).
Proof.
  cbv zeta. unfold query_with_retry. rewrite try_attempts_flat. split.
  - intros n s o Hn Hbefore Ha Ho. by rewrite (try_servers_decides e h ty 0 _ n s o).
  - intros H. rewrite <-(app_nil_r (calls _ _)), try_servers_app by done. done.
Qed.

Lemma dns_retry_first_answer_witness :
  query_with_retry example_env (str "a.") T_A init_resolver = Some (init_resolver, Ok example_records).
Proof.
  apply (proj1 (dns_retry_first_answer example_env (str "a.") T_A init_resolver) 1%nat (str "8.8.4.4"));
    [reflexivity| |vm_compute; reflexivity|discriminate].
  intros [|m] s' Hm; [|lia]. intros [= <-]. exists DNSTimeoutError. by split.
Defined.

(** C17: In every state the event loop can reach without cancellations, at most one query runs
    for a key, every waiting call has a running query or a result, and every
    call has been counted as a hit or as a miss. *)
Theorem dns_single_flight w :
  rtc step (init_world init_resolver) w →
  (∀ i j q q', runs w i q → runs w j q' → q_key q = q_key q' → i = j) ∧
  (∀ i fid, tasks w !! i = Some (Waiting fid) →
     (∃ f o, futures w !! fid = Some f ∧ future_result f = Some o) ∨
     (∃ j q, runs w j q ∧ q_future q = fid)) ∧
  queries (st (resolver w)) = cache_hits (st (resolver w)) + cache_misses (st (resolver w)) ∧
  queries (st (resolver w)) = len (tasks w).
Proof.
  intros H. destruct (served_reachable w H) as (Hi & (_ & Hs)). split_and!.
  - intros i j q q' Hq Hq' E. eapply (inv_unique w Hi); [exact Hq|exact Hq'|by left].
  - intros i fid Hw. destruct (lookup_lt_is_Some_2 _ _ (inv_wait w Hi _ _ Hw)) as [f Hf].
    destruct (future_result f) as [o|] eqn:Eo; [left; eauto|right].
    destruct f; try done. by eapply Hs.
  - apply (inv_counts w Hi).
  - apply (inv_counts w Hi).
Qed.

Lemma dns_single_flight_witness :
  queries (st (resolver example_world)) = 2 ∧
  ((∃ f o, futures example_world !! 0%nat = Some f ∧ future_result f = Some o) ∨
   (∃ j q, runs example_world j q ∧ q_future q = 0%nat)).
Proof.
  destruct (dns_single_flight example_world example_steps) as (_ & Hw & _ & Hq).
  split; [exact Hq|]. apply (Hw 1%nat). exact example_waits.
Defined.

(** C18: When a query ends, without cancellations, its call returns the outcome, and every
    call that waits for it returns the same outcome, now or later. *)
Theorem dns_waiters_share w i j q e r o :
  rtc step (init_world init_resolver) w → runs w i q →
  tasks w !! j = Some (Waiting (q_future q)) →
  query_with_retry e (q_host q) (q_type q) (resolver w) = Some (r, o) → o ≠ Err CancelledError →
  ∀ w', rtc step (finish_task i q r o w) w' →
    tasks w' !! i = Some (Done o) ∧
    (tasks w' !! j = Some (Done o) ∨
     tasks w' !! j = Some (Waiting (q_future q)) ∧ step w' (set_task j (Done o) w')).
Proof.
  intros Hr Hi Hj Hq Ho w' Hs. destruct (served_reachable w Hr) as (Hinv & Hsv).
  assert (step w (finish_task i q r o w)) as Hst by (by eapply step_finish).
  assert (pending r = pending (resolver w) ∧ cache r = cache (resolver w)) as (Ep & Ec)
    by (by apply query_state in Hq as [->| ->]).
  destruct (finish_task_spec i q r o w Hi Ep Ec) as (_ & Hwait & _ & _ & _ & _ & _ & _ & Hdone & _).
  destruct (Hdone (proj1 Hsv _ _ Hi) Ho) as (f & Hf & Hfo & Hti).
  set (P := λ w, inv w ∧ served w ∧ futures w !! q_future q = Some f ∧ tasks w !! i = Some (Done o) ∧
    (tasks w !! j = Some (Done o) ∨ tasks w !! j = Some (Waiting (q_future q)))).
  assert (P w') as (_ & _ & Hf' & Hi' & Hj').
  { refine (rtc_ind_r (R := step) P (finish_task i q r o w) _ _ w' Hs).
    - split_and!; [by eapply inv_step|by eapply served_step|done|done|]. right. by apply Hwait.
    - intros y z _ Hyz (Hy1 & Hy2 & Hy3 & Hy4 & Hy5).
      destruct (step_keeps y z Hy1 Hy2 Hyz) as (K1 & K2 & K3).
      split_and!; [by eapply inv_step|by eapply served_step|by eapply K1|by apply K2|].
      destruct Hy5 as [Hd|Hd]; [left; by apply K2|].
      destruct (K3 _ _ _ _ Hd Hy3 Hfo) as [H'|H']; [right|left]; done. }
  split; [done|]. destruct Hj' as [Hd|Hd]; [by left|right]. split; [done|]. by eapply step_wake.
Qed.

Lemma dns_waiters_share_witness :
  let w' := finish_task 0 example_query (resolver example_world) (Ok example_records) example_world in
  tasks w' !! 0%nat = Some (Done (Ok example_records)) ∧
  (tasks w' !! 1%nat = Some (Done (Ok example_records)) ∨
   tasks w' !! 1%nat = Some (Waiting 0) ∧ step w' (set_task 1 (Done (Ok example_records)) w')).
Proof.
  exact (dns_waiters_share example_world 0 1 example_query example_env (resolver example_world)
    (Ok example_records) example_steps example_runs example_waits example_outcome
    ltac:(discriminate) _ (rtc_refl step _)).
Defined.

(** When the call that runs a query is cancelled, the calls that wait for the query wait
    forever, whatever other calls do. *)
Theorem dns_cancel_abandons w i j q :
  rtc step (init_world init_resolver) w → runs w i q →
  tasks w !! j = Some (Waiting (q_future q)) →
  let w1 := finish_task i q (resolver w) (Err CancelledError) w in
  cancel w w1 ∧ ∀ w', rtc step w1 w' → tasks w' !! j = Some (Waiting (q_future q)).
Proof.
  intros Hr Hi Hj w1. split; [by apply cancel_query|]. intros w' Hs.
  destruct (served_reachable w Hr) as (Hinv & Hsv).
  destruct (finish_task_spec i q (resolver w) (Err CancelledError) w Hi eq_refl eq_refl)
    as (Hruns & Hwait & _ & _ & _ & _ & _ & _ & _ & Hc).
  destruct (Hc eq_refl) as (Ef & _).
  assert (inv w' ∧ abandoned (q_future q) j w') as (_ & _ & _ & H); [|exact H].
  refine (rtc_ind_r (R := step) (λ w, inv w ∧ abandoned (q_future q) j w) w1 _ _ w' Hs).
  - split; [eapply inv_cancel; [exact Hinv|by apply cancel_query]|]. split_and!.
    + unfold w1. rewrite Ef. exact (proj1 Hsv _ _ Hi).
    + intros k q' (Hne & H)%Hruns E. apply Hne. eapply (inv_unique w Hinv); [exact H|exact Hi|by right].
    + by apply Hwait.
  - intros y z _ Hyz (Hy & Ha). split; [by eapply inv_step|by eapply abandoned_step].
Qed.

Lemma dns_cancel_abandons_witness :
  let w1 := finish_task 0 example_query (resolver example_world) (Err CancelledError) example_world in
  tasks (resolve_start 9 (str "b") T_A true w1) !! 1%nat = Some (Waiting 0).
Proof.
  intros w1. destruct (dns_cancel_abandons example_world 0 1 example_query example_steps example_runs
    example_waits) as (_ & H).
  apply H, rtc_once, step_resolve. reflexivity.
Defined.

(** No call raises [DNSTimeoutError] or an [OSError], although the documentation of
    [resolve] names the first. *)
Theorem dns_never_times_out w i x :
  rtc event (init_world init_resolver) w → tasks w !! i = Some (Done (Err x)) → retryable x = false.
Proof.
  intros H. assert (final_errors w) as (Ht & _); [|by apply Ht].
  refine (rtc_ind_r (R := event) final_errors (init_world init_resolver) _ _ w H); [by split|].
  intros y z _ Hyz Hy. by eapply final_event.
Qed.

Lemma dns_never_times_out_witness : retryable CancelledError = false.
Proof.
  apply (dns_never_times_out
    (finish_task 0 example_query (resolver example_world) (Err CancelledError) example_world) 0).
  - eapply rtc_r; [exact example_events|]. right. apply cancel_query. exact example_runs.
  - vm_compute. reflexivity.
Defined.

(** [remove_from_cache] removes nothing when its name does not end in a dot: the keys of
    the cache are made of names with a final dot. *)
Theorem dns_remove_needs_dot w h ty :
  rtc event (init_world init_resolver) w → dns_type_ok ty = true → last h ≠ Some DOT →
  (remove_from_cache h ty (resolver w)).2 = false ∧
  cache (remove_from_cache h ty (resolver w)).1 = cache (resolver w).
Proof.
  intros H Hty Hh. destruct (inv_cache w (inv_reachable w H)) as (_ & Hk & _).
  assert (LRUCache.find (cache_key h ty) (LRUCache.cache (cache (resolver w))) = None) as E.
  { destruct (LRUCache.find _ _) as [v|] eqn:E; [|done].
    apply (find_Forall (P := entry_ok)) in E as ((h' & t' & Ht' & E) & _); [|done]. cbn in E.
    apply cache_key_inj in E; [|apply dns_type_bound in Hty; lia|done].
    exfalso. apply Hh. rewrite E. unfold normal_name. apply last_snoc. }
  unfold remove_from_cache, LRUCache.remove. by rewrite E.
Qed.

Lemma dns_remove_needs_dot_witness :
  (remove_from_cache (str "a") T_A (resolver example_world)).2 = false.
Proof. apply (dns_remove_needs_dot example_world (str "a") T_A example_events); done. Defined.

(** After a successful query with records, until the cache changes, a call for the same
    name, with or without final dots, and type returns its records that are still valid at
    once, without a query. *)
Theorem dns_cached_answer w i q e r l now h :
  rtc event (init_world init_resolver) w → runs w i q → q_cache q = true →
  query_with_retry e (q_host q) (q_type q) (resolver w) = Some (r, Ok l) →
  q_host q = normal_name h → filter (λ x, is_expired now x = false) l ≠ [] →
  let w1 := finish_task i q r (Ok l) w in
  let w2 := resolve_start now h (q_type q) true w1 in
  tasks w2 = tasks w1 ++ [Done (Ok (filter (λ x, is_expired now x = false) l))] ∧
  futures w2 = futures w1 ∧ pending (resolver w2) = pending (resolver w1).
Proof.
  intros Hr Hi Hc Hq Hh Hv w1 w2. pose proof (inv_reachable w Hr) as Hinv.
  assert (cache r = cache (resolver w)) as Ec by (by apply query_state in Hq as [->| ->]).
  assert (LRUCache.find (q_key q) (LRUCache.cache (cache (resolver w1))) = Some l) as Hf.
  { unfold w1, finish_task. destruct (resolve_finish q (Ok l) r (futures w)) as [[r' fs'] o'] eqn:E.
    destruct (resolve_finish_spec _ _ _ _ _ _ _ E) as (_ & _ & _ & _ & _ & _ & _ & _ & _ & Hput).
    cbn. rewrite (Hput l eq_refl Hc); [|intros ->; done]. rewrite Ec.
    destruct (inv_cache w Hinv) as ((Hn & Hl) & _ & Hm). apply put_find; [done|lia|done]. }
  unfold w2, resolve_start. rewrite <-Hh. change (cache_key (q_host q) (q_type q)) with (q_key q).
  unfold LRUCache.get. cbn [cache with_stats]. rewrite Hf.
  unfold valid_records. by destruct (filter _ l).
Qed.
Lemma dns_cached_answer_witness :
  let w1 := finish_task 0 example_query (resolver example_world) (Ok example_records) example_world in
  let w2 := resolve_start 399 (str "a..") T_A true w1 in
  tasks w2 = tasks w1 ++ [Done (Ok example_records)] ∧ futures w2 = futures w1 ∧
  pending (resolver w2) = pending (resolver w1).
Proof.
  apply (dns_cached_answer example_world 0 example_query example_env (resolver example_world)
    example_records 399 (str "a..") example_events example_runs eq_refl example_outcome);
    [reflexivity|discriminate].
Defined.

End Properties.
