(* ===== verification/PluginDeps.v ===== *)
(** Plugin dependencies: plugins/plugin_manager.py, [DependencyGraph] and
    [PluginDependencyResolver].

    Recursive functions carry fuel for the depth of the recursion, and [None] is a
    recursion deeper than that; the depth is at most the number of nodes. Python's own
    limit on it is left out. The order in which a set is iterated is a parameter with
    the law that it lists the elements once each ([SetIteration]). *)

From Stdlib Require Import Sorted.
From stdpp Require Import relations.
From S2P Require Import Prelude Bytes Utf8 Str PyNum PyDict Sorting.

(** [sorted(s)]. *)
Definition sorted_set (s : gset pystr) : list pystr := sort_by text_lt (elements s).

(** * The dependency graph *)

Module DependencyGraph.
Record t := {
  nodes : gset pystr; edges : gmap pystr (gset pystr); optional_edges : gmap pystr (gset pystr) }.

Definition init_graph : t := {| nodes := ∅; edges := ∅; optional_edges := ∅ |}.

(** [d.get(k, set())]. *)
Definition targets (d : gmap pystr (gset pystr)) (k : pystr) : gset pystr := default ∅ (d !! k).

(** [if k not in d: d[k] = set()]. *)
Definition ensure (d : gmap pystr (gset pystr)) (k : pystr) : gmap pystr (gset pystr) :=
  match d !! k with Some _ => d | None => <[k := ∅]> d end.

(** [d.setdefault(k, set()).add(x)]. *)
Definition add_target (d : gmap pystr (gset pystr)) (k x : pystr) : gmap pystr (gset pystr) :=
  <[k := targets d k ∪ {[x]}]> d.

Definition add_node (name : pystr) (g : t) : t := {|
  nodes := nodes g ∪ {[name]}; edges := ensure (edges g) name;
  optional_edges := ensure (optional_edges g) name |}.

Definition add_dependency (plugin dependency : pystr) (g : t) : t :=
  let g := add_node dependency (add_node plugin g) in
  {| nodes := nodes g; edges := add_target (edges g) plugin dependency;
     optional_edges := optional_edges g |}.

Definition add_optional_dependency (plugin dependency : pystr) (g : t) : t :=
  let g := add_node dependency (add_node plugin g) in
  {| nodes := nodes g; edges := edges g;
     optional_edges := add_target (optional_edges g) plugin dependency |}.

(** ** Cycles *)

Section search.
Context `{SetIteration} (g : t).

(** The variables the closure [dfs] shares. *)
Record search := { visited : gset pystr; in_stack : gset pystr; stack : list pystr }.

Definition enter (node : pystr) (s : search) : search := {|
  visited := visited s ∪ {[node]}; in_stack := in_stack s ∪ {[node]}; stack := stack s ++ [node] |}.

Definition leave (node : pystr) (s : search) : search := {|
  visited := visited s; in_stack := in_stack s ∖ {[node]}; stack := take (pred (length (stack s))) (stack s) |}.

(** [stack[stack.index(dep):]]. *)
Fixpoint from_first (dep : pystr) (l : list pystr) : list pystr :=
  match l with
  | x :: l' => if decide (x = dep) then l else from_first dep l'
  | [] => []
  end.

Definition found (dep : pystr) (s : search) : search := {|
  visited := visited s; in_stack := in_stack s; stack := from_first dep (stack s) ++ [dep] |}.

(** The loop of [dfs] over the dependencies of [node]; [rec] is the recursive call.
    The result tells whether a cycle was found. *)
Fixpoint dfs_loop (rec : pystr → search → option (bool * search)) (node : pystr) (deps : list pystr)
    (s : search) : option (bool * search) :=
  match deps with
  | [] => Some (false, leave node s)
  | dep :: deps' =>
      if decide (dep ∈ visited s) then
        if decide (dep ∈ in_stack s) then Some (true, found dep s)
        else dfs_loop rec node deps' s
      else
        match rec dep s with
        | Some (false, s) => dfs_loop rec node deps' s
        | r => r
        end
  end.

Fixpoint dfs (fuel : nat) (node : pystr) (s : search) : option (bool * search) :=
  match fuel with
  | O => None
  | S fuel' => dfs_loop (dfs fuel') node (iterate (targets (edges g) node)) (enter node s)
  end.

Fixpoint search_all (fuel : nat) (l : list pystr) (s : search) : option (option (list pystr)) :=
  match l with
  | [] => Some None
  | node :: l' =>
      if decide (node ∈ visited s) then search_all fuel l' s
      else
        match dfs fuel node s with
        | Some (true, s) => Some (Some (stack s))
        | Some (false, s) => search_all fuel l' s
        | None => None
        end
  end.

Definition has_circular_dependency (fuel : nat) : option (option (list pystr)) :=
  search_all fuel (sorted_set (nodes g)) {| visited := ∅; in_stack := ∅; stack := [] |}.

(** ** Order *)

(** The closure [visit], on the visited nodes and the result. *)
Fixpoint visit_loop (rec : pystr → gset pystr * list pystr → option (gset pystr * list pystr))
    (deps : list pystr) (s : gset pystr * list pystr) : option (gset pystr * list pystr) :=
  match deps with
  | [] => Some s
  | dep :: deps' => s ← rec dep s; visit_loop rec deps' s
  end.

Fixpoint visit (fuel : nat) (node : pystr) (s : gset pystr * list pystr)
    : option (gset pystr * list pystr) :=
  match fuel with
  | O => None
  | S fuel' =>
      if decide (node ∈ s.1) then Some s
      else
        s ← visit_loop (visit fuel') (sorted_set (targets (edges g) node)) (s.1 ∪ {[node]}, s.2);
        Some (s.1, s.2 ++ [node])
  end.

Definition topological_sort (fuel : nat) : option (res (list pystr)) :=
  cycle ← has_circular_dependency fuel;
  match cycle with
  | Some (_ :: _) => Some (Err PluginDependencyError)
  | _ => s ← visit_loop (visit fuel) (sorted_set (nodes g)) (∅, []); Some (Ok s.2)
  end.
End search.

(** ** Queries *)

Definition get_dependencies (plugin : pystr) (g : t) : gset pystr := targets (edges g) plugin.

Definition get_dependents (plugin : pystr) (g : t) : gset pystr :=
  dom (filter (λ x, plugin ∈ x.2) (edges g)).

(** The loop of [get_all_dependencies]: the list is taken from its end. *)
Fixpoint all_dependencies `{SetIteration} (fuel : nat) (g : t) (to_visit : list pystr) (result : gset pystr)
    : option (gset pystr) :=
  match fuel with
  | O => None
  | S fuel' =>
      match last to_visit with
      | None => Some result
      | Some dep =>
          let to_visit := take (pred (length to_visit)) to_visit in
          if decide (dep ∈ result) then all_dependencies fuel' g to_visit result
          else all_dependencies fuel' g (to_visit ++ iterate (targets (edges g) dep)) (result ∪ {[dep]})
      end
  end.

Definition get_all_dependencies `{SetIteration} (fuel : nat) (plugin : pystr) (g : t) : option (gset pystr) :=
  all_dependencies fuel g (iterate (targets (edges g) plugin)) ∅.
End DependencyGraph.

(** * Versions *)

(** [parse_version]. *)
Definition part_value (p : pystr) : Z := default 0 (py_int p).

Definition parse_version (v : pystr) : list Z :=
  let result := part_value <$> split_on dot (replace_char hyphen dot v) in
  take 3 (result ++ replicate (3 - length result) 0).

Definition comma : Z := 44.

(** [version_matches] for a constraint without commas. *)
Definition version_matches_one (act : list Z) (constraint : pystr) : bool :=
  let constraint := strip constraint in
  let rest n := parse_version (drop n constraint) in
  if startswith (str ">=") constraint then negb (text_lt act (rest 2%nat))
  else if startswith (str "<=") constraint then negb (text_lt (rest 2%nat) act)
  else if startswith (str ">") constraint then text_lt (rest 1%nat) act
  else if startswith (str "<") constraint then text_lt act (rest 1%nat)
  else if startswith (str "==") constraint then bool_decide (act = rest 2%nat)
  else if startswith (str "!=") constraint then negb (bool_decide (act = rest 2%nat))
  else bool_decide (act = parse_version constraint).

(** [version_matches]: the parts between commas hold no comma. *)
Definition version_matches (actual constraint : pystr) : bool :=
  let act := parse_version actual in
  if bool_decide (comma ∈ constraint) then
    forallb (λ p, version_matches_one act (strip p)) (split_on comma constraint)
  else version_matches_one act constraint.

Definition star : pystr := str "*".

(** [_check_version]. *)
Definition check_version (constraint actual_version : pystr) : res () :=
  if bool_decide (constraint = star) || bool_decide (constraint = []) then Ok ()
  else guard_else (version_matches actual_version constraint) PluginDependencyError.

(** * The resolver *)

(** What [PluginDescriptor] and its metadata hold for the resolver. *)
Record PluginDescriptor := {
  d_name : pystr; d_version : pystr;
  dependencies : list (pystr * pystr); optional_dependencies : list (pystr * pystr) }.

Module PluginDependencyResolver.
Import DependencyGraph.

(** [_plugins], in the order of insertion. *)
Abbreviation plugins := (list (pystr * PluginDescriptor)).

Definition register_plugin (d : PluginDescriptor) (ps : plugins) : plugins := dict_set ps (d_name d) d.
Definition unregister_plugin (name : pystr) (ps : plugins) : plugins := dict_del ps name.

(** The graph of [resolve_all]. *)
Definition add_plugin (name : pystr) (d : PluginDescriptor) (g : t) : t :=
  let g := add_node name g in
  let g := foldl (λ g x, add_dependency name x.1 g) g (dependencies d) in
  foldl (λ g x, add_optional_dependency name x.1 g) g (optional_dependencies d).

Definition full_graph (ps : plugins) : t := foldl (λ g x, add_plugin x.1 x.2 g) init_graph ps.

(** One required dependency: installed, in a version that satisfies the constraint. *)
Definition check_dependency (ps : plugins) (x : pystr * pystr) : res () :=
  match dict_get ps x.1 with
  | None => Err PluginDependencyError
  | Some d => check_version x.2 (d_version d)
  end.

(** The loops over the plugins and their dependencies. *)
Fixpoint check_all {A} (f : A → res ()) (l : list A) : res () :=
  match l with
  | [] => Ok ()
  | x :: l' => _ ← f x; check_all f l'
  end.

Definition resolve_all `{SetIteration} (fuel : nat) (ps : plugins) : option (res t) :=
  let graph := full_graph ps in
  cycle ← has_circular_dependency graph fuel;
  match cycle with
  | Some (_ :: _) => Some (Err PluginDependencyError)
  | _ =>
      Some (_ ← check_all (λ p, check_all (check_dependency ps) (dependencies p.2)) ps; Ok graph)
  end.

Definition get_load_order `{SetIteration} (fuel : nat) (ps : plugins) : option (res (list pystr)) :=
  r ← resolve_all fuel ps;
  match r with
  | Ok graph => topological_sort graph fuel
  | Err e => Some (Err e)
  end.

(** [_resolve_recursive]: the graph and the visited names. *)
Fixpoint resolve_recursive (fuel : nat) (ps : plugins) (name : pystr) (s : t * gset pystr)
    : option (res (t * gset pystr)) :=
  match fuel with
  | O => None
  | S fuel' =>
      if decide (name ∈ s.2) then Some (Ok s)
      else
        let s := (s.1, s.2 ∪ {[name]}) in
        match dict_get ps name with
        | None => Some (Err PluginDependencyError)
        | Some d =>
            let required (acc : option (res (t * gset pystr))) (x : pystr * pystr) :=
              match acc with
              | Some (Ok s) =>
                  match check_dependency ps x with
                  | Ok _ => resolve_recursive fuel' ps x.1 (add_dependency name x.1 s.1, s.2)
                  | Err e => Some (Err e)
                  end
              | r => r
              end in
            let optional (acc : option (res (t * gset pystr))) (x : pystr * pystr) :=
              match acc with
              | Some (Ok s) =>
                  match dict_get ps x.1 with
                  | Some _ =>
                      match check_dependency ps x with
                      | Ok _ => resolve_recursive fuel' ps x.1 (add_optional_dependency name x.1 s.1, s.2)
                      | Err e => Some (Err e)
                      end
                  | None => Some (Ok s)
                  end
              | r => r
              end in
            foldl optional (foldl required (Some (Ok (add_node name s.1, s.2))) (dependencies d))
              (optional_dependencies d)
        end
  end.

Definition resolve (fuel : nat) (plugin_name : pystr) (ps : plugins) : option (res t) :=
  r ← resolve_recursive fuel ps plugin_name (init_graph, ∅);
  Some (x ← r; Ok x.1).

Definition get_missing_dependencies (plugin_name : pystr) (ps : plugins) : list (pystr * pystr) :=
  match dict_get ps plugin_name with
  | None => []
  | Some d => filter (λ x, dict_get ps x.1 = None) (dependencies d)
  end.

Definition get_unsatisfied_dependencies (plugin_name : pystr) (ps : plugins) : list (pystr * pystr) :=
  match dict_get ps plugin_name with
  | None => []
  | Some d =>
      filter (λ x, match dict_get ps x.1 with
                   | Some d' => negb (is_ok (check_version x.2 (d_version d')))
                   | None => false
                   end = true) (dependencies d)
  end.
End PluginDependencyResolver.

(** * Lemmas *)

Import DependencyGraph PluginDependencyResolver.

Lemma elem_of_sorted_set x s : x ∈ sorted_set s ↔ x ∈ s.
Proof. unfold sorted_set. by rewrite sort_by_perm, elem_of_elements. Qed.

Lemma elem_of_iterate `{SetIteration} x s : x ∈ iterate s ↔ x ∈ s.
Proof. by rewrite iterate_elements, elem_of_elements. Qed.

(** ** Paths and orders *)

Section order.
Context `{SetIteration} (g : t).
Implicit Types (l : list pystr) (n d x y : pystr).

Definition edge n d : Prop := d ∈ targets (edges g) n.

(** Every edge is between nodes. *)
Definition graph_wf : Prop := ∀ n d, edge n d → n ∈ nodes g ∧ d ∈ nodes g.

(** Each element's dependencies are listed before it. *)
Definition ordered l : Prop := ∀ l1 n l2, l = l1 ++ n :: l2 → ∀ d, edge n d → d ∈ l1.

(** Each element depends on the next one. *)
Definition chain l : Prop := ∀ l1 x y l2, l = l1 ++ x :: y :: l2 → edge x y.

Definition is_cycle l : Prop := ∃ x m, l = x :: m ++ [x] ∧ chain l.

Definition cyclic : Prop := ∃ n, tc edge n n.

Lemma ordered_snoc l n : ordered l → (∀ d, edge n d → d ∈ l) → ordered (l ++ [n]).
Proof.
  intros Hl Hn l1 m l2 E d Hd. destruct l2 as [|y l2 _] using rev_ind.
  - apply app_inj_tail in E as [-> ->]. by apply Hn.
  - rewrite app_comm_cons, app_assoc in E. apply app_inj_tail in E as [-> _]. by eapply Hl.
Qed.

Lemma chain_snoc l n : chain l → (∀ y, last l = Some y → edge y n) → chain (l ++ [n]).
Proof.
  intros Hl Hn l1 x y l2 E. destruct l2 as [|z l2 _] using rev_ind.
  - change (x :: [y]) with ([x] ++ [y]) in E. rewrite app_assoc in E.
    apply app_inj_tail in E as [-> ->]. apply Hn. apply last_snoc.
  - rewrite !app_comm_cons, app_assoc in E. apply app_inj_tail in E as [-> _]. by eapply Hl.
Qed.

Lemma chain_suffix l1 l2 : chain (l1 ++ l2) → chain l2.
Proof. intros Hc l x y l' ->. apply (Hc (l1 ++ l) x y l'). by rewrite app_assoc. Qed.

Lemma chain_prefix l1 l2 : chain (l1 ++ l2) → chain l1.
Proof. intros Hc l x y l' ->. apply (Hc l x y (l' ++ l2)). by rewrite <-app_assoc. Qed.

Lemma chain_tc m x y : chain (x :: m ++ [y]) → tc edge x y.
Proof.
  revert x. induction m as [|z m IH]; intros x Hc.
  - apply tc_once. by apply (Hc [] x y []).
  - eapply tc_l; [apply (Hc [] x z (m ++ [y])); done|].
    apply IH. by apply (chain_suffix [x]).
Qed.

Lemma cycle_cyclic l : is_cycle l → cyclic.
Proof. intros (x & m & -> & Hc). exists x. by apply chain_tc in Hc. Qed.

(** What an element depends on, directly or not, is listed before it. *)
Lemma ordered_tc l1 n l2 d : ordered (l1 ++ n :: l2) → tc edge n d → d ∈ l1.
Proof.
  intros Hl Ht. revert l1 l2 Hl. induction Ht as [n d Hd|n x d Hx _ IH]; intros l1 l2 Hl.
  - by eapply Hl.
  - assert (x ∈ l1) as Hin by (by eapply Hl). apply list_elem_of_split in Hin as (a & b & ->).
    apply elem_of_app. left. apply (IH a (b ++ n :: l2)). by rewrite <-app_assoc in Hl.
Qed.

Lemma ordered_acyclic l : NoDup l → ordered l → (∀ n d, edge n d → n ∈ l) → ¬ cyclic.
Proof.
  intros Hnd Hl Hall (n & Ht).
  assert (n ∈ l) as Hin by (inversion Ht; by eapply Hall).
  apply list_elem_of_split in Hin as (l1 & l2 & ->).
  apply (ordered_tc l1 n l2 n Hl) in Ht. apply NoDup_app in Hnd as (_ & Hd & _).
  by apply (Hd n Ht); left.
Qed.

(** ** The search for a cycle *)

(** The finished nodes in the order they were finished, and the path of nodes that
    are being searched. *)
Record search_ok (fin : list pystr) (s : search) : Prop := {
  so_visited x : x ∈ visited s ↔ x ∈ fin ∨ x ∈ stack s;
  so_stack x : x ∈ in_stack s ↔ x ∈ stack s;
  so_nodup : NoDup (fin ++ stack s);
  so_ordered : ordered fin;
  so_chain : chain (stack s);
  so_nodes x : x ∈ visited s → x ∈ nodes g }.

Definition unvisited (v : gset pystr) : nat := size (nodes g ∖ v).

Lemma unvisited_enter n v : n ∈ nodes g → n ∉ v → unvisited v = S (unvisited (v ∪ {[n]})).
Proof.
  intros Hn Hv. unfold unvisited.
  replace (nodes g ∖ v) with ({[n]} ∪ nodes g ∖ (v ∪ {[n]})).
  - rewrite size_union by set_solver. by rewrite size_singleton.
  - apply leibniz_equiv. intros x. destruct (decide (x = n)); set_solver.
Qed.

Lemma unvisited_mono v v' : v ⊆ v' → (unvisited v' <= unvisited v)%nat.
Proof. intros Hs. unfold unvisited. apply subseteq_size. set_solver. Qed.

(** What a search of a node does: it finds a cycle, or finishes the node and
    everything it depends on. *)
Definition searched (fin : list pystr) (node : pystr) (s : search) (r : option (bool * search)) : Prop :=
  ∃ b s', r = Some (b, s') ∧
    if b then is_cycle (stack s')
    else ∃ fin', search_ok fin' s' ∧ stack s' = stack s ∧ fin ⊆ fin' ∧ node ∈ fin'.

Lemma found_cycle dep node s fin :
  search_ok fin s → dep ∈ stack s → last (stack s) = Some node → edge node dep →
  is_cycle (stack (found dep s)).
Proof.
  intros [_ _ _ _ Hc _] Hin Hlast He. cbn.
  assert (∃ l1 l2, stack s = l1 ++ dep :: l2 ∧ from_first dep (stack s) = dep :: l2) as (l1 & l2 & E & ->).
  { clear -Hin. induction (stack s) as [|x l IH]; [by apply elem_of_nil in Hin|].
    cbn. destruct (decide (x = dep)) as [->|Hne]; [by exists [], l|].
    apply elem_of_cons in Hin as [?|Hin]; [congruence|].
    destruct (IH Hin) as (l1 & l2 & -> & ->). by exists (x :: l1), l2. }
  exists dep, l2. split; [done|]. rewrite E in Hc, Hlast. apply chain_suffix in Hc.
  rewrite last_app_cons in Hlast. apply chain_snoc; [done|]. intros y Hy.
  rewrite Hlast in Hy. by injection Hy as <-.
Qed.

Hypothesis wf : graph_wf.

Lemma dfs_loop_spec rec node : ∀ deps fin s l,
  (∀ dep s' fin', search_ok fin' s' → dep ∉ visited s' → visited s ⊆ visited s' → edge node dep →
     last (stack s') = Some node → searched fin' dep s' (rec dep s')) →
  search_ok fin s → stack s = l ++ [node] → (∀ dep, dep ∈ deps → edge node dep) →
  (∀ dep, edge node dep → dep ∈ deps ∨ dep ∈ fin) →
  ∃ b s', dfs_loop rec node deps s = Some (b, s') ∧
    if b then is_cycle (stack s')
    else ∃ fin', search_ok fin' s' ∧ stack s' = l ∧ fin ⊆ fin' ∧ node ∈ fin'.
Proof.
  induction deps as [|dep deps IH]; intros fin s l Hrec Hok Est Hdeps Hall; cbn [dfs_loop].
  - exists false, (leave node s). split; [done|]. exists (fin ++ [node]).
    destruct Hok as [Hv Hs Hnd Ho Hc Hno].
    assert (stack (leave node s) = l) as El.
    { cbn. rewrite Est, length_app. cbn. apply take_app_length'. lia. }
    assert (node ∉ l) as Hnl.
    { rewrite Est in Hnd. apply NoDup_app in Hnd as (_ & _ & Hnd). apply NoDup_app in Hnd as (_ & Hd & _).
      intros Hin. by apply (Hd node Hin); left. }
    split_and!; [|done|set_solver|set_solver]. split; rewrite ?El.
    + intros x. cbn. rewrite Hv, Est. set_solver.
    + intros x. cbn. rewrite elem_of_difference, Hs, Est. set_solver.
    + rewrite <-app_assoc. rewrite Est in Hnd. by rewrite (Permutation_app_comm [node] l).
    + apply ordered_snoc; [done|]. intros d Hd. by destruct (Hall d Hd) as [?%elem_of_nil|].
    + intros l1 x y l2 E. apply (Hc l1 x y (l2 ++ [node])). rewrite Est, E. by rewrite <-app_assoc.
    + intros x. cbn. apply Hno.
  - pose proof (so_visited _ _ Hok) as Hv. pose proof (so_stack _ _ Hok) as Hs.
    assert (edge node dep) as He by (apply Hdeps; left).
    assert (last (stack s) = Some node) as Hlast by (rewrite Est; apply last_snoc).
    assert (∀ d, d ∈ deps → edge node d) as Hdeps' by (intros d Hd; apply Hdeps; by right).
    destruct (decide (dep ∈ visited s)) as [Hin|Hnin].
    + destruct (decide (dep ∈ in_stack s)) as [Hst|Hnst].
      { exists true, (found dep s). split; [done|]. apply Hs in Hst. by eapply found_cycle. }
      apply (IH fin s l); [done..|]. intros d [Hd|Hd]%Hall; [|by right].
      apply elem_of_cons in Hd as [->|Hd]; [right|by left].
      apply Hv in Hin as [Hin|Hin]; [done|by apply Hs in Hin].
    + destruct (Hrec dep s fin Hok Hnin ltac:(done) He Hlast) as (b & s' & -> & Hb).
      destruct b; [by exists true, s'|]. destruct Hb as (fin' & Hok' & Est' & Hsub & Hdin).
      assert (visited s ⊆ visited s') as Hmono.
      { intros x Hx. apply (so_visited _ _ Hok'). rewrite Est'. apply Hv in Hx as [Hx|Hx]; [left; by apply Hsub|by right]. }
      destruct (IH fin' s' l) as (b & s'' & Er & Hb); [|done|by rewrite Est'|done| |].
      * intros d t ft Ht Hdt Hsub' Hed Hl. apply Hrec; try done. by etrans.
      * intros d [Hd|Hd]%Hall; [|right; by apply Hsub].
        apply elem_of_cons in Hd as [->|Hd]; [by right|by left].
      * exists b, s''. split; [done|]. destruct b; [done|].
        destruct Hb as (fin'' & ? & ? & ? & ?). exists fin''. split_and!; [done..|by etrans|done].
Qed.

Lemma dfs_spec fuel : ∀ node s fin,
  search_ok fin s → node ∈ nodes g → node ∉ visited s →
  (∀ y, last (stack s) = Some y → edge y node) → (unvisited (visited s) <= fuel)%nat →
  searched fin node s (dfs g fuel node s).
Proof.
  induction fuel as [|fuel IH]; intros node s fin Hok Hn Hnv Hlast Hf.
  { rewrite (unvisited_enter node) in Hf by done. lia. }
  cbn [dfs]. destruct Hok as [Hv Hs Hnd Ho Hc Hno].
  assert (node ∉ fin ∧ node ∉ stack s) as (Hn1 & Hn2).
  { split; intros H'; apply Hnv, Hv; auto. }
  assert (search_ok fin (enter node s)) as Hok'.
  { split; cbn; [..|done|by apply chain_snoc|set_solver].
    - intros x. rewrite elem_of_union, Hv, elem_of_app, elem_of_singleton, list_elem_of_singleton. tauto.
    - intros x. rewrite elem_of_union, Hs, elem_of_app, elem_of_singleton, list_elem_of_singleton. tauto.
    - rewrite app_assoc. apply NoDup_app. split_and!; [done| |apply NoDup_singleton].
      intros x Hx ->%list_elem_of_singleton. apply elem_of_app in Hx as [Hx|Hx]; auto. }
  destruct (dfs_loop_spec (dfs g fuel) node (iterate (targets (edges g) node)) fin (enter node s) (stack s))
    as (b & s' & E & Hb); [|done|done| | |].
  - intros dep t ft Ht Hdt Hsub Hed Hl. apply IH; [done|by apply (wf node dep)|done| |].
    + intros y Hy. rewrite Hl in Hy. by injection Hy as <-.
    + apply unvisited_mono in Hsub. cbn in Hsub. rewrite (unvisited_enter node) in Hf by done. lia.
  - intros dep Hd. by apply elem_of_iterate in Hd.
  - intros dep Hd. left. by apply elem_of_iterate.
  - exists b, s'. split; [done|]. destruct b; [done|]. done.
Qed.

Lemma search_all_spec fuel l s fin :
  search_ok fin s → stack s = [] → (∀ n, n ∈ l → n ∈ nodes g) → (size (nodes g) <= fuel)%nat →
  ∃ r, search_all g fuel l s = Some r ∧
    match r with
    | Some c => is_cycle c
    | None => ∃ fin', NoDup fin' ∧ ordered fin' ∧ fin ⊆ fin' ∧ ∀ n, n ∈ l → n ∈ fin'
    end.
Proof.
  intros Hok Est Hl Hf. revert s fin Hok Est. induction l as [|n l IH]; intros s fin Hok Est; cbn [search_all].
  - exists None. split; [done|]. exists fin. pose proof (so_nodup _ _ Hok) as Hnd.
    rewrite Est, app_nil_r in Hnd. split_and!; [done|by apply (so_ordered _ s)|done|].
    by intros n ?%elem_of_nil.
  - assert (∀ n, n ∈ l → n ∈ nodes g) as Hl' by (intros m Hm; apply Hl; by right).
    destruct (decide (n ∈ visited s)) as [Hin|Hnin].
    + apply (so_visited _ _ Hok) in Hin. rewrite Est in Hin.
      destruct Hin as [Hin|?%elem_of_nil]; [|done].
      destruct (IH Hl' s fin Hok Est) as (r & -> & Hr). exists r. split; [done|]. destruct r; [done|].
      destruct Hr as (fin' & ? & ? & Hsub & Hall). exists fin'. split_and!; [done..|].
      intros m [->|Hm]%elem_of_cons; [by apply Hsub|by apply Hall].
    + destruct (dfs_spec fuel n s fin) as (b & s' & -> & Hb); [done|apply Hl; left|done|by rewrite Est| |].
      { unfold unvisited. etrans; [apply subseteq_size|exact Hf]. set_solver. }
      destruct b; [by exists (Some (stack s'))|]. destruct Hb as (fin1 & Hok1 & Est1 & Hsub1 & Hn1).
      destruct (IH Hl' s' fin1 Hok1) as (r & -> & Hr); [by rewrite Est1|]. exists r. split; [done|].
      destruct r; [done|]. destruct Hr as (fin' & ? & ? & Hsub & Hall). exists fin'.
      split_and!; [done..|by etrans|]. intros m [->|Hm]%elem_of_cons; [by apply Hsub|by apply Hall].
Qed.

(** The search ends; it returns a cycle exactly when there is one. *)
Lemma has_circular_dependency_spec fuel :
  (size (nodes g) <= fuel)%nat →
  ∃ r, has_circular_dependency g fuel = Some r ∧
    match r with Some c => is_cycle c | None => ¬ cyclic end.
Proof.
  intros Hf. unfold has_circular_dependency.
  destruct (search_all_spec fuel (sorted_set (nodes g)) {| visited := ∅; in_stack := ∅; stack := [] |} [])
    as (r & -> & Hr).
  - split; cbn; [set_solver|set_solver|constructor| | |set_solver].
    + intros l1 n l2 E. by destruct l1.
    + intros l1 x y l2 E. by destruct l1.
  - done.
  - intros n. by rewrite elem_of_sorted_set.
  - done.
  - exists r. split; [done|]. destruct r; [done|]. destruct Hr as (fin' & Hnd & Ho & _ & Hall).
    apply (ordered_acyclic fin'); [done|done|]. intros n d Hd. apply Hall, elem_of_sorted_set.
    by apply (wf n d).
Qed.

(** ** The order of loading *)

Definition visit_state (v : gset pystr) (path : list pystr) : search :=
  {| visited := v; in_stack := list_to_set path; stack := path |}.

(** What a visit does to a state with the nodes of [path] in progress. *)
Definition visited_ok (path : list pystr) (node : pystr) (s : gset pystr * list pystr)
    (r : option (gset pystr * list pystr)) : Prop :=
  ∃ s', r = Some s' ∧ search_ok s'.2 (visit_state s'.1 path) ∧ s.2 ⊆ s'.2 ∧ node ∈ s'.2.

Lemma visit_loop_spec rec path : ∀ deps s,
  (∀ dep s', search_ok s'.2 (visit_state s'.1 path) → s.1 ⊆ s'.1 → dep ∈ deps →
     visited_ok path dep s' (rec dep s')) →
  search_ok s.2 (visit_state s.1 path) →
  ∃ s', visit_loop rec deps s = Some s' ∧ search_ok s'.2 (visit_state s'.1 path) ∧ s.2 ⊆ s'.2 ∧
    ∀ dep, dep ∈ deps → dep ∈ s'.2.
Proof.
  induction deps as [|dep deps IH]; intros s Hrec Hok; cbn [visit_loop].
  - exists s. split_and!; [done..|by intros d ?%elem_of_nil].
  - destruct (Hrec dep s Hok ltac:(done) ltac:(left)) as (s1 & -> & Hok1 & Hsub1 & Hin1).
    assert (s.1 ⊆ s1.1) as Hmono.
    { intros x Hx. apply (so_visited _ _ Hok1). cbn.
      apply (so_visited _ _ Hok) in Hx as [Hx|Hx]; [left; by apply Hsub1|by right]. }
    destruct (IH s1) as (s2 & E2 & Hok2 & Hsub2 & Hall); [|done|].
    { intros d s' Hs' Hsub Hd. apply Hrec; [done|by etrans|by right]. }
    exists s2. cbn [mbind option_bind]. split_and!; [done..|by etrans|].
    intros d [->|Hd]%elem_of_cons; [by apply Hsub2|by apply Hall].
Qed.

Lemma visit_spec (Hacyc : ¬ cyclic) fuel : ∀ node s path,
  search_ok s.2 (visit_state s.1 path) → node ∈ nodes g →
  (∀ y, last path = Some y → edge y node) → (unvisited s.1 < fuel)%nat →
  visited_ok path node s (visit g fuel node s).
Proof.
  induction fuel as [|fuel IH]; intros node s path Hok Hn Hlast Hf; [lia|]. cbn [visit].
  pose proof Hok as [Hv _ Hnd Ho Hc Hno]. cbn in Hv, Hnd, Hc, Hno.
  destruct (decide (node ∈ s.1)) as [Hin|Hnin].
  - exists s. split_and!; [done..|]. apply Hv in Hin as [Hin|Hin]; [done|].
    destruct (last path) as [y|] eqn:El; [|apply last_None in El as ->; by apply elem_of_nil in Hin].
    destruct Hacyc. apply cycle_cyclic with (stack (found node (visit_state s.1 path))).
    eapply (found_cycle node y); [exact Hok|done|done|by apply Hlast].
  - assert (node ∉ s.2 ∧ node ∉ path) as (Hn1 & Hn2).
    { split; intros H'; apply Hnin, Hv; auto. }
    destruct (visit_loop_spec (visit g fuel) (path ++ [node]) (sorted_set (targets (edges g) node))
      (s.1 ∪ {[node]}, s.2)) as (s' & E & Hok' & Hsub & Hall).
    + intros dep t Ht Hsub Hd%elem_of_sorted_set. apply IH; [done|by apply (wf node dep)| |].
      * intros y. rewrite last_snoc. by intros [= <-].
      * apply unvisited_mono in Hsub. cbn in Hsub. rewrite (unvisited_enter node) in Hf by done. lia.
    + split; cbn; [| | |done|by apply chain_snoc|set_solver].
      * intros x. rewrite elem_of_union, Hv, elem_of_app, elem_of_singleton, list_elem_of_singleton. tauto.
      * intros x. by rewrite elem_of_list_to_set.
      * rewrite app_assoc. apply NoDup_app. split_and!; [done| |apply NoDup_singleton].
        intros x Hx ->%list_elem_of_singleton. apply elem_of_app in Hx as [Hx|Hx]; auto.
    + rewrite E. exists (s'.1, s'.2 ++ [node]). cbn. split_and!; [done| |set_solver|set_solver].
      destruct Hok' as [Hv' _ Hnd' Ho' Hc' Hno']. cbn in Hv', Hnd', Hc', Hno'. split; cbn; [| | | | |done].
      * intros x. rewrite Hv', !elem_of_app. tauto.
      * intros x. by rewrite elem_of_list_to_set.
      * rewrite <-app_assoc. by rewrite (Permutation_app_comm [node] path).
      * apply ordered_snoc; [done|]. intros d Hd. by apply Hall, elem_of_sorted_set.
      * apply (chain_prefix _ [node]). done.
Qed.

(** The result of [topological_sort]: an order of the nodes with every dependency before
    its dependents, or the error, exactly when there is a cycle. *)
Lemma topological_sort_spec fuel :
  (size (nodes g) < fuel)%nat →
  ∃ r, topological_sort g fuel = Some r ∧
    match r with
    | Ok l => ¬ cyclic ∧ NoDup l ∧ ordered l ∧ ∀ n, n ∈ l ↔ n ∈ nodes g
    | Err e => cyclic ∧ e = PluginDependencyError
    end.
Proof.
  intros Hf. unfold topological_sort.
  destruct (has_circular_dependency_spec fuel ltac:(lia)) as (r & -> & Hr). cbn [mbind option_bind].
  destruct r as [c|].
  { pose proof (cycle_cyclic c Hr) as Hcyc. destruct Hr as (x & m & -> & _).
    exists (Err PluginDependencyError). done. }
  assert (search_ok [] (visit_state ∅ [])) as H0.
  { split; cbn; [set_solver|set_solver|constructor| | |set_solver].
    - intros l1 n l2 E. by destruct l1.
    - intros l1 x y l2 E. by destruct l1. }
  destruct (visit_loop_spec (visit g fuel) [] (sorted_set (nodes g)) (∅, [])) as (s & -> & Hok & _ & Hall).
  - intros dep t Ht _ Hd%elem_of_sorted_set. apply visit_spec; [done..|]. unfold unvisited.
    eapply Nat.le_lt_trans; [apply subseteq_size|exact Hf]. set_solver.
  - done.
  - exists (Ok s.2). split; [done|]. destruct Hok as [Hv _ Hnd Ho _ Hno]. cbn in Hv, Hnd, Hno.
    rewrite app_nil_r in Hnd. split_and!; [done..|]. intros n. split.
    + intros Hin. apply Hno, Hv. by left.
    + intros Hin. by apply Hall, elem_of_sorted_set.
Qed.
End order.

Import DependencyGraph PluginDependencyResolver.

(** ** The graph of the registered plugins *)

Lemma targets_ensure d k x : targets (ensure d k) x = targets d x.
Proof.
  unfold targets, ensure. destruct (d !! k) eqn:E; [done|].
  destruct (decide (k = x)) as [->|Hne]; [by rewrite lookup_insert_eq, E|by rewrite lookup_insert_ne].
Qed.

Lemma edge_add_node n g x y : edge (add_node n g) x y ↔ edge g x y.
Proof. unfold edge. cbn. by rewrite targets_ensure. Qed.

Lemma edge_add_dependency p d g x y :
  edge (add_dependency p d g) x y ↔ edge g x y ∨ x = p ∧ y = d.
Proof.
  unfold edge, add_dependency, add_target. cbn [edges add_node].
  rewrite !targets_ensure. unfold targets at 1.
  destruct (decide (p = x)) as [->|Hne].
  - rewrite lookup_insert_eq. cbn. rewrite elem_of_union, elem_of_singleton. tauto.
  - rewrite lookup_insert_ne by done. change (default ∅ _) with (targets (ensure (ensure (edges g) p) d) x).
    rewrite !targets_ensure. naive_solver.
Qed.

Lemma edge_add_optional p d g x y : edge (add_optional_dependency p d g) x y ↔ edge g x y.
Proof. unfold edge. cbn. by rewrite !targets_ensure. Qed.

Lemma nodes_add_dependency p d g x :
  x ∈ nodes (add_dependency p d g) ↔ x ∈ nodes g ∨ x = p ∨ x = d.
Proof. cbn. set_solver. Qed.

Lemma nodes_add_optional p d g x :
  x ∈ nodes (add_optional_dependency p d g) ↔ x ∈ nodes g ∨ x = p ∨ x = d.
Proof. cbn. set_solver. Qed.

(** The two loops of [resolve_all] over the dependencies of one plugin. *)
Lemma add_plugin_spec p d g :
  (∀ x y, edge (add_plugin p d g) x y ↔ edge g x y ∨ x = p ∧ y ∈ (dependencies d).*1) ∧
  (∀ x, x ∈ nodes (add_plugin p d g) ↔
     x ∈ nodes g ∨ x = p ∨ x ∈ (dependencies d).*1 ∨ x ∈ (optional_dependencies d).*1).
Proof.
  unfold add_plugin. set (g0 := add_node p g).
  assert (∀ (l : list (pystr * pystr)) g, (∀ x y, edge (foldl (λ g x, add_dependency p x.1 g) g l) x y ↔ edge g x y ∨ x = p ∧ y ∈ l.*1) ∧
    (∀ x, p ∈ nodes g → x ∈ nodes (foldl (λ g x, add_dependency p x.1 g) g l) ↔ x ∈ nodes g ∨ x ∈ l.*1)) as Hreq.
  { clear. induction l as [|[k c] l IH]; intros g; cbn [foldl fmap list_fmap fst].
    - split; intros; rewrite elem_of_nil; tauto.
    - destruct (IH (add_dependency p k g)) as (IH1 & IH2). split.
      + intros x y. rewrite IH1, edge_add_dependency, elem_of_cons. tauto.
      + intros x Hp. rewrite IH2 by (by rewrite nodes_add_dependency; left).
        rewrite nodes_add_dependency, elem_of_cons. naive_solver. }
  assert (∀ (l : list (pystr * pystr)) g, (∀ x y, edge (foldl (λ g x, add_optional_dependency p x.1 g) g l) x y ↔ edge g x y) ∧
    (∀ x, p ∈ nodes g → x ∈ nodes (foldl (λ g x, add_optional_dependency p x.1 g) g l) ↔ x ∈ nodes g ∨ x ∈ l.*1)) as Hopt.
  { clear. induction l as [|[k c] l IH]; intros g; cbn [foldl fmap list_fmap fst].
    - split; intros; rewrite ?elem_of_nil; tauto.
    - destruct (IH (add_optional_dependency p k g)) as (IH1 & IH2). split.
      + intros x y. by rewrite IH1, edge_add_optional.
      + intros x Hp. rewrite IH2 by (by rewrite nodes_add_optional; left).
        rewrite nodes_add_optional, elem_of_cons. naive_solver. }
  destruct (Hreq (dependencies d) g0) as (R1 & R2).
  destruct (Hopt (optional_dependencies d) (foldl (λ g x, add_dependency p x.1 g) g0 (dependencies d))) as (O1 & O2).
  assert (p ∈ nodes g0) as Hp by (cbn; set_solver).
  split.
  - intros x y. rewrite O1, R1. unfold g0. by rewrite edge_add_node.
  - intros x. rewrite O2 by (rewrite R2 by done; by left). rewrite R2 by done.
    unfold g0. cbn. rewrite elem_of_union, elem_of_singleton. tauto.
Qed.

Lemma full_graph_spec (ps : plugins) :
  (∀ x y, edge (full_graph ps) x y ↔ ∃ d, (x, d) ∈ ps ∧ y ∈ (dependencies d).*1) ∧
  (∀ x, x ∈ nodes (full_graph ps) ↔
     ∃ p d, (p, d) ∈ ps ∧ (x = p ∨ x ∈ (dependencies d).*1 ∨ x ∈ (optional_dependencies d).*1)).
Proof.
  unfold full_graph.
  assert (∀ g, (∀ x y, edge (foldl (λ g x, add_plugin x.1 x.2 g) g ps) x y ↔
      edge g x y ∨ ∃ d, (x, d) ∈ ps ∧ y ∈ (dependencies d).*1) ∧
    (∀ x, x ∈ nodes (foldl (λ g x, add_plugin x.1 x.2 g) g ps) ↔ x ∈ nodes g ∨
     ∃ p d, (p, d) ∈ ps ∧ (x = p ∨ x ∈ (dependencies d).*1 ∨ x ∈ (optional_dependencies d).*1))) as H.
  { induction ps as [|[p d] ps IH]; intros g; cbn [foldl fst snd].
    - split; intros; setoid_rewrite elem_of_nil; naive_solver.
    - destruct (IH (add_plugin p d g)) as (IH1 & IH2). destruct (add_plugin_spec p d g) as (A1 & A2).
      split; intros.
      + rewrite IH1, A1. split.
        * intros [[He|(-> & Hy)]|(d' & Hd & Hy)]; [by left| |].
          -- right. exists d. split; [left|done].
          -- right. exists d'. split; [by right|done].
        * intros [He|(d' & [[= -> ->]|Hd]%elem_of_cons & Hy)]; eauto.
      + rewrite IH2, A2. split.
        * intros [[Hn|Hx]|(p' & d' & Hd & Hx)]; [by left| |].
          -- right. exists p, d. split; [left|done].
          -- right. exists p', d'. split; [by right|done].
        * intros [Hn|(p' & d' & [[= -> ->]|Hd]%elem_of_cons & Hx)]; eauto. }
  destruct (H init_graph) as (H1 & H2). split; intros; [rewrite H1|rewrite H2]; [|set_solver].
  assert (¬ edge init_graph x y) as He; [|tauto].
  unfold edge, targets, init_graph. cbn. rewrite lookup_empty. cbn. set_solver.
Qed.

Lemma full_graph_wf ps : graph_wf (full_graph ps).
Proof.
  intros n d (x & Hx & Hd)%full_graph_spec. split; apply full_graph_spec.
  - exists n, x. auto.
  - exists n, x. auto.
Qed.

Lemma check_all_spec {A} (f : A → res ()) l :
  check_all f l = Ok () ∧ (∀ x, x ∈ l → f x = Ok ()) ∨
  ∃ x e, x ∈ l ∧ f x = Err e ∧ check_all f l = Err e.
Proof.
  induction l as [|x l IH]; cbn; [left; split; [done|by intros x ?%elem_of_nil]|].
  destruct (f x) as [[]|e] eqn:E; cbn.
  - destruct IH as [(-> & Hl)|(y & e & Hy & Ey & ->)].
    + left. split; [done|]. intros y [->|Hy]%elem_of_cons; auto.
    + right. exists y, e. split_and!; [by right|done|done].
  - right. exists x, e. split_and!; [left|done|done].
Qed.

Lemma check_dependency_error ps x e : check_dependency ps x = Err e → e = PluginDependencyError.
Proof.
  unfold check_dependency, check_version, guard_else. intros. repeat case_match; by invert_res.
Qed.

(** Every required dependency is registered, in a version that its constraint allows. *)
Definition satisfied (ps : plugins) : Prop :=
  ∀ p d x, (p, d) ∈ ps → x ∈ dependencies d → check_dependency ps x = Ok ().

(** [d] occurs before [n]. *)
Definition before (l : list pystr) (d n : pystr) : Prop := ∃ l1 l2 l3, l = l1 ++ d :: l2 ++ n :: l3.

Lemma ordered_before g l n d : ordered g l → edge g n d → n ∈ l → before l d n.
Proof.
  intros Ho He Hin. apply list_elem_of_split in Hin as (l1 & l2 & ->).
  specialize (Ho l1 n l2 eq_refl d He). apply list_elem_of_split in Ho as (a & b & ->).
  exists a, b, l2. by rewrite <-app_assoc.
Qed.

(** ** All dependencies *)

Lemma all_dependencies_spec `{SetIteration} g p : graph_wf g → ∀ m to_visit result,
  unvisited g result = m →
  (∀ x, x ∈ to_visit ∨ x ∈ result → tc (edge g) p x) →
  (∀ d, edge g p d → d ∈ to_visit ∨ d ∈ result) →
  (∀ x d, x ∈ result → edge g x d → d ∈ to_visit ∨ d ∈ result) →
  ∃ n r, (∀ k, (n <= k)%nat → all_dependencies k g to_visit result = Some r) ∧
    ∀ x, x ∈ r ↔ tc (edge g) p x.
Proof.
  intros wf m. induction (lt_wf m) as [m _ IHm]. intros l. induction l as [|dep l IHl] using rev_ind;
    intros result Hm Hreach Hp Hclosed.
  - exists 1%nat, result. split.
    { intros [|k] Hk; [lia|done]. }
    intros x. split; [intros Hx; apply Hreach; by right|]. intros Ht.
    assert (∀ a x, tc (edge g) a x → (∀ d, edge g a d → d ∈ result) → x ∈ result) as Hall.
    { clear -Hclosed. induction 1 as [a x Hx|a b x Hb _ IH]; intros Ha; [by apply Ha|].
      apply IH. intros d Hd. destruct (Hclosed b d (Ha b Hb) Hd) as [?%elem_of_nil|]; done. }
    apply (Hall p x Ht). intros d Hd. by destruct (Hp d Hd) as [?%elem_of_nil|].
  - assert (take (pred (length (l ++ [dep]))) (l ++ [dep]) = l) as El.
    { rewrite length_app. cbn. apply take_app_length'. lia. }
    assert (∀ k, all_dependencies (S k) g (l ++ [dep]) result =
      if decide (dep ∈ result) then all_dependencies k g l result
      else all_dependencies k g (l ++ iterate (targets (edges g) dep)) (result ∪ {[dep]})) as Est.
    { intros k. cbn [all_dependencies]. by rewrite last_snoc, El. }
    assert (tc (edge g) p dep) as Hdep by (apply Hreach; left; set_solver).
    destruct (decide (dep ∈ result)) as [Hin|Hnin].
    + destruct (IHl result Hm) as (n & r & Hn & Hr).
      * intros x [Hx|Hx]; apply Hreach; [left; apply elem_of_app; by left|by right].
      * intros d [Hd|Hd]%Hp; [|by right]. apply elem_of_app in Hd as [Hd| ->%list_elem_of_singleton]; auto.
      * intros x d Hx Hd. destruct (Hclosed x d Hx Hd) as [Hd'|Hd']; [|by right].
        apply elem_of_app in Hd' as [Hd'| ->%list_elem_of_singleton]; auto.
      * exists (S n), r. split; [|done]. intros [|k] Hk; [lia|]. rewrite Est. apply Hn. lia.
    + assert (dep ∈ nodes g) as Hnode.
      { clear -wf Hdep. induction Hdep as [a x Hx|]; [by apply (wf a x)|done]. }
      assert (∀ x, x ∈ l ++ iterate (targets (edges g) dep) ↔ x ∈ l ∨ edge g dep x) as Hl.
      { intros x. by rewrite elem_of_app, elem_of_iterate. }
      destruct (IHm (unvisited g (result ∪ {[dep]}))) with
        (to_visit := l ++ iterate (targets (edges g) dep)) (result := result ∪ {[dep]})
        as (n & r & Hn & Hr).
      * rewrite <-Hm, (unvisited_enter g dep result) by done. lia.
      * done.
      * intros x. rewrite Hl. rewrite elem_of_union, elem_of_singleton.
        intros [[Hx|Hx]|[Hx| ->]]; [|by eapply tc_r| |done].
        -- apply Hreach. left. apply elem_of_app. by left.
        -- apply Hreach. by right.
      * intros d [Hd|Hd]%Hp; rewrite Hl, elem_of_union, elem_of_singleton; [|by right; left].
        apply elem_of_app in Hd as [Hd| ->%list_elem_of_singleton]; auto.
      * intros x d [Hx| ->%elem_of_singleton]%elem_of_union Hd; rewrite Hl; [|by left; right].
        rewrite elem_of_union, elem_of_singleton.
        destruct (Hclosed x d Hx Hd) as [Hd'|Hd']; [|by right; left].
        apply elem_of_app in Hd' as [Hd'| ->%list_elem_of_singleton]; auto.
      * exists (S n), r. split; [|done]. intros [|k] Hk; [lia|]. rewrite Est. apply Hn. lia.
Qed.

(** ** Version texts *)

(** ["a.b.c"]. *)
Definition version_text (a b c : Z) : pystr := join_with dot [dec a; dec b; dec c].

Definition part_ok (a : Z) : Prop := 0 <= a < 10 ^ 18.

Lemma dec_part a : part_ok a → part_value (dec a) = a.
Proof.
  unfold part_ok, part_value. intros Ha. rewrite (py_int_str a (dec a)); [done|].
  unfold str_of_int. rewrite (proj2 (Z.leb_gt _ _)).
  - if_false. done.
  - assert (10 ^ 18 <= 10 ^ max_str_digits) by (apply Z.pow_le_mono_r; unfold max_str_digits; lia). lia.
Qed.

Lemma dec_chars a c : part_ok a → is_digit c = false → c ∉ dec a.
Proof.
  intros [Ha _] Hc Hin. pose proof (dec_digit a Ha) as H. rewrite Forall_forall in H.
  apply H in Hin. congruence.
Qed.

Section version_text.
Context (a b c : Z) (Ha : part_ok a) (Hb : part_ok b) (Hc : part_ok c).

Lemma version_text_chars x : x ≠ dot → is_digit x = false → x ∉ version_text a b c.
Proof.
  intros Hx Hd. apply join_no_char; [done|].
  apply Forall_cons; split; [by apply dec_chars|]. apply Forall_cons; split; [by apply dec_chars|].
  apply Forall_singleton. by apply dec_chars.
Qed.

Lemma parse_version_text : parse_version (version_text a b c) = [a; b; c].
Proof.
  unfold parse_version. rewrite replace_char_absent by (apply version_text_chars; done).
  unfold version_text. rewrite split_join; [|done|].
  - cbn. by rewrite !dec_part.
  - apply Forall_cons; split; [by apply dec_chars|]. apply Forall_cons; split; [by apply dec_chars|].
    apply Forall_singleton. by apply dec_chars.
Qed.
End version_text.

(** The operators of a constraint, with the one that is not written. *)
Inductive vop := GE | LE | GT | LT | EQ | NE | SAME.

Definition vop_text (o : vop) : pystr :=
  match o with
  | GE => str ">=" | LE => str "<=" | GT => str ">" | LT => str "<" | EQ => str "==" | NE => str "!="
  | SAME => []
  end.

(** What an operator demands of the installed version, in the order of the triples. *)
Definition vop_holds (o : vop) (v w : list Z) : bool :=
  match o with
  | GE => negb (text_lt v w)
  | LE => negb (text_lt w v)
  | GT => text_lt w v
  | LT => text_lt v w
  | EQ | SAME => bool_decide (v = w)
  | NE => negb (bool_decide (v = w))
  end.

Definition triple : Type := Z * Z * Z.
Definition triple_text (t : triple) : pystr := version_text t.1.1 t.1.2 t.2.
Definition triple_list (t : triple) : list Z := [t.1.1; t.1.2; t.2].
Definition triple_ok (t : triple) : Prop := part_ok t.1.1 ∧ part_ok t.1.2 ∧ part_ok t.2.

Definition constraint_text (x : vop * triple) : pystr := vop_text x.1 ++ triple_text x.2.

Lemma parse_triple t : triple_ok t → parse_version (triple_text t) = triple_list t.
Proof. intros (? & ? & ?). by apply parse_version_text. Qed.

(** Characters that constraints do not hold. *)
Lemma constraint_chars x c :
  triple_ok x.2 → is_digit c = false → c ∉ [33; 46; 60; 61; 62] → c ∉ constraint_text x.
Proof.
  intros (? & ? & ?) Hd Hc. unfold constraint_text. rewrite elem_of_app. intros [Hin|Hin].
  - apply Hc. destruct x as [o t]. destruct o; cbn in Hin |- *; set_solver.
  - revert Hin. apply version_text_chars; try done. intros ->. apply Hc. set_solver.
Qed.

Lemma constraint_strip x : triple_ok x.2 → strip (constraint_text x) = constraint_text x.
Proof.
  intros Hx. apply strip_id. apply Forall_forall. intros c Hin.
  destruct (is_space c) eqn:E; [|done]. exfalso. revert Hin. apply constraint_chars; [done| |].
  - unfold is_space, is_digit in *. lia.
  - unfold is_space in E. rewrite !not_elem_of_cons. split_and!; [..|apply not_elem_of_nil]; intros ->; done.
Qed.

(** The first character of a version is a digit. *)
Lemma triple_text_digit t : triple_ok t → ∃ c l, triple_text t = c :: l ∧ is_digit c = true.
Proof.
  intros ((H & _) & _). unfold triple_text, version_text.
  pose proof (dec_digit _ H) as Hd. pose proof (dec_nonempty t.1.1) as Hne.
  destruct (dec t.1.1) as [|c l]; [done|]. apply Forall_cons in Hd as (Hc & _).
  by exists c, (l ++ dot :: join_with dot [dec t.1.2; dec t.2]).
Qed.

Lemma startswith_cons (x y : Z) p l : startswith (x :: p) (y :: l) = (y =? x) && startswith p l.
Proof.
  unfold startswith. cbn [length take]. destruct (y =? x) eqn:E; cbn [andb].
  - apply Z.eqb_eq in E as ->. apply bool_decide_ext. split; congruence.
  - apply bool_decide_false. intros [= ->]. lia.
Qed.

Lemma constraint_matches act x :
  triple_ok x.2 → version_matches_one act (constraint_text x) = vop_holds x.1 act (triple_list x.2).
Proof.
  intros Hx. unfold version_matches_one. rewrite constraint_strip by done.
  rewrite <-(parse_triple x.2 Hx). destruct x as [o t]. unfold constraint_text. cbn [fst snd] in *.
  destruct (triple_text_digit t Hx) as (c & l & -> & Hc). unfold is_digit in Hc.
  change (str ">=") with [62; 61]. change (str "<=") with [60; 61]. change (str "==") with [61; 61].
  change (str "!=") with [33; 61]. change (str ">") with [62]. change (str "<") with [60].
  assert (∀ p : pystr, startswith [] p = true) as Hnil by done.
  assert ((c =? 61) = false ∧ (c =? 62) = false ∧ (c =? 60) = false ∧ (c =? 33) = false)
    as (H61 & H62 & H60 & H33) by lia.
  destruct o; cbn [vop_text app]; change (str ">=") with [62; 61]; change (str "<=") with [60; 61];
    change (str "==") with [61; 61]; change (str "!=") with [33; 61]; change (str ">") with [62];
    change (str "<") with [60]; cbn [app]; rewrite !startswith_cons, ?Hnil, ?H61, ?H62, ?H60, ?H33;
    reflexivity.
Qed.

Lemma constraint_head x : triple_ok x.2 → ∃ c l, constraint_text x = c :: l ∧ c ≠ 42.
Proof.
  intros (c & l & E & Hc)%triple_text_digit. unfold constraint_text. rewrite E. unfold is_digit in Hc.
  destruct x as [[] t]; (eexists _, _; split; [reflexivity|first [lia|vm_compute; discriminate]]).
Qed.

Lemma forallb_fmap {A B} (f : A → B) (P : B → bool) l : forallb P (f <$> l) = forallb (λ x, P (f x)) l.
Proof. induction l as [|x l IH]; [done|]. cbn. by rewrite <-IH. Qed.

(** A plugin whose version satisfies each of the constraints between the commas is
    accepted, and no other. *)
Lemma check_version_constraints cs v :
  cs ≠ [] → triple_ok v → Forall (λ x, triple_ok x.2) cs →
  check_version (join_with comma (constraint_text <$> cs)) (triple_text v) =
  guard_else (forallb (λ x, vop_holds x.1 (triple_list v) (triple_list x.2)) cs) PluginDependencyError.
Proof.
  intros Hne Hv Hcs. unfold check_version.
  assert (∀ c, is_digit c = false → c ∉ [33; 46; 60; 61; 62] → c ≠ comma →
    c ∉ join_with comma (constraint_text <$> cs)) as Hno.
  { intros c Hd Hc Hcc. apply join_no_char; [done|]. apply Forall_fmap.
    eapply Forall_impl; [exact Hcs|]. intros x Hx. by apply constraint_chars. }
  assert (Forall (λ p, comma ∉ p) (constraint_text <$> cs)) as Hcomma.
  { apply Forall_fmap. eapply Forall_impl; [exact Hcs|]. intros x Hx. apply constraint_chars; [done..|].
    rewrite !not_elem_of_cons. split_and!; [done..|apply not_elem_of_nil]. }
  destruct cs as [|x cs]; [done|]. apply Forall_cons in Hcs as (Hx & Hcs).
  destruct (constraint_head x Hx) as (c & l & Ex & Hc).
  assert (∃ l', join_with comma (constraint_text <$> x :: cs) = c :: l') as (l' & E).
  { cbn [fmap list_fmap]. rewrite Ex. by destruct cs; cbn [fmap list_fmap join_with]; eexists. }
  rewrite E, !bool_decide_false by (first [done|change star with [42]; intros [= ->]; done]). cbn [orb].
  rewrite <-E. clear E. f_equal. unfold version_matches. rewrite (parse_triple v Hv).
  destruct cs as [|y cs].
  - cbn [fmap list_fmap join_with forallb]. rewrite bool_decide_false.
    + rewrite constraint_matches by done. by rewrite andb_true_r.
    + by apply Forall_inv in Hcomma.
  - rewrite bool_decide_true.
    2:{ cbn [fmap list_fmap join_with]. apply elem_of_app. right. left. }
    rewrite split_join by done. rewrite forallb_fmap.
    assert (Forall (λ x, triple_ok x.2) (x :: y :: cs)) as Hall by (by constructor).
    clear -Hall. induction Hall as [|z zs Hz _ IH]; [done|]. cbn [forallb].
    by rewrite IH, constraint_strip, constraint_matches.
Qed.

(** * Properties *)

Definition ex_plugin (n : string) (deps : list string) : PluginDescriptor :=
  {| d_name := str n; d_version := str "1.2.0"; dependencies := (λ d, (str d, str ">=1.0,<2")) <$> deps;
     optional_dependencies := [] |}.
Definition ex_plugins (l : list (string * list string)) : plugins :=
  foldl (λ ps x, register_plugin (ex_plugin x.1 x.2) ps) [] l.

Example load_order_ex :
  get_load_order 5 (ex_plugins [("app", ["db"; "log"]); ("db", ["log"]); ("log", [])]%string) =
  Some (Ok [str "log"; str "db"; str "app"]).
Proof. vm_compute. reflexivity. Qed.

Example cycle_ex :
  has_circular_dependency (full_graph (ex_plugins [("a", ["b"]); ("b", ["c"]); ("c", ["b"])]%string)) 5 =
  Some (Some [str "b"; str "c"; str "b"]).
Proof. vm_compute. reflexivity. Qed.

(** An optional dependency that is not installed is in the order of loading all the
    same, and an installed one may come after the plugin that wants it. *)
Example load_order_optional :
  get_load_order 4 (register_plugin (ex_plugin "z" []) (register_plugin
    {| d_name := str "a"; d_version := str "1.0"; dependencies := [];
       optional_dependencies := [(str "nowhere", star); (str "z", star)] |} [])) =
  Some (Ok [str "a"; str "nowhere"; str "z"]).
Proof. vm_compute. reflexivity. Qed.

Module Properties.

(** C22: The search for a cycle ends within as many nested calls as there are nodes, in
    whatever order sets are iterated. A list that it returns is a cycle: each element
    depends on the next one and the last is the first again. It returns none only when
    no plugin depends on itself, directly or not. *)
Theorem plugin_cycle_found `{SetIteration} g fuel :
  graph_wf g → (size (nodes g) <= fuel)%nat →
  ∃ r, has_circular_dependency g fuel = Some r ∧
    match r with
    | Some c => ∃ x m, c = x :: m ++ [x] ∧ chain g c
    | None => ∀ n, ¬ tc (edge g) n n
    end.
Proof.
  intros Hwf Hf. destruct (has_circular_dependency_spec g Hwf fuel Hf) as (r & E & Hr).
  exists r. split; [done|]. destruct r; [done|]. intros n Hn. apply Hr. by exists n.
Qed.

Lemma plugin_cycle_found_witness :
  ∃ r, has_circular_dependency (full_graph (ex_plugins [("a", ["b"]); ("b", ["a"])]%string)) 2 = Some r ∧
    match r with
    | Some c => ∃ x m, c = x :: m ++ [x] ∧ chain (full_graph (ex_plugins [("a", ["b"]); ("b", ["a"])]%string)) c
    | None => ∀ n, ¬ tc (edge (full_graph (ex_plugins [("a", ["b"]); ("b", ["a"])]%string))) n n
    end.
Proof. apply plugin_cycle_found; [apply full_graph_wf|vm_compute; lia]. Defined.

(** C21: [get_load_order] ends. The order it returns lists every node of the graph once, and each
    required dependency, which is registered in a version that its constraint allows,
    before the plugin that requires it. It raises [PluginDependencyError], and nothing
    else, only when the plugins require one another in a cycle or a requirement is
    not met. *)
Theorem plugin_load_order `{SetIteration} (ps : plugins) fuel :
  (size (nodes (full_graph ps)) < fuel)%nat →
  ∃ r, get_load_order fuel ps = Some r ∧
    match r with
    | Ok l =>
        NoDup l ∧ (∀ n, n ∈ l ↔ n ∈ nodes (full_graph ps)) ∧
        (∀ p d x, (p, d) ∈ ps → x ∈ dependencies d →
           before l x.1 p ∧ ∃ d', dict_get ps x.1 = Some d' ∧ check_version x.2 (d_version d') = Ok ())
    | Err e => e = PluginDependencyError ∧ (cyclic (full_graph ps) ∨ ¬ satisfied ps)
    end.
Proof.
  intros Hf. pose proof (full_graph_wf ps) as Hwf. unfold get_load_order, resolve_all.
  destruct (has_circular_dependency_spec (full_graph ps) Hwf fuel ltac:(lia)) as (c & -> & Hc).
  cbn [mbind option_bind]. destruct c as [c|].
  { pose proof (cycle_cyclic _ c Hc) as Hcyc. destruct Hc as (x & m & -> & _).
    exists (Err PluginDependencyError). split; [done|]. split; [done|by left]. }
  destruct (check_all_spec (λ p : pystr * PluginDescriptor, check_all (check_dependency ps) (dependencies p.2)) ps)
    as [(-> & Hall)|(p & e & Hp & Ep & ->)]; cbn [mbind option_bind res_bind].
  - destruct (topological_sort_spec (full_graph ps) Hwf fuel Hf) as (r & -> & Hr).
    exists r. split; [done|]. destruct r as [l|e]; [|by destruct (Hc (proj1 Hr))].
    destruct Hr as (_ & Hnd & Ho & Hin). split_and!; [done..|]. intros p d x Hp Hx. split.
    + apply (ordered_before (full_graph ps)); [done| |].
      * apply full_graph_spec. exists d. split; [done|]. apply list_elem_of_fmap. by exists x.
      * apply Hin, full_graph_spec. exists p, d. auto.
    + specialize (Hall (p, d) Hp). cbn in Hall.
      destruct (check_all_spec (check_dependency ps) (dependencies d)) as [(_ & Hd)|(y & e & _ & _ & E)]; [|congruence].
      specialize (Hd x Hx). unfold check_dependency in Hd. destruct (dict_get ps x.1) as [d'|]; [|done].
      by exists d'.
  - destruct (check_all_spec (check_dependency ps) (dependencies p.2)) as [(E & _)|(y & e' & Hy & Ey & E)]; [congruence|].
    exists (Err e). split; [done|].
    assert (e' = e) as -> by congruence. split; [by apply check_dependency_error in Ey|right].
    intros Hs. destruct p as [p d]. specialize (Hs p d y Hp Hy). congruence.
Qed.

Lemma plugin_load_order_witness :
  let ps := ex_plugins [("app", ["db"; "log"]); ("db", ["log"]); ("log", [])]%string in
  ∃ r, get_load_order 4 ps = Some r ∧
    match r with
    | Ok l =>
        NoDup l ∧ (∀ n, n ∈ l ↔ n ∈ nodes (full_graph ps)) ∧
        (∀ p d x, (p, d) ∈ ps → x ∈ dependencies d →
           before l x.1 p ∧ ∃ d', dict_get ps x.1 = Some d' ∧ check_version x.2 (d_version d') = Ok ())
    | Err e => e = PluginDependencyError ∧ (cyclic (full_graph ps) ∨ ¬ satisfied ps)
    end.
Proof. apply plugin_load_order. vm_compute. lia. Defined.

(** A constraint of parts between commas, each an operator and a version of three numbers,
    accepts exactly the versions that satisfy every part in the order of the
    triples. *)
Theorem plugin_version_constraints cs v :
  cs ≠ [] → triple_ok v → Forall (λ x, triple_ok x.2) cs →
  check_version (join_with comma (constraint_text <$> cs)) (triple_text v) = Ok () ↔
  ∀ o w, (o, w) ∈ cs → vop_holds o (triple_list v) (triple_list w) = true.
Proof.
  intros Hne Hv Hcs. rewrite check_version_constraints by done. unfold guard_else.
  destruct (forallb _ cs) eqn:E.
  - rewrite forallb_forall in E. split; [|done]. intros _ o w Hin.
    apply (E (o, w)). by apply list_elem_of_In.
  - split; [done|]. intros H. exfalso. assert (forallb (λ x, vop_holds x.1 (triple_list v) (triple_list x.2)) cs = true) as E'.
    { apply forallb_forall. intros [o w] Hin. apply H. by apply list_elem_of_In. }
    congruence.
Qed.

Lemma plugin_version_constraints_witness :
  check_version (str ">=1.9.0,<2.0.0") (str "1.10.0") = Ok () ↔
  ∀ o w, (o, w) ∈ [(GE, (1, 9, 0)); (LT, (2, 0, 0))] → vop_holds o [1; 10; 0] (triple_list w) = true.
Proof.
  apply (plugin_version_constraints [(GE, (1, 9, 0)); (LT, (2, 0, 0))] (1, 10, 0));
    [done|repeat split; cbn; lia|repeat apply Forall_cons_2; [repeat split; cbn; lia..|constructor]].
Defined.

(** [get_all_dependencies] ends and returns what the plugin depends on, directly or
    not. *)
Theorem plugin_all_dependencies `{SetIteration} g p :
  graph_wf g →
  ∃ n r, (∀ fuel, (n <= fuel)%nat → get_all_dependencies fuel p g = Some r) ∧
    ∀ x, x ∈ r ↔ tc (edge g) p x.
Proof.
  intros Hwf. unfold get_all_dependencies.
  apply (all_dependencies_spec g p Hwf (unvisited g ∅)); [done|..].
  - intros x [Hx%elem_of_iterate|Hx]; [by apply tc_once|set_solver].
  - intros d Hd. left. by apply elem_of_iterate.
  - set_solver.
Qed.

Lemma plugin_all_dependencies_witness :
  ∃ n r, (∀ fuel, (n <= fuel)%nat →
      get_all_dependencies fuel (str "a") (full_graph (ex_plugins [("a", ["b"])]%string)) = Some r) ∧
    ∀ x, x ∈ r ↔ tc (edge (full_graph (ex_plugins [("a", ["b"])]%string))) (str "a") x.
Proof. apply plugin_all_dependencies, full_graph_wf. Defined.
End Properties.
