(* ===== verification/PluginResolve.v ===== *)
(** The graph that [PluginDependencyResolver.resolve] builds for one plugin: it holds what
    the plugin requires, directly or not, and only registered plugins that it requires or
    wants. *)

From stdpp Require Import relations.
From S2P Require Import Prelude Bytes Utf8 Str PyNum PyDict Sorting PluginDeps.
Import DependencyGraph PluginDependencyResolver.

Section resolve.
Variable ps : plugins.

Definition registered (x : pystr) : Prop := x ∈ ps.*1.

(** [x] requires [y]. *)
Definition requires (x y : pystr) : Prop := ∃ d, dict_get ps x = Some d ∧ y ∈ (dependencies d).*1.

(** [x] requires [y], or [y] is optional for [x] and registered. *)
Definition wants (x y : pystr) : Prop :=
  requires x y ∨ ∃ d, dict_get ps x = Some d ∧ y ∈ (optional_dependencies d).*1 ∧ registered y.

Record grown (reach : pystr → Prop) (s s' : t * gset pystr) : Prop := {
  gr_wf : graph_wf s.1 → graph_wf s'.1;
  gr_visited : s.2 ⊆ s'.2;
  gr_nodes : nodes s.1 ⊆ nodes s'.1;
  gr_new x : x ∈ nodes s'.1 → x ∈ nodes s.1 ∨ reach x ∧ registered x;
  gr_closed x : x ∈ s'.2 → x ∈ s.2 ∨ x ∈ nodes s'.1 ∧ ∀ y, requires x y → y ∈ s'.2;
}.

(** The registered plugins that are not visited. *)
Definition remaining (v : gset pystr) : nat := size (list_to_set (C := gset pystr) ps.*1 ∖ v).

Lemma remaining_mono v v' : v ⊆ v' → (remaining v' <= remaining v)%nat.
Proof. intros Hs. unfold remaining. apply subseteq_size. set_solver. Qed.

Lemma remaining_enter x v : registered x → x ∉ v → (remaining (v ∪ {[x]}) < remaining v)%nat.
Proof.
  intros Hx Hv. unfold remaining. apply subset_size. split; [set_solver|]. intros Hs. apply (not_elem_of_empty (C := gset pystr) x).
  assert (x ∈ list_to_set (C := gset pystr) ps.*1 ∖ v) as Hin by (apply elem_of_difference; by rewrite elem_of_list_to_set).
  apply Hs in Hin. set_solver.
Qed.

Lemma grown_refl reach s : grown reach s s.
Proof. by split; auto. Qed.

Lemma grown_trans reach s1 s2 s3 : grown reach s1 s2 → grown reach s2 s3 → grown reach s1 s3.
Proof.
  intros [W1 V1 N1 E1 C1] [W2 V2 N2 E2 C2]. split; [auto|set_solver|set_solver| |].
  - intros x [Hx|Hx]%E2; [by apply E1|by right].
  - intros x [Hx|Hx]%C2; [|by right]. apply C1 in Hx as [Hx|[Hx Hy]]; [by left|right]. split; [set_solver|].
    intros y Hr. by apply V2, Hy.
Qed.

Lemma grown_weaken (r r' : pystr → Prop) s s' : (∀ x, r x → r' x) → grown r s s' → grown r' s s'.
Proof. intros Hr [W V N E C]. split; [done..| |done]. intros x [Hx|[Hx Hy]]%E; auto. Qed.

Lemma check_dependency_registered x : check_dependency ps x = Ok () → registered x.1.
Proof.
  unfold check_dependency. destruct (dict_get ps x.1) as [d|] eqn:E; [|done]. intros _.
  apply dict_get_elem in E. apply list_elem_of_fmap. by exists (x.1, d).
Qed.

(** A result of the loops: an error, or a larger graph of which [Q] holds. *)
Definition outcome (reach : pystr → Prop) (s : t * gset pystr) (Q : t * gset pystr → Prop)
    (r : option (res (t * gset pystr))) : Prop :=
  match r with
  | Some (Ok s') => grown reach s s' ∧ Q s'
  | Some (Err e) => e = PluginDependencyError
  | None => False
  end.

Lemma outcome_weaken (reach reach' : pystr → Prop) (s s0 : t * gset pystr) (Q Q' : t * gset pystr → Prop) (r : option (res (t * gset pystr))) :
  (∀ x, reach x → reach' x) → grown reach' s s0 → (∀ s', s0.2 ⊆ s'.2 → Q s' → Q' s') →
  outcome reach s0 Q r → outcome reach' s Q' r.
Proof.
  intros Hr Hg HQ. destruct r as [[s'|e]|]; cbn; [|done..]. intros [H1 H2]. split.
  - eapply grown_trans; [exact Hg|]. by eapply grown_weaken.
  - apply HQ; [apply H1|done].
Qed.

Section loop.
Variables (reach : pystr → Prop) (fuel : nat) (f : option (res (t * gset pystr)) → pystr * pystr → option (res (t * gset pystr))).
Variable done_with : pystr * pystr → gset pystr → Prop.
Hypothesis done_mono : ∀ x v v', v ⊆ v' → done_with x v → done_with x v'.
Hypothesis f_err : ∀ e x, f (Some (Err e)) x = Some (Err e).

Lemma fold_err e l : foldl f (Some (Err e)) l = Some (Err e).
Proof. induction l as [|x l IH]; [done|]. cbn. by rewrite f_err. Qed.

Lemma fold_outcome l s :
  (∀ x s, x ∈ l → (remaining s.2 < fuel)%nat → outcome reach s (λ s', done_with x s'.2) (f (Some (Ok s)) x)) →
  (remaining s.2 < fuel)%nat →
  outcome reach s (λ s', ∀ x, x ∈ l → done_with x s'.2) (foldl f (Some (Ok s)) l).
Proof.
  revert s. induction l as [|x l IH]; intros s Hf Hs; cbn.
  { split; [apply grown_refl|]. by intros ? ?%elem_of_nil. }
  pose proof (Hf x s ltac:(left) Hs) as Hx. destruct (f (Some (Ok s)) x) as [[s1|e]|]; cbn in Hx; [|by rewrite fold_err, Hx|done].
  destruct Hx as [Hg Hd]. eapply (outcome_weaken reach); [done|exact Hg| |apply IH].
  - intros s' Hv HQ y [->|Hy]%elem_of_cons; [by eapply done_mono|by apply HQ].
  - intros y s' Hy. apply Hf. by right.
  - eapply Nat.le_lt_trans; [apply remaining_mono, Hg|done].
Qed.
End loop.

Lemma grown_dependency reach n x s :
  reach n → registered n → reach x → registered x →
  grown reach s (add_dependency n x s.1, s.2) ∧ grown reach s (add_optional_dependency n x s.1, s.2).
Proof.
  intros H1 H2 H3 H4. split; split; cbn [fst snd]; try done.
  - intros Hw a b. rewrite edge_add_dependency, !nodes_add_dependency. intros [[]%Hw|[-> ->]]; tauto.
  - intros a Ha. apply nodes_add_dependency. by left.
  - intros a [Ha|[->| ->]]%nodes_add_dependency; auto.
  - auto.
  - intros Hw a b. rewrite edge_add_optional, !nodes_add_optional. intros []%Hw; tauto.
  - intros a Ha. apply nodes_add_optional. by left.
  - intros a [Ha|[->| ->]]%nodes_add_optional; auto.
  - auto.
Qed.

Lemma resolve_recursive_spec fuel : ∀ n s,
  (remaining s.2 < fuel)%nat →
  outcome (rtc wants n) s (λ s', n ∈ s'.2) (resolve_recursive fuel ps n s).
Proof.
  induction fuel as [|fuel IH]; intros n s Hs; [lia|]. cbn [resolve_recursive].
  case_decide as Hn; [split; [apply grown_refl|done]|].
  destruct (dict_get ps n) as [d|] eqn:Ed; [|done].
  assert (registered n) as Hr by (apply dict_get_elem in Ed; apply list_elem_of_fmap; by exists (n, d)).
  set (s1 := (add_node n s.1, s.2 ∪ {[n]})).
  assert (remaining s1.2 < fuel)%nat as H1 by (cbn; pose proof (remaining_enter n s.2 Hr Hn); lia).
  match goal with |- outcome _ _ _ (foldl ?fo (foldl ?fr _ _) _) => set (required := fr); set (optional := fo) end.
  change (outcome (rtc wants n) s (λ s', n ∈ s'.2)
    (foldl optional (foldl required (Some (Ok s1)) (dependencies d)) (optional_dependencies d))).
  assert (∀ x s', x ∈ dependencies d → (remaining s'.2 < fuel)%nat →
    outcome (rtc wants n) s' (λ s'', x.1 ∈ s''.2) (required (Some (Ok s')) x)) as Hreq.
  { intros x s' Hx Hs'. cbn. destruct (check_dependency ps x) as [[]|e] eqn:Ec; [|by apply check_dependency_error in Ec].
    apply check_dependency_registered in Ec.
    assert (wants n x.1) as Hw by (left; exists d; split; [done|by apply list_elem_of_fmap_2]).
    eapply (outcome_weaken (rtc wants x.1)); [intros y Hy; by eapply rtc_l| | |by apply IH].
    - apply grown_dependency; [done|done|by apply rtc_once|done].
    - done. }
  assert (∀ x s', x ∈ optional_dependencies d → (remaining s'.2 < fuel)%nat →
    outcome (rtc wants n) s' (λ s'', True) (optional (Some (Ok s')) x)) as Hopt.
  { intros x s' Hx Hs'. cbn. destruct (dict_get ps x.1) as [dx|] eqn:Ex; [|split; [apply grown_refl|done]].
    destruct (check_dependency ps x) as [[]|e] eqn:Ec; [|by apply check_dependency_error in Ec].
    apply check_dependency_registered in Ec.
    assert (wants n x.1) as Hw by (right; exists d; split_and!; [done|by apply list_elem_of_fmap_2|done]).
    eapply (outcome_weaken (rtc wants x.1)); [intros y Hy; by eapply rtc_l| | |by apply IH].
    - apply grown_dependency; [done|done|by apply rtc_once|done].
    - done. }
  pose proof (fold_outcome (rtc wants n) fuel required (λ x v, x.1 ∈ v) ltac:(set_solver) ltac:(done) _ s1 Hreq H1) as Hq.
  destruct (foldl required (Some (Ok s1)) (dependencies d)) as [[s2|e]|]; [|by rewrite fold_err|done].
  destruct Hq as [Hg2 Hd2].
  assert (remaining s2.2 < fuel)%nat as H2 by (eapply Nat.le_lt_trans; [apply remaining_mono, Hg2|done]).
  pose proof (fold_outcome (rtc wants n) fuel optional (λ x v, True) ltac:(done) ltac:(done) _ s2 Hopt H2) as Ho.
  destruct (foldl optional (Some (Ok s2)) (optional_dependencies d)) as [[s3|e]|]; [|done|done].
  destruct Ho as [Hg3 _]. pose proof (grown_trans _ _ _ _ Hg2 Hg3) as [W V N E C]. cbn in V, N, E, C, W.
  assert (n ∈ s3.2) as Hin by set_solver. split; [|done]. split.
  - intros Hw. apply W. intros a b. rewrite edge_add_node. intros []%Hw. cbn. set_solver.
  - set_solver.
  - set_solver.
  - intros x Hx. destruct (E x Hx) as [Hx'|?]; [|by right]. cbn in Hx'.
    apply elem_of_union in Hx' as [?| ->%elem_of_singleton]; [by left|right]. split; [apply rtc_refl|done].
  - intros x Hx. destruct (decide (x = n)) as [->|Hne].
    + right. split; [apply N; cbn; set_solver|]. intros y (d' & Ed' & (z & -> & Hz)%list_elem_of_fmap).
      assert (d' = d) as -> by congruence. apply (gr_visited _ _ _ Hg3), Hd2, Hz.
    + destruct (C x Hx) as [Hx'|?]; [|by right]. left. set_solver.
Qed.

Lemma registered_size : (size (list_to_set (C := gset pystr) ps.*1) <= length ps)%nat.
Proof.
  rewrite <-(length_fmap fst). induction ps.*1 as [|x l IH]; cbn.
  - by rewrite size_empty.
  - rewrite size_union_alt, size_singleton.
    assert (size (list_to_set (C := gset pystr) l ∖ {[x]}) <= size (list_to_set (C := gset pystr) l))%nat
      by (apply subseteq_size; set_solver). lia.
Qed.

Lemma remaining_start : (remaining ∅ <= length ps)%nat.
Proof. unfold remaining. rewrite difference_empty_L. apply registered_size. Qed.

(** The graph of one plugin. *)
Lemma resolve_spec fuel n :
  (length ps < fuel)%nat →
  ∃ r, resolve fuel n ps = Some r ∧
    match r with
    | Ok g => graph_wf g ∧ (∀ x, x ∈ nodes g → rtc wants n x ∧ registered x) ∧
        (∀ x, rtc requires n x → x ∈ nodes g)
    | Err e => e = PluginDependencyError
    end.
Proof.
  intros Hf. pose proof (resolve_recursive_spec fuel n (init_graph, ∅)) as Hr. unfold resolve.
  destruct (resolve_recursive fuel ps n (init_graph, ∅)) as [r|].
  2:{ exfalso. apply Hr. cbn. pose proof remaining_start. lia. }
  assert (outcome (rtc wants n) (init_graph, ∅) (λ s', n ∈ s'.2) (Some r)) as Hr'.
  { apply Hr. cbn. pose proof remaining_start. lia. }
  clear Hr. eexists. split; [done|]. destruct r as [s|e]; cbn in *; [|done].
  destruct Hr' as [[W _ N E C] Hn]. cbn in *. split_and!.
  - apply W. intros a b Hab. unfold edge, targets in Hab. cbn in Hab. rewrite lookup_empty in Hab. set_solver.
  - intros x Hx. destruct (E x Hx) as [?|?]; [set_solver|done].
  - intros x Hx. assert (x ∈ s.2) as Hxv.
    { clear E. revert Hn. induction Hx as [y|y z x Hyz _ IH]; [done|]. intros Hy. apply IH.
      destruct (C y Hy) as [?|[_ Hc]]; [set_solver|]. by apply Hc. }
    destruct (C x Hxv) as [?|[? _]]; [set_solver|done].
Qed.
End resolve.
