(* ===== verification/PluginHooks.v ===== *)
(** Hooks: plugins/api.py, [Hook] and [HookRegistry].

    A hook is an object that the registry and the plugins share, so the registry keeps
    its hooks in a store and hands out their numbers: a hook that was removed can still be
    reached by who holds it. Handlers are code of the plugins: they are compared by
    identity, and calling one is a method of a world of which the hooks and the context
    dictionaries are a part, so that a handler may use the registry itself. The locks are
    re-entrant and a method of a hook holds one while it runs; [trigger] holds none while
    it calls a handler. [inspect.signature], [callable] and the handlers are
    parameters. *)

From Stdlib Require Import Sorted.
From S2P Require Import Prelude Bytes Utf8 Str PyDict Sorting.

Inductive HookPriority := EARLIEST | EARLY | NORMAL | LATE | LATEST.

#[export] Instance hook_priority_eq_dec : EqDecision HookPriority.
Proof. solve_decision. Defined.

Definition priority_value (p : HookPriority) : Z :=
  match p with EARLIEST => 0 | EARLY => 25 | NORMAL => 50 | LATE => 75 | LATEST => 100 end.

(** * One hook *)

Module Hook.
(** A handler with its priority and its plugin. *)
Abbreviation entry H := (HookPriority * pystr * H)%type.

Section hook.
Context {H : Type} `{EqDecision H} (callable : H → bool).

Definition e_priority (e : entry H) : Z := priority_value e.1.1.

Record t := { name : pystr; description : pystr; allow_short_circuit : bool; handlers : list (entry H) }.

Definition with_handlers (hs : list (entry H)) (h : t) : t := {|
  name := name h; description := description h; allow_short_circuit := allow_short_circuit h;
  handlers := hs |}.

Definition new_hook (n d : pystr) (allow : bool) : t := {|
  name := n; description := d; allow_short_circuit := allow; handlers := [] |}.

Definition register (handler : H) (priority : HookPriority) (plugin_name : pystr) : method t () :=
  if negb (callable handler) then m_raise HookException
  else λ h, (with_handlers (sort_on e_priority (handlers h ++ [(priority, plugin_name, handler)])) h, Ok ()).

(** The loop of [unregister]: the list without the first entry of the handler. *)
Fixpoint pop_handler (handler : H) (hs : list (entry H)) : option (list (entry H)) :=
  match hs with
  | [] => None
  | e :: hs' => if decide (e.2 = handler) then Some hs' else (e ::.) <$> pop_handler handler hs'
  end.

Definition unregister (handler : H) : method t bool := λ h,
  match pop_handler handler (handlers h) with
  | Some hs => (with_handlers hs h, Ok true)
  | None => (h, Ok false)
  end.

(** The condition of the comprehension counts the entries that it keeps. *)
Definition unregister_all (plugin_name : pystr) : method t Z := λ h,
  let hs := filter (λ e : entry H, e.1.2 ≠ plugin_name) (handlers h) in
  (with_handlers hs h, Ok (len hs)).

Definition clear : method t () := λ h, (with_handlers [] h, Ok ()).

Definition handler_count (h : t) : Z := len (handlers h).

Definition registered_plugins `{SetIteration} (h : t) : list pystr :=
  iterate (list_to_set (filter (λ n, n ≠ []) ((λ e : entry H, e.1.2) <$> handlers h))).
End hook.
Arguments t : clear implicits.
End Hook.

(** * The registry *)

Module HookRegistry.
Section registry.
Context {H : Type} `{EqDecision H} (callable : H → bool).
Abbreviation hook := (Hook.t H).

(** Every hook that was created, and [_hooks]. *)
Record t := { objects : list hook; hooks : list (pystr * nat) }.

Definition init_registry : t := {| objects := []; hooks := [] |}.

(** A method of the hook with a number. *)
Definition at_hook {A} (r : nat) (m : method hook A) : method t A := λ s,
  match objects s !! r with
  | Some h => let (h', a) := m h in ({| objects := <[r := h']> (objects s); hooks := hooks s |}, a)
  | None => (s, Err RuntimeError)
  end.

Definition create (n d : pystr) (allow : bool) : method t nat := λ s,
  ({| objects := objects s ++ [Hook.new_hook n d allow];
      hooks := dict_set (hooks s) n (length (objects s)) |}, Ok (length (objects s))).

Definition get_hook (n : pystr) (s : t) : option nat := dict_get (hooks s) n.

Definition register_hook (n d : pystr) (allow : bool) : method t nat := λ s,
  match get_hook n s with
  | Some _ => (s, Err HookException)
  | None => create n d allow s
  end.

Definition get_or_create_hook (n d : pystr) (allow : bool) : method t nat := λ s,
  match get_hook n s with
  | Some r => (s, Ok r)
  | None => create n d allow s
  end.

Definition remove_hook (n : pystr) : method t bool := λ s,
  match get_hook n s with
  | Some r =>
      (let! _ := at_hook r Hook.clear in m_ret true)
        {| objects := objects s; hooks := dict_del (hooks s) n |}
  | None => (s, Ok false)
  end.

(** [count += hook.unregister_all(plugin_name)] over the hooks of the registry. *)
Fixpoint unregister_loop (plugin_name : pystr) (rs : list nat) (count : Z) : method t Z :=
  match rs with
  | [] => m_ret count
  | r :: rs' =>
      let! n := at_hook r (Hook.unregister_all plugin_name) in
      unregister_loop plugin_name rs' (count + n)
  end.

Definition unregister_plugin (plugin_name : pystr) : method t Z := λ s,
  unregister_loop plugin_name ((hooks s).*2) 0 s.

(** [pattern in n]. *)
Fixpoint occurs (pattern n : pystr) : bool :=
  startswith pattern n || match n with [] => false | _ :: n' => occurs pattern n' end.

Definition list_hooks (pattern : option pystr) (s : t) : list pystr :=
  let names := (hooks s).*1 in
  sort_by text_lt
    match pattern with
    | Some ((_ :: _) as p) => filter (λ n, occurs p n = true) names
    | _ => names
    end.

Definition clear : method t () := λ s,
  (let! _ := for_each (λ r, at_hook r Hook.clear) ((hooks s).*2) in
   λ s, ({| objects := objects s; hooks := [] |}, Ok ())) s.

Definition length_hooks (s : t) : Z := len (hooks s).
Definition contains (n : pystr) (s : t) : bool := bool_decide (n ∈ (hooks s).*1).
End registry.
Arguments t : clear implicits.
End HookRegistry.

(** * Calling the handlers *)

(** A dictionary that the caller and the handlers share. *)
Record contexts (V : Type) := { dicts : list (list (pystr * option V)) }.
Arguments dicts {V} _.

Section trigger.
Context {W H V A : Type} `{EqDecision H}.
Context `{Part W (HookRegistry.t H)} `{Part W (contexts V)}.

(** [accepts_context]: whether the signature has a parameter [hook_context]; [call]: the
    arguments and, for such a handler, the context. A returned [None] is [None]. *)
Variable accepts_context : H → res bool.
Variable call : H → A → option nat → method W (option V).

(** [_hook_context or {}]: an empty dictionary is replaced by a new one. *)
Definition context_of (ctx : option nat) : method W nat :=
  let! c := on_part m_get in
  match ctx ≫= λ r, x ← dicts c !! r; if decide (x = []) then None else Some r with
  | Some r => m_ret r
  | None =>
      let! _ := on_part (m_put {| dicts := dicts c ++ [[]] |}) in
      m_ret (length (dicts c))
  end.

(** One handler. *)
Definition call_handler (args : A) (context : nat) (h : H) : method W (option V) :=
  m_try
    (let! has_context := m_lift (accepts_context h) in
     call h args (if has_context : bool then Some context else None))
    (λ _, m_raise HookException).

Fixpoint trigger_loop (allow : bool) (args : A) (context : nat) (hs : list (Hook.entry H))
    (results : list (option V)) : method W (list (option V)) :=
  match hs with
  | [] => m_ret results
  | (_, _, h) :: hs' =>
      let! result := call_handler args context h in
      let results := results ++ [result] in
      if allow && bool_decide (result ≠ None) then m_ret results
      else trigger_loop allow args context hs' results
  end.

(** [Hook.trigger]. *)
Definition trigger_hook (r : nat) (args : A) (ctx : option nat) : method W (list (option V)) :=
  let! context := context_of ctx in
  let! h := on_part (HookRegistry.at_hook r m_get) in
  trigger_loop (Hook.allow_short_circuit h) args context (Hook.handlers h) [].

(** [HookRegistry.trigger]. *)
Definition trigger (hook_name : pystr) (args : A) (ctx : option nat) : method W (list (option V)) :=
  let! s := on_part m_get in
  match HookRegistry.get_hook hook_name s with
  | None => m_ret []
  | Some r => trigger_hook r args ctx
  end.
End trigger.

(** * The order of the handlers *)

Section order.
Context {H : Type} `{EqDecision H} (callable : H → bool).
Import Hook.

Definition levels : list HookPriority := [EARLIEST; EARLY; NORMAL; LATE; LATEST].

(** One queue of handlers for each priority. *)
Definition queues : Type := HookPriority → list (pystr * H).
Definition at_level (q : queues) (p : HookPriority) : list (entry H) := (λ x, (p, x.1, x.2)) <$> q p.
Definition flatten (ps : list HookPriority) (q : queues) : list (entry H) := ps ≫= at_level q.
Definition queue_set (p : HookPriority) (l : list (pystr * H)) (q : queues) : queues :=
  λ p', if decide (p' = p) then l else q p'.

Fixpoint drop_first (h : H) (l : list (pystr * H)) : list (pystr * H) :=
  match l with
  | [] => []
  | x :: l' => if decide (x.2 = h) then l' else x :: drop_first h l'
  end.

(** The first queue that has the handler. *)
Definition level_of (h : H) (q : queues) (ps : list HookPriority) : option HookPriority :=
  head (filter (λ p, h ∈ (q p).*2) ps).

Inductive hook_op :=
  | Register (h : H) (p : HookPriority) (n : pystr)
  | Unregister (h : H)
  | UnregisterAll (n : pystr)
  | Clear.

Inductive hook_out := Done (r : res ()) | Removed (r : res bool) | Counted (r : res Z).

Definition hook_op_run (o : hook_op) (h : t H) : t H * hook_out :=
  match o with
  | Register f p n => let (h, r) := register callable f p n h in (h, Done r)
  | Unregister f => let (h, r) := unregister f h in (h, Removed r)
  | UnregisterAll n => let (h, r) := unregister_all n h in (h, Counted r)
  | Clear => let (h, r) := clear h in (h, Done r)
  end.

Definition queue_op_run (o : hook_op) (q : queues) : queues * hook_out :=
  match o with
  | Register f p n =>
      if callable f then (queue_set p (q p ++ [(n, f)]) q, Done (Ok ())) else (q, Done (Err HookException))
  | Unregister f =>
      match level_of f q levels with
      | Some p => (queue_set p (drop_first f (q p)) q, Removed (Ok true))
      | None => (q, Removed (Ok false))
      end
  | UnregisterAll n =>
      let q' : queues := λ p, filter (λ x, x.1 ≠ n) (q p) in
      (q', Counted (Ok (len (flatten levels q'))))
  | Clear => (λ _, [], Done (Ok ()))
  end.

Fixpoint run_ops {S} (f : hook_op → S → S * hook_out) (os : list hook_op) (s : S) : S * list hook_out :=
  match os with
  | [] => (s, [])
  | o :: os' => let (s, a) := f o s in let (s, l) := run_ops f os' s in (s, a :: l)
  end.

Lemma priority_value_inj p p' : priority_value p = priority_value p' → p = p'.
Proof. by destruct p, p'. Qed.

Lemma flatten_app ps ps' q : flatten (ps ++ ps') q = flatten ps q ++ flatten ps' q.
Proof. apply bind_app. Qed.

Lemma elem_of_flatten e ps q : e ∈ flatten ps q ↔ e.1.1 ∈ ps ∧ (e.1.2, e.2) ∈ q e.1.1.
Proof.
  unfold flatten. rewrite list_elem_of_bind. split.
  - intros (p & Hp & Hq). apply list_elem_of_fmap in Hp as ([n h] & -> & Hx). done.
  - intros [Hp Hx]. exists e.1.1. split; [|done]. apply list_elem_of_fmap. eexists. split; [|done].
    by destruct e as [[? ?] ?].
Qed.

Lemma flatten_ext ps q q' : (∀ p, p ∈ ps → q p = q' p) → flatten ps q = flatten ps q'.
Proof.
  induction ps as [|p ps IH]; intros Hq; [done|]. cbn. unfold at_level. rewrite (Hq p) by left.
  f_equal. apply IH. intros p' Hp. apply Hq. by right.
Qed.

Lemma levels_all p : p ∈ levels.
Proof. by destruct p; apply (bool_decide_unpack _). Qed.

Lemma levels_nodup : NoDup levels.
Proof. by apply (bool_decide_unpack _). Qed.

Lemma at_level_sorted q p l :
  StronglySorted (key_le e_priority) l → (∀ e, e ∈ l → priority_value p <= e_priority e) →
  StronglySorted (key_le e_priority) (at_level q p ++ l).
Proof.
  intros Hl Hp. unfold at_level. induction (q p) as [|x xs IH]; [done|]. cbn. constructor; [done|].
  rewrite Forall_app. split; apply Forall_forall; intros e He.
  - apply list_elem_of_fmap in He as (y & -> & _). unfold key_le, e_priority. cbn. lia.
  - by apply Hp.
Qed.

Lemma flatten_sorted q : StronglySorted (key_le e_priority) (flatten levels q).
Proof.
  assert (∀ ps, StronglySorted (λ p p', priority_value p <= priority_value p') ps →
    StronglySorted (key_le e_priority) (flatten ps q)) as H0.
  { induction 1 as [|p ps Hps IH Hp]; [constructor|]. apply at_level_sorted; [done|].
    intros e [He _]%elem_of_flatten. rewrite Forall_forall in Hp. by apply Hp. }
  apply H0. repeat (constructor; [|repeat constructor; done]). constructor.
Qed.

(** The entries of one priority are the queue of that priority. *)
Lemma filter_at_level q p p' :
  filter (λ e, e_priority e = priority_value p) (at_level q p') = if decide (p' = p) then at_level q p else [].
Proof.
  unfold at_level. case_decide as E.
  - subst. apply filter_id. intros e (x & -> & _)%list_elem_of_fmap. done.
  - apply filter_none. intros e (x & -> & _)%list_elem_of_fmap Hv.
    by apply E, priority_value_inj.
Qed.

Lemma filter_flatten q p :
  filter (λ e, e_priority e = priority_value p) (flatten levels q) = at_level q p.
Proof.
  unfold flatten, levels. cbn [mbind list_bind]. rewrite !filter_app, !filter_at_level.
  destruct p; cbn; by rewrite ?app_nil_r.
Qed.

(** A list whose entries of each priority are those of a queue, once sorted, is the
    queues one after the other. *)
Lemma sort_flatten l q :
  (∀ p, filter (λ e, e_priority e = priority_value p) l = at_level q p) →
  sort_on e_priority l = flatten levels q.
Proof.
  intros Hl. apply (sorted_unique e_priority); [apply sort_on_sorted|apply flatten_sorted|]. intros k.
  rewrite sort_on_stable.
  destruct (decide (k ∈ priority_value <$> levels)) as [Hk|Hk].
  - apply list_elem_of_fmap in Hk as (p & -> & _). by rewrite Hl, filter_flatten.
  - assert (∀ m : list (entry H), filter (λ e, e_priority e = k) m = []) as E; [|by rewrite !E].
    intros m. apply filter_none. intros e _ <-. apply Hk.
    apply list_elem_of_fmap. eexists. split; [done|apply levels_all].
Qed.

Lemma flatten_register q p n h :
  sort_on e_priority (flatten levels q ++ [(p, n, h)]) = flatten levels (queue_set p (q p ++ [(n, h)]) q).
Proof.
  apply sort_flatten. intros p'. rewrite filter_app, filter_flatten, filter_cons, filter_nil.
  unfold at_level, queue_set. destruct (decide (p' = p)) as [->|E].
  - rewrite decide_True by done. by rewrite fmap_app.
  - rewrite decide_False, app_nil_r; [done|]. intros Hv. by apply E, priority_value_inj.
Qed.

Lemma pop_handler_None (h : H) (l : list (entry H)) : pop_handler h l = None ↔ h ∉ l.*2.
Proof.
  induction l as [|[[p n] h'] l IH]; cbn; [split; [intros _; apply not_elem_of_nil|done]|].
  rewrite not_elem_of_cons. case_decide; [naive_solver|]. rewrite fmap_None. naive_solver.
Qed.

Lemma pop_handler_app (h : H) (l l' : list (entry H)) :
  pop_handler h (l ++ l') =
  match pop_handler h l with Some k => Some (k ++ l') | None => (l ++.) <$> pop_handler h l' end.
Proof.
  induction l as [|e l IH]; cbn; [by destruct (pop_handler h l')|]. case_decide; [done|].
  rewrite IH. destruct (pop_handler h l); [done|]. by destruct (pop_handler h l').
Qed.

Lemma pop_handler_level h q p :
  h ∈ (q p).*2 → pop_handler h (at_level q p) = Some (at_level (queue_set p (drop_first h (q p)) q) p).
Proof.
  unfold at_level, queue_set. rewrite decide_True by done.
  induction (q p) as [|x l IH]; cbn; [by intros ?%elem_of_nil|]. case_decide; [done|].
  intros [->|Hin]%elem_of_cons; [done|]. by rewrite IH.
Qed.

Lemma at_level_handlers q p : (at_level q p).*2 = (q p).*2.
Proof. unfold at_level. by rewrite <-list_fmap_compose. Qed.

Lemma pop_handler_flatten h q ps :
  NoDup ps →
  pop_handler h (flatten ps q) =
  match level_of h q ps with
  | Some p => Some (flatten ps (queue_set p (drop_first h (q p)) q))
  | None => None
  end.
Proof.
  unfold level_of. induction 1 as [|p ps Hp Hps IH]; [done|].
  change (flatten (p :: ps) q) with (at_level q p ++ flatten ps q).
  rewrite pop_handler_app, filter_cons. case_decide as E.
  - rewrite pop_handler_level by done. cbn [head]. f_equal.
    change (flatten (p :: ps) ?q) with (at_level q p ++ flatten ps q). f_equal.
    apply flatten_ext. intros p' Hp'. unfold queue_set. rewrite decide_False; [done|]. by intros ->.
  - assert (pop_handler h (at_level q p) = None) as -> by (by apply pop_handler_None; rewrite at_level_handlers).
    rewrite IH. destruct (head (filter _ ps)) as [p'|] eqn:Eh; [|done]. cbn. f_equal.
    change (flatten (p :: ps) ?q) with (at_level q p ++ flatten ps q). f_equal.
    unfold at_level, queue_set. rewrite decide_False; [done|]. intros ->.
    assert (p' ∈ filter (λ p, h ∈ (q p).*2) ps) as Hin by (destruct (filter _ ps); [done|injection Eh as ->; left]).
    by apply list_elem_of_filter in Hin as [].
Qed.

Lemma filter_flatten_name q n :
  filter (λ e : entry H, e.1.2 ≠ n) (flatten levels q) = flatten levels (λ p, filter (λ x, x.1 ≠ n) (q p)).
Proof.
  unfold flatten, levels, at_level. cbn [mbind list_bind]. rewrite !filter_app, !filter_map. done.
Qed.

Lemma hook_op_refines o h q :
  handlers h = flatten levels q →
  (hook_op_run o h).2 = (queue_op_run o q).2 ∧
  handlers (hook_op_run o h).1 = flatten levels (queue_op_run o q).1.
Proof.
  intros E. destruct o as [f p n|f|n|]; cbn; unfold register, unregister, unregister_all.
  - destruct (callable f); cbn; [|done]. by rewrite E, flatten_register.
  - rewrite E, pop_handler_flatten by apply levels_nodup.
    by destruct (level_of f q levels).
  - by rewrite E, filter_flatten_name.
  - done.
Qed.
End order.

(** * The registry *)

Section registry.
Context {H : Type} `{EqDecision H}.
Import HookRegistry.

(** The registered hooks exist and are different objects. *)
Record registry_wf (s : t H) : Prop := {
  rwf_refs : Forall (λ r, (r < length (objects s))%nat) (hooks s).*2;
  rwf_nodup : NoDup (hooks s).*2;
  rwf_names : NoDup (hooks s).*1;
}.

(** No registered hook has a handler of the plugin. *)
Definition unhooked (n : pystr) (s : t H) : Prop :=
  ∀ r h, r ∈ (hooks s).*2 → objects s !! r = Some h → ∀ e, e ∈ Hook.handlers h → e.1.2 ≠ n.

Definition others (n : pystr) (h : Hook.t H) : list (Hook.entry H) :=
  filter (λ e, e.1.2 ≠ n) (Hook.handlers h).

Lemma registry_wf_init : registry_wf (@init_registry H).
Proof. split; constructor. Qed.

Lemma at_hook_wf {A} r (m : method (Hook.t H) A) s : registry_wf s → registry_wf (at_hook r m s).1.
Proof.
  intros [H1 H2 H3]. unfold at_hook. destruct (objects s !! r) as [h|]; [|done].
  destruct (m h) as [h' a]. split; cbn; [|done..]. by rewrite length_insert.
Qed.

Lemma create_wf n d allow s : get_hook n s = None → registry_wf s → registry_wf (create n d allow s).1.
Proof.
  unfold get_hook. intros Hn [H1 H2 H3]. apply dict_get_None in Hn. unfold create. cbn.
  rewrite dict_set_new by done. split; cbn [objects hooks]; rewrite ?fmap_app; cbn.
  - rewrite length_app. cbn. apply Forall_app. split; [|repeat constructor; lia].
    eapply Forall_impl; [exact H1|]. cbn. lia.
  - apply NoDup_app. split_and!; [done| |apply NoDup_singleton].
    intros x Hx ->%list_elem_of_singleton. rewrite Forall_forall in H1. apply H1 in Hx. lia.
  - apply NoDup_app. split_and!; [done| |apply NoDup_singleton].
    by intros x Hx ->%list_elem_of_singleton.
Qed.

Lemma get_or_create_wf n d allow s : registry_wf s → registry_wf (get_or_create_hook n d allow s).1.
Proof. intros Hs. unfold get_or_create_hook. destruct (get_hook n s) eqn:E; [done|]. by apply create_wf. Qed.

Lemma register_hook_wf n d allow s : registry_wf s → registry_wf (register_hook n d allow s).1.
Proof. intros Hs. unfold register_hook. destruct (get_hook n s) eqn:E; [done|]. by apply create_wf. Qed.

Lemma dict_del_snd_NoDup {A} (d : list (pystr * A)) k : NoDup d.*2 → NoDup (dict_del d k).*2.
Proof.
  unfold dict_del. induction d as [|[k' a] d IH]; [done|]. cbn [fmap list_fmap].
  intros [Hn Hd]%NoDup_cons. rewrite filter_cons. case_decide; [|by apply IH].
  cbn. apply NoDup_cons. split; [|by apply IH]. intros ((? & ?) & -> & [_ Hx]%list_elem_of_filter)%list_elem_of_fmap.
  apply Hn. apply list_elem_of_fmap. eexists. split; [|exact Hx]. done.
Qed.

Lemma remove_hook_wf n s : registry_wf s → registry_wf (remove_hook n s).1.
Proof.
  intros [H1 H2 H3]. unfold remove_hook. destruct (get_hook n s) as [r|]; [|done].
  unfold m_bind. match goal with |- context [at_hook r ?m ?s'] => pose proof (at_hook_wf r m s') as Hw end.
  destruct (at_hook _ _ _) as [s' [a|e]]; cbn in *; apply Hw.
  all: split; cbn; [|by apply dict_del_snd_NoDup|by apply dict_del_NoDup].
  all: rewrite Forall_forall in H1 |- *; intros x (y & -> & Hy)%list_elem_of_fmap; apply H1, list_elem_of_fmap.
  all: exists y; split; [done|by eapply dict_del_elem].
Qed.

(** The number of handlers of a hook that are not of the plugin. *)
Definition kept (n : pystr) (s : t H) (r : nat) : Z :=
  match objects s !! r with Some h => len (others n h) | None => 0 end.

(** [unregister_plugin] keeps, in every registered hook, the handlers of the others. *)
Lemma unregister_hooks_loop_spec n rs count s :
  Forall (λ r, (r < length (objects s))%nat) rs → NoDup rs →
  ∃ s', unregister_loop n rs count s = (s', Ok (count + foldr Z.add 0 (kept n s <$> rs))) ∧
    hooks s' = hooks s ∧
    ∀ r, objects s' !! r =
      (λ h, if decide (r ∈ rs) then Hook.with_handlers (others n h) h else h) <$> objects s !! r.
Proof.
  revert count s. induction rs as [|r rs IH]; intros count s Hr Hd.
  { exists s. cbn. rewrite Z.add_0_r. split_and!; [done..|]. intros r. by destruct (objects s !! r). }
  apply Forall_cons in Hr as [Hr Hrs]. apply NoDup_cons in Hd as [Hn Hd].
  destruct (lookup_lt_is_Some_2 _ _ Hr) as [h Eh].
  set (s1 := {| objects := <[r := Hook.with_handlers (others n h) h]> (objects s); hooks := hooks s |}).
  destruct (IH (count + len (others n h)) s1) as (s' & E & Eh' & Eo); [by cbn; rewrite length_insert|done|].
  assert (kept n s1 <$> rs = kept n s <$> rs) as Ek.
  { apply list_fmap_ext. intros i x Hx%list_elem_of_lookup_2. unfold kept. cbn.
    rewrite list_lookup_insert_ne; [done|]. by intros ->. }
  exists s'. split_and!.
  - cbn [unregister_loop fmap list_fmap foldr]. unfold m_bind, at_hook. rewrite Eh. cbn -[unregister_loop].
    fold s1. rewrite Ek in E. unfold kept at 1. rewrite Eh, Z.add_assoc. exact E.
  - by rewrite Eh'.
  - intros r'. rewrite Eo. cbn. destruct (decide (r' = r)) as [->|Hne].
    + rewrite list_lookup_insert_eq by done. rewrite Eh. cbn. rewrite decide_False by done.
      rewrite decide_True by left. done.
    + rewrite list_lookup_insert_ne by done. destruct (objects s !! r') as [h'|]; [|done]. cbn. f_equal.
      destruct (decide (r' ∈ rs)); [rewrite decide_True by (by right); done|].
      rewrite decide_False; [done|]. by intros [?|?]%elem_of_cons.
Qed.
End registry.

(** * Calls *)

Section calls.
Context {W H V A : Type} `{EqDecision H}.
Context `{HR : Part W (HookRegistry.t H)} `{HC : Part W (contexts V)} `{!Apart W (HookRegistry.t H) (contexts V)}.
Variable accepts_context : H → res bool.
Variable call : H → A → option nat → method W (option V).
Abbreviation call_handler := (call_handler accepts_context call).
Abbreviation trigger_loop := (trigger_loop accepts_context call).

(** Every handler in turn. *)
Fixpoint run_handlers (args : A) (context : nat) (hs : list (Hook.entry H)) : method W (list (option V)) :=
  match hs with
  | [] => m_ret []
  | (_, _, h) :: hs' =>
      let! v := call_handler args context h in
      let! vs := run_handlers args context hs' in
      m_ret (v :: vs)
  end.

(** Only the last result can be something else than [None]. *)
Definition quiet_results (rs : list (option V)) : Prop := ∀ i v, rs !! i = Some (Some v) → S i = length rs.

(** What [trigger] does with the handlers [hs] when it ends in [w'] with [out]. *)
Definition triggered (allow : bool) (args : A) (c : nat) (hs : list (Hook.entry H)) (w w' : W)
    (out : res (list (option V))) : Prop :=
  ∃ pre post, hs = pre ++ post ∧
    match out with
    | Ok rs => run_handlers args c pre w = (w', Ok rs) ∧ (allow = true → quiet_results rs) ∧
        (post ≠ [] → allow = true ∧ ∃ v, last rs = Some (Some v))
    | Err e => ∃ p n h post' w1 rs, post = (p, n, h) :: post' ∧ run_handlers args c pre w = (w1, Ok rs) ∧
        (allow = true → Forall (λ r, r = None) rs) ∧ call_handler args c h w1 = (w', Err e) ∧
        (e = HookException ∨ e = CancelledError)
    end.

Lemma call_handler_error args c h w w' e :
  call_handler args c h w = (w', Err e) → e = HookException ∨ e = CancelledError.
Proof.
  unfold PluginHooks.call_handler, m_try. destruct (m_bind _ _ w) as [w1 [v|e1]]; [done|].
  unfold is_exception. case_bool_decide; cbn; intros [= <- <-]; auto.
Qed.

Lemma triggered_cons allow args c p n h hs v w w1 w' out :
  call_handler args c h w = (w1, Ok v) → (allow = true → v = None) → triggered allow args c hs w1 w' out →
  triggered allow args c ((p, n, h) :: hs) w w' ((λ rs, v :: rs) <$> out).
Proof.
  intros Ec Hv (pre & post & -> & Ht). exists ((p, n, h) :: pre), post. split; [done|]. destruct out as [rs|e]; cbn.
  - destruct Ht as (Er & Hq & Hp). split_and!.
    + by rewrite (m_bind_ok _ _ _ _ _ Ec), (m_bind_ok _ _ _ _ _ Er).
    + intros Ha [|i] x; cbn; [by rewrite Hv by done|]. intros Hx. by rewrite (Hq Ha i x Hx).
    + intros Hne. destruct (Hp Hne) as (Ha & x & Hx). split; [done|]. exists x. destruct rs; [done|]. exact Hx.
  - destruct Ht as (q & m & h' & post' & w2 & rs & -> & Er & Hn & Ec' & He).
    exists q, m, h', post', w2, (v :: rs). split_and!; [done| | |done|done].
    + by rewrite (m_bind_ok _ _ _ _ _ Ec), (m_bind_ok _ _ _ _ _ Er).
    + intros Ha. constructor; [by apply Hv|by apply Hn].
Qed.

Lemma trigger_loop_spec allow args c hs acc w :
  ∃ w' out, trigger_loop allow args c hs acc w = (w', (λ rs, acc ++ rs) <$> out) ∧
    triggered allow args c hs w w' out.
Proof.
  revert acc w. induction hs as [|[[p n] h] hs IH]; intros acc w.
  { exists w, (Ok []). cbn. rewrite app_nil_r. split; [done|]. exists [], []. split_and!; [done..| |done].
    by intros _ [|?] ?. }
  cbn [PluginHooks.trigger_loop]. destruct (call_handler args c h w) as [w1 [v|e]] eqn:Ec.
  - rewrite (m_bind_ok _ _ _ _ _ Ec). destruct (allow && bool_decide (v ≠ None)) eqn:Ev.
    + apply andb_true_iff in Ev as [-> Hv%bool_decide_eq_true]. destruct v as [v|]; [|done].
      exists w1, (Ok [Some v]). split; [done|]. exists [(p, n, h)], hs. split_and!; [done|..].
      * cbn. by rewrite (m_bind_ok _ _ _ _ _ Ec).
      * intros _ [|i] x Hx; [done|]. by destruct i.
      * intros _. split; [done|]. by exists v.
    + destruct (IH (acc ++ [v]) w1) as (w' & out & E & Ht).
      exists w', ((λ rs, v :: rs) <$> out). split.
      * rewrite E. destruct out; cbn; [|done]. by rewrite <-app_assoc.
      * eapply triggered_cons; [done| |done]. intros ->. case_bool_decide as Hb; [done|].
        by destruct (decide (v = None)).
  - rewrite (m_bind_err _ _ _ _ _ Ec). exists w1, (Err e). split; [done|].
    exists [], ((p, n, h) :: hs). split; [done|]. exists p, n, h, hs, w, []. split_and!; [done..| |done|].
    + by constructor.
    + by eapply call_handler_error.
Qed.

Lemma context_of_spec ctx w :
  ∃ wc c, context_of ctx w = (wc, Ok c) ∧ part (S := HookRegistry.t H) wc = part w ∧
    (∃ d, dicts (part (S := contexts V) wc) !! c = Some d) ∧
    (ctx = Some c ∧ wc = w ∨ dicts (part (S := contexts V) wc) !! c = Some [] ∧ c = length (dicts (part (S := contexts V) w))).
Proof.
  unfold context_of. rewrite (m_bind_ok _ _ _ _ _ (on_part_get w)).
  destruct (ctx ≫= _) as [r|] eqn:E.
  - exists w, r. destruct ctx as [r'|]; [|done]. cbn in E. destruct (dicts (part w) !! r') as [d|] eqn:Ed; [|done].
    cbn in E. case_decide; [done|]. injection E as ->. split_and!; [done..|by exists d|by left].
  - eexists _, _. split; [done|]. rewrite part_set, apart_l. cbn.
    assert ((dicts (part w) ++ [[]]) !! length (dicts (part (S := contexts V) w)) = Some []) as E'
      by (rewrite lookup_app_r by done; by rewrite Nat.sub_diag).
    split_and!; [done|by eexists|by right].
Qed.
End calls.

(** * Examples *)

(** A world of the registry, the contexts and a log of the handlers that were called.
    A handler is a number: it logs itself, raises from 100 on, and returns itself when it
    is odd. *)
Module HookExample.
Record world := { w_registry : HookRegistry.t Z; w_contexts : contexts Z; w_log : list Z }.

#[export] Instance registry_part : Part world (HookRegistry.t Z).
Proof.
  by refine {| part := w_registry;
    set_part r w := {| w_registry := r; w_contexts := w_contexts w; w_log := w_log w |} |}; intros; cbn; destruct w.
Defined.
#[export] Instance contexts_part : Part world (contexts Z).
Proof.
  by refine {| part := w_contexts;
    set_part c w := {| w_registry := w_registry w; w_contexts := c; w_log := w_log w |} |}; intros; cbn; destruct w.
Defined.
#[export] Instance parts_apart : Apart world (HookRegistry.t Z) (contexts Z).
Proof. by split. Qed.

Definition call (h : Z) (args : ()) (context : option nat) : method world (option Z) := λ w,
  ({| w_registry := w_registry w; w_contexts := w_contexts w; w_log := w_log w ++ [h] |},
   if 100 <=? h then Err ValueError else Ok (if Z.odd h then Some h else None)).

Definition entries : list (Hook.entry Z) :=
  [(EARLY, str "a", 2); (NORMAL, str "b", 4); (NORMAL, str "a", 5); (LATE, str "c", 6)].

Definition hook (allow : bool) : Hook.t Z := Hook.with_handlers entries (Hook.new_hook (str "h") [] allow).

Definition start (allow : bool) : world := {|
  w_registry := {| HookRegistry.objects := [hook allow]; HookRegistry.hooks := [(str "h", O)] |};
  w_contexts := {| dicts := [] |}; w_log := [] |}.

Abbreviation fire := (trigger (λ _, Ok false) call (str "h") () None).

Example short_circuit : (fire (start true)).2 = Ok [None; None; Some 5] ∧ w_log (fire (start true)).1 = [2; 4; 5].
Proof. by vm_compute. Qed.

Example no_short_circuit : (fire (start false)).2 = Ok [None; None; Some 5; None].
Proof. by vm_compute. Qed.

(** Of the four handlers two are removed; the count that is returned is that of the two
    others. With no handler left it would be 0. *)
Example counts_kept : (Hook.unregister_all (str "a") (hook true)).2 = Ok 2 ∧
  (Hook.unregister_all (str "a") (Hook.with_handlers [(EARLY, str "a", 2)] (hook true))).2 = Ok 0.
Proof. by vm_compute. Qed.

(** An empty context dictionary is not the one that the handlers get. *)
Example empty_context :
  (context_of (W := world) (V := Z) (Some O) {|
    w_registry := HookRegistry.init_registry; w_contexts := {| dicts := [[]] |}; w_log := [] |}).2 = Ok 1%nat.
Proof. by vm_compute. Qed.
End HookExample.

(** * Properties *)

Module Properties.
Import HookRegistry HookExample.

(** C23: Whatever is registered and removed, the handlers of a hook are five queues one after the
    other, a queue for each priority, the earliest priority first: a handler joins the end of
    the queue of its priority, [unregister] takes a handler out of the first queue that has
    it, and the operations return what the queues say. *)
Theorem hook_refines_queues {H} `{EqDecision H} (callable : H → bool) n d allow (os : list hook_op) :
  let h := run_ops (hook_op_run callable) os (Hook.new_hook n d allow) in
  let q := run_ops (queue_op_run callable) os (λ _, []) in
  h.2 = q.2 ∧ Hook.handlers h.1 = flatten levels q.1.
Proof.
  cbn zeta. assert (∀ (h : Hook.t H) q, Hook.handlers h = flatten levels q →
    (run_ops (hook_op_run callable) os h).2 = (run_ops (queue_op_run callable) os q).2 ∧
    Hook.handlers (run_ops (hook_op_run callable) os h).1 =
      flatten levels (run_ops (queue_op_run callable) os q).1) as Hr; [|by apply Hr].
  induction os as [|o os IH]; intros h q E; [done|]. cbn [run_ops].
  destruct (hook_op_refines callable o h q E) as [Ea Eh].
  destruct (hook_op_run callable o h) as [h' a], (queue_op_run callable o q) as [q' b]. cbn in Ea, Eh.
  specialize (IH h' q' Eh). destruct (run_ops _ os h'), (run_ops _ os q'). cbn in *.
  destruct IH as [-> ->]. by rewrite Ea.
Qed.

(** C24: Triggering a registered hook calls its handlers in their order, with one context: that
    of the caller when it is not empty, a new one otherwise. When the hook allows it the
    first result that is not [None] is the last, and no handler after it is called. A
    handler that raises ends the call with [HookException] ([CancelledError] excepted) and
    the later handlers are not called either. Otherwise every handler is called. *)
Theorem hook_trigger_spec {W H V A} `{EqDecision H} `{Part W (HookRegistry.t H)} `{Part W (contexts V)}
    `{!Apart W (HookRegistry.t H) (contexts V)} (accepts_context : H → res bool)
    (call : H → A → option nat → method W (option V)) n args ctx w r h :
  get_hook n (part w) = Some r → objects (part w) !! r = Some h →
  ∃ wc c w' out, trigger accepts_context call n args ctx w = (w', out) ∧
    context_of ctx w = (wc, Ok c) ∧
    (ctx = Some c ∧ wc = w ∨
     dicts (part (S := contexts V) wc) !! c = Some [] ∧ c = length (dicts (part (S := contexts V) w))) ∧
    triggered accepts_context call (Hook.allow_short_circuit h) args c (Hook.handlers h) wc w' out.
Proof.
  intros Hn Ho. destruct (context_of_spec (H := H) ctx w) as (wc & c & Ec & Ep & _ & Hc).
  destruct (trigger_loop_spec accepts_context call (Hook.allow_short_circuit h) args c (Hook.handlers h) [] wc)
    as (w' & out & E & Ht).
  exists wc, c, w', out. split_and!; [|done..].
  unfold trigger. rewrite (m_bind_ok _ _ _ _ _ (on_part_get w)), Hn. unfold trigger_hook.
  rewrite (m_bind_ok _ _ _ _ _ Ec). unfold m_bind at 1, on_part, at_hook. rewrite Ep, Ho. cbn -[trigger_loop].
  rewrite list_insert_id by done. replace {| objects := _; hooks := _ |} with (part (S := HookRegistry.t H) wc)
    by (rewrite Ep; by destruct (part w)).
  rewrite set_part_self, E. by destruct out.
Qed.

Lemma hook_trigger_spec_witness :
  ∃ wc c w' out, trigger (λ _, Ok false) HookExample.call (str "h") () None (HookExample.start true) = (w', out) ∧
    context_of (V := Z) None (HookExample.start true) = (wc, Ok c) ∧
    (None = Some c ∧ wc = HookExample.start true ∨
     dicts (part (S := contexts Z) wc) !! c = Some [] ∧ c = O) ∧
    triggered (λ _, Ok false) HookExample.call true () c HookExample.entries wc w' out.
Proof. exact (hook_trigger_spec (λ _, Ok false) HookExample.call (str "h") () None (HookExample.start true) O (HookExample.hook true) eq_refl eq_refl). Defined.

(** Removing a plugin takes its handlers out of every registered hook, keeps those of the
    other plugins in their order, and touches no hook that is not registered. The number
    it returns is that of the handlers that stay. *)
Theorem hooks_unregister_plugin {H} n (s : HookRegistry.t H) :
  registry_wf s →
  ∃ s', unregister_plugin n s = (s', Ok (foldr Z.add 0 (kept n s <$> (hooks s).*2))) ∧
    unhooked n s' ∧ hooks s' = hooks s ∧
    ∀ r h, objects s !! r = Some h →
      objects s' !! r = Some (if decide (r ∈ (hooks s).*2) then Hook.with_handlers (others n h) h else h).
Proof.
  intros [H1 H2 _]. destruct (unregister_hooks_loop_spec n (hooks s).*2 0 s H1 H2) as (s' & E & Eh & Eo).
  exists s'. split_and!; [exact E| |done|].
  - intros r h Hr Eh' e He. rewrite Eo in Eh'. rewrite Eh in Hr.
    apply fmap_Some in Eh' as (h0 & _ & ->). rewrite decide_True in He by done.
    by apply list_elem_of_filter in He as [].
  - intros r h Er. by rewrite Eo, Er.
Qed.

Lemma hooks_unregister_plugin_witness :
  ∃ s', unregister_plugin (str "a") (HookExample.w_registry (HookExample.start true)) = (s', Ok 2) ∧
    unhooked (str "a") s' ∧ hooks s' = [(str "h", O)] ∧
    ∀ r h, objects (HookExample.w_registry (HookExample.start true)) !! r = Some h →
      objects s' !! r = Some (if decide (r ∈ [O]) then Hook.with_handlers (others (str "a") h) h else h).
Proof.
  apply (hooks_unregister_plugin (str "a") (HookExample.w_registry (HookExample.start true))).
  split; cbn; [repeat constructor|apply NoDup_singleton..].
Defined.
End Properties.
