(* ===== verification/PluginEvents.v ===== *)
(** The event bus: plugins/api.py, [Event], [EventSubscription] and [EventBus].

    Callbacks and filters are code of the plugins: methods of a world of which the bus is a
    part. The bus holds its lock only while it takes the list of the subscriptions, counts a
    delivery, and removes the subscriptions that were for one event, so a delivery in a
    thread of its own is a task that advances in such steps, and the tasks interleave: a
    step of a task is one subscription, its filter, its callback and the count. The clock
    and the random identifiers of the subscriptions are arguments. *)

From Stdlib Require Import Sorted.
From stdpp Require Import relations.
From S2P Require Import Prelude Bytes Utf8 Str PyNum PyFloat PyDict Sorting.

Module EventPriority.
Inductive t := SYSTEM | HIGH | NORMAL | LOW | MONITOR.
Definition value (p : t) : Z :=
  match p with SYSTEM => 0 | HIGH => 25 | NORMAL => 50 | LOW => 75 | MONITOR => 100 end.
End EventPriority.

(** * Events *)

Module Event.
Section event.
Context {P : Type}.

Record t := {
  id : pystr; type : pystr; payload : P; source : pystr; timestamp : Z; priority : EventPriority.t;
  ttl : option Z }.

(** [Event(...)]: the empty identifier and the time zero count as not given. *)
Definition new_event (uuid : pystr) (now : Z) (type : pystr) (payload : P) (source : pystr) (id : option pystr)
    (timestamp : option Z) (priority : EventPriority.t) (ttl : option Z) : t := {|
  id := match id with Some (c :: s) => c :: s | _ => uuid end;
  type := type; payload := payload; source := source;
  timestamp := match timestamp with Some f => if float_zero f then now else f | None => now end;
  priority := priority; ttl := ttl |}.

Definition expired (now : Z) (e : t) : bool :=
  match ttl e with
  | None => false
  | Some ttl => float_lt ttl (float_sub now (timestamp e))
  end.
End event.
Arguments t : clear implicits.
End Event.

(** * Subscriptions *)

Definition any_event : pystr := str "*".

Module EventBus.
Section bus.
(** Callbacks, filters. *)
Context {C F : Type}.

(** [EventSubscription]. *)
Record subscription := {
  sub_id : pystr; event_type : pystr; callback : C; sub_priority : EventPriority.t; plugin_name : pystr;
  filter_func : option F; once : bool }.

Record t := {
  subscriptions : list (pystr * list subscription); wildcard_subscriptions : list subscription;
  published : Z; delivered : Z; dropped : Z; errors : Z }.

Definition init_bus : t := {|
  subscriptions := []; wildcard_subscriptions := []; published := 0; delivered := 0; dropped := 0; errors := 0 |}.

Definition with_subs (d : list (pystr * list subscription)) (l : list subscription) (b : t) : t := {|
  subscriptions := d; wildcard_subscriptions := l;
  published := published b; delivered := delivered b; dropped := dropped b; errors := errors b |}.

Definition count (p d r e : Z) (b : t) : t := {|
  subscriptions := subscriptions b; wildcard_subscriptions := wildcard_subscriptions b;
  published := published b + p; delivered := delivered b + d; dropped := dropped b + r; errors := errors b + e |}.

Definition by_priority (s : subscription) : Z := EventPriority.value (sub_priority s).

Definition named (k : pystr) (b : t) : list subscription := default [] (dict_get (subscriptions b) k).

Definition subscribe (s : subscription) : method t pystr := λ b,
  (if bool_decide (event_type s = any_event)
   then with_subs (subscriptions b) (sort_on by_priority (wildcard_subscriptions b ++ [s])) b
   else with_subs (dict_set (subscriptions b) (event_type s)
                     (sort_on by_priority (named (event_type s) b ++ [s]))) (wildcard_subscriptions b) b,
   Ok (sub_id s)).

(** The list without the first subscription with the identifier, if it has one. *)
Fixpoint pop_id (i : pystr) (l : list subscription) : option (list subscription) :=
  match l with
  | [] => None
  | s :: l' => if decide (sub_id s = i) then Some l' else (s ::.) <$> pop_id i l'
  end.

Fixpoint pop_named (i : pystr) (d : list (pystr * list subscription)) : option (list (pystr * list subscription)) :=
  match d with
  | [] => None
  | (k, l) :: d' =>
      match pop_id i l with
      | Some l' => Some ((k, l') :: d')
      | None => ((k, l) ::.) <$> pop_named i d'
      end
  end.

Definition unsubscribe (i : pystr) : method t bool := λ b,
  match pop_named i (subscriptions b) with
  | Some d => (with_subs d (wildcard_subscriptions b) b, Ok true)
  | None =>
      match pop_id i (wildcard_subscriptions b) with
      | Some l => (with_subs (subscriptions b) l b, Ok true)
      | None => (b, Ok false)
      end
  end.

Definition not_of (n : pystr) (l : list subscription) : list subscription := filter (λ s, plugin_name s ≠ n) l.

(** The loop over the event types. *)
Fixpoint unsubscribe_loop (n : pystr) (ks : list pystr) (d : list (pystr * list subscription)) (z : Z)
    : list (pystr * list subscription) * Z :=
  match ks with
  | [] => (d, z)
  | k :: ks' =>
      let subs := default [] (dict_get d k) in
      let subs' := not_of n subs in
      unsubscribe_loop n ks' (if decide (subs' = []) then dict_del d k else dict_set d k subs')
        (z + (len subs - len subs'))
  end.

(** The subscriptions to every event are counted after those of the plugin have gone. *)
Definition unsubscribe_plugin (n : pystr) : method t Z := λ b,
  let (d, z) := unsubscribe_loop n (subscriptions b).*1 (subscriptions b) 0 in
  let l := not_of n (wildcard_subscriptions b) in
  (with_subs d l b, Ok (z + len (filter (λ s, plugin_name s = n) l))).

Definition clear : method t () := λ b, (with_subs [] [] b, Ok ()).

Definition get_subscription_count (k : option pystr) (b : t) : Z :=
  match k with
  | Some ((_ :: _) as k) =>
      len (named k b) + len (filter (λ s, event_type s = k ∨ event_type s = any_event) (wildcard_subscriptions b))
  | _ => foldr Z.add 0 ((λ x, len x.2) <$> subscriptions b) + len (wildcard_subscriptions b)
  end.

(** What [_deliver] takes under the lock: the subscriptions in the order of their
    priorities, and those of them that are for one event. *)
Definition to_deliver (k : pystr) (b : t) : list subscription :=
  sort_on by_priority (named k b ++ wildcard_subscriptions b).

Definition once_subs (l : list subscription) : list subscription := filter (λ s, once s = true) l.

Definition unsubscribe_all (ids : list pystr) : method t () :=
  for_each (λ i, let! _ := unsubscribe i in m_ret ()) ids.

Definition remove_all (l : list subscription) : method t () := unsubscribe_all (sub_id <$> l).
End bus.
Arguments subscription : clear implicits.
Arguments t : clear implicits.

(** * Delivery *)

Section delivery.
Context {W C F P : Type} `{Part W (t C F)}.
Variable call : C → Event.t P → method W ().
Variable call_filter : F → Event.t P → method W bool.

Definition matches (s : subscription C F) (e : Event.t P) : method W bool :=
  if bool_decide (event_type s ≠ Event.type e) && bool_decide (event_type s ≠ any_event) then m_ret false
  else match filter_func s with Some f => call_filter f e | None => m_ret true end.

Definition on_bus (f : t C F → t C F) : method W () := on_part (λ b, (f b, Ok ())).

(** One turn of the loop: the filter is outside the [try]. *)
Definition deliver_one (e : Event.t P) (s : subscription C F) : method W () :=
  let! b := matches s e in
  if b : bool then
    m_try (let! _ := call (callback s) e in on_bus (count 0 1 0 0)) (λ _, on_bus (count 0 0 0 1))
  else m_ret ().

Definition deliver (e : Event.t P) : method W () :=
  let! b := on_part m_get in
  let subs := to_deliver (Event.type e) b in
  let! _ := for_each (deliver_one e) subs in
  on_part (remove_all (once_subs subs)).
End delivery.

(** ** Threads *)

(** A thread that delivers: it has not begun, it has the rest of its list and the
    subscriptions to remove, or it has ended. *)
Inductive task (C F P : Type) :=
  | Started (e : Event.t P)
  | Running (e : Event.t P) (rest : list (subscription C F)) (spent : list (subscription C F))
  | Ended.
Arguments Started {C F P} e.
Arguments Running {C F P} e rest spent.
Arguments Ended {C F P}.

Record threads (C F P : Type) := { tasks : list (task C F P) }.
Arguments tasks {C F P} _.

Section publish.
Context {W C F P : Type} `{Part W (t C F)} `{Part W (threads C F P)}.
Variable call : C → Event.t P → method W ().
Variable call_filter : F → Event.t P → method W bool.

Definition start_thread (e : Event.t P) : method W () :=
  on_part (λ h : threads C F P, ({| tasks := tasks h ++ [Started e] |}, Ok ())).

Definition publish (async_delivery : bool) (now : Z) (e : Event.t P) (synchronous : bool) : method W () :=
  if Event.expired now e then on_bus (count 0 0 1 0)
  else
    let! _ := on_bus (count 1 0 0 0) in
    if synchronous || negb async_delivery then deliver call call_filter e else start_thread e.

(** One step of a thread, with what it is afterwards; an exception ends it. *)
Definition task_step (k : task C F P) (w : W) : W * task C F P :=
  match k with
  | Started e =>
      let subs := to_deliver (Event.type e) (part w) in (w, Running e subs (once_subs subs))
  | Running e (s :: rest) spent =>
      match deliver_one call call_filter e s w with
      | (w', Ok _) => (w', Running e rest spent)
      | (w', Err _) => (w', Ended)
      end
  | Running e [] spent => ((on_part (remove_all (C := C) (F := F) spent) w).1, Ended)
  | Ended => (w, Ended)
  end.

Definition set_task (i : nat) (k : task C F P) (w : W) : W :=
  set_part {| tasks := <[i := k]> (tasks (part w)) |} w.

(** The scheduler lets thread [i] make a step. *)
Definition run_thread (i : nat) (w : W) : W :=
  match tasks (part w) !! i with
  | Some k => let (w', k') := task_step k w in set_task i k' w'
  | None => w
  end.
End publish.
End EventBus.

(** * The state of the bus *)

Section state.
Context {C F : Type}.
Import EventBus.
Implicit Types (b : t C F) (l : list (subscription C F)) (d : list (pystr * list (subscription C F))).

Definition sorted l : Prop := StronglySorted (key_le by_priority) l.

(** Every subscription. *)
Definition all_named d : list (subscription C F) := d ≫= snd.
Definition all_subs b : list (subscription C F) := all_named (subscriptions b) ++ wildcard_subscriptions b.

Record bus_wf b : Prop := {
  bw_keys : NoDup (subscriptions b).*1;
  bw_named k l : (k, l) ∈ subscriptions b → k ≠ any_event ∧ Forall (λ s, event_type s = k) l ∧ sorted l;
  bw_wild : Forall (λ s, event_type s = any_event) (wildcard_subscriptions b) ∧ sorted (wildcard_subscriptions b);
  bw_ids : NoDup (sub_id <$> all_subs b);
}.

(** What the code outside does to a bus; an identifier is new when it is given. *)
Inductive bus_step : t C F → t C F → Prop :=
  | step_subscribe s b : sub_id s ∉ sub_id <$> all_subs b → bus_step b (subscribe s b).1
  | step_unsubscribe i b : bus_step b (unsubscribe i b).1
  | step_unsubscribe_plugin n b : bus_step b (unsubscribe_plugin n b).1
  | step_clear b : bus_step b (clear b).1
  | step_count p dl dr e b : bus_step b (count p dl dr e b).

Lemma all_named_app d d' : all_named (d ++ d') = all_named d ++ all_named d'.
Proof. apply bind_app. Qed.

Lemma dict_set_all d k l s :
  NoDup d.*1 → l ≡ₚ s :: default [] (dict_get d k) → all_named (dict_set d k l) ≡ₚ s :: all_named d.
Proof.
  unfold all_named. induction d as [|[k' l'] d IH]; intros Hd Hl; cbn in *.
  { by rewrite app_nil_r. }
  apply NoDup_cons in Hd as [_ Hd]. case_decide as E; cbn.
  - cbn in Hl. by rewrite Hl.
  - rewrite IH by done. by rewrite Permutation_middle.
Qed.

Lemma dict_set_in d k l k' l' :
  NoDup d.*1 → (k', l') ∈ dict_set d k l → k' = k ∧ l' = l ∨ k' ≠ k ∧ (k', l') ∈ d.
Proof.
  intros Hd Hin. pose proof (dict_set_NoDup d k l Hd) as Hd'. apply elem_dict_get in Hin; [|done].
  rewrite dict_get_set in Hin. case_decide as E; [left; naive_solver|right]. split; [congruence|].
  by apply dict_get_elem.
Qed.

Lemma subscribe_all s b : NoDup (subscriptions b).*1 → all_subs (subscribe s b).1 ≡ₚ s :: all_subs b.
Proof.
  intros Hd. unfold subscribe, all_subs. case_bool_decide; cbn.
  - by rewrite sort_on_perm, app_assoc, Permutation_app_comm.
  - rewrite (dict_set_all _ _ _ s); [done|done|]. by rewrite sort_on_perm, Permutation_app_comm.
Qed.

Lemma subscribe_wf s b : sub_id s ∉ sub_id <$> all_subs b → bus_wf b → bus_wf (subscribe s b).1.
Proof.
  intros Hs [H1 H2 [H3 H3'] H4].
  assert (NoDup (sub_id <$> all_subs (subscribe s b).1)) as Hd by (rewrite subscribe_all by done; by constructor).
  revert Hd. unfold subscribe. case_bool_decide as E; intros Hd; split; cbn; try exact Hd.
  - done.
  - done.
  - split; [|apply sort_on_sorted]. rewrite sort_on_perm. apply Forall_app. auto.
  - by apply dict_set_NoDup.
  - intros k l [[-> ->]|[_ Hin]]%dict_set_in; [|by apply H2|done].
    split_and!; [done| |apply sort_on_sorted]. rewrite sort_on_perm. apply Forall_app. split; [|auto].
    unfold named. destruct (dict_get _ _) as [l|] eqn:Eg; [|constructor]. by apply dict_get_elem, H2 in Eg as (_ & ? & _).
  - done.
Qed.

Lemma subscribe_many (l : list (subscription C F)) :
  NoDup (sub_id <$> l) →
  bus_wf (foldl (λ b s, (subscribe s b).1) init_bus l) ∧ all_subs (foldl (λ b s, (subscribe s b).1) init_bus l) ≡ₚ l.
Proof.
  induction l as [|s l IH] using rev_ind.
  { intros _. split; [|done]. split; cbn; [constructor|by intros ? ? ?%elem_of_nil|split; constructor|constructor]. }
  rewrite fmap_app, foldl_app. intros (Hd & Hs & _)%NoDup_app. destruct (IH Hd) as [Hb Hp]. cbn [foldl]. split.
  - apply subscribe_wf; [|done]. rewrite Hp. intros Hin. apply (Hs _ Hin). left.
  - rewrite subscribe_all by apply Hb. by rewrite Hp, Permutation_app_comm.
Qed.

(** A bus with the same subscriptions in the same order, but not all of them. *)
Record sub_bus b' b : Prop := {
  sb_named : Forall (λ x', ∃ l, (x'.1, l) ∈ subscriptions b ∧ x'.2 `sublist_of` l) (subscriptions b');
  sb_keys : (subscriptions b').*1 `sublist_of` (subscriptions b).*1;
  sb_all : all_named (subscriptions b') `sublist_of` all_named (subscriptions b);
  sb_wild : wildcard_subscriptions b' `sublist_of` wildcard_subscriptions b;
}.

Lemma sub_bus_wf b b' : sub_bus b' b → bus_wf b → bus_wf b'.
Proof.
  intros [S1 S2 S3 S4] [H1 H2 [H3 H3'] H4]. split.
  - by eapply sublist_NoDup; [exact H1|].
  - intros k l Hin. rewrite Forall_forall in S1. apply S1 in Hin as (l0 & Hin & Hl). cbn in *.
    apply H2 in Hin as (? & ? & ?). split_and!; [done|by eapply Forall_sublist|by eapply sorted_sublist].
  - split; [by eapply Forall_sublist|by eapply sorted_sublist].
  - eapply sublist_NoDup; [exact H4|]. unfold all_subs. by apply fmap_sublist, sublist_app.
Qed.

Lemma pop_id_sublist i l l' : pop_id i l = Some l' → l' `sublist_of` l.
Proof.
  revert l'. induction l as [|s l IH]; intros l'; cbn; [done|]. case_decide; [intros [= ->]; by constructor|].
  intros (l1 & E & ->)%fmap_Some. constructor. by apply IH.
Qed.

Lemma sub_bus_refl d : Forall (λ x', ∃ l, (x'.1, l) ∈ d ∧ x'.2 `sublist_of` l) d.
Proof. apply Forall_forall. intros [k l0] Hin. by exists l0. Qed.

Lemma pop_named_sublist i d d' :
  pop_named i d = Some d' →
  Forall (λ x', ∃ l, (x'.1, l) ∈ d ∧ x'.2 `sublist_of` l) d' ∧ d'.*1 = d.*1 ∧ all_named d' `sublist_of` all_named d.
Proof.
  revert d'. induction d as [|[k l] d IH]; intros d'; cbn; [done|]. destruct (pop_id i l) as [l'|] eqn:E.
  - intros [= <-]. apply pop_id_sublist in E. split_and!; [|done|by apply sublist_app].
    constructor; [exists l; split; [left|done]|]. apply Forall_forall. intros [k0 l0] Hin. exists l0. split; [by right|done].
  - intros (d1 & E' & ->)%fmap_Some. destruct (IH d1 E') as (H1 & H2 & H3). split_and!.
    + constructor; [exists l; split; [left|done]|]. eapply Forall_impl; [exact H1|]. cbn.
      intros x (l0 & Hin & Hl). exists l0. split; [by right|done].
    + cbn. by rewrite H2.
    + by apply sublist_app.
Qed.

Lemma unsubscribe_sub i b : sub_bus (unsubscribe i b).1 b.
Proof.
  unfold unsubscribe. destruct (pop_named i (subscriptions b)) as [d|] eqn:E.
  - apply pop_named_sublist in E as (H1 & H2 & H3). split; cbn; [done|by rewrite H2|done..].
  - destruct (pop_id i _) as [l|] eqn:E'; split; cbn; try done; try by apply sub_bus_refl.
    by eapply pop_id_sublist.
Qed.

(** The lists of [d] without the plugin, empty ones left out. *)
Definition cleaned (n : pystr) d : list (pystr * list (subscription C F)) :=
  filter (λ x, x.2 ≠ []) ((λ x, (x.1, not_of n x.2)) <$> d).
Definition removed (n : pystr) d : Z := foldr Z.add 0 ((λ x, len x.2 - len (not_of n x.2)) <$> d).

Lemma cleaned_cons n k l d :
  cleaned n ((k, l) :: d) = if decide (not_of n l = []) then cleaned n d else (k, not_of n l) :: cleaned n d.
Proof.
  unfold cleaned. change ((λ x, (x.1, not_of n x.2)) <$> (k, l) :: d)
    with ((k, not_of n l) :: ((λ x, (x.1, not_of n x.2)) <$> d)).
  rewrite filter_cons. case_decide as E; case_decide as E'; try done.
Qed.

Lemma unsubscribe_loop_spec n d0 d z :
  NoDup (d0 ++ d).*1 →
  unsubscribe_loop n d.*1 (d0 ++ d) z = (d0 ++ cleaned n d, z + removed n d).
Proof.
  revert d0 z. induction d as [|[k l] d IH]; intros d0 z Hd; [cbn; by rewrite Z.add_0_r|].
  rewrite fmap_app in Hd. apply NoDup_app in Hd as (Hd0 & Hdis & [Hk Hd]%NoDup_cons).
  assert (k ∉ d0.*1) as Hk0 by (intros Hin; apply (Hdis k Hin); left).
  cbn [fmap list_fmap fst unsubscribe_loop]. rewrite dict_get_mid by done. change (default [] (Some l)) with l.
  rewrite cleaned_cons.
  assert (removed n ((k, l) :: d) = (len l - len (not_of n l)) + removed n d) as -> by done.
  rewrite Z.add_assoc. destruct (decide (not_of n l = [])) as [E|E].
  - rewrite dict_del_mid by done. rewrite IH; [done|]. rewrite fmap_app. apply NoDup_app.
    split_and!; [done| |done]. intros x Hx Hx'. apply (Hdis x Hx). by right.
  - rewrite dict_set_mid by done. change ((k, not_of n l) :: d) with ([(k, not_of n l)] ++ d).
    rewrite (app_assoc d0), IH, <-app_assoc; [done|]. rewrite <-app_assoc, fmap_app. apply NoDup_app.
    split_and!; [done|done|by constructor].
Qed.

Lemma cleaned_sub n d :
  Forall (λ x', ∃ l, (x'.1, l) ∈ d ∧ x'.2 `sublist_of` l) (cleaned n d) ∧
  (cleaned n d).*1 `sublist_of` d.*1 ∧ all_named (cleaned n d) `sublist_of` all_named d.
Proof.
  induction d as [|[k l] d (H1 & H2 & H3)]; [done|]. rewrite cleaned_cons.
  assert (Forall (λ x', ∃ l0, (x'.1, l0) ∈ (k, l) :: d ∧ x'.2 `sublist_of` l0) (cleaned n d)) as H1'.
  { eapply Forall_impl; [exact H1|]. intros x (l0 & Hin & Hl). exists l0. split; [by right|done]. }
  case_decide.
  - split_and!; [done|by constructor|]. by apply sublist_inserts_l.
  - split_and!; [constructor; [|done]|by constructor|].
    + exists l. split; [left|]. apply sublist_filter.
    + apply sublist_app; [apply sublist_filter|done].
Qed.

(** The subscriptions after the removal of a plugin. *)
Lemma unsubscribe_plugin_spec n b :
  NoDup (subscriptions b).*1 →
  ∃ z, unsubscribe_plugin n b = (with_subs (cleaned n (subscriptions b)) (not_of n (wildcard_subscriptions b)) b, Ok z).
Proof.
  intros Hd. unfold unsubscribe_plugin. pose proof (unsubscribe_loop_spec n [] (subscriptions b) 0 Hd) as E.
  cbn [app] in E. rewrite E. by eexists.
Qed.

Lemma unsubscribe_plugin_sub n b : NoDup (subscriptions b).*1 → sub_bus (unsubscribe_plugin n b).1 b.
Proof.
  intros Hd. destruct (unsubscribe_plugin_spec n b Hd) as [z ->]. destruct (cleaned_sub n (subscriptions b)) as (H1 & H2 & H3).
  split; cbn; [done..|]. apply sublist_filter.
Qed.

Lemma bus_step_wf b b' : bus_step b b' → bus_wf b → bus_wf b'.
Proof.
  destruct 1 as [s b Hs|i b|n b|b|p dl dr e b]; intros Hb.
  - by apply subscribe_wf.
  - eapply sub_bus_wf; [apply unsubscribe_sub|done].
  - eapply sub_bus_wf; [apply unsubscribe_plugin_sub, Hb|done].
  - split; cbn; [constructor|by intros ? ? ?%elem_of_nil|split; constructor|constructor].
  - by destruct Hb.
Qed.

(** ** Removal by identifier *)

(** The bus with the subscriptions that satisfy [p]. *)
Definition restrict (p : subscription C F → bool) b : t C F :=
  with_subs ((λ x, (x.1, filter p x.2)) <$> subscriptions b) (filter p (wildcard_subscriptions b)) b.

Definition other_id (i : pystr) (s : subscription C F) : bool := bool_decide (sub_id s ≠ i).

Lemma filter_absent i l : i ∉ sub_id <$> l → filter (other_id i) l = l.
Proof.
  intros Hi. apply filter_id. intros s Hs. unfold other_id. rewrite bool_decide_true; [done|].
  intros <-. by apply Hi, list_elem_of_fmap_2.
Qed.

Lemma pop_id_None i l : pop_id i l = None → i ∉ sub_id <$> l.
Proof.
  induction l as [|s l IH]; cbn; [intros _; apply not_elem_of_nil|]. case_decide; [done|].
  rewrite fmap_None, not_elem_of_cons. naive_solver.
Qed.

Lemma pop_id_filter i l l' : NoDup (sub_id <$> l) → pop_id i l = Some l' → i ∈ sub_id <$> l ∧ l' = filter (other_id i) l.
Proof.
  revert l'. induction l as [|s l IH]; intros l' Hd; [done|]. cbn in Hd |- *. apply NoDup_cons in Hd as [Hs Hd].
  unfold other_id at 1. case_decide as E.
  - intros [= <-]. subst. split; [left|]. rewrite decide_False by (by intros ?%bool_decide_unpack).
    by rewrite filter_absent.
  - intros (l1 & E1 & ->)%fmap_Some. destruct (IH _ Hd E1) as [Hin ->]. split; [by right|].
    by rewrite decide_True by (by apply bool_decide_pack).
Qed.

Lemma pop_named_None i d : pop_named i d = None → i ∉ sub_id <$> all_named d.
Proof.
  unfold all_named. induction d as [|[k l] d IH]; cbn; [intros _; apply not_elem_of_nil|].
  destruct (pop_id i l) eqn:E; [done|]. rewrite fmap_None, fmap_app, not_elem_of_app.
  intros Hd. split; [by apply pop_id_None|by apply IH].
Qed.

Lemma map_absent i d : i ∉ sub_id <$> all_named d → (λ x, (x.1, filter (other_id i) x.2)) <$> d = d.
Proof.
  unfold all_named. induction d as [|[k l] d IH]; [done|]. cbn. rewrite fmap_app, not_elem_of_app. intros [Hl Hd].
  by rewrite IH, filter_absent.
Qed.

Lemma pop_named_filter i d d' :
  NoDup (sub_id <$> all_named d) → pop_named i d = Some d' →
  i ∈ sub_id <$> all_named d ∧ d' = (λ x, (x.1, filter (other_id i) x.2)) <$> d.
Proof.
  unfold all_named. revert d'. induction d as [|[k l] d IH]; intros d' Hd; [done|]. cbn in Hd |- *.
  rewrite fmap_app in Hd |- *. apply NoDup_app in Hd as (Hl & Hdis & Hd). rewrite elem_of_app.
  destruct (pop_id i l) as [l'|] eqn:E.
  - intros [= <-]. destruct (pop_id_filter _ _ _ Hl E) as [Hi ->]. split; [by left|].
    change ((λ x, (x.1, filter (other_id i) x.2)) <$> d) with (fmap (λ x, (x.1, filter (other_id i) x.2)) d).
    by rewrite map_absent by (by apply Hdis).
  - intros (d1 & E1 & ->)%fmap_Some. destruct (IH _ Hd E1) as [Hi ->]. split; [by right|].
    by rewrite (filter_absent i l) by (by apply pop_id_None).
Qed.

Lemma unsubscribe_restrict i b : bus_wf b → (unsubscribe i b).1 = restrict (other_id i) b.
Proof.
  intros [_ _ _ Hd]. unfold all_subs in Hd. rewrite fmap_app in Hd. apply NoDup_app in Hd as (Hn & Hdis & Hw).
  unfold unsubscribe, restrict. destruct (pop_named i (subscriptions b)) as [d|] eqn:E.
  - destruct (pop_named_filter _ _ _ Hn E) as [Hi ->]. cbn. by rewrite (filter_absent i (wildcard_subscriptions b)) by auto.
  - rewrite map_absent by (by apply pop_named_None).
    destruct (pop_id i _) as [l|] eqn:E'; cbn.
    + by destruct (pop_id_filter _ _ _ Hw E') as [_ ->].
    + rewrite filter_absent by (by apply pop_id_None). by destruct b.
Qed.

Lemma restrict_restrict p q b : restrict p (restrict q b) = restrict (λ s, p s && q s) b.
Proof.
  assert (∀ l, filter p (filter q l) = filter (λ s, p s && q s) l) as Hl.
  { intros l. rewrite list_filter_filter. apply list_filter_iff. intros s. by rewrite andb_True. }
  unfold restrict, with_subs. cbn. rewrite Hl, <-list_fmap_compose. f_equal.
  apply list_fmap_ext. intros _ x _. cbn. by rewrite Hl.
Qed.

Lemma elem_of_named x s b : x ∈ subscriptions b → s ∈ x.2 → s ∈ all_subs b.
Proof. intros Hx Hs. apply elem_of_app. left. apply list_elem_of_bind. by exists x. Qed.

Lemma restrict_ext p q b : (∀ s, s ∈ all_subs b → p s = q s) → restrict p b = restrict q b.
Proof.
  intros Hpq. unfold restrict. f_equal.
  - apply list_fmap_ext. intros _ x Hx%list_elem_of_lookup_2. f_equal. apply filter_ext_in.
    intros s Hs. by rewrite (Hpq s) by (by eapply elem_of_named).
  - apply filter_ext_in. intros s Hs. rewrite (Hpq s); [done|]. apply elem_of_app. by right.
Qed.

Lemma restrict_true b : restrict (λ _, true) b = b.
Proof.
  assert (∀ l, filter (λ _, true) l = l) as Hl by (intros l; by apply filter_id).
  unfold restrict. rewrite Hl. destruct b as [d w p dl dr e]. cbn. unfold with_subs. cbn. f_equal.
  transitivity (id <$> d); [|apply list_fmap_id]. apply list_fmap_ext. intros _ [k l] _. cbn. by rewrite Hl.
Qed.

Lemma unsubscribe_all_spec ids b :
  bus_wf b → unsubscribe_all ids b = (restrict (λ s, bool_decide (sub_id s ∉ ids)) b, Ok ()).
Proof.
  unfold unsubscribe_all. revert b. induction ids as [|i ids IH]; intros b Hb; cbn.
  - unfold m_ret. f_equal. rewrite <-restrict_true at 1. apply restrict_ext. intros s _. symmetry.
    apply bool_decide_true, not_elem_of_nil.
  - unfold m_bind at 1 2. pose proof (unsubscribe_restrict i b Hb) as E.
    pose proof (bus_step_wf _ _ (step_unsubscribe i b) Hb) as Hw.
    destruct (unsubscribe i b) as [b' [?|?]] eqn:E'; cbn in E, Hw; subst b'.
    + cbn. rewrite IH, restrict_restrict by done. f_equal. apply restrict_ext. intros x _. unfold other_id.
      rewrite <-bool_decide_and. apply bool_decide_ext. rewrite not_elem_of_cons. tauto.
    + exfalso. revert E'. unfold unsubscribe. repeat case_match; naive_solver.
Qed.

(** Taking away the subscriptions for one event among those of an event type. *)
Lemma remove_once_spec k b :
  bus_wf b →
  remove_all (once_subs (to_deliver k b)) b =
  (restrict (λ s, negb (once s && bool_decide (event_type s = k ∨ event_type s = any_event))) b, Ok ()).
Proof.
  intros Hb. unfold remove_all. rewrite unsubscribe_all_spec by done. f_equal. apply restrict_ext. intros s Hs.
  destruct Hb as [Hk Hn [Hw _] Hd].
  assert (∀ x, x ∈ to_deliver k b ↔ x ∈ all_subs b ∧ (event_type x = k ∨ event_type x = any_event)) as Hin.
  { intros x. unfold to_deliver, all_subs. rewrite sort_on_perm, !elem_of_app. rewrite Forall_forall in Hw.
    unfold named, all_named. rewrite list_elem_of_bind. split.
    - intros [Hx|Hx]; [|by auto]. destruct (dict_get _ k) as [l|] eqn:E; [|by apply elem_of_nil in Hx].
      apply dict_get_elem in E. split; [left; by exists (k, l)|left]. apply Hn in E as (_ & Hf & _).
      rewrite Forall_forall in Hf. by apply Hf.
    - intros [[([k' l] & Hx & Hl)|Hx] Ht]; [left|by right]. cbn in Hx. pose proof (Hn k' l Hl) as (Hne & Hf & _).
      rewrite Forall_forall in Hf. specialize (Hf x Hx). destruct Ht as [<-|Ht]; [|congruence].
      rewrite Hf. by rewrite (elem_dict_get _ _ _ Hk Hl). }
  apply eq_true_iff_eq. rewrite bool_decide_eq_true, negb_true_iff, andb_false_iff, bool_decide_eq_false.
  rewrite <-not_true_iff_false. split.
  - intros Hn'. destruct (once s) eqn:Eo; [right|by left]. intros Ht. apply Hn'.
    apply list_elem_of_fmap_2, list_elem_of_filter. split; [done|]. by apply Hin.
  - intros Hn' (x & Ex & [Ho Hx]%list_elem_of_filter)%list_elem_of_fmap. apply Hin in Hx as [Hx Ht].
    rewrite (nodup_key sub_id _ s x Hd Hs Hx Ex) in Hn'. tauto.
Qed.
End state.

(** * Deliveries *)

Section deliveries.
Context {C F P E : Type}.
Import EventBus.
Abbreviation bus := (t C F).

(** Callbacks that leave the bus alone, and filters that are functions. *)
Variable callbacks : C → Event.t P → method E ().
Variable accepts : F → Event.t P → bool.

Context {W : Type} `{HB : Part W bus} `{HE : Part W E} `{!Apart W bus E}.
Definition quiet_call (c : C) (e : Event.t P) : method W () := on_part (callbacks c e).
Definition quiet_filter (f : F) (e : Event.t P) : method W bool := m_ret (accepts f e).
Abbreviation deliver_one := (deliver_one quiet_call quiet_filter).
Abbreviation deliver := (deliver quiet_call quiet_filter).

Definition wanted (e : Event.t P) (s : subscription C F) : bool :=
  bool_decide (event_type s = Event.type e ∨ event_type s = any_event) &&
  match filter_func s with Some f => accepts f e | None => true end.

(** The callbacks of the subscriptions in turn, with the number of those that return
    and of those that raise. *)
Fixpoint notify (l : list (subscription C F)) (e : Event.t P) (v : E) : E * (Z * Z) :=
  match l with
  | [] => (v, (0, 0))
  | s :: l' =>
      let (v, r) := callbacks (callback s) e v in
      let '(v, (n, x)) := notify l' e v in
      (v, if is_ok r then (n + 1, x) else (n, x + 1))
  end.

(** No callback raises what is not an [Exception]. *)
Definition ordinary : Prop := ∀ c e v, (callbacks c e v).2 ≠ Err CancelledError.

Lemma matches_wanted s e (w : W) : matches quiet_filter s e w = (w, Ok (wanted e s)).
Proof.
  unfold matches, wanted, quiet_filter.
  destruct (decide (event_type s = Event.type e)) as [E1|E1], (decide (event_type s = any_event)) as [E2|E2];
    repeat (first [rewrite bool_decide_true by tauto|rewrite bool_decide_false by tauto]); cbn;
    by destruct (filter_func s).
Qed.

Lemma count_count p d r e p' d' r' e' (b : bus) :
  count p d r e (count p' d' r' e' b) = count (p' + p) (d' + d) (r' + r) (e' + e) b.
Proof. unfold count. cbn. by rewrite !Z.add_assoc. Qed.

Lemma count_zero (b : bus) : count 0 0 0 0 b = b.
Proof. unfold count. rewrite !Z.add_0_r. by destruct b. Qed.

(** From [w] to [w'] the environment became [r.1] and the two counts grew by [r.2]. *)
Definition moved (w w' : W) (r : E * (Z * Z)) : Prop :=
  part (S := bus) w' = count 0 r.2.1 0 r.2.2 (part w) ∧ part w' = r.1 ∧
  ∀ T (HT : Part W T), Apart W bus T → Apart W E T → part (S := T) w' = part w.

Lemma moved_refl w : moved w w (part w, (0, 0)).
Proof. split_and!; [by cbn; rewrite count_zero|done..]. Qed.

Lemma deliver_one_spec e s w :
  ordinary → ∃ w', deliver_one e s w = (w', Ok ()) ∧
    moved w w' (if wanted e s then notify [s] e (part w) else (part w, (0, 0))).
Proof.
  intros Ho. unfold EventBus.deliver_one. rewrite (m_bind_ok _ _ _ _ _ (matches_wanted s e w)).
  destruct (wanted e s); [|by exists w; split; [done|apply moved_refl]].
  specialize (Ho (callback s) e (part w)). unfold m_try, m_bind, quiet_call, on_part. cbn [notify].
  destruct (callbacks (callback s) e (part w)) as [v [[]|er]]; cbn -[is_exception] in Ho |- *.
  - eexists. split; [done|]. split_and!; cbn.
    + by rewrite part_set, apart_l.
    + by rewrite apart_r, part_set.
    + intros T HT A1 A2. by rewrite !apart_r.
  - assert (is_exception er = true) as -> by (unfold is_exception; rewrite bool_decide_false; [done|congruence]).
    eexists. split; [done|]. split_and!; cbn.
    + by rewrite part_set, apart_l.
    + by rewrite apart_r, part_set.
    + intros T HT A1 A2. by rewrite !apart_r.
Qed.

Lemma notify_cons s l e v :
  notify (s :: l) e v =
  let '(v1, (n1, x1)) := notify [s] e v in let '(v2, (n2, x2)) := notify l e v1 in (v2, (n1 + n2, x1 + x2)).
Proof.
  cbn [notify]. destruct (callbacks (callback s) e v) as [v1 r], (notify l e v1) as [v2 [n2 x2]].
  destruct (is_ok r); do 2 f_equal; lia.
Qed.

Lemma moved_trans w w1 w2 v1 n1 x1 v2 n2 x2 :
  moved w w1 (v1, (n1, x1)) → moved w1 w2 (v2, (n2, x2)) → moved w w2 (v2, (n1 + n2, x1 + x2)).
Proof.
  intros (B1 & E1 & T1) (B2 & E2 & T2). split_and!; cbn in *; [|done|].
  - by rewrite B2, B1, count_count.
  - intros T HT A1 A2. by rewrite (T2 T), (T1 T).
Qed.

Lemma deliver_loop_spec e l w :
  ordinary → ∃ w', for_each (deliver_one e) l w = (w', Ok ()) ∧
    moved w w' (notify (filter (wanted e) l) e (part w)).
Proof.
  intros Ho. revert w. induction l as [|s l IH]; intros w; [exists w; split; [done|apply moved_refl]|].
  destruct (deliver_one_spec e s w Ho) as (w1 & E1 & M1). destruct (IH w1) as (w2 & E2 & M2).
  exists w2. cbn [for_each]. rewrite (m_bind_ok _ _ _ _ _ E1). split; [done|]. rewrite filter_cons.
  pose proof (proj1 (proj2 M1)) as Ep. case_decide as D.
  - apply Is_true_eq_true in D. rewrite D in M1, Ep. rewrite notify_cons.
    destruct (notify [s] e (part w)) as [v1 [n1 x1]]. cbn in Ep. rewrite Ep in M2.
    destruct (notify _ e v1) as [v2 [n2 x2]]. by eapply moved_trans.
  - destruct (wanted e s); [by destruct D|]. cbn in Ep. rewrite Ep in M2.
    destruct (notify _ e (part w)) as [v2 [n2 x2]]. by eapply (moved_trans _ _ _ _ 0 0).
Qed.

Lemma count_wf p d r x (b : bus) : bus_wf b → bus_wf (count p d r x b).
Proof. intros Hb. eapply bus_step_wf; [|done]. constructor. Qed.

Lemma deliver_spec e w :
  ordinary → bus_wf (part w) →
  let r := notify (filter (wanted e) (to_deliver (Event.type e) (part w))) e (part w) in
  ∃ w', deliver e w = (w', Ok ()) ∧ part w' = r.1 ∧
    part w' = restrict (λ s, negb (once s && bool_decide (event_type s = Event.type e ∨ event_type s = any_event)))
                (count 0 r.2.1 0 r.2.2 (part w)).
Proof.
  intros Ho Hb r. unfold EventBus.deliver. rewrite (m_bind_ok _ _ _ _ _ (on_part_get w)).
  destruct (deliver_loop_spec e (to_deliver (Event.type e) (part w)) w Ho) as (w1 & E1 & B1 & V1 & _).
  fold r in B1, V1. rewrite (m_bind_ok _ _ _ _ _ E1). unfold on_part.
  assert (to_deliver (Event.type e) (part (S := bus) w) = to_deliver (Event.type e) (part (S := bus) w1)) as Et
    by (by rewrite B1).
  rewrite Et, remove_once_spec; [|rewrite B1; by apply count_wf].
  eexists. split; [done|]. split.
  - by rewrite apart_r.
  - by rewrite part_set, B1.
Qed.

(** ** Threads *)

Section threads.
Context `{HT : Part W (threads C F P)} `{!Apart W bus (threads C F P)} `{!Apart W E (threads C F P)}.
Abbreviation run_thread := (run_thread quiet_call quiet_filter).
Abbreviation task := (task C F P).

(** The same lists of subscriptions, none of them for one event. *)
Definition steady (b b' : bus) : Prop :=
  subscriptions b' = subscriptions b ∧ wildcard_subscriptions b' = wildcard_subscriptions b.
Definition lasting (b : bus) : Prop := Forall (λ s, once s = false) (all_subs b).

(** What a thread is after a step, and the calls that it has yet to make. *)
Definition advance (b : bus) (k : task) : task :=
  match k with
  | Started e => Running e (to_deliver (Event.type e) b) []
  | Running e (s :: rest) spent => Running e rest spent
  | Running _ [] _ | Ended => Ended
  end.
Definition owed (b : bus) (k : task) : Z :=
  match k with
  | Started e => len (filter (wanted e) (to_deliver (Event.type e) b))
  | Running e rest _ => len (filter (wanted e) rest)
  | Ended => 0
  end.
Definition turns (b : bus) (k : task) : nat :=
  match k with
  | Started e => 2 + length (to_deliver (Event.type e) b)
  | Running e rest _ => 1 + length rest
  | Ended => 0
  end.
Definition unspent (k : task) : Prop := match k with Running _ _ spent => spent = [] | _ => True end.
Definition calls (b : bus) : Z := delivered b + errors b.

Lemma steady_to_deliver k b b' : steady b b' → to_deliver k b' = to_deliver k b.
Proof. intros [E1 E2]. unfold to_deliver, named. by rewrite E1, E2. Qed.

Lemma lasting_once k b : bus_wf b → lasting b → once_subs (to_deliver k b) = [].
Proof.
  intros Hb Hl. apply filter_none. intros s Hs Ho. unfold lasting in Hl. rewrite Forall_forall in Hl.
  assert (once s = false); [|congruence]. apply Hl. unfold to_deliver in Hs.
  rewrite sort_on_perm in Hs. apply elem_of_app in Hs as [Hs|Hs]; [|apply elem_of_app; by right].
  unfold named in Hs. destruct (dict_get _ k) as [l|] eqn:Eg; [|by apply elem_of_nil in Hs].
  apply dict_get_elem in Eg. by apply (elem_of_named (k, l)).
Qed.

Lemma notify_length l e v : (notify l e v).2.1 + (notify l e v).2.2 = len l.
Proof.
  revert v. induction l as [|s l IH]; intros v; [done|]. cbn [notify]. destruct (callbacks (callback s) e v) as [v1 r].
  specialize (IH v1). destruct (notify l e v1) as [v2 [n x]]. cbn in *. destruct (is_ok r); cbn; lia.
Qed.

(** A step of thread [i] from a world with the bus [b0]. *)
Lemma run_thread_spec b0 i k (w : W) :
  ordinary → bus_wf b0 → lasting b0 → steady b0 (part w) → tasks (part w) !! i = Some k → unspent k →
  steady b0 (part (run_thread i w)) ∧ unspent (advance b0 k) ∧
  tasks (part (run_thread i w)) = <[i := advance b0 k]> (tasks (part w)) ∧
  calls (part (run_thread i w)) + owed b0 (advance b0 k) = calls (part w) + owed b0 k.
Proof.
  intros Ho Hb Hl Hs Hk Hu. unfold EventBus.run_thread. rewrite Hk.
  assert (∃ w', task_step quiet_call quiet_filter k w = (w', advance b0 k) ∧ steady b0 (part w') ∧
    unspent (advance b0 k) ∧ part (S := threads C F P) w' = part w ∧
    calls (part w') + owed b0 (advance b0 k) = calls (part w) + owed b0 k) as (w' & -> & H1 & H2 & H3 & H4).
  { destruct k as [e|e [|s rest] spent|]; cbn in Hu.
    - exists w. cbn. rewrite (steady_to_deliver _ _ _ Hs), lasting_once by done. done.
    - subst. exists w. cbn. unfold on_part. cbn. rewrite set_part_self. done.
    - destruct (deliver_one_spec e s w Ho) as (w' & E1 & B1 & V1 & T1). exists w'. cbn [task_step].
      rewrite E1. split_and!; [done| |done|by apply T1|].
      + by rewrite B1.
      + rewrite B1. cbn [advance owed]. rewrite filter_cons. unfold calls. cbn -[notify].
        pose proof (notify_length [s] e (part w)) as Hn. cbn [length] in Hn.
        case_decide as D; [apply Is_true_eq_true in D; rewrite D; cbn [length]; lia|].
        destruct (wanted e s); [by destruct D|]. cbn. lia.
    - exists w. done. }
  unfold set_task. rewrite !apart_l, part_set. cbn. rewrite H3. done.
Qed.

Definition run_schedule (sched : list nat) (w : W) : W := foldl (λ w i, run_thread i w) w sched.
Definition turns_of (i : nat) (sched : list nat) : nat := length (filter (λ j, j = i) sched).
Definition total (b : bus) (l : list task) : Z := foldr Z.add 0 (owed b <$> l).

Lemma total_insert b i k k' l :
  l !! i = Some k → total b (<[i := k']> l) = total b l - owed b k + owed b k'.
Proof.
  unfold total. revert i. induction l as [|x l IH]; intros [|i]; [done..| |].
  - intros [= ->]. cbn. lia.
  - intros Hi. change (<[S i := k']> (x :: l)) with (x :: <[i := k']> l). cbn [fmap list_fmap foldr].
    rewrite (IH i Hi). lia.
Qed.

Lemma run_schedule_spec b0 sched (w : W) :
  ordinary → bus_wf b0 → lasting b0 → steady b0 (part w) → Forall unspent (tasks (part w)) →
  let w' := run_schedule sched w in
  steady b0 (part w') ∧
  calls (part w') + total b0 (tasks (part w')) = calls (part w) + total b0 (tasks (part w)) ∧
  length (tasks (part w')) = length (tasks (part w)) ∧
  ∀ i k, tasks (part w) !! i = Some k →
    tasks (part w') !! i = Some (Nat.iter (turns_of i sched) (advance b0) k).
Proof.
  intros Ho Hb Hl. unfold run_schedule. revert w.
  induction sched as [|j sched IH]; intros w Hs Hu; [done|]. cbn [foldl].
  destruct (tasks (part (S := threads C F P) w) !! j) as [k|] eqn:Ek.
  2:{ assert (run_thread j w = w) as -> by (unfold EventBus.run_thread; by rewrite Ek).
      destruct (IH w Hs Hu) as (H1 & H2 & H3 & H4). split_and!; [done..|]. intros i k Hi.
      rewrite (H4 i k Hi). unfold turns_of. rewrite filter_cons_False; [done|]. intros ->. congruence. }
  assert (unspent k) as Hk by (rewrite Forall_forall in Hu; eapply Hu, list_elem_of_lookup_2, Ek).
  destruct (run_thread_spec b0 j k w Ho Hb Hl Hs Ek Hk) as (S1 & U1 & T1 & C1).
  destruct (IH (run_thread j w)) as (H1 & H2 & H3 & H4); [done|by rewrite T1; apply Forall_insert|].
  rewrite T1 in H2, H3, H4. rewrite (total_insert _ _ _ _ _ Ek) in H2. rewrite length_insert in H3.
  split_and!; [done|lia|done|]. intros i k' Hi. unfold turns_of. rewrite filter_cons.
  destruct (decide (j = i)) as [->|Hne].
  - assert (k' = k) as -> by congruence. rewrite (H4 i (advance b0 k)).
    + cbn [length]. by rewrite Nat.iter_succ_r.
    + apply list_lookup_insert_eq. by eapply lookup_lt_Some.
  - apply H4. by rewrite list_lookup_insert_ne.
Qed.

Lemma turns_advance b k : turns b (advance b k) = pred (turns b k).
Proof. by destruct k as [e|e [|s rest] spent|]. Qed.

Lemma iter_ended b n k : (turns b k <= n)%nat → Nat.iter n (advance b) k = Ended.
Proof.
  revert k. induction n as [|n IH]; intros k Hn.
  - destruct k; cbn in *; [lia..|done].
  - rewrite Nat.iter_succ_r. apply IH. rewrite turns_advance. lia.
Qed.
End threads.
End deliveries.

(** * Callbacks that use the bus *)

Section reentrant.
Context {W C F P : Type}.
Import EventBus.
Context `{HB : Part W (t C F)} `{HT : Part W (threads C F P)} `{!Apart W (t C F) (threads C F P)}.
Variable call : C → Event.t P → method W ().
Variable call_filter : F → Event.t P → method W bool.

(** A method that changes the bus by its operations only. *)
Definition uses_bus {A} (m : method W A) : Prop := ∀ w, rtc bus_step (part w) (part (m w).1).

Hypothesis call_uses : ∀ c e, uses_bus (call c e).
Hypothesis filter_uses : ∀ f e, uses_bus (call_filter f e).

Lemma uses_ret {A} (a : A) : uses_bus (m_ret a).
Proof. by intros w. Qed.
Lemma uses_get {A} (k : t C F → method W A) : (∀ b, uses_bus (k b)) → uses_bus (m_bind (on_part m_get) k).
Proof. intros Hk w. rewrite (m_bind_ok _ _ _ _ _ (on_part_get w)). apply Hk. Qed.
Lemma uses_bind {A B} (m : method W A) (k : A → method W B) :
  uses_bus m → (∀ a, uses_bus (k a)) → uses_bus (m_bind m k).
Proof.
  intros Hm Hk w. unfold m_bind. specialize (Hm w). destruct (m w) as [w1 [a|e]]; [|done].
  etrans; [exact Hm|apply Hk].
Qed.
Lemma uses_try {A} (m : method W A) h : uses_bus m → (∀ e, uses_bus (h e)) → uses_bus (m_try m h).
Proof.
  intros Hm Hh w. unfold m_try. specialize (Hm w). destruct (m w) as [w1 [a|e]]; [done|].
  destruct (is_exception e); [|done]. etrans; [exact Hm|apply Hh].
Qed.
Lemma uses_for_each {A} (f : A → method W ()) l : (∀ x, uses_bus (f x)) → uses_bus (for_each f l).
Proof. intros Hf. induction l; [apply uses_ret|]. by apply uses_bind. Qed.
Lemma uses_on_part {A} (m : method (t C F) A) : (∀ b, rtc bus_step b (m b).1) → uses_bus (on_part m).
Proof.
  intros Hm w. unfold on_part. specialize (Hm (part w)). destruct (m (part w)) as [b r]. cbn in *.
  by rewrite part_set.
Qed.
Lemma uses_count p d r x : uses_bus (on_bus (count p d r x)).
Proof. apply uses_on_part. intros b. apply rtc_once. constructor. Qed.

Lemma unsubscribe_all_steps ids (b : t C F) : rtc bus_step b (unsubscribe_all ids b).1.
Proof.
  unfold unsubscribe_all. revert b. induction ids as [|i ids IH]; intros b; [done|]. cbn. unfold m_bind.
  pose proof (step_unsubscribe i b) as Hs.
  destruct (unsubscribe i b) as [b' [?|?]]; cbn in *; [|by apply rtc_once].
  eapply rtc_l; [exact Hs|apply IH].
Qed.

Lemma uses_matches (s : subscription C F) e : uses_bus (matches call_filter s e).
Proof. unfold matches. destruct (_ && _); [apply uses_ret|]. destruct (filter_func s); [apply filter_uses|apply uses_ret]. Qed.

Lemma uses_deliver_one e (s : subscription C F) : uses_bus (deliver_one call call_filter e s).
Proof.
  apply uses_bind; [apply uses_matches|]. intros [|]; [|apply uses_ret].
  apply uses_try; [|intros; apply uses_count]. apply uses_bind; [apply call_uses|intros; apply uses_count].
Qed.

Lemma uses_deliver e : uses_bus (deliver call call_filter e).
Proof.
  apply uses_get. intros b. apply uses_bind; [apply uses_for_each, uses_deliver_one|].
  intros _. apply uses_on_part. intros b'. apply unsubscribe_all_steps.
Qed.

Lemma uses_publish async now e sync : uses_bus (publish call call_filter async now e sync).
Proof.
  unfold publish. destruct (Event.expired now e); [apply uses_count|].
  apply uses_bind; [apply uses_count|]. intros _. destruct (sync || negb async); [apply uses_deliver|].
  intros w. unfold start_thread, on_part. cbn. by rewrite apart_l.
Qed.

Lemma uses_run_thread i w : rtc bus_step (part w) (part (run_thread call call_filter i w)).
Proof.
  unfold run_thread. destruct (tasks (part w) !! i) as [k|]; [|done].
  assert (rtc bus_step (part w) (part (task_step call call_filter k w).1)) as Hk.
  { destruct k as [e|e [|s rest] spent|]; cbn [task_step]; [done|..|done].
    - apply uses_on_part. intros b. apply unsubscribe_all_steps.
    - pose proof (uses_deliver_one e s w) as Hd. by destruct (deliver_one call call_filter e s w) as [w' [?|?]]. }
  destruct (task_step call call_filter k w) as [w' k']. cbn in *. unfold set_task. by rewrite apart_l.
Qed.

(** The system: a plugin uses the bus or publishes, or a thread makes a step. *)
Inductive system_step : W → W → Prop :=
  | system_bus w b : bus_step (part w) b → system_step w (set_part b w)
  | system_publish async now e sync w : system_step w (publish call call_filter async now e sync w).1
  | system_thread i w : system_step w (run_thread call call_filter i w).

Lemma system_step_bus w w' : system_step w w' → rtc bus_step (part w) (part w').
Proof.
  destruct 1 as [w b Hb|async now e sync w|i w].
  - rewrite part_set. by apply rtc_once.
  - apply uses_publish.
  - apply uses_run_thread.
Qed.

Lemma bus_steps_wf (b b' : t C F) : rtc bus_step b b' → bus_wf b → bus_wf b'.
Proof. induction 1; [done|]. intros Hb. eauto using bus_step_wf. Qed.
End reentrant.

(** * Examples *)

(** A callback logs its number and raises when it is negative; a filter accepts when it is
    not zero. *)
Module EventExample.
Import EventBus.
Record world := { w_bus : t Z Z; w_threads : threads Z Z (); w_log : list Z }.

#[export] Instance bus_part : Part world (t Z Z).
Proof.
  by refine {| part := w_bus; set_part b w := {| w_bus := b; w_threads := w_threads w; w_log := w_log w |} |};
    intros; cbn; destruct w.
Defined.
#[export] Instance threads_part : Part world (threads Z Z ()).
Proof.
  by refine {| part := w_threads; set_part h w := {| w_bus := w_bus w; w_threads := h; w_log := w_log w |} |};
    intros; cbn; destruct w.
Defined.
#[export] Instance log_part : Part world (list Z).
Proof.
  by refine {| part := w_log; set_part l w := {| w_bus := w_bus w; w_threads := w_threads w; w_log := l |} |};
    intros; cbn; destruct w.
Defined.
#[export] Instance bus_threads : Apart world (t Z Z) (threads Z Z ()).
Proof. by split. Qed.
#[export] Instance bus_log : Apart world (t Z Z) (list Z).
Proof. by split. Qed.
#[export] Instance log_threads : Apart world (list Z) (threads Z Z ()).
Proof. by split. Qed.

Definition log (c : Z) (e : Event.t ()) : method (list Z) () := λ l,
  (l ++ [c], if c <? 0 then Err ValueError else Ok ()).
Definition accepts (f : Z) (e : Event.t ()) : bool := negb (f =? 0).

Definition sub (i : string) (k : pystr) (c : Z) (p : EventPriority.t) (f : option Z) (o : bool) : subscription Z Z := {|
  sub_id := str i; event_type := k; callback := c; sub_priority := p; plugin_name := str "p"; filter_func := f; once := o |}.

Definition ping : Event.t () := {|
  Event.id := str "e"; Event.type := str "ping"; Event.payload := (); Event.source := []; Event.timestamp := 0;
  Event.priority := EventPriority.NORMAL; Event.ttl := None |}.

Definition start (l : list (subscription Z Z)) (n : nat) : world := {|
  w_bus := foldl (λ b s, (subscribe s b).1) init_bus l;
  w_threads := {| tasks := replicate n (Started ping) |}; w_log := [] |}.

Definition mixed : list (subscription Z Z) :=
  [sub "a" (str "ping") 1 EventPriority.LOW None false; sub "b" any_event 2 EventPriority.HIGH None false;
   sub "c" (str "ping") (-3) EventPriority.HIGH None false; sub "d" (str "pong") 4 EventPriority.HIGH None false;
   sub "e" (str "ping") 5 EventPriority.HIGH (Some 0) true].

Abbreviation quiet := (quiet_call log).
Abbreviation sift := (quiet_filter (W := world) accepts).

(** The order of delivery; the filter of [e] rejects the event, and its subscription for
    one event is gone all the same. *)
Example delivery_order :
  let w := (deliver quiet sift ping (start mixed 0)).1 in
  w_log w = [-3; 2; 1] ∧ delivered (w_bus w) = 2 ∧ errors (w_bus w) = 1 ∧
  (sub_id <$> named (str "ping") (w_bus w)) = [str "c"; str "a"].
Proof. by vm_compute. Qed.

(** Two threads take a subscription for one event before either removes it: its callback
    is called twice. *)
Example once_twice :
  w_log (run_schedule log accepts [0; 1; 0; 1; 0; 1]%nat
    (start [sub "a" (str "ping") 1 EventPriority.NORMAL None true] 2)) = [1; 1].
Proof. by vm_compute. Qed.

(** A filter that raises ends the delivery: the subscriptions after it get nothing, and the
    exception leaves [publish]. *)
Example filter_raises :
  let w := deliver quiet (λ _ _, m_raise ValueError) ping
    (start [sub "a" (str "ping") 1 EventPriority.HIGH (Some 1) false;
            sub "b" (str "ping") 2 EventPriority.LOW None false] 0) in
  w.2 = Err ValueError ∧ w_log w.1 = [].
Proof. by vm_compute. Qed.

(** The subscriptions to every event are not counted. *)
Example wildcard_uncounted :
  (unsubscribe_plugin (str "p") (w_bus (start [sub "b" any_event 2 EventPriority.HIGH None false] 0))).2 = Ok 0.
Proof. by vm_compute. Qed.

Lemma start_wf l n : NoDup (sub_id <$> l) → bus_wf (w_bus (start l n)).
Proof. apply subscribe_many. Qed.

Lemma mixed_wf n : bus_wf (w_bus (start mixed n)).
Proof. apply start_wf. by apply (bool_decide_unpack _); vm_compute. Qed.

Definition kept : list (subscription Z Z) := take 4 mixed.

Lemma kept_lasting n : lasting (w_bus (start kept n)).
Proof. by apply (bool_decide_unpack _); vm_compute. Qed.

Lemma log_ordinary : ordinary log.
Proof. intros c e v. unfold log. cbn. by destruct (c <? 0). Qed.
End EventExample.

(** * Properties *)

Module Properties.
Import EventBus EventExample.

(** C25: Whatever the callbacks and filters do with the bus, and however the threads interleave,
    every list of subscriptions stays in the order of the priorities, a subscription is in
    the list of its event type or, for every event, in the list of its own, and no two have
    the same identifier. *)
Theorem event_bus_invariant {W C F P} `{HB : Part W (t C F)} `{HT : Part W (threads C F P)}
    `{!Apart W (t C F) (threads C F P)} (call : C → Event.t P → method W ())
    (call_filter : F → Event.t P → method W bool) (w w' : W) :
  (∀ c e, uses_bus (call c e)) → (∀ f e, uses_bus (call_filter f e)) →
  rtc (system_step call call_filter) w w' → bus_wf (part w) → bus_wf (part w').
Proof.
  intros Hc Hf. induction 1 as [|w w1 w' Hs _ IH]; [done|]. intros Hw.
  apply IH. eapply bus_steps_wf; [|exact Hw]. by eapply system_step_bus.
Qed.

Lemma event_bus_invariant_witness :
  bus_wf (w_bus (run_thread quiet sift 0 (start mixed 1))).
Proof.
  apply (event_bus_invariant (HB := bus_part) (HT := threads_part) quiet sift (start mixed 1) (run_thread quiet sift 0 (start mixed 1))).
  - intros c e w. cbn. destruct (log c e (w_log w)). done.
  - intros f e w. done.
  - apply rtc_once. constructor.
  - apply mixed_wf.
Defined.

(** C26: In a well-formed bus, with filters that neither raise nor change anything and callbacks
    that leave the bus alone and raise nothing but ordinary exceptions, a delivery ends and
    calls the callbacks of the subscriptions to the type of the event and to
    every event whose filter accepts it, in the order of their priorities and, for one
    priority, first those of the type, each kind in the order in which they came. It counts
    the callbacks that return and those that raise, and removes the subscriptions for one
    event of that type and of every event, also those whose filter rejected this one. (A filter
    that raises ends the delivery: see the example of [filter_raises].) *)
Theorem event_delivery {W C F P E} `{HB : Part W (t C F)} `{HE : Part W E} `{!Apart W (t C F) E}
    (callbacks : C → Event.t P → method E ()) (accepts : F → Event.t P → bool) e (w : W) :
  ordinary callbacks → bus_wf (part w) →
  let subs := filter (wanted accepts e) (sort_on by_priority (named (Event.type e) (part w) ++ wildcard_subscriptions (part w))) in
  let r := notify callbacks subs e (part w) in
  ∃ w', deliver (quiet_call callbacks) (quiet_filter accepts) e w = (w', Ok ()) ∧ part w' = r.1 ∧
    part w' = restrict (λ s, negb (once s && bool_decide (event_type s = Event.type e ∨ event_type s = any_event)))
                (count 0 r.2.1 0 r.2.2 (part w)).
Proof. intros Ho Hb. exact (deliver_spec callbacks accepts e w Ho Hb). Qed.

Lemma event_delivery_witness :
  ∃ w', deliver quiet sift ping (start mixed 0) = (w', Ok ()) ∧ w_log w' = [-3; 2; 1] ∧
    w_bus w' = restrict (λ s, negb (once s && bool_decide (event_type s = str "ping" ∨ event_type s = any_event)))
      (count 0 2 0 1 (w_bus (start mixed 0))).
Proof. exact (event_delivery log accepts ping (start mixed 0) log_ordinary (mixed_wf 0)). Defined.



(** Removing a plugin takes its subscriptions out of every list and keeps the others in
    their order; event types without a subscription are forgotten. The number it returns
    is that of the subscriptions to event types only. *)
Theorem event_unsubscribe_plugin {C F} n (b : t C F) :
  NoDup (subscriptions b).*1 →
  unsubscribe_plugin n b =
  (with_subs (filter (λ x, x.2 ≠ []) ((λ x, (x.1, not_of n x.2)) <$> subscriptions b)) (not_of n (wildcard_subscriptions b)) b,
   Ok (len (all_named (subscriptions b)) - len (not_of n (all_named (subscriptions b))))).
Proof.
  intros Hd. unfold unsubscribe_plugin. pose proof (unsubscribe_loop_spec n [] (subscriptions b) 0 Hd) as E.
  cbn [app] in E. rewrite E. f_equal. f_equal.
  assert (filter (λ s, plugin_name s = n) (not_of n (wildcard_subscriptions b)) = []) as ->.
  { apply filter_none. unfold not_of. by intros s [Hs _]%list_elem_of_filter. }
  cbn [length]. unfold removed, all_named. clear. induction (subscriptions b) as [|[k l] d IH]; [done|].
  cbn [fmap list_fmap foldr mbind list_bind fst snd]. unfold not_of in *. rewrite filter_app, !length_app. lia.
Qed.

Lemma event_unsubscribe_plugin_witness :
  let b := w_bus (start mixed 0) in
  unsubscribe_plugin (str "p") b =
  (with_subs (filter (λ x, x.2 ≠ []) ((λ x, (x.1, not_of (str "p") x.2)) <$> subscriptions b))
     (not_of (str "p") (wildcard_subscriptions b)) b, Ok 4).
Proof. apply (event_unsubscribe_plugin (str "p") (w_bus (start mixed 0))), mixed_wf. Defined.
End Properties.
