(* ===== verification/PluginServices.v ===== *)
(** The service registry: plugins/api.py, [ServiceRegistry].

    Services, factories, aliases and descriptions are four dictionaries. An alias is followed
    to the end before anything is looked up: the loop has fuel here, and one more than the
    number of aliases is enough unless it never ends. A factory is code of a plugin: a
    method of a world. *)

From stdpp Require Import relations.
From S2P Require Import Prelude Bytes Utf8 Str PyDict Sorting.

Module ServiceRegistry.
Inductive kind := singleton | factory.

(** An entry of [_metadata]. *)
Record meta := {
  m_type : kind; description : pystr; version : pystr; plugin_name : pystr; tags : list pystr;
  registered_at : Z }.

Section registry.
(** Services and factories. *)
Context {V F : Type}.

Record t := {
  services : list (pystr * V); factories : list (pystr * F); aliases : list (pystr * pystr);
  metadata : list (pystr * meta) }.

Definition init_registry : t := {| services := []; factories := []; aliases := []; metadata := [] |}.

(** [name in d]. *)
Definition has {A} (d : list (pystr * A)) (name : pystr) : bool := bool_decide (name ∈ d.*1).

(** The arguments after the name and the service. *)
Definition describe (m_type : kind) (description version plugin_name : pystr) (tags : option (list pystr)) (now : Z)
    : meta := {|
  m_type := m_type; description := description; version := version; plugin_name := plugin_name;
  tags := default [] tags; registered_at := now |}.

Definition register (name : pystr) (v : V) (d v' p : pystr) (tags : option (list pystr)) (overwrite : bool) (now : Z)
    : method t () := λ s,
  if has (services s) name && negb overwrite then (s, Err ServiceException)
  else
    ({| services := dict_set (services s) name v; factories := factories s; aliases := aliases s;
        metadata := dict_set (metadata s) name (describe singleton d v' p tags now) |}, Ok ()).

Definition register_factory (callable : bool) (name : pystr) (f : F) (d v' p : pystr) (tags : option (list pystr))
    (overwrite : bool) (now : Z) : method t () := λ s,
  if negb callable then (s, Err ServiceException)
  else if has (factories s) name && negb overwrite then (s, Err ServiceException)
  else
    ({| services := services s; factories := dict_set (factories s) name f; aliases := aliases s;
        metadata := dict_set (metadata s) name (describe factory d v' p tags now) |}, Ok ()).

Definition register_alias (alias target : pystr) : method t () := λ s,
  if has (aliases s) alias then (s, Err ServiceException)
  else if has (services s) alias || has (factories s) alias then (s, Err ServiceException)
  else if negb (has (services s) target) && negb (has (factories s) target) then (s, Err ServiceException)
  else
    ({| services := services s; factories := factories s; aliases := dict_set (aliases s) alias target;
        metadata := metadata s |}, Ok ()).

(** [while name in self._aliases]; [None]: the fuel is used up. *)
Fixpoint resolve (fuel : nat) (s : t) (name : pystr) : option pystr :=
  match fuel with
  | O => None
  | S fuel' =>
      match dict_get (aliases s) name with
      | Some target => resolve fuel' s target
      | None => Some name
      end
  end.

Definition get_metadata (fuel : nat) (name : pystr) (s : t) : option (option meta) :=
  actual ← resolve fuel s name; Some (dict_get (metadata s) actual).

Definition unregister (name : pystr) : method t bool := λ s,
  if has (services s) name then
    ({| services := dict_del (services s) name; factories := factories s; aliases := aliases s;
        metadata := dict_del (metadata s) name |}, Ok true)
  else if has (factories s) name then
    ({| services := services s; factories := dict_del (factories s) name; aliases := aliases s;
        metadata := dict_del (metadata s) name |}, Ok true)
  else if has (aliases s) name then
    ({| services := services s; factories := factories s; aliases := dict_del (aliases s) name;
        metadata := metadata s |}, Ok true)
  else (s, Ok false).

(** The loop of [unregister_plugin] over a copy of the descriptions. *)
Fixpoint unregister_loop (p : pystr) (l : list (pystr * meta)) (count : Z) : method t Z :=
  match l with
  | [] => m_ret count
  | (name, m) :: l' =>
      if decide (plugin_name m = p) then λ s,
        unregister_loop p l' (count + 1)
          {| services := dict_del (services s) name; factories := dict_del (factories s) name;
             aliases := aliases s; metadata := dict_del (metadata s) name |}
      else unregister_loop p l' count
  end.

Definition unregister_plugin (p : pystr) : method t Z := λ s, unregister_loop p (metadata s) 0 s.

Definition list_services (tag plugin : option pystr) (s : t) : list (pystr * meta) :=
  filter (λ x, match tag with Some ((_ :: _) as g) => bool_decide (g ∈ tags x.2) | _ => true end &&
               match plugin with Some ((_ :: _) as p) => bool_decide (plugin_name x.2 = p) | _ => true end)
    (metadata s).

Definition has_service (name : pystr) (s : t) : bool :=
  has (services s) name || has (factories s) name || has (aliases s) name.

Definition clear : method t () := λ _, (init_registry, Ok ()).

Definition length_registry (s : t) : Z := len (services s) + len (factories s) + len (aliases s).
End registry.
Arguments t : clear implicits.

(** ** Lookup *)

Section lookup.
Context {W V F : Type} `{Part W (t V F)} (make : F → method W V).

(** [get]: a singleton is found before a factory; [None] is a call that never ends. *)
Definition get (fuel : nat) (name : pystr) (w : W) : option (W * res V) :=
  let s := part w in
  actual ← resolve fuel s name;
  match dict_get (services s) actual with
  | Some v => Some (w, Ok v)
  | None =>
      match dict_get (factories s) actual with
      | Some f => Some (make f w)
      | None => Some (w, Err ServiceException)
      end
  end.

Definition get_or_none (fuel : nat) (name : pystr) (w : W) : option (W * res (option V)) :=
  r ← get fuel name w;
  match r with
  | (w', Ok v) => Some (w', Ok (Some v))
  | (w', Err ServiceException) => Some (w', Ok None)
  | (w', Err e) => Some (w', Err e)
  end.
End lookup.
End ServiceRegistry.

(** * The state of a registry *)

Section state.
Context {V F : Type}.
Import ServiceRegistry.
Abbreviation registry := (t V F).
Implicit Types (s : registry) (name : pystr).

(** The target of an alias is not an alias that is older, nor itself. *)
Definition forward (l : list (pystr * pystr)) : Prop :=
  ∀ l1 a x l2, l = l1 ++ (a, x) :: l2 → x ∉ l1.*1 ∧ x ≠ a.

(** A name has one meaning, and the descriptions are those of the services and factories. *)
Record registry_ok s : Prop := {
  ok_services : NoDup (services s).*1;
  ok_factories : NoDup (factories s).*1;
  ok_aliases : NoDup (aliases s).*1;
  ok_metadata : NoDup (metadata s).*1;
  ok_one name : name ∈ (services s).*1 → name ∉ (factories s).*1;
  ok_alias name : name ∈ (aliases s).*1 → name ∉ (services s).*1 ∧ name ∉ (factories s).*1;
  ok_described name : name ∈ (metadata s).*1 ↔ name ∈ (services s).*1 ∨ name ∈ (factories s).*1;
  ok_forward : forward (aliases s);
}.

(** What plugins do to a registry, when they do not register a service under the name of an
    alias, nor a service and a factory under one name. *)
Inductive orderly_step : registry → registry → Prop :=
  | orderly_register name v d v' p tags overwrite now s :
      name ∉ (aliases s).*1 → name ∉ (factories s).*1 →
      orderly_step s (register name v d v' p tags overwrite now s).1
  | orderly_factory callable name f d v' p tags overwrite now s :
      name ∉ (aliases s).*1 → name ∉ (services s).*1 →
      orderly_step s (register_factory callable name f d v' p tags overwrite now s).1
  | orderly_alias a x s : orderly_step s (register_alias a x s).1
  | orderly_unregister name s : orderly_step s (unregister name s).1
  | orderly_unregister_plugin p s : orderly_step s (unregister_plugin p s).1
  | orderly_clear s : orderly_step s (clear s).1.

Lemma has_spec {A} (d : list (pystr * A)) name : has d name = true ↔ name ∈ d.*1.
Proof. apply bool_decide_eq_true. Qed.
Lemma has_false {A} (d : list (pystr * A)) name : has d name = false ↔ name ∉ d.*1.
Proof. apply bool_decide_eq_false. Qed.

Lemma dict_set_key {A} (d : list (pystr * A)) k a x : x ∈ (dict_set d k a).*1 ↔ x = k ∨ x ∈ d.*1.
Proof.
  rewrite dict_set_keys. case_decide; [naive_solver|]. rewrite elem_of_app, list_elem_of_singleton. tauto.
Qed.

Lemma dict_del_key {A} (d : list (pystr * A)) k x : x ∈ (dict_del d k).*1 ↔ x ≠ k ∧ x ∈ d.*1.
Proof.
  unfold dict_del. rewrite !list_elem_of_fmap. setoid_rewrite list_elem_of_filter. naive_solver.
Qed.

Lemma dict_del_sublist {A} (d : list (pystr * A)) k : dict_del d k `sublist_of` d.
Proof. apply sublist_filter. Qed.

Lemma forward_snoc l a x : forward l → x ∉ l.*1 → x ≠ a → forward (l ++ [(a, x)]).
Proof.
  intros Hf Hx Hne l1 b y l2 E. destruct l2 as [|z l3 _] using rev_ind.
  - apply app_inj_tail in E as [-> [= -> ->]]. done.
  - change (l1 ++ (b, y) :: l3 ++ [z]) with (l1 ++ ((b, y) :: l3) ++ [z]) in E. rewrite app_assoc in E.
    apply app_inj_tail in E as [-> _]. by eapply Hf.
Qed.

Lemma forward_sublist l l' : l' `sublist_of` l → forward l → forward l'.
Proof.
  intros Hs Hf l1 a x l2 ->. apply sublist_app_cons_l in Hs as (k1 & k2 & -> & H1 & _).
  destruct (Hf k1 a x k2 eq_refl) as [Hx Hne]. split; [|done]. intros Hin. apply Hx.
  eapply elem_of_submseteq; [exact Hin|]. by apply sublist_submseteq, fmap_sublist.
Qed.

(** A registry without a name, its aliases kept. *)
Definition drop_name name s : registry := {|
  services := dict_del (services s) name; factories := dict_del (factories s) name; aliases := aliases s;
  metadata := dict_del (metadata s) name |}.

Lemma registry_ok_init : registry_ok init_registry.
Proof.
  split; cbn; [constructor..| | | |].
  - by intros ? ?%elem_of_nil.
  - by intros ? ?%elem_of_nil.
  - intros name. set_solver.
  - by intros [].
Qed.

Lemma drop_name_ok name s : registry_ok s → registry_ok (drop_name name s).
Proof.
  intros [H1 H2 H3 H4 H5 H6 H7 H8]. split; cbn; auto using dict_del_NoDup.
  - intros n. rewrite !dict_del_key. naive_solver.
  - intros n Hn%H6. rewrite !dict_del_key. tauto.
  - intros n. rewrite !dict_del_key, H7. tauto.
Qed.

Lemma unregister_drop name s :
  registry_ok s → name ∈ (metadata s).*1 → unregister name s = (drop_name name s, Ok true).
Proof.
  intros [H1 H2 H3 H4 H5 H6 H7 H8] Hn%H7. unfold unregister, drop_name.
  destruct (has (services s) name) eqn:E1; [|destruct (has (factories s) name) eqn:E2].
  - apply has_spec in E1. by rewrite (dict_del_absent (factories s)) by auto.
  - apply has_false in E1. by rewrite (dict_del_absent (services s)).
  - apply has_false in E1, E2. tauto.
Qed.

Lemma unregister_ok name s : registry_ok s → registry_ok (unregister name s).1.
Proof.
  intros Hs. destruct (decide (name ∈ (metadata s).*1)) as [Hm|Hm].
  { rewrite unregister_drop by done. by apply drop_name_ok. }
  pose proof Hs as [H1 H2 H3 H4 H5 H6 H7 H8]. rewrite H7 in Hm. unfold unregister.
  rewrite (proj2 (has_false (services s) name)), (proj2 (has_false (factories s) name)) by tauto.
  destruct (has (aliases s) name); [|done]. split; cbn; auto using dict_del_NoDup.
  - intros n [_ Hn]%dict_del_key. by apply H6.
  - eapply forward_sublist; [apply dict_del_sublist|done].
Qed.

Lemma unregister_loop_ok p l z s : registry_ok s → registry_ok (unregister_loop p l z s).1.
Proof.
  revert z s. induction l as [|[name m] l IH]; intros z s Hs; [done|]. cbn [unregister_loop].
  case_decide; [|by apply IH]. apply (IH _ (drop_name name s)). by apply drop_name_ok.
Qed.

Lemma orderly_step_ok s s' : orderly_step s s' → registry_ok s → registry_ok s'.
Proof.
  destruct 1 as [name v d v' p tags ow now s Ha Hf|callable name f d v' p tags ow now s Ha Hv|a x s|name s|p s|s]; intros Hs.
  - pose proof Hs as [H1 H2 H3 H4 H5 H6 H7 H8]. unfold register. destruct (_ && _); [done|].
    split; cbn; auto using dict_set_NoDup.
    + intros n [->|Hn]%dict_set_key; auto.
    + intros n Hn. rewrite dict_set_key. split; [|by apply H6]. intros [->|Hn']; [done|]. by destruct (H6 n Hn).
    + intros n. rewrite !dict_set_key, H7. tauto.
  - pose proof Hs as [H1 H2 H3 H4 H5 H6 H7 H8]. unfold register_factory. destruct callable; [|done].
    cbn. destruct (_ && _); [done|]. split; cbn; auto using dict_set_NoDup.
    + intros n Hn [->|Hn']%dict_set_key; [done|]. by apply (H5 n).
    + intros n Hn. rewrite dict_set_key. split; [by apply H6|]. intros [->|Hn']; [done|]. by destruct (H6 n Hn).
    + intros n. rewrite !dict_set_key, H7. tauto.
  - pose proof Hs as [H1 H2 H3 H4 H5 H6 H7 H8]. unfold register_alias.
    destruct (has (aliases s) a) eqn:E1; [done|]. destruct (has (services s) a || has (factories s) a) eqn:E2; [done|].
    destruct (negb (has (services s) x) && negb (has (factories s) x)) eqn:E3; [done|].
    apply has_false in E1. apply orb_false_iff in E2 as [E2%has_false E2'%has_false].
    assert (x ∈ (services s).*1 ∨ x ∈ (factories s).*1) as Hx.
    { apply andb_false_iff in E3 as [E3%negb_false_iff%has_spec|E3%negb_false_iff%has_spec]; auto. }
    split; cbn; auto using dict_set_NoDup.
    + intros n [->|Hn]%dict_set_key; auto.
    + rewrite dict_set_new by done. apply forward_snoc; [done| |by intros ->; tauto].
      intros Hn%H6. tauto.
  - by apply unregister_ok.
  - by apply unregister_loop_ok.
  - apply registry_ok_init.
Qed.

Lemma orderly_ok s s' : rtc orderly_step s s' → registry_ok s → registry_ok s'.
Proof. induction 1; eauto using orderly_step_ok. Qed.

(** ** The end of an alias *)

Lemma resolve_mono n n' s name r : (n <= n')%nat → resolve n s name = Some r → resolve n' s name = Some r.
Proof.
  revert n' name. induction n as [|n IH]; intros [|n'] name Hn; try done; [lia|]. cbn.
  destruct (dict_get (aliases s) name); [|done]. apply IH. lia.
Qed.

Lemma resolve_ext n s s' name : aliases s' = aliases s → resolve n s' name = resolve n s name.
Proof.
  intros E. revert name. induction n as [|n IH]; intros name; [done|]. cbn. rewrite E. by destruct (dict_get _ name).
Qed.

Lemma resolve_total s l1 l2 name :
  forward (aliases s) → aliases s = l1 ++ l2 → name ∉ l1.*1 →
  ∃ r, resolve (S (length l2)) s name = Some r ∧ r ∉ (aliases s).*1.
Proof.
  intros Hf. remember (length l2) as n eqn:En. assert (length l2 <= n)%nat as Hn by lia. clear En.
  revert l1 l2 name Hn. induction n as [|n IH]; intros l1 l2 name Hn E Hname; cbn.
  all: destruct (dict_get (aliases s) name) as [x|] eqn:Eg; [|exists name; split; [done|by apply dict_get_None]].
  all: apply dict_get_elem in Eg; rewrite E in Eg; apply elem_of_app in Eg as [Eg|Eg];
    [by destruct Hname; apply list_elem_of_fmap; exists (name, x)|].
  { destruct l2; [by apply elem_of_nil in Eg|cbn in Hn; lia]. }
  apply list_elem_of_split in Eg as (l3 & l4 & ->).
  destruct (Hf (l1 ++ l3) name x l4) as [Hx Hne]; [by rewrite E, app_assoc|].
  destruct (IH (l1 ++ l3 ++ [(name, x)]) l4 x) as (r & Hr & Hr').
  - rewrite length_app in Hn. cbn in Hn. lia.
  - by rewrite E, <-!app_assoc.
  - rewrite app_assoc, fmap_app, not_elem_of_app. split; [done|]. cbn. by rewrite list_elem_of_singleton.
  - by exists r.
Qed.

(** ** The services of a plugin *)

Definition owned (p : pystr) s name : Prop := ∃ m, dict_get (metadata s) name = Some m ∧ plugin_name m = p.

Lemma decide_cons {B} (name n : pystr) (l : list pystr) (c : option B) :
  (if decide (name ∈ n :: l) then None else c) =
  (if decide (name ∈ l) then None else if decide (n = name) then None else c).
Proof.
  destruct (decide (name ∈ l)) as [Hl|Hl]; [by rewrite decide_True by (by right)|].
  destruct (decide (n = name)) as [->|Hn]; [by rewrite decide_True by left|].
  rewrite decide_False; [done|]. by intros [->|?]%elem_of_cons.
Qed.

Lemma unregister_services_loop_spec p l z s :
  ∃ s', unregister_loop p l z s = (s', Ok (z + len (filter (λ x, plugin_name x.2 = p) l))) ∧
    aliases s' = aliases s ∧
    (∀ name, dict_get (services s') name =
       if decide (name ∈ (filter (λ x, plugin_name x.2 = p) l).*1) then None else dict_get (services s) name) ∧
    (∀ name, dict_get (factories s') name =
       if decide (name ∈ (filter (λ x, plugin_name x.2 = p) l).*1) then None else dict_get (factories s) name) ∧
    (∀ name, dict_get (metadata s') name =
       if decide (name ∈ (filter (λ x, plugin_name x.2 = p) l).*1) then None else dict_get (metadata s) name).
Proof.
  revert z s. induction l as [|[n m] l IH]; intros z s.
  { exists s. cbn. rewrite Z.add_0_r. split_and!; [done..| | |]; intros name; by rewrite decide_False by apply not_elem_of_nil. }
  cbn [unregister_loop]. rewrite filter_cons. cbn [snd]. case_decide as Hp; [|apply IH].
  destruct (IH (z + 1) (drop_name n s)) as (s' & E & Ha & H1 & H2 & H3). exists s'. split_and!.
  - unfold drop_name in E. rewrite E. cbn [length]. do 2 f_equal. lia.
  - by rewrite Ha.
  - intros name. rewrite H1. cbn [drop_name services fmap list_fmap fst]. by rewrite dict_get_del, decide_cons.
  - intros name. rewrite H2. cbn [drop_name factories fmap list_fmap fst]. by rewrite dict_get_del, decide_cons.
  - intros name. rewrite H3. cbn [drop_name metadata fmap list_fmap fst]. by rewrite dict_get_del, decide_cons.
Qed.

Lemma owned_names p s name :
  NoDup (metadata s).*1 → name ∈ (filter (λ x, plugin_name x.2 = p) (metadata s)).*1 ↔ owned p s name.
Proof.
  intros Hd. rewrite list_elem_of_fmap. unfold owned. split.
  - intros ([n m] & -> & [Hp Hin]%list_elem_of_filter). exists m. split; [by apply elem_dict_get|done].
  - intros (m & Hm & Hp). exists (name, m). split; [done|]. apply list_elem_of_filter. split; [done|].
    by apply dict_get_elem.
Qed.
End state.

Section found.
Context {W V F : Type} `{Part W (ServiceRegistry.t V F)} (make : F → method W V).
Import ServiceRegistry.

(** What [get] gives for a name that is not an alias. *)
Definition found (name : pystr) (w : W) : W * res V :=
  match dict_get (services (part w)) name, dict_get (factories (part w)) name with
  | Some v, _ => (w, Ok v)
  | None, Some f => make f w
  | None, None => (w, Err ServiceException)
  end.

Lemma get_found fuel name actual w : resolve fuel (part w) name = Some actual → get make fuel name w = Some (found actual w).
Proof.
  intros E. unfold get, found. rewrite E. cbn. destruct (dict_get (services (part w)) actual); [done|].
  by destruct (dict_get (factories (part w)) actual).
Qed.
End found.

(** * Examples *)

Module ServiceExample.
Import ServiceRegistry.
Abbreviation registry := (t Z Z).

Definition add (name : string) (v : Z) (p : string) (s : registry) : registry :=
  (register (str name) v [] [] (str p) None false 0 s).1.
Definition add_factory (name : string) (f : Z) (p : string) (s : registry) : registry :=
  (register_factory true (str name) f [] [] (str p) None false 0 s).1.
Definition alias (a x : string) (s : registry) : registry := (register_alias (str a) (str x) s).1.

(** A singleton and a factory of one name: the factory takes the description over, so the
    singleton stays when its plugin goes. *)
Example leak :
  let s := (unregister_plugin (str "p") (add_factory "db" 2 "q" (add "db" 1 "p" init_registry))).1 in
  services s = [(str "db", 1)] ∧ (λ x, plugin_name x.2) <$> metadata s = [str "q"].
Proof. by vm_compute. Qed.

(** Without the singleton the factory has no description any more. *)
Example undescribed :
  let s := (unregister (str "db") (add_factory "db" 2 "q" (add "db" 1 "p" init_registry))).1 in
  factories s = [(str "db", 2)] ∧ metadata s = [].
Proof. by vm_compute. Qed.

(** An alias outlives what it names. *)
Example dangling :
  has_service (str "a") (unregister_plugin (str "p") (alias "a" "db" (add "db" 1 "p" init_registry))).1 = true.
Proof. by vm_compute. Qed.

Definition small : registry := alias "a" "db" (add_factory "new" 2 "q" (add "db" 1 "p" init_registry)).

Lemma small_reachable : rtc orderly_step init_registry small.
Proof.
  apply rtc_l with (add "db" 1 "p" init_registry); [constructor; by apply (bool_decide_unpack _); vm_compute|].
  apply rtc_l with (add_factory "new" 2 "q" (add "db" 1 "p" init_registry));
    [constructor; by apply (bool_decide_unpack _); vm_compute|].
  apply rtc_once. constructor.
Qed.

(** A factory: the world is the registry and the number of instances made so far. *)
Definition make (f : Z) : method (registry * Z) Z := λ w, ((w.1, w.2 + 1), Ok (f + w.2)).
End ServiceExample.

(** * Properties *)

Module Properties.
Import ServiceRegistry ServiceExample.

(** C28: As long as no service is registered under the name of an alias, nor a service and a
    factory under one name, [get] ends: the aliases form no cycle, and the name they end in
    is not an alias. It returns the singleton of that name, or else what the factory
    makes, or else raises [ServiceException]. *)
Theorem service_get_total {W V F} `{Part W (t V F)} (make : F → method W V) (w : W) name :
  rtc orderly_step init_registry (part w) →
  ∃ actual, actual ∉ (aliases (part w)).*1 ∧
    ∀ fuel, (length (aliases (part w)) < fuel)%nat →
      resolve fuel (part w) name = Some actual ∧ get make fuel name w = Some (found make actual w).
Proof.
  intros Hr. pose proof (orderly_ok _ _ Hr registry_ok_init) as [_ _ _ _ _ _ _ Hf].
  destruct (resolve_total (part w) [] (aliases (part w)) name Hf eq_refl) as (r & Hr' & Ha); [apply not_elem_of_nil|].
  exists r. split; [done|]. intros fuel Hn.
  assert (resolve fuel (part w) name = Some r) as E by (eapply resolve_mono; [|exact Hr']; lia).
  split; [done|]. by apply get_found.
Qed.

Lemma service_get_total_witness :
  ∃ actual, actual ∉ (aliases small).*1 ∧
    ∀ fuel, (1 < fuel)%nat →
      resolve fuel small (str "a") = Some actual ∧ get make fuel (str "a") (small, 0) = Some (found make actual (small, 0)).
Proof. exact (service_get_total make (small, 0) (str "a") small_reachable). Defined.

(** Otherwise the aliases can form a cycle, and [get] never ends: an alias is made, its
    target is unregistered and its own name registered as a service, to which the old
    target then becomes an alias. *)
Theorem service_alias_cycle fuel :
  let s := alias "b" "a" (add "a" 2 "p" (unregister (str "b") (alias "a" "b" (add "b" 1 "p" init_registry))).1) in
  get make fuel (str "a") (s, 0) = None ∧ has_service (str "a") s = true.
Proof.
  intros s. split; [|by vm_compute].
  assert (aliases s = [(str "a", str "b"); (str "b", str "a")]) as E by by vm_compute.
  assert (∀ n, resolve n s (str "a") = None ∧ resolve n s (str "b") = None) as Hr.
  { induction n as [|n [IHa IHb]]; [done|]. cbn [resolve]. rewrite E. split; [exact IHb|exact IHa]. }
  unfold get. change (part (s, 0)) with s. by rewrite (proj1 (Hr fuel)).
Qed.

(** A service that is registered is what every name that leads to it gives from then on,
    and no longer after it is unregistered. *)
Theorem service_register_get {W V F} `{Part W (t V F)} (make : F → method W V) (w : W) a name v d v' p tags overwrite now s' fuel :
  registry_ok (part w) → resolve fuel (part w) a = Some name →
  name ∉ (aliases (part w)).*1 → name ∉ (factories (part w)).*1 →
  register name v d v' p tags overwrite now (part w) = (s', Ok ()) →
  get make fuel a (set_part s' w) = Some (set_part s' w, Ok v) ∧
  get make fuel a (set_part (unregister name s').1 w) =
    Some (set_part (unregister name s').1 w, Err ServiceException).
Proof.
  intros Hs Hr Ha Hf. unfold register. destruct (has (services (part w)) name && negb overwrite); [done|].
  intros [= <-]. set (s' := {| services := dict_set _ _ _ |}).
  assert (registry_ok s') as Hs'.
  { pose proof (orderly_register name v d v' p tags true now (part w) Ha Hf) as Hst.
    apply orderly_step_ok in Hst; [|done]. unfold register in Hst. by rewrite andb_false_r in Hst. }
  assert (name ∈ (metadata s').*1) as Hm by (apply dict_set_key; by left).
  rewrite unregister_drop by done. split.
  - rewrite (get_found _ _ _ name) by (by rewrite part_set, (resolve_ext _ (part w))). unfold found. rewrite part_set. cbn.
    by rewrite dict_get_set, decide_True.
  - rewrite (get_found _ _ _ name) by (cbn [fst]; by rewrite part_set, (resolve_ext _ (part w))). unfold found. cbn [fst].
    rewrite part_set. cbn [drop_name services factories]. by rewrite !dict_get_del, !decide_True.
Qed.

Lemma service_register_get_witness :
  let s' := add "x" 7 "p" small in
  get make 1 (str "x") (s', 0) = Some (s', 0, Ok 7) ∧
  get make 1 (str "x") ((unregister (str "x") s').1, 0) = Some ((unregister (str "x") s').1, 0, Err ServiceException).
Proof.
  assert (registry_ok small) as Hs by (eapply orderly_ok; [exact small_reachable|apply registry_ok_init]).
  assert (str "x" ∉ (aliases small).*1) as Ha by (by apply (bool_decide_unpack _); vm_compute).
  assert (str "x" ∉ (factories small).*1) as Hf by (by apply (bool_decide_unpack _); vm_compute).
  exact (service_register_get make (small, 0) (str "x") (str "x") 7 [] [] (str "p") None false 0
    (add "x" 7 "p" small) 1 Hs eq_refl Ha Hf eq_refl).
Defined.

(** Removing a plugin removes the services and factories whose description names it, keeps
    every other one and every alias, and returns their number. *)
Theorem services_unregister_plugin {V F} p (s : t V F) :
  registry_ok s →
  ∃ s' n, unregister_plugin p s = (s', Ok n) ∧ registry_ok s' ∧ aliases s' = aliases s ∧
    (∀ name, owned p s name → name ∉ (services s').*1 ∧ name ∉ (factories s').*1 ∧ name ∉ (metadata s').*1) ∧
    (∀ name, ¬ owned p s name →
       dict_get (services s') name = dict_get (services s) name ∧
       dict_get (factories s') name = dict_get (factories s) name ∧
       dict_get (metadata s') name = dict_get (metadata s) name) ∧
    n = len (filter (λ x, plugin_name x.2 = p) (metadata s)).
Proof.
  intros Hs. destruct (unregister_services_loop_spec p (metadata s) 0 s) as (s' & E & Ha & H1 & H2 & H3).
  pose proof (unregister_loop_ok p (metadata s) 0 s Hs) as Hs'. rewrite E in Hs'.
  exists s', (len (filter (λ x, plugin_name x.2 = p) (metadata s))). split_and!; [exact E|exact Hs'|exact Ha|..|done].
  - intros name Ho%owned_names; [|apply Hs]. rewrite <-!dict_get_None, H1, H2, H3. by rewrite !decide_True.
  - intros name Ho. rewrite H1, H2, H3. by rewrite !decide_False by (rewrite owned_names; [done|apply Hs]).
Qed.

Lemma services_unregister_plugin_witness :
  ∃ s' n, unregister_plugin (str "p") (add "db" 1 "p" init_registry) = (s', Ok n) ∧ registry_ok s' ∧
    aliases s' = [] ∧
    (∀ name, owned (str "p") (add "db" 1 "p" init_registry) name →
       name ∉ (services s').*1 ∧ name ∉ (factories s').*1 ∧ name ∉ (metadata s').*1) ∧
    (∀ name, ¬ owned (str "p") (add "db" 1 "p" init_registry) name →
       dict_get (services s') name = dict_get (services (add "db" 1 "p" init_registry)) name ∧
       dict_get (factories s') name = dict_get (factories (add "db" 1 "p" init_registry)) name ∧
       dict_get (metadata s') name = dict_get (metadata (add "db" 1 "p" init_registry)) name) ∧
    n = 1.
Proof.
  apply (services_unregister_plugin (str "p") (add "db" 1 "p" init_registry)).
  eapply orderly_step_ok; [apply orderly_register; by apply (bool_decide_unpack _); vm_compute|].
  apply registry_ok_init.
Defined.
End Properties.
