(* ===== verification/PluginBase.v ===== *)
(** The base class of the plugins: plugins/api.py, [PluginBase], with the data classes it
    keeps.

    The methods that a plugin overrides ([on_initialize] and the others) are parameters:
    methods of a world of which this plugin, the hooks, the event bus, the services and the
    context dictionaries are parts. The three registries are set together, by
    [_initialize]. *)

From S2P Require Import Prelude Bytes Utf8 Str PyDict Sorting PluginHooks PluginEvents PluginServices.

Module PluginState.
Inductive t := CREATED | INITIALIZED | STARTED | STOPPED | ERROR | DISABLED | UNINSTALLED.
#[global] Instance t_eq_dec : EqDecision t.
Proof. solve_decision. Defined.
End PluginState.

(** * Configuration *)

Module PluginConfig.
Section config.
(** The values of the settings. *)
Context {X : Type}.
Record t := {
  name : pystr; enabled : bool; settings : list (pystr * X); overrides : list (pystr * X);
  isolation : option pystr; resource_limits : list (pystr * X) }.
End config.
Arguments t : clear implicits.
End PluginConfig.

(** * Plugins *)

Module PluginBase.
Section data.
Context {X : Type}.

Record t := {
  name : pystr; config : PluginConfig.t X; state : PluginState.t; attached : bool;
  subscription_ids : list pystr; registered_hooks : list pystr }.

(** [__init__]: the default configuration is named after the plugin. *)
Definition new_plugin (n : pystr) (c : option (PluginConfig.t X)) (limits : list (pystr * X)) : t := {|
  name := n;
  config := default {| PluginConfig.name := n; PluginConfig.enabled := true; PluginConfig.settings := [];
                       PluginConfig.overrides := []; PluginConfig.isolation := None;
                       PluginConfig.resource_limits := limits |} c;
  state := PluginState.CREATED; attached := false; subscription_ids := []; registered_hooks := [] |}.

Definition with_state (st : PluginState.t) (p : t) : t := {|
  name := name p; config := config p; state := st; attached := attached p;
  subscription_ids := subscription_ids p; registered_hooks := registered_hooks p |}.
Definition with_config (c : PluginConfig.t X) (p : t) : t := {|
  name := name p; config := c; state := state p; attached := attached p;
  subscription_ids := subscription_ids p; registered_hooks := registered_hooks p |}.
Definition attach (p : t) : t := {|
  name := name p; config := config p; state := state p; attached := true;
  subscription_ids := subscription_ids p; registered_hooks := registered_hooks p |}.
Definition with_ids (ids : list pystr) (hooks : list pystr) (p : t) : t := {|
  name := name p; config := config p; state := state p; attached := attached p;
  subscription_ids := ids; registered_hooks := hooks |}.

Definition get_setting (key : pystr) (p : t) : option X := dict_get (PluginConfig.settings (config p)) key.

(** The configuration that [set_setting] builds: it has no overrides. *)
Definition set_config (key : pystr) (x : X) (c : PluginConfig.t X) : PluginConfig.t X := {|
  PluginConfig.name := PluginConfig.name c; PluginConfig.enabled := PluginConfig.enabled c;
  PluginConfig.settings := dict_set (PluginConfig.settings c) key x; PluginConfig.overrides := [];
  PluginConfig.isolation := PluginConfig.isolation c; PluginConfig.resource_limits := PluginConfig.resource_limits c |}.
End data.
Arguments t : clear implicits.

Section plugin.
Context {W H V A C F P S M X : Type} `{EqDecision H}.
Context `{Part W (t X)} `{Part W (HookRegistry.t H)} `{Part W (contexts V)} `{Part W (EventBus.t C F)}
  `{Part W (EventBus.threads C F P)} `{Part W (ServiceRegistry.t S M)}.
Abbreviation hooks := (HookRegistry.t H).
Abbreviation bus := (EventBus.t C F).
Abbreviation services := (ServiceRegistry.t S M).

(** The methods of the plugin. *)
Variable on_initialize on_start on_stop on_cleanup : method W ().
Variable on_config_change : PluginConfig.t X → PluginConfig.t X → method W ().
(** Handlers, callbacks, filters and factories. *)
Variable callable : H → bool.
Variable accepts_context : H → res bool.
Variable call_handler : H → A → option nat → method W (option V).
Variable call : C → Event.t P → method W ().
Variable call_filter : F → Event.t P → method W bool.
Variable make : M → method W S.

Definition self : method W (t X) := on_part m_get.
Definition modify (f : t X → t X) : method W () := on_part (λ p, (f p, Ok ())).

Definition set_state (st : PluginState.t) : method W () := modify (with_state st).

Definition on_hot_reload : method W () := on_initialize.

(** ** Life cycle *)

Definition initialize : method W () :=
  let! _ := modify attach in
  m_try (let! _ := set_state PluginState.INITIALIZED in on_initialize)
    (λ _, let! _ := set_state PluginState.ERROR in m_raise PluginLoadError).

Definition start : method W () :=
  m_try (let! _ := on_start in set_state PluginState.STARTED)
    (λ e, let! _ := set_state PluginState.ERROR in m_raise e).

Definition stop : method W () := m_try on_stop (λ _, m_ret ()).

(** [if self._hook_registry]: a registry without hooks, or without services, counts as not
    set. *)
Definition unregister_all : method W () :=
  let! p := self in
  let! h := on_part (m_get (S := hooks)) in
  let! _ := (if attached p && (0 <? HookRegistry.length_hooks h)
             then let! _ := on_part (HookRegistry.unregister_plugin (H := H) (name p)) in m_ret () else m_ret ()) in
  let! _ := (if attached p
             then let! _ := on_part (EventBus.unsubscribe_all (C := C) (F := F) (subscription_ids p)) in
                  modify (λ p, with_ids [] (registered_hooks p) p)
             else m_ret ()) in
  let! s := on_part (m_get (S := services)) in
  if attached p && (0 <? ServiceRegistry.length_registry s)
  then let! _ := on_part (ServiceRegistry.unregister_plugin (V := S) (F := M) (name p)) in m_ret () else m_ret ().

Definition cleanup : method W () :=
  m_try (let! _ := on_cleanup in
         let! _ := unregister_all in
         set_state PluginState.STOPPED) (λ _, m_ret ()).

(** ** Hooks, events and services *)

(** [if self._... is None: raise]. *)
Definition need {B} (k : t X → method W B) : method W B :=
  let! p := self in
  if attached p then k p else m_raise PluginException.

Definition register_hook_handler (hook_name : pystr) (handler : H) (priority : HookPriority) : method W () :=
  need (λ p,
    let! r := on_part (HookRegistry.get_or_create_hook (H := H) hook_name [] true) in
    let! _ := on_part (HookRegistry.at_hook r (Hook.register callable handler priority (name p))) in
    modify (λ p, with_ids (subscription_ids p) (registered_hooks p ++ [hook_name]) p)).

Definition trigger_hook (hook_name : pystr) (args : A) (ctx : option nat) : method W (list (option V)) :=
  need (λ _, trigger accepts_context call_handler hook_name args ctx).

Definition publish_event (async : bool) (uuid : pystr) (now : Z) (type : pystr) (payload : P)
    (priority : EventPriority.t) (synchronous : bool) : method W () :=
  need (λ p, EventBus.publish call call_filter async now
               (Event.new_event uuid now type payload (name p) None None priority None) synchronous).

(** [uuid]: the identifier of the new subscription. *)
Definition subscribe_event (uuid type : pystr) (callback : C) (priority : EventPriority.t) (filter : option F)
    (once : bool) : method W pystr :=
  need (λ p,
    let! i := on_part (EventBus.subscribe {|
      EventBus.sub_id := uuid; EventBus.event_type := type; EventBus.callback := callback;
      EventBus.sub_priority := priority; EventBus.plugin_name := name p; EventBus.filter_func := filter;
      EventBus.once := once |}) in
    let! _ := modify (λ p, with_ids (subscription_ids p ++ [i]) (registered_hooks p) p) in
    m_ret i).

Definition register_service (n : pystr) (s : S) (description version : pystr) (tags : option (list pystr))
    (overwrite : bool) (now : Z) : method W () :=
  need (λ p, on_part (ServiceRegistry.register (F := M) n s description version (name p) tags overwrite now)).

Definition register_factory (is_callable : bool) (n : pystr) (f : M) (description version : pystr)
    (tags : option (list pystr)) (overwrite : bool) (now : Z) : method W () :=
  need (λ p, on_part (ServiceRegistry.register_factory (V := S) is_callable n f description version (name p) tags
                        overwrite now)).

Definition get_service (fuel : nat) (n : pystr) (w : W) : option (W * res S) :=
  if attached (part w) then ServiceRegistry.get make fuel n w else Some (w, Err PluginException).

Definition get_service_or_none (fuel : nat) (n : pystr) (w : W) : option (W * res (option S)) :=
  if attached (part w) then ServiceRegistry.get_or_none make fuel n w else Some (w, Ok None).

Definition set_setting (key : pystr) (x : X) : method W () :=
  let! p := self in
  let! _ := modify (with_config (set_config key x (config p))) in
  on_config_change (config p) (set_config key x (config p)).
End plugin.
End PluginBase.

(** * The end of a plugin *)

Section cleanup.
Context {W H C F S M X : Type} `{EqDecision H}.
Abbreviation plugin := (PluginBase.t X).
Abbreviation hooks := (HookRegistry.t H).
Abbreviation bus := (EventBus.t C F).
Abbreviation services := (ServiceRegistry.t S M).
Context `{HP : Part W plugin} `{HH : Part W hooks} `{HB : Part W bus} `{HS : Part W services}.
Context `{!Apart W plugin hooks} `{!Apart W plugin bus} `{!Apart W plugin services}.
Context `{!Apart W hooks bus} `{!Apart W hooks services} `{!Apart W bus services}.
Import PluginBase.

(** The identifiers that a plugin keeps are those of its subscriptions. *)
Definition tracked (p : plugin) (b : bus) : Prop :=
  ∀ s, s ∈ all_subs b → EventBus.sub_id s ∈ subscription_ids p ↔ EventBus.plugin_name s = name p.

(** Nothing in the registries is the plugin's. *)
Record forgotten (n : pystr) (h : hooks) (b : bus) (s : services) : Prop := {
  fg_hooks : unhooked n h;
  fg_events s : s ∈ all_subs b → EventBus.plugin_name s ≠ n;
  fg_services x : ¬ owned n s x;
}.

(** What is not the plugin's is what it was. *)
Record spared (n : pystr) (w w' : W) : Prop := {
  sp_hooks r h : HookRegistry.objects (part (S := hooks) w) !! r = Some h → ∃ h',
    HookRegistry.objects (part (S := hooks) w') !! r = Some h' ∧ others n h' = others n h;
  sp_events s : s ∈ all_subs (part (S := bus) w) → EventBus.plugin_name s ≠ n → s ∈ all_subs (part (S := bus) w');
  sp_services x : ¬ owned n (part (S := services) w) x →
    dict_get (ServiceRegistry.services (part (S := services) w')) x = dict_get (ServiceRegistry.services (part (S := services) w)) x ∧
    dict_get (ServiceRegistry.factories (part (S := services) w')) x = dict_get (ServiceRegistry.factories (part (S := services) w)) x;
}.

Lemma elem_of_restrict (p : EventBus.subscription C F → bool) (b : bus) s :
  s ∈ all_subs (restrict p b) ↔ s ∈ all_subs b ∧ p s = true.
Proof.
  unfold all_subs, all_named, restrict. cbn. rewrite !elem_of_app, !list_elem_of_bind.
  setoid_rewrite list_elem_of_filter. rewrite Is_true_true. split.
  - intros [(x & Hs & (y & -> & Hy)%list_elem_of_fmap)|[? ?]]; [|tauto]. cbn in Hs.
    apply list_elem_of_filter in Hs as [Hp%Is_true_true Hs]. split; [left; by exists y|done].
  - intros [[(x & Hs & Hx)|Hs] Hp]; [left|by right]. eexists (_, _). split; [|apply list_elem_of_fmap; exists x; split; [done|exact Hx]].
    cbn. apply list_elem_of_filter. by rewrite Is_true_true.
Qed.

Lemma others_idem n (h : Hook.t H) : others n (Hook.with_handlers (others n h) h) = others n h.
Proof.
  unfold others at 1. cbn. unfold others. rewrite list_filter_filter_r; [done|]. auto.
Qed.

(** Removing the hooks of a plugin. *)
Lemma unhook_plugin n (h : hooks) :
  registry_wf h →
  ∃ h' z, HookRegistry.unregister_plugin n h = (h', Ok z) ∧ unhooked n h' ∧
    ∀ r x, HookRegistry.objects h !! r = Some x → ∃ x', HookRegistry.objects h' !! r = Some x' ∧ others n x' = others n x.
Proof.
  intros [H1 H2 _]. unfold HookRegistry.unregister_plugin.
  destruct (unregister_hooks_loop_spec n (HookRegistry.hooks h).*2 0 h H1 H2) as (h' & -> & Eh & Eo).
  eexists _, _. split_and!; [done| |].
  - intros r x Hr Ex e He. rewrite Eo in Ex. rewrite Eh in Hr. apply fmap_Some in Ex as (x0 & _ & ->).
    rewrite decide_True in He by done. by apply list_elem_of_filter in He as [].
  - intros r x Ex. rewrite Eo, Ex. cbn. eexists. split; [done|]. case_decide; [apply others_idem|done].
Qed.

(** Also from a registry that is empty. *)
Lemma unhook_spec n (h : hooks) :
  registry_wf h →
  ∃ h' z, (if 0 <? HookRegistry.length_hooks h then HookRegistry.unregister_plugin n h else (h, Ok 0)) = (h', Ok z) ∧
    unhooked n h' ∧
    ∀ r x, HookRegistry.objects h !! r = Some x → ∃ x', HookRegistry.objects h' !! r = Some x' ∧ others n x' = others n x.
Proof.
  intros Hw. destruct (0 <? _) eqn:E; [by apply unhook_plugin|].
  exists h, 0. split_and!; [done| |by eauto]. intros r x Hr. unfold HookRegistry.length_hooks in E.
  destruct (HookRegistry.hooks h); [by apply elem_of_nil in Hr|]. cbn in E. lia.
Qed.

(** Removing the services of a plugin. *)
Lemma unserve_plugin n (s : services) :
  registry_ok s →
  ∃ s' z, ServiceRegistry.unregister_plugin n s = (s', Ok z) ∧
    (∀ x, ¬ owned n s' x) ∧
    ∀ x, ¬ owned n s x →
      dict_get (ServiceRegistry.services s') x = dict_get (ServiceRegistry.services s) x ∧
      dict_get (ServiceRegistry.factories s') x = dict_get (ServiceRegistry.factories s) x.
Proof.
  intros Hs. unfold ServiceRegistry.unregister_plugin.
  destruct (unregister_services_loop_spec n (ServiceRegistry.metadata s) 0 s) as (s' & -> & Ha & H1 & H2 & H3).
  eexists _, _. split_and!; [done| |].
  - intros x (m & Hm & Hn). rewrite H3 in Hm. case_decide as Hd; [done|].
    apply Hd, owned_names; [apply Hs|]. by exists m.
  - intros x Hx. rewrite H1, H2. by rewrite !decide_False by (rewrite owned_names; [done|apply Hs]).
Qed.

Lemma unserve_spec n (s : services) :
  registry_ok s →
  ∃ s' z, (if 0 <? ServiceRegistry.length_registry s then ServiceRegistry.unregister_plugin n s else (s, Ok 0)) = (s', Ok z) ∧
    (∀ x, ¬ owned n s' x) ∧
    ∀ x, ¬ owned n s x →
      dict_get (ServiceRegistry.services s') x = dict_get (ServiceRegistry.services s) x ∧
      dict_get (ServiceRegistry.factories s') x = dict_get (ServiceRegistry.factories s) x.
Proof.
  intros Hs. destruct (0 <? _) eqn:E; [by apply unserve_plugin|].
  exists s, 0. split_and!; [done| |done]. intros x (m & Hm & _).
  assert (x ∈ (ServiceRegistry.metadata s).*1) as Hx.
  { apply dict_get_elem in Hm. apply list_elem_of_fmap. by exists (x, m). }
  unfold ServiceRegistry.length_registry in E. apply Hs in Hx as [Hx|Hx].
  - destruct (ServiceRegistry.services s); [by apply elem_of_nil in Hx|]. cbn in E. lia.
  - destruct (ServiceRegistry.factories s); [by apply elem_of_nil in Hx|]. cbn in E. lia.
Qed.

Lemma on_part_ret {T A} `{Part W T} (m : method T A) (t' : T) a w :
  m (part w) = (t', Ok a) → (let! _ := on_part m in m_ret ()) w = (set_part t' w, Ok ()).
Proof. intros E. unfold m_bind, on_part. by rewrite E. Qed.

Lemma unregister_all_spec (w : W) :
  attached (part w) = true → registry_wf (part w) → bus_wf (part w) → registry_ok (part w) →
  tracked (part w) (part w) →
  let n := name (part (S := plugin) w) in
  ∃ w', unregister_all (H := H) (C := C) (F := F) (S := S) (M := M) (X := X) w = (w', Ok ()) ∧
    part w' = with_ids [] (registered_hooks (part w)) (part (S := plugin) w) ∧
    forgotten n (part w') (part w') (part w') ∧ spared n w w'.
Proof.
  intros Ha Hh Hb Hs Ht n.
  destruct (unhook_spec n (part w) Hh) as (h' & z1 & E1 & U1 & O1).
  destruct (unserve_spec n (part w) Hs) as (s' & z2 & E2 & U2 & O2).
  pose proof (unsubscribe_all_spec (subscription_ids (part (S := plugin) w)) (part (S := bus) w) Hb) as E3.
  set (b' := restrict _ _) in E3.
  set (p' := with_ids [] (registered_hooks (part w)) (part (S := plugin) w)).
  exists (set_part s' (set_part p' (set_part b' (set_part h' w)))). split_and!.
  - unfold unregister_all, self. rewrite (m_bind_ok _ _ _ _ _ (on_part_get w)), (m_bind_ok _ _ _ _ _ (on_part_get w)), Ha.
    fold n. cbn [andb].
    assert ((if 0 <? HookRegistry.length_hooks (part w)
       then let! _ := on_part (HookRegistry.unregister_plugin n) in m_ret () else m_ret ()) w = (set_part h' w, Ok ())) as E1'.
    { destruct (0 <? _); [by eapply on_part_ret|]. injection E1 as <- _. by rewrite set_part_self. }
    rewrite (m_bind_ok _ _ _ _ _ E1'). clear E1'.
    assert ((let! _ := on_part (EventBus.unsubscribe_all (C := C) (F := F) (subscription_ids (part w))) in
             modify (λ p : plugin, with_ids [] (registered_hooks p) p)) (set_part h' w) =
            (set_part p' (set_part b' (set_part h' w)), Ok ())) as E3'.
    { unfold m_bind, on_part at 1. rewrite apart_r, E3. unfold modify, on_part. by rewrite !apart_l. }
    rewrite (m_bind_ok _ _ _ _ _ E3'). clear E3'. rewrite (m_bind_ok _ _ _ _ _ (on_part_get _)), !apart_r.
    destruct (0 <? ServiceRegistry.length_registry (part (S := services) w)).
    { apply (on_part_ret _ s' z2). rewrite !apart_r. exact E2. }
    injection E2 as <- _.
    by rewrite <-(apart_r (S := hooks) (T := services) h' w), <-(apart_r (S := bus) (T := services) b'),
      <-(apart_r (S := plugin) (T := services) p'), set_part_self.
  - by rewrite apart_l, part_set.
  - split.
    + by rewrite !apart_l, !apart_r, apart_l, part_set.
    + rewrite !apart_l, apart_r, part_set. intros s [Hs' Hi%bool_decide_eq_true]%elem_of_restrict Hn. by apply Hi, Ht.
    + by rewrite part_set.
  - split.
    + rewrite !apart_l, !apart_r, apart_l, part_set. exact O1.
    + rewrite !apart_l, apart_r, part_set. intros s Hs' Hn. apply elem_of_restrict. split; [done|].
      apply bool_decide_true. intros Hi. by apply Hn, Ht.
    + rewrite part_set. exact O2.
Qed.

Lemma subscribe_event_spec uuid k c pr f o (w : W) :
  attached (part w) = true → bus_wf (part w) → tracked (part w) (part w) →
  uuid ∉ EventBus.sub_id <$> all_subs (part (S := bus) w) → uuid ∉ subscription_ids (part (S := plugin) w) →
  ∃ w', subscribe_event (C := C) (F := F) (X := X) uuid k c pr f o w = (w', Ok uuid) ∧
    bus_wf (part w') ∧ tracked (part w') (part w').
Proof.
  intros Ha Hb Ht Hu Hi. unfold subscribe_event, need, self.
  rewrite (m_bind_ok _ _ _ _ _ (on_part_get w)), Ha. set (s := {| EventBus.sub_id := uuid |}).
  unfold m_bind at 1, on_part. destruct (EventBus.subscribe s (part w)) as [b' r] eqn:E.
  assert (r = Ok uuid) as -> by (unfold EventBus.subscribe in E; by injection E).
  assert ((EventBus.subscribe s (part w)).1 = b') as Eb by (by rewrite E).
  eexists. split; [done|]. rewrite !apart_r, part_set, part_set, apart_l. split.
  { rewrite <-Eb. by apply subscribe_wf. }
  intros x Hx. rewrite <-Eb, subscribe_all in Hx by apply Hb. cbn. rewrite elem_of_app, list_elem_of_singleton.
  apply elem_of_cons in Hx as [->|Hx]; [cbn; tauto|]. rewrite (Ht x Hx). split; [|tauto].
  intros [?|Hx']; [done|]. destruct Hu. rewrite <-Hx'. by apply list_elem_of_fmap_2.
Qed.
End cleanup.

(** * Example *)

(** One plugin, whose handlers, callbacks and services are numbers. *)
Module BaseExample.
Record world := {
  w_plugin : PluginBase.t Z; w_hooks : HookRegistry.t Z; w_bus : EventBus.t Z Z;
  w_services : ServiceRegistry.t Z Z }.

#[export] Instance plugin_part : Part world (PluginBase.t Z).
Proof.
  by refine {| part := w_plugin; set_part p w := {| w_plugin := p; w_hooks := w_hooks w; w_bus := w_bus w;
    w_services := w_services w |} |}; intros; cbn; destruct w.
Defined.
#[export] Instance hooks_part : Part world (HookRegistry.t Z).
Proof.
  by refine {| part := w_hooks; set_part h w := {| w_plugin := w_plugin w; w_hooks := h; w_bus := w_bus w;
    w_services := w_services w |} |}; intros; cbn; destruct w.
Defined.
#[export] Instance bus_part : Part world (EventBus.t Z Z).
Proof.
  by refine {| part := w_bus; set_part b w := {| w_plugin := w_plugin w; w_hooks := w_hooks w; w_bus := b;
    w_services := w_services w |} |}; intros; cbn; destruct w.
Defined.
#[export] Instance services_part : Part world (ServiceRegistry.t Z Z).
Proof.
  by refine {| part := w_services; set_part s w := {| w_plugin := w_plugin w; w_hooks := w_hooks w; w_bus := w_bus w;
    w_services := s |} |}; intros; cbn; destruct w.
Defined.
#[export] Instance plugin_hooks : Apart world (PluginBase.t Z) (HookRegistry.t Z).
Proof. by split. Qed.
#[export] Instance plugin_bus : Apart world (PluginBase.t Z) (EventBus.t Z Z).
Proof. by split. Qed.
#[export] Instance plugin_services : Apart world (PluginBase.t Z) (ServiceRegistry.t Z Z).
Proof. by split. Qed.
#[export] Instance hooks_bus : Apart world (HookRegistry.t Z) (EventBus.t Z Z).
Proof. by split. Qed.
#[export] Instance hooks_services : Apart world (HookRegistry.t Z) (ServiceRegistry.t Z Z).
Proof. by split. Qed.
#[export] Instance bus_services : Apart world (EventBus.t Z Z) (ServiceRegistry.t Z Z).
Proof. by split. Qed.

Definition empty : world := {|
  w_plugin := PluginBase.new_plugin (str "p") None []; w_hooks := HookRegistry.init_registry;
  w_bus := EventBus.init_bus; w_services := ServiceRegistry.init_registry |}.

(** [on_initialize] of the plugin: a handler, a subscription and a service. *)
Definition on_initialize : method world () :=
  let! _ := PluginBase.register_hook_handler (X := Z) (λ _, true) (str "h") 1 NORMAL in
  let! _ := PluginBase.subscribe_event (C := Z) (F := Z) (X := Z) (str "id") (str "ping") 2 EventPriority.NORMAL None false in
  PluginBase.register_service (M := Z) (X := Z) (str "db") 3 [] [] None false 0.

Definition started : world :=
  (PluginBase.start (X := Z) (m_ret ()) (PluginBase.initialize (X := Z) on_initialize empty).1).1.

Example started_state :
  PluginBase.state (w_plugin started) = PluginState.STARTED ∧ length (all_subs (w_bus started)) = 1%nat ∧
  ServiceRegistry.services (w_services started) = [(str "db", 3)].
Proof. by vm_compute. Qed.

(** A cleanup that raises leaves everything registered. *)
Example cleanup_raises :
  PluginBase.cleanup (H := Z) (C := Z) (F := Z) (S := Z) (M := Z) (X := Z) (m_raise ValueError) started = (started, Ok ()).
Proof. by vm_compute. Qed.

(** A new setting resets the overrides. *)
Example overrides_lost c : PluginConfig.overrides (PluginBase.set_config (str "k") 1 c) = [].
Proof. done. Qed.

Lemma started_hooks : registry_wf (w_hooks started).
Proof. split; by apply (bool_decide_unpack _); vm_compute. Qed.

Lemma started_bus : bus_wf (w_bus started).
Proof. exact (proj1 (subscribe_many [{|
    EventBus.sub_id := str "id"; EventBus.event_type := str "ping"; EventBus.callback := 2;
    EventBus.sub_priority := EventPriority.NORMAL; EventBus.plugin_name := str "p"; EventBus.filter_func := None;
    EventBus.once := false |}] (NoDup_singleton _))). Qed.

Lemma started_services : registry_ok (w_services started).
Proof.
  assert (str "db" ∉ ([] : list pystr)) as Hn by apply not_elem_of_nil.
  exact (orderly_step_ok _ (w_services started) (orderly_register (V := Z) (F := Z) (str "db") 3 [] [] (str "p") None false 0
    ServiceRegistry.init_registry Hn Hn) registry_ok_init).
Qed.

Lemma started_tracked : tracked (w_plugin started) (w_bus started).
Proof. intros s [->|Hs]%elem_of_cons; [by split; [|left]|by apply elem_of_nil in Hs]. Qed.
End BaseExample.

(** * Properties *)

Module Properties.
Import PluginBase BaseExample.

(** A plugin that made its subscriptions by its own method is cleaned up without a trace,
    when its [on_cleanup] returns: it is stopped, keeps no subscription, and no hook, event
    type or service is its own any more, while those of the others are what they were. When
    [on_cleanup] raises, the error is kept in the log and nothing is unregistered. *)
Theorem plugin_cleanup_complete {W H C F S M X} `{EqDecision H}
    `{HP : Part W (PluginBase.t X)} `{HH : Part W (HookRegistry.t H)} `{HB : Part W (EventBus.t C F)}
    `{HS : Part W (ServiceRegistry.t S M)}
    `{!Apart W (PluginBase.t X) (HookRegistry.t H)} `{!Apart W (PluginBase.t X) (EventBus.t C F)}
    `{!Apart W (PluginBase.t X) (ServiceRegistry.t S M)} `{!Apart W (HookRegistry.t H) (EventBus.t C F)}
    `{!Apart W (HookRegistry.t H) (ServiceRegistry.t S M)} `{!Apart W (EventBus.t C F) (ServiceRegistry.t S M)}
    (on_cleanup : method W ()) (w w1 : W) r :
  on_cleanup w = (w1, r) →
  attached (part w1) = true → registry_wf (part w1) → bus_wf (part w1) → registry_ok (part w1) →
  tracked (part w1) (part w1) →
  match r with
  | Ok _ => ∃ w', cleanup (H := H) (C := C) (F := F) (S := S) (M := M) (X := X) on_cleanup w = (w', Ok ()) ∧
      state (part w') = PluginState.STOPPED ∧ subscription_ids (part w') = [] ∧
      forgotten (name (part w1)) (part w') (part w') (part w') ∧ spared (name (part w1)) w1 w'
  | Err e => cleanup (H := H) (C := C) (F := F) (S := S) (M := M) (X := X) on_cleanup w =
      (w1, if is_exception e then Ok () else Err e)
  end.
Proof.
  intros Ec Ha Hh Hb Hs Ht. destruct r as [[]|e].
  - destruct (unregister_all_spec w1 Ha Hh Hb Hs Ht) as (w2 & Eu & Ep & [F1 F2 F3] & [S1 S2 S3]).
    exists (set_part (with_state PluginState.STOPPED (part w2)) w2).
    unfold cleanup, m_try. rewrite (m_bind_ok _ _ _ _ _ Ec), (m_bind_ok _ _ _ _ _ Eu).
    split; [done|]. rewrite part_set. cbn. rewrite Ep. split_and!; [done..| |].
    + split; rewrite ?apart_r; done.
    + split; rewrite ?apart_r; done.
  - unfold cleanup, m_try. rewrite (m_bind_err _ _ _ _ _ Ec). by destruct (is_exception e).
Qed.

Lemma plugin_cleanup_complete_witness :
  ∃ w', cleanup (H := Z) (C := Z) (F := Z) (S := Z) (M := Z) (X := Z) (m_ret ()) started = (w', Ok ()) ∧
    state (w_plugin w') = PluginState.STOPPED ∧ subscription_ids (w_plugin w') = [] ∧
    forgotten (str "p") (w_hooks w') (w_bus w') (w_services w') ∧ spared (str "p") started w'.
Proof.
  exact (plugin_cleanup_complete (m_ret ()) started started (Ok ()) eq_refl eq_refl started_hooks started_bus
    started_services started_tracked).
Defined.
End Properties.
