(* ===== verification/PluginFiles.v ===== *)
(** What the plugin manager keeps in files: plugins/plugin_manager.py,
    [PluginConfigManager], [PluginHotReload] and [PluginIsolation].

    The configuration directory is a table of texts by file name; the JSON text of a
    configuration is a parameter. The hash of a file is a function of the file system, an
    argument of the operations that read it. *)

From S2P Require Import Prelude Bytes Utf8 Str PyDict PluginBase.

(** * Configurations *)

(** What [json.load] finds under the five keys of a configuration file. *)
Record stored (X : Type) := {
  s_name : option pystr; s_enabled : option bool; s_settings : option (list (pystr * X));
  s_isolation : option (option pystr); s_limits : option (list (pystr * X)) }.
Arguments s_name {X} _.
Arguments s_enabled {X} _.
Arguments s_settings {X} _.
Arguments s_isolation {X} _.
Arguments s_limits {X} _.

#[export] Instance stored_eq_dec {X} `{EqDecision X} : EqDecision (stored X).
Proof. solve_decision. Defined.

Module PluginConfigManager.
Section configs.
Context {X : Type}.
Abbreviation config := (PluginConfig.t X).
(** [json.dump], [None] when it raises, and [json.load]. *)
Variable dumps : stored X → option pystr.
Variable loads : pystr → option (stored X).
(** The limits of a file without any. *)
Variable default_limits : list (pystr * X).

(** The configurations in memory, and the files of the directory. *)
Record t := { configs : list (pystr * config); files : gmap pystr pystr }.

Definition config_path (plugin_name : pystr) : pystr := plugin_name ++ str ".json".

Definition of_stored (plugin_name : pystr) (s : stored X) : config := {|
  PluginConfig.name := default plugin_name (s_name s);
  PluginConfig.enabled := default true (s_enabled s);
  PluginConfig.settings := default [] (s_settings s);
  PluginConfig.overrides := [];
  PluginConfig.isolation := default None (s_isolation s);
  PluginConfig.resource_limits := default default_limits (s_limits s) |}.

Definition to_stored (c : config) : stored X := {|
  s_name := Some (PluginConfig.name c); s_enabled := Some (PluginConfig.enabled c);
  s_settings := Some (PluginConfig.settings c); s_isolation := Some (PluginConfig.isolation c);
  s_limits := Some (PluginConfig.resource_limits c) |}.

(** A file that does not parse is logged and counts as none. *)
Definition load_config (plugin_name : pystr) : method t (option config) := λ m,
  match files m !! config_path plugin_name ≫= loads with
  | Some s =>
      let c := of_stored plugin_name s in
      ({| configs := dict_set (configs m) plugin_name c; files := files m |}, Ok (Some c))
  | None => (m, Ok None)
  end.

(** The file is written under another name first; when [json.dump] raises, that one is
    left with the part that was written, [partial]. *)
Definition save_config (partial : pystr) (c : config) : method t bool := λ m,
  let path := config_path (PluginConfig.name c) in
  match dumps (to_stored c) with
  | Some text =>
      ({| configs := dict_set (configs m) (PluginConfig.name c) c;
          files := delete (path ++ str ".tmp") (<[path := text]> (files m)) |}, Ok true)
  | None => ({| configs := configs m; files := <[path ++ str ".tmp" := partial]> (files m) |}, Ok false)
  end.

Definition get_config (plugin_name : pystr) (m : t) : option config := dict_get (configs m) plugin_name.

(** [{**d, **d'}]. *)
Definition merge {A} (d d' : list (pystr * A)) : list (pystr * A) := foldl (λ d x, dict_set d x.1 x.2) d d'.

Definition updated (settings : option (list (pystr * X))) (enabled : option bool) (isolation : option pystr)
    (limits : option (list (pystr * X))) (c : config) : config := {|
  PluginConfig.name := PluginConfig.name c;
  PluginConfig.enabled := default (PluginConfig.enabled c) enabled;
  PluginConfig.settings := merge (PluginConfig.settings c) (default [] settings);
  PluginConfig.overrides := [];
  PluginConfig.isolation := match isolation with Some i => Some i | None => PluginConfig.isolation c end;
  PluginConfig.resource_limits := merge (PluginConfig.resource_limits c) (default [] limits) |}.

Definition update_config (partial plugin_name : pystr) (settings : option (list (pystr * X))) (enabled : option bool)
    (isolation : option pystr) (limits : option (list (pystr * X))) : method t (option config) :=
  let! m := m_get in
  match dict_get (configs m) plugin_name with
  | None => m_ret None
  | Some c =>
      let c' := updated settings enabled isolation limits c in
      let! _ := m_put {| configs := dict_set (configs m) plugin_name c'; files := files m |} in
      let! _ := save_config partial c' in
      m_ret (Some c')
  end.

Definition delete_config (plugin_name : pystr) : method t bool := λ m,
  let path := config_path plugin_name in
  ({| configs := dict_del (configs m) plugin_name; files := delete path (files m) |},
   Ok (bool_decide (is_Some (files m !! path)))).

Definition list_configs (m : t) : list pystr := (configs m).*1.

(** [config.isolation or default_config.isolation]: the empty text counts as none. *)
Definition or_else (a b : option pystr) : option pystr :=
  match a with Some (_ :: _) => a | _ => b end.

Definition merge_with_default (c d : config) : config := {|
  PluginConfig.name := PluginConfig.name c;
  PluginConfig.enabled := PluginConfig.enabled c;
  PluginConfig.settings := merge (PluginConfig.settings d) (PluginConfig.settings c);
  PluginConfig.overrides := [];
  PluginConfig.isolation := or_else (PluginConfig.isolation c) (PluginConfig.isolation d);
  PluginConfig.resource_limits := merge (PluginConfig.resource_limits d) (PluginConfig.resource_limits c) |}.
End configs.
Arguments t : clear implicits.
End PluginConfigManager.

(** * Watching files *)

Module PluginHotReload.
(** [_watched] is documented to hold hashes; [watch] puts the path there. *)
Record t := { watched : list (pystr * pystr); changed : gset pystr; running : bool }.

Definition init_watcher : t := {| watched := []; changed := ∅; running := false |}.

Definition watch (plugin_name file_path : pystr) : method t () := λ h,
  ({| watched := dict_set (watched h) plugin_name file_path; changed := changed h ∖ {[plugin_name]};
      running := running h |}, Ok ()).

Definition unwatch (plugin_name : pystr) : method t () := λ h,
  ({| watched := dict_del (watched h) plugin_name; changed := changed h ∖ {[plugin_name]};
      running := running h |}, Ok ()).

Definition unwatch_all : method t () := λ h, ({| watched := []; changed := ∅; running := running h |}, Ok ()).

(** [_compute_hash]: the empty text for a file that cannot be read. *)
Definition compute_hash (hash : pystr → option pystr) (file_path : pystr) : pystr := default [] (hash file_path).

(** The loop of [check_changes], over the table as it was at its start. *)
Fixpoint check_loop (hash : pystr → option pystr) (items : list (pystr * pystr)) (h : t) (acc : list pystr)
    : t * list pystr :=
  match items with
  | [] => (h, acc)
  | (plugin_name, file_path) :: items' =>
      let current := compute_hash hash file_path in
      match dict_get (watched h) plugin_name with
      | Some ((_ :: _) as previous) =>
          if decide (current = previous) then check_loop hash items' h acc
          else
            check_loop hash items'
              {| watched := dict_set (watched h) plugin_name current; changed := changed h ∪ {[plugin_name]};
                 running := running h |} (acc ++ [plugin_name])
      | _ => check_loop hash items' h acc
      end
  end.

Definition check_changes (hash : pystr → option pystr) : method t (list pystr) := λ h,
  let (h', acc) := check_loop hash (watched h) h [] in (h', Ok acc).

(** The thread that watches is started once. *)
Definition start_watching : method t () := λ h,
  ({| watched := watched h; changed := changed h; running := true |}, Ok ()).

Definition stop_watching : method t () := λ h,
  ({| watched := watched h; changed := changed h; running := false |}, Ok ()).

Definition watched_plugins (h : t) : list pystr := (watched h).*1.

(** One turn of [_watch_loop], with the callback. *)
Definition watch_turn {W} `{Part W t} (hash : W → pystr → option pystr) (on_reload : pystr → method W ()) : method W () :=
  m_try
    (let! changed := (λ w, on_part (check_changes (hash w)) w) in
     for_each (λ n, m_try (on_reload n) (λ _, m_ret ())) changed)
    (λ _, m_ret ()).
End PluginHotReload.

(** * Isolation *)

Module PluginIsolation.
(** [json.dumps] of a bytes object. *)
Definition json_dumps_bytes {W} : method W pystr := m_raise TypeError.

(** The script of the process is built from the JSON of pickled objects, which are bytes:
    [json.dumps] raises [TypeError], or [pickle.dumps] raises before, and no process is
    started. So the table of processes stays empty. *)
Definition start_isolated {W} : method W bool :=
  m_try (let! _ := json_dumps_bytes in m_ret true) (λ _, m_ret false).

(** Without a process there is no answer, and nothing to stop. *)
Definition send_command {W} : method W (option ()) := m_ret None.
Definition stop_isolated {W} : method W bool := m_ret false.
End PluginIsolation.

(** * Files of configurations *)

Section configs.
Import PluginConfigManager.

Lemma config_path_inj a b : config_path a = config_path b → a = b.
Proof. apply app_inv_tail. Qed.

(** No configuration is in a temporary file. *)
Lemma config_path_tmp a b : config_path a ≠ config_path b ++ str ".tmp".
Proof.
  intros E%(f_equal last). unfold config_path in E. by rewrite !last_app in E.
Qed.
End configs.

(** * What the watcher reports *)

Section watcher.
Import PluginHotReload.

(** The entry of a plugin after a check, and whether the check reports the plugin. *)
Definition next_entry (hash : pystr → option pystr) (v : pystr) : pystr :=
  match v with [] => [] | _ => compute_hash hash v end.
Definition reported (hash : pystr → option pystr) (v : pystr) : Prop := v ≠ [] ∧ compute_hash hash v ≠ v.

Lemma check_loop_spec hash items : ∀ h acc,
  NoDup items.*1 → (∀ k v, (k, v) ∈ items → dict_get (watched h) k = Some v) → NoDup (watched h).*1 →
  let r := check_loop hash items h acc in
  NoDup (watched r.1).*1 ∧
  (∀ k, dict_get (watched r.1) k =
        match dict_get items k with Some v => Some (next_entry hash v) | None => dict_get (watched h) k end) ∧
  (∀ k, k ∈ r.2 ↔ k ∈ acc ∨ ∃ v, dict_get items k = Some v ∧ reported hash v).
Proof.
  induction items as [|[k v] items IH]; intros h acc Hd Hi Hw; cbn [check_loop].
  { split_and!; [done..|]. intros k. split; [by left|]. by intros [?|(v & ? & _)]. }
  apply NoDup_cons in Hd as [Hk Hd]. rewrite (Hi k v) by left.
  assert (∀ k' v', (k', v') ∈ items → k' ≠ k) as Hne.
  { intros k' v' Hin ->. apply Hk, list_elem_of_fmap. by exists (k, v'). }
  assert (∀ k', dict_get ((k, v) :: items) k' = if decide (k = k') then Some v else dict_get items k') as Hg by done.
  assert (dict_get items k = None) as Hkn by (by apply dict_get_None).
  assert (¬ reported hash v → next_entry hash v = v) as Hsame.
  { intros Hr. unfold next_entry, reported in *. destruct v as [|x v]; [done|]. apply dec_stable. intros Hn. by apply Hr. }
  assert (∀ (Hr : ¬ reported hash v),
    let r := check_loop hash items h acc in
    NoDup (watched r.1).*1 ∧
    (∀ k', dict_get (watched r.1) k' =
        match dict_get ((k, v) :: items) k' with Some v => Some (next_entry hash v) | None => dict_get (watched h) k' end) ∧
    (∀ k', k' ∈ r.2 ↔ k' ∈ acc ∨ ∃ v', dict_get ((k, v) :: items) k' = Some v' ∧ reported hash v')) as Hskip.
  { intros Hr. destruct (IH h acc Hd) as (I1 & I2 & I3); [intros k' v' Hin; apply Hi; by right|done|].
    split_and!; [done| |]; intros k'; rewrite Hg; case_decide as Hkk; [subst k'|by apply I2|subst k'|by apply I3].
    - rewrite I2, Hkn, Hsame by done. apply Hi. left.
    - rewrite I3, Hkn. naive_solver. }
  destruct v as [|x v]; [apply Hskip; by intros []|]. case_decide as Hc; [apply Hskip; by intros []|].
  set (h' := {| watched := _ |}). destruct (IH h' (acc ++ [k]) Hd) as (I1 & I2 & I3).
  - intros k' v' Hin. cbn. rewrite dict_get_set, decide_False by (intros <-; by eapply Hne). apply Hi. by right.
  - by apply dict_set_NoDup.
  - split_and!; [done| |]; intros k'; rewrite Hg; case_decide as Hkk.
    + subst k'. rewrite I2, Hkn. cbn. by rewrite dict_get_set, decide_True.
    + rewrite I2. cbn. by rewrite dict_get_set, decide_False.
    + subst k'. rewrite I3, elem_of_app, list_elem_of_singleton. split; [|by auto]. intros _. right. exists (x :: v). by split.
    + rewrite I3, elem_of_app, list_elem_of_singleton. naive_solver.
Qed.

(** The reports of successive checks, each with the files as they are at its time. *)
Fixpoint check_many (hashes : list (pystr → option pystr)) (h : t) : list (list pystr) :=
  match hashes with
  | [] => []
  | f :: hashes' => let (h', acc) := check_loop f (watched h) h [] in acc :: check_many hashes' h'
  end.

Lemma check_many_spec n hashes : ∀ h v k l,
  NoDup (watched h).*1 → dict_get (watched h) n = Some v → check_many hashes h !! k = Some l →
  ∃ f, hashes !! k = Some f ∧
    (n ∈ l ↔ reported f (foldl (λ v f, next_entry f v) v (take k hashes))).
Proof.
  induction hashes as [|f hashes IH]; intros h v k l Hd Hv; [done|]. cbn [check_many].
  pose proof (check_loop_spec f (watched h) h [] Hd (λ k v Hin, elem_dict_get _ k v Hd Hin) Hd) as (I1 & I2 & I3).
  destruct (check_loop f (watched h) h []) as [h' acc]. cbn in I1, I2, I3. destruct k as [|k].
  - intros [= ->]. exists f. split; [done|]. rewrite I3, Hv, elem_of_nil. cbn. naive_solver.
  - intros Hl. apply IH with (v := next_entry f v) in Hl as (f' & Hf & Hl); [by exists f'|done|]. by rewrite I2, Hv.
Qed.
End watcher.

Module Properties.
Import PluginConfigManager PluginHotReload.

(** What is saved is what is loaded from then on, but for the overrides; the files of the
    other plugins are not touched. *)
Theorem config_roundtrip {X} (dumps : stored X → option pystr) loads limits partial (c : PluginConfig.t X) m m1 :
  (∀ s t, dumps s = Some t → loads t = Some s) →
  save_config dumps partial c m = (m1, Ok true) →
  ∀ n, (load_config loads limits n m1).2 =
    if decide (n = PluginConfig.name c) then
      Ok (Some {| PluginConfig.name := PluginConfig.name c; PluginConfig.enabled := PluginConfig.enabled c;
                  PluginConfig.settings := PluginConfig.settings c; PluginConfig.overrides := [];
                  PluginConfig.isolation := PluginConfig.isolation c;
                  PluginConfig.resource_limits := PluginConfig.resource_limits c |})
    else (load_config loads limits n m).2.
Proof.
  intros Hj. unfold save_config. destruct (dumps (to_stored c)) as [text|] eqn:Ed; [|done]. intros [= <-] n.
  unfold load_config. cbn [files]. rewrite lookup_delete_ne by (intros E; by apply (config_path_tmp n (PluginConfig.name c))).
  case_decide as Hn.
  - subst n. rewrite lookup_insert_eq. cbn [mbind option_bind]. by rewrite (Hj _ _ Ed).
  - rewrite lookup_insert_ne by (intros E; by apply Hn, config_path_inj). by destruct (_ ≫= _).
Qed.

Lemma config_roundtrip_witness :
  let c := {| PluginConfig.name := str "p"; PluginConfig.enabled := false; PluginConfig.settings := [(str "k", 1)];
              PluginConfig.overrides := []; PluginConfig.isolation := None; PluginConfig.resource_limits := [] |} in
  let dumps s := if decide (s = to_stored c) then Some (str "text") else None in
  let loads t := if decide (t = str "text") then Some (to_stored c) else None in
  (load_config loads [] (str "p") (save_config dumps [] c {| configs := []; files := ∅ |}).1).2 = Ok (Some c).
Proof.
  intros c dumps loads.
  assert (∀ s t, dumps s = Some t → loads t = Some s) as Hj.
  { intros s t. unfold dumps, loads. case_decide as Hs; [|done]. intros [= <-]. rewrite decide_True by done. by rewrite Hs. }
  exact (config_roundtrip dumps loads [] [] c {| configs := []; files := ∅ |} _ Hj eq_refl (str "p")).
Defined.

(** C32: A plugin whose file is watched is reported by the next check, whether its file has
    changed or not, since [watch] stores the path in the place of the hash; and from the
    third check on it is never reported again, whatever is done to the file. *)
Theorem hot_reload_blind hashes n path h k l :
  NoDup (watched h).*1 → path ≠ [] →
  (∀ f, f ∈ hashes → ∀ t, f path = Some t → t ≠ path ∧ ∀ f', f' ∈ hashes → f' t = None) →
  check_many hashes (watch n path h).1 !! k = Some l →
  (k = 0%nat → n ∈ l) ∧ ((2 <= k)%nat → n ∉ l).
Proof.
  intros Hd Hp Hf Hl. apply (check_many_spec n _ _ path) in Hl as (f & Hk & Hl); cbn;
    [|by apply dict_set_NoDup|by rewrite dict_get_set, decide_True].
  split; intros Hk'.
  - subst k. rewrite Hl, take_0. cbn [foldl]. split; [done|]. unfold compute_hash. destruct (f path) as [t|] eqn:Et; [|by intros <-].
    apply (Hf f); [by eapply list_elem_of_lookup_2|done].
  - rewrite Hl. destruct hashes as [|f0 [|f1 hashes]], k as [|[|k]]; try (cbn in Hk; lia || done).
    cbn [take foldl]. assert (next_entry f1 (next_entry f0 path) = []) as ->.
    { destruct path as [|x path]; [done|]. unfold next_entry at 2, compute_hash.
      destruct (f0 (x :: path)) as [[|y t]|] eqn:Et; [done| |done]. cbn. unfold compute_hash.
      destruct (Hf f0 ltac:(left) _ Et) as [_ Hno]. by rewrite (Hno f1) by (right; left). }
    assert (foldl (λ v f, next_entry f v) [] (take k hashes) = []) as ->; [|by intros []].
    generalize (take k hashes). intros l'. by induction l'.
Qed.

(** Four checks: the file does not change before the last. *)
Lemma hot_reload_blind_witness :
  let hash (s : string) (p : pystr) := if decide (p = str "/p.py") then Some (str s) else None in
  let reports := check_many [hash "00"; hash "00"; hash "00"; hash "11"]%string
                   (watch (str "p") (str "/p.py") init_watcher).1 in
  reports = [[str "p"]; [str "p"]; []; []] ∧ str "p" ∉ default [] (reports !! 3%nat).
Proof.
  intros hash reports. split; [by vm_compute|].
  assert (∀ f, f ∈ [hash "00"; hash "00"; hash "00"; hash "11"]%string → ∀ t, f (str "/p.py") = Some t →
    t ≠ str "/p.py" ∧ ∀ f', f' ∈ [hash "00"; hash "00"; hash "00"; hash "11"]%string → f' t = None) as Hf.
  { assert (∀ s s' t, hash s (str "/p.py") = Some t → len (str s) = 2 → t ≠ str "/p.py" ∧ hash s' t = None) as Hh.
    { intros s s' t. unfold hash at 1. rewrite decide_True by done. intros [= <-] Hl.
      assert (str s ≠ str "/p.py") as Hne by (intros Hs; by rewrite Hs in Hl). split; [done|].
      unfold hash. by rewrite decide_False. }
    intros f Hin t Ht. repeat (apply elem_of_cons in Hin as [->|Hin]); [..|by apply elem_of_nil in Hin];
      (split; [by eapply (Hh _ "00"%string)|intros f' Hin'; repeat (apply elem_of_cons in Hin' as [->|Hin']);
        [..|by apply elem_of_nil in Hin']; by eapply Hh]). }
  assert (NoDup (watched init_watcher).*1) as Hd by constructor.
  refine (proj2 (hot_reload_blind [hash "00"; hash "00"; hash "00"; hash "11"]%string (str "p") (str "/p.py") init_watcher 3 []
    Hd _ Hf eq_refl) _); [done|lia].
Defined.
End Properties.
