(* ===== verification/PluginManager.v ===== *)
(** The plugin manager: plugins/plugin_manager.py, [PluginDescriptor] and [PluginManager].

    The manager is a part of the world, next to the hooks, the event bus and the services.
    Descriptors are objects that the discovery cache and the table of loaded plugins share,
    so they live in a store; a plugin instance is a number, and its methods are the fields
    of [operations]. What a scan of the directories finds, and the import of a module, are
    arguments.

    [load_plugin] calls itself for the dependencies: its fuel bounds the depth, and [None]
    is a recursion deeper than that. A second fuel bounds the recursive functions of the
    dependency graph. *)

From S2P Require Import Prelude Bytes Utf8 Str PyNum PyDict Sorting.
From S2P Require Import PluginDeps PluginHooks PluginEvents PluginServices PluginBase PluginFiles.

(** * The data of the manager *)

(** [desc.error]: the text of an exception, or of a failed start of a process. *)
Inductive reason := Raised (e : exn) | IsolationFailed.

(** [PluginDescriptor], with what its metadata holds for the manager. *)
Record Descriptor (X : Type) := {
  d_info : PluginDescriptor; d_path : pystr; d_module_path : pystr; d_min_api_version : pystr;
  d_config : PluginConfig.t X; d_instance : option nat; d_state : PluginState.t; d_error : option reason;
  d_start_time : option Z; d_isolated : bool }.
Arguments d_info {X} _.
Arguments d_path {X} _.
Arguments d_module_path {X} _.
Arguments d_min_api_version {X} _.
Arguments d_config {X} _.
Arguments d_instance {X} _.
Arguments d_state {X} _.
Arguments d_error {X} _.
Arguments d_start_time {X} _.
Arguments d_isolated {X} _.

Definition desc_name {X} (d : Descriptor X) : pystr := d_name (d_info d).

Definition desc_state {X} (st : PluginState.t) (d : Descriptor X) : Descriptor X := {|
  d_info := d_info d; d_path := d_path d; d_module_path := d_module_path d;
  d_min_api_version := d_min_api_version d; d_config := d_config d; d_instance := d_instance d; d_state := st;
  d_error := d_error d; d_start_time := d_start_time d; d_isolated := d_isolated d |}.
Definition desc_error {X} (r : reason) (d : Descriptor X) : Descriptor X := {|
  d_info := d_info d; d_path := d_path d; d_module_path := d_module_path d;
  d_min_api_version := d_min_api_version d; d_config := d_config d; d_instance := d_instance d;
  d_state := PluginState.ERROR; d_error := Some r; d_start_time := d_start_time d; d_isolated := d_isolated d |}.
Definition desc_instance {X} (i : option nat) (d : Descriptor X) : Descriptor X := {|
  d_info := d_info d; d_path := d_path d; d_module_path := d_module_path d;
  d_min_api_version := d_min_api_version d; d_config := d_config d; d_instance := i; d_state := d_state d;
  d_error := d_error d; d_start_time := d_start_time d; d_isolated := d_isolated d |}.
Definition desc_config {X} (c : PluginConfig.t X) (d : Descriptor X) : Descriptor X := {|
  d_info := d_info d; d_path := d_path d; d_module_path := d_module_path d;
  d_min_api_version := d_min_api_version d; d_config := c; d_instance := d_instance d; d_state := d_state d;
  d_error := d_error d; d_start_time := d_start_time d; d_isolated := d_isolated d |}.
Definition desc_started {X} (now : Z) (d : Descriptor X) : Descriptor X := {|
  d_info := d_info d; d_path := d_path d; d_module_path := d_module_path d;
  d_min_api_version := d_min_api_version d; d_config := d_config d; d_instance := d_instance d;
  d_state := PluginState.STARTED; d_error := d_error d; d_start_time := Some now; d_isolated := d_isolated d |}.

(** The methods of the plugin instances. [op_create] is the import of the module, the
    search for its class, the constructor and [on_create]. *)
Record operations (W X : Type) := {
  op_create : Descriptor X → PluginConfig.t X → method W nat;
  op_initialize : nat → method W (); op_start : nat → method W (); op_stop : nat → method W ();
  op_cleanup : nat → method W (); op_hot_reload : nat → method W ();
  op_config_change : nat → PluginConfig.t X → PluginConfig.t X → method W () }.
Arguments op_create {W X} _.
Arguments op_initialize {W X} _.
Arguments op_start {W X} _.
Arguments op_stop {W X} _.
Arguments op_cleanup {W X} _.
Arguments op_hot_reload {W X} _.
Arguments op_config_change {W X} _.

(** The payloads of the events the manager publishes. *)
Inductive notice :=
  | NLoaded (name version path : pystr)
  | NStarted (name : pystr)
  | NError (name : pystr) (error : option reason)
  | NStopped (name : pystr)
  | NUnloaded (name : pystr)
  | NEnabled (name : pystr)
  | NDisabled (name : pystr).

Module PluginManager.
(** [enable_hot_reload] and [enable_isolation] are arguments of the constructor. [plugins]
    and [cache], that of the discovery, lead to the same store. *)
Record t (X : Type) := {
  heap : list (Descriptor X); cache : list (pystr * nat); resolver : list (pystr * PluginDescriptor);
  plugins : list (pystr * nat); config_manager : PluginConfigManager.t X; hot_reload : PluginHotReload.t;
  enable_hot_reload : bool; enable_isolation : bool; initialized : bool; started : bool }.
Arguments heap {X} _.
Arguments cache {X} _.
Arguments resolver {X} _.
Arguments plugins {X} _.
Arguments config_manager {X} _.
Arguments hot_reload {X} _.
Arguments enable_hot_reload {X} _.
Arguments enable_isolation {X} _.
Arguments initialized {X} _.
Arguments started {X} _.

Section data.
Context {X : Type}.
Implicit Types m : t X.

Definition with_heap (h : list (Descriptor X)) m : t X := {|
  heap := h; cache := cache m; resolver := resolver m; plugins := plugins m; config_manager := config_manager m;
  hot_reload := hot_reload m; enable_hot_reload := enable_hot_reload m; enable_isolation := enable_isolation m;
  initialized := initialized m; started := started m |}.
Definition with_cache (c : list (pystr * nat)) m : t X := {|
  heap := heap m; cache := c; resolver := resolver m; plugins := plugins m; config_manager := config_manager m;
  hot_reload := hot_reload m; enable_hot_reload := enable_hot_reload m; enable_isolation := enable_isolation m;
  initialized := initialized m; started := started m |}.
Definition with_resolver (r : list (pystr * PluginDescriptor)) m : t X := {|
  heap := heap m; cache := cache m; resolver := r; plugins := plugins m; config_manager := config_manager m;
  hot_reload := hot_reload m; enable_hot_reload := enable_hot_reload m; enable_isolation := enable_isolation m;
  initialized := initialized m; started := started m |}.
Definition with_plugins (p : list (pystr * nat)) m : t X := {|
  heap := heap m; cache := cache m; resolver := resolver m; plugins := p; config_manager := config_manager m;
  hot_reload := hot_reload m; enable_hot_reload := enable_hot_reload m; enable_isolation := enable_isolation m;
  initialized := initialized m; started := started m |}.
Definition with_configs (c : PluginConfigManager.t X) m : t X := {|
  heap := heap m; cache := cache m; resolver := resolver m; plugins := plugins m; config_manager := c;
  hot_reload := hot_reload m; enable_hot_reload := enable_hot_reload m; enable_isolation := enable_isolation m;
  initialized := initialized m; started := started m |}.
Definition with_watcher (h : PluginHotReload.t) m : t X := {|
  heap := heap m; cache := cache m; resolver := resolver m; plugins := plugins m;
  config_manager := config_manager m; hot_reload := h; enable_hot_reload := enable_hot_reload m;
  enable_isolation := enable_isolation m; initialized := initialized m; started := started m |}.
Definition with_flags (i s : bool) m : t X := {|
  heap := heap m; cache := cache m; resolver := resolver m; plugins := plugins m;
  config_manager := config_manager m; hot_reload := hot_reload m; enable_hot_reload := enable_hot_reload m;
  enable_isolation := enable_isolation m; initialized := i; started := s |}.

(** A change of the descriptor [r]. *)
Definition update (r : nat) (f : Descriptor X → Descriptor X) m : t X := with_heap (alter f r (heap m)) m.

(** [self._plugins.get(plugin_name)]. *)
Definition get_plugin_descriptor (n : pystr) m : option nat := dict_get (plugins m) n.
Definition deref m (r : nat) : option (Descriptor X) := heap m !! r.
Definition get_plugin (n : pystr) m : option nat :=
  (get_plugin_descriptor n m ≫= deref m) ≫= d_instance.
Definition get_plugin_state (n : pystr) m : option PluginState.t :=
  d_state <$> (get_plugin_descriptor n m ≫= deref m).
Definition get_plugin_count m : Z := len (plugins m).
Definition is_loaded (n : pystr) m : bool := bool_decide (n ∈ (plugins m).*1).
Definition is_running (n : pystr) m : bool :=
  match get_plugin_descriptor n m ≫= deref m with
  | None => false
  | Some d => if d_isolated d then false else bool_decide (d_state d = PluginState.STARTED)
  end.
Definition get_plugin_config (n : pystr) m : option (PluginConfig.t X) :=
  match get_plugin_descriptor n m ≫= deref m with
  | Some d => Some (d_config d)
  | None => PluginConfigManager.get_config n (config_manager m)
  end.

Definition invalidate_cache (n : pystr) m : t X :=
  match n with
  | [] => with_cache [] m
  | _ => with_cache (dict_del (cache m) n) m
  end.

(** What a scan found, as new objects, in the order of the scan: a later plugin of the same
    name replaces an earlier one. *)
Definition allocate (d : Descriptor X) m : t X * nat := (with_heap (heap m ++ [d]) m, length (heap m)).

Definition discover_one (d : Descriptor X) (s : t X * list (pystr * nat)) : t X * list (pystr * nat) :=
  let (m, r) := allocate d s.1 in (m, dict_set s.2 (desc_name d) r).

(** [discover_all], then [register_plugin] for every plugin it returns. *)
Definition discover_plugins (found : list (Descriptor X)) (clear_cache : bool) : method (t X) (list (pystr * nat)) := λ m,
  let m := if clear_cache then with_cache [] m else m in
  let (m, discovered) := foldl (λ s d, discover_one d s) (m, []) found in
  let m := with_cache (foldl (λ c x, dict_set c x.1 x.2) (cache m) discovered) m in
  (foldl (λ m x, match deref m x.2 with
                 | Some d => with_resolver (PluginDependencyResolver.register_plugin (d_info d) (resolver m)) m
                 | None => m
                 end) m discovered, Ok discovered).
End data.
Arguments t : clear implicits.

Section manager.
Context {W H V A C F P S M X : Type} `{EqDecision H} `{SetIteration}.
Context `{Part W (t X)} `{Part W (HookRegistry.t H)} `{Part W (contexts V)} `{Part W (EventBus.t C F)}
  `{Part W (EventBus.threads C F P)} `{Part W (ServiceRegistry.t S M)}.
(** Handlers, callbacks and filters; the arguments of a handler, from those the manager
    gives by name; the payload of an event. *)
Variable accepts_context : H → res bool.
Variable call_handler : H → A → option nat → method W (option V).
Variable call : C → Event.t P → method W ().
Variable call_filter : F → Event.t P → method W bool.
Variable arguments : pystr → option nat → A.
Variable payload : notice → P.
Variable ops : operations W X.
(** The clock, new identifiers, and the limits, JSON and files of the configurations. *)
Variable now : W → Z.
Variable uuid : W → pystr.
Variable dumps : stored X → option pystr.
Variable loads : pystr → option (stored X).
Variable default_limits : list (pystr * X).
Variable partial : pystr.
(** What the search for a plugin that is not in the cache finds in the directories. *)
Variable find : pystr → W → option (Descriptor X).

Definition manager : method W (t X) := on_part m_get.
Definition modify (f : t X → t X) : method W () := on_part (λ m, (f m, Ok ())).
Definition on_configs {B} (f : method (PluginConfigManager.t X) B) : method W B :=
  on_part (λ m, let (c, b) := f (config_manager m) in (with_configs c m, b)).
Definition on_watcher {B} (f : method PluginHotReload.t B) : method W B :=
  on_part (λ m, let (h, b) := f (hot_reload m) in (with_watcher h m, b)).

(** [self.hook_registry.trigger(hook, plugin_name=...)]. *)
Definition trigger_hook (hook n : pystr) (instance : option nat) : method W () :=
  let! _ := trigger accepts_context call_handler hook (arguments n instance) None in m_ret ().

(** [self.event_bus.publish(Event(...))]: the bus of the manager delivers in threads. *)
Definition publish (type : string) (p : notice) : method W () := λ w,
  EventBus.publish call call_filter true (now w)
    (Event.new_event (uuid w) (now w) (str type) (payload p) (str "system") None None EventPriority.NORMAL None)
    false w.

Definition with_desc {B} (r : nat) (k : Descriptor X → method W B) : method W B :=
  let! m := manager in
  match deref m r with
  | Some d => k d
  | None => m_raise AttributeError
  end.

(** ** Loading *)

(** [API_VERSION] is 1.0.0. *)
Definition API_VERSION_MAJOR : Z := 1.
Definition API_VERSION_MINOR : Z := 0.

(** [_check_api_version]: a version that does not parse counts as compatible. *)
Definition check_api_version (min_api_version : pystr) : res () :=
  match mapM py_int (take 2 (split_on dot min_api_version)) with
  | Some (major :: rest) =>
      if API_VERSION_MAJOR <? major then Err PluginVersionError
      else if major =? API_VERSION_MAJOR then
        match rest with
        | minor :: _ => if API_VERSION_MINOR <? minor then Err PluginVersionError else Ok ()
        | [] => Ok ()
        end
      else Ok ()
  | _ => Ok ()
  end.

(** The part of [_load_inprocess] after the import. *)
Definition finish_load (r : nat) (n : pystr) (c : PluginConfig.t X) (i : nat) : method W (option nat) :=
  let! _ := modify (update r (λ d, desc_config c (desc_state PluginState.INITIALIZED (desc_instance (Some i) d)))) in
  let! _ := op_initialize ops i in
  let! _ := modify (λ m, with_plugins (dict_set (plugins m) n r) m) in
  let! m := manager in
  let! _ := (if enable_hot_reload m then with_desc r (λ d, on_watcher (PluginHotReload.watch n (d_module_path d)))
             else m_ret ()) in
  let! _ := trigger_hook (str "plugin.after_load") n (Some i) in
  let! _ := with_desc r (λ d, publish "plugin.loaded" (NLoaded n (d_version (d_info d)) (d_path d))) in
  m_ret (Some i).

Definition load_inprocess (r : nat) (d : Descriptor X) (c : PluginConfig.t X) : method W (option nat) :=
  m_try (let! i := op_create ops d c in finish_load r (desc_name d) c i)
    (λ e, if decide (e = PluginLoadError) then m_raise PluginLoadError
          else let! _ := modify (update r (desc_error (Raised e))) in m_raise PluginLoadError).

Definition load_isolated (r : nat) (d : Descriptor X) (c : PluginConfig.t X) : method W (option nat) :=
  let! _ := modify (update r (desc_config c)) in
  let! success := PluginIsolation.start_isolated in
  if success : bool then
    let n := desc_name d in
    let! _ := modify (λ m, with_plugins (dict_set (plugins m) n r) m) in
    let! _ := modify (update r (desc_state PluginState.INITIALIZED)) in
    let! m := manager in
    let! _ := (if enable_hot_reload m then on_watcher (PluginHotReload.watch n (d_module_path d)) else m_ret ()) in
    let! _ := trigger_hook (str "plugin.after_load") n None in
    let! _ := publish "plugin.loaded" (NLoaded n (d_version (d_info d)) (d_path d)) in
    m_ret None
  else
    let! _ := modify (update r (desc_error IsolationFailed)) in
    m_raise PluginLoadError.

(** [load_plugin] after the dependencies: the configuration, and the two ways to load. *)
Definition load_configured (r : nat) (n : pystr) (config : option (PluginConfig.t X)) : method W (option nat) :=
  let! saved := on_configs (PluginConfigManager.load_config loads default_limits n) in
  with_desc r (λ d,
    let c := match saved, config with
             | Some s, Some c => PluginConfigManager.merge_with_default c s
             | Some s, None => s
             | None, Some c => c
             | None, None => d_config d
             end in
    if negb (PluginConfig.enabled c) then
      let! _ := modify (update r (desc_state PluginState.DISABLED)) in
      m_ret None
    else
      let! _ := m_lift (check_api_version (d_min_api_version d)) in
      let! m := manager in
      if bool_decide (PluginConfigManager.or_else (PluginConfig.isolation c) (PluginConfig.isolation (d_config d)) =
                      Some (str "subprocess")) || enable_isolation m
      then load_isolated r d c
      else load_inprocess r d c).

(** The descriptor: that of the cache, or a new one for what the directories have. *)
Definition locate (n : pystr) : method W (option nat) :=
  let! m := manager in
  match dict_get (cache m) n with
  | Some r => m_ret (Some r)
  | None => λ w,
      match find n w with
      | Some d => on_part (λ m : t X, let (m, r) := allocate d m in (m, Ok (Some r))) w
      | None => (w, Ok None)
      end
  end.

(** The dependencies, in the order of their graph. *)
Definition dependency_order (gfuel : nat) (n : pystr) (ps : list (pystr * PluginDescriptor))
    : option (res (list pystr)) :=
  r ← PluginDependencyResolver.get_load_order gfuel ps;
  match r with
  | Err e => Some (Err e)
  | Ok _ =>
      r ← PluginDependencyResolver.resolve gfuel n ps;
      match r with
      | Err e => Some (Err e)
      | Ok g => DependencyGraph.topological_sort g gfuel
      end
  end.

(** [for dep_name in ...: if dep_name != plugin_name and dep_name not in self._plugins]. *)
Fixpoint load_each (load : pystr → W → option (W * res (option nat))) (n : pystr) (deps : list pystr) (w : W)
    : option (W * res ()) :=
  match deps with
  | [] => Some (w, Ok ())
  | d :: deps' =>
      if decide (d = n) then load_each load n deps' w
      else if is_loaded d (part (S := t X) w) then load_each load n deps' w
      else
        match load d w with
        | Some (w', Ok _) => load_each load n deps' w'
        | Some (w', Err e) => Some (w', Err e)
        | None => None
        end
  end.

(** A step that may have run out of fuel, then a method. *)
Definition then_do {B B'} (o : option (W * res B)) (k : B → method W B') : option (W * res B') :=
  match o with
  | Some (w, Ok b) => Some (k b w)
  | Some (w, Err e) => Some (w, Err e)
  | None => None
  end.

(** [try: ... except PluginDependencyError]. *)
Definition dependency_failure (r : nat) (o : option (W * res ())) : option (W * res ()) :=
  match o with
  | Some (w, Err PluginDependencyError) =>
      Some ((modify (update r (desc_error (Raised PluginDependencyError))) w).1, Err PluginDependencyError)
  | _ => o
  end.

Fixpoint load_plugin (gfuel fuel : nat) (n : pystr) (config : option (PluginConfig.t X)) (w : W)
    : option (W * res (option nat)) :=
  match fuel with
  | O => None
  | Datatypes.S fuel' =>
      match get_plugin n (part w) with
      | Some i => Some (w, Ok (Some i))
      | None =>
          match locate n w with
          | (w, Err e) => Some (w, Err e)
          | (w, Ok None) => Some (w, Err PluginLoadError)
          | (w, Ok (Some r)) =>
              match trigger_hook (str "plugin.before_load") n None w with
              | (w, Err e) => Some (w, Err e)
              | (w, Ok _) =>
                  then_do
                    (dependency_failure r
                       match dependency_order gfuel n (resolver (part (S := t X) w)) with
                       | None => None
                       | Some (Err e) => Some (w, Err e)
                       | Some (Ok deps) => load_each (λ d, load_plugin gfuel fuel' d None) n deps w
                       end)
                    (λ _, load_configured r n config)
              end
          end
      end
  end.

(** ** Starting and stopping *)

Definition start_plugin (n : pystr) : method W bool :=
  let! m := manager in
  match get_plugin_descriptor n m with
  | None => m_ret false
  | Some r =>
      with_desc r (λ d,
        let finish (success : bool) : method W bool :=
          if success then
            let! _ := (λ w, modify (update r (desc_started (now w))) w) in
            let! _ := publish "plugin.started" (NStarted n) in
            m_ret true
          else
            let! _ := with_desc r (λ d, publish "plugin.error" (NError n (d_error d))) in
            m_ret false in
        if d_isolated d then
          let! response := PluginIsolation.send_command in
          finish (bool_decide (is_Some response))
        else
          match d_instance d with
          | None => m_ret false
          | Some i =>
              let! success := m_try (let! _ := op_start ops i in m_ret true)
                (λ e, let! _ := modify (update r (desc_error (Raised e))) in m_ret false) in
              finish success
          end)
  end.

Fixpoint start_list (names : list pystr) (results : list (pystr * bool)) : method W (list (pystr * bool)) :=
  match names with
  | [] => m_ret results
  | n :: names' => let! b := start_plugin n in start_list names' (dict_set results n b)
  end.

Definition start_all_plugins : method W (list (pystr * bool)) :=
  let! m := manager in
  let! results := start_list (plugins m).*1 [] in
  let! _ := modify (λ m, with_flags (initialized m) true m) in
  m_ret results.

Definition stop_plugin (n : pystr) : method W bool :=
  let! m := manager in
  match get_plugin_descriptor n m with
  | None => m_ret false
  | Some r =>
      with_desc r (λ d,
        let finish : method W bool :=
          let! _ := modify (update r (desc_state PluginState.STOPPED)) in
          let! _ := trigger_hook (str "plugin.after_unload") n None in
          let! _ := publish "plugin.stopped" (NStopped n) in
          m_ret true in
        if d_isolated d then let! _ := PluginIsolation.send_command in finish
        else
          match d_instance d with
          | None => m_ret false
          | Some i => let! _ := m_try (op_stop ops i) (λ _, m_ret ()) in finish
          end)
  end.

(** The loops over names that drop the answers. *)
Definition each (f : pystr → method W bool) (l : list pystr) : method W () :=
  for_each (λ n, let! _ := f n in m_ret ()) l.

Definition stop_rest : method W () :=
  let! m := manager in
  let! _ := each stop_plugin (plugins m).*1 in
  modify (λ m, with_flags (initialized m) false m).

Definition stop_all_plugins (gfuel : nat) (w : W) : option (W * res ()) :=
  match PluginDependencyResolver.get_load_order gfuel (resolver (part (S := t X) w)) with
  | None => None
  | Some (Ok order) => Some ((let! _ := m_try (each stop_plugin (reverse order)) (λ _, m_ret ()) in stop_rest) w)
  | Some (Err _) => Some (stop_rest w)
  end.

(** ** Cleaning up *)

Definition cleanup_plugin (n : pystr) : method W bool :=
  let! m := manager in
  match get_plugin_descriptor n m with
  | None => m_ret false
  | Some r =>
      with_desc r (λ d,
        let finish (success : bool) : method W bool :=
          let! m := manager in
          let! _ := (if enable_hot_reload m then on_watcher (PluginHotReload.unwatch n) else m_ret ()) in
          let! _ := modify (update r (λ d, desc_instance None (desc_state PluginState.STOPPED d))) in
          let! _ := publish "plugin.unloaded" (NUnloaded n) in
          m_ret success in
        if d_isolated d then let! success := PluginIsolation.stop_isolated in finish success
        else
          match d_instance d with
          | None => m_ret false
          | Some i =>
              let! _ := m_try (op_cleanup ops i) (λ _, m_ret ()) in
              let! _ := on_part (HookRegistry.unregister_plugin (H := H) n) in
              let! _ := on_part (EventBus.unsubscribe_plugin (C := C) (F := F) n) in
              let! _ := on_part (ServiceRegistry.unregister_plugin (V := S) (F := M) n) in
              finish true
          end)
  end.

Definition stop_watching : method W () :=
  let! m := manager in
  if enable_hot_reload m then on_watcher PluginHotReload.stop_watching else m_ret ().

Definition cleanup_all_plugins : method W () :=
  let! m := manager in
  let! _ := each cleanup_plugin (plugins m).*1 in
  let! _ := modify (with_plugins []) in
  stop_watching.

Definition unload_plugin (n : pystr) : method W bool :=
  let! _ := trigger_hook (str "plugin.before_unload") n None in
  let! _ := stop_plugin n in
  let! _ := cleanup_plugin n in
  let! _ := modify (λ m, with_resolver (PluginDependencyResolver.unregister_plugin n (resolver m))
                           (with_plugins (dict_del (plugins m) n) m)) in
  m_ret true.

(** ** Loading all, enabling, reloading *)

(** [scan]: what the directories hold. *)
Fixpoint load_list (gfuel fuel : nat) (configs : list (pystr * PluginConfig.t X)) (names : list pystr)
    (results : list (pystr * option nat)) (w : W) : option (W * res (list (pystr * option nat))) :=
  match names with
  | [] => Some (w, Ok results)
  | n :: names' =>
      match load_plugin gfuel fuel n (dict_get configs n) w with
      | None => None
      | Some (w, Ok i) => load_list gfuel fuel configs names' (dict_set results n i) w
      | Some (w, Err e) =>
          if is_exception e then load_list gfuel fuel configs names' (dict_set results n None) w
          else Some (w, Err e)
      end
  end.

Definition load_all_plugins (gfuel fuel : nat) (scan : W → list (Descriptor X)) (configs : list (pystr * PluginConfig.t X))
    (w : W) : option (W * res (list (pystr * option nat))) :=
  match on_part (discover_plugins (scan w) false) w with
  | (w, Err e) => Some (w, Err e)
  | (w, Ok _) =>
      match PluginDependencyResolver.get_load_order gfuel (resolver (part (S := t X) w)) with
      | None => None
      | Some r =>
          let names := match r with
                       | Ok order => order
                       | Err _ => sort_by text_lt (cache (part (S := t X) w)).*1
                       end in
          then_do (load_list gfuel fuel configs names [] w) (λ results,
            let! m := manager in
            let! _ := (if enable_hot_reload m && negb (PluginHotReload.running (hot_reload m))
                       then on_watcher PluginHotReload.start_watching else m_ret ()) in
            let! _ := modify (λ m, with_flags true (started m) m) in
            m_ret results)
      end
  end.

Definition enable_plugin (gfuel fuel : nat) (n : pystr) (w : W) : option (W * res bool) :=
  match (let! _ := trigger_hook (str "plugin.before_enable") n None in
         on_configs (PluginConfigManager.update_config dumps partial n None (Some true) None None)) w with
  | (w, Err e) => Some (w, Err e)
  | (w, Ok None) => Some (w, Ok false)
  | (w, Ok (Some _)) =>
      match load_plugin gfuel fuel n None w with
      | None => None
      | Some (w, Err e) => Some (w, if is_exception e then Ok false else Err e)
      | Some (w, Ok _) =>
          Some ((let! _ := trigger_hook (str "plugin.after_enable") n None in
                 let! _ := publish "plugin.enabled" (NEnabled n) in
                 m_ret true) w)
      end
  end.

Definition disable_plugin (n : pystr) : method W bool :=
  let! _ := trigger_hook (str "plugin.before_disable") n None in
  let! _ := unload_plugin n in
  let! _ := on_configs (PluginConfigManager.update_config dumps partial n None (Some false) None None) in
  let! _ := trigger_hook (str "plugin.after_disable") n None in
  let! _ := publish "plugin.disabled" (NDisabled n) in
  m_ret true.

(** The directories are searched twice: for the resolver, and, since the cache is not
    filled, by [load_plugin]. *)
Definition rediscover (n : pystr) : method W () := λ w,
  match find n w with
  | Some d =>
      modify (λ m, with_resolver (PluginDependencyResolver.register_plugin (d_info d) (resolver m)) m) w
  | None => (w, Ok ())
  end.

Definition reload_plugin (gfuel fuel : nat) (n : pystr) (w : W) : option (W * res bool) :=
  match get_plugin_descriptor n (part w) ≫= deref (part w) with
  | None => Some (w, Ok false)
  | Some d =>
      match (let! _ := unload_plugin n in
             let! _ := modify (invalidate_cache n) in
             rediscover n) w with
      | (w, Err e) => Some (w, Err e)
      | (w, Ok _) =>
          match load_plugin gfuel fuel n (Some (d_config d)) w with
          | None => None
          | Some (w, Err e) => Some (w, if is_exception e then Ok false else Err e)
          | Some (w, Ok _) =>
              Some (m_try
                (let! m := manager in
                 let! _ := match get_plugin n m with Some i => op_hot_reload ops i | None => m_ret () end in
                 let! m := manager in
                 let! _ := (if started m then let! _ := start_plugin n in m_ret () else m_ret ()) in
                 m_ret true) (λ _, m_ret false) w)
          end
      end
  end.

(** ** Configuration, removal, shutdown *)

Definition set_plugin_config (n : pystr) (settings : option (list (pystr * X))) (enabled : option bool)
    (isolation : option pystr) : method W bool :=
  let! c := on_configs (PluginConfigManager.update_config dumps partial n settings enabled isolation None) in
  match c with
  | None => m_ret false
  | Some c =>
      let! m := manager in
      match get_plugin_descriptor n m with
      | None => m_ret true
      | Some r =>
          with_desc r (λ d,
            match d_instance d with
            | Some i =>
                let! _ := modify (update r (desc_config c)) in
                let! _ := m_try (op_config_change ops i (d_config d) c) (λ _, m_ret ()) in
                m_ret true
            | None => m_ret true
            end)
      end
  end.

(** [delete_path] deletes what is at a path: whether there was something, and whether it
    could be deleted. *)
Definition remove_plugin (delete_path : pystr → method W (option bool)) (n : pystr) : method W bool :=
  let! m := manager in
  let! _ := (if is_loaded n m then let! _ := unload_plugin n in m_ret () else m_ret ()) in
  let! _ := on_configs (PluginConfigManager.delete_config n) in
  let! m := manager in
  match dict_get (cache m) n ≫= deref m with
  | None => m_ret false
  | Some d => let! b := delete_path (d_path d) in m_ret (default false b)
  end.

Definition shutdown (gfuel : nat) (w : W) : option (W * res ()) :=
  then_do (stop_all_plugins gfuel w) (λ _,
    let! _ := cleanup_all_plugins in
    let! _ := stop_watching in
    let! _ := on_part (HookRegistry.clear (H := H)) in
    let! _ := on_part (EventBus.clear (C := C) (F := F)) in
    let! _ := on_part (ServiceRegistry.clear (V := S) (F := M)) in
    modify (with_flags false false)).
End manager.
End PluginManager.
