(* ===== verification/PluginManagerFacts.v ===== *)
(** The plugin manager at work: what loading, unloading and cleaning up promise.

    The world holds the six objects that the manager works on, and the rest, where the
    plugin instances are. Plugins are given the registries and not the manager, so their
    code is assumed to leave the manager as it is ([keeps]). *)

From stdpp Require Import relations.
From S2P Require Import Prelude Bytes Utf8 Str PyNum PyDict Sorting.
From S2P Require Import PluginDeps PluginResolve PluginHooks PluginEvents PluginServices PluginBase PluginFiles PluginManager.

Record world (H V C F P S M X E : Type) := World {
  w_manager : PluginManager.t X; w_hooks : HookRegistry.t H; w_contexts : contexts V; w_bus : EventBus.t C F;
  w_threads : EventBus.threads C F P; w_services : ServiceRegistry.t S M; w_rest : E }.
Arguments World {H V C F P S M X E} _ _ _ _ _ _ _.
Arguments w_manager {H V C F P S M X E} _.
Arguments w_hooks {H V C F P S M X E} _.
Arguments w_contexts {H V C F P S M X E} _.
Arguments w_bus {H V C F P S M X E} _.
Arguments w_threads {H V C F P S M X E} _.
Arguments w_services {H V C F P S M X E} _.
Arguments w_rest {H V C F P S M X E} _.

Section world.
Context {H V C F P S M X E : Type}.
Abbreviation W := (world H V C F P S M X E).

#[global, program] Instance world_manager : Part W (PluginManager.t X) := {|
  part := w_manager;
  set_part s w := World s (w_hooks w) (w_contexts w) (w_bus w) (w_threads w) (w_services w) (w_rest w) |}.
Solve Obligations with by intros; try destruct w.
#[global, program] Instance world_hooks : Part W (HookRegistry.t H) := {|
  part := w_hooks;
  set_part s w := World (w_manager w) s (w_contexts w) (w_bus w) (w_threads w) (w_services w) (w_rest w) |}.
Solve Obligations with by intros; try destruct w.
#[global, program] Instance world_contexts : Part W (contexts V) := {|
  part := w_contexts;
  set_part s w := World (w_manager w) (w_hooks w) s (w_bus w) (w_threads w) (w_services w) (w_rest w) |}.
Solve Obligations with by intros; try destruct w.
#[global, program] Instance world_bus : Part W (EventBus.t C F) := {|
  part := w_bus;
  set_part s w := World (w_manager w) (w_hooks w) (w_contexts w) s (w_threads w) (w_services w) (w_rest w) |}.
Solve Obligations with by intros; try destruct w.
#[global, program] Instance world_threads : Part W (EventBus.threads C F P) := {|
  part := w_threads;
  set_part s w := World (w_manager w) (w_hooks w) (w_contexts w) (w_bus w) s (w_services w) (w_rest w) |}.
Solve Obligations with by intros; try destruct w.
#[global, program] Instance world_services : Part W (ServiceRegistry.t S M) := {|
  part := w_services;
  set_part s w := World (w_manager w) (w_hooks w) (w_contexts w) (w_bus w) (w_threads w) s (w_rest w) |}.
Solve Obligations with by intros; try destruct w.

(** ** Methods that leave the manager as it is *)

Definition keeps {A} (m : method W A) : Prop := ∀ w, w_manager (m w).1 = w_manager w.

Lemma leaves_ret {A} (a : A) : keeps (m_ret a).
Proof. done. Qed.
Lemma leaves_raise {A} e : keeps (A := A) (m_raise e).
Proof. done. Qed.
Lemma leaves_lift {A} (r : res A) : keeps (m_lift r).
Proof. done. Qed.
Lemma leaves_bind {A B} (m : method W A) (k : A → method W B) : keeps m → (∀ a, keeps (k a)) → keeps (m_bind m k).
Proof.
  intros Hm Hk w. unfold m_bind. specialize (Hm w). destruct (m w) as [w' [a|e]]; cbn in *; [by rewrite Hk|done].
Qed.
Lemma leaves_try {A} (m : method W A) (k : exn → method W A) : keeps m → (∀ e, keeps (k e)) → keeps (m_try m k).
Proof.
  intros Hm Hk w. unfold m_try. specialize (Hm w). destruct (m w) as [w' [a|e]]; cbn in *; [done|].
  destruct (is_exception e); [by rewrite Hk|done].
Qed.
Lemma keeps_hooks {A} (m : method (HookRegistry.t H) A) : keeps (on_part m).
Proof. intros w. unfold on_part. by destruct (m _). Qed.
Lemma keeps_contexts {A} (m : method (contexts V) A) : keeps (on_part m).
Proof. intros w. unfold on_part. by destruct (m _). Qed.
Lemma keeps_bus {A} (m : method (EventBus.t C F) A) : keeps (on_part m).
Proof. intros w. unfold on_part. by destruct (m _). Qed.
Lemma keeps_threads {A} (m : method (EventBus.threads C F P) A) : keeps (on_part m).
Proof. intros w. unfold on_part. by destruct (m _). Qed.
Lemma keeps_services {A} (m : method (ServiceRegistry.t S M) A) : keeps (on_part m).
Proof. intros w. unfold on_part. by destruct (m _). Qed.
Lemma keeps_get : keeps (on_part (m_get (S := PluginManager.t X))).
Proof. intros w. done. Qed.
(** ** Removing a plugin from the registries *)

(** Removing the subscriptions of a plugin. *)
Lemma unsubscribe_plugin_subs n (b : EventBus.t C F) :
  NoDup (EventBus.subscriptions b).*1 →
  ∃ b' z, EventBus.unsubscribe_plugin n b = (b', Ok z) ∧
    ∀ s, s ∈ all_subs b' ↔ s ∈ all_subs b ∧ EventBus.plugin_name s ≠ n.
Proof.
  intros Hd. destruct (unsubscribe_plugin_spec n b Hd) as [z E1]. eexists _, _. split; [exact E1|]. intros s. clear E1. unfold cleaned. unfold all_subs, all_named. cbn.
  rewrite !elem_of_app, !list_elem_of_bind. unfold EventBus.not_of. rewrite list_elem_of_filter. split.
  - intros [([k l] & Hs & Hl)|[? ?]]; [|tauto]. cbn in Hs. apply list_elem_of_filter in Hl as [_ Hl].
    apply list_elem_of_fmap in Hl as ([k' l'] & [= -> ->] & Hl). cbn in Hs. apply list_elem_of_filter in Hs as [? Hs].
    split; [left; by exists (k', l')|done].
  - intros [[([k l] & Hs & Hl)|?] Hn]; [left|tauto]. cbn in Hs.
    exists (k, EventBus.not_of n l). unfold EventBus.not_of. cbn. split; [by apply list_elem_of_filter|].
    apply list_elem_of_filter. split; [|apply list_elem_of_fmap; by exists (k, l)]. cbn. intros Hnil.
    apply (not_elem_of_nil s). rewrite <-Hnil. by apply list_elem_of_filter.
Qed.

(** What [cleanup_plugin] does to the registries. *)
Lemma unregister_everything {B} (k : method W B) n (w1 : W) :
  registry_wf (w_hooks w1) → NoDup (EventBus.subscriptions (w_bus w1)).*1 → registry_ok (w_services w1) →
  ∃ w2, (let! _ := on_part (HookRegistry.unregister_plugin (H := H) n) in
         let! _ := on_part (EventBus.unsubscribe_plugin (C := C) (F := F) n) in
         let! _ := on_part (ServiceRegistry.unregister_plugin (V := S) (F := M) n) in k) w1 = k w2 ∧
    w_manager w2 = w_manager w1 ∧ forgotten n (w_hooks w2) (w_bus w2) (w_services w2) ∧
    spared (H := H) (C := C) (F := F) (S := S) (M := M) n w1 w2.
Proof.
  intros Hh Hb Hs.
  destruct (unhook_plugin n (w_hooks w1) Hh) as (h' & z1 & E1 & U1 & O1).
  destruct (unsubscribe_plugin_subs n (w_bus w1) Hb) as (b' & z2 & E2 & U2).
  destruct (unserve_plugin n (w_services w1) Hs) as (s' & z3 & E3 & U3 & O3).
  exists (World (w_manager w1) h' (w_contexts w1) b' (w_threads w1) s' (w_rest w1)). split_and!.
  - unfold m_bind at 1, on_part at 1. change (part w1) with (w_hooks w1). rewrite E1. cbn [set_part world_hooks].
    unfold m_bind at 1, on_part at 1. cbn [part world_bus w_bus]. rewrite E2. cbn [set_part world_bus].
    unfold m_bind at 1, on_part at 1. cbn [part world_services w_services]. by rewrite E3.
  - done.
  - split; [exact U1| |exact U3]. intros x Hx. by apply U2 in Hx as [].
  - split; [exact O1| |exact O3]. intros x Hx Hn. by apply U2.
Qed.
End world.

Create HintDb keeps.
#[export] Hint Resolve leaves_ret leaves_raise leaves_lift leaves_bind leaves_try keeps_hooks keeps_contexts keeps_bus
  keeps_threads keeps_services keeps_get : keeps.

(** ** What methods do to the manager *)

Section relations.
Context {H V C F P S M X E : Type}.
Abbreviation W := (world H V C F P S M X E).
Variable R : relation (PluginManager.t X).
Context `{!PreOrder R}.

(** Whatever the method does, and what it does when it returns. *)
Definition every {B} (m : method W B) : Prop := ∀ w, R (w_manager w) (w_manager (m w).1).
Definition success {B} (m : method W B) : Prop := ∀ w w' b, m w = (w', Ok b) → R (w_manager w) (w_manager w').

Lemma every_keeps {B} (m : method W B) : keeps m → every m.
Proof. intros Hm w. rewrite Hm. reflexivity. Qed.
Lemma every_bind {B B'} (m : method W B) (k : B → method W B') : every m → (∀ b, every (k b)) → every (m_bind m k).
Proof.
  intros Hm Hk w. unfold m_bind. specialize (Hm w). destruct (m w) as [w' [a|e]]; cbn in *; [|done].
  etrans; [exact Hm|apply Hk].
Qed.
Lemma every_try {B} (m : method W B) (k : exn → method W B) : every m → (∀ e, every (k e)) → every (m_try m k).
Proof.
  intros Hm Hk w. unfold m_try. specialize (Hm w). destruct (m w) as [w' [a|e]]; cbn in *; [done|].
  destruct (is_exception e); [|done]. etrans; [exact Hm|apply Hk].
Qed.
Lemma success_every {B} (m : method W B) : every m → success m.
Proof. intros Hm w w' b Hw. specialize (Hm w). by rewrite Hw in Hm. Qed.
Lemma success_bind {B B'} (m : method W B) (k : B → method W B') :
  success m → (∀ b, success (k b)) → success (m_bind m k).
Proof.
  intros Hm Hk w w' b. unfold m_bind. destruct (m w) as [w1 [a|e]] eqn:Hw; [|done]. intros Hb.
  etrans; [by eapply Hm|by eapply Hk].
Qed.
Lemma success_raise {B} e : success (B := B) (m_raise e).
Proof. by intros w w' b. Qed.
Lemma success_try {B} (m : method W B) (k : exn → method W B) :
  success m → (∀ e w w' b, k e w ≠ (w', Ok b)) → success (m_try m k).
Proof.
  intros Hm Hk w w' b. unfold m_try. destruct (m w) as [w1 [a|e]] eqn:Hw; [intros [= <- <-]; by eapply Hm|].
  destruct (is_exception e); [|done]. intros Hb. by apply Hk in Hb.
Qed.
End relations.

Create HintDb manager.
#[export] Hint Resolve every_bind every_try success_bind success_raise : manager.

(** * The manager in the world *)

Section facts.
Context {H V A C F P S M X E : Type} `{EqDecision H} `{SetIteration}.
Abbreviation W := (world H V C F P S M X E).
Context (accepts_context : H → res bool) (handle : H → A → option nat → method W (option V)).
Context (call : C → Event.t P → method W ()) (call_filter : F → Event.t P → method W bool).
Context (arguments : pystr → option nat → A) (payload : notice → P) (ops : operations W X).
Context (now : W → Z) (uuid : W → pystr) (dumps : stored X → option pystr) (loads : pystr → option (stored X)).
Context (default_limits : list (pystr * X)) (partial : pystr) (find : pystr → W → option (Descriptor X)).
Import PluginManager.
Abbreviation mgr := (PluginManager.t X).

(** Handlers know the registries only. *)
Hypothesis handler_keeps : ∀ h a c, keeps (handle h a c).

Lemma context_of_keeps ctx : keeps (context_of (W := W) (V := V) ctx).
Proof. unfold context_of. apply leaves_bind; [auto with keeps|]. intros c. case_match; auto with keeps. Qed.

Lemma trigger_keeps n a ctx : keeps (trigger accepts_context handle n a ctx).
Proof.
  unfold trigger. apply leaves_bind; [auto with keeps|]. intros s. destruct (HookRegistry.get_hook n s) as [r|]; [|auto with keeps].
  unfold PluginHooks.trigger_hook. apply leaves_bind; [apply context_of_keeps|]. intros c. apply leaves_bind; [auto with keeps|]. intros h.
  generalize (@nil (option V)). induction (Hook.handlers h) as [|[[pr nm] f] hs IH]; intros acc; cbn [trigger_loop]; [auto with keeps|].
  apply leaves_bind; [|intros x; case_match; auto with keeps].
  unfold call_handler. auto with keeps.
Qed.

Lemma trigger_hook_keeps hook n i : keeps (trigger_hook accepts_context handle arguments hook n i).
Proof. apply leaves_bind; [apply trigger_keeps|auto with keeps]. Qed.

(** Publishing counts the event and starts a thread for it. *)
Lemma publish_spec type p (w : W) :
  ∃ e, publish call call_filter payload now uuid type p w =
    (World (w_manager w) (w_hooks w) (w_contexts w) (EventBus.count 1 0 0 0 (w_bus w))
       {| EventBus.tasks := EventBus.tasks (w_threads w) ++ [EventBus.Started e] |} (w_services w) (w_rest w), Ok ()).
Proof. eexists. reflexivity. Qed.

Lemma publish_keeps type p : keeps (publish call call_filter payload now uuid type p).
Proof. intros w. by destruct (publish_spec type p w) as [e ->]. Qed.

(** ** Loading *)

(** What loading leaves: the resolver and the cache, and every descriptor but for its
    state; what is loaded stays loaded. *)
Record loaded_more (m m' : mgr) : Prop := {
  lm_resolver : resolver m' = resolver m;
  lm_cache : cache m' = cache m;
  lm_plugins x : x ∈ (plugins m).*1 → x ∈ (plugins m').*1;
  lm_heap r d : deref m r = Some d → ∃ d', deref m' r = Some d' ∧ d_info d' = d_info d;
}.

#[local] Instance loaded_more_preorder : PreOrder loaded_more.
Proof.
  split; [by split; eauto|]. intros m1 m2 m3 [R1 C1 P1 H1] [R2 C2 P2 H2]. split; [congruence|congruence|auto|].
  intros r d Hd. destruct (H1 r d Hd) as (d' & Hd' & E1). destruct (H2 r d' Hd') as (d'' & Hd'' & E2). exists d''. by rewrite E2.
Qed.

(** A dependency is dealt with when it is loaded, or found to be disabled. *)
Definition settled (m : mgr) (x : pystr) : Prop :=
  x ∈ (plugins m).*1 ∨ ∃ r d, deref m r = Some d ∧ desc_name d = x ∧ d_state d = PluginState.DISABLED.

Definition named (r : nat) (n : pystr) (m : mgr) : Prop := ∃ d, deref m r = Some d ∧ desc_name d = n.

(** Loading the plugin [n], whose descriptor is [r], concerns no other plugin. *)
Definition only (r : nat) (n : pystr) (m m' : mgr) : Prop :=
  loaded_more m m' ∧ (named r n m → ∀ x, x ≠ n → settled m x → settled m' x).

Lemma loaded_more_named r n m m' : loaded_more m m' → named r n m → named r n m'.
Proof. intros Hm (d & Hd & <-). destruct (lm_heap _ _ Hm r d Hd) as (d' & ? & Hi). exists d'. unfold desc_name. by rewrite Hi. Qed.

#[local] Instance only_preorder r n : PreOrder (only r n).
Proof.
  split; [by split|]. intros m1 m2 m3 [L1 S1] [L2 S2]. split; [by etrans|]. intros Hn x Hx Hs.
  apply S2; [by eapply loaded_more_named|done|auto].
Qed.

Lemma deref_update r (f : Descriptor X → Descriptor X) (m : mgr) r' : deref (update r f m) r' = if decide (r = r') then f <$> deref m r' else deref m r'.
Proof.
  unfold deref, update. cbn. case_decide as Hr; [subst; apply list_lookup_alter_eq|by apply list_lookup_alter_ne].
Qed.

Lemma update_only r n (f : Descriptor X → Descriptor X) (m : mgr) : (∀ d, d_info (f d) = d_info d) → only r n m (update r f m).
Proof.
  intros Hf. split; [split; [done..|]|].
  - intros r' d Hd. rewrite deref_update, Hd. case_decide; cbn; eauto.
  - intros (d & Hd & Hn) x Hx [Hp|(r' & d' & Hd' & Hn' & Hs')]; [by left|right]. exists r', d'. rewrite deref_update.
    case_decide as Hr; [|done]. subst r'. congruence.
Qed.

Lemma modify_every R (f : mgr → mgr) : (∀ m, R m (f m)) → every R (modify (W := W) f).
Proof. intros Hf w. apply Hf. Qed.

Lemma configs_every r n {B} (f : method (PluginConfigManager.t X) B) : every (only r n) (on_configs (W := W) f).
Proof.
  intros w. unfold on_configs, on_part. cbn. destruct (f _) as [c b]. cbn. split; [split; cbn; eauto|]. intros _ x _ Hx. exact Hx.
Qed.

Lemma watcher_every r n {B} (f : method PluginHotReload.t B) : every (only r n) (on_watcher (W := W) (X := X) f).
Proof.
  intros w. unfold on_watcher, on_part. cbn. destruct (f _) as [c b]. cbn. split; [split; cbn; eauto|]. intros _ x _ Hx. exact Hx.
Qed.

Lemma with_desc_every R `{!PreOrder R} {B} r (k : Descriptor X → method W B) :
  (∀ d, every R (k d)) → every R (with_desc r k).
Proof.
  intros Hk. unfold with_desc, manager. apply every_bind; [done|apply every_keeps; auto with keeps|]. intros m.
  case_match; [apply Hk|apply every_keeps; auto with keeps].
Qed.

Hypothesis create_keeps : ∀ d c, keeps (op_create ops d c).
Hypothesis initialize_keeps : ∀ i, keeps (op_initialize ops i).

Abbreviation finish_load := (finish_load accepts_context handle call call_filter arguments payload ops now uuid).
Abbreviation load_inprocess := (load_inprocess accepts_context handle call call_filter arguments payload ops now uuid).
Abbreviation load_isolated := (load_isolated accepts_context handle call call_filter arguments payload now uuid).
Abbreviation load_configured :=
  (load_configured accepts_context handle call call_filter arguments payload ops now uuid loads default_limits).
Abbreviation load_plugin :=
  (load_plugin accepts_context handle call call_filter arguments payload ops now uuid loads default_limits find).

Lemma plugins_only r n (m : mgr) : only r n m (with_plugins (dict_set (plugins m) n r) m).
Proof.
  assert (∀ x, x ∈ (plugins m).*1 → x ∈ (dict_set (plugins m) n r).*1) as Hp.
  { intros x Hx. rewrite dict_set_keys. case_decide; [done|]. apply elem_of_app. by left. }
  split; [split; cbn; eauto|]. intros _ x _ [Hx|Hx]; [left; by apply Hp|by right].
Qed.

(** The rest of [finish_load] once the plugin is stored. *)
Lemma after_store_every r n i :
  every (only r n)
    (let! m := manager in
     let! _ := (if enable_hot_reload m then with_desc r (λ d, on_watcher (PluginHotReload.watch n (d_module_path d)))
                else m_ret ()) in
     let! _ := trigger_hook accepts_context handle arguments (str "plugin.after_load") n (Some i) in
     let! _ := with_desc r (λ d, publish call call_filter payload now uuid "plugin.loaded"
                                   (NLoaded n (d_version (d_info d)) (d_path d))) in
     m_ret (Some i)).
Proof.
  apply every_bind; [apply _|apply every_keeps; [apply _|auto with keeps]|]. intros m.
  apply every_bind; [apply _| |intros _; apply every_bind; [apply _| |intros _; apply every_bind; [apply _| |]]].
  - destruct (enable_hot_reload m); [|apply every_keeps; [apply _|auto with keeps]].
    apply with_desc_every; [apply _|]. intros d. apply watcher_every.
  - apply every_keeps; [apply _|apply trigger_hook_keeps].
  - apply with_desc_every; [apply _|]. intros d. apply every_keeps; [apply _|apply publish_keeps].
  - intros _. apply every_keeps; [apply _|auto with keeps].
Qed.

Lemma finish_load_every r n c i : every (only r n) (finish_load r n c i).
Proof.
  apply every_bind; [apply _|apply modify_every; intros m; by apply update_only|]. intros _.
  apply every_bind; [apply _|apply every_keeps; [apply _|apply initialize_keeps]|]. intros _.
  apply every_bind; [apply _|apply modify_every; intros m; apply plugins_only|]. intros _. apply after_store_every.
Qed.

Lemma bind_inv {B B'} (m : method W B) (k : B → method W B') w w' b :
  m_bind m k w = (w', Ok b) → ∃ w1 a, m w = (w1, Ok a) ∧ k a w1 = (w', Ok b).
Proof. unfold m_bind. destruct (m w) as [w1 [a|e]]; [|done]. eauto. Qed.

(** What has been loaded when [finish_load] returns. *)
Lemma finish_load_stored r n c i w w' b : finish_load r n c i w = (w', Ok b) → n ∈ (plugins (w_manager w')).*1.
Proof.
  intros (w1 & _ & _ & (w2 & _ & _ & (w3 & [] & [= <-] & Hl)%bind_inv)%bind_inv)%bind_inv.
  apply (success_every _ _ (after_store_every r n i)) in Hl as [Hm _].
  apply (lm_plugins _ _ Hm). cbn. apply dict_set_key. by left.
Qed.

Lemma load_inprocess_every r d c : every (only r (desc_name d)) (load_inprocess r d c).
Proof.
  apply every_try; [apply _| |].
  - apply every_bind; [apply _|apply every_keeps; [apply _|apply create_keeps]|]. intros i. apply finish_load_every.
  - intros e. case_decide; [apply every_keeps; [apply _|auto with keeps]|].
    apply every_bind; [apply _|apply modify_every; intros m; by apply update_only|].
    intros _. apply every_keeps; [apply _|auto with keeps].
Qed.

(** A process is never started, so an isolated plugin is never loaded. *)
Lemma load_isolated_fails r d c w :
  load_isolated r d c w =
    ((modify (update r (desc_error IsolationFailed)) (modify (update r (desc_config c)) w).1).1, Err PluginLoadError).
Proof. done. Qed.

Lemma load_isolated_every r n d c : every (only r n) (load_isolated r d c).
Proof.
  intros w. rewrite load_isolated_fails. etrans; [by apply (update_only r n (desc_config c))|].
  by apply (update_only r n (desc_error IsolationFailed)).
Qed.

(** The state after the configuration was read, with the descriptor. *)
Lemma load_config_named r n c w :
  named r n (w_manager w) →
  ∃ w1 saved d, on_configs (PluginConfigManager.load_config loads default_limits n) w = (w1, Ok saved) ∧
    only r n (w_manager w) (w_manager w1) ∧ deref (w_manager w1) r = Some d ∧ desc_name d = n ∧
    load_configured r n c w =
      (let c := match saved, c with
                | Some s, Some c => PluginConfigManager.merge_with_default c s
                | Some s, None => s
                | None, Some c => c
                | None, None => d_config d
                end in
       if negb (PluginConfig.enabled c) then
         let! _ := modify (update r (desc_state PluginState.DISABLED)) in m_ret None
       else
         let! _ := m_lift (check_api_version (d_min_api_version d)) in
         let! m := manager in
         if bool_decide (PluginConfigManager.or_else (PluginConfig.isolation c) (PluginConfig.isolation (d_config d)) =
                         Some (str "subprocess")) || enable_isolation m
         then load_isolated r d c
         else load_inprocess r d c) w1.
Proof.
  intros Hn. pose proof (configs_every r n (PluginConfigManager.load_config loads default_limits n) w) as Ho.
  destruct (on_configs _ w) as [w1 [saved|e]] eqn:Hw.
  2:{ exfalso. revert Hw. unfold on_configs, on_part, PluginConfigManager.load_config. cbn. by destruct (_ ≫= _). }
  cbn in Ho. destruct (loaded_more_named r n _ _ (proj1 Ho) Hn) as (d & Hd & Hdn).
  exists w1, saved, d. split_and!; [done..|]. unfold PluginManager.load_configured. rewrite (m_bind_ok _ _ _ _ _ Hw).
  unfold with_desc, manager. rewrite (m_bind_ok _ _ _ _ _ (on_part_get w1)). change (part w1) with (w_manager w1). by rewrite Hd.
Qed.

Lemma load_configured_only r n c w :
  named r n (w_manager w) → only r n (w_manager w) (w_manager (load_configured r n c w).1).
Proof.
  intros Hn. destruct (load_config_named r n c w Hn) as (w1 & saved & d & _ & Ho & Hd & Hdn & ->). etrans; [exact Ho|].
  cbv zeta. set (c' := match saved with Some _ => _ | None => _ end). clearbody c'. clear Ho Hd. revert w1.
  change (every (only r n) (if negb (PluginConfig.enabled c') then
         let! _ := modify (update r (desc_state PluginState.DISABLED)) in m_ret None
       else
         let! _ := m_lift (check_api_version (d_min_api_version d)) in
         let! m := manager in
         if bool_decide (PluginConfigManager.or_else (PluginConfig.isolation c') (PluginConfig.isolation (d_config d)) =
                         Some (str "subprocess")) || enable_isolation m
         then load_isolated r d c'
         else load_inprocess r d c')).
  destruct (negb _).
  - apply every_bind; [apply _|apply modify_every; intros m; by apply update_only|].
    intros _. apply every_keeps; [apply _|auto with keeps].
  - apply every_bind; [apply _|apply every_keeps; [apply _|auto with keeps]|]. intros _.
    apply every_bind; [apply _|apply every_keeps; [apply _|auto with keeps]|]. intros m.
    destruct (_ || _); [apply load_isolated_every|]. rewrite <-Hdn. apply load_inprocess_every.
Qed.

Lemma load_configured_settles r n c w w' b :
  named r n (w_manager w) → load_configured r n c w = (w', Ok b) → settled (w_manager w') n.
Proof.
  intros Hn. destruct (load_config_named r n c w Hn) as (w1 & saved & d & _ & _ & Hd & Hdn & ->).
  cbv zeta. set (c' := match saved with Some _ => _ | None => _ end). destruct (negb _).
  - intros [= <- <-]. right. exists r, (desc_state PluginState.DISABLED d). split_and!; [|done..].
    change (deref (update r (desc_state PluginState.DISABLED) (w_manager w1)) r = Some (desc_state PluginState.DISABLED d)).
    by rewrite deref_update, decide_True, Hd.
  - intros (w2 & ? & ? & (w3 & m & _ & Hl)%bind_inv)%bind_inv. destruct (_ || _); [by rewrite load_isolated_fails in Hl|].
    left. unfold PluginManager.load_inprocess, m_try in Hl.
    destruct (m_bind _ _ w3) as [w4 [i|e]] eqn:Hb.
    + injection Hl as <- <-. apply bind_inv in Hb as (w5 & i' & _ & Hf). rewrite <-Hdn. by eapply finish_load_stored.
    + destruct (is_exception e); [|done]. case_decide; [done|]. by apply bind_inv in Hl as (? & ? & _ & ?).
Qed.

(** ** Loading the dependencies first *)

Section recursion.
Variable ps : list (pystr * PluginDescriptor).
Variable gfuel : nat.
Hypothesis enough_nodes : (size (DependencyGraph.nodes (PluginDependencyResolver.full_graph ps)) < gfuel)%nat.
Hypothesis enough_plugins : (length ps < gfuel)%nat.
Hypothesis acyclic : ∀ x, ¬ tc (wants ps) x x.

(** Every registered plugin has its descriptor in the cache. *)
Definition known (m : mgr) : Prop :=
  resolver m = ps ∧ ∀ n, registered ps n → ∃ r, dict_get (cache m) n = Some r ∧ named r n m.

Lemma known_more m m' : loaded_more m m' → known m → known m'.
Proof.
  intros Hm [Hr Hk]. split; [by rewrite (lm_resolver _ _ Hm)|]. intros n Hn. destruct (Hk n Hn) as (r & Hc & Hd).
  exists r. rewrite (lm_cache _ _ Hm). split; [done|]. by eapply loaded_more_named.
Qed.

Lemma get_load_order_total :
  ∃ r, PluginDependencyResolver.get_load_order gfuel ps = Some r ∧ ∀ e, r = Err e → e = PluginDependencyError.
Proof.
  pose proof (full_graph_wf ps) as Hwf. unfold PluginDependencyResolver.get_load_order, PluginDependencyResolver.resolve_all.
  destruct (has_circular_dependency_spec _ Hwf gfuel ltac:(lia)) as (c & -> & Hc). cbn [mbind option_bind].
  destruct c as [[|x l]|]; [by destruct Hc as (? & ? & ? & _)|eexists; split; [done|congruence]|].
  destruct (check_all_spec (λ p : pystr * PluginDescriptor,
    PluginDependencyResolver.check_all (PluginDependencyResolver.check_dependency ps) (dependencies p.2)) ps)
    as [(-> & _)|(p & e & _ & Hp & ->)]; cbn [mbind option_bind res_bind].
  - destruct (topological_sort_spec _ Hwf gfuel enough_nodes) as (r & -> & Hr). exists r. split; [done|]. intros e ->. apply Hr.
  - eexists. split; [done|]. intros e' [= <-].
    destruct (check_all_spec (PluginDependencyResolver.check_dependency ps) (dependencies p.2)) as [(Hok & _)|(y & e' & _ & Hy & Hok)];
      [congruence|]. apply check_dependency_error in Hy. congruence.
Qed.

Lemma dependency_order_spec n :
  ∃ r, dependency_order gfuel n ps = Some r ∧
    match r with
    | Ok l => (∀ x, x ∈ l → rtc (wants ps) n x ∧ registered ps x) ∧ (∀ x, rtc (requires ps) n x → x ∈ l)
    | Err e => e = PluginDependencyError
    end.
Proof.
  unfold dependency_order. destruct get_load_order_total as (o & -> & Ho). cbn [mbind option_bind].
  destruct o as [order|e]; [|exists (Err e); split; [done|by apply Ho]].
  destruct (resolve_spec ps gfuel n enough_plugins) as (r & -> & Hr). cbn [mbind option_bind].
  destruct r as [g|e]; [|by exists (Err e)]. destruct Hr as (Hwf & Hreach & Hreq).
  assert (size (DependencyGraph.nodes g) < gfuel)%nat as Hsize.
  { eapply Nat.le_lt_trans; [|exact enough_plugins]. etrans; [|apply registered_size]. apply subseteq_size.
    intros x Hx. apply elem_of_list_to_set. by apply Hreach. }
  destruct (topological_sort_spec g Hwf gfuel Hsize) as (l & -> & Hl). exists l. split; [done|].
  destruct l as [l|e]; [|apply Hl]. destruct Hl as (_ & _ & _ & Hin). split; intros x Hx.
  - by apply Hreach, Hin.
  - by apply Hin, Hreq.
Qed.

(** What a load of [n] gives, when [deps] is what it must deal with. *)
Definition load_result (n : pystr) (deps : pystr → Prop) (w : W) {B} (o : option (W * res B)) : Prop :=
  ∃ w' r, o = Some (w', r) ∧ loaded_more (w_manager w) (w_manager w') ∧
    match r with
    | Ok _ => (∀ x, settled (w_manager w) x → settled (w_manager w') x) ∧ ∀ x, deps x → settled (w_manager w') x
    | Err _ => True
    end.

Lemma load_each_result load n l :
  (∀ d w, d ∈ l → d ≠ n → known (w_manager w) → load_result d (eq d) w (load d w)) →
  ∀ w, known (w_manager w) → load_result n (λ x, x ∈ l ∧ x ≠ n) w (load_each load n l w).
Proof.
  induction l as [|d l IH]; intros Hl w Hw; cbn [load_each].
  { exists w, (Ok ()). split_and!; [done|done|done|]. by intros x [?%elem_of_nil _]. }
  assert (∀ d w, d ∈ l → d ≠ n → known (w_manager w) → load_result d (eq d) w (load d w)) as Hl'.
  { intros d' w' Hd'. apply Hl. by right. }
  case_decide as Hd.
  { destruct (IH Hl' w Hw) as (w' & r & Hr & Hm & Hs). exists w', r. split_and!; [done..|]. destruct r; [|done].
    destruct Hs as [S1 S2]. split; [done|]. intros x [[->|Hx]%elem_of_cons Hne]; [done|auto]. }
  destruct (is_loaded d (part w)) eqn:Hload.
  { destruct (IH Hl' w Hw) as (w' & r & Hr & Hm & Hs). exists w', r. split_and!; [done..|]. destruct r; [|done].
    destruct Hs as [S1 S2]. split; [done|]. intros x [[->|Hx]%elem_of_cons Hne]; [|auto].
    apply S1. left. by apply bool_decide_eq_true in Hload. }
  destruct (Hl d w ltac:(left) Hd Hw) as (w1 & r1 & -> & Hm1 & Hs1). destruct r1 as [b|e]; [|by exists w1, (Err e)].
  destruct Hs1 as [S1 S1']. destruct (IH Hl' w1 (known_more _ _ Hm1 Hw)) as (w' & r & Hr & Hm & Hs).
  exists w', r. split_and!; [done|by etrans|]. destruct r; [|done]. destruct Hs as [S2 S2']. split; [auto|].
  intros x [[->|Hx]%elem_of_cons Hne]; [|auto]. apply S2. auto.
Qed.

Lemma allocate_more d (m : mgr) : loaded_more m (allocate d m).1.
Proof.
  split; [done..|auto|]. intros r d' Hd. exists d'. split; [|done]. unfold deref in *. cbn. by apply lookup_app_l_Some.
Qed.

Lemma dependency_failure_result r n deps w (o : option (W * res ())) :
  load_result n deps w o → load_result n deps w (dependency_failure r o).
Proof.
  intros (w' & x & -> & Hm & Hs). unfold dependency_failure. destruct x as [[]|e]; [by exists w', (Ok ())|].
  destruct e; try (by eexists _, _). eexists _, (Err PluginDependencyError). split_and!; [done| |done].
  etrans; [exact Hm|]. by apply (update_only r n (desc_error (Raised PluginDependencyError)) (w_manager w')).
Qed.

Lemma path_length path : NoDup path → (∀ y, y ∈ path → registered ps y) → (length path <= length ps)%nat.
Proof.
  intros Hd Hp. rewrite <-(length_fmap fst ps). apply submseteq_length, NoDup_submseteq; [done|]. intros x Hx. by apply Hp.
Qed.

(** The descriptor that [load_plugin] works on. *)
Lemma locate_spec n (w : W) :
  known (w_manager w) →
  ∃ w1 o, locate find n w = (w1, Ok o) ∧ loaded_more (w_manager w) (w_manager w1) ∧
    (∀ x, settled (w_manager w) x → settled (w_manager w1) x) ∧
    ∀ r, o = Some r → registered ps n → named r n (w_manager w1).
Proof.
  intros [_ Hk]. unfold locate, manager. rewrite (m_bind_ok _ _ _ _ _ (on_part_get w)). change (part w) with (w_manager w).
  destruct (dict_get (cache (w_manager w)) n) as [r|] eqn:Hc.
  { exists w, (Some r). split_and!; [done|done|done|]. intros r' [= <-] Hn. destruct (Hk n Hn) as (r' & Hc' & Hd). congruence. }
  assert (¬ registered ps n) as Hno by (intros (r & Hr & _)%Hk; congruence).
  destruct (find n w) as [d|]; [|by exists w, None].
  eexists _, _. split; [reflexivity|]. split_and!; [exact (allocate_more d (w_manager w))| |done].
  intros x [Hx|(r & d' & Hd & Hs)]; [by left|right]. exists r, d'. split; [|done]. by apply lookup_app_l_Some.
Qed.

Lemma load_plugin_result fuel : ∀ path n c w,
  known (w_manager w) → NoDup path → (∀ y, y ∈ path → registered ps y ∧ tc (wants ps) y n) →
  (length ps < fuel + length path)%nat →
  load_result n (λ x, x = n ∨ get_plugin n (w_manager w) = None ∧ rtc (requires ps) n x) w (load_plugin gfuel fuel n c w).
Proof.
  induction fuel as [|fuel IH]; intros path n c w Hk Hd Hp Hf.
  { pose proof (path_length path Hd (λ y Hy, proj1 (Hp y Hy))). lia. }
  cbn [PluginManager.load_plugin]. change (part w) with (w_manager w). destruct (get_plugin n (w_manager w)) as [i|] eqn:Hg.
  { exists w, (Ok (Some i)). split_and!; [done|done|done|]. intros x [->|[? _]]; [left|done].
    unfold get_plugin, get_plugin_descriptor in Hg. apply dec_stable. rewrite <-dict_get_None. intros Hn. by rewrite Hn in Hg. }
  destruct (locate_spec n w Hk) as (w1 & o & -> & Hm1 & S1 & Hr). destruct o as [r|].
  2:{ by exists w1, (Err PluginLoadError). }
  pose proof (trigger_hook_keeps (str "plugin.before_load") n None w1) as Ht.
  destruct (trigger_hook _ _ _ _ _ _ w1) as [w2 [[]|e]]; cbn in Ht; rewrite <-Ht in *; [|by exists w2, (Err e)].
  pose proof (known_more _ _ Hm1 Hk) as Hk2. change (part w2) with (w_manager w2). rewrite (proj1 Hk2).
  destruct (dependency_order_spec n) as (x & -> & Hx).
  assert (registered ps n → load_result n (λ x, x ≠ n ∧ rtc (requires ps) n x) w2
    (match x with Err e => Some (w2, Err e) | Ok deps => load_each (λ d, load_plugin gfuel fuel d None) n deps w2 end)) as Hdeps.
  { intros Hn. destruct x as [l|e]; [|by exists w2, (Err e)]. destruct Hx as [Hreach Hreq].
    destruct (load_each_result (λ d, load_plugin gfuel fuel d None) n l) with w2 as (w' & r' & Ho & Hm & Hs); [|done|].
    - intros d w' Hdl Hne Hk'. destruct (Hreach d Hdl) as [Hnd _].
      assert (tc (wants ps) n d) as Hnd' by (apply rtc_tc in Hnd as [?|?]; [congruence|done]).
      destruct (IH (path ++ [n]) d None w' Hk') as (w'' & r' & Ho & Hm & Hs).
      + apply NoDup_app. split_and!; [done| |apply NoDup_singleton]. intros y Hy ->%list_elem_of_singleton.
        by apply (acyclic n), Hp.
      + intros y [Hy| ->%list_elem_of_singleton]%elem_of_app; [|done]. destruct (Hp y Hy). split; [done|by etrans].
      + rewrite length_app. cbn. lia.
      + exists w'', r'. split_and!; [done..|]. destruct r'; [|done]. destruct Hs as [Hs Hs']. split; [done|].
        intros y <-. apply Hs'. by left.
    - exists w', r'. split_and!; [done..|]. destruct r'; [|done]. destruct Hs as [Hs Hs']. split; [done|].
      intros y [Hne Hy]. apply Hs'. split; [by apply Hreq|done]. }
  destruct (decide (n ∈ ps.*1)) as [Hn|Hn].
  2:{ assert (∃ e, x = Err e) as [e ->].
      { destruct x as [l|e]; [|by exists e]. destruct Hx as [Hreach Hreq]. destruct Hn. apply Hreach, Hreq. done. }
      rewrite Hx. eexists _, _. split; [reflexivity|]. split; [|done]. etrans; [exact Hm1|].
      by apply (update_only r n (desc_error (Raised PluginDependencyError)) (w_manager w2)). }
  specialize (Hr r eq_refl Hn).
  assert (load_result n (λ x, x ≠ n ∧ rtc (requires ps) n x) w2 (dependency_failure r
    (match x with Err e => Some (w2, Err e) | Ok deps => load_each (λ d, load_plugin gfuel fuel d None) n deps w2 end)))
    as (w3 & r3 & Ho & Hm3 & Hs3) by (by apply dependency_failure_result, Hdeps).
  match goal with |- load_result _ _ _ (then_do ?o _) => change o with (dependency_failure r
    (match x with Err e => Some (w2, Err e) | Ok deps => load_each (λ d, load_plugin gfuel fuel d None) n deps w2 end)) end.
  rewrite Ho. cbn [then_do]. destruct r3 as [[]|e]; [|exists w3, (Err e); split_and!; [done|by etrans|done]].
  destruct Hs3 as [S3 D3]. pose proof (loaded_more_named _ _ _ _ Hm3 Hr) as Hr3.
  pose proof (load_configured_only r n c w3 Hr3) as [Hm4 S4]. destruct (load_configured r n c w3) as [w4 r4] eqn:Hl.
  exists w4, r4. split_and!; [done|etrans; [exact Hm1|]; by etrans|]. destruct r4 as [b|e]; [|done].
  pose proof (load_configured_settles r n c w3 w4 b Hr3 Hl) as Hn4.
  assert (∀ y, settled (w_manager w3) y → settled (w_manager w4) y) as S5.
  { intros y Hy. destruct (decide (y = n)) as [->|Hne]; [done|]. by apply S4. }
  split; [auto|]. intros y [->|[_ Hy]]; [done|]. destruct (decide (y = n)) as [->|Hne]; [done|]. auto.
Qed.
End recursion.

(** ** Enabling what was disabled *)

Abbreviation unload_plugin :=
  (unload_plugin accepts_context handle call call_filter arguments payload ops now uuid).
Abbreviation disable_plugin :=
  (disable_plugin accepts_context handle call call_filter arguments payload ops now uuid dumps partial).
Abbreviation enable_plugin :=
  (enable_plugin accepts_context handle call call_filter arguments payload ops now uuid dumps loads default_limits
     partial find).

(** [n] is neither loaded nor known to the resolver. *)
Definition gone (n : pystr) (m : mgr) : Prop := dict_get (plugins m) n = None ∧ dict_get (resolver m) n = None.

Definition stays_gone (n : pystr) (m m' : mgr) : Prop := gone n m → gone n m'.

#[local] Instance stays_gone_preorder n : PreOrder (stays_gone n).
Proof. unfold stays_gone. split; [by intros m Hg|]. intros m1 m2 m3 H1 H2 Hg. auto. Qed.

Lemma configs_stays_gone n {B} (f : method (PluginConfigManager.t X) B) : every (stays_gone n) (on_configs (W := W) f).
Proof. intros w Hg. unfold on_configs, on_part. cbn. by destruct (f _). Qed.

Lemma unload_plugin_gone n w w' b : unload_plugin n w = (w', Ok b) → gone n (w_manager w').
Proof.
  intros (w1 & ? & _ & (w2 & ? & _ & (w3 & ? & _ & (w4 & ? & Hm & [= <- _])%bind_inv)%bind_inv)%bind_inv)%bind_inv.
  injection Hm as <- _. split; cbn; unfold PluginDependencyResolver.unregister_plugin; by rewrite dict_get_del, decide_True.
Qed.

Lemma disable_plugin_gone n w w' b : disable_plugin n w = (w', Ok b) → gone n (w_manager w').
Proof.
  intros (w1 & ? & _ & (w2 & ? & Hu & Hr)%bind_inv)%bind_inv. apply unload_plugin_gone in Hu.
  revert Hu. revert Hr. set (rest := m_bind _ _).
  assert (every (stays_gone n) rest) as Hrest; [|intros Hr; by apply (success_every _ _ Hrest) in Hr].
  apply every_bind; [apply _|apply configs_stays_gone|]. intros _.
  apply every_bind; [apply _|apply every_keeps; [apply _|apply trigger_hook_keeps]|]. intros _.
  apply every_bind; [apply _|apply every_keeps; [apply _|apply publish_keeps]|]. intros _.
  apply every_keeps; [apply _|auto with keeps].
Qed.

(** A plugin that the resolver does not know has no order of dependencies. *)
Lemma dependency_order_gone gfuel n ps l : dict_get ps n = None → dependency_order gfuel n ps ≠ Some (Ok l).
Proof.
  intros Hn. unfold dependency_order. destruct (PluginDependencyResolver.get_load_order gfuel ps) as [[order|e]|]; [|done..].
  cbn [mbind option_bind]. unfold PluginDependencyResolver.resolve. destruct gfuel as [|g]; [done|].
  cbn [PluginDependencyResolver.resolve_recursive]. rewrite decide_False by (cbn; apply not_elem_of_empty). by rewrite Hn.
Qed.

Lemma load_plugin_gone gfuel fuel n c w w' r :
  gone n (w_manager w) → load_plugin gfuel fuel n c w = Some (w', r) → (∃ e, r = Err e) ∧ gone n (w_manager w').
Proof.
  intros Hg. destruct fuel as [|fuel]; [done|]. cbn [PluginManager.load_plugin]. change (part w) with (w_manager w).
  unfold get_plugin, get_plugin_descriptor. rewrite (proj1 Hg). cbn [mbind option_bind].
  assert (gone n (w_manager (locate find n w).1)) as Hl.
  { unfold locate, manager. rewrite (m_bind_ok _ _ _ _ _ (on_part_get w)). destruct (dict_get _ n); [done|]. by destruct (find n w). }
  destruct (locate find n w) as [w1 [[r0|]|e]]; cbn in Hl; [|intros [= <- <-]; eauto..].
  pose proof (trigger_hook_keeps (str "plugin.before_load") n None w1) as Ht.
  destruct (trigger_hook _ _ _ _ _ _ w1) as [w2 [[]|e]]; cbn in Ht; rewrite <-Ht in Hl; [|intros [= <- <-]; eauto].
  change (part w2) with (w_manager w2).
  destruct (dependency_order gfuel n (resolver (w_manager w2))) as [[l|e]|] eqn:Hd; [|..|done].
  { by apply dependency_order_gone in Hd; [|apply Hl]. }
  assert (∃ w3, dependency_failure r0 (Some (w2, Err e)) = Some (w3, Err e) ∧ gone n (w_manager w3)) as (w3 & -> & Hw3).
  { destruct e; by eexists. }
  intros [= <- <-]. eauto.
Qed.

Lemma enable_plugin_gone gfuel fuel n w w' r :
  gone n (w_manager w) → enable_plugin gfuel fuel n w = Some (w', r) → r ≠ Ok true ∧ gone n (w_manager w').
Proof.
  intros Hg. unfold PluginManager.enable_plugin. set (before := m_bind _ _).
  assert (every (stays_gone n) before) as Hb.
  { apply every_bind; [apply _|apply every_keeps; [apply _|apply trigger_hook_keeps]|]. intros _. apply configs_stays_gone. }
  specialize (Hb w Hg). destruct (before w) as [w1 [[c|]|e]]; cbn in Hb; [|by intros [= <- <-]..].
  destruct (load_plugin gfuel fuel n None w1) as [[w2 [i|e]]|] eqn:Hl; [| |done];
    apply load_plugin_gone in Hl as [[e' He] Hg2]; [|done|..|done].
  - done.
  - intros [= <- <-]. split; [by destruct (is_exception e)|done].
Qed.
End facts.

(** * Examples *)

(** Plugins whose instances are numbered as they are made; the rest of the world counts
    them and logs the instances that are stopped. *)
Module ManagerExample.
Import PluginManager.
Abbreviation W := (world Z Z Z Z notice Z Z Z (nat * list nat)).

Definition handle (h : Z) (n : pystr) (c : option nat) : method W (option Z) := m_ret None.
Definition call (c : Z) (e : Event.t notice) : method W () := m_ret ().
Definition call_filter (f : Z) (e : Event.t notice) : method W bool := m_ret true.

Definition with_rest (e : nat * list nat) (w : W) : W :=
  World (w_manager w) (w_hooks w) (w_contexts w) (w_bus w) (w_threads w) (w_services w) e.

Definition create (d : Descriptor Z) (c : PluginConfig.t Z) : method W nat := λ w,
  (with_rest (Datatypes.S (w_rest w).1, (w_rest w).2) w, Ok (w_rest w).1).
Definition log_stop (i : nat) : method W () := λ w, (with_rest ((w_rest w).1, (w_rest w).2 ++ [i]) w, Ok ()).

Definition ops : operations W Z := {|
  op_create := create; op_initialize _ := m_ret (); op_start _ := m_ret (); op_stop := log_stop;
  op_cleanup _ := m_raise RuntimeError; op_hot_reload _ := m_ret (); op_config_change _ _ _ := m_ret () |}.

Definition config (n : pystr) (enabled : bool) : PluginConfig.t Z := {|
  PluginConfig.name := n; PluginConfig.enabled := enabled; PluginConfig.settings := []; PluginConfig.overrides := [];
  PluginConfig.isolation := None; PluginConfig.resource_limits := [] |}.

Definition desc (n : string) (enabled : bool) (required optional : list string) : Descriptor Z := {|
  d_info := {| d_name := str n; d_version := str "1.0.0"; dependencies := (λ x, (str x, [])) <$> required;
               optional_dependencies := (λ x, (str x, [])) <$> optional |};
  d_path := str n; d_module_path := str "plugin.py"; d_min_api_version := str "1.0.0"; d_config := config (str n) enabled;
  d_instance := None; d_state := PluginState.CREATED; d_error := None; d_start_time := None; d_isolated := false |}.

(** A manager that has scanned a directory. *)
Definition start (found : list (Descriptor Z)) : W :=
  World
    (discover_plugins found false {|
       heap := []; cache := []; resolver := []; plugins := [];
       config_manager := {| PluginConfigManager.configs := (λ d, (desc_name d, d_config d)) <$> found;
                            PluginConfigManager.files := ∅ |};
       hot_reload := PluginHotReload.init_watcher; enable_hot_reload := false; enable_isolation := false;
       initialized := false; started := false |}).1
    HookRegistry.init_registry {| dicts := [] |} EventBus.init_bus {| EventBus.tasks := [] |} ServiceRegistry.init_registry
    (0%nat, []).

Definition load := load_plugin (λ _ : Z, Ok false) handle call call_filter (λ n _, n) (λ p, p) ops (λ _, 0) (λ _, str "u")
  (λ _, None) [] (λ _ _, None) 9.
Definition disable := disable_plugin (λ _ : Z, Ok false) handle call call_filter (λ n _, n) (λ p, p) ops (λ _, 0)
  (λ _, str "u") (λ _, Some []) [].
Definition enable := enable_plugin (λ _ : Z, Ok false) handle call call_filter (λ n _, n) (λ p, p) ops (λ _, 0) (λ _, str "u")
  (λ _, Some []) (λ _, None) [] [] (λ _ _, None) 9 9.
Definition cleanup := cleanup_plugin call call_filter (λ p, p) ops (λ _, 0) (λ _, str "u").
Definition stop_all := stop_all_plugins (λ _ : Z, Ok false) handle call call_filter (λ n _, n) (λ p, p) ops (λ _, 0)
  (λ _, str "u") 9.

(** The world after a load that returned. *)
Definition after {B} (o : option (W * res B)) (w : W) : W := default w (fst <$> o).

Definition two : W := start [desc "app" true ["db"] []; desc "db" true [] []]%string.
Definition loaded : W := after (load 9 (str "app") None two) two.

Example dependencies_first :
  (snd <$> load 9 (str "app") None two) = Some (Ok (Some 1%nat)) ∧ plugins (w_manager loaded) = [(str "db", 1%nat); (str "app", 0%nat)].
Proof. by vm_compute. Qed.

(** Each plugin is stopped twice: in the reverse order of loading, and then again. *)
Example stopped_twice : (w_rest (after (stop_all loaded) loaded)).2 = [1; 0; 0; 1]%nat.
Proof. by vm_compute. Qed.

(** A plugin is loaded although what it requires is disabled. *)
Example disabled_dependency :
  let w := start [desc "app" true ["db"] []; desc "db" false [] []]%string in
  (snd <$> load 9 (str "app") None w) = Some (Ok (Some 0%nat)) ∧
  is_loaded (str "db") (w_manager (after (load 9 (str "app") None w) w)) = false.
Proof. by vm_compute. Qed.

(** One plugin with a requirement that is not met, and no other can be loaded. *)
Example broken_plugin :
  let w := start [desc "app" true [] []; desc "other" true ["gone"] []]%string in
  (snd <$> load 9 (str "app") None w) = Some (Err PluginDependencyError).
Proof. by vm_compute. Qed.

Definition mutual : W := start [desc "a" true [] ["b"]; desc "b" true [] ["a"]]%string.
End ManagerExample.

(** * Properties *)

Module Properties.
Import PluginManager ManagerExample.

(** C29: [load_plugin] ends, when no plugin requires or wants itself, however indirectly: the
    depth of its recursion is at most the number of registered plugins. What is loaded
    stays loaded. When it returns for a plugin that was not loaded, every plugin that the
    plugin requires, directly or not, is loaded or was found to be disabled. Handlers,
    constructors and [on_initialize] may use the hooks, the events and the services. *)
Theorem manager_load_dependencies {H V A C F P S M X E} `{SetIteration} accepts_context handle call call_filter
    arguments payload (ops : operations (world H V C F P S M X E) X) now uuid loads limits find gfuel fuel n c w :
  (∀ h (a : A) ctx, keeps (handle h a ctx)) → (∀ d c, keeps (op_create ops d c)) → (∀ i, keeps (op_initialize ops i)) →
  known (resolver (w_manager w)) (w_manager w) → (∀ x, ¬ tc (wants (resolver (w_manager w))) x x) →
  (size (DependencyGraph.nodes (PluginDependencyResolver.full_graph (resolver (w_manager w)))) < gfuel)%nat →
  (length (resolver (w_manager w)) < gfuel)%nat → (length (resolver (w_manager w)) < fuel)%nat →
  ∃ w' r, load_plugin accepts_context handle call call_filter arguments payload ops now uuid loads limits find gfuel fuel n c w =
      Some (w', r) ∧
    (∀ x, x ∈ (plugins (w_manager w)).*1 → x ∈ (plugins (w_manager w')).*1) ∧
    match r with
    | Ok _ => settled (w_manager w') n ∧
        (get_plugin n (w_manager w) = None →
         ∀ x, tc (requires (resolver (w_manager w))) n x → settled (w_manager w') x)
    | Err _ => True
    end.
Proof.
  intros Hh Hc Hi Hk Ha Hg Hg' Hf.
  destruct (load_plugin_result accepts_context handle call call_filter arguments payload ops now uuid loads limits [] find Hh Hc Hi
    (resolver (w_manager w)) gfuel Hg Hg' Ha fuel [] n c w Hk) as (w' & r & Hr & Hm & Hs).
  - constructor.
  - by intros y ?%elem_of_nil.
  - cbn. lia.
  - exists w', r. split_and!; [done|apply Hm|]. destruct r; [|done]. destruct Hs as [_ Hs]. split; [by apply Hs; left|].
    intros Hn x Hx. apply Hs. right. split; [done|]. by apply tc_rtc.
Qed.

Lemma two_acyclic x : ¬ tc (wants (resolver (w_manager two))) x x.
Proof.
  assert (∀ a b, wants (resolver (w_manager two)) a b → a = str "app" ∧ b = str "db") as Hw.
  { change (resolver (w_manager two)) with
      [(str "app", {| d_name := str "app"; d_version := str "1.0.0"; dependencies := [(str "db", [])]; optional_dependencies := [] |});
       (str "db", {| d_name := str "db"; d_version := str "1.0.0"; dependencies := []; optional_dependencies := [] |})].
    intros a b [(d & Hd & Hb)|(d & Hd & Hb & _)]; cbn [dict_get] in Hd; repeat case_decide; simplify_eq; cbn in Hb;
      set_solver. }
  assert (∀ a b, tc (wants (resolver (w_manager two))) a b → a = str "app" ∧ b = str "db") as Ht.
  { induction 1 as [a b Hab|a b c Hab _ [_ IH]]; [by apply Hw|]. apply Hw in Hab as [-> _]. done. }
  intros [-> Hx]%Ht. discriminate.
Qed.

Lemma two_known : known (resolver (w_manager two)) (w_manager two).
Proof.
  split; [done|]. intros n Hn. change ((resolver (w_manager two)).*1) with [str "app"; str "db"] in Hn.
  unfold registered in Hn. change ((resolver (w_manager two)).*1) with [str "app"; str "db"] in Hn.
  repeat (apply elem_of_cons in Hn as [->|Hn]); [exists 0%nat|exists 1%nat|by apply elem_of_nil in Hn];
    (split; [by vm_compute|eexists; split; [by vm_compute|done]]).
Qed.

Lemma manager_load_dependencies_witness :
  ∃ w' r, load 9 (str "app") None two = Some (w', r) ∧
    (∀ x, x ∈ (plugins (w_manager two)).*1 → x ∈ (plugins (w_manager w')).*1) ∧
    match r with
    | Ok _ => settled (w_manager w') (str "app") ∧
        (get_plugin (str "app") (w_manager two) = None →
         ∀ x, tc (requires (resolver (w_manager two))) (str "app") x → settled (w_manager w') x)
    | Err _ => True
    end.
Proof.
  apply manager_load_dependencies; [done..|exact two_known|exact two_acyclic| | |]; by apply (bool_decide_unpack _); vm_compute.
Defined.

(** One step of the recursion of two plugins that want one another. *)
Lemma mutual_step fuel n r other :
  (n = str "a" ∧ r = 0%nat ∧ other = str "b" ∨ n = str "b" ∧ r = 1%nat ∧ other = str "a") →
  load fuel other None mutual = None → load (Datatypes.S fuel) n None mutual = None.
Proof.
  intros Hn Ho. unfold load in *. cbn [load_plugin].
  assert (get_plugin n (part mutual) = None) as -> by done.
  assert (locate (λ _ _, None) n mutual = (mutual, Ok (Some r))) as ->.
  { by destruct Hn as [(-> & -> & _)|(-> & -> & _)]; vm_compute. }
  assert (trigger_hook (λ _ : Z, Ok false) handle (λ n _, n) (str "plugin.before_load") n None mutual = (mutual, Ok ())) as -> by done.
  assert (dependency_order 9 n (resolver (part (S := PluginManager.t Z) mutual)) = Some (Ok [str "a"; str "b"])) as ->.
  { by destruct Hn as [(-> & _)|(-> & _)]; vm_compute. }
  assert (∀ d, is_loaded d (part mutual) = false) as Hl by done.
  cbn [load_each]. rewrite !Hl. by destruct Hn as [(-> & _ & ->)|(-> & _ & ->)];
    [rewrite decide_True by done; rewrite decide_False by done|rewrite decide_False by done]; rewrite Ho.
Qed.

(** Two plugins that name one another as optional dependencies, which the search for cycles
    does not follow: loading either of them calls itself without end. *)
Theorem manager_optional_cycle fuel : load fuel (str "a") None mutual = None ∧ load fuel (str "b") None mutual = None.
Proof.
  induction fuel as [|fuel [IHa IHb]]; [done|]. split.
  - apply (mutual_step fuel (str "a") 0 (str "b")); auto.
  - apply (mutual_step fuel (str "b") 1 (str "a")); auto.
Qed.

(** C30: Cleaning up a loaded plugin that does not run isolated takes its handlers, subscriptions
    and services out of the registries, leaves those of the others, and leaves its descriptor
    stopped and without an instance, even if its own [on_cleanup] raised an ordinary exception.
    Whatever [on_cleanup] did, it must have left the plugin's descriptor in place, the hooks
    different objects, and the registry of services well formed: no name that is both a
    singleton and a factory (its second copy would stay, as the example of [leak] shows), no
    alias that is also a service or leads to itself or an older alias, and a description of
    each service and of nothing else. *)
Theorem manager_cleanup_complete {H V C F P S M X E} call call_filter payload (ops : operations (world H V C F P S M X E) X)
    now uuid n r i (w w1 : world H V C F P S M X E) d d1 res0 :
  get_plugin_descriptor n (w_manager w) = Some r → deref (w_manager w) r = Some d →
  d_isolated d = false → d_instance d = Some i →
  op_cleanup ops i w = (w1, res0) → (∀ e, res0 = Err e → is_exception e = true) →
  deref (w_manager w1) r = Some d1 →
  registry_wf (w_hooks w1) → NoDup (EventBus.subscriptions (w_bus w1)).*1 → registry_ok (w_services w1) →
  ∃ w', cleanup_plugin call call_filter payload ops now uuid n w = (w', Ok true) ∧
    forgotten n (w_hooks w') (w_bus w') (w_services w') ∧
    spared (H := H) (C := C) (F := F) (S := S) (M := M) n w1 w' ∧
    deref (w_manager w') r = Some (desc_instance None (desc_state PluginState.STOPPED d1)).
Proof.
  intros Hr Hd Hi Hin Hc Hex Hd1 Hh Hb Hs.
  assert (m_try (op_cleanup ops i) (λ _, m_ret ()) w = (w1, Ok ())) as Et.
  { unfold m_try. rewrite Hc. destruct res0 as [[]|e]; [done|]. by rewrite (Hex e eq_refl). }
  unfold cleanup_plugin, manager. rewrite (m_bind_ok _ _ _ _ _ (on_part_get w)).
  change (part w) with (w_manager w). rewrite Hr. unfold with_desc at 1, manager at 1.
  rewrite (m_bind_ok _ _ _ _ _ (on_part_get w)). change (part w) with (w_manager w). rewrite Hd, Hi, Hin.
  rewrite (m_bind_ok _ _ _ _ _ Et). set (k := m_bind (on_part m_get) _).
  destruct (unregister_everything k n w1 Hh Hb Hs) as (w2 & -> & Hm & [F1 F2 F3] & [S1 S2 S3]). unfold k.
  rewrite (m_bind_ok _ _ _ _ _ (on_part_get w2)). change (part w2) with (w_manager w2).
  assert (∃ m3, (if enable_hot_reload (w_manager w2) then on_watcher (PluginHotReload.unwatch n) else m_ret ()) w2 =
    (set_part m3 w2, Ok ()) ∧ heap m3 = heap (w_manager w1)) as (m3 & E3 & Hm3).
  { rewrite <-Hm. destruct (enable_hot_reload (w_manager w2)); [by eexists|]. exists (w_manager w2). by destruct w2. }
  rewrite (m_bind_ok _ _ _ _ _ E3). unfold m_bind, modify, on_part.
  match goal with |- context [publish _ _ _ _ _ ?t ?p ?w] =>
    destruct (publish_spec call call_filter payload now uuid t p w) as [e ->] end.
  eexists. split; [reflexivity|]. split_and!; [by split|by split|].
  cbn [w_manager set_part world_manager part]. rewrite deref_update, decide_True by done. unfold deref in *. by rewrite Hm3, Hd1.
Qed.

Lemma loaded_registries :
  registry_wf (w_hooks loaded) ∧ bus_wf (w_bus loaded) ∧ registry_ok (w_services loaded).
Proof.
  assert (w_hooks loaded = HookRegistry.init_registry) as -> by (vm_compute; reflexivity).
  assert (w_bus loaded = EventBus.count 2 0 0 0 EventBus.init_bus) as -> by (vm_compute; reflexivity).
  assert (w_services loaded = ServiceRegistry.init_registry) as -> by (vm_compute; reflexivity).
  split_and!; [|split; cbn; [constructor|by intros ? ? ?%elem_of_nil|split; constructor|constructor]|apply registry_ok_init].
  split; cbn; constructor.
Qed.

(** The [on_cleanup] of the examples raises. *)
Lemma manager_cleanup_complete_witness :
  ∃ w', cleanup (str "db") loaded = (w', Ok true) ∧
    forgotten (str "db") (w_hooks w') (w_bus w') (w_services w') ∧
    spared (H := Z) (C := Z) (F := Z) (S := Z) (M := Z) (str "db") loaded w' ∧
    d_state <$> deref (w_manager w') 1 = Some PluginState.STOPPED.
Proof.
  destruct loaded_registries as (Hh & Hb & Hs).
  assert (d_isolated <$> deref (w_manager loaded) 1 = Some false) as Hi by (vm_compute; reflexivity).
  assert (d_instance <$> deref (w_manager loaded) 1 = Some (Some 0%nat)) as Hn by (vm_compute; reflexivity).
  destruct (deref (w_manager loaded) 1) as [d|] eqn:Hd; [|discriminate Hi].
  destruct (manager_cleanup_complete call call_filter (λ p, p) ops (λ _, 0) (λ _, str "u") (str "db") 1 0 loaded loaded d d
    (Err RuntimeError)) as (w' & H1 & H2 & H3 & H4).
  - by vm_compute.
  - exact Hd.
  - by injection Hi.
  - by injection Hn.
  - reflexivity.
  - by intros e [= <-].
  - exact Hd.
  - exact Hh.
  - exact (bw_keys _ Hb).
  - exact Hs.
  - exists w'. split_and!; [exact H1|exact H2|exact H3|]. by rewrite H4.
Defined.

(** C31: A plugin that was disabled cannot be enabled again: disabling unloads it, which takes
    it out of the resolver, and loading it then fails for want of its own entry. It takes
    a new scan of the directories. *)
Theorem manager_enable_disabled {H V A C F P S M X E} `{SetIteration} accepts_context handle call call_filter arguments
    payload (ops : operations (world H V C F P S M X E) X) now uuid dumps loads limits partial find gfuel fuel n w w1 b w2 r :
  (∀ h (a : A) ctx, keeps (handle h a ctx)) →
  disable_plugin accepts_context handle call call_filter arguments payload ops now uuid dumps partial n w = (w1, Ok b) →
  enable_plugin accepts_context handle call call_filter arguments payload ops now uuid dumps loads limits partial find
    gfuel fuel n w1 = Some (w2, r) →
  r ≠ Ok true ∧ get_plugin n (w_manager w2) = None.
Proof.
  intros Hh Hd He. apply disable_plugin_gone in Hd; [|done]. eapply enable_plugin_gone in He as [Hr Hg]; [|done..].
  split; [done|]. unfold get_plugin, get_plugin_descriptor. by rewrite (proj1 Hg).
Qed.

Lemma manager_enable_disabled_witness :
  ∃ w2, enable (str "app") (disable (str "app") loaded).1 = Some (w2, Ok false) ∧
    Ok false ≠ Ok true ∧ get_plugin (str "app") (w_manager w2) = None.
Proof.
  assert (∀ w w1 w2, disable (str "app") w = (w1, Ok true) → enable (str "app") w1 = Some (w2, Ok false) →
    Ok false ≠ Ok true ∧ get_plugin (str "app") (w_manager w2) = None) as Hall.
  { intros w w1 w2. apply (manager_enable_disabled (λ _ : Z, Ok false) handle). intros h a ctx w'. reflexivity. }
  assert (snd <$> enable (str "app") (disable (str "app") loaded).1 = Some (Ok false)) as He by (vm_compute; reflexivity).
  assert ((disable (str "app") loaded).2 = Ok true) as Hd by (vm_compute; reflexivity).
  revert He Hd. generalize loaded. intros w. destruct (disable (str "app") w) as [w1 b] eqn:Hw. cbn [fst snd].
  destruct (enable (str "app") w1) as [[w2 r]|] eqn:Hw1; [|intros He; discriminate He].
  intros [= ->] ->. exists w2. split; [reflexivity|]. by apply (Hall w w1 w2).
Defined.
End Properties.
